(* ===== verification/_CoqProject ===== *)
-Q . S2P
Prelude.v
Slices.v
PyHeap.v
ListCore.v
ListView.v
ListSpec.v
ListAssign.v
ListExtend.v
ListQuery.v
ListQuerySpec.v
ListSubscript.v
ListSubscriptSpec.v
ListIter.v
ListFree.v
TypeCheck.v
DictProbe.v
DictObject.v
DictCore.v
DictTable.v
DictWf.v
DictResize.v
DictHeap.v
DictGrow.v
DictSpec.v
DictOps.v
DictDelete.v
CheckedDict.v
DictQuery.v
DictFree.v
DictUpdate.v
DictMerge.v
DictIter.v
DictIterSpec.v
DictSafe.v
DictRefine.v
DictDemo.v
SortSpec.v
SortMem.v
Gallop.v
Runs.v
Merge.v
MergeLo.v
MergeHi.v
Collapse.v
KeyCompare.v
ListSort.v
CheckedList.v
ListSortSpec.v
ListSortTop.v
IntObjects.v
CheckedListSafe.v
ListSortClaims.v
ListClaims.v
ListSearchClaims.v
ListSubscriptClaims.v
CheckedListClaims.v
DictClaims.v
WsDeque.v
WsDequeInv.v
WsDequeSpec.v
GcHead.v
GcDeduce.v
GcLinks.v
GcLists.v
GcSpec.v
GcRefs.v
GcMove.v
GcCollect.v
GcDemo.v
GcClaims.v
ParDefs.v
ParSpec.v
ParProtocol.v
ParWords.v
ParRefine.v
ParMain.v
ParMove.v
ParRun.v
ParFinish.v
ParClaims.v
