(* ===== verification/Prelude.v ===== *)
(** * Containers and garbage collection of CinderX: root of the development

    CinderX extends CPython with Static Python, whose generic containers
    [CheckedList[T]] and [CheckedDict[K, V]] are written in C, in
    [src/cinderx/StaticPython/checked_list.c] and [checked_dict.c], with the
    element checks of [typed_method_def.c] and [typed_method_def.h], and with a
    cyclic garbage collector that can mark in parallel, in
    [src/cinderx/ParallelGC/parallel_gc.c] and [ws_deque.h].  The files here
    translate that code to executable definitions and prove what it does, on
    every branch, errors, re-entrant calls and interleavings of threads
    included.

    ** How C is modelled

    This file has the monad [M S] of all definitions: a C function from a
    state [S] gives a result ([Ret]), a failure return with an exception set,
    in the state it leaves ([Exn]), [Stuck] for undefined behaviour (an access
    outside its block, a NULL pointer followed, a failed [assert]) or [NoFuel]
    when the bound given to a loop was too small.  [wp m Q X s] says that [m]
    from [s] ends, is not stuck, and that a result satisfies [Q], a failure
    [X]: termination and safety are part of every theorem.  [wpo True] allows
    [NoFuel] and is used where the code of an iterator or a comparison that is
    not ours may go on for ever.  Arithmetic in [size_t] is reduced modulo
    2^64 ([size_t], [ssize_t]); index entries of hash tables are bounded by
    their width.  References taken and dropped are logged, in order.

    Code that is not in the repository is reached through type classes whose
    laws are its documented behaviour: [PyApi] (comparison, allocation, [repr],
    release of objects, for lists), [SliceApi] ([PySlice_AdjustIndices]),
    [KeyApi] (strings, ints, floats and tuples as sort keys, their types, and
    finalisers), [TypeApi] (subtype tests), [DictApi] (the same for dicts).
    Every such call may change the list or the dicts unless a theorem says
    otherwise; hypotheses like [well_behaved] are instantiated in [IntObjects]
    and [DictDemo].  One effect is left out: dropping the last reference to an
    item of a list runs its finaliser, and what that does to the list is
    modelled in the sort ([Py_DECREF_run], on items, keys and what the list held
    meanwhile) and only logged in the other operations of lists, which drop
    references after their last access to the list or right after a comparison,
    whose effect is arbitrary anyway.

    ** Checked lists

    The state is one list object (size, allocated slots, block) beside a
    world that belongs to the interpreter ([PyHeap]).
    - Storage: [ListCore] (resizing, insertion, slices), [ListExtend],
      [ListQuery] (search, comparison, reversal), [ListSubscript], [ListIter],
      [ListFree] (the free list of list objects), [CheckedList] (the methods
      that check types; [chk_op] and [chk_step] are the method table).
      [ListView], [ListSpec], [ListAssign], [ListQuerySpec] and
      [ListSubscriptSpec] hold the lemmas, [CheckedListSafe] the type invariant.
    - Sorting: [SortMem] (the merge state and its temporary array), [Slices],
      [Gallop], [Runs], [Merge], [MergeLo], [MergeHi], [Collapse],
      [KeyCompare] (the pre-sort check), [ListSort] ([list_sort_impl]).
      [SortSpec] is the abstract side: strict weak orders and stability.
      [ListSortSpec] and [ListSortTop] prove the whole.

    The keys of a sort with a key function and the space for its merges share
    one block where they fit; the model keeps them apart, after an assertion
    that the regions the code chooses lie in the block and do not overlap
    ([regions_ok]).

    Theorems: [CheckedListClaims] (after any sequence of the calls of [chk_op]
    the items have type T; the calls for which that fails are lemmas beside
    it), [ListSortClaims] (the sort is the stable reference sort for a sensible
    comparison; whatever comparisons, keys and finalisers do, it ends, is memory
    safe and puts a permutation back before it releases what was stored
    meanwhile), [ListClaims], [ListSubscriptClaims]
    and [ListSearchClaims] (the functional behaviour and the reference counts of
    each operation and of the iterators, and its safety when called-out code
    changes the list).

    ** Checked dicts

    The state is a heap ([DictObject]): dict objects and keys objects by
    address, the free lists of both, the log of references, the world.
    - [DictProbe] has the sizes of tables and the probe sequence, [DictCore]
      the hash table: lookup, insertion, resizing, deletion, clearing;
      [CheckedDict] the methods, new and destroyed dicts and the consistency
      check, [DictUpdate] merging, update, copy and fromkeys, [DictIter] the
      iterators and equality.
    - The invariant of one table is [keys_wf] and [dict_wf] of [DictWf], on top
      of [DictTable] (what an index table holds and what probing finds in it);
      that of the heap is [heap_inv] of [DictHeap]: each dict owns its table or
      shares the empty one, and no block is both free and in use.  [DictResize],
      [DictGrow], [DictSpec], [DictOps], [DictDelete], [DictQuery], [DictFree],
      [DictMerge] and [DictIterSpec] prove the operations against it.
    - The specification is an association list in insertion order: [pairs],
      [dget], [dset], [ddel] of [DictSpec].  [dict_is h mp its] says that the
      dict at [mp] holds the items [its]; [updated] says what an operation
      changed and which references it took.  [DictRefine] is the simulation,
      [DictSafe] the type invariant.

    Theorems: [DictClaims].  A dict refines the association list over any
    sequence of operations; keys and values keep their types under the methods
    of [dict_call] when objects of the key type are hashable and the mappings
    and iterators passed to them leave dicts alone; merging, copying, iterating
    (over keys, values and items, in both directions) and comparing do what they
    do on association lists; probing ends, and tables have room.  They assume that comparing, hashing and
    releasing keys does not itself change dicts ([well_behaved]), except the
    one on probing, which holds for any visit.

    ** Finding garbage

    The state is the headers of all objects ([GcHead]: two machine words per
    object, as CPython lays them out, whose pointer macros are the class
    [GcLayout] with its laws) beside the objects, which [GcApi] reads
    ([tp_traverse], reference counts, [tp_del]).
    - [GcDeduce] has the phases of a collection up to the first call of user
      code: [update_refs], [subtract_refs], [move_unreachable], the legacy
      finalizers, and the check for resurrected objects.
    - [GcSpec] is the abstract side: the references between the objects of a
      list, [external] (how many references to an object come from outside the
      list) and [reachable].  [GcLinks] and [GcLists] say what a doubly linked
      list of headers is ([glist], and [flist] with flagged links) and how the
      list operations change it; [GcRefs] and [GcMove] have the invariants of the
      two loops, [GcCollect] the phases, [GcDemo] a small heap.

    Theorems: [GcClaims].  The counts are exact, the reachable objects stay, the
    others are put aside, no assertion fails, no other header changes.

    ** Marking in parallel

    The workers share memory: here every access to it is a step, and threads
    interleave at the steps.
    - [WsDeque] has the work-stealing deque of [ws_deque.h]; the constructors of
      [dq_pc] are the points between two accesses and [dq_step] makes the next
      one.  [WsDequeInv] has its invariant for one owner and any number of
      thieves, [WsDequeSpec] the specification (a list, on which each operation
      acts at one moment) and the simulation.
    - [ParDefs] has the workers: [worker_pc] the points of [Ci_ParGCWorker_Run]
      and what it calls, [worker_step] the next access, [Ci_ParGCState] the
      barriers, the semaphore, the coordinator and the workers.  [ParMain] has the
      main thread: slices, the start of the workers, [parallel_run] (what the
      threads can reach), [deduce_parallel] (what
      [Ci_deduce_unreachable_parallel] can do), and the creation of the state.
    - [ParSpec] is the abstract protocol: counts, a set of marked objects, a list
      per worker and what each worker still has to do ([view], [vstep]), with the
      invariant [VInv]: before the barrier every count is the external references
      plus what is still to be subtracted; after it, everything that is
      reachable is marked or will be seen, and the number of workers marking
      agrees with who sleeps, the tokens and the announcements of the
      coordinator.  [ParProtocol] proves that every step keeps it.  [ParWords]
      relates counts and marks to the words of the headers, [ParRefine] the
      workers to the protocol, [ParMove] has the main thread's part, [ParRun]
      a run from its start to its end, and [ParFinish] a measure that some thread
      can always make smaller.

    Theorems: [WsDequeSpec.ws_deque_linearizable] and [ParClaims]: the parallel
    collector refines the protocol, ends with the split the serial collector gives,
    marks only what is reachable, neither fails nor deadlocks, and can be completed
    from every state that the threads reach.

    ** Bounds and fuel

    A block of objects holds at most [MAX_ITEMS] = 2^60 - 1 pointers, since an
    allocation has at most [PY_SSIZE_T_MAX] bytes.  [list_resize] computes
    without overflow up to [RESIZE_MAX] = 3 * 2^59 items, more than any list
    in memory has, and length hints are harmless up to [HINT_MAX] = 2^59;
    theorems show the overflow beyond.  Tables have 2^3 to 2^58 slots, for the same
    reason.  Loops over memory take their fuel from a length or a size: a
    probing loop has 14 + [dk_size] steps, 13 to shift the hash out and a
    period of the generator; the loops of the sort have one step per item, and
    the theorems show that it is enough.  [fuel] arguments of lookups bound how
    often comparisons may change the dict and restart the lookup (1 is enough
    for well-behaved keys); [steps] bounds the items an iterator gives.  A loop
    over a list of headers has one step per header that exists ([list_fuel]),
    [move_unreachable] twice as many, since an object is put aside once and
    scanned once.  A parallel collection takes fewer than 2^31 objects and workers
    (the code keeps both in an [int]) and deques whose indices have not passed
    2^62; a collection adds at most the number of its objects to them.

    ** Not modelled

    Printing ([list_repr], [dict_repr]), pickling of dict iterators, the set
    operations of dict views, tracking of objects by the garbage collector,
    class subscription and the type and method tables: string building, calls
    into the interpreter, and data.  The branch of [dict_merge] for
    arbitrary mappings is not reached.  Reference counts of containers,
    iterators and types are not logged, those of items, keys and values are.
    Next are lookups whose comparisons change the dict.

    Of the collector: [gc_collect_main], weak references, finalizers and the
    clearing of garbage, which run user code between the phases; statistics,
    logging, pauses, [validate_list] and the old-space flags of 3.14; the
    destruction of the state.  The memory orders of the atomic accesses are taken
    to give sequentially consistent executions, a section under a lock is one
    step, [calloc] succeeds, and objects do not change while the workers run.
    Every thread is taken to start: the code does not look at what
    [PyThread_start_new_thread] gives, and [ParClaims.unstarted_worker_blocks]
    says that the main thread would wait for ever for one that has not
    started.  That a thread has passed its last barrier is the end
    of it for the next collection.  That the scheduler is fair, and so that a collection
    does end, is not stated; that it always can is.

    Of the rest of CinderX, the class loader with its v-tables and the cached
    properties are C code whose state is that of CPython's types and objects.  The
    JIT compiler is C++, the interpreter loops and the borrowed CPython files are
    generated or copied. *)

From stdpp Require Import base relations list numbers sorting strings.
From Stdlib Require Import ZArith Lia.

#[global] Open Scope Z_scope.

(** ** Machine integers *)

Definition PY_SSIZE_T_MAX : Z := 2 ^ 63 - 1.
Definition SIZE_T_MOD : Z := 2 ^ 64.
(** Conversion to [size_t]: reduction modulo 2^64. *)
Definition size_t (z : Z) : Z := z `mod` SIZE_T_MOD.
(** Conversion of a [size_t] bit pattern to [Py_ssize_t]. *)
Definition ssize_t (z : Z) : Z := (z + 2 ^ 63) `mod` SIZE_T_MOD - 2 ^ 63.
(** Size of an object pointer on the 64-bit targets. *)
Definition SIZEOF_PTR : Z := 8.
Lemma size_t_small x : 0 <= x < SIZE_T_MOD -> size_t x = x.
Proof. apply Z.mod_small. Qed.
Lemma ssize_t_small x : - 2 ^ 63 <= x < 2 ^ 63 -> ssize_t x = x.
Proof. intros Hx. unfold ssize_t, SIZE_T_MOD. rewrite Z.mod_small; lia. Qed.

(** ** Outcomes of C code *)

Inductive exn_type :=
  | MemoryError | IndexError | TypeError | ValueError | OverflowError
  | SystemError | StaticTypeError | KeyError | RuntimeError
  | Foreign.

#[export] Instance exn_type_eq_dec : EqDecision exn_type.
Proof. solve_decision. Defined.

(** A pending Python exception: its type and message ([Foreign] stands for
    whatever an exception raised by called-out code is). *)
Record pyexn := PyErr { exn_ty : exn_type; exn_msg : string }.
Definition no_msg : string := EmptyString.

(** What running a C function from a state [S] can give: a result, a failure
    return with an exception set (the state is kept, as in C), [Stuck] for an
    access outside a block, an uninitialised dereference or a failed [assert],
    and [NoFuel] when the bound given to a loop of the model was too small. *)
Inductive outcome (S A : Type) : Type :=
  | Ret (a : A) (s : S)
  | Exn (e : pyexn) (s : S)
  | Stuck
  | NoFuel.
Arguments Ret {S A} a s.
Arguments Exn {S A} e s.
Arguments Stuck {S A}.
Arguments NoFuel {S A}.

Definition M (S A : Type) : Type := S -> outcome S A.

#[export] Instance M_ret {S} : MRet (M S) := λ A a s, Ret a s.
#[export] Instance M_bind {S} : MBind (M S) := λ A B k m s,
  match m s with
  | Ret a s' => k a s'
  | Exn e s' => Exn e s'
  | Stuck => Stuck
  | NoFuel => NoFuel
  end.

Section ops.
Context {S : Type}.

Definition mget : M S S := λ s, Ret s s.
Definition mput (s : S) : M S unit := λ _, Ret tt s.
Definition mmodify (f : S -> S) : M S unit := λ s, Ret tt (f s).
Definition mraise {A} (ty : exn_type) (msg : string) : M S A :=
  λ s, Exn (PyErr ty msg) s.
Definition mthrow {A} (e : pyexn) : M S A := λ s, Exn e s.
Definition mstuck {A} : M S A := λ _, Stuck.
Definition mnofuel {A} : M S A := λ _, NoFuel.
(** A C [assert]: stops the program when the condition is false. *)
Definition cassert (b : bool) : M S unit := if b then mret tt else mstuck.
(** A partial operation: [None] is an access outside its block. *)
Definition mlift {A} (o : option A) : M S A :=
  match o with Some a => mret a | None => mstuck end.
(** Runs [m] and hands its failure to the caller as a value: the
    [if (f(...) < 0) goto fail;] idiom. *)
Definition mtry {A} (m : M S A) : M S (pyexn + A) := λ s,
  match m s with
  | Ret a s' => Ret (inr a) s'
  | Exn e s' => Ret (inl e) s'
  | Stuck => Stuck
  | NoFuel => NoFuel
  end.
End ops.

(** ** Weakest preconditions

    [wpo nf m Q X s]: from [s], [m] never gets [Stuck]; a result satisfies
    [Q], a failure satisfies [X]; running out of fuel is possible only if [nf].
    [wp] is the total-correctness instance. *)
Section wp.
Context {S : Type}.

Definition wpo (nf : Prop) {A} (m : M S A) (Q : A -> S -> Prop)
    (X : pyexn -> S -> Prop) (s : S) : Prop :=
  match m s with
  | Ret a s' => Q a s'
  | Exn e s' => X e s'
  | Stuck => False
  | NoFuel => nf
  end.

Context {nf : Prop}.

Lemma wp_ret {A} (a : A) Q X s : Q a s -> wpo nf (mret a) Q X s.
Proof. done. Qed.
Lemma wp_bind {A B} (m : M S A) (k : A -> M S B) Q X s :
  wpo nf m (λ a s', wpo nf (k a) Q X s') X s -> wpo nf (m ≫= k) Q X s.
Proof.
  unfold wpo, mbind, M_bind. by destruct (m s).
Qed.
Lemma wp_bind_inv {A B} (m : M S A) (k : A -> M S B) Q X s :
  wpo nf (m ≫= k) Q X s -> wpo nf m (λ a s', wpo nf (k a) Q X s') X s.
Proof.
  unfold wpo, mbind, M_bind. by destruct (m s).
Qed.
Lemma wp_assoc {A B C} (m : M S A) (f : A -> M S B) (k : B -> M S C) Q X s :
  wpo nf ((m ≫= f) ≫= k) Q X s -> wpo nf (m ≫= λ a, f a ≫= k) Q X s.
Proof. unfold wpo, mbind, M_bind. by destruct (m s). Qed.
Lemma wp_conseq {A} (m : M S A) (Q Q' : A -> S -> Prop)
    (X X' : pyexn -> S -> Prop) s :
  wpo nf m Q X s -> (∀ a s', Q a s' -> Q' a s') ->
  (∀ e s', X e s' -> X' e s') -> wpo nf m Q' X' s.
Proof. unfold wpo. destruct (m s); eauto. Qed.
Lemma wp_bind_use {A B} (m : M S A) (k : A -> M S B) Q0 X0 Q X s :
  wpo nf m Q0 X0 s -> (∀ a s', Q0 a s' -> wpo nf (k a) Q X s') ->
  (∀ e s', X0 e s' -> X e s') -> wpo nf (m ≫= k) Q X s.
Proof. intros H1 H2 H3. apply wp_bind. eapply wp_conseq; eauto. Qed.
Lemma wp_get Q X s : Q s s -> wpo nf mget Q X s.
Proof. done. Qed.
Lemma wp_put s' Q X s : Q tt s' -> wpo nf (mput s') Q X s.
Proof. done. Qed.
Lemma wp_modify f Q X s : Q tt (f s) -> wpo nf (mmodify f) Q X s.
Proof. done. Qed.
Lemma wp_raise {A} ty msg (Q : A -> S -> Prop) X s :
  X (PyErr ty msg) s -> wpo nf (mraise ty msg) Q X s.
Proof. done. Qed.
Lemma wp_throw {A} e (Q : A -> S -> Prop) X s :
  X e s -> wpo nf (mthrow e) Q X s.
Proof. done. Qed.
Lemma wp_assert (b : bool) Q X s :
  b = true -> Q tt s -> wpo nf (cassert b) Q X s.
Proof. intros ->. done. Qed.
Lemma wp_lift {A} (o : option A) a (Q : A -> S -> Prop) X s :
  o = Some a -> Q a s -> wpo nf (mlift o) Q X s.
Proof. intros ->. done. Qed.
Lemma wp_try {A} (m : M S A) (Q : pyexn + A -> S -> Prop) X s :
  wpo nf m (λ a s', Q (inr a) s') (λ e s', Q (inl e) s') s ->
  wpo nf (mtry m) Q X s.
Proof. unfold wpo, mtry. by destruct (m s). Qed.
Lemma wp_nofuel {A} (Q : A -> S -> Prop) X s : nf -> wpo nf mnofuel Q X s.
Proof. done. Qed.
End wp.

Abbreviation wp := (wpo False).
(** What cannot fail returns. *)
Lemma wp_returns {S A} (m : M S A) Q s : wp m Q (λ _ _, False) s -> ∃ a s', m s = Ret a s' ∧ Q a s'.
Proof. unfold wpo. destruct (m s) as [a s'| | |]; [|done..]. by exists a, s'. Qed.

(** Total correctness read back on the outcome. *)
Lemma wp_outcome {S A} (m : M S A) Q X s :
  wp m Q X s ->
  (∃ a s', m s = Ret a s' ∧ Q a s') ∨ (∃ e s', m s = Exn e s' ∧ X e s').
Proof. unfold wpo. destruct (m s); naive_solver. Qed.

(** An invariant of the steps holds in every state they reach. *)
Lemma rtc_preserves {S} (R : S -> S -> Prop) (P : S -> Prop) s s' :
  (∀ s1 s2, R s1 s2 -> P s1 -> P s2) -> rtc R s s' -> P s -> P s'.
Proof. intros HR Hr. induction Hr; eauto. Qed.

(** Executions that are known step by step, up to the point where they get
    stuck. *)
Lemma run_bind {S A B} (m : M S A) (k : A -> M S B) s a s' :
  m s = Ret a s' -> (m ≫= k) s = k a s'.
Proof. unfold mbind, M_bind. by intros ->. Qed.
Lemma stuck_bind {S A B} (m : M S A) (k : A -> M S B) s : m s = Stuck -> (m ≫= k) s = Stuck.
Proof. unfold mbind, M_bind. by intros ->. Qed.

(** Runs the first call of a known execution; its result is the first goal. *)
Ltac run_step := eapply eq_trans; [eapply run_bind|].

Create HintDb wpdb.
#[export] Hint Resolve wp_ret wp_get wp_put wp_modify wp_raise wp_throw : wpdb.

(** One step of symbolic execution through the monad's primitives. *)
Ltac wp_step :=
  lazymatch goal with
  | |- wpo _ (mbind _ _) _ _ _ => apply wp_bind
  | |- wpo _ (mret _) _ _ _ => apply wp_ret
  | |- wpo _ mget _ _ _ => apply wp_get
  | |- wpo _ (mput _) _ _ _ => apply wp_put
  | |- wpo _ (mmodify _) _ _ _ => apply wp_modify
  | |- wpo _ (mraise _ _) _ _ _ => apply wp_raise
  | |- wpo _ (mthrow _) _ _ _ => apply wp_throw
  | |- wpo _ (mtry _) _ _ _ => apply wp_try
  | |- wpo _ (let _ := _ in _) _ _ _ => cbv zeta
  end.
Ltac wp_steps := repeat (wp_step; cbv beta).

(** Boolean tests of the model to propositions. *)
Ltac bool_to_prop :=
  repeat match goal with
  | H : (_ && _)%bool = true |- _ => apply andb_prop in H as [? ?]
  | H : (_ <? _) = true |- _ => apply Z.ltb_lt in H
  | H : (_ <? _) = false |- _ => apply Z.ltb_ge in H
  | H : (_ <=? _) = true |- _ => apply Z.leb_le in H
  | H : (_ <=? _) = false |- _ => apply Z.leb_gt in H
  | H : (_ =? _) = true |- _ => apply Z.eqb_eq in H
  | H : (_ =? _) = false |- _ => apply Z.eqb_neq in H
  end.

(** ** Lists by [Z] length *)

Definition Zlen {A} (l : list A) : Z := Z.of_nat (length l).

Section zlen.
Context {A : Type}.
Implicit Types l k : list A.

Lemma Zlen_nil : Zlen (@nil A) = 0.
Proof. done. Qed.
Lemma Zlen_cons x l : Zlen (x :: l) = 1 + Zlen l.
Proof. unfold Zlen. simpl length. lia. Qed.
Lemma Zlen_app l k : Zlen (l ++ k) = Zlen l + Zlen k.
Proof. unfold Zlen. rewrite length_app. lia. Qed.
Lemma Zlen_nonneg l : 0 <= Zlen l.
Proof. unfold Zlen. lia. Qed.
Lemma Zlen_fmap {B} (f : A -> B) l : Zlen (f <$> l) = Zlen l.
Proof. unfold Zlen. by rewrite length_fmap. Qed.
Lemma Zlen_reverse l : Zlen (reverse l) = Zlen l.
Proof. unfold Zlen. by rewrite length_reverse. Qed.
Lemma Zlen_replicate n (x : A) : Zlen (replicate n x) = Z.of_nat n.
Proof. unfold Zlen. by rewrite length_replicate. Qed.
Lemma Zlen_insert i (x : A) l : Zlen (<[i:=x]> l) = Zlen l.
Proof. unfold Zlen. by rewrite length_insert. Qed.
Lemma Zlen_perm l k : l ≡ₚ k -> Zlen l = Zlen k.
Proof. unfold Zlen. by intros ->. Qed.
Lemma Zlen_take n l : 0 <= n <= Zlen l -> Zlen (take (Z.to_nat n) l) = n.
Proof. unfold Zlen. rewrite length_take. lia. Qed.
Lemma Zlen_drop n l : 0 <= n <= Zlen l -> Zlen (drop (Z.to_nat n) l) = Zlen l - n.
Proof. unfold Zlen. rewrite length_drop. lia. Qed.
Lemma Zlen_0_inv l : Zlen l = 0 -> l = [].
Proof. destruct l; [done|]. rewrite Zlen_cons. pose proof (Zlen_nonneg l). lia. Qed.
Lemma Zlen_pos_inv l : 0 < Zlen l -> ∃ x k, l = x :: k.
Proof. destruct l; [done|eauto]. Qed.
Lemma Zlen_pos_inv_r l : 0 < Zlen l -> ∃ k x, l = k ++ [x].
Proof.
  destruct l using rev_ind; [done|]. eauto.
Qed.
Lemma Zlen_1_inv l : Zlen l = 1 -> ∃ x, l = [x].
Proof.
  destruct l as [|x [|y l]]; [done|eauto|].
  rewrite !Zlen_cons. pose proof (Zlen_nonneg l). lia.
Qed.
(** Split a list at an index within its bounds. *)
Lemma Zlen_split n l : 0 <= n <= Zlen l -> ∃ l1 l2, l = l1 ++ l2 ∧ Zlen l1 = n.
Proof.
  intros H. exists (take (Z.to_nat n) l), (drop (Z.to_nat n) l).
  rewrite take_drop. split; [done|]. by apply Zlen_take.
Qed.
End zlen.

Create Rewrite HintDb zlen.
#[global] Hint Rewrite @Zlen_nil @Zlen_cons @Zlen_app @Zlen_fmap @Zlen_reverse
  @Zlen_replicate @Zlen_insert : zlen.

(** Adds that every list length in sight is non-negative. *)
Ltac pose_zlen :=
  repeat match goal with
  | |- context [Zlen ?l] =>
      lazymatch goal with
      | _ : 0 <= Zlen l |- _ => fail
      | _ => pose proof (Zlen_nonneg l)
      end
  | _ : context [Zlen ?l] |- _ =>
      lazymatch goal with
      | _ : 0 <= Zlen l |- _ => fail
      | _ => pose proof (Zlen_nonneg l)
      end
  end.
(** Length arithmetic. *)
Ltac zlia := autorewrite with zlen in *; pose_zlen; lia.

(** Equality of lists up to associativity of [++]. *)
Ltac list_assoc := repeat (progress (simpl; rewrite <- ?app_assoc)); simpl; done.
(** Arithmetic with divisions. *)
Ltac divlia := Z.to_euclidean_division_equations; lia.

(** ** C arrays

    A block of memory is a list of slots; an access is checked against the
    block's bounds and [None] is an access outside it. *)
Section arrays.
Context {A : Type}.
Implicit Types a d s : list A.

Definition aget (a : list A) (i : Z) : option A :=
  if decide (0 <= i) then a !! Z.to_nat i else None.
Definition aset (a : list A) (i : Z) (x : A) : option (list A) :=
  if decide (0 <= i < Zlen a) then Some (<[Z.to_nat i := x]> a) else None.
(** [memmove(&d[i], &s[j], n * sizeof d[0])], reading [s] before writing [d]. *)
Definition blit (d : list A) (i : Z) (s : list A) (j n : Z) : option (list A) :=
  if decide (0 <= n ∧ 0 <= i ∧ i + n <= Zlen d ∧ 0 <= j ∧ j + n <= Zlen s)
  then Some (take (Z.to_nat i) d ++ take (Z.to_nat n) (drop (Z.to_nat j) s)
             ++ drop (Z.to_nat (i + n)) d)
  else None.

Lemma aget_app l x k i : i = Zlen l -> aget (l ++ x :: k) i = Some x.
Proof.
  intros ->. unfold aget, Zlen. rewrite decide_True by lia.
  rewrite Nat2Z.id, lookup_app_r, Nat.sub_diag by done. done.
Qed.
Lemma aget_Some a i x : aget a i = Some x -> 0 <= i < Zlen a.
Proof.
  unfold aget, Zlen. case_decide; [|done]. intros H1%lookup_lt_Some. lia.
Qed.
Lemma aget_lt a i : 0 <= i < Zlen a -> ∃ x, aget a i = Some x.
Proof.
  unfold aget, Zlen. intros H. rewrite decide_True by lia.
  destruct (lookup_lt_is_Some_2 a (Z.to_nat i)) as [x Hx]; [lia|eauto].
Qed.
Lemma aget_app_l l k i : 0 <= i < Zlen l -> aget (l ++ k) i = aget l i.
Proof.
  unfold aget, Zlen. intros H. rewrite !decide_True by lia. apply lookup_app_l. lia.
Qed.
Lemma aget_app_r l k i : Zlen l <= i -> aget (l ++ k) i = aget k (i - Zlen l).
Proof.
  unfold aget, Zlen. intros H. rewrite !decide_True by lia.
  rewrite lookup_app_r by lia. f_equal. lia.
Qed.
(** An index in bounds splits the array around its slot. *)
Lemma aget_split a i x :
  aget a i = Some x -> ∃ l k, a = l ++ x :: k ∧ i = Zlen l.
Proof.
  unfold aget, Zlen. case_decide; [|done]. intros Hx.
  exists (take (Z.to_nat i) a), (drop (S (Z.to_nat i)) a).
  apply lookup_lt_Some in Hx as Hlt.
  split; [by rewrite take_drop_middle|]. rewrite length_take. lia.
Qed.

Lemma aset_app l x y k i : i = Zlen l -> aset (l ++ x :: k) i y = Some (l ++ y :: k).
Proof.
  intros ->. unfold aset. rewrite decide_True by zlia.
  f_equal. unfold Zlen. rewrite Nat2Z.id.
  replace (length l) with (length l + 0)%nat at 1 by lia.
  by rewrite insert_app_r.
Qed.

Lemma blit_app l x k l' y k' i j n :
  i = Zlen l -> j = Zlen l' -> n = Zlen x -> n = Zlen y ->
  blit (l ++ x ++ k) i (l' ++ y ++ k') j n = Some (l ++ y ++ k).
Proof.
  intros -> -> -> Hxy. unfold blit. rewrite decide_True by zlia.
  f_equal. unfold Zlen in *. rewrite !Nat2Z.id.
  rewrite take_app_length, drop_app_length. f_equal. f_equal.
  - replace (length x) with (length y) by lia. by rewrite take_app_length.
  - rewrite app_assoc. rewrite <- Nat2Z.inj_add, Nat2Z.id, <- length_app.
    by rewrite drop_app_length.
Qed.
Lemma blit_Zlen d i s j n d' : blit d i s j n = Some d' -> Zlen d' = Zlen d.
Proof.
  unfold blit, Zlen. case_decide as Hd; [|done]. intros [= <-].
  rewrite !length_app, !length_take, !length_drop. lia.
Qed.
Lemma aset_Some_inv a i x a' :
  aset a i x = Some a' -> 0 <= i < Zlen a ∧ a' = <[Z.to_nat i := x]> a.
Proof. unfold aset. case_decide; [|done]. by intros [= <-]. Qed.
Lemma aset_lt a i x : 0 <= i < Zlen a -> aset a i x = Some (<[Z.to_nat i := x]> a).
Proof. intros H. unfold aset. by rewrite decide_True. Qed.
Lemma aget_insert a i x j :
  0 <= i < Zlen a -> aget (<[Z.to_nat i := x]> a) j = if decide (j = i) then Some x else aget a j.
Proof.
  intros Hi. unfold aget, Zlen in *. repeat case_decide; subst; try lia; try done.
  - rewrite list_lookup_insert, decide_True by (split; [done|lia]). done.
  - by rewrite list_lookup_insert_ne by lia.
Qed.
Lemma aget_replicate n (x : A) j y : aget (replicate n x) j = Some y -> y = x.
Proof. unfold aget. case_decide; [|done]. by intros [-> _]%lookup_replicate. Qed.
Lemma aget_elem a i x : aget a i = Some x -> x ∈ a.
Proof. unfold aget. case_decide; [|done]. apply list_elem_of_lookup_2. Qed.
Lemma elem_aget a x : x ∈ a -> ∃ i, aget a i = Some x.
Proof.
  intros [n Hn]%list_elem_of_lookup. exists (Z.of_nat n).
  unfold aget. by rewrite decide_True, Nat2Z.id by lia.
Qed.
End arrays.

(** Array accesses commute with a per-slot function. *)
Section arrays_fmap.
Context {A B : Type} (f : A -> B).
Implicit Types a d s : list A.

Lemma aget_fmap a i : aget (f <$> a) i = f <$> aget a i.
Proof. unfold aget. case_decide; [|done]. apply list_lookup_fmap. Qed.
Lemma aset_fmap a i x :
  aset (f <$> a) i (f x) = (λ a', f <$> a') <$> aset a i x.
Proof.
  unfold aset. rewrite Zlen_fmap. case_decide; [|done].
  simpl. by rewrite list_fmap_insert.
Qed.
Lemma blit_fmap d i s j n :
  blit (f <$> d) i (f <$> s) j n = (λ a', f <$> a') <$> blit d i s j n.
Proof.
  unfold blit. rewrite !Zlen_fmap. case_decide; [|done].
  simpl. by rewrite !fmap_app, !fmap_take, !fmap_drop.
Qed.
End arrays_fmap.
