(* ===== verification/Slices.v ===== *)
(** * In-place loops on arrays of objects

    [reverse_slice] of [checked_list.c], used by [list.reverse] and by the
    sort, and the insertion shift of [binarysort]. *)

From stdpp Require Import base list numbers.
From S2P Require Import Prelude.

Section slices.
Context {A : Type}.
Implicit Types (a : list A).

(** The [while (lo < hi)] loop: [hi] is the last slot of the slice. *)
Fixpoint reverse_loop (fuel : nat) (a : list A) (lo hi : Z) : option (list A) :=
  match fuel with
  | O => None
  | S fuel =>
      if lo <? hi then
        t ← aget a lo;
        u ← aget a hi;
        a ← aset a lo u;
        a ← aset a hi t;
        reverse_loop fuel a (lo + 1) (hi - 1)
      else Some a
  end.
(** [reverse_slice(a + lo, a + hi)]. *)
Definition reverse_slice (a : list A) (lo hi : Z) : option (list A) :=
  reverse_loop (S (Z.to_nat (hi - lo))) a lo (hi - 1).

(** [for (p = ...; n times; --p) *p = *(p - 1);] *)
Fixpoint shift_up (n : nat) (a : list A) (p : Z) : option (list A) :=
  match n with
  | O => Some a
  | S n => x ← aget a (p - 1); a ← aset a p x; shift_up n a (p - 1)
  end.
(** Slide [a[start]] down to position [l]: shift, then store the pivot. *)
Definition slide (a : list A) (l start : Z) : option (list A) :=
  pivot ← aget a start;
  a ← shift_up (Z.to_nat (start - l)) a start;
  aset a l pivot.

Lemma reverse_loop_spec fuel pre x post lo hi :
  lo = Zlen pre -> hi = Zlen pre + Zlen x - 1 -> Zlen x < Z.of_nat fuel ->
  reverse_loop fuel (pre ++ x ++ post) lo hi = Some (pre ++ reverse x ++ post).
Proof.
  revert pre x post lo hi. induction fuel as [|fuel IH]; intros pre x post lo hi Hlo Hhi Hf.
  { pose_zlen. lia. }
  simpl. destruct (lo <? hi) eqn:Hc; bool_to_prop.
  2:{ destruct x as [|y [|z x]]; [done|done|]. zlia. }
  destruct x as [|t x]; [zlia|].
  destruct x as [|u y _] using rev_ind; [zlia|].
  replace (pre ++ (t :: y ++ [u]) ++ post) with (pre ++ t :: (y ++ u :: post))
    by list_assoc.
  rewrite (aget_app _ _ _ lo) by done. simpl.
  replace (pre ++ t :: (y ++ u :: post)) with ((pre ++ t :: y) ++ u :: post)
    by list_assoc.
  rewrite (aget_app _ _ _ hi) by zlia. simpl.
  rewrite <- app_assoc. simpl. rewrite (aset_app _ _ _ _ lo) by done. simpl.
  replace (pre ++ u :: (y ++ u :: post)) with ((pre ++ u :: y) ++ u :: post)
    by list_assoc.
  rewrite aset_app by zlia. simpl.
  replace ((pre ++ u :: y) ++ t :: post) with ((pre ++ [u]) ++ y ++ t :: post)
    by list_assoc.
  rewrite IH by zlia. f_equal.
  rewrite reverse_cons, reverse_app. rewrite <- !app_assoc. done.
Qed.
Lemma reverse_slice_spec pre x post lo hi :
  lo = Zlen pre -> hi = Zlen pre + Zlen x ->
  reverse_slice (pre ++ x ++ post) lo hi = Some (pre ++ reverse x ++ post).
Proof.
  intros -> ->. apply reverse_loop_spec; [done|done|]. pose_zlen. lia.
Qed.

Lemma shift_up_spec pre y z post n p :
  n = length y -> p = Zlen pre + Zlen y ->
  ∃ w, shift_up n (pre ++ y ++ z :: post) p = Some (pre ++ w :: y ++ post).
Proof.
  intros -> ->. revert z post. induction y as [|u y IH] using rev_ind; intros z post.
  { by exists z. }
  rewrite length_app, Nat.add_1_r. simpl.
  replace (pre ++ (y ++ [u]) ++ z :: post) with ((pre ++ y) ++ u :: z :: post)
    by list_assoc.
  rewrite aget_app by zlia. simpl.
  replace ((pre ++ y) ++ u :: z :: post) with ((pre ++ y ++ [u]) ++ z :: post)
    by list_assoc.
  rewrite aset_app by zlia. simpl.
  replace ((pre ++ y ++ [u]) ++ u :: post) with (pre ++ y ++ u :: (u :: post))
    by list_assoc.
  destruct (IH u (u :: post)) as [w Hw]. exists w.
  replace (Zlen pre + Zlen (y ++ [u]) - 1) with (Zlen pre + Zlen y) by zlia.
  rewrite Hw. by rewrite <- app_assoc.
Qed.
Lemma slide_spec pre y c post l start :
  l = Zlen pre -> start = Zlen pre + Zlen y ->
  slide (pre ++ y ++ c :: post) l start = Some (pre ++ c :: y ++ post).
Proof.
  intros -> ->. unfold slide.
  replace (pre ++ y ++ c :: post) with ((pre ++ y) ++ c :: post) by list_assoc.
  rewrite aget_app by zlia. simpl. rewrite <- app_assoc.
  destruct (shift_up_spec pre y c post (Z.to_nat (Zlen pre + Zlen y - Zlen pre))
    (Zlen pre + Zlen y)) as [w ->]; [unfold Zlen; lia|done|].
  simpl. by rewrite aset_app.
Qed.
End slices.

Section slices_fmap.
Context {A B : Type} (f : A -> B).

Lemma reverse_slice_fmap pre (x : list A) post lo hi :
  lo = Zlen pre -> hi = Zlen pre + Zlen x ->
  reverse_slice (f <$> (pre ++ x ++ post)) lo hi = Some (f <$> (pre ++ reverse x ++ post)).
Proof.
  intros Hlo Hhi. rewrite !fmap_app, fmap_reverse.
  apply reverse_slice_spec; by rewrite ?Zlen_fmap.
Qed.
Lemma slide_fmap pre (y : list A) c post l start :
  l = Zlen pre -> start = Zlen pre + Zlen y ->
  slide (f <$> (pre ++ y ++ c :: post)) l start = Some (f <$> (pre ++ c :: y ++ post)).
Proof.
  intros Hlo Hhi. rewrite !fmap_app, !fmap_cons, fmap_app.
  apply slide_spec; by rewrite ?Zlen_fmap.
Qed.
End slices_fmap.
