(* ===== verification/PyHeap.v ===== *)
(** * Python objects as the checked list code sees them

    The [PyListObject] structure, the state that the list operations act on
    and the interface to the interpreter.  Code outside the repository
    (the allocator, rich comparison, iteration) is reached only through the
    class [PyApi]; the theorems are proved for every instance of it. *)

From stdpp Require Import base list numbers strings.
From S2P Require Import Prelude.

(** ** [PyListObject]

    [ob_item = None] is the NULL pointer; a block is the list of its slots,
    the slots from [ob_size] on holding whatever was there. *)
Record listobj (V : Type) := ListObj {
  ob_item : option (list V);
  ob_size : Z;
  allocated : Z
}.
Arguments ListObj {V} _ _ _.
Arguments ob_item {V} _.
Arguments ob_size {V} _.
Arguments allocated {V} _.

(** A reference-count event.  A [Py_DECREF] can run arbitrary Python code
    (a finaliser), so its event keeps the list as that code would find it: the
    theorems on the operations say that this list is in shape ([log_wf]).  What
    the finaliser then does to the list is part of the model in the sort only
    ([Py_DECREF_run] of [KeyCompare]); in the other operations a release has no
    effect but its event. *)
Inductive event (V : Type) :=
  | Incref (v : V)
  | Decref (v : V) (seen : listobj V).
Arguments Incref {V} v.
Arguments Decref {V} v seen.

(** The state: the list being operated on, the reference-count events in
    order, newest first, and the rest of the interpreter. *)
Record heap (V E : Type) := Heap {
  self : listobj V;
  log : list (event V);
  env : E
}.
Arguments Heap {V E} _ _ _.
Arguments self {V E} _.
Arguments log {V E} _.
Arguments env {V E} _.

Inductive cmp_op := Py_LT | Py_LE | Py_EQ | Py_NE | Py_GT | Py_GE.
#[export] Instance cmp_op_eq_dec : EqDecision cmp_op.
Proof. solve_decision. Defined.

(** The interpreter: [junk] fills uninitialised slots; [py_malloc n] is
    whether an allocation of [n] bytes succeeds, which it never does beyond
    [PY_SSIZE_T_MAX] bytes; [py_rich op v w] is
    [PyObject_RichCompareBool] and [py_call f v] is [PyObject_CallOneArg],
    [None] when they raise; [py_repr v] is [repr(v)] in an error message.  All of
    them run Python code, so they may change the whole state. *)
Class PyApi (V E : Type) := {
  junk : V;
  py_malloc : Z -> E -> bool * E;
  py_malloc_limit : ∀ bytes e, PY_SSIZE_T_MAX < bytes -> (py_malloc bytes e).1 = false;
  py_rich : cmp_op -> V -> V -> heap V E -> option bool * heap V E;
  py_call : V -> V -> heap V E -> option V * heap V E;
  py_repr : V -> heap V E -> (pyexn + string) * heap V E
}.

(** The largest block of objects: [PY_SSIZE_T_MAX] bytes of pointers. *)
Definition MAX_ITEMS : Z := PY_SSIZE_T_MAX `div` SIZEOF_PTR.

Section heap_ops.
Context {V E : Type} {api : PyApi V E}.

Definition PM (A : Type) : Type := M (heap V E) A.

Definition set_self (l : listobj V) (h : heap V E) : heap V E :=
  Heap l (log h) (env h).
Definition set_env (e : E) (h : heap V E) : heap V E :=
  Heap (self h) (log h) e.
Definition add_event (ev : event V) (h : heap V E) : heap V E :=
  Heap (self h) (ev :: log h) (env h).

Definition get_self : PM (listobj V) := λ h, Ret (self h) h.
Definition put_self (l : listobj V) : PM unit := mmodify (set_self l).
Definition Py_INCREF (v : V) : PM unit := mmodify (add_event (Incref v)).
Definition Py_DECREF (v : V) : PM unit :=
  mmodify (λ h, add_event (Decref v (self h)) h).
(** [PyMem_Malloc]/[PyMem_Realloc] of a number of bytes. *)
Definition PyMem_alloc (bytes : Z) : PM bool := λ h,
  let '(ok, e) := py_malloc bytes (env h) in Ret ok (set_env e h).
Definition PyObject_RichCompareBool (v w : V) (op : cmp_op) : PM bool := λ h,
  match py_rich op v w h with
  | (Some b, h') => Ret b h'
  | (None, h') => Exn (PyErr Foreign no_msg) h'
  end.

(** The result of a call is a new reference. *)
Definition PyObject_CallOneArg (f v : V) : PM V := λ h,
  match py_call f v h with
  | (Some r, h') => Ret r (add_event (Incref r) h')
  | (None, h') => Exn (PyErr Foreign no_msg) h'
  end.
(** [Py_DECREF] of each of a list of references, in order. *)
Fixpoint decref_all (l : list V) : PM unit :=
  match l with
  | [] => mret tt
  | v :: l => _ ← Py_DECREF v; decref_all l
  end.

(** [Py_SET_SIZE] and the other field updates. *)
Definition with_size (n : Z) (l : listobj V) : listobj V :=
  ListObj (ob_item l) n (allocated l).
Definition Py_SET_SIZE (n : Z) : PM unit :=
  l ← get_self; put_self (with_size n l).

(** [self->ob_item[i]] as a value and as an lvalue. *)
Definition item_get (i : Z) : PM V :=
  l ← get_self; mlift (ob_item l ≫= λ a, aget a i).
Definition item_set (i : Z) (v : V) : PM unit :=
  l ← get_self;
  a ← mlift (ob_item l ≫= λ a, aset a i v);
  put_self (ListObj (Some a) (ob_size l) (allocated l)).

(** The block that [realloc] leaves: the old slots that fit, then junk. *)
Definition realloc_block (old : option (list V)) (bytes : Z) : list V :=
  let n := Z.to_nat (bytes `div` SIZEOF_PTR) in
  take n (default [] old) ++ replicate (n - length (default [] old)) junk.

(** The elements of a list: the first [ob_size] slots. *)
Definition items (l : listobj V) : list V :=
  take (Z.to_nat (ob_size l)) (default [] (ob_item l)).

(** The shape every list has between operations. *)
Definition list_wf (l : listobj V) : Prop :=
  match ob_item l with
  | None => ob_size l = 0 ∧ allocated l = 0
  | Some a => Zlen a = allocated l ∧ 0 <= ob_size l <= allocated l ∧ allocated l <= MAX_ITEMS
  end.

(** The number of references a log took minus those it released. *)
Fixpoint refs_taken `{EqDecision V} (v : V) (lg : list (event V)) : Z :=
  match lg with
  | [] => 0
  | Incref w :: lg => refs_taken v lg + (if decide (w = v) then 1 else 0)
  | Decref w _ :: lg => refs_taken v lg - (if decide (w = v) then 1 else 0)
  end.

(** Every release of a reference happened with the list in shape. *)
Definition log_wf (lg : list (event V)) : Prop :=
  Forall (λ ev, match ev with Decref _ l => list_wf l | Incref _ => True end) lg.
End heap_ops.

#[global] Arguments PM V E A : clear implicits.

Lemma MAX_ITEMS_val : MAX_ITEMS = 2 ^ 60 - 1.
Proof. done. Qed.
