(* ===== verification/ListCore.v ===== *)
(** * The list operations of [checked_list.c]: storage

    Resizing, insertion, item and slice access and assignment, on the list
    object of the state.  The arguments of the C functions that are other
    objects are values here; an argument that may be the list itself is
    [ASelf]. *)

From stdpp Require Import base list numbers strings.
From S2P Require Import Prelude PyHeap.

(** A sequence given to an operation: the list itself (of which
    [PySequence_Fast] makes a new list, a checked list not being an exact list),
    an exact list or tuple with these items, or an iterable from which
    [PySequence_Fast] makes a new list by running it: it may give the items, not
    be iterable ([inl None]), or raise. *)
Inductive seq_arg (V E : Type) :=
  | ASelf
  | ASeq (vs : list V)
  | AIterable (run : heap V E -> (option pyexn + list V) * heap V E).
Arguments ASelf {V E}.
Arguments ASeq {V E} vs.
Arguments AIterable {V E} run.

Section core.
Context {V E : Type} {api : PyApi V E}.

Definition get_size : PM V E Z := l ← get_self; mret (ob_size l).
(** The slots of [self->ob_item]; NULL has none. *)
Definition get_block : PM V E (list V) := l ← get_self; mret (default [] (ob_item l)).

(** ** Storage *)

(** [(x + ...) & ~(size_t)3]. *)
Definition round4 (x : Z) : Z := Z.land (size_t x) (SIZE_T_MOD - 4).
Definition growth (newsize size : Z) : Z :=
  let new_allocated := round4 (newsize + Z.shiftr newsize 3 + 6) in
  let new_allocated :=
    if ssize_t (new_allocated - newsize) <? newsize - size then round4 (newsize + 3)
    else new_allocated in
  if newsize =? 0 then 0 else new_allocated.
Definition list_resize (newsize : Z) : PM V E unit :=
  l ← get_self;
  if (newsize <=? allocated l) && (Z.shiftr (allocated l) 1 <=? newsize) then
    _ ← cassert (bool_decide (ob_item l ≠ None) || (newsize =? 0));
    Py_SET_SIZE newsize
  else
    let new_allocated := growth newsize (ob_size l) in
    let num_allocated_bytes := size_t (new_allocated * SIZEOF_PTR) in
    ok ← PyMem_alloc num_allocated_bytes;
    if ok : bool then
      put_self (ListObj (Some (realloc_block (ob_item l) num_allocated_bytes)) newsize
                  (ssize_t new_allocated))
    else mraise MemoryError no_msg.

(** [PyMem_New(PyObject*, size)]. *)
Definition PyMem_New (size : Z) : PM V E (option (list V)) :=
  if PY_SSIZE_T_MAX `div` SIZEOF_PTR <? size_t size then mret None
  else
    ok ← PyMem_alloc (size * SIZEOF_PTR);
    mret (if ok : bool then Some (replicate (Z.to_nat size) junk) else None).
Definition list_preallocate_exact (size : Z) : PM V E unit :=
  l ← get_self;
  _ ← cassert (bool_decide (ob_item l = None));
  _ ← cassert (0 <? size);
  items ← PyMem_New size;
  match items with
  | None => mraise MemoryError no_msg
  | Some items => put_self (ListObj (Some items) (ob_size l) size)
  end.
(** A new list with room for [size] items: its block. *)
Definition list_new_prealloc (size : Z) : PM V E (list V) :=
  _ ← cassert (0 <? size);
  items ← PyMem_New size;
  match items with None => mraise MemoryError no_msg | Some items => mret items end.

Definition valid_index (i limit : Z) : bool := size_t i <? size_t limit.

(** [for (i = n; --i >= where;) items[i + 1] = items[i];] *)
Fixpoint shift_right (fuel : nat) (i where_ : Z) : PM V E unit :=
  match fuel with
  | O => mnofuel
  | S fuel =>
      let i := i - 1 in
      if where_ <=? i then
        v ← item_get i; _ ← item_set (i + 1) v; shift_right fuel i where_
      else mret tt
  end.
Definition ins1 (where_ : Z) (v : V) : PM V E unit :=
  n ← get_size;
  _ ← cassert (size_t n + 1 <? PY_SSIZE_T_MAX);
  _ ← list_resize (n + 1);
  let where_ := if where_ <? 0 then (if where_ + n <? 0 then 0 else where_ + n) else where_ in
  let where_ := if n <? where_ then n else where_ in
  _ ← shift_right (S (Z.to_nat n)) n where_;
  _ ← Py_INCREF v;
  item_set where_ v.
Definition app1 (v : V) : PM V E unit :=
  n ← get_size;
  _ ← cassert (size_t n + 1 <? PY_SSIZE_T_MAX);
  _ ← list_resize (n + 1);
  _ ← Py_INCREF v;
  item_set n v.

(** [for (...) { v = src[i]; Py_INCREF(v); dest[j] = v; }], on two blocks. *)
Fixpoint copy_refs (n : nat) (src : list V) (i : Z) (dest : list V) (j : Z) : PM V E (list V) :=
  match n with
  | O => mret dest
  | S n =>
      v ← mlift (aget src i);
      _ ← Py_INCREF v;
      dest ← mlift (aset dest j v);
      copy_refs n src (i + 1) dest (j + 1)
  end.
(** [while (--i >= 0) Py_XDECREF(a[i]);] *)
Fixpoint decref_down (i : nat) (a : list V) : PM V E unit :=
  match i with
  | O => mret tt
  | S i => v ← mlift (aget a (Z.of_nat i)); _ ← Py_DECREF v; decref_down i a
  end.

(** ** Reading *)

Definition list_item (i : Z) : PM V E V :=
  size ← get_size;
  if negb (valid_index i size) then mraise IndexError "list index out of range"
  else v ← item_get i; _ ← Py_INCREF v; mret v.
(** The new list of [list_slice]. *)
Definition list_slice (ilow ihigh : Z) : PM V E (listobj V) :=
  let len := ihigh - ilow in
  if len <=? 0 then mret (ListObj None 0 0)
  else
    dest ← list_new_prealloc len;
    src ← get_block;
    dest ← copy_refs (Z.to_nat len) src ilow dest 0;
    mret (ListObj (Some dest) len len).
(** [bb] is [None] when it is not a list. *)
Definition list_concat (bb : option (listobj V)) : PM V E (listobj V) :=
  match bb with
  | None => mraise TypeError "can only concatenate list"
  | Some b =>
      a ← get_self;
      _ ← cassert (size_t (ob_size a) + size_t (ob_size b) <? PY_SSIZE_T_MAX);
      let size := ob_size a + ob_size b in
      if size =? 0 then mret (ListObj None 0 0)
      else
        dest ← list_new_prealloc size;
        dest ← copy_refs (Z.to_nat (ob_size a)) (default [] (ob_item a)) 0 dest 0;
        dest ← copy_refs (Z.to_nat (ob_size b)) (default [] (ob_item b)) 0 dest (ob_size a);
        mret (ListObj (Some dest) size size)
  end.
Fixpoint repeat_one (n : nat) (elem : V) (dest : list V) (i : Z) : PM V E (list V) :=
  match n with
  | O => mret dest
  | S n =>
      dest ← mlift (aset dest i elem);
      _ ← Py_INCREF elem;
      repeat_one n elem dest (i + 1)
  end.
Fixpoint repeat_all (n : nat) (size : Z) (src dest : list V) (p : Z) : PM V E (list V) :=
  match n with
  | O => mret dest
  | S n =>
      dest ← copy_refs (Z.to_nat size) src 0 dest p;
      repeat_all n size src dest (p + size)
  end.
Definition list_repeat (n : Z) : PM V E (listobj V) :=
  a ← get_self;
  let n := if n <? 0 then 0 else n in
  if (0 <? n) && (PY_SSIZE_T_MAX `div` n <? ob_size a) then mraise MemoryError no_msg
  else
    let size := ob_size a * n in
    if size =? 0 then mret (ListObj None 0 0)
    else
      dest ← list_new_prealloc size;
      let src := default [] (ob_item a) in
      dest ← (if ob_size a =? 1 then
                elem ← mlift (aget src 0); repeat_one (Z.to_nat n) elem dest 0
              else repeat_all (Z.to_nat n) (ob_size a) src dest 0);
      mret (ListObj (Some dest) size size).

(** ** Clearing and assigning *)

Definition list_clear_ : PM V E unit :=
  a ← get_self;
  match ob_item a with
  | None => mret tt
  | Some item => _ ← put_self (ListObj None 0 0); decref_down (Z.to_nat (ob_size a)) item
  end.

(** [memmove(&item[i], &item[j], n * sizeof(PyObject* ))]. *)
Definition move_items (i j n : Z) : PM V E unit :=
  l ← get_self;
  if n =? 0 then mret tt
  else
    a ← mlift (ob_item l ≫= λ a, blit a i a j n);
    put_self (ListObj (Some a) (ob_size l) (allocated l)).
(** [memcpy(&item[i], recycle, n * sizeof(PyObject* ))], from another block. *)
Definition write_items (i : Z) (src : list V) : PM V E unit :=
  l ← get_self;
  if Zlen src =? 0 then mret tt
  else
    a ← mlift (ob_item l ≫= λ a, blit a i src 0 (Zlen src));
    put_self (ListObj (Some a) (ob_size l) (allocated l)).
(** [for (k = 0; k < n; k++, ilow++) { w = vitem[k]; INCREF; item[ilow] = w; }] *)
Fixpoint store_items (vs : list V) (ilow : Z) : PM V E unit :=
  match vs with
  | [] => mret tt
  | w :: vs => _ ← Py_INCREF w; _ ← item_set ilow w; store_items vs (ilow + 1)
  end.

(** The bounds of a slice, clipped to the list. *)
Definition clip (ilow ihigh size : Z) : Z * Z :=
  let ilow := if ilow <? 0 then 0 else if size <? ilow then size else ilow in
  let ihigh := if ihigh <? ilow then ilow else if size <? ihigh then size else ihigh in
  (ilow, ihigh).
(** [list_ass_slice] once the new items are known. *)
Definition ass_slice_items (ilow ihigh : Z) (vs : list V) : PM V E unit :=
  let n := Zlen vs in
  size ← get_size;
  let '(ilow, ihigh) := clip ilow ihigh size in
  let norig := ihigh - ilow in
  let d := n - norig in
  if size + d =? 0 then list_clear_
  else
    let s := size_t (norig * SIZEOF_PTR) in
    ok ← (if 8 * SIZEOF_PTR <? s then PyMem_alloc s else mret true);
    if negb ok then mraise MemoryError no_msg
    else
      item ← get_block;
      recycle ← (if s =? 0 then mret []
                 else mlift (blit (replicate (Z.to_nat norig) junk) 0 item ilow norig));
      _ ← (if d <? 0 then
             let tail := size - ihigh in
             _ ← move_items (ihigh + d) ihigh tail;
             r ← mtry (list_resize (size + d));
             match r with
             | inl e =>
                 _ ← move_items ihigh (ihigh + d) tail;
                 _ ← write_items ilow recycle;
                 mthrow e
             | inr _ => mret tt
             end
           else if 0 <? d then
             _ ← list_resize (size + d);
             move_items (ihigh + d) ihigh (size - ihigh)
           else mret tt);
      _ ← store_items vs ilow;
      decref_down (Z.to_nat norig) recycle.

(** [PySequence_Fast]: the items, and whether they are those of a new list,
    whose references end with it.  The new list is made of the list itself
    when there is memory for it. *)
Definition PySequence_Fast (v : seq_arg V E) (message : string) : PM V E (list V * bool) :=
  match v with
  | ASelf => λ h, let vs := items (self h) in
      let '(ok, e) := py_malloc (SIZEOF_PTR * Zlen vs) (env h) in
      if ok : bool then Ret (vs, true) (Heap (self h) (reverse (Incref <$> vs) ++ log h) e)
      else Exn (PyErr MemoryError no_msg) (set_env e h)
  | ASeq vs => mret (vs, false)
  | AIterable run => λ h,
      match run h with
      | (inr vs, h) => Ret (vs, true) (Heap (self h) (reverse (Incref <$> vs) ++ log h) (env h))
      | (inl None, h) => Exn (PyErr TypeError message) h
      | (inl (Some e), h) => Exn e h
      end
  end.
(** [Py_DECREF] of what [PySequence_Fast] returned. *)
Definition release_seq (vs : list V) (fresh : bool) : PM V E unit :=
  if fresh then decref_down (length vs) vs else mret tt.
(** Run [m], then release the sequence, on success and on failure. *)
Definition with_seq {A} (vs : list V) (fresh : bool) (m : PM V E A) : PM V E A :=
  r ← mtry m;
  _ ← release_seq vs fresh;
  match r with inl e => mthrow e | inr a => mret a end.

(** [v = None] deletes. *)
Definition list_ass_slice (ilow ihigh : Z) (v : option (seq_arg V E)) : PM V E unit :=
  match v with
  | None => ass_slice_items ilow ihigh []
  | Some ASelf =>
      size ← get_size;
      b ← list_slice 0 size;
      with_seq (items b) true (ass_slice_items ilow ihigh (items b))
  | Some v =>
      '(vs, fresh) ← PySequence_Fast v "can only assign an iterable";
      with_seq vs fresh (ass_slice_items ilow ihigh vs)
  end.

(** [Py_SETREF(a->ob_item[i], v)] after [Py_INCREF(v)]. *)
Definition list_ass_item (i : Z) (v : option V) : PM V E unit :=
  size ← get_size;
  if negb (valid_index i size) then mraise IndexError "list assignment index out of range"
  else
    match v with
    | None => list_ass_slice i (i + 1) None
    | Some v =>
        _ ← Py_INCREF v;
        old ← item_get i;
        _ ← item_set i v;
        Py_DECREF old
    end.

(** [for (j = 0; j < size; j++) { o = items[j]; INCREF; items[p++] = o; }] *)
Fixpoint repeat_items (n : nat) (j p : Z) : PM V E unit :=
  match n with
  | O => mret tt
  | S n =>
      o ← item_get j; _ ← Py_INCREF o; _ ← item_set p o; repeat_items n (j + 1) (p + 1)
  end.
Fixpoint repeat_times (n : nat) (size p : Z) : PM V E unit :=
  match n with
  | O => mret tt
  | S n => _ ← repeat_items (Z.to_nat size) 0 p; repeat_times n size (p + size)
  end.
Definition list_inplace_repeat (n : Z) : PM V E unit :=
  size ← get_size;
  if (size =? 0) || (n =? 1) then mret tt
  else if n <? 1 then list_clear_
  else if PY_SSIZE_T_MAX `div` n <? size then mraise MemoryError no_msg
  else
    _ ← list_resize (size * n);
    repeat_times (Z.to_nat (n - 1)) size size.

(** [None]: the pop failed in [list_resize] or [list_ass_slice]. *)
Definition list_pop_impl (index : Z) : PM V E V :=
  size ← get_size;
  if size =? 0 then mraise IndexError "pop from empty list"
  else
    let index := if index <? 0 then index + size else index in
    if negb (valid_index index size) then mraise IndexError "pop index out of range"
    else
      v ← item_get index;
      if index =? size - 1 then
        _ ← list_resize (size - 1); mret v
      else
        _ ← Py_INCREF v;
        r ← mtry (list_ass_slice index (index + 1) None);
        match r with
        | inl e => _ ← Py_DECREF v; mthrow e
        | inr _ => mret v
        end.
End core.
