(* ===== verification/ListView.v ===== *)
(** * Reasoning about the list object

    [view l its]: the list [l] is in shape and holds the items [its].  The
    lemmas of this file step through the accesses of the list operations in
    these terms, and give the exact reference-count events. *)

From stdpp Require Import base list numbers strings.
From S2P Require Import Prelude PyHeap ListCore.

(** The list as [list_sort_impl] leaves it to the code it calls. *)
Definition detached {V} : listobj V := ListObj None 0 (-1).
Definition self_ok {V} (l : listobj V) : Prop := list_wf l ∨ l = detached.

(** ** The size computation of [list_resize] *)

Lemma round4_val x : 0 <= x < SIZE_T_MOD -> round4 x = 4 * (x `div` 4).
Proof.
  intros Hx. unfold round4, size_t. rewrite Z.mod_small by done.
  change (SIZE_T_MOD - 4) with (Z.land (Z.ones 64) (Z.lnot (Z.ones 2))).
  rewrite Z.land_assoc, Z.land_ones by lia. change (2 ^ 64) with SIZE_T_MOD.
  rewrite Z.mod_small by done. rewrite <- Z.ldiff_land, Z.ldiff_ones_r by lia.
  rewrite Z.shiftl_mul_pow2, Z.shiftr_div_pow2 by lia. change (2 ^ 2) with 4. lia.
Qed.

(** Sizes that [list_resize] handles without overflow: any list that fits in
    memory has fewer items. *)
Definition RESIZE_MAX : Z := 3 * 2 ^ 59.
Lemma MAX_ITEMS_lt : MAX_ITEMS + 1 <= RESIZE_MAX.
Proof. done. Qed.

Lemma growth_bounds n size :
  0 <= n <= RESIZE_MAX -> 0 <= size <= RESIZE_MAX ->
  let g := growth n size in
  n <= g <= n + n `div` 8 + 6 ∧ g `mod` 4 = 0 ∧ (n = 0 -> g = 0).
Proof.
  intros Hn Hs g. subst g. unfold growth, RESIZE_MAX in *. cbv zeta.
  rewrite Z.shiftr_div_pow2 by lia. change (2 ^ 3) with 8.
  rewrite !round4_val by (unfold SIZE_T_MOD; divlia).
  destruct (n =? 0) eqn:E1; bool_to_prop; [subst; divlia|].
  destruct (_ <? _); divlia.
Qed.
Lemma valid_index_spec i limit :
  0 <= limit < 2 ^ 63 -> - 2 ^ 63 <= i < 2 ^ 63 ->
  valid_index i limit = (0 <=? i) && (i <? limit).
Proof.
  intros Hl Hi. unfold valid_index. rewrite (size_t_small limit) by (unfold SIZE_T_MOD; lia).
  destruct (0 <=? i) eqn:E; bool_to_prop; simpl.
  - rewrite size_t_small by (unfold SIZE_T_MOD; lia). done.
  - unfold size_t. replace i with (i + SIZE_T_MOD - 1 * SIZE_T_MOD) by lia.
    rewrite <- Zminus_mod_idemp_r, Z.mod_mul, Z.sub_0_r by done.
    rewrite Z.mod_small by (unfold SIZE_T_MOD; lia). unfold SIZE_T_MOD. lia.
Qed.

(** ** The shape of a list *)

Section view.
Context {V : Type}.
Implicit Types (its slack : list V) (l : listobj V).

(** A list with a block: its items, then the free slots. *)
Definition lobj its slack : listobj V :=
  ListObj (Some (its ++ slack)) (Zlen its) (Zlen its + Zlen slack).
Definition null_list : listobj V := ListObj None 0 0.
Inductive view : listobj V -> list V -> Prop :=
  | view_null : view null_list []
  | view_block its slack : Zlen its + Zlen slack <= MAX_ITEMS -> view (lobj its slack) its.

Lemma items_lobj its slack : items (lobj its slack) = its.
Proof. unfold items, lobj, Zlen. simpl. rewrite Nat2Z.id. apply take_app_length. Qed.
Lemma view_wf l its : view l its -> list_wf l ∧ items l = its.
Proof.
  intros [|its' slack Hm]; [done|]. rewrite items_lobj. split; [|done].
  unfold list_wf, lobj. simpl. zlia.
Qed.
Lemma wf_view l : list_wf l -> view l (items l).
Proof.
  destruct l as [[a|] size al]; unfold list_wf; simpl; [intros (H1 & H2 & H3)|intros [H1 H2]].
  - destruct (Zlen_split size a) as (its & slack & -> & Hs); [lia|].
    replace (ListObj (Some (its ++ slack)) size al) with (lobj its slack)
      by (unfold lobj; f_equal; zlia).
    rewrite items_lobj. constructor. zlia.
  - subst. constructor.
Qed.
Lemma view_size l its : view l its -> ob_size l = Zlen its.
Proof. by intros []. Qed.
Lemma view_max l its : view l its -> Zlen its <= MAX_ITEMS.
Proof. intros [|its' slack Hm]; [done|]. zlia. Qed.
Lemma view_pos l its : view l its -> 0 < Zlen its ->
  ∃ slack, l = lobj its slack ∧ Zlen its + Zlen slack <= MAX_ITEMS.
Proof. intros [] ?; [done|]. eauto. Qed.
End view.

Section steps.
Context {V E : Type} {api : PyApi V E} {nf : Prop}.
Implicit Types (its slack : list V) (l : listobj V) (lg : list (event V)) (e : E).

Lemma wp_get_self h (Q : listobj V -> heap V E -> Prop) X :
  Q (self h) h -> wpo nf get_self Q X h.
Proof. done. Qed.
Lemma wp_get_size h (Q : Z -> heap V E -> Prop) X :
  Q (ob_size (self h)) h -> wpo nf get_size Q X h.
Proof. done. Qed.
Lemma wp_get_block h (Q : list V -> heap V E -> Prop) X :
  Q (default [] (ob_item (self h))) h -> wpo nf get_block Q X h.
Proof. done. Qed.
Lemma wp_put_self l h (Q : unit -> heap V E -> Prop) X :
  Q tt (Heap l (log h) (env h)) -> wpo nf (put_self l) Q X h.
Proof. done. Qed.
Lemma wp_INCREF v h (Q : unit -> heap V E -> Prop) X :
  Q tt (Heap (self h) (Incref v :: log h) (env h)) -> wpo nf (Py_INCREF v) Q X h.
Proof. done. Qed.
Lemma wp_DECREF v h (Q : unit -> heap V E -> Prop) X :
  Q tt (Heap (self h) (Decref v (self h) :: log h) (env h)) -> wpo nf (Py_DECREF v) Q X h.
Proof. done. Qed.
Lemma wp_alloc n h (Q : bool -> heap V E -> Prop) X :
  (∀ b e', Q b (Heap (self h) (log h) e')) -> wpo nf (PyMem_alloc n) Q X h.
Proof. intros HQ. unfold wpo, PyMem_alloc. destruct (py_malloc n (env h)). apply HQ. Qed.

(** A slot of the block, an item or a free one. *)
Lemma wp_item_get a v b size al lg e i Q X :
  i = Zlen a -> Q v (Heap (ListObj (Some (a ++ v :: b)) size al) lg e) ->
  wpo nf (item_get i) Q X (Heap (ListObj (Some (a ++ v :: b)) size al) lg e).
Proof.
  intros Hi HQ. unfold item_get. wp_step. apply wp_get_self. eapply wp_lift; [|exact HQ].
  simpl. by apply aget_app.
Qed.
Lemma wp_item_set a v w b size al lg e i Q X :
  i = Zlen a -> Q tt (Heap (ListObj (Some (a ++ w :: b)) size al) lg e) ->
  wpo nf (item_set i w) Q X (Heap (ListObj (Some (a ++ v :: b)) size al) lg e).
Proof.
  intros Hi HQ. unfold item_set. wp_step. apply wp_get_self. wp_step.
  eapply wp_lift; [|by apply wp_put_self].
  simpl. by apply aset_app.
Qed.

(** ** Copying and releasing references *)
Lemma wp_copy_refs vs src1 src2 d1 x d2 h i j n (Q : list V -> heap V E -> Prop) X :
  n = length vs -> i = Zlen src1 -> j = Zlen d1 -> Zlen x = Zlen vs ->
  Q (d1 ++ vs ++ d2) (Heap (self h) (reverse (Incref <$> vs) ++ log h) (env h)) ->
  wpo nf (copy_refs n (src1 ++ vs ++ src2) i (d1 ++ x ++ d2) j) Q X h.
Proof.
  intros ->. revert src1 d1 x h i j Q.
  induction vs as [|v vs IH]; intros src1 d1 x h i j Q Hi Hj Hx HQ.
  { apply Zlen_0_inv in Hx as ->. destruct h. by apply wp_ret. }
  destruct (Zlen_pos_inv x) as (y & x' & ->); [zlia|]. cbn [length copy_refs].
  rewrite <- !app_comm_cons. wp_step.
  eapply wp_lift; [by apply aget_app|]. wp_step. apply wp_INCREF. wp_step.
  eapply wp_lift; [by apply aset_app|].
  replace (src1 ++ v :: vs ++ src2) with ((src1 ++ [v]) ++ vs ++ src2) by list_assoc.
  replace (d1 ++ v :: x' ++ d2) with ((d1 ++ [v]) ++ x' ++ d2) by list_assoc.
  apply IH; [zlia|zlia|zlia|]. cbn [self log env].
  replace ((d1 ++ [v]) ++ vs ++ d2) with (d1 ++ (v :: vs) ++ d2) by list_assoc.
  replace (reverse (Incref <$> vs) ++ Incref v :: log h)
    with (reverse (Incref <$> (v :: vs)) ++ log h); [done|].
  rewrite fmap_cons, reverse_cons. list_assoc.
Qed.
Lemma wp_decref_down n (a b : list V) h (Q : unit -> heap V E -> Prop) X :
  n = length a ->
  Q tt (Heap (self h) (((λ v, Decref v (self h)) <$> a) ++ log h) (env h)) ->
  wpo nf (decref_down n (a ++ b)) Q X h.
Proof.
  intros ->. revert b h Q. induction a as [|v a IH] using rev_ind; intros b h Q HQ.
  { destruct h. by apply wp_ret. }
  rewrite length_app, Nat.add_comm. cbn [length Nat.add decref_down]. wp_step.
  rewrite <- app_assoc. eapply wp_lift; [by apply aget_app|]. wp_step. apply wp_DECREF.
  apply (IH (v :: b)). cbn [self log env].
  rewrite fmap_app in HQ. rewrite <- app_assoc in HQ. exact HQ.
Qed.

(** ** [list_resize] *)

(** A block that starts like [its] seen as a list of [n] items. *)
Lemma grow_split its (b : list V) n :
  0 <= n <= Zlen b ->
  take (Z.to_nat (Z.min n (Zlen its))) b = take (Z.to_nat (Z.min n (Zlen its))) its ->
  ∃ tl slack', b = (take (Z.to_nat n) its ++ tl) ++ slack' ∧
    Zlen tl = Z.max 0 (n - Zlen its) ∧ Zlen (take (Z.to_nat n) its ++ tl) = n.
Proof.
  intros Hn Hk. set (k := Z.to_nat (Z.min n (Zlen its))) in *.
  destruct (Zlen_split n b Hn) as (b1 & b2 & -> & Hb1).
  assert (take k b1 = take (Z.to_nat n) its) as Ht.
  { rewrite take_app_le in Hk by (subst k; unfold Zlen in *; lia). rewrite Hk. subst k.
    destruct (decide (n <= Zlen its)).
    - f_equal. lia.
    - rewrite !take_ge; [done|unfold Zlen in *; lia|unfold Zlen in *; lia]. }
  exists (drop k b1), b2. rewrite <- Ht, take_drop. split_and!; [done| |done].
  unfold Zlen in *. rewrite length_drop. subst k. lia.
Qed.
Lemma realloc_block_view its slack n g :
  0 <= n <= g -> 0 <= g < 2 ^ 61 ->
  ∃ tl slack', Zlen tl = Z.max 0 (n - Zlen its) ∧
    ListObj (Some (realloc_block (Some (its ++ slack)) (size_t (g * SIZEOF_PTR)))) n g =
      lobj (take (Z.to_nat n) its ++ tl) slack'.
Proof.
  intros Hn Hg. unfold realloc_block, RESIZE_MAX, SIZEOF_PTR in *. simpl default.
  rewrite size_t_small by (unfold SIZE_T_MOD; lia). rewrite Z.div_mul by done.
  set (b := take (Z.to_nat g) (its ++ slack) ++ _).
  assert (Zlen b = g) as Hb.
  { subst b. unfold Zlen. rewrite length_app, length_take, length_replicate. lia. }
  destruct (grow_split its b n) as (tl & slack' & Heq & Htl & Hn'); [lia| |].
  { subst b. rewrite take_app_le by (rewrite length_take, length_app; unfold Zlen; lia).
    rewrite take_take. rewrite take_app_le by (unfold Zlen; lia). f_equal. lia. }
  exists tl, slack'. split; [done|]. unfold lobj. rewrite Heq in *. f_equal; zlia.
Qed.

(** Resizing keeps the items that fit; the list is in shape afterwards, and
    unchanged when memory runs out. *)
Lemma wp_list_resize l its lg e n (Q : unit -> heap V E -> Prop) (X : pyexn -> heap V E -> Prop) :
  view l its ∨ l = detached ∧ its = [] ->
  0 <= n <= RESIZE_MAX ->
  (∀ l' tl e', Zlen tl = Z.max 0 (n - Zlen its) -> view l' (take (Z.to_nat n) its ++ tl) ->
     Q tt (Heap l' lg e')) ->
  (∀ e', X (PyErr MemoryError no_msg) (Heap l lg e')) ->
  wpo nf (list_resize n) Q X (Heap l lg e).
Proof.
  intros Hl Hn HQ HX. unfold list_resize. wp_step. apply wp_get_self. cbn [self].
  assert (Zlen its <= MAX_ITEMS) as Hits by (destruct Hl as [Hl|[_ ->]]; [by eapply view_max|done]).
  destruct ((n <=? allocated l) && _) eqn:E1.
  - apply andb_prop in E1 as [E1 _]. bool_to_prop. unfold Py_SET_SIZE.
    destruct Hl as [Hl|[-> ->]]; [|simpl in E1; lia].
    destruct Hl as [|its1 slack Hmx].
    + change (n <= 0) in E1. assert (n = 0) as -> by lia. apply wp_bind, wp_assert; [done|].
      wp_step. apply wp_get_self, wp_put_self. apply (HQ _ []); [done|constructor].
    + apply wp_bind, wp_assert; [done|]. wp_step. apply wp_get_self, wp_put_self.
      cbn [log env self]. simpl in E1.
      destruct (grow_split its1 (its1 ++ slack) n) as (tl & slack' & Heq & Htl & Hn'); [zlia| |].
      { apply take_app_le. unfold Zlen. lia. }
      assert (Zlen its1 + Zlen slack = Zlen (take (Z.to_nat n) its1 ++ tl) + Zlen slack') as Hsame
        by (rewrite <- !Zlen_app; congruence).
      apply (HQ _ tl); [done|].
      replace (with_size n (lobj its1 slack)) with (lobj (take (Z.to_nat n) its1 ++ tl) slack');
        [constructor; lia|]. unfold lobj, with_size. cbn [ob_item allocated].
      rewrite <- Heq, Hsame. f_equal. done.
  - assert (ob_size l = Zlen its ∧ ∃ slack, default [] (ob_item l) = its ++ slack)
      as (Hsz & slack & Hblk).
    { destruct Hl as [Hl|[-> ->]]; [destruct Hl as [|its1 slack Hmx]|]; (split; [done|]);
        [by exists []|by exists slack|by exists []]. }
    pose proof (growth_bounds n (ob_size l) Hn) as Hg. rewrite Hsz in *.
    assert (MAX_ITEMS < RESIZE_MAX) as Hmr by done. pose proof (Zlen_nonneg its).
    specialize (Hg ltac:(lia)). cbv zeta in Hg.
    set (g := growth n (Zlen its)) in *.
    assert (g < 2 ^ 61) by (unfold RESIZE_MAX in *; divlia).
    cbv zeta. wp_step. unfold wpo at 1, PyMem_alloc.
    pose proof (py_malloc_limit (size_t (g * SIZEOF_PTR)) e) as Hlim.
    cbn [env self log set_env]. destruct (py_malloc _ e) as [[] e'];
      [|apply (wp_raise (A := unit)), HX].
    assert (g <= MAX_ITEMS) as Hgm.
    { unfold SIZEOF_PTR, RESIZE_MAX in *. rewrite size_t_small in Hlim by (unfold SIZE_T_MOD; lia).
      destruct (decide (PY_SSIZE_T_MAX < g * 8)) as [Hbig|Hbig]; [by specialize (Hlim Hbig)|].
      unfold MAX_ITEMS, SIZEOF_PTR. apply Z.div_le_lower_bound; lia. }
    apply wp_put_self. cbn [log env]. rewrite ssize_t_small by (unfold RESIZE_MAX in *; lia).
    destruct (realloc_block_view its slack n g) as (tl & slack' & Htl & Heq); [lia|lia|].
    assert (Zlen (take (Z.to_nat n) its ++ tl) + Zlen slack' = g) as Hsum
      by (apply (f_equal allocated) in Heq; simpl in Heq; lia).
    unfold realloc_block in *. rewrite Hblk. simpl default in Heq. rewrite Heq.
    apply (HQ _ tl); [done|constructor; lia].
Qed.
End steps.
