(* ===== verification/ListSpec.v ===== *)
(** * What the list operations do

    Each operation is given its exact effect: the items afterwards, the result,
    the reference-count events, and the state in which it fails.  Then the
    references that an operation takes and releases, read off the log, and the
    balance they must keep: a list owns one reference to each item. *)

From stdpp Require Import base list numbers strings.
From S2P Require Import Prelude PyHeap ListCore ListView.

Section moves.
Context {V E : Type} {api : PyApi V E} {nf : Prop}.
Implicit Types (its slack vs b l x y k a c : list V) (lg : list (event V)) (e : E).

(** The items [y] of the block move over [x]. *)
Lemma wp_move_items b l x k (l' : list V) y (k' : list V) size al lg e i j n (Q : unit -> heap V E -> Prop) X :
  b = l ++ x ++ k -> b = l' ++ y ++ k' -> i = Zlen l -> j = Zlen l' -> n = Zlen x -> n = Zlen y ->
  Q tt (Heap (ListObj (Some (l ++ y ++ k)) size al) lg e) ->
  wpo nf (move_items i j n) Q X (Heap (ListObj (Some b) size al) lg e).
Proof.
  intros H1 H2 Hi Hj Hx Hy HQ. unfold move_items. wp_step. apply wp_get_self.
  destruct (n =? 0) eqn:E1; bool_to_prop.
  - apply wp_ret. assert (x = []) as -> by (apply Zlen_0_inv; lia).
    assert (y = []) as -> by (apply Zlen_0_inv; lia). by rewrite H1.
  - wp_step. eapply wp_lift; [|by apply wp_put_self]. simpl. rewrite H1 at 1. rewrite H2.
    by apply blit_app.
Qed.
Lemma wp_write_items l x k vs size al lg e i (Q : unit -> heap V E -> Prop) X :
  i = Zlen l -> Zlen x = Zlen vs ->
  Q tt (Heap (ListObj (Some (l ++ vs ++ k)) size al) lg e) ->
  wpo nf (write_items i vs) Q X (Heap (ListObj (Some (l ++ x ++ k)) size al) lg e).
Proof.
  intros Hi Hx HQ. unfold write_items. wp_step. apply wp_get_self.
  destruct (Zlen vs =? 0) eqn:E1; bool_to_prop.
  - apply wp_ret. apply Zlen_0_inv in E1 as ->. apply Zlen_0_inv in Hx as ->. done.
  - wp_step. eapply wp_lift; [|by apply wp_put_self]. simpl.
    rewrite <- (app_nil_r vs) at 1. by apply (blit_app l x k [] vs []).
Qed.
Lemma wp_store_items l x k vs size al lg e i (Q : unit -> heap V E -> Prop) X :
  i = Zlen l -> Zlen x = Zlen vs ->
  Q tt (Heap (ListObj (Some (l ++ vs ++ k)) size al) (reverse (Incref <$> vs) ++ lg) e) ->
  wpo nf (store_items vs i) Q X (Heap (ListObj (Some (l ++ x ++ k)) size al) lg e).
Proof.
  revert l x lg i. induction vs as [|v vs IH]; intros l x lg i Hi Hx HQ.
  { apply Zlen_0_inv in Hx as ->. by apply wp_ret. }
  destruct (Zlen_pos_inv x) as (z & x' & ->); [zlia|]. cbn [store_items]. rewrite <- app_comm_cons.
  wp_step. apply wp_INCREF. wp_step. apply wp_item_set; [done|]. cbn [log env].
  replace (l ++ v :: x' ++ k) with ((l ++ [v]) ++ x' ++ k) by list_assoc.
  apply IH; [zlia|zlia|].
  replace ((l ++ [v]) ++ vs ++ k) with (l ++ (v :: vs) ++ k) by list_assoc.
  rewrite fmap_cons, reverse_cons, <- app_assoc in HQ. exact HQ.
Qed.
(** Moving everything from [p] on one slot up. *)
Lemma wp_shift_right fuel a b (v0 : V) c size al lg e i p (Q : unit -> heap V E -> Prop) X :
  i = Zlen a + Zlen b -> p = Zlen a -> Zlen b < Z.of_nat fuel ->
  (∀ z, Q tt (Heap (ListObj (Some (a ++ z :: b ++ c)) size al) lg e)) ->
  wpo nf (shift_right fuel i p) Q X (Heap (ListObj (Some (a ++ b ++ v0 :: c)) size al) lg e).
Proof.
  revert b v0 c i. induction fuel as [|fuel IH]; intros b v0 c i Hi Hp Hf HQ; [zlia|].
  cbn [shift_right]. destruct (p <=? i - 1) eqn:E1; bool_to_prop.
  - destruct (Zlen_pos_inv_r b) as (b' & v & ->); [lia|].
    wp_step. replace (a ++ (b' ++ [v]) ++ v0 :: c) with ((a ++ b') ++ v :: v0 :: c) by list_assoc.
    apply wp_item_get; [zlia|]. wp_step.
    replace ((a ++ b') ++ v :: v0 :: c) with ((a ++ b' ++ [v]) ++ v0 :: c) by list_assoc.
    apply wp_item_set; [zlia|].
    replace ((a ++ b' ++ [v]) ++ v :: c) with (a ++ b' ++ v :: v :: c) by list_assoc.
    apply IH; [zlia|done|zlia|]. intros z. specialize (HQ z).
    rewrite <- app_assoc in HQ. exact HQ.
  - assert (b = []) as -> by (apply Zlen_0_inv; zlia). apply wp_ret. apply (HQ v0).
Qed.
End moves.

Section specs.
Context {V E : Type} {api : PyApi V E} {nf : Prop}.
Implicit Types (its slack vs : list V) (l : listobj V) (lg : list (event V)) (e : E).

(** A list that can be worked on: in shape, or detached and empty. *)
Definition shown l its : Prop := view l its ∨ l = detached ∧ its = [].
Lemma shown_size l its : shown l its -> ob_size l = Zlen its.
Proof. intros [Hv|[-> ->]]; [by apply view_size|done]. Qed.
Lemma shown_max l its : shown l its -> Zlen its < RESIZE_MAX.
Proof.
  pose proof MAX_ITEMS_lt. intros [Hv|[-> ->]]; [|done]. pose proof (view_max _ _ Hv). lia.
Qed.
Lemma view_shown l its : view l its -> shown l its.
Proof. by left. Qed.

Definition fails_as_is l lg (X : pyexn -> heap V E -> Prop) : Prop :=
  ∀ e', X (PyErr MemoryError no_msg) (Heap l lg e').

(** ** Growing by one *)
Lemma wp_grow1 l its lg e (Q : unit -> heap V E -> Prop) X :
  shown l its ->
  (∀ y slack e', Zlen its + 1 + Zlen slack <= MAX_ITEMS ->
     Q tt (Heap (ListObj (Some (its ++ y :: slack)) (Zlen its + 1)
                               (Zlen its + 1 + Zlen slack)) lg e')) ->
  fails_as_is l lg X ->
  wpo nf (list_resize (Zlen its + 1)) Q X (Heap l lg e).
Proof.
  intros Hs HQ HX. pose proof (shown_max _ _ Hs) as Hmax. eapply wp_list_resize; [exact Hs|zlia| |exact HX].
  intros l' tl e' Htl Hv. rewrite take_ge in Hv by (unfold Zlen; lia).
  destruct (Zlen_1_inv tl) as [y ->]; [lia|].
  destruct (view_pos _ _ Hv) as (slack & -> & Hmx); [zlia|].
  specialize (HQ y slack e' ltac:(zlia)). unfold lobj. rewrite <- app_assoc.
  replace (Zlen (its ++ [y])) with (Zlen its + 1) by zlia. exact HQ.
Qed.
Lemma lobj_app its v slack :
  ListObj (Some (its ++ v :: slack)) (Zlen its + 1) (Zlen its + 1 + Zlen slack) =
  lobj (its ++ [v]) slack.
Proof. unfold lobj. rewrite <- app_assoc. f_equal; zlia. Qed.

Lemma wp_app1 l its v lg e (Q : unit -> heap V E -> Prop) X :
  shown l its ->
  (∀ l' e', view l' (its ++ [v]) -> Q tt (Heap l' (Incref v :: lg) e')) -> fails_as_is l lg X ->
  wpo nf (app1 v) Q X (Heap l lg e).
Proof.
  intros Hs HQ HX. pose proof (shown_max _ _ Hs) as Hmax. unfold app1. wp_step. apply wp_get_size. cbn [self].
  rewrite (shown_size _ _ Hs).
  apply wp_bind, wp_assert.
  { rewrite size_t_small by (unfold SIZE_T_MOD, RESIZE_MAX in *; zlia).
    unfold PY_SSIZE_T_MAX, RESIZE_MAX in *. lia. }
  wp_step. apply (wp_grow1 _ _ _ _ _ _ Hs); [|done]. intros y slack e' Hmx.
  wp_step. apply wp_INCREF. apply wp_item_set; [done|].
  rewrite lobj_app. apply HQ. constructor. zlia.
Qed.

(** Where [list.insert] puts an item. *)
Definition insert_pos (where_ n : Z) : Z :=
  if where_ <? 0 then Z.max 0 (where_ + n) else Z.min where_ n.
Lemma wp_ins1 l its where_ v lg e (Q : unit -> heap V E -> Prop) X :
  let p := Z.to_nat (insert_pos where_ (Zlen its)) in
  shown l its ->
  (∀ l' e', view l' (take p its ++ v :: drop p its) -> Q tt (Heap l' (Incref v :: lg) e')) ->
  fails_as_is l lg X ->
  wpo nf (ins1 where_ v) Q X (Heap l lg e).
Proof.
  intros p Hs HQ HX. pose proof (shown_max _ _ Hs) as Hmax. unfold ins1. wp_step. apply wp_get_size. cbn [self].
  rewrite (shown_size _ _ Hs).
  apply wp_bind, wp_assert.
  { rewrite size_t_small by (unfold SIZE_T_MOD, RESIZE_MAX in *; zlia).
    unfold PY_SSIZE_T_MAX, RESIZE_MAX in *. lia. }
  wp_step. apply (wp_grow1 _ _ _ _ _ _ Hs); [|done]. intros y slack e' Hmx. cbv zeta.
  set (w := if Zlen its <? _ then _ else _).
  assert (w = insert_pos where_ (Zlen its)) as Hw.
  { subst w. unfold insert_pos. pose_zlen.
    destruct (where_ <? 0) eqn:E1; [destruct (where_ + Zlen its <? 0) eqn:E2|];
      (destruct (Zlen its <? _) eqn:E3); lia. }
  assert (0 <= w <= Zlen its) as Hwr by (rewrite Hw; unfold insert_pos; case_match; zlia).
  destruct (Zlen_split w its Hwr) as (a & b & Hab & Ha).
  assert (take p its = a ∧ drop p its = b) as [Htk Hdr].
  { subst p. rewrite <- Hw, <- Ha, Hab. unfold Zlen. rewrite Nat2Z.id.
    by rewrite take_app_length, drop_app_length. }
  wp_step. replace (its ++ y :: slack) with (a ++ b ++ y :: slack) by (rewrite Hab; list_assoc).
  apply wp_shift_right; [rewrite Hab; zlia|done|rewrite Hab; zlia|]. intros z. wp_step.
  apply wp_INCREF. apply wp_item_set; [done|]. cbn [log env].
  replace (Heap _ _ _) with (Heap (lobj (take p its ++ v :: drop p its) slack) (Incref v :: lg) e').
  - apply HQ. constructor. rewrite Htk, Hdr. rewrite Hab in Hmx. zlia.
  - rewrite Htk, Hdr. unfold lobj. f_equal. f_equal; [f_equal; list_assoc|rewrite Hab; zlia..].
Qed.

(** ** New lists *)
Lemma wp_new_prealloc l lg e size (Q : list V -> heap V E -> Prop) X :
  0 < size < SIZE_T_MOD ->
  (∀ dest e', Zlen dest = size -> size <= MAX_ITEMS -> Q dest (Heap l lg e')) -> fails_as_is l lg X ->
  wpo nf (list_new_prealloc size) Q X (Heap l lg e).
Proof.
  intros Hs HQ HX. unfold list_new_prealloc, PyMem_New. apply wp_bind, wp_assert; [lia|].
  wp_step. destruct (_ <? size_t size) eqn:E1.
  - apply wp_ret, wp_raise, HX.
  - rewrite size_t_small in E1 by lia. change (_ `div` _) with MAX_ITEMS in E1. bool_to_prop.
    wp_step. apply wp_alloc. intros [] e'; apply wp_ret; [|apply wp_raise, HX].
    apply wp_ret, HQ; zlia.
Qed.

(** The items from [i] up to [j]. *)
Definition sub its (i j : Z) : list V := take (Z.to_nat (j - i)) (drop (Z.to_nat i) its).
Lemma sub_split its i j :
  0 <= i <= j -> j <= Zlen its ->
  its = take (Z.to_nat i) its ++ sub its i j ++ drop (Z.to_nat j) its ∧
  Zlen (take (Z.to_nat i) its) = i ∧ Zlen (sub its i j) = j - i.
Proof.
  intros Hi Hj. unfold sub. split_and!; [|apply Zlen_take; lia|].
  - replace (Z.to_nat j) with (Z.to_nat i + Z.to_nat (j - i))%nat by lia.
    by rewrite <- drop_drop, take_drop, take_drop.
  - apply Zlen_take. rewrite Zlen_drop; lia.
Qed.
Lemma sub_all its : sub its 0 (Zlen its) = its.
Proof. unfold sub. rewrite drop_0. apply take_ge. unfold Zlen. lia. Qed.
Lemma lobj_full its : ListObj (Some its) (Zlen its) (Zlen its) = lobj its [].
Proof. unfold lobj. rewrite app_nil_r. f_equal. zlia. Qed.

Definition took vs lg : list (event V) := reverse (Incref <$> vs) ++ lg.

Lemma wp_list_slice l its lg e ilow ihigh (Q : listobj V -> heap V E -> Prop) X :
  view l its -> 0 <= ilow -> ihigh <= Zlen its ->
  (∀ r e', view r (sub its ilow ihigh) -> Q r (Heap l (took (sub its ilow ihigh) lg) e')) ->
  fails_as_is l lg X ->
  wpo nf (list_slice ilow ihigh) Q X (Heap l lg e).
Proof.
  intros Hv Hlo Hhi HQ HX. pose proof (shown_max _ _ (view_shown _ _ Hv)) as Hmax. unfold list_slice. cbv zeta. case_match eqn:E1; bool_to_prop.
  { apply wp_ret. unfold sub in HQ. replace (Z.to_nat (ihigh - ilow)) with 0%nat in HQ by lia.
    apply (HQ _ e). constructor. }
  destruct (sub_split its ilow ihigh) as (Hsplit & Hl1 & Hl2); [lia..|].
  destruct (view_pos _ _ Hv) as (slack & -> & Hmx); [lia|].
  wp_step. apply wp_new_prealloc; [unfold SIZE_T_MOD, RESIZE_MAX in *; lia| |done].
  intros dest e' Hd Hdm. wp_step. apply wp_get_block. cbn [self lobj ob_item default]. wp_step.
  set (S := sub its ilow ihigh) in *.
  replace (its ++ slack) with (take (Z.to_nat ilow) its ++ S ++ (drop (Z.to_nat ihigh) its ++ slack))
    by (rewrite Hsplit at 3; list_assoc).
  rewrite <- (app_nil_r dest). apply (wp_copy_refs S _ _ [] dest []);
    [unfold Zlen in Hl2; lia|lia|done|lia|].
  apply wp_ret. simpl. rewrite app_nil_r, <- Hl2, lobj_full. apply HQ. constructor. zlia.
Qed.

Lemma wp_list_concat l its b bits lg e (Q : listobj V -> heap V E -> Prop) X :
  view l its -> view b bits ->
  (∀ r e', view r (its ++ bits) -> Q r (Heap l (took (its ++ bits) lg) e')) ->
  fails_as_is l lg X ->
  wpo nf (list_concat (Some b)) Q X (Heap l lg e).
Proof.
  intros Hv Hb HQ HX.
  pose proof (shown_max _ _ (view_shown _ _ Hv)) as Hm1.
  pose proof (shown_max _ _ (view_shown _ _ Hb)) as Hm2. unfold list_concat. wp_step. apply wp_get_self. cbn [self].
  rewrite (view_size _ _ Hv), (view_size _ _ Hb). apply wp_bind, wp_assert.
  { rewrite !size_t_small by (unfold SIZE_T_MOD, RESIZE_MAX in *; zlia).
    unfold PY_SSIZE_T_MAX, RESIZE_MAX in *. lia. }
  cbv zeta. case_match eqn:E1; bool_to_prop.
  { apply wp_ret. assert (its = [] ∧ bits = []) as [-> ->] by (split; apply Zlen_0_inv; zlia).
    apply (HQ _ e). constructor. }
  wp_step. apply wp_new_prealloc; [unfold SIZE_T_MOD, RESIZE_MAX in *; zlia| |done].
  intros dest e' Hd Hdm. destruct (Zlen_split (Zlen its) dest) as (d1 & d2 & -> & Hd1); [zlia|].
  wp_step. assert (∃ s1, default [] (ob_item l) = its ++ s1) as [s1 ->] by (destruct Hv; by eexists).
  assert (∃ s2, default [] (ob_item b) = bits ++ s2) as [s2 ->] by (destruct Hb; by eexists).
  apply (wp_copy_refs its [] s1 [] d1 d2); [unfold Zlen; lia|done|done|lia|]. wp_step.
  rewrite <- (app_nil_r d2). apply (wp_copy_refs bits [] s2 its d2 []);
    [unfold Zlen; lia|done|done|zlia|].
  apply wp_ret. simpl. rewrite app_nil_r. replace (Zlen its + Zlen bits) with (Zlen (its ++ bits)) by zlia.
  rewrite lobj_full. cbn [self log env].
  replace (reverse (Incref <$> bits) ++ reverse (Incref <$> its) ++ lg) with (took (its ++ bits) lg).
  { apply HQ. constructor. zlia. }
  unfold took. rewrite fmap_app, reverse_app. list_assoc.
Qed.

(** [n] copies of a list. *)
Fixpoint copies (n : nat) its : list V := match n with O => [] | S n => its ++ copies n its end.
Lemma Zlen_copies n its : Zlen (copies n its) = Z.of_nat n * Zlen its.
Proof. induction n as [|n IH]; simpl copies; [done|]. rewrite Zlen_app, IH. lia. Qed.

Lemma wp_repeat_one n v d1 x l lg e i (Q : list V -> heap V E -> Prop) X :
  i = Zlen d1 -> Zlen x = Z.of_nat n ->
  Q (d1 ++ copies n [v]) (Heap l (took (copies n [v]) lg) e) ->
  wpo nf (repeat_one n v (d1 ++ x) i) Q X (Heap l lg e).
Proof.
  revert d1 x lg i Q. induction n as [|n IH]; intros d1 x lg i Q Hi Hx HQ.
  { apply Zlen_0_inv in Hx as ->. by apply wp_ret. }
  destruct (Zlen_pos_inv x) as (y & x' & ->); [lia|]. cbn [repeat_one]. wp_step.
  eapply wp_lift; [by apply aset_app|]. wp_step. apply wp_INCREF.
  replace (d1 ++ v :: x') with ((d1 ++ [v]) ++ x') by list_assoc.
  apply IH; [zlia|zlia|]. cbn [log env]. unfold took in *. simpl copies in HQ.
  rewrite fmap_cons, reverse_cons, <- app_assoc in HQ. rewrite <- app_assoc. exact HQ.
Qed.
Lemma wp_repeat_all n its s1 d1 x l lg e i (Q : list V -> heap V E -> Prop) X :
  i = Zlen d1 -> Zlen x = Z.of_nat n * Zlen its ->
  Q (d1 ++ copies n its) (Heap l (took (copies n its) lg) e) ->
  wpo nf (repeat_all n (Zlen its) (its ++ s1) (d1 ++ x) i) Q X (Heap l lg e).
Proof.
  revert d1 x lg i Q. induction n as [|n IH]; intros d1 x lg i Q Hi Hx HQ.
  { apply Zlen_0_inv in Hx as ->. by apply wp_ret. }
  destruct (Zlen_split (Zlen its) x) as (x1 & x2 & -> & Hx1); [zlia|]. cbn [repeat_all]. wp_step.
  apply (wp_copy_refs its [] s1 d1 x1 x2); [unfold Zlen; lia|done|done|lia|].
  replace (d1 ++ its ++ x2) with ((d1 ++ its) ++ x2) by list_assoc.
  apply IH; [zlia|zlia|]. cbn [self log env]. unfold took in *. simpl copies in HQ.
  rewrite fmap_app, reverse_app, <- app_assoc in HQ. rewrite <- app_assoc. exact HQ.
Qed.
(** A repetition that does not fit in a [Py_ssize_t] is refused. *)
Lemma wp_list_repeat l its lg e n (Q : listobj V -> heap V E -> Prop) X :
  view l its -> n <= PY_SSIZE_T_MAX ->
  let vs := copies (Z.to_nat n) its in
  (∀ r e', Zlen vs <= PY_SSIZE_T_MAX -> view r vs -> Q r (Heap l (took vs lg) e')) ->
  fails_as_is l lg X ->
  wpo nf (list_repeat n) Q X (Heap l lg e).
Proof.
  intros Hv Hn vs HQ HX. unfold list_repeat. wp_step. apply wp_get_self. cbn [self].
  rewrite (view_size _ _ Hv). cbv zeta. set (k := if n <? 0 then 0 else n).
  assert (Z.to_nat k = Z.to_nat n ∧ 0 <= k) as [Hk Hk0] by (subst k; destruct (n <? 0) eqn:E0; bool_to_prop; lia).
  assert (Zlen vs = k * Zlen its) as Hvs by (subst vs; rewrite Zlen_copies, <- Hk, Z2Nat.id by lia; done).
  destruct (_ && _) eqn:E1; [apply wp_raise, HX|].
  assert (Zlen its * k <= PY_SSIZE_T_MAX) as Hfit.
  { apply andb_false_iff in E1 as [E1|E1]; bool_to_prop.
    - assert (k = 0) as -> by lia. unfold PY_SSIZE_T_MAX. lia.
    - destruct (decide (k = 0)) as [->|]; [unfold PY_SSIZE_T_MAX; lia|].
      pose proof (Z.mul_div_le PY_SSIZE_T_MAX k ltac:(lia)). nia. }
  case_match eqn:E2; bool_to_prop.
  { apply wp_ret. assert (vs = []) as Hnil by (apply Zlen_0_inv; lia). rewrite Hnil in HQ.
    apply (HQ _ e); [done|constructor]. }
  wp_step. apply wp_new_prealloc; [unfold SIZE_T_MOD, PY_SSIZE_T_MAX in *; pose_zlen; nia| |done].
  intros dest e' Hd Hdm. rewrite Hk.
  assert (∃ s1, default [] (ob_item l) = its ++ s1) as [s1 ->] by (destruct Hv; by eexists).
  wp_step. case_match eqn:E3; bool_to_prop.
  - destruct (Zlen_1_inv its E3) as [v ->]. wp_step.
    eapply wp_lift; [done|]. apply (wp_repeat_one _ v [] dest); [done|rewrite Zlen_cons, Zlen_nil in Hd; lia|].
    apply wp_ret. simpl app. replace (Zlen [v] * k) with (Zlen vs) by lia. rewrite lobj_full.
    apply HQ; [lia|constructor; zlia].
  - apply (wp_repeat_all _ its s1 [] dest); [done|rewrite Hd, <- Hk, Z2Nat.id by lia; lia|].
    apply wp_ret. simpl app. replace (Zlen its * k) with (Zlen vs) by lia. rewrite lobj_full.
    apply HQ; [lia|constructor; zlia].
Qed.
End specs.

Section refs.
Context {V : Type}.
Implicit Types (vs its : list V) (l : listobj V) (lg : list (event V)).

(** Releasing [vs], last item first, while the list is [l]. *)
Definition released l vs lg : list (event V) := ((λ v, Decref v l) <$> vs) ++ lg.

Lemma took_app its vs lg : took (its ++ vs) lg = took vs (took its lg).
Proof. unfold took. by rewrite fmap_app, reverse_app, app_assoc. Qed.
Lemma took_cons v vs lg : took (v :: vs) lg = took vs (Incref v :: lg).
Proof. unfold took. by rewrite fmap_cons, reverse_cons, <- app_assoc. Qed.
Lemma log_wf_took vs lg : log_wf lg -> log_wf (took vs lg).
Proof.
  intros H. unfold took, log_wf. apply Forall_app. split; [|done].
  apply Forall_reverse, Forall_fmap, Forall_true. done.
Qed.
Lemma log_wf_released l vs lg : list_wf l -> log_wf lg -> log_wf (released l vs lg).
Proof.
  intros Hl H. unfold released, log_wf. apply Forall_app. split; [|done].
  apply Forall_fmap, Forall_true. done.
Qed.
Lemma log_wf_incref (v : V) lg : log_wf lg -> log_wf (Incref v :: lg).
Proof. by constructor. Qed.
Lemma log_wf_decref (v : V) l lg : list_wf l -> log_wf lg -> log_wf (Decref v l :: lg).
Proof. by constructor. Qed.

Context `{EqDecision V}.

(** How often [v] occurs. *)
Definition occ (v : V) its : Z := Zlen (filter (λ w, w = v) its).
Lemma occ_nil v : occ v [] = 0.
Proof. done. Qed.
Lemma occ_cons v w its : occ v (w :: its) = (if decide (w = v) then 1 else 0) + occ v its.
Proof. unfold occ. rewrite filter_cons. case_decide; zlia. Qed.
Lemma occ_app v its vs : occ v (its ++ vs) = occ v its + occ v vs.
Proof. unfold occ. rewrite filter_app. zlia. Qed.
Lemma occ_nonneg v its : 0 <= occ v its.
Proof. unfold occ. zlia. Qed.

Lemma refs_taken_incs v vs lg : refs_taken v ((Incref <$> vs) ++ lg) = occ v vs + refs_taken v lg.
Proof.
  induction vs as [|w vs IH]; [done|]. rewrite fmap_cons, occ_cons. simpl. rewrite IH. lia.
Qed.
Lemma occ_perm v its vs : its ≡ₚ vs -> occ v its = occ v vs.
Proof. induction 1; rewrite ?occ_cons; lia. Qed.
Lemma refs_taken_took v vs lg : refs_taken v (took vs lg) = occ v vs + refs_taken v lg.
Proof.
  unfold took. rewrite <- fmap_reverse, refs_taken_incs. f_equal. apply occ_perm, reverse_Permutation.
Qed.
Lemma refs_taken_released v l vs lg : refs_taken v (released l vs lg) = refs_taken v lg - occ v vs.
Proof.
  unfold released. induction vs as [|w vs IH]; [rewrite occ_nil; simpl; lia|].
  rewrite fmap_cons, occ_cons. simpl. rewrite IH. lia.
Qed.

(** From [lg] to [lg'] the references taken are those by which [its'] differs
    from [its]. *)
Definition balanced its lg its' lg' : Prop :=
  ∀ v, refs_taken v lg' - refs_taken v lg = occ v its' - occ v its.
End refs.

Create Rewrite HintDb refs.
#[global] Hint Rewrite @refs_taken_took @refs_taken_released @occ_app @occ_cons @occ_nil : refs.

(** Balance goals: count occurrences on both sides. *)
Ltac balance :=
  intros ?; autorewrite with refs; simpl refs_taken; autorewrite with refs;
  repeat case_decide; lia.

Create HintDb refdb.
#[export] Hint Resolve log_wf_took log_wf_released log_wf_incref log_wf_decref : refdb.
