(* ===== verification/ListAssign.v ===== *)
(** * What assignment and deletion do: [list_ass_slice] and its clients *)

From stdpp Require Import base list numbers strings.
From S2P Require Import Prelude PyHeap ListCore ListView ListSpec.

Section assign.
Context {V E : Type} {api : PyApi V E} {nf : Prop}.
Implicit Types (its slack vs : list V) (l : listobj V) (lg : list (event V)) (e : E).

Lemma wp_list_clear l its lg e (Q : unit -> heap V E -> Prop) X :
  view l its -> Q tt (Heap null_list (released null_list its lg) e) ->
  wpo nf list_clear_ Q X (Heap l lg e).
Proof.
  intros Hv HQ. unfold list_clear_. wp_step. apply wp_get_self. destruct Hv as [|its slack].
  - by apply wp_ret.
  - cbn [self lobj ob_item ob_size]. wp_step. apply wp_put_self.
    apply wp_decref_down; [unfold Zlen; lia|]. exact HQ.
Qed.

(** The slice bounds after clipping. *)
Lemma clip_bounds ilow ihigh size lo hi :
  0 <= size -> clip ilow ihigh size = (lo, hi) -> 0 <= lo <= hi ∧ hi <= size.
Proof.
  intros Hs. unfold clip. intros [= <- <-].
  destruct (ilow <? 0) eqn:E1; [|destruct (size <? ilow) eqn:E2];
    (destruct (ihigh <? _) eqn:E3; [|destruct (size <? ihigh) eqn:E4]); bool_to_prop; lia.
Qed.

(** The three ways to make room, from the items [A ++ O ++ T] with [O] to be
    replaced by [n] items. *)
Lemma wp_make_room_shrink A O T slack n lg e (Q : unit -> heap V E -> Prop)
    (X : pyexn -> heap V E -> Prop) :
  let its := A ++ O ++ T in
  let hi := Zlen A + Zlen O in
  let d := n - Zlen O in
  0 <= n -> d < 0 -> 0 < Zlen its + d -> Zlen its + Zlen slack <= MAX_ITEMS ->
  (∀ x slack' e', Zlen x = n -> Zlen (A ++ x ++ T) + Zlen slack' <= MAX_ITEMS -> Q tt (Heap (lobj (A ++ x ++ T) slack') lg e')) ->
  fails_as_is (lobj its slack) lg X ->
  wpo nf (_ ← move_items (hi + d) hi (Zlen its - hi);
          r ← mtry (list_resize (Zlen its + d));
          match r with
          | inl e =>
              _ ← move_items hi (hi + d) (Zlen its - hi);
              _ ← write_items (Zlen A) O;
              mthrow e
          | inr _ => mret tt
          end) Q X (Heap (lobj its slack) lg e).
Proof.
  intros its hi d Hn Hd Hpos Hmax HQ HX.
  assert (Zlen its = Zlen A + Zlen O + Zlen T) as Hlen by (subst its; zlia).
  destruct (Zlen_split n O) as (O1 & O2 & HO & HO1); [lia|].
  destruct (Zlen_split (Zlen T) (O2 ++ T)) as (x & y & Hxy & Hx); [zlia|].
  assert (Zlen y = Zlen O2 ∧ Zlen O2 = - d) as [Hy HO2].
  { apply (f_equal Zlen) in Hxy. subst O d. zlia. }
  assert (its ++ slack = (A ++ O1) ++ x ++ y ++ slack) as Hblk.
  { subst its. rewrite HO. rewrite <- !app_assoc. do 2 f_equal.
    rewrite (app_assoc O2), Hxy. list_assoc. }
  wp_step. apply (wp_move_items _ (A ++ O1) x (y ++ slack) (A ++ O) T slack);
    [exact Hblk|subst its; list_assoc|subst hi d O; zlia|subst hi; zlia|subst hi; lia|subst hi; lia|].
  set (its2 := A ++ O1 ++ T ++ y).
  replace (ListObj _ _ _) with (lobj its2 slack).
  2:{ unfold lobj, its2. f_equal; [f_equal; list_assoc|zlia..]. }
  wp_step. apply wp_try. assert (Zlen its2 = Zlen its) as Hlen2 by (subst its2; zlia).
  pose proof MAX_ITEMS_lt as HMR. eapply wp_list_resize; [left; constructor; zlia|zlia|..].
  - intros l' tl e' Htl Hv. apply wp_ret. assert (tl = []) as -> by (apply Zlen_0_inv; lia).
    assert (take (Z.to_nat (Zlen its + d)) its2 = A ++ O1 ++ T) as Htk.
    { subst its2. replace (A ++ O1 ++ T ++ y) with ((A ++ O1 ++ T) ++ y) by list_assoc.
      apply take_app_length'. unfold Zlen in *. rewrite !length_app. lia. }
    rewrite Htk, app_nil_r in Hv. destruct (view_pos _ _ Hv) as (slack' & -> & Hmx); [zlia|].
    apply HQ; zlia.
  - intros e'. wp_step.
    destruct (Zlen_split (Zlen O2) (T ++ y)) as (z & w & Hzw & Hz); [zlia|].
    assert (Zlen w = Zlen T) as Hw by (apply (f_equal Zlen) in Hzw; zlia).
    apply (wp_move_items _ (A ++ O1 ++ z) w slack (A ++ O1) T (y ++ slack));
      [subst its2; rewrite <- !app_assoc; do 2 f_equal; rewrite (app_assoc T), Hzw; list_assoc
      |subst its2; list_assoc|subst hi d O; zlia|subst hi d O; zlia|lia|lia|].
    wp_step. replace ((A ++ O1 ++ z) ++ T ++ slack) with (A ++ (O1 ++ z) ++ T ++ slack) by list_assoc.
    apply wp_write_items; [done|subst O; zlia|]. apply wp_throw.
    replace (ListObj _ _ _) with (lobj its slack); [apply HX|].
    unfold lobj. rewrite Hlen2. f_equal. f_equal. subst its. list_assoc.
Qed.
Lemma wp_make_room_grow l A O T n lg e (Q : unit -> heap V E -> Prop) X :
  let its := A ++ O ++ T in
  let hi := Zlen A + Zlen O in
  let d := n - Zlen O in
  shown l its -> 0 < d -> Zlen its + d <= RESIZE_MAX ->
  (∀ x slack' e', Zlen x = n -> Zlen (A ++ x ++ T) + Zlen slack' <= MAX_ITEMS -> Q tt (Heap (lobj (A ++ x ++ T) slack') lg e')) ->
  fails_as_is l lg X ->
  wpo nf (_ ← list_resize (Zlen its + d); move_items (hi + d) hi (Zlen its - hi)) Q X
    (Heap l lg e).
Proof.
  intros its hi d Hs Hd Hm2 HQ HX.
  assert (Zlen its = Zlen A + Zlen O + Zlen T) as Hlen by (subst its; zlia).
  wp_step. eapply wp_list_resize; [exact Hs|zlia| |exact HX].
  intros l' tl e' Htl Hv. rewrite take_ge in Hv by (unfold Zlen; lia).
  destruct (view_pos _ _ Hv) as (slack' & -> & Hmx); [zlia|].
  destruct (Zlen_split d (T ++ tl)) as (x & y & Hxy & Hx); [zlia|].
  assert (Zlen y = Zlen T) as Hy by (apply (f_equal Zlen) in Hxy; zlia).
  apply (wp_move_items _ (A ++ O ++ x) y slack' (A ++ O) T (tl ++ slack'));
    [subst its; rewrite <- !app_assoc; do 2 f_equal; rewrite (app_assoc T), Hxy; list_assoc
    |subst its; list_assoc|subst hi; zlia|subst hi; zlia|subst hi; lia|subst hi; lia|].
  specialize (HQ (O ++ x) slack' e'). replace (ListObj _ _ _) with (lobj (A ++ (O ++ x) ++ T) slack').
  - apply HQ; subst d; zlia.
  - unfold lobj. f_equal; [f_equal; list_assoc|zlia..].
Qed.

Lemma wp_ass_slice_items l its ilow ihigh vs lg e (Q : unit -> heap V E -> Prop) X :
  view l its ->
  let '(lo, hi) := clip ilow ihigh (Zlen its) in
  let res := take (Z.to_nat lo) its ++ vs ++ drop (Z.to_nat hi) its in
  Zlen res <= RESIZE_MAX ->
  (∀ l' e', view l' res ->
     Q tt (Heap l' (released l' (sub its lo hi) (took vs lg)) e')) ->
  fails_as_is l lg X ->
  wpo nf (ass_slice_items ilow ihigh vs) Q X (Heap l lg e).
Proof.
  intros Hs. destruct (clip ilow ihigh (Zlen its)) as [lo hi] eqn:Hclip.
  intros res Hm2 HQ HX. pose proof (shown_max _ _ (view_shown _ _ Hs)) as Hm1.
  unfold ass_slice_items. wp_step. apply wp_get_size. cbn [self].
  rewrite (view_size _ _ Hs), Hclip.
  destruct (clip_bounds _ _ _ _ _ (Zlen_nonneg its) Hclip) as [Hlo Hhi].
  destruct (sub_split its lo hi Hlo Hhi) as (Hsplit & HlA & HlO).
  set (A := take (Z.to_nat lo) its) in *. set (O := sub its lo hi) in *.
  set (T := drop (Z.to_nat hi) its) in *.
  assert (Zlen its = Zlen A + Zlen O + Zlen T) as Hlen by (rewrite Hsplit at 1; zlia).
  case_match eqn:E1; bool_to_prop.
  { assert (vs = [] ∧ A = [] ∧ T = []) as (-> & HA & HT) by (split_and!; apply Zlen_0_inv; zlia).
    assert (O = its) as HO by (by rewrite Hsplit, HA, HT; simpl; rewrite app_nil_r).
    subst res. rewrite HA, HT, HO in *. simpl in HQ.
    eapply wp_list_clear; [exact Hs|]. apply (HQ _ e). constructor. }
  cbv zeta. rewrite size_t_small by (unfold SIZE_T_MOD, RESIZE_MAX, SIZEOF_PTR in *; lia).
  wp_step. assert (∀ Q' : bool -> heap V E -> Prop, (∀ b e', Q' b (Heap l lg e')) ->
    wpo nf (if 8 * SIZEOF_PTR <? (hi - lo) * SIZEOF_PTR
            then PyMem_alloc ((hi - lo) * SIZEOF_PTR) else mret true) Q' X (Heap l lg e)) as Hrec.
  { intros Q' HQ'. case_match; [by apply wp_alloc|by apply wp_ret]. }
  apply Hrec. clear Hrec. intros [] e1; [|apply wp_raise, HX]. simpl negb. cbv iota.
  wp_step. apply wp_get_block. wp_step.
  assert (0 < Zlen its -> ∃ slack, l = lobj its slack ∧ Zlen its + Zlen slack <= MAX_ITEMS) as Hobj.
  { intros Hp. by apply view_pos. }
  assert (∀ Q' : list V -> heap V E -> Prop, Q' O (Heap l lg e1) ->
    wpo nf (if (hi - lo) * SIZEOF_PTR =? 0 then mret []
            else mlift (blit (replicate (Z.to_nat (hi - lo)) junk) 0
                   (default [] (ob_item (self (Heap l lg e1)))) lo (hi - lo))) Q' X
      (Heap l lg e1)) as Hrec.
  { intros Q' HQ'. unfold SIZEOF_PTR. case_match eqn:E2; bool_to_prop.
    - apply wp_ret. assert (O = []) as HO by (apply Zlen_0_inv; lia). by rewrite HO in HQ'.
    - destruct Hobj as (slack & -> & Hmx); [zlia|]. eapply wp_lift; [|exact HQ'].
      cbn [self lobj ob_item default].
      replace (its ++ slack) with (A ++ O ++ (T ++ slack)) by (rewrite Hsplit at 1; list_assoc).
      pose proof (blit_app [] (replicate (Z.to_nat (hi - lo)) junk) [] A O (T ++ slack)
                    0 lo (hi - lo)) as Hb.
      cbn [app] in Hb. rewrite !app_nil_r in Hb. apply Hb; [done|lia|zlia|lia]. }
  apply Hrec. clear Hrec. wp_step.
  assert (∀ x slack' e', Zlen x = Zlen vs -> Zlen (A ++ x ++ T) + Zlen slack' <= MAX_ITEMS ->
    wpo nf (_ ← store_items vs lo; decref_down (Z.to_nat (hi - lo)) O) Q X
      (Heap (lobj (A ++ x ++ T) slack') lg e')) as Hend.
  { intros x slack' e' Hx Hmx. wp_step.
    replace (lobj (A ++ x ++ T) slack') with
      (ListObj (Some (A ++ x ++ T ++ slack')) (Zlen res) (Zlen res + Zlen slack'))
      by (unfold lobj; f_equal; [f_equal; list_assoc|subst res; zlia..]).
    apply wp_store_items; [lia|done|].
    replace (ListObj (Some (A ++ vs ++ T ++ slack')) (Zlen res) (Zlen res + Zlen slack'))
      with (lobj res slack') by (unfold lobj, res; f_equal; f_equal; list_assoc).
    rewrite <- (app_nil_r O). apply wp_decref_down; [unfold Zlen in HlO; lia|].
    apply HQ. constructor. subst res. zlia. }
  assert (Zlen A + Zlen O = hi) as HAO by lia. set (d := Zlen vs - (hi - lo)) in *.
  destruct (d <? 0) eqn:E2; [|destruct (0 <? d) eqn:E3]; bool_to_prop.
  - destruct Hobj as (slack & -> & Hmx); [subst d; zlia|].
    pose proof (wp_make_room_shrink A O T slack (Zlen vs) lg e1) as Hmr. cbv zeta in Hmr.
    rewrite <- Hsplit, HAO, HlO in Hmr. fold d in Hmr. rewrite HlA in Hmr. apply Hmr; try lia; eauto using view_shown; zlia.
  - pose proof (wp_make_room_grow l A O T (Zlen vs) lg e1) as Hmr. cbv zeta in Hmr.
    rewrite <- Hsplit, HAO, HlO in Hmr. fold d in Hmr. apply Hmr; try lia; eauto using view_shown.
    revert Hm2. subst res. zlia.
  - apply wp_ret. destruct (decide (0 < Zlen its)) as [Hp|Hp].
    + destruct (Hobj Hp) as (slack & -> & Hmx).
      replace (lobj its slack) with (lobj (A ++ O ++ T) slack) by (by rewrite <- Hsplit).
      apply Hend; [lia|]. rewrite <- Hsplit. lia.
    + exfalso. revert E1. zlia.
Qed.

(** ** [list_ass_slice] *)

Lemma wp_decref_full vs h (Q : unit -> heap V E -> Prop) X :
  Q tt (Heap (self h) (released (self h) vs (log h)) (env h)) ->
  wpo nf (decref_down (length vs) vs) Q X h.
Proof.
  intros HQ. pose proof (wp_decref_down (nf := nf) (length vs) vs [] h Q X eq_refl HQ) as Hw.
  by rewrite app_nil_r in Hw.
Qed.

(** The state after the sequence has been released. *)
Definition seq_freed vs (fresh : bool) (h : heap V E) : heap V E :=
  if fresh then Heap (self h) (released (self h) vs (log h)) (env h) else h.
Lemma wp_with_seq {A} vs fresh (m : PM V E A) h (Q : A -> heap V E -> Prop) X :
  wpo nf m (λ a h', Q a (seq_freed vs fresh h')) (λ x h', X x (seq_freed vs fresh h')) h ->
  wpo nf (with_seq vs fresh m) Q X h.
Proof.
  intros H. unfold with_seq. wp_step. apply wp_try. eapply wp_conseq; [exact H|..].
  - intros a h' HQ. simpl in HQ. wp_step. unfold release_seq. destruct fresh.
    + apply wp_decref_full. apply wp_ret, HQ.
    + apply wp_ret, wp_ret, HQ.
  - intros x h' HX. simpl in HX. wp_step. unfold release_seq. destruct fresh.
    + apply wp_decref_full. apply wp_throw, HX.
    + apply wp_ret, wp_throw, HX.
Qed.

(** What [PySequence_Fast] gives from [h]: the items, whether they are in a
    new list, and the state; a new list of the list's own items may also fail
    for memory. *)
Inductive supplies (h : heap V E) : seq_arg V E -> list V -> bool -> heap V E -> Prop :=
  | supplies_self : supplies h ASelf (items (self h)) true
      (Heap (self h) (took (items (self h)) (log h))
         (py_malloc (SIZEOF_PTR * Zlen (items (self h))) (env h)).2)
  | supplies_seq vs : supplies h (ASeq vs) vs false h
  | supplies_iterable run vs h' : run h = (inr vs, h') ->
      supplies h (AIterable run) vs true (Heap (self h') (took vs (log h')) (env h')).
Lemma wp_PySequence_Fast h v vs fresh h' msg (Q : list V * bool -> heap V E -> Prop) X :
  supplies h v vs fresh h' -> Q (vs, fresh) h' ->
  (v = ASelf -> ∀ e, X (PyErr MemoryError no_msg) (set_env e h)) ->
  wpo nf (PySequence_Fast v msg) Q X h.
Proof.
  intros [] HQ HX; unfold wpo; simpl in *; [|done|by rewrite H].
  destruct (py_malloc _ _) as [[] e]; [done|by apply HX].
Qed.

Definition assigned its ilow ihigh vs : list V :=
  let '(lo, hi) := clip ilow ihigh (Zlen its) in
  take (Z.to_nat lo) its ++ vs ++ drop (Z.to_nat hi) its.
Definition removed its ilow ihigh : list V :=
  let '(lo, hi) := clip ilow ihigh (Zlen its) in sub its lo hi.

Lemma wp_del_slice l its ilow ihigh lg e (Q : unit -> heap V E -> Prop) X :
  view l its ->
  (∀ l' e', view l' (assigned its ilow ihigh []) ->
     Q tt (Heap l' (released l' (removed its ilow ihigh) lg) e')) ->
  fails_as_is l lg X ->
  wpo nf (list_ass_slice ilow ihigh None) Q X (Heap l lg e).
Proof.
  intros Hv HQ HX. pose proof (shown_max _ _ (view_shown _ _ Hv)) as Hm. unfold list_ass_slice.
  pose proof (wp_ass_slice_items l its ilow ihigh [] lg e Q X Hv) as Hw.
  unfold assigned, removed in HQ. pose proof (clip_bounds ilow ihigh (Zlen its)) as Hc.
  destruct (clip ilow ihigh (Zlen its)) as [lo hi]. destruct (Hc lo hi) as [Hlo Hhi]; [zlia|done|].
  apply Hw; [|apply HQ|exact HX].
  rewrite Zlen_app, Zlen_take, app_nil_l, Zlen_drop by lia. lia.
Qed.

(** The list and the log when assigning [vs] to the slice ends well. *)
Definition slice_done l' its ilow ihigh vs fresh lg e' : heap V E :=
  seq_freed vs fresh (Heap l' (released l' (removed its ilow ihigh) (took vs lg)) e').

Lemma wp_assign_items l its ilow ihigh vs fresh lg e (Q : unit -> heap V E -> Prop) X :
  let res := assigned its ilow ihigh vs in
  view l its -> Zlen res <= RESIZE_MAX ->
  (∀ l' e', view l' res -> Q tt (slice_done l' its ilow ihigh vs fresh lg e')) ->
  (∀ e', X (PyErr MemoryError no_msg) (seq_freed vs fresh (Heap l lg e'))) ->
  wpo nf (with_seq vs fresh (ass_slice_items ilow ihigh vs)) Q X (Heap l lg e).
Proof.
  intros res Hv Hm2 HQ HX. apply wp_with_seq.
  pose proof (wp_ass_slice_items l its ilow ihigh vs lg e
    (λ a h', Q a (seq_freed vs fresh h')) (λ x h', X x (seq_freed vs fresh h')) Hv) as Hw.
  subst res. unfold slice_done, assigned, removed in *.
  destruct (clip ilow ihigh (Zlen its)) as [lo hi]. apply Hw; [done|apply HQ|exact HX].
Qed.
(** Assigning a sequence, the list itself included. *)
Lemma wp_set_slice h h' v its ilow ihigh vs fresh (Q : unit -> heap V E -> Prop) X :
  let res := assigned its ilow ihigh vs in
  view (self h) (items (self h)) ->
  supplies h v vs fresh h' ->
  view (self h') its -> Zlen res <= RESIZE_MAX ->
  (∀ l' e', view l' res -> Q tt (slice_done l' its ilow ihigh vs fresh (log h') e')) ->
  (∀ e', X (PyErr MemoryError no_msg) (seq_freed vs fresh (Heap (self h') (log h') e'))) ->
  fails_as_is (self h) (log h) X ->
  wpo nf (list_ass_slice ilow ihigh (Some v)) Q X h.
Proof.
  intros res Hv0 Hsup Hv Hm2 HQ HX HXa. unfold list_ass_slice. destruct h as [l lg e].
  destruct Hsup as [|vs|run vs h' Hrun]; cbn [self log env] in *.
  - wp_step. apply wp_get_size. cbn [self]. wp_step.
    apply (wp_list_slice l (items l)); [done|lia|by rewrite (view_size _ _ Hv0)| |done].
    rewrite (view_size _ _ Hv0), sub_all. intros r e' Hr.
    replace (items r) with (items l) by (symmetry; by apply view_wf).
    apply (wp_assign_items l its); auto.
  - wp_step. eapply wp_PySequence_Fast; [constructor| |done].
    apply (wp_assign_items l its); auto.
  - wp_step. eapply wp_PySequence_Fast; [by constructor| |done].
    by apply (wp_assign_items (self h') its).
Qed.

(** ** [list_ass_item] *)
Lemma wp_set_item l a old b v lg e i (Q : unit -> heap V E -> Prop) X :
  view l (a ++ old :: b) -> i = Zlen a ->
  (∀ l', view l' (a ++ v :: b) -> Q tt (Heap l' (Decref old l' :: Incref v :: lg) e)) ->
  wpo nf (list_ass_item i (Some v)) Q X (Heap l lg e).
Proof.
  intros Hv Hi HQ. pose proof (shown_max _ _ (view_shown _ _ Hv)) as Hm. unfold list_ass_item. wp_step. apply wp_get_size. cbn [self].
  rewrite (view_size _ _ Hv). rewrite valid_index_spec by (unfold RESIZE_MAX in *; zlia).
  replace (negb _) with false by (symmetry; apply negb_false_iff, andb_true_iff; zlia).
  destruct (view_pos _ _ Hv) as (slack & -> & Hmx); [zlia|]. unfold lobj.
  wp_step. apply wp_INCREF. wp_step. rewrite <- app_assoc, <- app_comm_cons.
  apply wp_item_get; [done|]. wp_step. apply wp_item_set; [done|]. apply wp_DECREF.
  cbn [self log env].
  replace (ListObj _ _ _) with (lobj (a ++ v :: b) slack); [apply HQ; constructor; zlia|].
  unfold lobj. rewrite <- app_assoc, <- app_comm_cons. f_equal; zlia.
Qed.
Lemma wp_ass_item_range l its lg e i (ov : option V) Q X :
  view l its -> - 2 ^ 63 <= i < 2 ^ 63 -> ¬ 0 <= i < Zlen its ->
  X (PyErr IndexError "list assignment index out of range") (Heap l lg e) ->
  wpo nf (list_ass_item i ov) Q X (Heap l lg e).
Proof.
  intros Hv Hi Hr HX. pose proof (shown_max _ _ (view_shown _ _ Hv)) as Hm.
  unfold list_ass_item. wp_step. apply wp_get_size. cbn [self].
  rewrite (view_size _ _ Hv). rewrite valid_index_spec by (unfold RESIZE_MAX in *; zlia).
  replace (negb _) with true by (symmetry; apply negb_true_iff, andb_false_iff; lia). done.
Qed.

(** ** In-place repetition *)
Lemma wp_repeat_items vs : ∀ pre mid x k size al lg e n j p (Q : unit -> heap V E -> Prop) X,
  n = length vs -> j = Zlen pre -> p = Zlen (pre ++ vs ++ mid) -> Zlen x = Zlen vs ->
  Q tt (Heap (ListObj (Some (pre ++ vs ++ mid ++ vs ++ k)) size al) (took vs lg) e) ->
  wpo nf (repeat_items n j p) Q X
    (Heap (ListObj (Some (pre ++ vs ++ mid ++ x ++ k)) size al) lg e).
Proof.
  induction vs as [|v vs IH]; intros pre mid x k size al lg e n j p Q X -> Hj Hp Hx HQ.
  { apply Zlen_0_inv in Hx as ->. by apply wp_ret. }
  destruct (Zlen_pos_inv x) as (y & x' & ->); [zlia|]. cbn [length repeat_items].
  rewrite <- !app_comm_cons. wp_step. apply wp_item_get; [done|]. wp_step. apply wp_INCREF. wp_step.
  replace (pre ++ v :: vs ++ mid ++ y :: x' ++ k) with ((pre ++ v :: vs ++ mid) ++ y :: x' ++ k)
    by list_assoc.
  apply wp_item_set; [rewrite Hp; zlia|]. cbn [self log env].
  replace ((pre ++ v :: vs ++ mid) ++ v :: x' ++ k)
    with ((pre ++ [v]) ++ vs ++ (mid ++ [v]) ++ x' ++ k) by list_assoc.
  apply IH; [done|zlia|rewrite Hp; zlia|zlia|].
  replace ((pre ++ [v]) ++ vs ++ (mid ++ [v]) ++ vs ++ k)
    with (pre ++ (v :: vs) ++ mid ++ (v :: vs) ++ k) by list_assoc.
  rewrite took_cons in HQ. exact HQ.
Qed.
Lemma wp_repeat_times its n : ∀ mid x k size al lg e p (Q : unit -> heap V E -> Prop) X,
  p = Zlen (its ++ mid) -> Zlen x = Z.of_nat n * Zlen its ->
  Q tt (Heap (ListObj (Some (its ++ mid ++ copies n its ++ k)) size al) (took (copies n its) lg) e) ->
  wpo nf (repeat_times n (Zlen its) p) Q X
    (Heap (ListObj (Some (its ++ mid ++ x ++ k)) size al) lg e).
Proof.
  induction n as [|n IH]; intros mid x k size al lg e p Q X Hp Hx HQ.
  { apply Zlen_0_inv in Hx as ->. by apply wp_ret. }
  destruct (Zlen_split (Zlen its) x) as (x1 & x2 & -> & Hx1); [zlia|]. cbn [repeat_times]. wp_step.
  replace (its ++ mid ++ (x1 ++ x2) ++ k) with ([] ++ its ++ mid ++ x1 ++ x2 ++ k) by list_assoc.
  apply wp_repeat_items; [unfold Zlen; lia|done|done|lia|].
  cbn [app]. replace (its ++ mid ++ its ++ x2 ++ k) with (its ++ (mid ++ its) ++ x2 ++ k) by list_assoc.
  apply IH; [rewrite Hp; zlia|zlia|].
  replace (its ++ (mid ++ its) ++ copies n its ++ k)
    with (its ++ mid ++ copies (S n) its ++ k) by (simpl copies; list_assoc).
  simpl copies in HQ. rewrite took_app in HQ. exact HQ.
Qed.
Lemma copies_1 its : copies 1 its = its.
Proof. apply app_nil_r. Qed.

Lemma wp_inplace_repeat l its lg e n (Q : unit -> heap V E -> Prop) X :
  view l its -> n * Zlen its <= RESIZE_MAX ->
  (∀ l' e', 1 <= n -> view l' (copies (Z.to_nat n) its) ->
     Q tt (Heap l' (took (copies (Z.to_nat (n - 1)) its) lg) e')) ->
  (∀ l', n < 1 -> view l' [] -> Q tt (Heap l' (released l' its lg) e)) ->
  fails_as_is l lg X ->
  wpo nf (list_inplace_repeat n) Q X (Heap l lg e).
Proof.
  intros Hv Hm2 HQ HQ0 HX. unfold list_inplace_repeat. wp_step. apply wp_get_size. cbn [self].
  rewrite (view_size _ _ Hv). destruct (decide (n < 1)) as [Hn|Hn].
  - destruct ((Zlen its =? 0) || (n =? 1)) eqn:E1.
    + apply wp_ret. assert (its = []) as -> by (apply Zlen_0_inv; lia). apply HQ0; [done|exact Hv].
    + replace (n <? 1) with true by lia. apply wp_list_clear with its; [done|].
      apply HQ0; [done|constructor].
  - assert (copies (Z.to_nat n) its = its ++ copies (Z.to_nat (n - 1)) its) as Hc.
    { replace (Z.to_nat n) with (S (Z.to_nat (n - 1))) by lia. done. }
    rewrite Hc in HQ. destruct ((Zlen its =? 0) || (n =? 1)) eqn:E1.
    { apply wp_ret. assert (copies (Z.to_nat (n - 1)) its = []) as Hz.
      { apply Zlen_0_inv. rewrite Zlen_copies. nia. }
      specialize (HQ l e). rewrite Hz, app_nil_r in HQ. apply HQ; [lia|done]. }
    apply orb_false_iff in E1 as [E1 E2]. replace (n <? 1) with false by lia.
    assert (n * Zlen its <= PY_SSIZE_T_MAX) as Hfit by (unfold RESIZE_MAX, PY_SSIZE_T_MAX in *; lia).
    replace (_ <? Zlen its) with false; [|symmetry; apply Z.ltb_ge, Z.div_le_lower_bound; lia].
    wp_step. eapply wp_list_resize; [by left|zlia| |exact HX].
    intros l' tl e' Htl Hv'. rewrite take_ge in Hv' by (unfold Zlen in *; nia).
    destruct (view_pos _ _ Hv') as (slack & -> & Hmx); [zlia|].
    unfold lobj. replace ((its ++ tl) ++ slack) with (its ++ [] ++ tl ++ slack) by list_assoc.
    assert (Zlen tl = (n - 1) * Zlen its) as Htl' by (rewrite Htl; pose_zlen; nia).
    apply wp_repeat_times; [by rewrite app_nil_r|rewrite Htl', Z2Nat.id by lia; done|].
    cbn [app]. specialize (HQ (lobj (its ++ copies (Z.to_nat (n - 1)) its) slack) e').
    replace (ListObj _ _ _) with (lobj (its ++ copies (Z.to_nat (n - 1)) its) slack);
      [apply HQ; [lia|constructor; rewrite Zlen_app, Zlen_copies, Z2Nat.id by lia; zlia]|].
    unfold lobj. rewrite !Zlen_app, Zlen_copies, Htl', Z2Nat.id, <- app_assoc by lia. done.
Qed.

(** Deleting one item. *)
Lemma clip_item a (v : V) b : clip (Zlen a) (Zlen a + 1) (Zlen (a ++ v :: b)) = (Zlen a, Zlen a + 1).
Proof.
  unfold clip. replace (Zlen a <? 0) with false by (symmetry; apply Z.ltb_ge; zlia).
  replace (Zlen (a ++ v :: b) <? Zlen a) with false by (symmetry; apply Z.ltb_ge; zlia).
  replace (Zlen a + 1 <? Zlen a) with false by lia.
  by replace (Zlen (a ++ v :: b) <? Zlen a + 1) with false by (symmetry; apply Z.ltb_ge; zlia).
Qed.
Lemma wp_del_item l a v b lg e i (Q : unit -> heap V E -> Prop) X :
  view l (a ++ v :: b) -> i = Zlen a ->
  (∀ l' e', view l' (a ++ b) -> Q tt (Heap l' (Decref v l' :: lg) e')) -> fails_as_is l lg X ->
  wpo nf (list_ass_slice i (i + 1) None) Q X (Heap l lg e).
Proof.
  intros Hv -> HQ HX. apply (wp_del_slice _ (a ++ v :: b)); [done| |done].
  intros l' e' Hv'. unfold assigned, removed in *. rewrite clip_item in *.
  unfold sub in *. replace (Zlen a + 1 - Zlen a) with 1 in * by lia.
  replace (Z.to_nat (Zlen a + 1)) with (S (length a)) in Hv' by (unfold Zlen; lia).
  unfold Zlen in *. rewrite Nat2Z.id in *. rewrite take_app_length in Hv'.
  rewrite drop_app_length. rewrite drop_app_ge in Hv' by lia.
  replace (S (length a) - length a)%nat with 1%nat in Hv' by lia. by apply HQ.
Qed.

(** ** [list_pop_impl] *)
Lemma wp_pop l a v b lg e index (Q : V -> heap V E -> Prop) X :
  view l (a ++ v :: b) ->
  Zlen a = (if index <? 0 then index + Zlen (a ++ v :: b) else index) ->
  (∀ l' e', view l' (a ++ b) ->
     Q v (Heap l' (if decide (b = []) then lg else Decref v l' :: Incref v :: lg) e')) ->
  (∀ lg' e', lg' = lg ∨ lg' = Decref v l :: Incref v :: lg ->
     X (PyErr MemoryError no_msg) (Heap l lg' e')) ->
  wpo nf (list_pop_impl index) Q X (Heap l lg e).
Proof.
  intros Hv Hi HQ HX. pose proof (shown_max _ _ (view_shown _ _ Hv)) as Hm. unfold list_pop_impl. wp_step. apply wp_get_size. cbn [self].
  rewrite (view_size _ _ Hv). replace (_ =? 0) with false by (symmetry; apply Z.eqb_neq; zlia). cbv zeta. rewrite <- Hi.
  rewrite valid_index_spec by (unfold RESIZE_MAX in *; zlia).
  replace (negb _) with false by (symmetry; apply negb_false_iff, andb_true_iff; zlia).
  destruct (view_pos _ _ Hv) as (slack & -> & Hmx); [zlia|]. unfold lobj.
  wp_step. rewrite <- app_assoc, <- app_comm_cons. apply wp_item_get; [done|].
  replace (ListObj _ _ _) with (lobj (a ++ v :: b) slack)
    by (unfold lobj; rewrite <- app_assoc, <- app_comm_cons; done).
  destruct (Zlen a =? _) eqn:E1; bool_to_prop.
  - assert (b = []) as -> by (apply Zlen_0_inv; zlia).
    wp_step. eapply wp_list_resize; [left; by constructor|zlia| |by auto].
    intros l' tl e' Htl Hv'. apply wp_ret. specialize (HQ l' e').
    rewrite decide_True, app_nil_r in HQ by done. apply HQ. assert (tl = []) as -> by (apply Zlen_0_inv; zlia). rewrite app_nil_r in Hv'.
    replace (take _ _) with a in Hv'; [done|]. symmetry. apply take_app_length'. revert E1. unfold Zlen. lia.
  - assert (b ≠ []) as Hb by (intros ->; zlia). wp_step. apply wp_INCREF. wp_step. apply wp_try.
    cbn [self log env]. apply (wp_del_item _ a v b); [by constructor|done|..].
    + intros l' e' Hv'. apply wp_ret. specialize (HQ l' e').
      rewrite decide_False in HQ by done. by apply HQ.
    + intros e'. wp_step. apply wp_DECREF, wp_throw, HX. by right.
Qed.
Lemma wp_pop_error l its lg e index Q X :
  view l its -> - 2 ^ 63 <= index < 2 ^ 63 ->
  ¬ - Zlen its <= index < Zlen its ->
  X (PyErr IndexError (if decide (its = []) then "pop from empty list"
                       else "pop index out of range")) (Heap l lg e) ->
  wpo nf (list_pop_impl index) Q X (Heap l lg e).
Proof.
  intros Hv Hi Hr HX. pose proof (shown_max _ _ (view_shown _ _ Hv)) as Hm. unfold list_pop_impl. wp_step. apply wp_get_size. cbn [self].
  rewrite (view_size _ _ Hv). destruct (Zlen its =? 0) eqn:E1; bool_to_prop.
  { by rewrite decide_True in HX by (by apply Zlen_0_inv). }
  rewrite decide_False in HX by (by intros ->). cbv zeta.
  rewrite valid_index_spec by (unfold RESIZE_MAX in *; destruct (index <? 0) eqn:E2; bool_to_prop; zlia).
  replace (negb _) with true; [done|].
  symmetry; apply negb_true_iff, andb_false_iff. destruct (index <? 0) eqn:E2; zlia.
Qed.
End assign.
