(* ===== verification/ListExtend.v ===== *)
(** * Extending a list: [list_extend] and [list_inplace_concat]

    The argument is a sequence that [PySequence_Fast] takes over, or an
    iterator that is run to exhaustion.  Its [__next__] is Python code: it may
    do anything to the state, the list that is being extended included. *)

From stdpp Require Import base list numbers strings.
From S2P Require Import Prelude PyHeap ListCore ListView ListSpec ListAssign.

Inductive iter_result (V : Type) :=
  | INext (v : V)      (* a new reference *)
  | IStop              (* NULL, without an exception or with StopIteration *)
  | IErr (e : pyexn).
Arguments INext {V} v.
Arguments IStop {V}.
Arguments IErr {V} e.

(** [PyObject_GetIter], [PyObject_LengthHint(iterable, 8)] and [tp_iternext];
    the references to the iterator itself are not tracked. *)
Record iterable (V E : Type) := Iterable {
  it_get : heap V E -> option pyexn * heap V E;
  it_hint : heap V E -> (pyexn + Z) * heap V E;
  it_next : heap V E -> iter_result V * heap V E
}.
Arguments Iterable {V E} _ _ _.
Arguments it_get {V E} _ _.
Arguments it_hint {V E} _ _.
Arguments it_next {V E} _ _.

(** A list, checked or not, a tuple or the list itself; or anything else. *)
Inductive extend_arg (V E : Type) := XSeq (a : seq_arg V E) | XIter (it : iterable V E).
Arguments XSeq {V E} a.
Arguments XIter {V E} it.

Section extend.
Context {V E : Type} {api : PyApi V E}.

Definition PyObject_GetIter (it : iterable V E) : PM V E unit := λ h,
  match it_get it h with (None, h) => Ret tt h | (Some e, h) => Exn e h end.
Definition PyObject_LengthHint (it : iterable V E) : PM V E Z := λ h,
  match it_hint it h with (inr n, h) => Ret n h | (inl e, h) => Exn e h end.
Definition iternext (it : iterable V E) : PM V E (iter_result V) := λ h,
  match it_next it h with
  | (INext v, h) => Ret (INext v) (add_event (Incref v) h)
  | (r, h) => Ret r h
  end.

(** Room for [n] more items after [m], without them: [list_resize] and
    [Py_SET_SIZE(self, m)]. *)
Definition make_room (m n : Z) : PM V E unit :=
  _ ← list_resize (m + n); Py_SET_SIZE m.
(** The item goes into a slot that is already there, or is appended. *)
Definition extend_item (item : V) : PM V E unit :=
  l ← get_self;
  if ob_size l <? allocated l then
    _ ← item_set (ob_size l) item; Py_SET_SIZE (ob_size l + 1)
  else
    status ← mtry (app1 item);
    _ ← Py_DECREF item;
    match status with inl e => mthrow e | inr _ => mret tt end.
(** [if (Py_SIZE(self) < self->allocated) list_resize(self, Py_SIZE(self))]. *)
Definition cut_back : PM V E unit :=
  l ← get_self; if ob_size l <? allocated l then list_resize (ob_size l) else mret tt.

Fixpoint extend_loop (fuel : nat) (it : iterable V E) : PM V E unit :=
  match fuel with
  | O => mnofuel
  | S fuel =>
      r ← iternext it;
      match r with
      | IErr e => mthrow e
      | IStop => mret tt
      | INext item => _ ← extend_item item; extend_loop fuel it
      end
  end.

(** The reference that [PySequence_Fast] returned is dropped on every path
    but that of a failing [list_preallocate_exact]. *)
Definition list_extend_seq (a : seq_arg V E) : PM V E unit :=
  '(src, fresh) ← PySequence_Fast a "argument must be iterable";
  let n := Zlen src in
  if n =? 0 then release_seq src fresh
  else
    m ← get_size;
    _ ← cassert (m <? PY_SSIZE_T_MAX - n);
    l ← get_self;
    _ ← (match ob_item l with
         | None => _ ← list_preallocate_exact n; Py_SET_SIZE n
         | Some _ =>
             r ← mtry (list_resize (m + n));
             match r with
             | inl e => _ ← release_seq src fresh; mthrow e
             | inr _ => mret tt
             end
         end);
    _ ← store_items src m;
    release_seq src fresh.
Definition list_extend_iter (fuel : nat) (it : iterable V E) : PM V E unit :=
  _ ← PyObject_GetIter it;
  n ← PyObject_LengthHint it;
  m ← get_size;
  _ ← (if PY_SSIZE_T_MAX - n <? m then mret tt
       else
         l ← get_self;
         match ob_item l with
         | None => if n =? 0 then mret tt else list_preallocate_exact n
         | Some _ => make_room m n
         end);
  _ ← extend_loop fuel it;
  cut_back.
Definition list_extend (fuel : nat) (iterable : extend_arg V E) : PM V E unit :=
  match iterable with
  | XSeq a => list_extend_seq a
  | XIter it => list_extend_iter fuel it
  end.
(** [result] is None, whose reference is dropped; the list is returned. *)
Definition list_inplace_concat (fuel : nat) (other : extend_arg V E) : PM V E unit :=
  list_extend fuel other.
End extend.

Section extend_specs.
Context {V E : Type} {api : PyApi V E} {nf : Prop}.
Implicit Types (its slack vs : list V) (l : listobj V) (lg : list (event V)) (e : E).

Lemma wp_release_seq vs fresh h (Q : unit -> heap V E -> Prop) X :
  Q tt (seq_freed vs fresh h) -> wpo nf (release_seq vs fresh) Q X h.
Proof. intros HQ. destruct fresh; [by apply wp_decref_full|by apply wp_ret]. Qed.

(** Putting [vs] after [its], in a list with room for them. *)
Lemma wp_grow_by l its n lg e (Q : unit -> heap V E -> Prop) X :
  view l its -> 0 <= n -> Zlen its + n <= RESIZE_MAX ->
  (∀ x slack e', Zlen x = n -> Zlen its + n + Zlen slack <= MAX_ITEMS ->
     n = 0 ∨ Q tt (Heap (ListObj (Some (its ++ x ++ slack)) (Zlen its + n)
                  (Zlen its + n + Zlen slack)) lg e')) ->
  (n = 0 -> ∀ l' e', view l' its -> Q tt (Heap l' lg e')) ->
  fails_as_is l lg X ->
  wpo nf (list_resize (Zlen its + n)) Q X (Heap l lg e).
Proof.
  intros Hv Hn Hm HQ HQ0 HX. eapply wp_list_resize; [by left|zlia| |exact HX].
  intros l' tl e' Htl Hv'. rewrite take_ge in Hv' by (unfold Zlen; lia).
  destruct (decide (n = 0)) as [->|Hn0].
  { assert (tl = []) as -> by (apply Zlen_0_inv; lia). rewrite app_nil_r in Hv'. by apply HQ0. }
  destruct (view_pos _ _ Hv') as (slack & -> & Hmx); [zlia|].
  destruct (HQ tl slack e') as [|HQ']; [lia|zlia|done|].
  unfold lobj. rewrite <- app_assoc. replace (Zlen (its ++ tl)) with (Zlen its + n) by zlia. exact HQ'.
Qed.

Lemma wp_extend_seq h h' a its vs fresh (Q : unit -> heap V E -> Prop) X :
  supplies h a vs fresh h' -> view (self h') its -> Zlen (its ++ vs) <= RESIZE_MAX ->
  (∀ l' e', view l' (its ++ vs) ->
     Q tt (seq_freed vs fresh (Heap l' (took vs (log h')) e'))) ->
  (∀ e' lg, lg = log h' ∨ lg = log (seq_freed vs fresh h') ∨ a = ASelf ∧ lg = log h ->
     X (PyErr MemoryError no_msg) (Heap (self h') lg e')) ->
  wpo nf (list_extend_seq a) Q X h.
Proof.
  intros Hsup Hv Hm HQ HX. unfold list_extend_seq. wp_step. eapply wp_PySequence_Fast; [done| |].
  2:{ intros -> e'. replace (self h') with (self h) in HX by (by inversion Hsup).
      apply HX. auto. }
  cbv beta iota zeta. destruct (Zlen vs =? 0) eqn:E1; bool_to_prop.
  { apply Zlen_0_inv in E1 as ->. rewrite app_nil_r in HQ. apply wp_release_seq.
    destruct h' as [l lg e]. by apply (HQ l e). }
  destruct h' as [l lg e]. cbn [self log] in *. pose proof (Zlen_nonneg vs).
  wp_step. apply wp_get_size. cbn [self]. rewrite (view_size _ _ Hv).
  apply wp_bind, wp_assert; [unfold PY_SSIZE_T_MAX, RESIZE_MAX in *; zlia|].
  wp_step. apply wp_get_self. cbn [self]. wp_step.
  assert (∀ x slack e', Zlen x = Zlen vs -> Zlen its + Zlen vs + Zlen slack <= MAX_ITEMS ->
    wpo nf (_ ← store_items vs (Zlen its); release_seq vs fresh) Q X
      (Heap (ListObj (Some (its ++ x ++ slack)) (Zlen its + Zlen vs)
               (Zlen its + Zlen vs + Zlen slack)) lg e')) as Hstore.
  { intros x slack e' Hx Hmx. wp_step. apply wp_store_items; [done|done|]. apply wp_release_seq.
    replace (ListObj _ _ _) with (lobj (its ++ vs) slack); [apply HQ; constructor; zlia|].
    unfold lobj. rewrite <- app_assoc. f_equal; zlia. }
  destruct Hv as [|its slack Hmx]; cbn [null_list lobj ob_item].
  - unfold list_preallocate_exact. wp_step. wp_step. apply wp_get_self. apply wp_bind, wp_assert; [done|].
    apply wp_bind, wp_assert; [lia|]. unfold PyMem_New. wp_step.
    rewrite size_t_small by (unfold SIZE_T_MOD, RESIZE_MAX in *; zlia).
    destruct (_ <? Zlen vs) eqn:E2; bool_to_prop.
    { apply wp_ret, wp_raise, HX. by left. }
    wp_step. apply wp_alloc. intros [] e'; apply wp_ret.
    + apply wp_put_self. unfold Py_SET_SIZE. wp_step. apply wp_get_self, wp_put_self.
      specialize (Hstore (replicate (Z.to_nat (Zlen vs)) junk) [] e').
      rewrite app_nil_r in Hstore. rewrite Zlen_nil, Z.add_0_r in Hstore. apply Hstore; [zlia|].
      change (_ `div` _) with MAX_ITEMS in E2. zlia.
    + apply wp_raise, HX. by left.
  - wp_step. apply wp_try.
    apply wp_grow_by; [by constructor|lia|zlia| |lia|].
    + intros x slack' e' Hx Hmx'. right. apply wp_ret. by apply Hstore.
    + intros e'. wp_step. apply wp_release_seq, wp_throw.
      unfold seq_freed in *. destruct fresh; apply HX; simpl; auto.
Qed.

(** ** Iterators *)

(** Length hints beyond this one can make [list_resize] overflow. *)
Definition HINT_MAX : Z := 2 ^ 59.

Lemma wp_make_room l its n lg e (Q : unit -> heap V E -> Prop) X :
  view l its -> 0 <= n <= HINT_MAX -> (∀ l' e', view l' its -> Q tt (Heap l' lg e')) ->
  fails_as_is l lg X -> wpo nf (make_room (Zlen its) n) Q X (Heap l lg e).
Proof.
  intros Hv Hn HQ HX. pose proof (view_max _ _ Hv). unfold make_room. wp_step.
  assert (∀ l' e', view l' its -> wpo nf (Py_SET_SIZE (Zlen its)) Q X (Heap l' lg e')) as Hset.
  { intros l' e' Hv'. unfold Py_SET_SIZE. wp_step. apply wp_get_self, wp_put_self. cbn [self log env].
    replace (with_size _ _) with l'; [by apply HQ|]. by destruct Hv'. }
  apply wp_grow_by; [done|lia|rewrite MAX_ITEMS_val in *; unfold RESIZE_MAX, HINT_MAX in *; lia
    | |auto|done].
  intros x slack e' Hx Hmx. right. unfold Py_SET_SIZE. wp_step. apply wp_get_self, wp_put_self.
  cbn [self log env]. unfold with_size. cbn [ob_item allocated].
  replace (ListObj _ _ _) with (lobj its (x ++ slack)); [apply HQ; constructor; zlia|].
  unfold lobj. f_equal. zlia.
Qed.

(** A block of exactly [n] slots for a list that has none. *)
Lemma wp_preallocate_exact n lg e (Q : unit -> heap V E -> Prop) X :
  0 < n < SIZE_T_MOD ->
  (∀ slack e', Zlen slack = n -> n <= MAX_ITEMS -> Q tt (Heap (lobj [] slack) lg e')) ->
  fails_as_is null_list lg X ->
  wpo nf (list_preallocate_exact n) Q X (Heap null_list lg e).
Proof.
  intros Hn HQ HX. unfold list_preallocate_exact. wp_step. apply wp_get_self.
  apply wp_bind, wp_assert; [done|]. apply wp_bind, wp_assert; [lia|]. unfold PyMem_New. wp_step.
  rewrite size_t_small by lia. change (_ `div` _) with MAX_ITEMS.
  destruct (_ <? n) eqn:E2; bool_to_prop; [apply wp_ret, wp_raise, HX|].
  wp_step. apply wp_alloc. intros [] e'; apply wp_ret; [|apply wp_raise, HX].
  apply wp_put_self. cbn [self log env ob_size null_list].
  specialize (HQ (replicate (Z.to_nat n) junk) e' ltac:(zlia) ltac:(lia)). unfold lobj in HQ.
  rewrite Zlen_replicate, Zlen_nil, Z2Nat.id, Z.add_0_l in HQ by lia. exact HQ.
Qed.
Lemma wp_extend_item l its v lg e (Q : unit -> heap V E -> Prop) (X : pyexn -> heap V E -> Prop) :
  view l its ->
  (∀ l' lg' e', view l' (its ++ [v]) -> lg' = lg ∨ lg' = Decref v l' :: Incref v :: lg ->
     Q tt (Heap l' lg' e')) ->
  (∀ e', X (PyErr MemoryError no_msg) (Heap l (Decref v l :: lg) e')) ->
  wpo nf (extend_item v) Q X (Heap l lg e).
Proof.
  intros Hv HQ HX. unfold extend_item. wp_step. apply wp_get_self. cbn [self].
  destruct (_ <? _) eqn:E1; bool_to_prop.
  - destruct Hv as [|its slack Hmx]; [simpl in E1; lia|]. cbn [lobj ob_size allocated] in *.
    destruct (Zlen_pos_inv slack) as (y & k & ->); [lia|]. wp_step. apply wp_item_set; [done|].
    unfold Py_SET_SIZE. wp_step. apply wp_get_self, wp_put_self. cbn [self log env].
    unfold with_size. cbn [ob_item allocated].
    replace (ListObj _ _ _) with (lobj (its ++ [v]) k).
    + apply HQ; [constructor; zlia|by left].
    + unfold lobj. rewrite <- app_assoc. f_equal; zlia.
  - wp_step. apply wp_try. apply (wp_app1 l its).
    + by apply view_shown.
    + intros l' e' Hv'. wp_step. apply wp_DECREF, wp_ret. apply HQ; [done|by right].
    + intros e'. wp_step. apply wp_DECREF, wp_throw, HX.
Qed.
Lemma wp_cut_back l its lg e (Q : unit -> heap V E -> Prop) X :
  view l its -> (∀ l' e', view l' its -> Q tt (Heap l' lg e')) -> fails_as_is l lg X ->
  wpo nf cut_back Q X (Heap l lg e).
Proof.
  intros Hv HQ HX. unfold cut_back. wp_step. apply wp_get_self. cbn [self].
  case_match; [|by apply wp_ret, HQ]. rewrite (view_size _ _ Hv), <- (Z.add_0_r (Zlen its)).
  pose proof MAX_ITEMS_lt. pose proof (view_max _ _ Hv).
  apply wp_grow_by; [done|done|lia|intros; by left|auto|done].
Qed.
End extend_specs.

(** ** An iterator that does as it likes *)

(** A list in shape whose items satisfy [T]. *)
Definition good {V} (T : V -> Prop) (l : listobj V) : Prop := list_wf l ∧ Forall T (items l).
Lemma good_view {V} (T : V -> Prop) l : good T l <-> ∃ its, view l its ∧ Forall T its.
Proof.
  split.
  - intros [H1 H2]. exists (items l). split; [by apply wf_view|done].
  - intros (its & Hv & HT). destruct (view_wf _ _ Hv) as [H1 <-]. done.
Qed.

(** The iterator's code keeps the list good, its items satisfy [P] and its
    hints are in range. *)
Record iter_keeps {V E} (T P : V -> Prop) (it : iterable V E) : Prop := {
  ik_get : ∀ h, good T (self h) -> good T (self (it_get it h).2);
  ik_hint : ∀ h, good T (self h) -> good T (self (it_hint it h).2) ∧
    match (it_hint it h).1 with inr n => 0 <= n <= HINT_MAX | inl _ => True end;
  ik_next : ∀ h, good T (self h) -> good T (self (it_next it h).2) ∧
    match (it_next it h).1 with INext v => P v | _ => True end
}.

Section any_iterator.
Context {V E : Type} {api : PyApi V E}.
Variables (T P : V -> Prop) (it : iterable V E).
Hypothesis Hit : iter_keeps T P it.
Implicit Types (h : heap V E).

(** Keeping the list good, whatever happens, for as long as it runs. *)
Definition stays_good {A} (m : PM V E A) : Prop := ∀ h, good T (self h) ->
  wpo True m (λ _ h', good T (self h')) (λ _ h', good T (self h')) h.

Lemma stays_ret {A} (a : A) : stays_good (mret a).
Proof. by intros h Hh. Qed.
Lemma stays_throw {A} e : stays_good (mthrow e : PM V E A).
Proof. by intros h Hh. Qed.
Lemma stays_bind {A B} (m : PM V E A) (k : A -> PM V E B) :
  stays_good m -> (∀ a, stays_good (k a)) -> stays_good (m ≫= k).
Proof. intros Hm Hk h Hh. wp_step. eapply wp_conseq; [by apply Hm|intros a h'; apply Hk|done]. Qed.

Lemma wp_PyObject_GetIter : stays_good (PyObject_GetIter it).
Proof.
  intros h Hh. pose proof (ik_get _ _ _ Hit h Hh) as Hg. unfold wpo, PyObject_GetIter.
  by destruct (it_get it h) as [[] h'].
Qed.
Lemma wp_LengthHint h (Q : Z -> heap V E -> Prop) X :
  good T (self h) -> (∀ n h', 0 <= n <= HINT_MAX -> good T (self h') -> Q n h') ->
  (∀ e h', good T (self h') -> X e h') -> wpo True (PyObject_LengthHint it) Q X h.
Proof.
  intros Hh HQ HX. pose proof (ik_hint _ _ _ Hit h Hh) as Hg. unfold wpo, PyObject_LengthHint.
  destruct (it_hint it h) as [[] h']; simpl in Hg; destruct Hg; [by apply HX|by apply HQ].
Qed.
Lemma wp_iternext h (Q : iter_result V -> heap V E -> Prop) X :
  good T (self h) ->
  (∀ r h', good T (self h') -> match r with INext v => P v | _ => True end -> Q r h') ->
  wpo True (iternext it) Q X h.
Proof.
  intros Hh HQ. pose proof (ik_next _ _ _ Hit h Hh) as [Hg Hr]. unfold wpo, iternext.
  destruct (it_next it h) as [[] h']; by apply HQ.
Qed.

Lemma stays_extend_item v : T v -> stays_good (extend_item v).
Proof.
  intros Hv [l lg e] (its & Hl & Hits)%good_view. apply (wp_extend_item l its).
  - done.
  - intros l' lg' e' Hl' _. apply good_view. exists (its ++ [v]). split; [done|].
    apply Forall_app. by rewrite Forall_singleton.
  - intros e'. apply good_view. eauto.
Qed.
Lemma stays_make_room n : 0 <= n <= HINT_MAX ->
  stays_good (m ← get_size; make_room m n).
Proof.
  intros Hn [l lg e] (its & Hl & Hits)%good_view. cbn [self] in *. wp_step. apply wp_get_size. cbn [self].
  rewrite (view_size _ _ Hl). apply wp_make_room; [done|done|..].
  - intros l' e' Hl'. apply good_view. eauto.
  - intros e'. apply good_view. eauto.
Qed.
Lemma stays_cut_back : stays_good cut_back.
Proof.
  intros [l lg e] (its & Hl & Hits)%good_view. apply (wp_cut_back l its); [done|..].
  - intros l' e' Hl'. apply good_view. eauto.
  - intros e'. apply good_view. eauto.
Qed.
Lemma stays_extend_loop fuel : (∀ v, P v -> T v) -> stays_good (extend_loop fuel it).
Proof.
  intros HPT. induction fuel as [|fuel IH]; [done|]. intros h Hh. cbn [extend_loop]. wp_step.
  apply wp_iternext; [done|]. intros [v| |e'] h' Hh' Hr; [|done|done].
  apply stays_bind; [apply stays_extend_item; auto|intros _; exact IH|done].
Qed.
Lemma stays_list_extend_iter fuel : (∀ v, P v -> T v) -> stays_good (list_extend_iter fuel it).
Proof.
  intros HPT. unfold list_extend_iter. apply stays_bind; [apply wp_PyObject_GetIter|]. intros _ h Hh.
  wp_step. apply wp_LengthHint; [done| |done]. intros n h' Hn Hh'.
  wp_step. apply wp_get_size. wp_step.
  apply wp_conseq with (Q := λ _ h', good T (self h')) (X := λ _ h', good T (self h')); [| |done].
  2:{ intros _ h2 Hh2. apply stays_bind; [by apply stays_extend_loop|intros _; apply stays_cut_back|exact Hh2]. }
  case_match; [by apply wp_ret|]. wp_step. apply wp_get_self.
  destruct (ob_item (self h')) eqn:E1; [exact (stays_make_room n Hn h' Hh')|].
  destruct (n =? 0) eqn:E2; bool_to_prop; [by apply wp_ret|].
  destruct h' as [l lg e]. apply good_view in Hh' as (its & Hl & Hits). cbn [self] in *.
  destruct Hl as [|its slack]; [|done].
  apply wp_preallocate_exact; [unfold HINT_MAX, SIZE_T_MOD in *; lia|..].
  - intros slack e' Hs Hm. apply good_view. exists []. split; [constructor; zlia|done].
  - intros e'. apply good_view. exists []. split; [constructor|done].
Qed.
End any_iterator.

(** ** An iterator that only yields items *)

(** From an environment satisfying [Y vs] the iterator yields [vs] and stops,
    and neither it nor the allocator disturbs the list or the iteration. *)
Record yields {V E} `{PyApi V E} (it : iterable V E) (Y : list V -> E -> Prop) : Prop := {
  y_get : ∀ vs l lg e, Y vs e -> ∃ e', it_get it (Heap l lg e) = (None, Heap l lg e') ∧ Y vs e';
  y_hint : ∀ vs l lg e, Y vs e ->
    ∃ n e', it_hint it (Heap l lg e) = (inr n, Heap l lg e') ∧ 0 <= n <= HINT_MAX ∧ Y vs e';
  y_next : ∀ v vs l lg e, Y (v :: vs) e ->
    ∃ e', it_next it (Heap l lg e) = (INext v, Heap l lg e') ∧ Y vs e';
  y_stop : ∀ l lg e, Y [] e -> ∃ e', it_next it (Heap l lg e) = (IStop, Heap l lg e');
  y_malloc : ∀ vs n e, Y vs e -> Y vs (py_malloc n e).2
}.

(** *** The environment beside the list *)
Section env_keeps.
Context {V E : Type} {api : PyApi V E}.
Variable R : E -> Prop.

Definition env_keeps {A} (m : PM V E A) : Prop := ∀ h, R (env h) ->
  match m h with Ret _ h' | Exn _ h' => R (env h') | _ => True end.
Lemma env_bind {A B} (m : PM V E A) (k : A -> PM V E B) :
  env_keeps m -> (∀ a, env_keeps (k a)) -> env_keeps (m ≫= k).
Proof.
  intros Hm Hk h Hh. specialize (Hm h Hh). unfold mbind, M_bind. destruct (m h); try done. by apply Hk.
Qed.
Lemma env_try {A} (m : PM V E A) : env_keeps m -> env_keeps (mtry m).
Proof. intros Hm h Hh. specialize (Hm h Hh). unfold mtry. by destruct (m h). Qed.
Lemma env_ret {A} (a : A) : env_keeps (mret a).
Proof. by intros h Hh. Qed.
Lemma env_throw {A} e : env_keeps (mthrow e : PM V E A).
Proof. by intros h Hh. Qed.
Lemma env_raise {A} ty msg : env_keeps (mraise ty msg : PM V E A).
Proof. by intros h Hh. Qed.
Lemma env_assert b : env_keeps (cassert b).
Proof. intros h Hh. by destruct b. Qed.
Lemma env_lift {A} (o : option A) : env_keeps (mlift o).
Proof. intros h Hh. by destruct o. Qed.
Lemma env_get_self : env_keeps get_self.
Proof. by intros h Hh. Qed.
Lemma env_put_self l : env_keeps (put_self l).
Proof. by intros h Hh. Qed.
Lemma env_INCREF v : env_keeps (Py_INCREF v).
Proof. by intros h Hh. Qed.
Lemma env_DECREF v : env_keeps (Py_DECREF v).
Proof. by intros h Hh. Qed.
Lemma env_alloc n : (∀ e, R e -> R (py_malloc n e).2) -> env_keeps (PyMem_alloc n).
Proof.
  intros Hm h Hh. unfold PyMem_alloc. specialize (Hm _ Hh). by destruct (py_malloc n (env h)).
Qed.

(** Both facts at once. *)
Lemma wp_with_env {A} nf (m : PM V E A) (Q : A -> heap V E -> Prop) X h :
  env_keeps m -> R (env h) ->
  wpo nf m (λ a h', R (env h') -> Q a h') (λ x h', R (env h') -> X x h') h -> wpo nf m Q X h.
Proof. intros Hm Hh. specialize (Hm h Hh). unfold wpo. destruct (m h); auto. Qed.

Hypothesis Hmalloc : ∀ n e, R e -> R (py_malloc n e).2.
Ltac env_auto :=
  repeat match goal with
  | |- env_keeps (_ ≫= _) => apply env_bind; [|intros ?]
  | |- env_keeps (mtry _) => apply env_try
  | |- env_keeps (match ?x with _ => _ end) => destruct x
  | |- _ => progress cbv zeta
  | |- _ => solve [auto using env_ret, env_throw, env_raise, env_assert, env_lift, env_get_self,
              env_put_self, env_INCREF, env_DECREF, env_alloc]
  end.
Lemma env_list_resize n : env_keeps (list_resize n).
Proof. unfold list_resize, Py_SET_SIZE. env_auto. Qed.
Lemma env_make_room m n : env_keeps (make_room m n).
Proof. unfold make_room, Py_SET_SIZE. apply env_bind; [apply env_list_resize|]. intros _. env_auto. Qed.
Lemma env_preallocate n : env_keeps (list_preallocate_exact n).
Proof. unfold list_preallocate_exact, PyMem_New. env_auto. Qed.
Lemma env_cut_back : env_keeps cut_back.
Proof. unfold cut_back. env_auto. apply env_list_resize. Qed.
Lemma env_extend_item v : env_keeps (extend_item v).
Proof.
  unfold extend_item, app1, item_set, Py_SET_SIZE, get_size. env_auto. apply env_list_resize.
Qed.
End env_keeps.

Section quiet_iterator.
Context {V E : Type} {api : PyApi V E} `{EqDecision V}.
Variables (it : iterable V E) (Y : list V -> E -> Prop).
Hypothesis Hit : yields it Y.
Implicit Types (its vs : list V) (l : listobj V) (lg : list (event V)) (e : E).

Lemma balanced_item its v lg lg' l :
  lg' = Incref v :: lg ∨ lg' = Decref v l :: Incref v :: Incref v :: lg ->
  balanced its lg (its ++ [v]) lg'.
Proof. intros [-> | ->]; balance. Qed.
Lemma balanced_trans its lg its1 lg1 its2 lg2 :
  balanced its lg its1 lg1 -> balanced its1 lg1 its2 lg2 -> balanced its lg its2 lg2.
Proof. intros H1 H2 v. specialize (H1 v). specialize (H2 v). lia. Qed.

(** How far extending by [vs] got when it failed. *)
Definition partly its vs lg (x : pyexn) (h : heap V E) : Prop :=
  x = PyErr MemoryError no_msg ∧ ∃ vs1 vs2, vs = vs1 ++ vs2 ∧ view (self h) (its ++ vs1) ∧
    balanced its lg (its ++ vs1) (log h).

Lemma wp_quiet_loop vs : ∀ fuel l its lg e lg0 its0,
  (length vs < fuel)%nat -> view l its -> Y vs e -> balanced its0 lg0 its lg ->
  wp (extend_loop fuel it)
    (λ _ h', view (self h') (its ++ vs) ∧ balanced its0 lg0 (its ++ vs) (log h'))
    (λ x h', x = PyErr MemoryError no_msg ∧ ∃ vs1 vs2, vs = vs1 ++ vs2 ∧
       view (self h') (its ++ vs1) ∧ balanced its0 lg0 (its ++ vs1) (log h')) (Heap l lg e).
Proof.
  induction vs as [|v vs IH]; intros [|fuel] l its lg e lg0 its0 Hf Hv HY Hb; try (simpl in Hf; lia);
    cbn [extend_loop]; wp_step; unfold wpo at 1, iternext.
  { destruct (y_stop _ _ Hit l lg e HY) as [e' ->]. apply wp_ret. by rewrite app_nil_r. }
  destruct (y_next _ _ Hit v vs l lg e HY) as (e' & -> & HY'). unfold add_event. cbn [self log env].
  cbv beta iota. wp_step. apply (wp_with_env (Y vs)).
  { apply env_extend_item. intros n e1. apply (y_malloc _ _ Hit). }
  { exact HY'. }
  apply (wp_extend_item l its); [done|..].
  - intros l' lg' e2 Hv' Hlg' HY2.
    assert (balanced its0 lg0 (its ++ [v]) lg') as Hb'.
    { eapply balanced_trans; [exact Hb|by apply (balanced_item _ _ _ _ l')]. }
    eapply wp_conseq; [by apply (IH fuel l' (its ++ [v]) lg' e2 lg0 its0); [simpl in Hf; lia|..]|..].
    + intros ? h'. rewrite <- app_assoc. done.
    + intros x h' (-> & vs1 & vs2 & -> & H1 & H2). rewrite <- app_assoc in H1, H2.
      split; [done|]. by exists (v :: vs1), vs2.
  - intros e2 _. split; [done|]. exists [], (v :: vs). rewrite app_nil_r. split; [done|].
    split; [done|]. eapply balanced_trans; [exact Hb|]. balance.
Qed.

Lemma wp_quiet_extend vs fuel l its lg e :
  (length vs < fuel)%nat -> view l its -> Y vs e ->
  wp (list_extend_iter fuel it)
    (λ _ h', view (self h') (its ++ vs) ∧ balanced its lg (its ++ vs) (log h'))
    (partly its vs lg) (Heap l lg e).
Proof.
  intros Hf Hv HY. unfold list_extend_iter. wp_step. unfold wpo at 1, PyObject_GetIter.
  destruct (y_get _ _ Hit vs l lg e HY) as (e1 & -> & HY1). wp_step.
  unfold wpo at 1, PyObject_LengthHint.
  destruct (y_hint _ _ Hit vs l lg e1 HY1) as (n & e2 & -> & Hn & HY2). wp_step.
  apply wp_get_size. cbn [self]. rewrite (view_size _ _ Hv). wp_step.
  assert (∀ l' e', view l' its -> Y vs e' ->
    wp (_ ← extend_loop fuel it; cut_back)
      (λ _ h', view (self h') (its ++ vs) ∧ balanced its lg (its ++ vs) (log h'))
      (partly its vs lg) (Heap l' lg e')) as Hrun.
  { intros l' e' Hv' HY'. wp_step. eapply wp_conseq; [apply (wp_quiet_loop vs fuel l' its lg e' lg its); [done|done|done|by intros ?; lia]|..].
    - intros ? [l2 lg2 e3] [Hv2 Hb2]. cbn [self log] in *. apply (wp_cut_back l2 (its ++ vs)); [done|..].
      + by intros l3 e4 Hv3.
      + intros e4. split; [done|]. exists vs, []. by rewrite app_nil_r.
    - intros x h' H. exact H. }
  assert (∀ e', partly its vs lg (PyErr MemoryError no_msg) (Heap l lg e')) as Hfail.
  { intros e'. split; [done|]. exists [], vs. rewrite app_nil_r. split_and?; [done|done|intros ?; cbn [log]; lia]. }
  apply (wp_with_env (Y vs)); [|exact HY2|].
  { case_match; [apply env_ret|]. apply env_bind; [apply env_get_self|]. intros l0. case_match.
    - apply env_make_room. intros n0 e0. apply (y_malloc _ _ Hit).
    - case_match; [apply env_ret|]. apply env_preallocate. intros n0 e0. apply (y_malloc _ _ Hit). }
  case_match; [apply wp_ret; auto|]. wp_step. apply wp_get_self. cbn [self].
  destruct Hv as [|its slack Hmx]; cbn [null_list lobj ob_item].
  - destruct (n =? 0) eqn:E1; bool_to_prop.
    + apply wp_ret. intros HY'. apply Hrun; [constructor|done].
    + apply wp_preallocate_exact; [unfold HINT_MAX, SIZE_T_MOD in *; lia| |intros e' _; apply Hfail].
      intros slack e' Hs Hm HY'. apply Hrun; [constructor; zlia|done].
  - apply wp_make_room; [by constructor|done|by auto|intros e' _; apply Hfail].
Qed.
End quiet_iterator.
