(* ===== verification/ListQuery.v ===== *)
(** * Searching and comparing: [list_contains] to [list_richcompare]

    The loops that run a Python comparison per item and look at the size of
    the list again each time, because the comparison may have changed it. *)

From stdpp Require Import base list numbers strings.
From S2P Require Import Prelude Slices PyHeap ListCore ListView ListSpec ListAssign ListExtend.

Section query.
Context {V E : Type} {api : PyApi V E} `{EqDecision V}.

(** [obj = self->ob_item[i]; Py_INCREF(obj);
    cmp = PyObject_RichCompareBool(obj, value, Py_EQ); Py_DECREF(obj);] *)
Definition item_eq (i : Z) (value : V) : PM V E bool :=
  obj ← item_get i;
  _ ← Py_INCREF obj;
  cmp ← mtry (PyObject_RichCompareBool obj value Py_EQ);
  _ ← Py_DECREF obj;
  match cmp with inl e => mthrow e | inr b => mret b end.

Fixpoint contains_loop (fuel : nat) (i : Z) (el : V) : PM V E bool :=
  match fuel with
  | O => mnofuel
  | S fuel =>
      size ← get_size;
      if i <? size then
        cmp ← item_eq i el;
        if cmp : bool then mret true else contains_loop fuel (i + 1) el
      else mret false
  end.
Definition list_contains (fuel : nat) (el : V) : PM V E bool := contains_loop fuel 0 el.

(** [PyErr_Format(PyExc_ValueError, "%R is not in list", value)]: when the
    repr raises, its exception is the one that stays. *)
Definition not_in_list {A} (value : V) : PM V E A := λ h,
  match py_repr value h with
  | (inr s, h) => Exn (PyErr ValueError (s +:+ " is not in list")) h
  | (inl e, h) => Exn e h
  end.
Fixpoint index_loop (fuel : nat) (value : V) (i stop : Z) : PM V E Z :=
  match fuel with
  | O => mnofuel
  | S fuel =>
      size ← get_size;
      if (i <? stop) && (i <? size) then
        cmp ← item_eq i value;
        if cmp : bool then mret i else index_loop fuel value (i + 1) stop
      else not_in_list value
  end.
(** A bound counted from the end when negative. *)
Definition index_bound (i size : Z) : Z :=
  if i <? 0 then (if i + size <? 0 then 0 else i + size) else i.
Definition list_index_impl (fuel : nat) (value : V) (start stop : Z) : PM V E Z :=
  size ← get_size;
  index_loop fuel value (index_bound start size) (index_bound stop size).

Fixpoint count_loop (fuel : nat) (value : V) (i count : Z) : PM V E Z :=
  match fuel with
  | O => mnofuel
  | S fuel =>
      size ← get_size;
      if i <? size then
        obj ← item_get i;
        if bool_decide (obj = value) then count_loop fuel value (i + 1) (count + 1)
        else
          cmp ← item_eq i value;
          count_loop fuel value (i + 1) (if cmp : bool then count + 1 else count)
      else mret count
  end.
Definition list_count (fuel : nat) (value : V) : PM V E Z := count_loop fuel value 0 0.

Fixpoint remove_loop (fuel : nat) (value : V) (i : Z) : PM V E unit :=
  match fuel with
  | O => mnofuel
  | S fuel =>
      size ← get_size;
      if i <? size then
        cmp ← item_eq i value;
        if cmp : bool then list_ass_slice i (i + 1) None else remove_loop fuel value (i + 1)
      else mraise ValueError "list.remove(x): x not in list"
  end.
Definition list_remove (fuel : nat) (value : V) : PM V E unit := remove_loop fuel value 0.

(** ** [list_richcompare]

    The other list is read from the state by [wl]; it is [None] when [w] is not
    a list. [PyObject_RichCompare] returns an object. *)
Inductive compare_result := RNotImplemented | RBool (b : bool) | RObject (o : V).
Definition size_compare (a b : Z) (op : cmp_op) : bool :=
  match op with
  | Py_LT => a <? b | Py_LE => a <=? b | Py_EQ => a =? b
  | Py_NE => negb (a =? b) | Py_GT => b <? a | Py_GE => b <=? a
  end.
Section richcompare.
Variable PyObject_RichCompare : V -> V -> cmp_op -> PM V E V.
Variable wl : heap V E -> listobj V.

Definition get_other : PM V E (listobj V) := λ h, Ret (wl h) h.
Definition other_get (i : Z) : PM V E V :=
  l ← get_other; mlift (ob_item l ≫= λ a, aget a i).
(** The first index at which the items differ, or at which a list ends. *)
Fixpoint differ_loop (fuel : nat) (i : Z) : PM V E Z :=
  match fuel with
  | O => mnofuel
  | S fuel =>
      size ← get_size;
      wlist ← get_other;
      if (i <? size) && (i <? ob_size wlist) then
        vitem ← item_get i;
        witem ← other_get i;
        if bool_decide (vitem = witem) then differ_loop fuel (i + 1)
        else
          _ ← Py_INCREF vitem;
          _ ← Py_INCREF witem;
          k ← mtry (PyObject_RichCompareBool vitem witem Py_EQ);
          _ ← Py_DECREF vitem;
          _ ← Py_DECREF witem;
          match k with
          | inl e => mthrow e
          | inr false => mret i
          | inr true => differ_loop fuel (i + 1)
          end
      else mret i
  end.
Definition list_richcompare (fuel : nat) (w_is_list : bool) (op : cmp_op)
    : PM V E compare_result :=
  if negb w_is_list then mret RNotImplemented
  else
    vsize ← get_size;
    wlist ← get_other;
    if negb (vsize =? ob_size wlist) && bool_decide (op = Py_EQ ∨ op = Py_NE) then
      mret (RBool (bool_decide (op = Py_NE)))
    else
      i ← differ_loop fuel 0;
      vsize ← get_size;
      wlist ← get_other;
      if (vsize <=? i) || (ob_size wlist <=? i) then
        mret (RBool (size_compare vsize (ob_size wlist) op))
      else
        match op with
        | Py_EQ => mret (RBool false)
        | Py_NE => mret (RBool true)
        | _ =>
            vitem ← item_get i;
            witem ← other_get i;
            o ← PyObject_RichCompare vitem witem op;
            mret (RObject o)
        end.
End richcompare.

(** ** Reversing and visiting *)
Definition list_reverse_impl : PM V E unit :=
  l ← get_self;
  if 1 <? ob_size l then
    a ← mlift (ob_item l ≫= λ a, reverse_slice a 0 (ob_size l));
    put_self (ListObj (Some a) (ob_size l) (allocated l))
  else mret tt.

(** [Py_VISIT] from the last item down, until [visit] returns non-zero. *)
Fixpoint traverse_down {S : Type} (visit : V -> S -> Z * S) (n : nat) (a : list V) (s : S)
    : option (Z * S) :=
  match n with
  | O => Some (0, s)
  | S n =>
      v ← aget a (Z.of_nat n);
      let '(r, s) := visit v s in
      if r =? 0 then traverse_down visit n a s else Some (r, s)
  end.
Definition list_traverse {S : Type} (visit : V -> S -> Z * S) (l : listobj V) (s : S)
    : option (Z * S) :=
  traverse_down visit (Z.to_nat (ob_size l)) (default [] (ob_item l)) s.

Definition list___sizeof__ (basicsize : Z) : PM V E Z :=
  l ← get_self; mret (basicsize + allocated l * SIZEOF_PTR).
End query.
