(* ===== verification/ListQuerySpec.v ===== *)
(** * What searching, removing, comparing and reversing do *)

From stdpp Require Import base list numbers strings.
From S2P Require Import Prelude Slices PyHeap ListCore ListView ListSpec ListAssign ListExtend ListQuery.

(** Comparing, and the repr of an error message, run Python code that keeps
    the list good. *)
Definition rich_keeps {V E} `{PyApi V E} (T : V -> Prop) : Prop :=
  (∀ op v w h, good T (self h) -> good T (self (py_rich op v w h).2)) ∧
  (∀ v h, good T (self h) -> good T (self (py_repr v h).2)).
(** [==] answers [eqb] and leaves the list and the counts alone. *)
Definition rich_eq {V E} `{PyApi V E} (eqb : V -> V -> bool) : Prop :=
  ∀ v w (h : heap V E), ∃ e', py_rich Py_EQ v w h = (Some (eqb v w), Heap (self h) (log h) e').
(** The same references are held. *)
Definition same_refs {V} `{EqDecision V} (lg lg' : list (event V)) : Prop :=
  ∀ v, refs_taken v lg' = refs_taken v lg.

(** An item of a list in shape. *)
Lemma view_item {V} (l : listobj V) its i :
  view l its -> 0 <= i < ob_size l -> ∃ a v b, its = a ++ v :: b ∧ i = Zlen a.
Proof.
  intros Hv Hi. rewrite (view_size _ _ Hv) in Hi.
  destruct (Zlen_split i its) as (a & b & -> & <-); [lia|].
  destruct b as [|v b]; [zlia|]. eauto.
Qed.
Lemma wp_item_at {V E} {api : PyApi V E} {nf} l (a : list V) v b lg (e : E) i
    (Q : V -> heap V E -> Prop) X :
  view l (a ++ v :: b) -> i = Zlen a -> Q v (Heap l lg e) -> wpo nf (item_get i) Q X (Heap l lg e).
Proof.
  intros Hv Hi HQ. destruct (view_pos _ _ Hv) as (slack & -> & _); [zlia|].
  unfold lobj in *. rewrite <- app_assoc, <- app_comm_cons in *. by apply wp_item_get.
Qed.

Section keep_good.
Context {V E : Type} {api : PyApi V E} `{EqDecision V}.
Variable T : V -> Prop.
Hypothesis Hrich : @rich_keeps V E api T.
Abbreviation keeps_it := (stays_good T).

Lemma wp_rich_good v w op h (Q : bool -> heap V E -> Prop) X :
  good T (self h) -> (∀ b h', good T (self h') -> Q b h') -> (∀ e h', good T (self h') -> X e h') ->
  wpo True (PyObject_RichCompareBool v w op) Q X h.
Proof.
  intros Hh HQ HX. pose proof (proj1 Hrich op v w h Hh). unfold wpo, PyObject_RichCompareBool.
  destruct (py_rich op v w h) as [[] h']; auto.
Qed.
Lemma wp_item_eq_good i value h (Q : bool -> heap V E -> Prop) X :
  good T (self h) -> 0 <= i < ob_size (self h) ->
  (∀ b h', good T (self h') -> Q b h') -> (∀ e h', good T (self h') -> X e h') ->
  wpo True (item_eq i value) Q X h.
Proof.
  intros Hh Hi HQ HX. destruct h as [l lg e]. cbn [self] in *.
  pose proof Hh as (its & Hv & HT)%good_view.
  destruct (view_item _ _ _ Hv Hi) as (a & v & b & -> & Ha). unfold item_eq. wp_step.
  apply (wp_item_at _ a v b); [done|done|]. wp_step. apply wp_INCREF. wp_step. apply wp_try.
  apply wp_rich_good; [done|..].
  - intros r h' Hh'. wp_step. apply wp_DECREF, wp_ret, HQ. done.
  - intros x h' Hh'. wp_step. apply wp_DECREF, wp_throw, HX. done.
Qed.

Lemma stays_contains_loop fuel i el : 0 <= i -> keeps_it (contains_loop fuel i el).
Proof.
  revert i. induction fuel as [|fuel IH]; intros i Hi h Hh; [done|]. cbn [contains_loop].
  wp_step. apply wp_get_size. case_match eqn:E1; bool_to_prop; [|by apply wp_ret].
  wp_step. apply wp_item_eq_good; [done|lia| |done]. intros [] h' Hh'; [by apply wp_ret|].
  apply IH; [lia|done].
Qed.
Lemma stays_not_in_list {A} value : keeps_it (not_in_list value : PM V E A).
Proof.
  intros h Hh. pose proof (proj2 Hrich value h Hh) as Hr. unfold wpo, not_in_list.
  by destruct (py_repr value h) as [[] h'].
Qed.
Lemma stays_index_loop fuel value i stop : 0 <= i -> keeps_it (index_loop fuel value i stop).
Proof.
  revert i. induction fuel as [|fuel IH]; intros i Hi h Hh; [done|]. cbn [index_loop].
  wp_step. apply wp_get_size. case_match eqn:E1; bool_to_prop; [|by apply stays_not_in_list].
  wp_step. apply wp_item_eq_good; [done|lia| |done]. intros [] h' Hh'; [by apply wp_ret|].
  apply IH; [lia|done].
Qed.
Lemma stays_count_loop fuel value i n : 0 <= i -> keeps_it (count_loop fuel value i n).
Proof.
  revert i n. induction fuel as [|fuel IH]; intros i n Hi h Hh; [done|]. cbn [count_loop].
  wp_step. apply wp_get_size. case_match eqn:E1; bool_to_prop; [|by apply wp_ret].
  destruct h as [l lg e]. cbn [self] in *. pose proof Hh as (its & Hv & HT)%good_view.
  destruct (view_item _ _ i Hv) as (a & v & b & -> & Ha); [lia|]. wp_step.
  apply (wp_item_at _ a v b); [done|done|]. case_bool_decide; [apply IH; [lia|done]|]. wp_step.
  apply wp_item_eq_good; [done|cbn [self]; lia| |done]. intros r h' Hh'. apply IH; [lia|done].
Qed.
(** Removing items keeps the list good. *)
Lemma stays_del_slice ilow ihigh : keeps_it (list_ass_slice ilow ihigh None).
Proof.
  intros [l lg e] (its & Hv & HT)%good_view. apply (wp_del_slice l its); [done|..].
  - intros l' e' Hv'. apply good_view. eexists. split; [done|]. unfold assigned.
    destruct (clip _ _ _). apply Forall_app. split; [by apply Forall_take|].
    simpl. by apply Forall_drop.
  - intros e'. apply good_view. eauto.
Qed.
Lemma stays_remove_loop fuel value i : 0 <= i -> keeps_it (remove_loop fuel value i).
Proof.
  revert i. induction fuel as [|fuel IH]; intros i Hi h Hh; [done|]. cbn [remove_loop].
  wp_step. apply wp_get_size. case_match eqn:E1; bool_to_prop; [|by apply wp_raise].
  wp_step. apply wp_item_eq_good; [done|lia| |done]. intros [] h' Hh'; [by apply stays_del_slice|].
  apply IH; [lia|done].
Qed.
End keep_good.

Section exact.
Context {V E : Type} {api : PyApi V E} `{EqDecision V} {nf : Prop}.
Variable eqb : V -> V -> bool.
Hypothesis Hrich : @rich_eq V E api eqb.
Implicit Types (a b its : list V) (l : listobj V) (lg : list (event V)) (e : E).

Lemma same_refs_trans lg1 lg2 lg3 : same_refs lg1 lg2 -> same_refs lg2 lg3 -> same_refs lg1 lg3.
Proof. intros H1 H2 v. by rewrite H2. Qed.
Lemma same_refs_probe v l lg : same_refs lg (Decref v l :: Incref v :: lg).
Proof. intros w. simpl. lia. Qed.

Lemma wp_rich_exact v w h (Q : bool -> heap V E -> Prop) X :
  (∀ e', Q (eqb v w) (Heap (self h) (log h) e')) ->
  wpo nf (PyObject_RichCompareBool v w Py_EQ) Q X h.
Proof. intros HQ. unfold wpo, PyObject_RichCompareBool. by destruct (Hrich v w h) as [e' ->]. Qed.
Lemma wp_item_eq l a v b lg e i value (Q : bool -> heap V E -> Prop) X :
  view l (a ++ v :: b) -> i = Zlen a ->
  (∀ e', Q (eqb v value) (Heap l (Decref v l :: Incref v :: lg) e')) ->
  wpo nf (item_eq i value) Q X (Heap l lg e).
Proof.
  intros Hv Hi HQ. unfold item_eq. wp_step. apply (wp_item_at _ a v b); [done|done|].
  wp_step. apply wp_INCREF. wp_step. apply wp_try, wp_rich_exact. intros e'.
  wp_step. apply wp_DECREF, wp_ret, HQ.
Qed.

(** The loops, from the position after [a]; [nothing a] says that nothing
    before it was equal to the value. *)
Lemma wp_contains b : ∀ a fuel l lg e el (Q : bool -> heap V E -> Prop) X,
  view l (a ++ b) -> (length b < fuel)%nat ->
  (∀ lg' e', same_refs lg lg' -> Q (existsb (λ v, eqb v el) b) (Heap l lg' e')) ->
  wpo nf (contains_loop fuel (Zlen a) el) Q X (Heap l lg e).
Proof.
  induction b as [|v b IH]; intros a [|fuel] l lg e el Q X Hv Hf HQ; try (simpl in Hf; lia);
    cbn [contains_loop]; wp_step; apply wp_get_size; cbn [self]; rewrite (view_size _ _ Hv).
  { replace (_ <? _) with false by (symmetry; apply Z.ltb_ge; zlia). apply wp_ret. by apply HQ. }
  replace (_ <? _) with true by (symmetry; apply Z.ltb_lt; zlia).
  wp_step. apply (wp_item_eq l a v b); [done|done|]. intros e'. cbn [existsb] in HQ.
  destruct (eqb v el); [apply wp_ret, HQ, same_refs_probe|].
  replace (Zlen a + 1) with (Zlen (a ++ [v])) by zlia.
  apply IH; [by rewrite <- app_assoc|simpl in Hf; lia|].
  intros lg' e2 Hl. apply HQ. eapply same_refs_trans; [apply same_refs_probe|exact Hl].
Qed.
(** The error of a value that is not there, raised from [h]: a ValueError with
    the repr of the value, or what the repr raised, in the state it left. *)
Definition says_not_in_list (value : V) (h : heap V E) (x : pyexn) (h' : heap V E) : Prop :=
  x = match (py_repr value h).1 with
      | inr s => PyErr ValueError (s +:+ " is not in list")
      | inl e => e
      end ∧ h' = (py_repr value h).2.
Lemma wp_not_in_list {A} value h (Q : A -> heap V E -> Prop) (X : pyexn -> heap V E -> Prop) :
  (∀ x h', says_not_in_list value h x h' -> X x h') -> wpo nf (not_in_list value) Q X h.
Proof.
  intros HX. unfold wpo, not_in_list, says_not_in_list in *.
  destruct (py_repr value h) as [[] h']; by apply HX.
Qed.
Lemma wp_index b : ∀ a fuel l lg e value stop (Q : Z -> heap V E -> Prop) X,
  view l (a ++ b) -> (length b < fuel)%nat ->
  (∀ b1 v b2 lg' e', b = b1 ++ v :: b2 -> Zlen (a ++ b1) < stop -> eqb v value = true ->
     Forall (λ w, eqb w value = false) b1 -> same_refs lg lg' ->
     Q (Zlen (a ++ b1)) (Heap l lg' e')) ->
  (∀ lg' e' x h', Forall (λ w, eqb w value = false) (take (Z.to_nat (stop - Zlen a)) b) ->
     same_refs lg lg' -> says_not_in_list value (Heap l lg' e') x h' -> X x h') ->
  wpo nf (index_loop fuel value (Zlen a) stop) Q X (Heap l lg e).
Proof.
  induction b as [|v b IH]; intros a [|fuel] l lg e value stop Q X Hv Hf HQ HX;
    try (simpl in Hf; lia);
    cbn [index_loop]; wp_step; apply wp_get_size; cbn [self]; rewrite (view_size _ _ Hv).
  { replace (Zlen a <? Zlen (a ++ [])) with false by (symmetry; apply Z.ltb_ge; zlia).
    rewrite andb_false_r. apply wp_not_in_list. intros x h' Hx. eapply HX; [by rewrite take_nil|done|exact Hx]. }
  replace (Zlen a <? Zlen (a ++ v :: b)) with true by (symmetry; apply Z.ltb_lt; zlia).
  rewrite andb_true_r. destruct (Zlen a <? stop) eqn:E1; bool_to_prop.
  2:{ apply wp_not_in_list. intros x h' Hx. eapply HX; [|done|exact Hx].
      by replace (Z.to_nat (stop - Zlen a)) with 0%nat by lia. }
  wp_step. apply (wp_item_eq l a v b); [done|done|]. intros e'. destruct (eqb v value) eqn:Ev.
  { apply wp_ret. specialize (HQ [] v b). rewrite app_nil_r in HQ.
    apply HQ; [done|done|done|done|apply same_refs_probe]. }
  replace (Zlen a + 1) with (Zlen (a ++ [v])) by zlia.
  apply IH; [by rewrite <- app_assoc|simpl in Hf; lia|..].
  - intros b1 w b2 lg' e2 -> Hs Hw Hb1 Hl. rewrite <- app_assoc in *.
    apply (HQ (v :: b1) w b2); [done|done|done|by constructor|].
    eapply same_refs_trans; [apply same_refs_probe|exact Hl].
  - intros lg' e2 x h' Hall Hl. apply HX.
    + replace (Z.to_nat (stop - Zlen a)) with (S (Z.to_nat (stop - Zlen (a ++ [v])))) by zlia.
      cbn [take]. by constructor.
    + eapply same_refs_trans; [apply same_refs_probe|exact Hl].
Qed.
Lemma wp_count b : ∀ a fuel l lg e value n (Q : Z -> heap V E -> Prop) X,
  view l (a ++ b) -> (length b < fuel)%nat ->
  (∀ lg' e', same_refs lg lg' ->
     Q (n + Zlen (filter (λ v, v = value ∨ eqb v value = true) b)) (Heap l lg' e')) ->
  wpo nf (count_loop fuel value (Zlen a) n) Q X (Heap l lg e).
Proof.
  induction b as [|v b IH]; intros a [|fuel] l lg e value n Q X Hv Hf HQ; try (simpl in Hf; lia);
    cbn [count_loop]; wp_step; apply wp_get_size; cbn [self]; rewrite (view_size _ _ Hv).
  { replace (_ <? _) with false by (symmetry; apply Z.ltb_ge; zlia). apply wp_ret.
    rewrite filter_nil, Zlen_nil, Z.add_0_r in HQ. by apply HQ. }
  replace (_ <? _) with true by (symmetry; apply Z.ltb_lt; zlia).
  wp_step. apply (wp_item_at l a v b); [done|done|].
  replace (Zlen a + 1) with (Zlen (a ++ [v])) by zlia. rewrite filter_cons in HQ.
  case_bool_decide as Hvv.
  - apply IH; [by rewrite <- app_assoc|simpl in Hf; lia|]. intros lg' e' Hl.
    rewrite decide_True in HQ by (by left). specialize (HQ lg' e' Hl).
    rewrite Zlen_cons in HQ. by replace (n + 1 + _) with (n + (1 + Zlen (filter (λ v, v = value ∨ eqb v value = true) b))) by lia.
  - wp_step. apply (wp_item_eq l a v b); [done|done|]. intros e'.
    apply IH; [by rewrite <- app_assoc|simpl in Hf; lia|]. intros lg' e2 Hl.
    specialize (HQ lg' e2 (same_refs_trans _ _ _ (same_refs_probe _ _ _) Hl)).
    destruct (eqb v value) eqn:Ev.
    + rewrite decide_True in HQ by (by right). rewrite Zlen_cons in HQ.
      by replace (n + 1 + _) with (n + (1 + Zlen (filter (λ v, v = value ∨ eqb v value = true) b))) by lia.
    + rewrite decide_False in HQ; [done|]. intros [|]; [done|congruence].
Qed.
Lemma wp_remove b : ∀ a fuel l lg e value (Q : unit -> heap V E -> Prop) X,
  view l (a ++ b) -> (length b < fuel)%nat ->
  (∀ b1 v b2 l' lg' e', b = b1 ++ v :: b2 -> eqb v value = true ->
     Forall (λ w, eqb w value = false) b1 -> view l' (a ++ b1 ++ b2) -> same_refs lg lg' ->
     Q tt (Heap l' (Decref v l' :: lg') e')) ->
  (∀ lg' e', Forall (λ w, eqb w value = false) b -> same_refs lg lg' ->
     X (PyErr ValueError "list.remove(x): x not in list") (Heap l lg' e')) ->
  (∀ lg' e', same_refs lg lg' -> X (PyErr MemoryError no_msg) (Heap l lg' e')) ->
  wpo nf (remove_loop fuel value (Zlen a)) Q X (Heap l lg e).
Proof.
  induction b as [|v b IH]; intros a [|fuel] l lg e value Q X Hv Hf HQ HX HXm;
    try (simpl in Hf; lia);
    cbn [remove_loop]; wp_step; apply wp_get_size; cbn [self]; rewrite (view_size _ _ Hv).
  { replace (_ <? _) with false by (symmetry; apply Z.ltb_ge; zlia). by apply wp_raise, HX. }
  replace (_ <? _) with true by (symmetry; apply Z.ltb_lt; zlia).
  wp_step. apply (wp_item_eq l a v b); [done|done|]. intros e'. destruct (eqb v value) eqn:Ev.
  - apply (wp_del_item l a v b); [done|done|..].
    + intros l' e2 Hv'. specialize (HQ [] v b). cbn [app] in HQ.
      apply HQ; [done|done|done|done|apply same_refs_probe].
    + intros e2. apply HXm, same_refs_probe.
  - replace (Zlen a + 1) with (Zlen (a ++ [v])) by zlia.
    apply IH; [by rewrite <- app_assoc|simpl in Hf; lia|..].
    + intros b1 w b2 l' lg' e2 -> Hw Hb1 Hv' Hl. rewrite <- app_assoc in Hv'.
      apply (HQ (v :: b1) w b2); [done|done|by constructor|done|].
      eapply same_refs_trans; [apply same_refs_probe|exact Hl].
    + intros lg' e2 Hall Hl. apply HX; [by constructor|].
      eapply same_refs_trans; [apply same_refs_probe|exact Hl].
    + intros lg' e2 Hl. apply HXm. eapply same_refs_trans; [apply same_refs_probe|exact Hl].
Qed.
End exact.

(** ** Comparing two lists *)
Section compare.
Context {V E : Type} {api : PyApi V E} `{EqDecision V} {nf : Prop}.
Variable eqb : V -> V -> bool.
Hypothesis Hrich : @rich_eq V E api eqb.
Implicit Types (a b its wits : list V) (l : listobj V) (lg : list (event V)) (e : E).

(** Items count as equal when identical or [==]. *)
Definition item_same (v w : V) : bool := bool_decide (v = w) || eqb v w.
(** How many leading items are the same. *)
Fixpoint first_diff a b : nat :=
  match a, b with
  | v :: a, w :: b => if item_same v w then S (first_diff a b) else O
  | _, _ => O
  end.
Fixpoint same_items a b : bool :=
  match a, b with
  | [], [] => true
  | v :: a, w :: b => item_same v w && same_items a b
  | _, _ => false
  end.
Lemma same_items_diff a b :
  same_items a b = (Zlen a =? Zlen b) && bool_decide (first_diff a b = length a).
Proof.
  revert b. induction a as [|v a IH]; intros [|w b]; cbn [same_items first_diff]; [done|..].
  - replace (_ =? _) with false; [done|]. symmetry. apply Z.eqb_neq. zlia.
  - replace (_ =? _) with false; [done|]. symmetry. apply Z.eqb_neq. zlia.
  - rewrite !Zlen_cons. destruct (item_same v w); simpl.
    + rewrite IH. f_equal; [lia|]. apply bool_decide_ext. simpl. lia.
    + by rewrite andb_false_r.
Qed.
Lemma first_diff_le a b : (first_diff a b <= length a)%nat ∧ (first_diff a b <= length b)%nat.
Proof.
  revert b. induction a as [|v a IH]; intros [|w b]; simpl; try lia.
  destruct (item_same v w); [|lia]. specialize (IH b). lia.
Qed.

Variables (PyObject_RichCompare : V -> V -> cmp_op -> PM V E V) (wl : heap V E -> listobj V).
Variables (l wlist : listobj V) (its wits : list V).
Hypothesis Hv : view l its.
Hypothesis Hw : view wlist wits.
Hypothesis Hwl : ∀ lg e, wl (Heap l lg e) = wlist.

Lemma wp_other_get a w b lg e i (Q : V -> heap V E -> Prop) X :
  wits = a ++ w :: b -> i = Zlen a -> Q w (Heap l lg e) ->
  wpo nf (other_get wl i) Q X (Heap l lg e).
Proof.
  intros Hwits Hi HQ. unfold other_get. wp_step. unfold get_other, wpo at 1. rewrite Hwl.
  destruct (view_pos _ _ Hw) as (slack & -> & _); [rewrite Hwits; zlia|].
  eapply wp_lift; [|exact HQ]. simpl. rewrite Hwits, <- app_assoc, <- app_comm_cons. by apply aget_app.
Qed.
Lemma wp_differ_loop a : ∀ b pa pb fuel lg e (Q : Z -> heap V E -> Prop) X,
  its = pa ++ a -> wits = pb ++ b -> Zlen pa = Zlen pb -> (length a < fuel)%nat ->
  (∀ lg' e', same_refs lg lg' -> Q (Zlen pa + Z.of_nat (first_diff a b)) (Heap l lg' e')) ->
  wpo nf (differ_loop wl fuel (Zlen pa)) Q X (Heap l lg e).
Proof.
  induction a as [|v a IH]; intros b pa pb [|fuel] lg e Q X Ha Hb Hpq Hf HQ; try (simpl in Hf; lia);
    cbn [differ_loop]; wp_step; apply wp_get_size; cbn [self]; rewrite (view_size _ _ Hv);
    wp_step; unfold get_other, wpo at 1; rewrite Hwl, (view_size _ _ Hw).
  { replace (_ && _) with false by (symmetry; apply andb_false_iff; left; apply Z.ltb_ge; rewrite Ha; zlia).
    apply wp_ret. specialize (HQ lg e). cbn [first_diff] in HQ. rewrite Z.add_0_r in HQ. by apply HQ. }
  replace (Zlen pa <? Zlen its) with true by (symmetry; apply Z.ltb_lt; rewrite Ha; zlia).
  destruct b as [|w b].
  { replace (_ && _) with false by (symmetry; apply andb_false_iff; right; apply Z.ltb_ge; rewrite Hb; zlia).
    apply wp_ret. specialize (HQ lg e). cbn [first_diff] in HQ. rewrite Z.add_0_r in HQ. by apply HQ. }
  replace (_ && _) with true by (symmetry; apply andb_true_iff; split; [done|apply Z.ltb_lt; rewrite Hb; zlia]).
  wp_step. rewrite Ha in Hv. apply (wp_item_at _ pa v a); [done|done|]. wp_step.
  apply (wp_other_get pb w b); [done|done|]. rewrite <- Ha in Hv.
  assert (item_same v w = true -> ∀ lg' e', same_refs lg lg' ->
    wpo nf (differ_loop wl fuel (Zlen pa + 1)) Q X (Heap l lg' e')) as Hnext.
  { intros Hs lg' e' Hl. replace (Zlen pa + 1) with (Zlen (pa ++ [v])) by zlia.
    apply (IH b (pa ++ [v]) (pb ++ [w])); [by rewrite <- app_assoc|by rewrite <- app_assoc|zlia|simpl in Hf; lia|].
    intros lg2 e2 Hl2. specialize (HQ lg2 e2 (same_refs_trans _ _ _ Hl Hl2)). cbn [first_diff] in HQ.
    rewrite Hs in HQ. by replace (Zlen (pa ++ [v]) + _) with (Zlen pa + Z.of_nat (S (first_diff a b))) by zlia. }
  unfold item_same in Hnext, HQ. case_bool_decide as Hvw; [by apply Hnext|].
  wp_step. apply wp_INCREF. wp_step. apply wp_INCREF. wp_step. apply wp_try, (wp_rich_exact eqb Hrich).
  intros e1. cbn [self log]. wp_step. apply wp_DECREF. wp_step. apply wp_DECREF. cbn [self log env].
  assert (same_refs lg (Decref w l :: Decref v l :: Incref w :: Incref v :: lg)) as Hl
    by (intros u; simpl; lia).
  destruct (eqb v w) eqn:Ev; [by apply Hnext|]. apply wp_ret.
  specialize (HQ _ e1 Hl). cbn [first_diff] in HQ. unfold item_same in HQ.
  rewrite bool_decide_false, Ev, Z.add_0_r in HQ by done. exact HQ.
Qed.

(** What [list_richcompare] answers: a comparison of the sizes when one list
    is a prefix of the other, otherwise the first items that differ decide. *)
Lemma wp_list_richcompare fuel op lg e (Q : compare_result -> heap V E -> Prop) X :
  let n := first_diff its wits in
  (length its < fuel)%nat ->
  (∀ lg' e', same_refs lg lg' ->
     match drop n its, drop n wits with
     | v :: _, w :: _ =>
         match op with
         | Py_EQ => Q (RBool false) (Heap l lg' e')
         | Py_NE => Q (RBool true) (Heap l lg' e')
         | _ => wpo nf (PyObject_RichCompare v w op) (λ o, Q (RObject o)) X (Heap l lg' e')
         end
     | _, _ => Q (RBool (size_compare (Zlen its) (Zlen wits) op)) (Heap l lg' e')
     end) ->
  wpo nf (list_richcompare PyObject_RichCompare wl fuel true op) Q X (Heap l lg e).
Proof.
  intros n Hf HQ. unfold list_richcompare. cbn [negb]. wp_step. apply wp_get_size. cbn [self].
  rewrite (view_size _ _ Hv). wp_step. unfold get_other at 1, wpo at 1. rewrite Hwl, (view_size _ _ Hw).
  destruct (first_diff_le its wits) as [Hn1 Hn2]. fold n in Hn1, Hn2.
  destruct (negb _ && _) eqn:E1.
  { apply andb_prop in E1 as [E1 E2]. apply negb_true_iff in E1. bool_to_prop.
    apply bool_decide_eq_true in E2. apply wp_ret. specialize (HQ lg e). 
    assert (size_compare (Zlen its) (Zlen wits) op = bool_decide (op = Py_NE)) as Hsz.
    { destruct E2 as [-> | ->]; simpl; lia. }
    rewrite Hsz in HQ. destruct (drop n its), (drop n wits); [apply HQ; done..|].
    destruct E2 as [-> | ->]; by apply HQ. }
  wp_step. apply (wp_differ_loop its wits [] [] fuel); [done|done|done|done|].
  intros lg' e' Hl. cbn [app Zlen length Z.of_nat Z.add]. fold n. specialize (HQ lg' e' Hl).
  wp_step. apply wp_get_size. cbn [self]. rewrite (view_size _ _ Hv).
  wp_step. unfold get_other at 1, wpo at 1. rewrite Hwl, (view_size _ _ Hw).
  change (Zlen (@nil V)) with 0. rewrite Z.add_0_l.
  destruct (_ || _) eqn:E2.
  { apply wp_ret. apply orb_prop in E2 as [E2|E2]; bool_to_prop.
    - rewrite (drop_ge its) in HQ by (unfold Zlen in E2; lia). by destruct (drop n wits).
    - rewrite (drop_ge wits) in HQ by (unfold Zlen in E2; lia). by destruct (drop n its). }
  apply orb_false_iff in E2 as [E2 E3]. bool_to_prop.
  destruct (drop n its) as [|v a] eqn:Ea.
  { apply (f_equal length) in Ea. rewrite length_drop in Ea. unfold Zlen in *. simpl in Ea. lia. }
  destruct (drop n wits) as [|w b] eqn:Eb.
  { apply (f_equal length) in Eb. rewrite length_drop in Eb. unfold Zlen in *. simpl in Eb. lia. }
  assert (its = take n its ++ v :: a) as Hits by (by rewrite <- Ea, take_drop).
  assert (wits = take n wits ++ w :: b) as Hwits by (by rewrite <- Eb, take_drop).
  assert (Zlen (take n its) = Z.of_nat n ∧ Zlen (take n wits) = Z.of_nat n) as [HA HB]
    by (unfold Zlen; rewrite !length_take; lia).
  assert (wpo nf (PyObject_RichCompare v w op) (λ o, Q (RObject o)) X (Heap l lg' e') ->
          wpo nf (vitem ← item_get (Z.of_nat n); witem ← other_get wl (Z.of_nat n);
                  o ← PyObject_RichCompare vitem witem op; mret (RObject o)) Q X (Heap l lg' e'))
    as Hgo.
  { intros Hc. wp_step. pose proof Hv as Hv2. rewrite Hits in Hv2.
    apply (wp_item_at _ (take n its) v a); [exact Hv2|done|]. wp_step.
    apply (wp_other_get (take n wits) w b); [done|done|]. wp_step.
    eapply wp_conseq; [exact Hc|intros o h' Ho; by apply (wp_ret (RObject o))|done]. }
  destruct op; try (by apply wp_ret); by apply Hgo.
Qed.
End compare.

Section reverse.
Context {V E : Type} {api : PyApi V E} {nf : Prop}.
Lemma wp_list_reverse l (its : list V) lg (e : E) (Q : unit -> heap V E -> Prop) X :
  view l its -> (∀ l', view l' (reverse its) -> allocated l' = allocated l -> Q tt (Heap l' lg e)) ->
  wpo nf list_reverse_impl Q X (Heap l lg e).
Proof.
  intros Hv HQ. unfold list_reverse_impl. wp_step. apply wp_get_self. cbn [self].
  rewrite (view_size _ _ Hv). destruct (1 <? Zlen its) eqn:E1; bool_to_prop.
  - destruct (view_pos _ _ Hv) as (slack & -> & Hmx); [lia|]. wp_step.
    eapply wp_lift.
    { cbn [lobj ob_item mbind option_bind]. pose proof (reverse_slice_spec [] its slack 0 (Zlen its)) as Hr.
      cbn [app] in Hr. apply Hr; zlia. }
    apply wp_put_self. cbn [log env lobj ob_size allocated].
    replace (ListObj _ _ _) with (lobj (reverse its) slack).
    + apply HQ; [constructor; zlia|]. simpl. zlia.
    + unfold lobj. f_equal; zlia.
  - apply wp_ret, HQ; [|done]. destruct its as [|v [|w its]]; [done|done|zlia].
Qed.
End reverse.
