(* ===== verification/ListSubscript.v ===== *)
(** * Subscripts: [list_subscript] and [list_ass_subscript]

    Indexing, and reading, assigning and deleting extended slices.  The
    positions of an extended slice are computed in a [size_t] that wraps
    around. *)

From stdpp Require Import base list numbers strings.
From S2P Require Import Prelude PyHeap ListCore ListView ListSpec ListAssign ListExtend ListQuerySpec.

(** [PySlice_AdjustIndices(length, &start, &stop, step)]: the adjusted [start]
    and [stop], and the number of items of the slice. *)
Class SliceApi := {
  slice_adjust : Z -> Z -> Z -> Z -> Z * Z * Z;
  slice_adjust_doc : ∀ size start0 stop0 step start stop n,
    0 <= size -> step ≠ 0 -> slice_adjust size start0 stop0 step = (start, stop, n) ->
    0 <= n <= size ∧
    (0 < step -> 0 <= start <= size ∧ 0 <= stop <= size ∧
       if n =? 0 then stop <= start else start + (n - 1) * step < stop <= start + n * step) ∧
    (step < 0 -> -1 <= start < size ∧ -1 <= stop < size ∧
       if n =? 0 then start <= stop else start + n * step <= stop < start + (n - 1) * step)
}.

(** The argument of a subscript: an object with [__index__], a slice whose
    members [PySlice_Unpack] gives, or something else, with its type's name. *)
Inductive subscript (V E : Type) :=
  | SIndex (as_ssize : heap V E -> (pyexn + Z) * heap V E)
  | SSlice (unpack : heap V E -> (pyexn + Z * Z * Z) * heap V E)
  | SOther.
Arguments SIndex {V E} as_ssize.
Arguments SSlice {V E} unpack.
Arguments SOther {V E}.

Section subscript.
Context {V E : Type} {api : PyApi V E} {sapi : SliceApi}.

Definition run_index {A} (f : heap V E -> (pyexn + A) * heap V E) : PM V E A := λ h,
  match f h with (inr i, h) => Ret i h | (inl e, h) => Exn e h end.
Definition bad_subscript {A} : PM V E A :=
  mraise TypeError "list indices must be integers or slices".

(** [for (cur = start, i = 0; i < slicelength; cur += (size_t)step, i++)
       { it = src[cur]; Py_INCREF(it); dest[i] = it; }] *)
Fixpoint copy_slice (n : nat) (src : list V) (cur step : Z) (dest : list V) (i : Z)
    : PM V E (list V) :=
  match n with
  | O => mret dest
  | S n =>
      it ← mlift (aget src cur);
      _ ← Py_INCREF it;
      dest ← mlift (aset dest i it);
      copy_slice n src (size_t (cur + step)) step dest (i + 1)
  end.

Definition get_ext_slice (start step slicelength : Z) : PM V E (listobj V) :=
  dest ← list_new_prealloc slicelength;
  src ← get_block;
  dest ← copy_slice (Z.to_nat slicelength) src (size_t start) step dest 0;
  mret (ListObj (Some dest) slicelength slicelength).

(** The result is an item or a new list. *)
Definition list_subscript (item : subscript V E) : PM V E (V + listobj V) :=
  match item with
  | SIndex as_ssize =>
      i ← run_index as_ssize;
      size ← get_size;
      v ← list_item (if i <? 0 then i + size else i);
      mret (inl v)
  | SSlice unpack =>
      '(start, stop, step) ← run_index unpack;
      size ← get_size;
      let '(start, stop, slicelength) := slice_adjust size start stop step in
      if slicelength <=? 0 then mret (inr (ListObj None 0 0))
      else if step =? 1 then r ← list_slice start stop; mret (inr r)
      else
        r ← get_ext_slice start step slicelength; mret (inr r)
  | SOther => bad_subscript
  end.

(** ** Deleting an extended slice *)

(** [for (cur = start, i = 0; cur < (size_t)stop; cur += step, i++)]: the
    removed items, the last one first. *)
Fixpoint del_loop (fuel : nat) (cur i stop step : Z) (garbage : list V) : PM V E (list V) :=
  match fuel with
  | O => mnofuel
  | S fuel =>
      if cur <? size_t stop then
        size ← get_size;
        v ← item_get cur;
        let lim := if size_t size <=? size_t (cur + step) then size - cur - 1 else step - 1 in
        _ ← move_items (cur - i) (cur + 1) lim;
        del_loop fuel (size_t (cur + step)) (i + 1) stop step (v :: garbage)
      else mret garbage
  end.
Definition del_slice (start stop step slicelength : Z) : PM V E unit :=
  if slicelength <=? 0 then mret tt
  else
    let '(start, stop, step) :=
      if step <? 0 then
        let stop' := start + 1 in
        (stop' + step * (slicelength - 1) - 1, stop', - step)
      else (start, stop, step) in
    ok ← PyMem_alloc (size_t (slicelength * SIZEOF_PTR));
    if negb ok then mraise MemoryError no_msg
    else
      garbage ← del_loop (S (Z.to_nat slicelength)) (size_t start) 0 stop step [];
      let cur := size_t (start + slicelength * step) in
      size ← get_size;
      _ ← (if cur <? size_t size then move_items (cur - slicelength) cur (size - cur)
           else mret tt);
      _ ← Py_SET_SIZE (size - slicelength);
      res ← mtry (list_resize (size - slicelength));
      _ ← decref_all (reverse garbage);
      match res with inl e => mthrow e | inr _ => mret tt end.

(** ** Assigning an extended slice *)

(** [garbage[i] = selfitems[cur]; ins = seqitems[i]; Py_INCREF(ins);
    selfitems[cur] = ins;]: the replaced items, the last one first. *)
Fixpoint ass_loop (ins : list V) (cur step : Z) (garbage : list V) : PM V E (list V) :=
  match ins with
  | [] => mret garbage
  | w :: ins =>
      old ← item_get cur;
      _ ← Py_INCREF w;
      _ ← item_set cur w;
      ass_loop ins (size_t (cur + step)) step (old :: garbage)
  end.
Definition set_slice_items (start step slicelength : Z) (seqitems : list V) : PM V E unit :=
  if negb (Zlen seqitems =? slicelength) then
    mraise ValueError "attempt to assign sequence to extended slice"
  else if slicelength =? 0 then mret tt
  else
    ok ← PyMem_alloc (size_t (slicelength * SIZEOF_PTR));
    if negb ok then mraise MemoryError no_msg
    else
      garbage ← ass_loop seqitems (size_t start) step [];
      decref_all (reverse garbage).
Definition set_slice (start step slicelength : Z) (value : seq_arg V E) : PM V E unit :=
  '(seqitems, fresh) ←
    (match value with
     | ASelf =>
         size ← get_size;
         b ← list_slice 0 size;
         mret (items b, true)
     | _ => PySequence_Fast value "must assign iterable to extended slice"
     end);
  with_seq seqitems fresh (set_slice_items start step slicelength seqitems).

(** The value assigned: nothing (a deletion), an object for an index, or
    something iterable for a slice. *)
Inductive ass_value := VDelete | VObj (v : V) (as_seq : seq_arg V E).
Definition value_obj (value : ass_value) : option V :=
  match value with VDelete => None | VObj v _ => Some v end.
Definition value_seq (value : ass_value) : option (seq_arg V E) :=
  match value with VDelete => None | VObj _ a => Some a end.

Definition list_ass_subscript (item : subscript V E) (value : ass_value) : PM V E unit :=
  match item with
  | SIndex as_ssize =>
      i ← run_index as_ssize;
      size ← get_size;
      list_ass_item (if i <? 0 then i + size else i) (value_obj value)
  | SSlice unpack =>
      '(start, stop, step) ← run_index unpack;
      size ← get_size;
      let '(start, stop, slicelength) := slice_adjust size start stop step in
      if step =? 1 then list_ass_slice start stop (value_seq value)
      else
        let stop := if ((step <? 0) && (start <? stop)) || ((0 <? step) && (stop <? start))
                    then start else stop in
        match value with
        | VDelete => del_slice start stop step slicelength
        | VObj _ a => set_slice start step slicelength a
        end
  | SOther => bad_subscript
  end.
End subscript.
#[global] Arguments ass_value : clear implicits.
#[global] Arguments VDelete {V E}.
#[global] Arguments VObj {V E} v as_seq.
