(* ===== verification/ListSubscriptSpec.v ===== *)
(** * What subscripts do *)

From stdpp Require Import base list numbers strings.
From S2P Require Import Prelude PyHeap ListCore ListView ListSpec ListAssign ListExtend ListQuerySpec ListSubscript.

(** ** Slices as sets of positions *)

Definition positions (start step n : Z) : list Z := (λ k, start + k * step) <$> seqZ 0 n.
Lemma elem_of_positions p start step n :
  p ∈ positions start step n <-> ∃ k, 0 <= k < n ∧ p = start + k * step.
Proof.
  unfold positions. rewrite list_elem_of_fmap. split.
  - intros (k & -> & Hk). apply elem_of_seqZ in Hk. exists k. split; [lia|done].
  - intros (k & Hk & ->). exists k. split; [done|]. apply elem_of_seqZ. lia.
Qed.
(** The same slice walked from its other end. *)
Lemma positions_reverse p start step n :
  p ∈ positions (start + step * (n - 1)) (- step) n <-> p ∈ positions start step n.
Proof.
  rewrite !elem_of_positions. split; intros (k & Hk & ->); exists (n - 1 - k); split; lia.
Qed.

Section slices.
Context {V : Type}.
Implicit Types (its vs a b : list V).

(** The items at some positions, in their order. *)
Definition pick its (pos : list Z) : list V := omap (λ p, its !! Z.to_nat p) pos.
(** The items at no position of [pos]; the first one is at [off]. *)
Fixpoint without (off : Z) its (pos : list Z) : list V :=
  match its with
  | [] => []
  | v :: its => if decide (off ∈ pos) then without (off + 1) its pos
                else v :: without (off + 1) its pos
  end.
(** [vs] stored at [pos]. *)
Fixpoint place its (pos : list Z) vs : list V :=
  match pos, vs with
  | p :: pos, v :: vs => place (<[Z.to_nat p := v]> its) pos vs
  | _, _ => its
  end.

Lemma without_app off a b pos : without off (a ++ b) pos = without off a pos ++ without (off + Zlen a) b pos.
Proof.
  revert off. induction a as [|v a IH]; intros off; simpl.
  { by rewrite Zlen_nil, Z.add_0_r. }
  rewrite IH, Zlen_cons, Z.add_assoc. by case_decide.
Qed.
Lemma without_none off a pos :
  (∀ p, p ∈ pos -> ¬ off <= p < off + Zlen a) -> without off a pos = a.
Proof.
  revert off. induction a as [|v a IH]; intros off Hp; simpl; [done|].
  rewrite decide_False; [|intros Hin; apply (Hp off Hin); zlia].
  f_equal. apply IH. intros p Hin. specialize (Hp p Hin). zlia.
Qed.
Lemma without_ext_range off a pos pos' :
  (∀ p, off <= p < off + Zlen a -> p ∈ pos <-> p ∈ pos') -> without off a pos = without off a pos'.
Proof.
  revert off. induction a as [|v a IH]; intros off Hp; simpl; [done|].
  rewrite (IH (off + 1)) by (intros p Hr; apply Hp; zlia).
  destruct (decide (off ∈ pos)) as [H|H].
  - rewrite decide_True; [done|]. apply Hp; [zlia|done].
  - rewrite decide_False; [done|]. rewrite <- Hp; [done|zlia].
Qed.
Lemma without_ext off a pos pos' : (∀ p, p ∈ pos <-> p ∈ pos') -> without off a pos = without off a pos'.
Proof. intros Hp. by apply without_ext_range. Qed.
Lemma without_nil off a : without off a [] = a.
Proof. apply without_none. intros p Hp. by apply not_elem_of_nil in Hp. Qed.

(** The items are those kept and those picked. *)
Lemma without_pick its pos :
  NoDup pos -> (∀ p, p ∈ pos -> 0 <= p < Zlen its) -> its ≡ₚ without 0 its pos ++ pick its pos.
Proof.
  induction pos as [|p pos IH]; intros Hnd Hr; [by rewrite without_nil, app_nil_r|].
  apply NoDup_cons in Hnd as [Hp Hnd].
  specialize (IH Hnd ltac:(intros q Hq; apply Hr; by right)).
  destruct (Zlen_split p its) as (a & b & Hits & Ha); [specialize (Hr p ltac:(by left)); lia|].
  destruct b as [|v b]; [specialize (Hr p ltac:(by left)); rewrite Hits in Hr; zlia|].
  assert (pick its (p :: pos) = v :: pick its pos) as ->.
  { unfold pick. cbn [omap list_omap]. rewrite Hits at 1. rewrite <- Ha at 1. unfold Zlen.
    rewrite Nat2Z.id. by rewrite list_lookup_middle. }
  assert (without 0 its pos = without 0 a pos ++ v :: without (p + 1) b pos) as Hw1.
  { rewrite Hits, without_app, Z.add_0_l, Ha. simpl. by rewrite decide_False. }
  assert (without 0 its (p :: pos) = without 0 a pos ++ without (p + 1) b pos) as ->.
  { rewrite Hits, without_app, Z.add_0_l, Ha. simpl. rewrite decide_True by by left.
    f_equal; apply without_ext_range; intros q Hq; rewrite elem_of_cons;
      (split; [intros [|]; [zlia|done]|by right]). }
  rewrite IH at 1. rewrite Hw1. rewrite <- !app_assoc. apply Permutation_app_head.
  rewrite <- app_comm_cons. by rewrite Permutation_middle.
Qed.
End slices.

Lemma size_t_idemp x y : size_t (size_t x + y) = size_t (x + y).
Proof. unfold size_t. by rewrite Zplus_mod_idemp_l. Qed.
Lemma positions_S start step n : 0 < n -> positions start step n = start :: positions (start + step) step (n - 1).
Proof.
  intros Hn. unfold positions. replace n with (Z.succ (n - 1)) at 1 by lia.
  rewrite (seqZ_cons 0) by lia. replace (Z.pred (Z.succ (n - 1))) with (n - 1) by lia.
  cbn [fmap list_fmap]. f_equal; [lia|].
  change (Z.succ 0) with (1 + 0). rewrite <- (fmap_add_seqZ 1 0 (n - 1)).
  rewrite <- list_fmap_compose. apply list_fmap_ext. intros i x _. simpl. lia.
Qed.
Lemma positions_0 start step : positions start step 0 = [].
Proof. done. Qed.

Lemma positions_NoDup start step n : step ≠ 0 -> NoDup (positions start step n).
Proof.
  intros Hs. apply NoDup_fmap_2_strong; [|apply NoDup_seqZ]. intros j k _ _ Heq. nia.
Qed.

Section subscript_specs.
Context {V E : Type} {api : PyApi V E} {nf : Prop}.
Implicit Types (its slack vs : list V) (l : listobj V) (lg : list (event V)) (e : E).

(** Every position of the slice is an index. *)
Definition in_range its start step n : Prop := ∀ k, 0 <= k < n -> 0 <= start + k * step < Zlen its.
Lemma in_range_tail its start step n :
  in_range its start step n -> in_range its (start + step) step (n - 1).
Proof. intros Hr k Hk. specialize (Hr (k + 1)). lia. Qed.
Lemma in_range_split its slack start step n :
  in_range its start step n -> 0 < n -> Zlen its <= MAX_ITEMS ->
  size_t start = start ∧ ∃ a v b, its = a ++ v :: b ∧ start = Zlen a ∧
    its !! Z.to_nat start = Some v.
Proof.
  intros Hr Hn Hm. specialize (Hr 0 ltac:(lia)). rewrite Z.mul_0_l, Z.add_0_r in Hr.
  split; [apply size_t_small; rewrite MAX_ITEMS_val in Hm; unfold SIZE_T_MOD; lia|].
  destruct (Zlen_split start its) as (a & b & -> & <-); [lia|]. destruct b as [|v b]; [zlia|].
  exists a, v, b. split_and!; [done|done|]. unfold Zlen. rewrite Nat2Z.id. by apply list_lookup_middle.
Qed.

Lemma wp_copy_slice n : ∀ its slack start step d1 x h i (Q : list V -> heap V E -> Prop) X,
  in_range its start step (Z.of_nat n) -> Zlen its <= MAX_ITEMS -> i = Zlen d1 -> Zlen x = Z.of_nat n ->
  let vs := pick its (positions start step (Z.of_nat n)) in
  Q (d1 ++ vs) (Heap (self h) (took vs (log h)) (env h)) ->
  wpo nf (copy_slice n (its ++ slack) (size_t start) step (d1 ++ x) i) Q X h.
Proof.
  induction n as [|n IH]; intros its slack start step d1 x h i Q X Hr Hm Hi Hx vs HQ.
  { apply Zlen_0_inv in Hx as ->. subst vs. destruct h. by apply wp_ret. }
  destruct (in_range_split its slack start step _ Hr ltac:(lia) Hm) as (Hs & a & v & b & Hits & Ha & Hv).
  cbn [copy_slice]. rewrite Hs. wp_step. eapply wp_lift; [rewrite Hits, <- app_assoc; by apply aget_app|].
  wp_step. apply wp_INCREF. destruct (Zlen_pos_inv x) as (y & x' & ->); [lia|]. wp_step.
  eapply wp_lift; [by apply aset_app|].
  replace (d1 ++ v :: x') with ((d1 ++ [v]) ++ x') by list_assoc. subst vs.
  rewrite positions_S in HQ by lia. cbn [pick omap list_omap] in HQ. unfold pick in HQ. rewrite Hv in HQ.
  replace (Z.of_nat (S n) - 1) with (Z.of_nat n) in HQ by lia.
  apply IH; [|done|zlia|zlia|].
  - apply in_range_tail in Hr. by replace (Z.of_nat (S n) - 1) with (Z.of_nat n) in Hr by lia.
  - cbn [self log env]. rewrite took_cons in HQ. rewrite <- app_assoc. exact HQ.
Qed.

Lemma wp_ass_loop `{EqDecision V} ins : ∀ its slack start step garbage lg e (Q : list V -> heap V E -> Prop) X,
  in_range its start step (Zlen ins) -> Zlen its + Zlen slack <= MAX_ITEMS ->
  (∀ olds, let its' := place its (positions start step (Zlen ins)) ins in
     Zlen its' = Zlen its -> (∀ v, occ v its' = occ v its + occ v ins - occ v olds) ->
     Q (reverse olds ++ garbage) (Heap (lobj its' slack) (took ins lg) e)) ->
  wpo nf (ass_loop ins (size_t start) step garbage) Q X (Heap (lobj its slack) lg e).
Proof.
  induction ins as [|w ins IH]; intros its slack start step garbage lg e Q X Hr Hm HQ.
  { apply wp_ret. specialize (HQ []). apply HQ; [done|]. intros v. simpl. rewrite !occ_nil. lia. }
  destruct (in_range_split its slack start step _ Hr) as (Hs & a & v & b & Hits & Ha & Hv); [zlia|zlia|].
  cbn [ass_loop]. rewrite Hs. wp_step. apply (wp_item_at _ a v b); [rewrite <- Hits; by constructor|done|].
  wp_step. apply wp_INCREF. wp_step. cbn [self log env]. unfold lobj. rewrite Hits at 1.
  rewrite <- app_assoc, <- app_comm_cons. apply wp_item_set; [done|]. cbn [self log env].
  set (its2 := a ++ w :: b). assert (Zlen its2 = Zlen its) as Hl2 by (rewrite Hits; subst its2; zlia).
  replace (ListObj _ _ _) with (lobj its2 slack)
    by (unfold lobj; rewrite Hl2; subst its2; f_equal; by rewrite <- app_assoc).
  assert (<[Z.to_nat start := w]> its = its2) as Hins.
  { rewrite Hits, Ha. unfold Zlen. rewrite Nat2Z.id. replace (length a) with (length a + 0)%nat by lia.
    by rewrite insert_app_r. }
  apply IH; [|lia|].
  - apply in_range_tail in Hr. rewrite Zlen_cons in Hr.
    replace (1 + Zlen ins - 1) with (Zlen ins) in Hr by lia. intros k Hk. rewrite Hl2. by apply Hr.
  - intros olds its' Hl Hocc. specialize (HQ (v :: olds)). rewrite Zlen_cons in HQ.
    rewrite positions_S in HQ by zlia. replace (1 + Zlen ins - 1) with (Zlen ins) in HQ by lia.
    cbn [place] in HQ. rewrite Hins in HQ. rewrite reverse_cons, <- app_assoc, took_cons in HQ.
    apply HQ; [subst its'; lia|]. intros u. specialize (Hocc u). subst its'. rewrite Hocc, Hits. subst its2.
    autorewrite with refs. lia.
Qed.

(** ** Deleting *)

(** A slice walked upwards: every position an index, [stop] after the last. *)
Record upwards its start stop step n : Prop := {
  up_step : 0 < step <= PY_SSIZE_T_MAX;
  up_n : 0 < n;
  up_start : 0 <= start;
  up_last : start + (n - 1) * step < stop;
  up_stop : stop <= start + n * step;
  up_size : stop <= Zlen its
}.
Lemma up_bound its start stop step n :
  upwards its start stop step n -> Zlen its <= MAX_ITEMS -> start + n * step < SIZE_T_MOD.
Proof.
  intros [] Hm. rewrite MAX_ITEMS_val in Hm. unfold SIZE_T_MOD, PY_SSIZE_T_MAX in *.
  replace (start + n * step) with (start + (n - 1) * step + step) by ring. lia.
Qed.
Lemma up_not_between its start stop step n i p :
  upwards its start stop step n -> 0 <= i -> p ∈ positions start step n ->
  ¬ start + i * step < p < start + (i + 1) * step.
Proof.
  intros [Hst _ _ _ _ _] Hi (k & Hk & ->)%elem_of_positions. destruct (decide (k <= i)).
  - pose proof (Z.mul_le_mono_nonneg_r k i step). lia.
  - pose proof (Z.mul_le_mono_nonneg_r (i + 1) k step). lia.
Qed.

(** After [i] rounds: the kept items up to [c], [i] stale slots, the rest. *)
Definition compacted its slack pos c i (b : list V) : Prop :=
  ∃ J, b = without 0 (take (Z.to_nat c) its) pos ++ J ++ drop (Z.to_nat c) its ++ slack ∧
    Zlen J = i ∧ Zlen (without 0 (take (Z.to_nat c) its) pos) = c - i.
Lemma compacted_Zlen its slack pos c i b :
  0 <= c <= Zlen its -> compacted its slack pos c i b -> Zlen b = Zlen its + Zlen slack.
Proof. intros Hc (J & -> & HJ & HK). rewrite !Zlen_app, HK, HJ, Zlen_drop by lia. lia. Qed.

(** One round, in terms of lists: the stale slots move behind [M]. *)
Lemma wp_del_step (K J : list V) v M R slack size al lg e cur i lim (Q : unit -> heap V E -> Prop) X :
  Zlen K = cur - i -> Zlen J = i -> Zlen M = lim ->
  (∀ J', Zlen J' = i + 1 -> Q tt (Heap (ListObj (Some (K ++ M ++ J' ++ R ++ slack)) size al) lg e)) ->
  wpo nf (move_items (cur - i) (cur + 1) lim) Q X
    (Heap (ListObj (Some (K ++ J ++ v :: M ++ R ++ slack)) size al) lg e).
Proof.
  intros HK HJ HM HQ. destruct (Zlen_split lim (J ++ v :: M)) as (x & y & Hxy & Hx); [zlia|].
  assert (Zlen y = i + 1) as Hy by (apply (f_equal Zlen) in Hxy; zlia).
  apply (wp_move_items _ K x (y ++ R ++ slack) (K ++ J ++ [v]) M (R ++ slack)).
  - replace (K ++ J ++ v :: M ++ R ++ slack) with (K ++ (J ++ v :: M) ++ R ++ slack) by list_assoc.
    rewrite Hxy. list_assoc.
  - list_assoc.
  - lia.
  - zlia.
  - lia.
  - lia.
  - by apply HQ.
Qed.

Lemma take_more its c v M R :
  0 <= c -> drop (Z.to_nat c) its = v :: M ++ R ->
  take (Z.to_nat (c + 1 + Zlen M)) its = take (Z.to_nat c) its ++ v :: M ∧
  drop (Z.to_nat (c + 1 + Zlen M)) its = R.
Proof.
  intros Hc Hd. assert (Z.to_nat c < length its)%nat as Hlt.
  { apply (f_equal length) in Hd. rewrite length_drop in Hd. simpl in Hd. lia. }
  set (A := take (Z.to_nat c) its) in *.
  assert (its = (A ++ v :: M) ++ R) as Hits.
  { subst A. rewrite <- app_assoc, <- app_comm_cons, <- Hd. by rewrite take_drop. }
  assert (Z.to_nat (c + 1 + Zlen M) = length (A ++ v :: M)) as ->.
  { subst A. rewrite length_app, length_take. unfold Zlen. simpl. lia. }
  clearbody A. rewrite Hits at 1 2. by rewrite take_app_length, drop_app_length.
Qed.

Lemma wp_del_loop its slack start stop step n : upwards its start stop step n ->
  let pos := positions start step n in
  ∀ fuel i b garbage lg e (Q : list V -> heap V E -> Prop) X,
  0 <= i <= n -> n - i < Z.of_nat fuel -> Zlen its + Zlen slack <= MAX_ITEMS ->
  compacted its slack pos (Z.min (start + i * step) (Zlen its)) i b ->
  (∀ b' vs, compacted its slack pos (Z.min (start + n * step) (Zlen its)) n b' ->
     vs = pick its (positions (start + i * step) step (n - i)) ->
     Q (reverse vs ++ garbage) (Heap (ListObj (Some b') (Zlen its) (Zlen its + Zlen slack)) lg e)) ->
  wpo nf (del_loop fuel (start + i * step) i stop step garbage) Q X
    (Heap (ListObj (Some b) (Zlen its) (Zlen its + Zlen slack)) lg e).
Proof.
  intros Hup pos. pose proof Hup as [Hst Hn Hs Hl Hsp Hsz].
  induction fuel as [|fuel IH]; intros i b garbage lg e Q X Hi Hf Hm Hc HQ; [lia|].
  pose proof (up_bound _ _ _ _ _ Hup ltac:(zlia)) as Hub. pose proof Hm as Hm'. rewrite MAX_ITEMS_val in Hm'.
  assert (0 <= (n - 1) * step) by nia. cbn [del_loop].
  rewrite (size_t_small stop) by (unfold SIZE_T_MOD; zlia).
  destruct (start + i * step <? stop) eqn:E1; bool_to_prop.
  2:{ assert (i = n) as -> by nia. apply wp_ret. specialize (HQ b []). cbn [reverse app rev_append] in HQ.
      apply HQ; [exact Hc|]. by rewrite Z.sub_diag. }
  assert (i < n) as Hin by nia. assert (0 <= start + i * step) as Hc0 by nia.
  assert (start + i * step + step <= start + n * step) as Hcs.
  { pose proof (Z.mul_le_mono_nonneg_r (i + 1) n step). lia. }
  set (c := start + i * step) in *. rewrite Z.min_l in Hc by lia.
  destruct Hc as (J & -> & HJ & HK). set (K := without 0 (take (Z.to_nat c) its) pos) in *.
  destruct (drop (Z.to_nat c) its) as [|v D] eqn:ED.
  { apply (f_equal Zlen) in ED. rewrite Zlen_drop in ED by lia. zlia. }
  assert (Zlen D = Zlen its - c - 1) as HD.
  { apply (f_equal Zlen) in ED. rewrite Zlen_drop, Zlen_cons in ED by lia. lia. }
  wp_step. apply wp_get_size. cbn [self ob_size]. wp_step.
  rewrite <- app_comm_cons, (app_assoc K). apply wp_item_get; [zlia|]. rewrite <- (app_assoc K).
  match goal with |- context [move_items _ _ ?x] => set (lim := x) end.
  assert (lim = Z.min (step - 1) (Zlen its - c - 1)) as Hlim.
  { subst lim. rewrite !size_t_small by (unfold SIZE_T_MOD in *; pose_zlen; lia).
    destruct (Zlen its <=? c + step) eqn:E2; bool_to_prop; lia. }
  destruct (Zlen_split lim D) as (M & R & -> & HM); [lia|].
  destruct (take_more its c v M R Hc0 ED) as [Htk Hdr].
  assert (Z.min (c + step) (Zlen its) = c + 1 + Zlen M) as Hnext by lia.
  wp_step. rewrite <- app_assoc. apply (wp_del_step K J v M R slack); [done|done|done|].
  intros J' HJ'. rewrite (size_t_small (c + step)) by (unfold SIZE_T_MOD in *; lia).
  assert (c + step = start + (i + 1) * step) as Hcn by (subst c; ring). rewrite Hcn in *.
  apply IH; [lia|lia|done|..].
  - exists J'. rewrite Hnext, Htk, Hdr, without_app.
    assert (without (0 + Zlen (take (Z.to_nat c) its)) (v :: M) pos = M) as ->.
    { rewrite Zlen_take by lia. simpl. rewrite decide_True.
      - apply without_none. intros p Hp Hb. eapply (up_not_between _ _ _ _ _ i p Hup); [lia|exact Hp|].
        subst c. lia.
      - apply elem_of_positions. exists i. split; [lia|done]. }
    fold K. split; [list_assoc|]. split; [lia|]. rewrite Zlen_app. lia.
  - intros b' vs Hb' ->.
    specialize (HQ b' (v :: pick its (positions (start + (i + 1) * step) step (n - (i + 1)))) Hb').
    rewrite reverse_cons, <- app_assoc in HQ. apply HQ.
    rewrite (positions_S c) by lia. cbn [pick omap list_omap]. unfold pick.
    assert (its !! Z.to_nat c = Some v) as ->.
    { rewrite <- (take_drop (Z.to_nat c) its), ED. apply list_lookup_middle.
      rewrite length_take. unfold Zlen in *. lia. }
    rewrite <- Hcn. by replace (n - (i + 1)) with (n - i - 1) by lia.
Qed.

(** What the interpreter says about an adjusted slice. *)
Record slice_ok its start stop step n : Prop := {
  so_step : step ≠ 0 ∧ - PY_SSIZE_T_MAX <= step <= PY_SSIZE_T_MAX;
  so_n : 0 <= n <= Zlen its;
  so_up : 0 < step -> 0 <= start <= Zlen its ∧ 0 <= stop <= Zlen its ∧
     if n =? 0 then stop <= start else start + (n - 1) * step < stop <= start + n * step;
  so_down : step < 0 -> -1 <= start < Zlen its ∧ -1 <= stop < Zlen its ∧
     if n =? 0 then start <= stop else start + n * step <= stop < start + (n - 1) * step
}.
Lemma slice_in_range its start stop step n : slice_ok its start stop step n -> in_range its start step n.
Proof.
  intros [[Hs _] Hn Hup Hdown] k Hk. destruct (n =? 0) eqn:E0; bool_to_prop; [lia|].
  destruct (decide (0 < step)).
  - destruct (Hup ltac:(lia)) as (H1 & H2 & H3).
    pose proof (Z.mul_le_mono_nonneg_r k (n - 1) step). pose proof (Z.mul_nonneg_nonneg k step). lia.
  - destruct (Hdown ltac:(lia)) as (H1 & H2 & H3).
    pose proof (Z.mul_le_mono_nonpos_r k (n - 1) step). pose proof (Z.mul_nonneg_nonpos k step). lia.
Qed.
Lemma slice_upwards its start stop step n :
  slice_ok its start stop step n -> 0 < n -> 0 < step -> upwards its start stop step n.
Proof.
  intros [Hs Hn Hup _] Hp Hst. destruct (Hup Hst) as (H1 & H2 & H3).
  replace (n =? 0) with false in H3 by lia. split; lia.
Qed.
Lemma slice_upwards_rev its start stop step n :
  slice_ok its start stop step n -> 0 < n -> step < 0 ->
  upwards its (start + 1 + step * (n - 1) - 1) (start + 1) (- step) n.
Proof.
  intros Hok Hp Hst. pose proof (slice_in_range _ _ _ _ _ Hok (n - 1) ltac:(lia)).
  destruct Hok as [Hs Hn _ Hd]. destruct (Hd Hst) as (H1 & H2 & H3). split; lia.
Qed.

Lemma wp_decref_all_exact vs h (Q : unit -> heap V E -> Prop) X :
  Q tt (Heap (self h) (released (self h) (reverse vs) (log h)) (env h)) ->
  wpo nf (decref_all vs) Q X h.
Proof.
  revert h. induction vs as [|v vs IH]; intros h HQ; simpl; [destruct h; by apply wp_ret|].
  wp_step. apply wp_DECREF. apply IH. cbn [self log env].
  unfold released in *. rewrite reverse_cons, fmap_app, <- app_assoc in HQ. exact HQ.
Qed.
Lemma compacted_start its slack pos start :
  (∀ p, p ∈ pos -> start <= p) -> 0 <= start <= Zlen its -> compacted its slack pos start 0 (its ++ slack).
Proof.
  intros Hp Hs. exists []. rewrite without_none.
  - split; [|split; [done|rewrite Zlen_take; lia]]. rewrite app_nil_l, app_assoc. by rewrite take_drop.
  - intros p Hin. specialize (Hp p Hin). rewrite Zlen_take by lia. lia.
Qed.

(** Deleting upwards; the last items move down, and the list shrinks. *)
Lemma wp_del_upwards its slack start stop step n lg e (Q : unit -> heap V E -> Prop)
    (X : pyexn -> heap V E -> Prop) :
  let pos := positions start step n in
  upwards its start stop step n -> Zlen its + Zlen slack <= MAX_ITEMS ->
  (∀ l' e', view l' (without 0 its pos) ->
     Q tt (Heap l' (released l' (reverse (pick its pos)) lg) e') ∧
     X (PyErr MemoryError no_msg) (Heap l' (released l' (reverse (pick its pos)) lg) e')) ->
  wpo nf (garbage ← del_loop (S (Z.to_nat n)) (size_t start) 0 stop step [];
          let cur := size_t (start + n * step) in
          size ← get_size;
          _ ← (if cur <? size_t size then move_items (cur - n) cur (size - cur) else mret tt);
          _ ← Py_SET_SIZE (size - n);
          res ← mtry (list_resize (size - n));
          _ ← decref_all (reverse garbage);
          match res with inl e => mthrow e | inr _ => mret tt end) Q X
    (Heap (lobj its slack) lg e).
Proof.
  intros pos Hup Hm HQ. pose proof Hup as [Hst Hn Hs Hl Hsp Hsz].
  pose proof (up_bound _ _ _ _ _ Hup ltac:(zlia)) as Hub.
  assert (0 <= (n - 1) * step) as Hnn by nia. assert (0 <= n * step) as Hnn' by nia.
  assert (∀ p, p ∈ pos -> start <= p < start + n * step ∧ p < Zlen its) as Hpos.
  { intros p (k & Hk & ->)%elem_of_positions. pose proof (Z.mul_le_mono_nonneg_r k (n - 1) step).
    pose proof (Z.mul_nonneg_nonneg k step). lia. }
  rewrite MAX_ITEMS_val in Hm. assert (Zlen its < 2 ^ 60) as Hm' by zlia.
  wp_step. rewrite (size_t_small start) by (unfold SIZE_T_MOD; lia).
  replace start with (start + 0 * step) at 1 by lia.
  apply (wp_del_loop its slack start stop step n Hup); [lia|lia|rewrite MAX_ITEMS_val; lia|..].
  { rewrite Z.mul_0_l, Z.add_0_r, Z.min_l by lia. apply compacted_start; [|lia].
    intros p Hp. by apply Hpos. }
  intros b vs Hc ->. fold pos in Hc. rewrite Z.mul_0_l, Z.add_0_r, Z.sub_0_r. fold pos. cbv zeta. wp_step.
  apply wp_get_size. cbn [self ob_size]. rewrite !size_t_small by (unfold SIZE_T_MOD in *; zlia).
  wp_step. set (c := start + n * step) in *. destruct Hc as (J & -> & HJ & HK).
  assert (∀ J' D, Zlen J' = Zlen slack + n -> D = without 0 its pos -> Zlen D = Zlen its - n ->
    wpo nf (_ ← Py_SET_SIZE (Zlen its - n); res ← mtry (list_resize (Zlen its - n));
            _ ← decref_all (reverse (reverse (pick its pos) ++ []));
            match res with inl e => mthrow e | inr _ => mret tt end) Q X
      (Heap (ListObj (Some (D ++ J')) (Zlen its) (Zlen its + Zlen slack)) lg e)) as Hend.
  { intros J' D HJ' HD HDl. wp_step. unfold Py_SET_SIZE. wp_step. apply wp_get_self, wp_put_self.
    cbn [self log env]. unfold with_size. cbn [ob_item allocated].
    replace (ListObj _ _ _) with (lobj D J') by (unfold lobj; f_equal; lia).
    rewrite app_nil_r, reverse_involutive. wp_step. apply wp_try.
    assert (view (lobj D J') D) as HvD by (constructor; rewrite MAX_ITEMS_val; lia).
    rewrite <- HDl, <- (Z.add_0_r (Zlen D)). apply wp_grow_by; [done|done| |intros; by left|..].
    - rewrite HDl. unfold RESIZE_MAX. pose_zlen. lia.
    - intros _ l' e' Hv'. wp_step. apply wp_decref_all_exact, wp_ret. apply HQ. by rewrite <- HD.
    - intros e'. wp_step. apply wp_decref_all_exact, wp_throw. apply HQ. by rewrite <- HD. }
  assert (without 0 its pos = without 0 (take (Z.to_nat (Z.min c (Zlen its))) its) pos ++
          drop (Z.to_nat (Z.min c (Zlen its))) its) as Hwo.
  { rewrite <- (take_drop (Z.to_nat (Z.min c (Zlen its))) its) at 1. rewrite without_app. f_equal.
    apply without_none. intros p Hp. specialize (Hpos p Hp). rewrite Zlen_take by (subst c; zlia). lia. }
  set (K := without 0 (take (Z.to_nat (Z.min c (Zlen its))) its) pos) in *.
  assert (Zlen (drop (Z.to_nat (Z.min c (Zlen its))) its) = Zlen its - Z.min c (Zlen its)) as HDl
    by (apply Zlen_drop; subst c; zlia).
  set (D := drop _ its) in *. destruct (c <? Zlen its) eqn:E1; bool_to_prop.
  - rewrite Z.min_l in HK, HDl by lia.
    destruct (Zlen_split (Zlen D) (J ++ D)) as (x & y & Hxy & Hx); [zlia|].
    assert (Zlen y = n) as Hy by (apply (f_equal Zlen) in Hxy; zlia).
    apply (wp_move_items _ K x (y ++ slack) (K ++ J) D slack);
      [rewrite (app_assoc J), Hxy; list_assoc|list_assoc|lia|zlia|lia|lia|].
    rewrite (app_assoc K). apply Hend; [zlia|done|zlia].
  - rewrite Z.min_r in HK, HDl by lia. assert (D = []) as HD by (apply Zlen_0_inv; lia).
    apply wp_ret. rewrite HD in *. rewrite app_nil_l. apply Hend; [zlia|by rewrite Hwo, app_nil_r|lia].
Qed.

Lemma wp_del_ext l its start stop step n lg e (Q : unit -> heap V E -> Prop)
    (X : pyexn -> heap V E -> Prop) :
  let pos := positions start step n in
  view l its -> slice_ok its start stop step n ->
  (∀ l' vs e', view l' (without 0 its pos) -> its ≡ₚ without 0 its pos ++ vs ->
     Q tt (Heap l' (released l' vs lg) e') ∧
     X (PyErr MemoryError no_msg) (Heap l' (released l' vs lg) e')) ->
  fails_as_is l lg X ->
  wpo nf (del_slice start stop step n) Q X (Heap l lg e).
Proof.
  intros pos Hv Hok HQ HX. pose proof Hok as [[Hs Hsb] Hn _ _]. unfold del_slice.
  destruct (n <=? 0) eqn:E1; bool_to_prop.
  { assert (n = 0) as -> by lia. apply wp_ret. specialize (HQ l [] e). subst pos.
    rewrite positions_0, without_nil, app_nil_r in HQ. apply HQ; done. }
  destruct (view_pos _ _ Hv) as (slack & -> & Hm); [lia|].
  destruct (if step <? 0 then _ else _) as [[a b] c] eqn:E2.
  assert (upwards its a b c n ∧ (∀ p, p ∈ positions a c n <-> p ∈ pos)) as [Hup Hpos].
  { destruct (step <? 0) eqn:E3; bool_to_prop; injection E2 as <- <- <-.
    - split; [by eapply slice_upwards_rev|]. intros p. subst pos. rewrite <- (positions_reverse p start step n).
      by replace (start + 1 + step * (n - 1) - 1) with (start + step * (n - 1)) by lia.
    - split; [|done]. apply slice_upwards; [done|lia|lia]. }
  wp_step. apply wp_alloc. intros [] e1; simpl negb; cbv iota; [|apply wp_raise, HX].
  apply (wp_del_upwards its slack a b c n); [done|done|]. intros l' e' Hv'.
  assert (without 0 its (positions a c n) = without 0 its pos) as Hw by (by apply without_ext).
  rewrite Hw in Hv'. apply (HQ l'); [done|]. rewrite <- Hw, reverse_Permutation.
  apply without_pick; [apply positions_NoDup; destruct Hup; lia|].
  intros p Hp. apply Hpos, elem_of_positions in Hp as (k & Hk & ->).
  by apply (slice_in_range _ _ _ _ _ Hok).
Qed.

(** Storing the items of a sequence of the right length. *)
Lemma wp_set_items `{EqDecision V} l its start stop step n vs lg e (Q : unit -> heap V E -> Prop) X :
  view l its -> slice_ok its start stop step n -> Zlen vs = n ->
  (∀ l' olds e', let its' := place its (positions start step n) vs in
     view l' its' -> (∀ v, occ v its' = occ v its + occ v vs - occ v olds) ->
     Q tt (Heap l' (released l' olds (took vs lg)) e')) ->
  fails_as_is l lg X ->
  wpo nf (set_slice_items start step n vs) Q X (Heap l lg e).
Proof.
  intros Hv Hok Hl HQ HX. unfold set_slice_items. rewrite Hl, Z.eqb_refl. simpl negb. cbv iota.
  destruct (n =? 0) eqn:E1; bool_to_prop.
  { apply wp_ret. rewrite E1 in Hl. apply Zlen_0_inv in Hl as ->. rewrite E1 in HQ. apply (HQ l []); [done|].
    intros v. simpl. rewrite occ_nil. lia. }
  pose proof (so_n _ _ _ _ _ Hok). destruct (view_pos _ _ Hv) as (slack & -> & Hm); [lia|].
  wp_step. apply wp_alloc. intros [] e1; simpl negb; cbv iota; [|apply wp_raise, HX].
  wp_step. apply wp_ass_loop; [rewrite Hl; by eapply slice_in_range|done|].
  intros olds its' Hl' Hocc. rewrite app_nil_r, reverse_involutive. apply wp_decref_all_exact.
  cbn [self log env]. subst its'. rewrite Hl in *. apply HQ.
  - constructor. lia.
  - intros v. rewrite (occ_perm v (reverse olds) olds); [apply Hocc|].
    by rewrite reverse_Permutation.
Qed.
Lemma wp_set_items_wrong l start step n vs lg e Q (X : pyexn -> heap V E -> Prop) :
  Zlen vs ≠ n -> X (PyErr ValueError "attempt to assign sequence to extended slice") (Heap l lg e) ->
  wpo nf (set_slice_items start step n vs) Q X (Heap l lg e).
Proof.
  intros Hl HX. unfold set_slice_items. replace (Zlen vs =? n) with false by lia. by apply wp_raise.
Qed.

(** Reading an extended slice. *)
Lemma wp_get_ext l its start stop step n lg e (Q : listobj V -> heap V E -> Prop) X :
  view l its -> slice_ok its start stop step n -> 0 < n ->
  (∀ r e', view r (pick its (positions start step n)) ->
     Q r (Heap l (took (pick its (positions start step n)) lg) e')) ->
  fails_as_is l lg X ->
  wpo nf (get_ext_slice start step n) Q X (Heap l lg e).
Proof.
  unfold get_ext_slice.
  intros Hv Hok Hn HQ HX. pose proof (view_max _ _ Hv) as Hm. rewrite MAX_ITEMS_val in Hm.
  pose proof (so_n _ _ _ _ _ Hok) as Hno. destruct (view_pos _ _ Hv) as (slack & -> & Hmx); [lia|].
  wp_step. apply wp_new_prealloc; [unfold SIZE_T_MOD; lia| |done]. intros dest e' Hd Hdm.
  wp_step. apply wp_get_block. cbn [self lobj ob_item default]. wp_step.
  pose proof (wp_copy_slice (Z.to_nat n) its slack start step [] dest) as Hc.
  rewrite Z2Nat.id in Hc by lia. apply Hc; clear Hc; [by eapply slice_in_range|
    rewrite MAX_ITEMS_val; lia|done|done|].
  apply wp_ret. set (vs := pick its _) in *. cbn [app self log env].
  assert (Zlen vs = n) as Hlv.
  { pose proof (slice_in_range _ _ _ _ _ Hok) as Hr. clear - Hr Hn. subst vs.
    assert (∀ pos, (∀ p, p ∈ pos -> 0 <= p < Zlen its) -> Zlen (pick its pos) = Zlen pos) as Hlen.
    { induction pos as [|p pos IH]; intros Hp; [done|]. unfold pick. cbn [omap list_omap].
      destruct (lookup_lt_is_Some_2 its (Z.to_nat p)) as [v ->].
      { specialize (Hp p ltac:(by left)). unfold Zlen in Hp. lia. }
      fold (pick its pos). rewrite !Zlen_cons, IH; [done|]. intros q Hq. apply Hp. by right. }
    rewrite Hlen.
    - unfold positions. rewrite Zlen_fmap. unfold Zlen. rewrite length_seqZ. lia.
    - intros p (k & Hk & ->)%elem_of_positions. by apply Hr. }
  rewrite <- Hlv. rewrite lobj_full. apply HQ. constructor. rewrite MAX_ITEMS_val. zlia.
Qed.
End subscript_specs.
