(* ===== verification/ListIter.v ===== *)
(** * List iterators

    [listiterobject] and [listreviterobject] as state machines beside a list
    that other code may change between two calls. *)

From stdpp Require Import base list numbers strings.
From S2P Require Import Prelude PyHeap ListCore ListView ListSpec ListExtend ListQuerySpec.

(** [it_live] is [it->it_seq != NULL]; the sequence is the list of the state. *)
Record listiter := ListIter { it_index : Z; it_live : bool }.
#[export] Instance listiter_eq_dec : EqDecision listiter.
Proof. solve_decision. Defined.

(** What [__reduce__] describes: [iter(seq)] or [reversed(seq)] with an index,
    or [iter] of an empty list. *)
Inductive reduced := ReduceSeq (forward : bool) (index : Z) | ReduceEmpty.

Section iter.
Context {V E : Type} {api : PyApi V E}.

(** [gc_new]: whether [PyObject_GC_New] succeeds. *)
Definition list_iter (is_checked gc_new : bool) : PM V E listiter :=
  if negb is_checked then mraise SystemError "bad internal call"
  else if negb gc_new then mraise MemoryError no_msg
  else mret (ListIter 0 true).
Definition listiter_next (it : listiter) : PM V E (option V * listiter) :=
  if negb (it_live it) then mret (None, it)
  else
    size ← get_size;
    if it_index it <? size then
      item ← item_get (it_index it);
      _ ← Py_INCREF item;
      mret (Some item, ListIter (it_index it + 1) true)
    else mret (None, ListIter (it_index it) false).
Definition listiter_len (it : listiter) : PM V E Z :=
  if it_live it then
    size ← get_size;
    let len := size - it_index it in
    mret (if 0 <=? len then len else 0)
  else mret 0.
Definition listiter_setstate (it : listiter) (index : Z) : PM V E listiter :=
  if it_live it then
    size ← get_size;
    let index := if index <? 0 then 0 else if size <? index then size else index in
    mret (ListIter index true)
  else mret it.

Definition list___reversed__ (gc_new : bool) : PM V E listiter :=
  if negb gc_new then mraise MemoryError no_msg
  else size ← get_size; mret (ListIter (size - 1) true).
Definition listreviter_next (it : listiter) : PM V E (option V * listiter) :=
  if negb (it_live it) then mret (None, it)
  else
    size ← get_size;
    let index := it_index it in
    if (0 <=? index) && (index <? size) then
      item ← item_get index;
      _ ← Py_INCREF item;
      mret (Some item, ListIter (index - 1) true)
    else mret (None, ListIter (-1) false).
Definition listreviter_len (it : listiter) : PM V E Z :=
  size ← get_size;
  let len := it_index it + 1 in
  mret (if negb (it_live it) || (size <? len) then 0 else len).
Definition listreviter_setstate (it : listiter) (index : Z) : PM V E listiter :=
  if it_live it then
    size ← get_size;
    let index := if index <? -1 then -1 else if size - 1 <? index then size - 1 else index in
    mret (ListIter index true)
  else mret it.

Definition listiter_reduce_general (it : listiter) (forward : bool) : reduced :=
  if it_live it then ReduceSeq forward (it_index it) else ReduceEmpty.

(** Calling [next] until the iterator is exhausted. *)
Fixpoint collect (next : listiter -> PM V E (option V * listiter)) (fuel : nat) (it : listiter)
    : PM V E (list V * listiter) :=
  match fuel with
  | O => mnofuel
  | S fuel =>
      '(r, it) ← next it;
      match r with
      | None => mret ([], it)
      | Some v => '(vs, it) ← collect next fuel it; mret (v :: vs, it)
      end
  end.
End iter.

(** ** The iterators and the list as one system *)

(** A list iterator, forwards or backwards. *)
Definition next_of {V E} (forward : bool) : listiter -> PM V E (option V * listiter) :=
  if forward then listiter_next else listreviter_next.
Definition setstate_of {V E} (forward : bool) : listiter -> Z -> PM V E listiter :=
  if forward then listiter_setstate else listreviter_setstate.

(** Other code may put any list in shape in the place of this one. *)
Inductive iter_step {V E} (forward : bool) : heap V E * listiter -> heap V E * listiter -> Prop :=
  | step_next h it r h' it' :
      next_of forward it h = Ret (r, it') h' -> iter_step forward (h, it) (h', it')
  | step_setstate h it index h' it' :
      setstate_of forward it index h = Ret it' h' -> iter_step forward (h, it) (h', it')
  | step_other h h' it : list_wf (self h') -> iter_step forward (h, it) (h', it).

(** The index never leaves the list on the wrong side. *)
Definition iter_inv {V E} (forward : bool) (s : heap V E * listiter) : Prop :=
  list_wf (self s.1) ∧ (if forward then 0 else -1) <= it_index s.2.

Section iter_specs.
Context {V E : Type} {api : PyApi V E}.
Implicit Types (its a b : list V) (l : listobj V) (lg : list (event V)) (e : E).

Lemma wp_list_get l its lg e i (Q : V -> heap V E -> Prop) X :
  view l its -> 0 <= i < Zlen its -> (∀ v, its !! Z.to_nat i = Some v -> Q v (Heap l lg e)) ->
  wp (item_get i) Q X (Heap l lg e).
Proof.
  intros Hv Hi HQ. destruct (view_item _ _ i Hv) as (a & v & b & -> & ->).
  { by rewrite (view_size _ _ Hv). }
  apply (wp_item_at _ a v b); [done|done|]. apply HQ. unfold Zlen. rewrite Nat2Z.id.
  by apply list_lookup_middle.
Qed.

(** [next] from a state where the index is in order. *)
Lemma wp_next_of forward it h (Q : option V * listiter -> heap V E -> Prop) X :
  iter_inv forward (h, it) ->
  (∀ r it' h', iter_inv forward (h', it') -> self h' = self h ->
     (r = None -> it_live it' = false) -> (it_live it = false -> r = None ∧ it' = it) ->
     Q (r, it') h') ->
  wp (next_of forward it) Q X h.
Proof.
  intros [Hwf Hi] HQ. destruct h as [l lg e]. cbn [self fst snd] in *.
  pose proof (wf_view _ Hwf) as Hv. unfold next_of. destruct forward.
  - unfold listiter_next. destruct it as [i [|]]; cbn [it_live it_index negb] in *.
    2:{ apply wp_ret, HQ; [by split|done|done|done]. }
    wp_step. apply wp_get_size. cbn [self]. rewrite (view_size _ _ Hv).
    case_match eqn:E1; bool_to_prop.
    + wp_step. apply (wp_list_get l (items l)); [done|lia|]. intros v _. wp_step. apply wp_INCREF, wp_ret.
      apply HQ; [split; [done|]; cbn; lia|done|done|done].
    + apply wp_ret, HQ; [split; [done|]; cbn; lia|done|done|done].
  - unfold listreviter_next. destruct it as [i [|]]; cbn [it_live it_index negb] in *.
    2:{ apply wp_ret, HQ; [by split|done|done|done]. }
    wp_step. apply wp_get_size. cbn [self]. rewrite (view_size _ _ Hv). cbv zeta.
    case_match eqn:E1; bool_to_prop.
    + wp_step. apply (wp_list_get l (items l)); [done|lia|]. intros v _. wp_step. apply wp_INCREF, wp_ret.
      apply HQ; [split; [done|]; cbn; lia|done|done|done].
    + apply wp_ret, HQ; [split; [done|]; cbn; lia|done|done|done].
Qed.
Lemma setstate_inv forward it index (h : heap V E) it' h' :
  iter_inv forward (h, it) -> setstate_of forward it index h = Ret it' h' ->
  iter_inv forward (h', it') ∧ h' = h.
Proof.
  intros [Hwf Hi]. cbn [fst snd] in *. pose proof (view_size _ _ (wf_view _ Hwf)) as Hsz.
  pose proof (Zlen_nonneg (items (self h))). unfold setstate_of.
  destruct forward, it as [i [|]]; cbn [listiter_setstate listreviter_setstate it_live it_index] in *;
    unfold listiter_setstate, listreviter_setstate, get_size, get_self, mbind, M_bind, mret, M_ret;
    cbn [it_live it_index]; intros [= <- <-]; (split; [|done]); (split; [done|]); cbn [fst snd it_index];
    [|done| |done]; repeat case_match; bool_to_prop; lia.
Qed.
Lemma iter_step_inv forward s s' :
  @iter_step V E forward s s' -> iter_inv forward s -> iter_inv forward s'.
Proof.
  intros [h it r h' it' Hn|h it index h' it' Hn|h h' it Hwf] Hinv.
  - pose proof (wp_next_of forward it h (λ '(_, it') h', iter_inv forward (h', it')) (λ _ _, True) Hinv) as Hw.
    unfold wpo in Hw. rewrite Hn in Hw. apply Hw. by intros.
  - by eapply setstate_inv.
  - destruct Hinv as [_ Hi]. by split.
Qed.

(** ** A whole iteration *)
Lemma wp_collect b : ∀ a fuel l lg e (Q : list V * listiter -> heap V E -> Prop) X,
  view l (a ++ b) -> (length b < fuel)%nat ->
  Q (b, ListIter (Zlen (a ++ b)) false) (Heap l (took b lg) e) ->
  wp (collect listiter_next fuel (ListIter (Zlen a) true)) Q X (Heap l lg e).
Proof.
  induction b as [|v b IH]; intros a [|fuel] l lg e Q X Hv Hf HQ; try (simpl in Hf; lia);
    cbn [collect]; wp_step; unfold listiter_next at 1; cbn [it_live it_index negb];
    wp_step; apply wp_get_size; cbn [self]; rewrite (view_size _ _ Hv).
  - replace (_ <? _) with false by (symmetry; apply Z.ltb_ge; zlia). apply wp_ret, wp_ret.
    by rewrite app_nil_r in HQ.
  - replace (_ <? _) with true by (symmetry; apply Z.ltb_lt; zlia).
    wp_step. apply (wp_item_at _ a v b); [done|done|]. wp_step. apply wp_INCREF, wp_ret. cbn [self log env].
    wp_step. replace (Zlen a + 1) with (Zlen (a ++ [v])) by zlia.
    apply IH; [by rewrite <- app_assoc|simpl in Hf; lia|]. apply wp_ret.
    rewrite <- app_assoc. rewrite took_cons in HQ. exact HQ.
Qed.
Lemma wp_collect_reversed a : ∀ b fuel l lg e (Q : list V * listiter -> heap V E -> Prop) X,
  view l (a ++ b) -> (length a < fuel)%nat ->
  Q (reverse a, ListIter (-1) false) (Heap l (took (reverse a) lg) e) ->
  wp (collect listreviter_next fuel (ListIter (Zlen a - 1) true)) Q X (Heap l lg e).
Proof.
  induction a as [|v a IH] using rev_ind; intros b [|fuel] l lg e Q X Hv Hf HQ;
    try (rewrite ?length_app in Hf; simpl in Hf; lia);
    cbn [collect]; wp_step; unfold listreviter_next at 1; cbn [it_live it_index negb];
    wp_step; apply wp_get_size; cbn [self]; rewrite (view_size _ _ Hv).
  - by apply wp_ret, wp_ret.
  - replace (_ && _) with true by (symmetry; apply andb_true_iff; zlia).
    wp_step. rewrite <- app_assoc in Hv. apply (wp_item_at _ a v b); [done|zlia|].
    wp_step. apply wp_INCREF, wp_ret. cbn [self log env].
    wp_step. replace (Zlen (a ++ [v]) - 1 - 1) with (Zlen a - 1) by zlia.
    apply (IH (v :: b)); [done|rewrite length_app in Hf; simpl in Hf; lia|]. apply wp_ret.
    rewrite reverse_snoc, took_cons in HQ. exact HQ.
Qed.
End iter_specs.
