(* ===== verification/ListFree.v ===== *)
(** * The free list of checked list objects

    [_Ci_list_state] keeps up to 80 deallocated list objects for
    [chklist_alloc] to reuse.  Objects are named by their address; [live] are
    those the program holds. *)

From stdpp Require Import base list numbers gmap sets.
From S2P Require Import Prelude PyHeap ListCore.

Definition ChkList_MAXFREELIST : Z := 80.

(** The state of one interpreter; only the main one, whose id is 0, has a
    [_Ci_list_state]. *)
Record free_state := FreeState {
  interp_id : Z;
  free_list : list Z;
  numfree : Z;
  live : gset Z
}.
Definition FM (A : Type) : Type := M free_state A.

(** [get_list_state] may return NULL. *)
Definition get_list_state : FM bool := s ← mget; mret (interp_id s =? 0).

(** What deallocation does to the items of a list. *)
Definition list_dealloc_items {V E} : PM V E unit :=
  l ← get_self;
  match ob_item l with None => mret tt | Some a => decref_down (Z.to_nat (ob_size l)) a end.

(** What it does with the object; [is_list] is
    [Ci_List_CheckIncludingChecked(op)]. *)
Definition list_dealloc (op : Z) (is_list : bool) : FM unit :=
  state ← get_list_state;
  if negb state then mstuck
  else
    s ← mget;
    let live := live s ∖ {[ op ]} in
    if (numfree s <? ChkList_MAXFREELIST) && is_list then
      fl ← mlift (aset (free_list s) (numfree s) op);
      mput (FreeState (interp_id s) fl (numfree s + 1) live)
    else mput (FreeState (interp_id s) (free_list s) (numfree s) live).
(** [chklist_dealloc] first makes the object a plain list. *)
Definition chklist_dealloc (op : Z) : FM unit := list_dealloc op true.

(** [new_object]: what [PyObject_GC_New] returns, if anything. *)
Definition chklist_alloc (new_object : option Z) : FM Z :=
  state ← get_list_state;
  if negb state then mstuck
  else
    s ← mget;
    if negb (numfree s =? 0) then
      let n := numfree s - 1 in
      op ← mlift (aget (free_list s) n);
      _ ← mput (FreeState (interp_id s) (free_list s) n ({[ op ]} ∪ live s));
      mret op
    else
      match new_object with
      | None => mraise MemoryError no_msg
      | Some op =>
          _ ← mput (FreeState (interp_id s) (free_list s) (numfree s) ({[ op ]} ∪ live s));
          mret op
      end.

(** [PyObject_GC_Del] of the first [numfree] entries. *)
Definition _PyCheckedList_ClearCaches : FM (list Z) :=
  state ← get_list_state;
  if state : bool then
    s ← mget;
    let freed := take (Z.to_nat (numfree s)) (free_list s) in
    _ ← mput (FreeState (interp_id s) (free_list s) 0 (live s));
    mret freed
  else mret [].

(** The entries in use. *)
Definition spare (s : free_state) : list Z := take (Z.to_nat (numfree s)) (free_list s).

(** No object is in the free list twice, or in it and in use. *)
Record free_inv (s : free_state) : Prop := {
  fi_main : interp_id s = 0;
  fi_slots : Zlen (free_list s) = ChkList_MAXFREELIST;
  fi_bound : 0 <= numfree s <= ChkList_MAXFREELIST;
  fi_nodup : NoDup (spare s);
  fi_disjoint : ∀ op, op ∈ spare s -> op ∉ live s
}.

(** What the program does: it deallocates objects it holds, and memory from
    [PyObject_GC_New] is in use nowhere. *)
Inductive free_step : free_state -> free_state -> Prop :=
  | step_alloc s new_object op s' :
      (∀ op, new_object = Some op -> op ∉ live s ∧ op ∉ spare s) ->
      chklist_alloc new_object s = Ret op s' -> free_step s s'
  | step_dealloc s op s' :
      op ∈ live s -> chklist_dealloc op s = Ret tt s' -> free_step s s'
  | step_clear s freed s' :
      _PyCheckedList_ClearCaches s = Ret freed s' -> free_step s s'.

Definition start_state : free_state := FreeState 0 (replicate 80 0) 0 ∅.

Lemma spare_split s : free_inv s -> ∃ fr, free_list s = spare s ++ fr ∧ Zlen (spare s) = numfree s.
Proof.
  intros [_ Hl Hb _ _]. exists (drop (Z.to_nat (numfree s)) (free_list s)). unfold spare.
  rewrite take_drop. split; [done|]. apply Zlen_take. lia.
Qed.

(** The parts of the program run without error and keep the invariant. *)
Lemma wp_chklist_alloc new_object s (Q : Z -> free_state -> Prop) X :
  free_inv s -> (∀ op, new_object = Some op -> op ∉ live s ∧ op ∉ spare s) ->
  (∀ op s', free_inv s' -> op ∉ live s -> live s' = {[ op ]} ∪ live s ->
     (numfree s ≠ 0 -> op ∈ spare s) -> Q op s') ->
  (numfree s = 0 -> new_object = None -> X (PyErr MemoryError no_msg) s) ->
  wp (chklist_alloc new_object) Q X s.
Proof.
  intros Hinv Hnew HQ HX. pose proof Hinv as [Hm Hl Hb Hnd Hdis].
  destruct (spare_split s Hinv) as (fr & Hfl & Hsp).
  unfold chklist_alloc, get_list_state. wp_step. wp_step. apply wp_get, wp_ret. rewrite Hm. simpl negb.
  cbv iota. wp_step. apply wp_get. destruct (numfree s =? 0) eqn:E1; bool_to_prop; simpl negb; cbv iota.
  - destruct new_object as [op|]; [|by apply wp_raise, HX]. destruct (Hnew op eq_refl) as [H1 H2].
    wp_step. apply wp_put, wp_ret, HQ; [|done|done|done].
    split; cbn; try done. intros op' Hop. rewrite not_elem_of_union, not_elem_of_singleton.
    split; [by intros ->|by apply Hdis].
  - cbv zeta. destruct (Zlen_pos_inv_r (spare s)) as (sp & op & Hsplit); [lia|].
    wp_step. eapply wp_lift.
    { rewrite Hfl, Hsplit, <- app_assoc. apply aget_app. rewrite Hsplit in Hsp. zlia. }
    wp_step. apply wp_put, wp_ret. rewrite Hsplit in Hnd, Hdis, Hsp.
    assert (spare (FreeState (interp_id s) (free_list s) (numfree s - 1) ({[op]} ∪ live s)) = sp) as Hsp'.
    { unfold spare. cbn. rewrite Hfl, Hsplit, <- app_assoc. apply take_app_length'. unfold Zlen in Hsp.
      rewrite length_app in Hsp. simpl in Hsp. lia. }
    apply NoDup_app in Hnd as (Hnd1 & Hnd2 & _). apply HQ; [|apply Hdis; set_solver|done|].
    + split; rewrite ?Hsp'; cbn; [done|done|lia|done|].
      intros op' Hop. rewrite not_elem_of_union, not_elem_of_singleton.
      split; [|apply Hdis; set_solver]. intros ->. by apply (Hnd2 op); [|left].
    + intros _. rewrite Hsplit. set_solver.
Qed.
Lemma wp_chklist_dealloc op s (Q : unit -> free_state -> Prop) X :
  free_inv s -> op ∈ live s ->
  (∀ s', free_inv s' -> live s' = live s ∖ {[ op ]} ->
     (numfree s < ChkList_MAXFREELIST -> op ∈ spare s') -> Q tt s') ->
  wp (chklist_dealloc op) Q X s.
Proof.
  intros Hinv Hop HQ. pose proof Hinv as [Hm Hl Hb Hnd Hdis].
  destruct (spare_split s Hinv) as (fr & Hfl & Hsp).
  unfold chklist_dealloc, list_dealloc, get_list_state. wp_step. wp_step. apply wp_get, wp_ret.
  rewrite Hm. simpl negb. cbv iota. wp_step. apply wp_get. cbv zeta. rewrite andb_true_r.
  destruct (_ <? _) eqn:E1; bool_to_prop.
  - destruct fr as [|x fr]; [rewrite Hfl in Hl; zlia|]. wp_step.
    eapply wp_lift; [rewrite Hfl; apply aset_app; lia|]. apply wp_put.
    assert (spare (FreeState (interp_id s) (spare s ++ op :: fr) (numfree s + 1) (live s ∖ {[op]})) = spare s ++ [op])
      as Hsp'.
    { unfold spare at 1. cbn [free_list numfree]. replace (spare s ++ op :: fr) with ((spare s ++ [op]) ++ fr) by list_assoc.
      apply take_app_length'. rewrite length_app. simpl. unfold Zlen in Hsp. lia. }
    apply HQ; [|done|intros _; rewrite Hsp'; set_solver].
    split; rewrite ?Hsp'; cbn; [done| |lia| |].
    + rewrite Hfl in Hl. zlia.
    + apply NoDup_app. split; [done|]. split; [|apply NoDup_singleton].
      intros y Hy ->%list_elem_of_singleton. by apply (Hdis op).
    + intros y [Hy|Hy]%elem_of_app; [|set_solver]. specialize (Hdis y Hy). set_solver.
  - apply wp_put, HQ; [|done|lia]. split; cbn; try done. intros y Hy. specialize (Hdis y Hy). set_solver.
Qed.
Lemma free_step_inv s s' : free_step s s' -> free_inv s -> free_inv s'.
Proof.
  intros [s0 new op s1 Hnew Hrun|s0 op s1 Hop Hrun|s0 freed s1 Hrun] Hinv.
  - pose proof (wp_chklist_alloc new s0 (λ _ s', free_inv s') (λ _ _, True) Hinv Hnew) as Hw.
    unfold wpo in Hw. rewrite Hrun in Hw. apply Hw; by intros.
  - pose proof (wp_chklist_dealloc op s0 (λ _ s', free_inv s') (λ _ _, True) Hinv Hop) as Hw.
    unfold wpo in Hw. rewrite Hrun in Hw. apply Hw. by intros.
  - revert Hrun. unfold _PyCheckedList_ClearCaches, get_list_state, mget, mput, mbind, M_bind, mret, M_ret.
    destruct Hinv as [Hm Hl Hb Hnd Hdis]. rewrite Hm. simpl. intros [= _ <-].
    split; cbn; [done|done|done|constructor|]. intros op Hop. by apply not_elem_of_nil in Hop.
Qed.
Lemma start_inv : free_inv start_state.
Proof. split; [done|done|done|constructor|]. intros op Hop. by apply not_elem_of_nil in Hop. Qed.
