(* ===== verification/TypeCheck.v ===== *)
(** * Run-time type checks of Static Python

    [typed_method_def.h] and [typed_method_def.c]: the check of a value against
    a parameter of a generic type, and the check that an integer fits in a
    primitive type. *)

From stdpp Require Import base list numbers strings.
From S2P Require Import Prelude.

(** [_PyGenericTypeParam]: a type, named by its address, and whether None is
    allowed too. *)
Record gparam := GParam { gtp_type : Z; gtp_optional : bool }.

(** None and [PyObject_TypeCheck]. *)
Class TypeApi (V : Type) := {
  Py_None : V;
  PyObject_TypeCheck : V -> Z -> bool
}.

(** [se_argtype] of a [Ci_Py_SigElement]. *)
Definition Ci_Py_SIG_OPTIONAL : Z := 1.
Definition Ci_Py_SIG_TYPE_PARAM : Z := 2.
Definition Ci_Py_SIG_TYPE_PARAM_IDX (x : Z) : Z := Z.lor (Z.shiftl x 2) Ci_Py_SIG_TYPE_PARAM.
Definition Ci_Py_SIG_TYPE_MASK (x : Z) : Z := Z.shiftr x 2.
Definition Ci_Py_Sig_T0 : Z := Ci_Py_SIG_TYPE_PARAM_IDX 0.
Definition Ci_Py_Sig_T1 : Z := Ci_Py_SIG_TYPE_PARAM_IDX 1.

Section checks.
Context {V S : Type} {tapi : TypeApi V} `{EqDecision V}.

(** [gti_inst] of [Py_TYPE(self)] is [inst]; an index outside it is stuck. *)
Definition param_ok (param : gparam) (arg : V) : bool :=
  (bool_decide (arg = Py_None) && gtp_optional param) || PyObject_TypeCheck arg (gtp_type param).
Definition _PyClassLoader_CheckParamType (inst : list gparam) (arg : V) (index : Z) : M S bool :=
  param ← mlift (aget inst index); mret (param_ok param arg).

Definition _PyClassLoader_CheckOneArg (inst : list gparam) (arg : V) (elem : Z) : M S unit :=
  if bool_decide (arg = Py_None) && negb (Z.land elem Ci_Py_SIG_OPTIONAL =? 0) then mret tt
  else
    param ← mlift (aget inst (Ci_Py_SIG_TYPE_MASK elem));
    if PyObject_TypeCheck arg (gtp_type param) then mret tt
    else mraise StaticTypeError "argument expected another type".
End checks.

(** ** Integers of a fixed width *)

Definition TYPED_INT_SIGNED : Z := 1.
(** [TYPED_INT8] ... [TYPED_UINT64]: the width's code, doubled, and the sign bit. *)
Definition typed_int (bits_code : Z) (signed : bool) : Z :=
  Z.lor (Z.shiftl bits_code 1) (if signed then TYPED_INT_SIGNED else 0).
Definition overflow_masks : list Z :=
  [0xFFFFFFFFFFFFFF00; 0xFFFFFFFFFFFF0000; 0xFFFFFFFF00000000; 0x0].
Definition soverflow_masks : list Z :=
  [0xFFFFFFFFFFFFFF80; 0xFFFFFFFFFFFF8000; 0xFFFFFFFF80000000; 0x8000000000000000].

(** [PyLong_AsSsize_t] and [PyLong_AsSize_t], which fail outside their range. *)
Definition PyLong_AsSsize_t (x : Z) : option Z :=
  if (- 2 ^ 63 <=? x) && (x <? 2 ^ 63) then Some x else None.
Definition PyLong_AsSize_t (x : Z) : option Z :=
  if (0 <=? x) && (x <? 2 ^ 64) then Some x else None.

(** The stored [size_t], or [None] for the result 0. *)
Definition _PyClassLoader_OverflowCheck (arg type : Z) : option Z :=
  if negb (Z.land type TYPED_INT_SIGNED =? 0) then
    ival ← PyLong_AsSsize_t arg;
    mask ← aget soverflow_masks (Z.shiftr type 1);
    let high := Z.land (size_t ival) mask in
    if negb (high =? 0) && negb (high =? mask) then None else Some (size_t ival)
  else
    ival ← PyLong_AsSize_t arg;
    mask ← aget overflow_masks (Z.shiftr type 1);
    if negb (Z.land ival mask =? 0) then None else Some ival.

(** ** The masks test the range *)

(** The number of value bits of a width's code. *)
Definition width (bits_code : Z) : Z := 8 * 2 ^ bits_code.

Lemma land_high x k : 0 <= k <= 64 -> 0 <= x < 2 ^ 64 ->
  Z.land x (2 ^ 64 - 2 ^ k) = x `div` 2 ^ k * 2 ^ k.
Proof.
  intros Hk Hx. assert (2 ^ 64 - 2 ^ k = Z.ldiff (Z.ones 64) (Z.ones k)) as ->.
  { rewrite Z.ldiff_ones_r by lia. rewrite Z.shiftl_mul_pow2, Z.shiftr_div_pow2 by lia.
    rewrite Z.ones_equiv. assert (2 ^ 64 = 2 ^ (64 - k) * 2 ^ k) as H64 by (rewrite <- Z.pow_add_r by lia; f_equal; lia).
    pose proof (Z.pow_pos_nonneg 2 k ltac:(lia) ltac:(lia)).
    replace (Z.pred (2 ^ 64)) with ((2 ^ k - 1) + (2 ^ (64 - k) - 1) * 2 ^ k) by lia.
    rewrite Z.div_add, Z.div_small by lia. lia. }
  assert (Z.land x (Z.ldiff (Z.ones 64) (Z.ones k)) = Z.ldiff x (Z.ones k)) as ->.
  { rewrite !Z.ldiff_land, Z.land_assoc, Z.land_ones by lia. by rewrite Z.mod_small. }
  by rewrite Z.ldiff_ones_r, Z.shiftl_mul_pow2, Z.shiftr_div_pow2 by lia.
Qed.
Lemma land_high_zero x k : 0 <= k <= 64 -> 0 <= x < 2 ^ 64 ->
  Z.land x (2 ^ 64 - 2 ^ k) = 0 <-> x < 2 ^ k.
Proof.
  intros Hk Hx. rewrite land_high by done. pose proof (Z.pow_pos_nonneg 2 k ltac:(lia) ltac:(lia)).
  pose proof (Z.div_mod x (2 ^ k) ltac:(lia)). pose proof (Z.mod_pos_bound x (2 ^ k) ltac:(lia)).
  split; intros Hz; [lia|]. rewrite Z.div_small; lia.
Qed.
Lemma land_high_full x k : 0 <= k <= 64 -> 0 <= x < 2 ^ 64 ->
  Z.land x (2 ^ 64 - 2 ^ k) = 2 ^ 64 - 2 ^ k <-> 2 ^ 64 - 2 ^ k <= x.
Proof.
  intros Hk Hx. rewrite land_high by done. pose proof (Z.pow_pos_nonneg 2 k ltac:(lia) ltac:(lia)).
  assert (2 ^ 64 = 2 ^ (64 - k) * 2 ^ k) as H64 by (rewrite <- Z.pow_add_r by lia; f_equal; lia).
  pose proof (Z.div_mod x (2 ^ k) ltac:(lia)). pose proof (Z.mod_pos_bound x (2 ^ k) ltac:(lia)).
  split; intros Hz; [lia|].
  assert (2 ^ (64 - k) - 1 <= x `div` 2 ^ k) by (apply Z.div_le_lower_bound; lia).
  assert (x `div` 2 ^ k < 2 ^ (64 - k)) by (apply Z.div_lt_upper_bound; lia). nia.
Qed.

(** The two cases of the check, for the widths 8, 16, 32 and 64. *)
Lemma overflow_unsigned code x :
  0 <= code <= 3 ->
  _PyClassLoader_OverflowCheck x (typed_int code false) =
  if (0 <=? x) && (x <? 2 ^ width code) then Some x else None.
Proof.
  intros Hc. assert (aget overflow_masks code = Some (2 ^ 64 - 2 ^ width code)) as Hm.
  { assert (code = 0 ∨ code = 1 ∨ code = 2 ∨ code = 3) as [-> | [-> | [-> | ->]]] by lia; reflexivity. }
  assert (0 <= width code <= 64 ∧ 2 ^ width code <= 2 ^ 64) as [Hw Hp].
  { assert (code = 0 ∨ code = 1 ∨ code = 2 ∨ code = 3) as [-> | [-> | [-> | ->]]] by lia; done. }
  unfold _PyClassLoader_OverflowCheck, typed_int. rewrite Z.lor_0_r.
  replace (Z.land (Z.shiftl code 1) TYPED_INT_SIGNED) with 0
    by (assert (code = 0 ∨ code = 1 ∨ code = 2 ∨ code = 3) as [-> | [-> | [-> | ->]]] by lia; done).
  simpl. rewrite Z.shiftr_shiftl_l by lia. rewrite Z.sub_diag, Z.shiftl_0_r, Hm.
  unfold PyLong_AsSize_t. destruct (_ && (x <? 2 ^ 64)) eqn:E1; simpl.
  - pose proof (land_high_zero x (width code) Hw ltac:(lia)) as Hz.
    destruct (Z.land _ _ =? 0) eqn:E2; bool_to_prop; simpl.
    + replace (_ && _) with true; [done|]. symmetry. apply andb_true_iff. apply Hz in E2. lia.
    + replace (_ && _) with false; [done|]. symmetry. apply andb_false_iff. right.
      apply Z.ltb_ge. destruct (decide (x < 2 ^ width code)); [by apply Hz in l|lia].
  - replace (_ && _) with false; [done|]. symmetry. apply andb_false_iff.
    apply andb_false_iff in E1. lia.
Qed.
Lemma overflow_signed code x :
  0 <= code <= 3 ->
  _PyClassLoader_OverflowCheck x (typed_int code true) =
  if (- 2 ^ (width code - 1) <=? x) && (x <? 2 ^ (width code - 1)) then Some (size_t x) else None.
Proof.
  intros Hc. assert (aget soverflow_masks code = Some (2 ^ 64 - 2 ^ (width code - 1))) as Hm.
  { assert (code = 0 ∨ code = 1 ∨ code = 2 ∨ code = 3) as [-> | [-> | [-> | ->]]] by lia; reflexivity. }
  assert (0 <= width code - 1 <= 63 ∧ 2 ^ (width code - 1) <= 2 ^ 63) as [Hw Hp].
  { assert (code = 0 ∨ code = 1 ∨ code = 2 ∨ code = 3) as [-> | [-> | [-> | ->]]] by lia; done. }
  unfold _PyClassLoader_OverflowCheck, typed_int, TYPED_INT_SIGNED.
  replace (Z.land (Z.lor (Z.shiftl code 1) 1) 1) with 1
    by (assert (code = 0 ∨ code = 1 ∨ code = 2 ∨ code = 3) as [-> | [-> | [-> | ->]]] by lia; done).
  replace (Z.shiftr (Z.lor (Z.shiftl code 1) 1) 1) with code
    by (assert (code = 0 ∨ code = 1 ∨ code = 2 ∨ code = 3) as [-> | [-> | [-> | ->]]] by lia; done).
  simpl negb. cbv iota. unfold PyLong_AsSsize_t. set (k := width code - 1) in *.
  destruct (_ && (x <? 2 ^ 63)) eqn:E1; cbn [mbind option_bind].
  2:{ replace (_ && _) with false; [done|]. symmetry. apply andb_false_iff. apply andb_false_iff in E1. lia. }
  apply andb_prop in E1 as [E1 E2]. bool_to_prop. rewrite Hm. cbn [mbind option_bind].
  assert (0 <= size_t x < 2 ^ 64) as Hr by (apply Z.mod_pos_bound; done).
  pose proof (land_high_zero (size_t x) k ltac:(lia) Hr) as Hz.
  pose proof (land_high_full (size_t x) k ltac:(lia) Hr) as Hf.
  pose proof (Z.pow_pos_nonneg 2 k ltac:(lia) ltac:(lia)) as Hkp.
  assert (size_t x = x ∧ 0 <= x ∨ size_t x = x + 2 ^ 64 ∧ x < 0) as Hst.
  { destruct (decide (0 <= x)); [left; split; [apply Z.mod_small; unfold SIZE_T_MOD; lia|done]|].
    right. split; [|lia]. unfold size_t. symmetry. apply (Z.mod_unique _ _ (-1)); unfold SIZE_T_MOD; lia. }
  set (high := Z.land _ _) in *.
  destruct (high =? 0) eqn:E3; [|destruct (high =? 2 ^ 64 - 2 ^ k) eqn:E4]; simpl; bool_to_prop.
  - apply Hz in E3. replace (_ && _) with true; [done|]. symmetry. apply andb_true_iff. lia.
  - apply Hf in E4. replace (_ && _) with true; [done|]. symmetry. apply andb_true_iff. lia.
  - replace (_ && _) with false; [done|]. symmetry. apply andb_false_iff.
    destruct (decide (size_t x < 2 ^ k)) as [H1|H1]; [by apply Hz in H1|].
    destruct (decide (2 ^ 64 - 2 ^ k <= size_t x)) as [H2|H2]; [by apply Hf in H2|]. lia.
Qed.
