(* ===== verification/DictProbe.v ===== *)
(** * The sizes and the probe sequence of the hash tables of checked dicts

    [calculate_keysize], [USABLE_FRACTION] and the index widths of
    [checked_dict.c], and the sequence of slots its lookups visit: every slot
    of a table is visited, which is why the probing loops end. *)

From stdpp Require Import base list numbers.
From S2P Require Import Prelude.

(** ** Sizes *)

Definition PyDict_MINSIZE : Z := 8.
Definition PERTURB_SHIFT : Z := 5.
Definition DKIX_EMPTY : Z := -1.
Definition DKIX_DUMMY : Z := -2.

(** [_Py_bit_length]: the number of bits of a non-negative number. *)
Definition _Py_bit_length (x : Z) : Z := if x =? 0 then 0 else Z.log2 x + 1.

Definition USABLE_FRACTION (n : Z) : Z := Z.shiftl n 1 `quot` 3.
Definition calculate_keysize (minsize : Z) : Z :=
  let minsize := Z.lor minsize PyDict_MINSIZE - 1 in
  ssize_t (Z.shiftl 1 (_Py_bit_length (Z.lor minsize (PyDict_MINSIZE - 1)))).
Definition estimate_keysize (n : Z) : Z := calculate_keysize ((n * 3 + 1) `quot` 2).
(** [DK_IXSIZE]: the bytes of an index. *)
Definition DK_IXSIZE (dk_size : Z) : Z :=
  if dk_size <=? 0xff then 1 else if dk_size <=? 0xffff then 2
  else if dk_size <=? 0xffffffff then 4 else 8.
(** The largest value of the index type that [dictkeys_set_index] writes. *)
Definition index_max (dk_size : Z) : Z :=
  if dk_size <=? 0xff then 0x7f else if dk_size <=? 0xffff then 0x7fff
  else if 0xffffffff <? dk_size then PY_SSIZE_T_MAX else 0x7fffffff.

(** Table sizes are powers of two; the largest one whose block the allocator
    can give is 2^58. *)
Definition table_size (n : Z) : Prop := ∃ k, 3 <= k <= 58 ∧ n = 2 ^ k.

Lemma table_size_bounds n : table_size n -> 8 <= n <= 2 ^ 58.
Proof.
  intros (k & Hk & ->).
  pose proof (Z.pow_le_mono_r 2 3 k). pose proof (Z.pow_le_mono_r 2 k 58). lia.
Qed.

Lemma USABLE_FRACTION_val n : 0 <= n -> USABLE_FRACTION n = (2 * n) `div` 3.
Proof.
  intros H. unfold USABLE_FRACTION. rewrite Z.shiftl_mul_pow2 by lia.
  rewrite Z.quot_div_nonneg by lia. f_equal. lia.
Qed.
(** What [USABLE_FRACTION must obey], and the room it leaves. *)
Lemma USABLE_FRACTION_bounds n :
  2 <= n -> 0 < USABLE_FRACTION n < n ∧ 2 * n - 2 <= 3 * USABLE_FRACTION n <= 2 * n.
Proof. intros H. rewrite USABLE_FRACTION_val by lia. split; divlia. Qed.
Lemma USABLE_FRACTION_mono n m : 0 <= n <= m -> USABLE_FRACTION n <= USABLE_FRACTION m.
Proof. intros H. rewrite !USABLE_FRACTION_val by lia. divlia. Qed.

(** [or] with a bit above which nothing changes. *)
Lemma log2_lor_low a b : 0 <= a -> 0 <= b -> Z.log2 b <= Z.log2 a -> Z.log2 (Z.lor a b) = Z.log2 a.
Proof. intros Ha Hb H. rewrite Z.log2_lor by done. lia. Qed.

Lemma lor_ge_l a b : 0 <= a -> 0 <= b -> a <= Z.lor a b.
Proof.
  intros Ha Hb. pose proof (Z.ldiff_le b a).
  replace (Z.lor a b) with (a + Z.ldiff b a).
  - assert (0 <= Z.ldiff b a) by (apply Z.ldiff_nonneg; auto). lia.
  - rewrite Z.add_nocarry_lxor.
    + apply Z.bits_inj'. intros n Hn. rewrite Z.lxor_spec, Z.ldiff_spec, Z.lor_spec.
      by destruct (Z.testbit a n), (Z.testbit b n).
    + apply Z.bits_inj'. intros n Hn. rewrite Z.land_spec, Z.ldiff_spec, Z.bits_0.
      by destruct (Z.testbit a n), (Z.testbit b n).
Qed.

(** Bit 3 set in a power of two above it. *)
Lemma lor_pow2_8 j : 4 <= j -> Z.lor (2 ^ j) 8 = 2 ^ j + 8.
Proof.
  intros Hj. change 8 with (2 ^ 3). rewrite Z.add_nocarry_lxor.
  - apply Z.bits_inj'. intros n Hn. rewrite Z.lxor_spec, Z.lor_spec, !Z.pow2_bits_eqb by lia.
    destruct (Z.eqb_spec j n), (Z.eqb_spec 3 n); try done. lia.
  - apply Z.bits_inj'. intros n Hn. rewrite Z.land_spec, Z.bits_0, !Z.pow2_bits_eqb by lia.
    destruct (Z.eqb_spec j n), (Z.eqb_spec 3 n); try done. lia.
Qed.
Lemma log2_round m : 8 < m -> Z.log2 (Z.lor m 8 - 1) = Z.log2 m.
Proof.
  intros Hm. pose proof (Z.log2_spec m ltac:(lia)) as [Hlo Hhi].
  set (j := Z.log2 m) in *.
  assert (Hj : 3 <= j) by (apply Z.log2_le_pow2; lia).
  pose proof (lor_ge_l m 8 ltac:(lia) ltac:(lia)).
  assert (Z.lor m 8 < 2 ^ Z.succ j).
  { apply Z.log2_lt_pow2; [lia|].
    rewrite log2_lor_low by (try lia; change (Z.log2 8) with 3; lia). unfold j. lia. }
  apply Z.log2_unique; [lia|]. split; [|lia].
  destruct (decide (2 ^ j < m)); [lia|]. assert (Heq : m = 2 ^ j) by lia.
  destruct (decide (j = 3)) as [H3|]; [rewrite Heq, H3 in Hm; change (2 ^ 3) with 8 in Hm; lia|].
  rewrite Heq, lor_pow2_8 by lia. lia.
Qed.

(** The exact result: the power of two above [max 8 minsize], except for 0 and 8. *)
Lemma calculate_keysize_val m :
  0 <= m < 2 ^ 61 -> calculate_keysize m =
    if (m =? 0) || (m =? 8) then 8 else 2 ^ (Z.log2 (m `max` 8) + 1).
Proof.
  intros Hm. unfold calculate_keysize, PyDict_MINSIZE.
  destruct (decide (m <= 8)) as [Hle|Hle%Z.nle_gt].
  { assert (∃ n : nat, m = Z.of_nat n ∧ (n <= 8)%nat) as (n & -> & Hn) by (exists (Z.to_nat m); lia).
    do 9 (destruct n as [|n]; [by vm_compute|]). lia. }
  destruct (Z.eqb_spec m 0), (Z.eqb_spec m 8); try lia. rewrite Z.max_l by lia. simpl orb.
  pose proof (lor_ge_l m 8 ltac:(lia) ltac:(lia)). pose proof (log2_round m Hle) as Hlog.
  set (a := Z.lor m 8 - 1) in *.
  assert (Hj : 3 <= Z.log2 m < 61).
  { split; [apply Z.log2_le_pow2; lia|]. apply Z.log2_lt_pow2; lia. }
  pose proof (lor_ge_l a (8 - 1) ltac:(lia) ltac:(lia)).
  assert (Hl2 : Z.log2 (Z.lor a (8 - 1)) = Z.log2 m).
  { rewrite log2_lor_low; [done|lia|lia|]. rewrite Hlog. change (Z.log2 (8 - 1)) with 2. lia. }
  unfold _Py_bit_length. destruct (Z.lor a (8 - 1) =? 0) eqn:Hnz; bool_to_prop; [lia|].
  rewrite Hl2, Z.shiftl_mul_pow2, Z.mul_1_l by lia.
  apply ssize_t_small. split; [|apply Z.pow_lt_mono_r; lia]. transitivity 0; [lia|apply Z.pow_nonneg; lia].
Qed.

(** What the callers use: a table size that holds [minsize]. *)
Lemma calculate_keysize_ge m :
  0 <= m < 2 ^ 61 ->
  ∃ k, 3 <= k <= 61 ∧ calculate_keysize m = 2 ^ k ∧ m <= 2 ^ k ∧ 2 ^ k <= 2 * (m `max` 8).
Proof.
  intros Hm. rewrite calculate_keysize_val by done.
  pose proof (Z.log2_spec (m `max` 8) ltac:(lia)) as [Hlo Hhi].
  destruct (_ || _) eqn:H8.
  { exists 3. change (2 ^ 3) with 8. lia. }
  rewrite Z.add_1_r. exists (Z.succ (Z.log2 (m `max` 8))). split_and!; [| |done|lia|].
  - pose proof (Z.log2_nonneg (m `max` 8)).
    assert (3 <= Z.log2 (m `max` 8)) by (apply (Z.log2_le_pow2 _ 3); lia). lia.
  - assert (Z.log2 (m `max` 8) < 61) by (apply Z.log2_lt_pow2; lia). lia.
  - rewrite Z.pow_succ_r by apply Z.log2_nonneg. lia.
Qed.

(** An entry number fits the index type. *)
Lemma index_fits size ix : table_size size -> ix < USABLE_FRACTION size -> ix <= index_max size.
Proof.
  intros (k & Hk & ->) Hix.
  assert (∃ n : nat, k = Z.of_nat n ∧ (n <= 58)%nat) as (n & -> & Hn) by (exists (Z.to_nat k); lia).
  assert (USABLE_FRACTION (2 ^ Z.of_nat n) - 1 <= index_max (2 ^ Z.of_nat n)); [|lia].
  clear Hix Hk. apply Z.leb_le.
  do 59 (destruct n as [|n]; [by vm_compute|]). lia.
Qed.

(** ** The probe sequence *)

Definition probe_next (mask : Z) (ip : Z * Z) : Z * Z :=
  let '(i, perturb) := ip in
  let perturb := Z.shiftr perturb PERTURB_SHIFT in
  (Z.land (size_t (i * 5 + perturb + 1)) mask, perturb).
Definition probe_start (mask hash : Z) : Z * Z := (Z.land (size_t hash) mask, size_t hash).
(** The state of a probing loop after [n] steps, and its slot. *)
Definition probe (mask hash : Z) (n : nat) : Z * Z :=
  Nat.iter n (probe_next mask) (probe_start mask hash).
Definition probe_slot (mask hash : Z) (n : nat) : Z := (probe mask hash n).1.
(** Steps after which every slot has been visited: 13 to shift the hash
    out, then a full period. *)
Definition probe_bound (size : Z) : nat := 13 + Z.to_nat size.

Lemma probe_S mask h n : probe mask h (S n) = probe_next mask (probe mask h n).
Proof. done. Qed.

Section probing.
Context (k : Z) (Hk : 0 <= k <= 63).

Lemma land_mask z : Z.land (size_t z) (2 ^ k - 1) = z `mod` 2 ^ k.
Proof.
  replace (2 ^ k - 1) with (Z.ones k) by (rewrite Z.ones_equiv; lia).
  rewrite Z.land_ones by lia. unfold size_t, SIZE_T_MOD.
  apply Z.mod_mod_divide.
  exists (2 ^ (64 - k)). rewrite <- Z.pow_add_r by lia. f_equal. lia.
Qed.

Lemma probe_slot_bounds h n : 0 <= probe_slot (2 ^ k - 1) h n < 2 ^ k.
Proof.
  unfold probe_slot. destruct n as [|n].
  - cbn. rewrite land_mask. apply Z.mod_pos_bound. lia.
  - rewrite probe_S. destruct (probe _ h n) as [i p]. cbn -[Z.land].
    rewrite land_mask. apply Z.mod_pos_bound. lia.
Qed.

Lemma probe_perturb h n :
  (probe (2 ^ k - 1) h n).2 = Z.shiftr (size_t h) (5 * Z.of_nat n).
Proof.
  induction n as [|n IH]; [done|]. rewrite probe_S.
  destruct (probe _ h n) as [i p]. cbn -[Z.shiftr] in IH |- *. rewrite IH.
  rewrite Z.shiftr_shiftr by (unfold PERTURB_SHIFT; lia). f_equal. unfold PERTURB_SHIFT. lia.
Qed.
Lemma perturb_gone h n : (13 <= n)%nat -> (probe (2 ^ k - 1) h n).2 = 0.
Proof.
  intros Hn. rewrite probe_perturb, Z.shiftr_div_pow2 by lia. apply Z.div_small.
  unfold size_t, SIZE_T_MOD. pose proof (Z.mod_pos_bound h (2 ^ 64) ltac:(lia)).
  split; [lia|]. eapply Z.lt_le_trans; [apply H|]. apply Z.pow_le_mono_r; lia.
Qed.

(** Without perturbation the steps are those of [x -> 5 x + 1]. *)
Definition lcg (x : Z) : Z := 5 * x + 1.
Lemma probe_is_lcg h n m :
  (13 <= n)%nat ->
  probe_slot (2 ^ k - 1) h (m + n) = Nat.iter m lcg (probe_slot (2 ^ k - 1) h n) `mod` 2 ^ k.
Proof.
  intros Hn. induction m as [|m IH]; cbn [Nat.add Nat.iter].
  { symmetry. apply Z.mod_small, probe_slot_bounds. }
  pose proof (perturb_gone h (S (m + n)) ltac:(lia)) as H0.
  unfold probe_slot in *. rewrite probe_S in H0 |- *. destruct (probe _ h (m + n)) as [i p].
  cbn -[Z.land Z.shiftr Nat.iter] in *.
  rewrite H0, land_mask, IH, Nat.iter_succ.
  rewrite Z.add_0_r, <- Z.add_mod_idemp_l, Z.mul_mod_idemp_l, Z.add_mod_idemp_l by lia.
  unfold lcg. f_equal. lia.
Qed.
End probing.

(** [5 x + 1] iterated 2^k times adds an odd multiple of 2^k. *)
Lemma lcg_pow2 (k : nat) :
  ∃ c, ∀ x, Nat.iter (2 ^ k)%nat lcg x = x + 2 ^ Z.of_nat k * (1 + 2 * c) * (1 + 4 * x).
Proof.
  induction k as [|k [c IH]].
  { exists 0. intros x. cbn. unfold lcg. lia. }
  set (b := 2 ^ Z.of_nat k * (1 + 2 * c)).
  exists (c + b + 2 * c * b). intros x.
  replace (2 ^ S k)%nat with (2 ^ k + 2 ^ k)%nat by (simpl; lia).
  rewrite Nat.iter_add, !IH. fold b.
  replace (2 ^ Z.of_nat (S k)) with (2 * 2 ^ Z.of_nat k) by (rewrite Nat2Z.inj_succ, Z.pow_succ_r; lia).
  unfold b. ring.
Qed.

(** Its orbit reaches every residue within 2^k steps. *)
Lemma lcg_full (k : nat) x t :
  ∃ n, (n < 2 ^ k)%nat ∧ Nat.iter n lcg x `mod` 2 ^ Z.of_nat k = t `mod` 2 ^ Z.of_nat k.
Proof.
  revert t. induction k as [|k IH]; intros t.
  { exists 0%nat. split; [cbn; lia|]. by rewrite !Z.mod_1_r. }
  destruct (IH t) as (n & Hn & Heq). set (y := Nat.iter n lcg x) in *.
  rewrite Nat2Z.inj_succ, Z.pow_succ_r by lia. set (p := 2 ^ Z.of_nat k) in *.
  assert (Hp : 0 < p) by (unfold p; lia).
  assert (∃ q, y = t + p * q) as [q Hq].
  { exists (y `div` p - t `div` p).
    rewrite (Z.div_mod y p) at 1 by lia. rewrite (Z.div_mod t p) at 1 by lia. lia. }
  destruct (Z.Even_or_Odd q) as [[r Hr]|[r Hr]].
  - exists n. split; [simpl; lia|]. fold y. rewrite Hq, Hr.
    replace (t + p * (2 * r)) with (t + r * (2 * p)) by ring. apply Z.mod_add. lia.
  - exists (2 ^ k + n)%nat. split; [simpl; lia|]. rewrite Nat.iter_add. fold y.
    destruct (lcg_pow2 k) as [c ->]. fold p. rewrite Hq at 1. rewrite Hr at 1.
    replace (t + p * (2 * r + 1) + p * (1 + 2 * c) * (1 + 4 * y))
      with (t + (r + 1 + c + 2 * y + 4 * c * y) * (2 * p)) by ring.
    apply Z.mod_add. lia.
Qed.

(** Every slot is visited. *)
Lemma probe_complete k h t :
  0 <= k <= 63 -> 0 <= t < 2 ^ k ->
  ∃ n, (n < probe_bound (2 ^ k))%nat ∧ probe_slot (2 ^ k - 1) h n = t.
Proof.
  intros Hk Ht. destruct (lcg_full (Z.to_nat k) (probe_slot (2 ^ k - 1) h 13) t) as (m & Hm & Heq).
  rewrite Z2Nat.id in Heq by lia. exists (m + 13)%nat. split.
  - unfold probe_bound. replace (Z.to_nat (2 ^ k)) with (2 ^ Z.to_nat k)%nat; [lia|].
    apply Nat2Z.inj. rewrite Nat2Z.inj_pow, !Z2Nat.id by lia. done.
  - rewrite probe_is_lcg, Heq by lia. by apply Z.mod_small.
Qed.
