(* ===== verification/DictObject.v ===== *)
(** * Checked dict objects and the state their operations act on

    The structures of [checked_dict.c], a heap of dicts and of keys objects
    that are reached through pointers, and the interface to the
    interpreter.  Comparing, hashing, releasing a reference and allocating a
    garbage-collected object may all run Python code that changes any dict. *)

From stdpp Require Import base list gmap numbers strings.
From S2P Require Import Prelude DictProbe.

(** ** The structures *)

(** [struct _dictkeyentry]. *)
Record dictentry (V : Type) := Entry {
  me_hash : Z;
  me_key : option V;
  me_value : option V
}.
Arguments Entry {V} _ _ _.
Arguments me_hash {V} _.
Arguments me_key {V} _.
Arguments me_value {V} _.

(** The functions [dk_lookup] may point to. *)
Inductive dict_lookup_func :=
  | Lookdict | LookdictUnicode | LookdictUnicodeNodummy | LookdictSplit.
#[export] Instance dict_lookup_func_eq_dec : EqDecision dict_lookup_func.
Proof. solve_decision. Defined.

(** [struct _dictkeysobject]; [dk_indices] and [dk_entries] are the arrays
    behind it. *)
Record dictkeys (V : Type) := DictKeys {
  dk_refcnt : Z;
  dk_size : Z;
  dk_lookup : dict_lookup_func;
  dk_usable : Z;
  dk_nentries : Z;
  dk_indices : list Z;
  dk_entries : list (dictentry V)
}.
Arguments DictKeys {V} _ _ _ _ _ _ _.
Arguments dk_refcnt {V} _.
Arguments dk_size {V} _.
Arguments dk_lookup {V} _.
Arguments dk_usable {V} _.
Arguments dk_nentries {V} _.
Arguments dk_indices {V} _.
Arguments dk_entries {V} _.

(** [ma_values]: NULL for a combined table, the shared array [empty_values],
    or the array of a split table. *)
Inductive dictvalues (V : Type) := NullValues | EmptyValues | SplitValues (vs : list (option V)).
Arguments NullValues {V}.
Arguments EmptyValues {V}.
Arguments SplitValues {V} vs.

(** [CiChkDictObject]; [ma_keys] is the address of a keys object. *)
Record dictobj (V : Type) := DictObj {
  ma_used : Z;
  ma_keys : Z;
  ma_values : dictvalues V
}.
Arguments DictObj {V} _ _ _.
Arguments ma_used {V} _.
Arguments ma_keys {V} _.
Arguments ma_values {V} _.

(** [Py_EMPTY_KEYS]: the address of [empty_keys_struct]. *)
Definition Py_EMPTY_KEYS : Z := 0.
(** [empty_keys_struct] with its reference count; its 8 index bytes are all
    DKIX_EMPTY, and it has no entries. *)
Definition empty_keys_struct {V} (refcnt : Z) : dictkeys V :=
  DictKeys refcnt 1 LookdictSplit 0 0 (replicate 8 DKIX_EMPTY) [].

Definition CiDict_MAXFREELIST : Z := 80.
(** [_Ci_dict_state]: the free lists of dict objects and of keys objects. *)
Record dict_state := DictState {
  free_list : list Z;
  numfree : Z;
  keys_free_list : list Z;
  keys_numfree : Z
}.

(** A reference-count event. *)
Inductive ref_event (V : Type) := IncRef (v : V) | DecRef (v : V).
Arguments IncRef {V} v.
Arguments DecRef {V} v.

(** The state: the dict objects and the keys objects by address, the free
    lists ([None] outside the main interpreter, where [get_dict_state] is
    NULL), the reference-count events, newest first, and the rest. *)
Record dheap (V E : Type) := DHeap {
  dicts : gmap Z (dictobj V);
  keys : gmap Z (dictkeys V);
  dstate : option dict_state;
  refs : list (ref_event V);
  world : E
}.
Arguments DHeap {V E} _ _ _ _ _.
Arguments dicts {V E} _.
Arguments keys {V E} _.
Arguments dstate {V E} _.
Arguments refs {V E} _.
Arguments world {V E} _.

(** An exact [str]: its length, its bytes per character and its data. *)
Record ustring := UString { us_length : Z; us_kind : Z; us_data : list Z }.

(** The interpreter.  [dict_malloc] gives a block that is not in use, if any;
    [gc_new] allocates a garbage-collected object and tells its address.
    [PyUnicode v] is [Some] when [PyUnicode_CheckExact(v)]; [str_hash v] is
    the hash cached in the string, -1 when there is none.  [rich_eq v w] is
    [PyObject_RichCompareBool(v, w, Py_EQ)], [run_hash] is [PyObject_Hash], [None] when they
    raise; [on_release v] is what releasing a reference to [v] runs. *)
Class DictApi (V E : Type) := {
  dict_malloc : Z -> dheap V E -> option Z * E;
  dict_malloc_fresh : ∀ bytes h a, (dict_malloc bytes h).1 = Some a ->
    a ≠ Py_EMPTY_KEYS ∧ keys h !! a = None ∧
    match dstate h with
    | Some s => a ∉ take (Z.to_nat (keys_numfree s)) (keys_free_list s)
    | None => True
    end;
  dict_malloc_limit : ∀ bytes h, PY_SSIZE_T_MAX < bytes -> (dict_malloc bytes h).1 = None;
  gc_new : dheap V E -> option Z * dheap V E;
  gc_new_fresh : ∀ h a h', gc_new h = (Some a, h') -> dicts h' !! a = None ∧
    match dstate h' with
    | Some s => a ∉ take (Z.to_nat (numfree s)) (free_list s)
    | None => True
    end;
  PyUnicode : V -> option ustring;
  str_hash : V -> E -> Z;
  rich_eq : V -> V -> dheap V E -> option bool * dheap V E;
  run_hash : V -> dheap V E -> option Z * dheap V E;
  on_release : V -> dheap V E -> dheap V E
}.

Section dict_ops.
Context {V E : Type} {api : DictApi V E}.

Definition DM (A : Type) : Type := M (dheap V E) A.

Definition set_dicts (m : gmap Z (dictobj V)) (h : dheap V E) : dheap V E :=
  DHeap m (keys h) (dstate h) (refs h) (world h).
Definition set_keys (m : gmap Z (dictkeys V)) (h : dheap V E) : dheap V E :=
  DHeap (dicts h) m (dstate h) (refs h) (world h).
Definition set_dstate (s : option dict_state) (h : dheap V E) : dheap V E :=
  DHeap (dicts h) (keys h) s (refs h) (world h).
Definition add_ref (ev : ref_event V) (h : dheap V E) : dheap V E :=
  DHeap (dicts h) (keys h) (dstate h) (ev :: refs h) (world h).
Definition set_world (e : E) (h : dheap V E) : dheap V E :=
  DHeap (dicts h) (keys h) (dstate h) (refs h) e.

(** Reading and writing through the pointers [mp] and [dk]; a pointer to
    nothing is stuck. *)
Definition get_dict (mp : Z) : DM (dictobj V) := h ← mget; mlift (dicts h !! mp).
Definition put_dict (mp : Z) (d : dictobj V) : DM unit :=
  h ← mget; _ ← mlift (dicts h !! mp); mput (set_dicts (<[mp := d]> (dicts h)) h).
Definition get_dk (dk : Z) : DM (dictkeys V) := h ← mget; mlift (keys h !! dk).
Definition put_dk (dk : Z) (k : dictkeys V) : DM unit :=
  h ← mget; _ ← mlift (keys h !! dk); mput (set_keys (<[dk := k]> (keys h)) h).
(** [mp->ma_keys], the pointer and what it points to. *)
Definition get_keys (mp : Z) : DM (dictkeys V) := d ← get_dict mp; get_dk (ma_keys d).
Definition put_keys (mp : Z) (k : dictkeys V) : DM unit := d ← get_dict mp; put_dk (ma_keys d) k.

Definition INCREF (v : V) : DM unit := mmodify (add_ref (IncRef v)).
Definition DECREF (v : V) : DM unit := mmodify (λ h, on_release v (add_ref (DecRef v) h)).
Definition XDECREF (v : option V) : DM unit :=
  match v with Some v => DECREF v | None => mret tt end.

Definition PyObject_Malloc (bytes : Z) : DM (option Z) := λ h,
  let '(a, e) := dict_malloc bytes h in Ret a (set_world e h).
Definition PyObject_GC_New : DM (option Z) := λ h, let '(a, h) := gc_new h in Ret a h.
Definition PyUnicode_CheckExact (v : V) : bool := bool_decide (is_Some (PyUnicode v)).
Definition RichCompareBool_EQ (v w : V) : DM bool := λ h,
  match rich_eq v w h with
  | (Some b, h) => Ret b h
  | (None, h) => Exn (PyErr Foreign no_msg) h
  end.
Definition PyObject_Hash (v : V) : DM Z := λ h,
  match run_hash v h with
  | (Some x, h) => Ret x h
  | (None, h) => Exn (PyErr Foreign no_msg) h
  end.
(** [if (!PyUnicode_CheckExact(key) || (hash = ...->hash) == -1) ...], the
    opening of every operation that takes a key. *)
Definition key_hash (key : V) : DM Z :=
  h ← mget;
  if negb (PyUnicode_CheckExact key) || (str_hash key (world h) =? -1) then PyObject_Hash key
  else mret (str_hash key (world h)).

(** Field updates of a keys object. *)
Definition with_refcnt (n : Z) (k : dictkeys V) : dictkeys V :=
  DictKeys n (dk_size k) (dk_lookup k) (dk_usable k) (dk_nentries k) (dk_indices k) (dk_entries k).
Definition with_lookup (f : dict_lookup_func) (k : dictkeys V) : dictkeys V :=
  DictKeys (dk_refcnt k) (dk_size k) f (dk_usable k) (dk_nentries k) (dk_indices k) (dk_entries k).
Definition with_indices (l : list Z) (k : dictkeys V) : dictkeys V :=
  DictKeys (dk_refcnt k) (dk_size k) (dk_lookup k) (dk_usable k) (dk_nentries k) l (dk_entries k).
Definition with_entries (l : list (dictentry V)) (k : dictkeys V) : dictkeys V :=
  DictKeys (dk_refcnt k) (dk_size k) (dk_lookup k) (dk_usable k) (dk_nentries k) (dk_indices k) l.
Definition with_counts (usable nentries : Z) (k : dictkeys V) : dictkeys V :=
  DictKeys (dk_refcnt k) (dk_size k) (dk_lookup k) usable nentries (dk_indices k) (dk_entries k).

Definition DK_MASK (k : dictkeys V) : Z := dk_size k - 1.
Definition null_entry : dictentry V := Entry 0 None None.
End dict_ops.

#[global] Arguments DM V E A : clear implicits.
