(* ===== verification/DictCore.v ===== *)
(** * The hash table of checked dicts

    Keys objects, the four lookup functions, insertion, resizing and deletion
    of [checked_dict.c].  GC tracking ([MAINTAIN_TRACKING]) does not touch the
    table and is left out. *)

From stdpp Require Import base list gmap numbers strings.
From S2P Require Import Prelude DictProbe DictObject.

Section table.
Context {V E : Type} {api : DictApi V E} `{EqDecision V}.

(** ** Keys objects *)

(** [sizeof(ChkDictKeysObject)] and [sizeof(ChkDictKeyEntry)]. *)
Definition KEYS_HEADER : Z := 40.
Definition ENTRY_BYTES : Z := 24.
Definition keys_bytes (size : Z) : Z :=
  size_t (KEYS_HEADER + DK_IXSIZE size * size + ENTRY_BYTES * USABLE_FRACTION size).
Definition IS_POWER_OF_2 (x : Z) : bool := Z.land x (x - 1) =? 0.

(** A block for a table: from the free list of smallest tables or malloc. *)
Definition malloc_keys (size : Z) : DM V E Z :=
  a ← PyObject_Malloc (keys_bytes size);
  match a with Some dk => mret dk | None => mraise MemoryError no_msg end.
Definition alloc_keys (size : Z) : DM V E Z :=
  h ← mget;
  match dstate h with
  | Some s =>
      if (size =? PyDict_MINSIZE) && (0 <? keys_numfree s) then
        let n := keys_numfree s - 1 in
        dk ← mlift (aget (keys_free_list s) n);
        _ ← mput (set_dstate (Some (DictState (free_list s) (numfree s) (keys_free_list s) n)) h);
        mret dk
      else malloc_keys size
  | None => malloc_keys size
  end.
Definition fresh_keys (size : Z) : dictkeys V :=
  DictKeys 1 size LookdictUnicodeNodummy (USABLE_FRACTION size) 0
    (replicate (Z.to_nat size) DKIX_EMPTY)
    (replicate (Z.to_nat (USABLE_FRACTION size)) null_entry).
Definition new_keys_object (size : Z) : DM V E Z :=
  _ ← cassert (PyDict_MINSIZE <=? size);
  _ ← cassert (IS_POWER_OF_2 size);
  dk ← alloc_keys size;
  h ← mget;
  _ ← mput (set_keys (<[dk := fresh_keys size]> (keys h)) h);
  mret dk.

(** The block goes to the free list or back to the allocator. *)
Definition release_block (dk size : Z) : DM V E unit :=
  h ← mget;
  let h := set_keys (delete dk (keys h)) h in
  match dstate h with
  | Some s =>
      if (size =? PyDict_MINSIZE) && (keys_numfree s <? CiDict_MAXFREELIST) then
        l ← mlift (aset (keys_free_list s) (keys_numfree s) dk);
        mput (set_dstate (Some (DictState (free_list s) (numfree s) l (keys_numfree s + 1))) h)
      else mput h
  | None => mput h
  end.
(** [for (i = 0, n = keys->dk_nentries; i < n; i++)] of [free_keys_object]:
    [todo] iterations are left. *)
Fixpoint release_entries (todo : nat) (dk i : Z) : DM V E unit :=
  match todo with
  | O => mret tt
  | S todo =>
      k ← get_dk dk;
      e ← mlift (aget (dk_entries k) i);
      _ ← XDECREF (me_key e);
      k ← get_dk dk;
      e ← mlift (aget (dk_entries k) i);
      _ ← XDECREF (me_value e);
      release_entries todo dk (i + 1)
  end.
Definition free_keys_object (dk : Z) : DM V E unit :=
  k ← get_dk dk;
  _ ← release_entries (Z.to_nat (dk_nentries k)) dk 0;
  if dk =? Py_EMPTY_KEYS then mstuck
  else k ← get_dk dk; release_block dk (dk_size k).
Definition dictkeys_incref (dk : Z) : DM V E unit :=
  k ← get_dk dk; put_dk dk (with_refcnt (dk_refcnt k + 1) k).
Definition dictkeys_decref (dk : Z) : DM V E unit :=
  k ← get_dk dk;
  _ ← cassert (0 <? dk_refcnt k);
  _ ← put_dk dk (with_refcnt (dk_refcnt k - 1) k);
  if dk_refcnt k - 1 =? 0 then free_keys_object dk else mret tt.

(** ** Indices and entries *)

Definition dictkeys_get_index (k : dictkeys V) (i : Z) : DM V E Z :=
  ix ← mlift (aget (dk_indices k) i);
  _ ← cassert (DKIX_DUMMY <=? ix);
  mret ix.
Definition dictkeys_set_index (mp i ix : Z) : DM V E unit :=
  k ← get_keys mp;
  _ ← cassert (DKIX_DUMMY <=? ix);
  _ ← cassert (ix <=? index_max (dk_size k));
  l ← mlift (aset (dk_indices k) i ix);
  put_keys mp (with_indices l k).
Definition get_entry (mp ix : Z) : DM V E (dictentry V) :=
  k ← get_keys mp; mlift (aget (dk_entries k) ix).
Definition put_entry (mp ix : Z) (e : dictentry V) : DM V E unit :=
  k ← get_keys mp;
  l ← mlift (aset (dk_entries k) ix e);
  put_keys mp (with_entries l k).

(** The probing loop of every lookup: [visit] inspects one slot and either
    ends the loop or lets it go on. *)
Fixpoint probe_loop {A} (fuel : nat) (mask : Z) (visit : Z -> DM V E (option A))
    (i perturb : Z) : DM V E A :=
  match fuel with
  | O => mnofuel
  | S fuel =>
      r ← visit i;
      match r with
      | Some a => mret a
      | None =>
          let perturb := Z.shiftr perturb PERTURB_SHIFT in
          probe_loop fuel mask visit (Z.land (size_t (i * 5 + perturb + 1)) mask) perturb
      end
  end.
(** The loop from the slot of [hash] on, with fuel for every slot. *)
Definition probing {A} (k : dictkeys V) (hash : Z) (visit : Z -> DM V E (option A)) : DM V E A :=
  probe_loop (S (probe_bound (dk_size k))) (DK_MASK k) visit
    (Z.land (size_t hash) (DK_MASK k)) (size_t hash).

(** Slot of the table whose index is [index], or DKIX_EMPTY. *)
Definition lookdict_index (k : dictkeys V) (hash index : Z) : DM V E Z :=
  probing k hash (λ i,
    ix ← dictkeys_get_index k i;
    mret (if ix =? index then Some i
          else if ix =? DKIX_EMPTY then Some DKIX_EMPTY else None)).
Definition find_empty_slot (k : dictkeys V) (hash : Z) : DM V E Z :=
  probing k hash (λ i, ix ← dictkeys_get_index k i; mret (if 0 <=? ix then None else Some i)).

(** ** Lookup *)

(** What a lookup returns: the entry's index or DKIX_EMPTY, and
    [*value_addr].  A comparison that raises is an exception. *)
Definition found : Type := Z * option V.

(** One slot of [lookdict]; [Some None] is [goto top].  After the comparison
    the entry is read again through the saved pointer [dk]; a table of
    another size at the same address would be read at a wrong offset. *)
Definition lookdict_visit (mp : Z) (key : V) (hash dk size i : Z) : DM V E (option (option found)) :=
  k ← get_dk dk;
  ix ← dictkeys_get_index k i;
  if ix =? DKIX_EMPTY then mret (Some (Some (ix, None)))
  else if 0 <=? ix then
    ep ← mlift (aget (dk_entries k) ix);
    startkey ← mlift (me_key ep);
    if bool_decide (startkey = key) then mret (Some (Some (ix, me_value ep)))
    else if me_hash ep =? hash then
      _ ← INCREF startkey;
      cmp ← mtry (RichCompareBool_EQ startkey key);
      _ ← DECREF startkey;
      match cmp with
      | inl e => mthrow e
      | inr cmp =>
          d ← get_dict mp;
          if dk =? ma_keys d then
            k ← get_dk dk;
            _ ← cassert (dk_size k =? size);
            ep ← mlift (aget (dk_entries k) ix);
            if bool_decide (me_key ep = Some startkey) then
              mret (if cmp : bool then Some (Some (ix, me_value ep)) else None)
            else mret (Some None)
          else mret (Some None)
      end
    else mret None
  else mret None.
(** [fuel] bounds how often comparisons may change the dict. *)
Fixpoint lookdict (fuel : nat) (mp : Z) (key : V) (hash : Z) : DM V E found :=
  match fuel with
  | O => mnofuel
  | S fuel =>
      d ← get_dict mp;
      k ← get_dk (ma_keys d);
      r ← probing k hash (lookdict_visit mp key hash (ma_keys d) (dk_size k));
      match r with
      | Some r => mret r
      | None => lookdict fuel mp key hash
      end
  end.

(** [memcmp(a, b, n) == 0]. *)
Definition memeq (a b : list Z) (n : Z) : bool :=
  bool_decide (take (Z.to_nat n) a = take (Z.to_nat n) b).
Definition unicode_eq (a b : V) : DM V E bool :=
  a ← mlift (PyUnicode a);
  b ← mlift (PyUnicode b);
  mret (if negb (us_length a =? us_length b) then false
        else if negb (us_kind a =? us_kind b) then false
        else memeq (us_data a) (us_data b) (us_length a * us_kind a)).
(** [ep->me_key == key || (ep->me_hash == hash && unicode_eq(ep->me_key, key))]. *)
Definition same_unicode (ep : dictentry V) (key : V) (hash : Z) : DM V E bool :=
  k ← mlift (me_key ep);
  _ ← cassert (PyUnicode_CheckExact k);
  if bool_decide (k = key) then mret true
  else if me_hash ep =? hash then unicode_eq k key else mret false.

Definition lookdict_unicode (fuel : nat) (mp : Z) (key : V) (hash : Z) : DM V E found :=
  d ← get_dict mp;
  _ ← cassert (match ma_values d with NullValues => true | _ => false end);
  if negb (PyUnicode_CheckExact key) then lookdict fuel mp key hash
  else
    k ← get_keys mp;
    probing k hash (λ i,
      ix ← dictkeys_get_index k i;
      if ix =? DKIX_EMPTY then mret (Some (DKIX_EMPTY, None))
      else if 0 <=? ix then
        ep ← mlift (aget (dk_entries k) ix);
        same ← same_unicode ep key hash;
        mret (if same : bool then Some (ix, me_value ep) else None)
      else mret None).
Definition lookdict_unicode_nodummy (fuel : nat) (mp : Z) (key : V) (hash : Z) : DM V E found :=
  d ← get_dict mp;
  _ ← cassert (match ma_values d with NullValues => true | _ => false end);
  if negb (PyUnicode_CheckExact key) then lookdict fuel mp key hash
  else
    k ← get_keys mp;
    probing k hash (λ i,
      ix ← dictkeys_get_index k i;
      _ ← cassert (negb (ix =? DKIX_DUMMY));
      if ix =? DKIX_EMPTY then mret (Some (DKIX_EMPTY, None))
      else
        ep ← mlift (aget (dk_entries k) ix);
        same ← same_unicode ep key hash;
        mret (if same : bool then Some (ix, me_value ep) else None)).

(** [mp->ma_values[ix]]; [empty_values] has one slot, which is NULL. *)
Definition values_get (vs : dictvalues V) (ix : Z) : option (option V) :=
  match vs with
  | NullValues => None
  | EmptyValues => aget [None] ix
  | SplitValues l => aget l ix
  end.
Definition lookdict_split (fuel : nat) (mp : Z) (key : V) (hash : Z) : DM V E found :=
  d ← get_dict mp;
  _ ← cassert (match ma_values d with NullValues => false | _ => true end);
  if negb (PyUnicode_CheckExact key) then
    '(ix, value) ← lookdict fuel mp key hash;
    if 0 <=? ix then
      d ← get_dict mp;
      v ← mlift (values_get (ma_values d) ix);
      mret (ix, v)
    else mret (ix, value)
  else
    k ← get_keys mp;
    probing k hash (λ i,
      ix ← dictkeys_get_index k i;
      _ ← cassert (negb (ix =? DKIX_DUMMY));
      if ix =? DKIX_EMPTY then mret (Some (DKIX_EMPTY, None))
      else
        ep ← mlift (aget (dk_entries k) ix);
        same ← same_unicode ep key hash;
        if same : bool then
          d ← get_dict mp;
          v ← mlift (values_get (ma_values d) ix);
          mret (Some (ix, v))
        else mret None).

(** [mp->ma_keys->dk_lookup(mp, key, hash, &value, ...)]. *)
Definition dk_lookup_call (fuel : nat) (mp : Z) (key : V) (hash : Z) : DM V E found :=
  k ← get_keys mp;
  match dk_lookup k with
  | Lookdict => lookdict fuel mp key hash
  | LookdictUnicode => lookdict_unicode fuel mp key hash
  | LookdictUnicodeNodummy => lookdict_unicode_nodummy fuel mp key hash
  | LookdictSplit => lookdict_split fuel mp key hash
  end.

(** ** Resizing *)

(** [while (ep->me_value == NULL) ep++]. *)
Fixpoint skip_null (fuel : nat) (l : list (dictentry V)) (ep : Z) : DM V E Z :=
  match fuel with
  | O => mnofuel
  | S fuel =>
      e ← mlift (aget l ep);
      match me_value e with None => skip_null fuel l (ep + 1) | Some _ => mret ep end
  end.
(** Copies the next [n] entries that hold a value. *)
Fixpoint copy_live (n : nat) (old : list (dictentry V)) (ep : Z) (new : list (dictentry V)) (i : Z)
    : DM V E (list (dictentry V)) :=
  match n with
  | O => mret new
  | S n =>
      ep ← skip_null (S (length old)) old ep;
      e ← mlift (aget old ep);
      new ← mlift (aset new i e);
      copy_live n old (ep + 1) new (i + 1)
  end.
(** The entries of a split table, with the values of the dict. *)
Fixpoint copy_split (n : nat) (old : list (dictentry V)) (vs : dictvalues V)
    (new : list (dictentry V)) (i : Z) : DM V E (list (dictentry V)) :=
  match n with
  | O => mret new
  | S n =>
      v ← mlift (values_get vs i);
      v ← mlift v;
      e ← mlift (aget old i);
      k ← mlift (me_key e);
      _ ← INCREF k;
      new ← mlift (aset new i (Entry (me_hash e) (Some k) (Some v)));
      copy_split n old vs new (i + 1)
  end.

Fixpoint build_indices (n : nat) (mp ix : Z) : DM V E unit :=
  match n with
  | O => mret tt
  | S n =>
      k ← get_keys mp;
      e ← mlift (aget (dk_entries k) ix);
      i ← probing k (me_hash e) (λ i,
            x ← dictkeys_get_index k i;
            mret (if x =? DKIX_EMPTY then Some i else None));
      _ ← dictkeys_set_index mp i ix;
      build_indices n mp (ix + 1)
  end.

(** Moving the entries of a dict [d] with the keys object [ok] to the table
    [nk] at [new]: a combined table, whose old block is released, ... *)
Definition move_combined (mp new : Z) (d : dictobj V) (ok nk : dictkeys V) : DM V E unit :=
  entries ←
    (if dk_nentries ok =? ma_used d then
       mlift (blit (dk_entries nk) 0 (dk_entries ok) 0 (ma_used d))
     else copy_live (Z.to_nat (ma_used d)) (dk_entries ok) 0 (dk_entries nk) 0);
  _ ← put_dk new (with_entries entries nk);
  _ ← put_dict mp (DictObj (ma_used d) new NullValues);
  _ ← cassert (negb (bool_decide (dk_lookup ok = LookdictSplit)));
  _ ← cassert (dk_refcnt ok =? 1);
  release_block (ma_keys d) (dk_size ok).
(** ... or a split one, which becomes combined. *)
Definition move_split (mp new : Z) (d : dictobj V) (ok nk : dictkeys V) : DM V E unit :=
  entries ← copy_split (Z.to_nat (ma_used d)) (dk_entries ok) (ma_values d) (dk_entries nk) 0;
  _ ← put_dk new (with_entries entries nk);
  _ ← put_dict mp (DictObj (ma_used d) new (ma_values d));
  _ ← dictkeys_decref (ma_keys d);
  d ← get_dict mp;
  put_dict mp (DictObj (ma_used d) (ma_keys d) NullValues).
Definition dictresize (mp newsize : Z) : DM V E unit :=
  if newsize <=? 0 then mraise MemoryError no_msg
  else
    _ ← cassert (IS_POWER_OF_2 newsize);
    _ ← cassert (PyDict_MINSIZE <=? newsize);
    d ← get_dict mp;
    new ← new_keys_object newsize;
    nk ← get_dk new;
    ok ← get_dk (ma_keys d);
    _ ← cassert (ma_used d <=? dk_usable nk);
    let nk := if bool_decide (dk_lookup ok = Lookdict) then with_lookup Lookdict nk else nk in
    let numentries := ma_used d in
    _ ← (match ma_values d with
         | NullValues => move_combined mp new d ok nk
         | _ => move_split mp new d ok nk
         end);
    _ ← build_indices (Z.to_nat numentries) mp 0;
    k ← get_keys mp;
    put_keys mp (with_counts (dk_usable k - numentries) numentries k).

Definition GROWTH_RATE (d : dictobj V) : Z := ma_used d * 3.
Definition insertion_resize (mp : Z) : DM V E unit :=
  d ← get_dict mp; dictresize mp (calculate_keysize (GROWTH_RATE d)).

(** ** Insertion *)

Definition is_null (vs : dictvalues V) : bool := match vs with NullValues => true | _ => false end.

(** The three counters after an entry has been added. *)
Definition count_entry (mp : Z) : DM V E unit :=
  d ← get_dict mp;
  _ ← put_dict mp (DictObj (ma_used d + 1) (ma_keys d) (ma_values d));
  k ← get_keys mp;
  _ ← put_keys mp (with_counts (dk_usable k - 1) (dk_nentries k + 1) k);
  cassert (0 <=? dk_usable k - 1).
(** [if (!PyUnicode_CheckExact(key) && ...->dk_lookup != lookdict)]. *)
Definition allow_key (mp : Z) (key : V) : DM V E unit :=
  k ← get_keys mp;
  if negb (PyUnicode_CheckExact key) && negb (bool_decide (dk_lookup k = Lookdict))
  then put_keys mp (with_lookup Lookdict k) else mret tt.
(** The entry [ep] of a new item, and the counters. *)
Definition write_new_entry (mp : Z) (key : V) (hash : Z) (value : V) (ep : Z) : DM V E unit :=
  e ← get_entry mp ep;
  d ← get_dict mp;
  _ ← (match ma_values d with
       | NullValues => put_entry mp ep (Entry hash (Some key) (Some value))
       | SplitValues vs =>
           _ ← put_entry mp ep (Entry hash (Some key) (me_value e));
           v ← mlift (aget vs ep);
           _ ← cassert (bool_decide (v = None));
           vs ← mlift (aset vs ep (Some value));
           put_dict mp (DictObj (ma_used d) (ma_keys d) (SplitValues vs))
       | EmptyValues => mstuck
       end);
  count_entry mp.
(** Into a new slot, of a table with room. *)
Definition insert_new_entry (mp : Z) (key : V) (hash : Z) (value : V) : DM V E unit :=
  _ ← allow_key mp key;
  k ← get_keys mp;
  hashpos ← find_empty_slot k hash;
  let ep := dk_nentries k in
  _ ← dictkeys_set_index mp hashpos ep;
  write_new_entry mp key hash value ep.

Definition insertdict_found (mp : Z) (key : V) (ix : Z) (old_value : option V) (value : V)
    : DM V E unit :=
  _ ← (if bool_decide (old_value = Some value) then mret tt
       else
         _ ← cassert (negb (bool_decide (old_value = None)));
         e ← get_entry mp ix;
         put_entry mp ix (Entry (me_hash e) (me_key e) (Some value)));
  _ ← XDECREF old_value;
  DECREF key.
Definition insertdict (fuel : nat) (mp : Z) (key : V) (hash : Z) (value : V) : DM V E unit :=
  _ ← INCREF key;
  _ ← INCREF value;
  d ← get_dict mp;
  r ← mtry (
    _ ← (if negb (is_null (ma_values d)) && negb (PyUnicode_CheckExact key)
         then insertion_resize mp else mret tt);
    '(ix, old_value) ← dk_lookup_call fuel mp key hash;
    _ ← (if ix =? DKIX_EMPTY then
           _ ← cassert (bool_decide (old_value = None));
           k ← get_keys mp;
           if dk_usable k <=? 0 then insertion_resize mp else mret tt
         else mret tt);
    mret (ix, old_value));
  match r with
  | inl e => _ ← DECREF value; _ ← DECREF key; mthrow e
  | inr (ix, old_value) =>
      if ix =? DKIX_EMPTY then insert_new_entry mp key hash value
      else insertdict_found mp key ix old_value value
  end.

(** For a dict that still has [Py_EMPTY_KEYS]. *)
Definition insert_to_emptydict (mp : Z) (key : V) (hash : Z) (value : V) : DM V E unit :=
  d ← get_dict mp;
  _ ← cassert (ma_keys d =? Py_EMPTY_KEYS);
  newkeys ← new_keys_object PyDict_MINSIZE;
  _ ← dictkeys_decref Py_EMPTY_KEYS;
  _ ← put_dict mp (DictObj (ma_used d) newkeys NullValues);
  _ ← (if negb (PyUnicode_CheckExact key) then
         k ← get_keys mp; put_keys mp (with_lookup Lookdict k)
       else mret tt);
  _ ← INCREF key;
  _ ← INCREF value;
  let hashpos := Z.land (size_t hash) (PyDict_MINSIZE - 1) in
  _ ← dictkeys_set_index mp hashpos 0;
  _ ← put_entry mp 0 (Entry hash (Some key) (Some value));
  d ← get_dict mp;
  _ ← put_dict mp (DictObj (ma_used d + 1) (ma_keys d) (ma_values d));
  k ← get_keys mp;
  put_keys mp (with_counts (dk_usable k - 1) (dk_nentries k + 1) k).
(** [if (mp->ma_keys == Py_EMPTY_KEYS) ...], the end of every store. *)
Definition store_item (fuel : nat) (mp : Z) (key : V) (hash : Z) (value : V) : DM V E unit :=
  d ← get_dict mp;
  if ma_keys d =? Py_EMPTY_KEYS then insert_to_emptydict mp key hash value
  else insertdict fuel mp key hash value.
Definition Ci_CheckedDict_SetItem (fuel : nat) (mp : Z) (key value : V) : DM V E unit :=
  hash ← key_hash key; store_item fuel mp key hash value.

(** ** Deletion *)

Definition ENSURE_ALLOWS_DELETIONS (mp : Z) : DM V E unit :=
  k ← get_keys mp;
  if bool_decide (dk_lookup k = LookdictUnicodeNodummy)
  then put_keys mp (with_lookup LookdictUnicode k) else mret tt.
(** Takes entry [ix] out of the table; gives its key. *)
Definition remove_entry (mp hash ix : Z) : DM V E V :=
  k ← get_keys mp;
  hashpos ← lookdict_index k hash ix;
  _ ← cassert (0 <=? hashpos);
  d ← get_dict mp;
  _ ← put_dict mp (DictObj (ma_used d - 1) (ma_keys d) (ma_values d));
  _ ← dictkeys_set_index mp hashpos DKIX_DUMMY;
  ep ← get_entry mp ix;
  _ ← ENSURE_ALLOWS_DELETIONS mp;
  _ ← put_entry mp ix (Entry (me_hash ep) None None);
  mlift (me_key ep).
Definition Ci_CheckedDict_Pop_KnownHash (fuel : nat) (mp : Z) (key : V) (hash : Z)
    (deflt : option V) : DM V E V :=
  let missing := match deflt with
                 | Some v => _ ← INCREF v; mret v
                 | None => mraise KeyError no_msg
                 end in
  d ← get_dict mp;
  if ma_used d =? 0 then missing
  else
    '(ix, old_value) ← dk_lookup_call fuel mp key hash;
    match old_value with
    | Some v =>
        if ix =? DKIX_EMPTY then missing
        else
          old_key ← remove_entry mp hash ix;
          _ ← DECREF old_key;
          mret v
    | None => missing
    end.
Definition Ci_CheckedDict_Pop (fuel : nat) (mp : Z) (key : V) (deflt : option V) : DM V E V :=
  d ← get_dict mp;
  if ma_used d =? 0 then
    match deflt with
    | Some v => _ ← INCREF v; mret v
    | None => mraise KeyError no_msg
    end
  else
    hash ← key_hash key;
    Ci_CheckedDict_Pop_KnownHash fuel mp key hash deflt.

(** [while (i >= 0 && ep0[i].me_value == NULL) i--]. *)
Fixpoint last_live (fuel : nat) (l : list (dictentry V)) (i : Z) : DM V E Z :=
  match fuel with
  | O => mnofuel
  | S fuel =>
      if 0 <=? i then
        e ← mlift (aget l i);
        match me_value e with None => last_live fuel l (i - 1) | Some _ => mret i end
      else mret i
  end.
Definition dict_popitem_impl (mp : Z) : DM V E (V * V) :=
  res ← PyObject_GC_New;
  match res with
  | None => mraise MemoryError no_msg
  | Some _ =>
      d ← get_dict mp;
      if ma_used d =? 0 then mraise KeyError "popitem(): dictionary is empty"
      else
        k ← get_keys mp;
        _ ← (if bool_decide (dk_lookup k = LookdictSplit) then dictresize mp (dk_size k)
             else mret tt);
        _ ← ENSURE_ALLOWS_DELETIONS mp;
        k ← get_keys mp;
        i ← last_live (S (length (dk_entries k))) (dk_entries k) (dk_nentries k - 1);
        _ ← cassert (0 <=? i);
        ep ← get_entry mp i;
        j ← lookdict_index k (me_hash ep) i;
        _ ← cassert (0 <=? j);
        ix ← dictkeys_get_index k j;
        _ ← cassert (ix =? i);
        _ ← dictkeys_set_index mp j DKIX_DUMMY;
        _ ← put_entry mp i (Entry (me_hash ep) None None);
        k ← get_keys mp;
        _ ← put_keys mp (with_counts (dk_usable k) i k);
        d ← get_dict mp;
        _ ← put_dict mp (DictObj (ma_used d - 1) (ma_keys d) (ma_values d));
        old_key ← mlift (me_key ep);
        old_value ← mlift (me_value ep);
        mret (old_key, old_value)
  end.

(** [for (i = 0; i < n; i++) Py_CLEAR(oldvalues[i])]. *)
Fixpoint clear_values (vs : list (option V)) : DM V E unit :=
  match vs with
  | [] => mret tt
  | v :: vs => _ ← XDECREF v; clear_values vs
  end.
Definition Ci_CheckedDict_Clear (mp : Z) : DM V E unit :=
  d ← get_dict mp;
  let oldkeys := ma_keys d in
  match ma_values d with
  | EmptyValues => mret tt
  | oldvalues =>
      _ ← dictkeys_incref Py_EMPTY_KEYS;
      _ ← put_dict mp (DictObj 0 Py_EMPTY_KEYS EmptyValues);
      match oldvalues with
      | SplitValues vs =>
          k ← get_dk oldkeys;
          _ ← clear_values (take (Z.to_nat (dk_nentries k)) vs);
          dictkeys_decref oldkeys
      | _ =>
          k ← get_dk oldkeys;
          _ ← cassert (dk_refcnt k =? 1);
          dictkeys_decref oldkeys
      end
  end.
End table.
