(* ===== verification/DictTable.v ===== *)
(** * Index tables

    The table [dk_indices] seen as a relation between entry numbers and their
    hashes, kept by writing one slot; what the probing loops find in it. *)

From stdpp Require Import base list gmap numbers.
From Stdlib Require Import Morphisms.
From S2P Require Import Prelude DictProbe DictObject DictCore.

(** ** Index tables *)

(** The index at step [n] of the probe sequence of [h]. *)
Definition idx_at (size : Z) (inds : list Z) (h : Z) (n : nat) : option Z :=
  aget inds (probe_slot (size - 1) h n).
(** The probe sequence reaches entry [ix] before an empty slot. *)
Definition reaches (size : Z) (inds : list Z) (h ix : Z) : Prop :=
  ∃ n, idx_at size inds h n = Some ix ∧ ∀ m, (m < n)%nat -> idx_at size inds h m ≠ Some DKIX_EMPTY.
(** Slots that are not empty. *)
Definition filled (inds : list Z) : Z := Zlen (filter (λ ix, ix ≠ DKIX_EMPTY) inds).

(** [hs ix] is the hash of entry [ix], if there is one. *)
Record index_ok (size : Z) (inds : list Z) (hs : Z -> option Z) : Prop := {
  ik_len : Zlen inds = size;
  ik_values : ∀ j ix, aget inds j = Some ix ->
    ix = DKIX_EMPTY ∨ ix = DKIX_DUMMY ∨ (0 <= ix ∧ is_Some (hs ix));
  ik_unique : ∀ j1 j2 ix, aget inds j1 = Some ix -> aget inds j2 = Some ix -> 0 <= ix -> j1 = j2;
  ik_reach : ∀ ix h, hs ix = Some h -> 0 <= ix ∧ reaches size inds h ix
}.

#[export] Instance index_ok_proper size inds :
  Proper (pointwise_relation Z eq ==> iff) (index_ok size inds).
Proof.
  assert (∀ hs hs', pointwise_relation Z eq hs hs' -> index_ok size inds hs -> index_ok size inds hs').
  { intros hs hs' Heq [Hl Hv Hu Hr]. split; [done| |done|].
    - intros j ix Hj. rewrite <- Heq. eauto.
    - intros ix h. rewrite <- Heq. eauto. }
  intros hs hs' Heq. split; [eauto|]. apply H. by symmetry.
Qed.

(** A change of the entries that keeps their hashes. *)
Lemma index_ok_ext size inds hs hs' :
  (∀ ix, hs ix = hs' ix) -> index_ok size inds hs -> index_ok size inds hs'.
Proof. intros Heq. assert (pointwise_relation Z eq hs hs') as -> by done. done. Qed.

Lemma filled_cons x l : filled (x :: l) = filled l + (if decide (x = DKIX_EMPTY) then 0 else 1).
Proof. unfold filled. rewrite filter_cons. repeat case_decide; try done; zlia. Qed.
Lemma filled_app l k : filled (l ++ k) = filled l + filled k.
Proof. induction l as [|x l IH]; [done|]. simpl. rewrite !filled_cons, IH. lia. Qed.
Lemma filled_replicate n : filled (replicate n DKIX_EMPTY) = 0.
Proof. induction n as [|n IH]; [done|]. simpl replicate. by rewrite filled_cons, IH. Qed.
(** Writing a slot. *)
Lemma filled_insert l i y x :
  aget l i = Some y ->
  filled (<[Z.to_nat i := x]> l) =
    filled l - (if decide (y = DKIX_EMPTY) then 0 else 1) + (if decide (x = DKIX_EMPTY) then 0 else 1).
Proof.
  intros (l1 & l2 & -> & ->)%aget_split. unfold Zlen. rewrite Nat2Z.id.
  rewrite insert_app_r_alt, Nat.sub_diag by done. simpl.
  rewrite !filled_app, !filled_cons. lia.
Qed.
(** A table that is not full has an empty slot. *)
Lemma filled_lt l : filled l < Zlen l -> ∃ j, aget l j = Some DKIX_EMPTY.
Proof.
  intros H. apply elem_aget. induction l as [|x l IH]; [done|].
  rewrite filled_cons, Zlen_cons in H. case_decide as Hx; [subst; apply list_elem_of_here|].
  apply list_elem_of_further, IH. lia.
Qed.

Section index.
Context (size : Z) (Hsize : table_size size).

Lemma mask_pow : ∃ k, 0 <= k <= 63 ∧ size = 2 ^ k.
Proof. destruct Hsize as (k & Hk & ->). exists k. split; [lia|done]. Qed.
Lemma slot_bounds h n : 0 <= probe_slot (size - 1) h n < size.
Proof. destruct mask_pow as (k & Hk & ->). by apply probe_slot_bounds. Qed.
Lemma slot_complete h j :
  0 <= j < size -> ∃ n, (n < probe_bound size)%nat ∧ probe_slot (size - 1) h n = j.
Proof. destruct mask_pow as (k & Hk & ->). by apply probe_complete. Qed.

Lemma idx_at_some inds h n : Zlen inds = size -> ∃ ix, idx_at size inds h n = Some ix.
Proof. intros Hl. apply aget_lt. rewrite Hl. apply slot_bounds. Qed.

Lemma index_ok_empty : index_ok size (replicate (Z.to_nat size) DKIX_EMPTY) (λ _, None).
Proof.
  pose proof (table_size_bounds _ Hsize). split; [zlia| | |done].
  - intros j ix Hj%aget_replicate. auto.
  - intros j1 j2 ix H1%aget_replicate. subst. unfold DKIX_EMPTY. lia.
Qed.

(** Entering an entry at the first slot of its path that holds no entry. *)
Lemma index_ok_insert inds hs h n ix y inds' :
  index_ok size inds hs -> hs ix = None -> 0 <= ix ->
  idx_at size inds h n = Some y -> y < 0 ->
  (∀ m, (m < n)%nat -> ∃ z, idx_at size inds h m = Some z ∧ 0 <= z) ->
  aset inds (probe_slot (size - 1) h n) ix = Some inds' ->
  index_ok size inds' (λ i, if decide (i = ix) then Some h else hs i).
Proof.
  intros [Hl Hv Hu Hr] Hnew Hix Hy Hneg Hpath [Hs ->]%aset_Some_inv.
  set (s := probe_slot (size - 1) h n) in *. change (aget inds s = Some y) in Hy.
  assert (Hno : ∀ j, aget inds j ≠ Some ix).
  { intros j Hj. destruct (Hv _ _ Hj) as [?|[?|[_ [? ?]]]]; [unfold DKIX_EMPTY in *; lia|unfold DKIX_DUMMY in *; lia|congruence]. }
  split.
  - by rewrite Zlen_insert.
  - intros j i. rewrite aget_insert by done. case_decide.
    + intros [= <-]. right. right. rewrite decide_True by done. eauto.
    + intros Hj. destruct (Hv _ _ Hj) as [?|[?|[? ?]]]; auto. right. right. case_decide; eauto.
  - intros j1 j2 i. rewrite !aget_insert by done. repeat case_decide; try congruence; eauto.
  - intros i h'. case_decide as Hi.
    + intros [= <-]. subst i. split; [done|]. exists n. unfold idx_at. fold s.
      rewrite aget_insert, decide_True by done. split; [done|].
      intros m Hm. rewrite aget_insert by done. case_decide; [intros [= ?]; unfold DKIX_EMPTY in *; lia|].
      destruct (Hpath m Hm) as (z & Hz & ?). unfold idx_at in Hz. rewrite Hz.
      intros [= ?]. unfold DKIX_EMPTY in *. lia.
    + intros Hh. destruct (Hr _ _ Hh) as (? & n' & Hn' & Hp). split; [done|].
      exists n'. unfold idx_at in *. rewrite aget_insert by done. split.
      * rewrite decide_False; [done|]. intros He. rewrite He in Hn'. rewrite Hy in Hn'.
        injection Hn' as ->. lia.
      * intros m Hm. rewrite aget_insert by done. case_decide; [intros [= ?]; unfold DKIX_EMPTY in *; lia|]. auto.
Qed.

(** Taking an entry out leaves a dummy. *)
Lemma index_ok_delete inds hs j ix inds' :
  index_ok size inds hs -> aget inds j = Some ix -> 0 <= ix ->
  aset inds j DKIX_DUMMY = Some inds' ->
  index_ok size inds' (λ i, if decide (i = ix) then None else hs i).
Proof.
  intros [Hl Hv Hu Hr] Hj Hix [Hs ->]%aset_Some_inv. split.
  - by rewrite Zlen_insert.
  - intros j' i. rewrite aget_insert by done. case_decide; [intros [= <-]; auto|].
    intros Hj'. destruct (Hv _ _ Hj') as [?|[?|[? ?]]]; auto. right. right.
    rewrite decide_False; [done|]. intros ->. apply H. eauto.
  - intros j1 j2 i. rewrite !aget_insert by done. repeat case_decide; try congruence; eauto.
    + intros [= <-]. unfold DKIX_DUMMY. lia.
    + intros _ [= <-]. unfold DKIX_DUMMY. lia.
  - intros i h. case_decide; [done|]. intros Hh. destruct (Hr _ _ Hh) as (? & n & Hn & Hp).
    split; [done|]. exists n. unfold idx_at in *. rewrite aget_insert by done. split.
    + rewrite decide_False; [done|]. intros He. rewrite He in Hn. congruence.
    + intros m Hm. rewrite aget_insert by done. case_decide; [done|]. auto.
Qed.
End index.

(** ** What the probing loop does *)
Section loops.
Context {V E : Type} {api : DictApi V E}.
Implicit Types s : dheap V E.

(** The invariant [I n] holds before the [n]th slot is visited; it cannot
    hold once every slot has been. *)
Lemma probe_loop_wp {nf A} mask h bound (visit : Z -> DM V E (option A))
    (I : nat -> dheap V E -> Prop) Q X :
  (∀ n s, I n s -> wpo nf (visit (probe_slot mask h n))
     (λ r s', match r with Some a => Q a s' | None => I (S n) s' end) X s) ->
  (∀ s, ¬ I bound s) ->
  ∀ fuel n s, (n <= bound)%nat -> (bound < n + fuel)%nat -> I n s ->
  wpo nf (probe_loop fuel mask visit (probe mask h n).1 (probe mask h n).2) Q X s.
Proof.
  intros Hstep Hend fuel. induction fuel as [|fuel IH]; intros n s Hn Hf HI; [lia|].
  cbn [probe_loop]. eapply wp_bind_use; [by apply Hstep| |done].
  intros [a|] s' H; [by apply wp_ret|].
  destruct (decide (n = bound)) as [->|]; [by destruct (Hend s)|].
  assert (Hnext : probe mask h (S n) = probe_next mask (probe mask h n)) by apply probe_S.
  destruct (probe mask h n) as [i p]. cbv zeta. specialize (IH (S n) s').
  rewrite Hnext in IH. apply IH; [lia|lia|done].
Qed.
Lemma probing_wp {nf A} (k : dictkeys V) h (visit : Z -> DM V E (option A))
    (I : nat -> dheap V E -> Prop) Q X s :
  (∀ n s, I n s -> wpo nf (visit (probe_slot (dk_size k - 1) h n))
     (λ r s', match r with Some a => Q a s' | None => I (S n) s' end) X s) ->
  (∀ s, ¬ I (probe_bound (dk_size k)) s) -> I 0%nat s ->
  wpo nf (probing k h visit) Q X s.
Proof.
  intros Hstep Hend HI. unfold probing, DK_MASK.
  apply (probe_loop_wp (dk_size k - 1) h (probe_bound (dk_size k)) visit I Q X Hstep Hend _ 0%nat);
    [lia|lia|done].
Qed.

(** A visit that only looks at the index [f] stops at the first slot where
    [f] answers. *)
Lemma probing_first {A} (k : dictkeys V) h (visit : Z -> DM V E (option A)) f s :
  table_size (dk_size k) -> Zlen (dk_indices k) = dk_size k ->
  (∀ j ix, aget (dk_indices k) j = Some ix -> visit j s = Ret (f j ix) s) ->
  (∃ j ix a, aget (dk_indices k) j = Some ix ∧ f j ix = Some a) ->
  ∃ n ix a, probing k h visit s = Ret a s ∧
    idx_at (dk_size k) (dk_indices k) h n = Some ix ∧ f (probe_slot (dk_size k - 1) h n) ix = Some a ∧
    ∀ m, (m < n)%nat -> ∃ z, idx_at (dk_size k) (dk_indices k) h m = Some z ∧
      f (probe_slot (dk_size k - 1) h m) z = None.
Proof.
  intros Hs Hl Hvisit (j & ix0 & a0 & Hj & Hf).
  set (stops n a := ∃ ix, idx_at (dk_size k) (dk_indices k) h n = Some ix ∧
    f (probe_slot (dk_size k - 1) h n) ix = Some a ∧
    ∀ m, (m < n)%nat -> ∃ z, idx_at (dk_size k) (dk_indices k) h m = Some z ∧
      f (probe_slot (dk_size k - 1) h m) z = None).
  assert (Hwp : wp (probing k h visit) (λ a s', s' = s ∧ ∃ n, stops n a) (λ _ _, False) s).
  { apply (probing_wp k h visit (λ n s', s' = s ∧ ∀ m, (m < n)%nat ->
      ∃ z, idx_at (dk_size k) (dk_indices k) h m = Some z ∧ f (probe_slot (dk_size k - 1) h m) z = None)).
    - intros n s' [-> Hpre]. destruct (idx_at_some _ Hs (dk_indices k) h n Hl) as [ix Hix].
      unfold wpo. rewrite (Hvisit _ _ Hix). destruct (f _ ix) as [a|] eqn:Ha.
      + split; [done|]. exists n, ix. eauto.
      + split; [done|]. intros m Hm. destruct (decide (m = n)) as [->|]; [eauto|]. apply Hpre. lia.
    - intros s' [-> Hpre]. apply aget_Some in Hj as Hb. rewrite Hl in Hb.
      destruct (slot_complete _ Hs h j Hb) as (n & Hn & Heq). destruct (Hpre n Hn) as (z & Hz & Hnone).
      unfold idx_at in Hz. rewrite Heq in *. congruence.
    - split; [done|]. intros m Hm. lia. }
  apply wp_outcome in Hwp as [(a & s' & Heq & -> & n & ix & ?)|(e & s' & _ & [])].
  exists n, ix, a. naive_solver.
Qed.

Lemma get_index_run (k : dictkeys V) j ix s :
  aget (dk_indices k) j = Some ix -> DKIX_DUMMY <= ix -> dictkeys_get_index k j s = Ret ix s.
Proof.
  intros Hj Hix. unfold dictkeys_get_index. rewrite Hj. unfold mlift.
  run_step; [done|]. cbv beta. unfold cassert. rewrite (proj2 (Z.leb_le _ _) Hix). done.
Qed.
Lemma index_ok_ge size inds hs j ix :
  index_ok size inds hs -> aget inds j = Some ix -> DKIX_DUMMY <= ix.
Proof.
  intros Hok Hj. destruct (ik_values _ _ _ Hok _ _ Hj) as [->|[->|[? _]]];
    unfold DKIX_DUMMY, DKIX_EMPTY in *; lia.
Qed.

Context (k : dictkeys V) (hs : Z -> option Z).
Context (Hsize : table_size (dk_size k)) (Hok : index_ok (dk_size k) (dk_indices k) hs).

(** The slot of an entry is found from its hash. *)
Lemma lookdict_index_run h ix s :
  0 <= ix -> reaches (dk_size k) (dk_indices k) h ix ->
  ∃ j, lookdict_index k h ix s = Ret j s ∧ aget (dk_indices k) j = Some ix.
Proof.
  intros Hix (n0 & Hn0 & Hclear).
  set (f (i x : Z) := if x =? ix then Some i else if x =? DKIX_EMPTY then Some DKIX_EMPTY else None).
  destruct (probing_first k h (λ i, x ← dictkeys_get_index k i;
      mret (if x =? ix then Some i else if x =? DKIX_EMPTY then Some DKIX_EMPTY else None)) f s)
    as (n & x & a & Hrun & Hx & Ha & Hpre); [done|apply Hok| | |].
  - intros j x Hj. run_step; [apply get_index_run; [done|eapply index_ok_ge; eauto]|done].
  - eexists _, ix, _. split; [exact Hn0|]. unfold f. by rewrite Z.eqb_refl.
  - assert (n <= n0)%nat.
    { destruct (decide (n <= n0)%nat) as [|Hgt]; [done|].
      destruct (Hpre n0 ltac:(lia)) as (z & Hz & Hf). rewrite Hn0 in Hz. injection Hz as <-.
      unfold f in Hf. by rewrite Z.eqb_refl in Hf. }
    unfold f in Ha. destruct (x =? ix) eqn:Heq; bool_to_prop.
    + injection Ha as <-. subst x. eauto.
    + destruct (x =? DKIX_EMPTY) eqn:He; bool_to_prop; [|done]. subst x.
      destruct (decide (n = n0)) as [->|]; [congruence|]. destruct (Hclear n ltac:(lia)). done.
Qed.

(** An insertion finds a free slot on the path of its hash. *)
Lemma find_empty_slot_run h s :
  filled (dk_indices k) < dk_size k ->
  ∃ n y, find_empty_slot k h s = Ret (probe_slot (dk_size k - 1) h n) s ∧
    idx_at (dk_size k) (dk_indices k) h n = Some y ∧ y < 0 ∧
    ∀ m, (m < n)%nat -> ∃ z, idx_at (dk_size k) (dk_indices k) h m = Some z ∧ 0 <= z.
Proof.
  intros Hfree. destruct (filled_lt (dk_indices k)) as [j Hj]; [by rewrite (ik_len _ _ _ Hok)|].
  destruct (probing_first k h (λ i, ix ← dictkeys_get_index k i; mret (if 0 <=? ix then None else Some i))
      (λ i ix, if 0 <=? ix then None else Some i) s) as (n & y & a & Hrun & Hy & Ha & Hpre); [done|apply Hok| | |].
  - intros j' x Hj'. run_step; [apply get_index_run; [done|eapply index_ok_ge; eauto]|done].
  - by exists j, DKIX_EMPTY, j.
  - destruct (0 <=? y) eqn:Hneg; [done|]. bool_to_prop. injection Ha as <-. exists n, y.
    split_and!; [done|done|done|]. intros m Hm. destruct (Hpre m Hm) as (z & Hz & Hf).
    exists z. split; [done|]. destruct (0 <=? z) eqn:Hz0; by bool_to_prop.
Qed.
(** The same for the loop of [build_indices], in a table without dummies. *)
Lemma build_slot_run h s :
  filled (dk_indices k) < dk_size k -> (∀ j, aget (dk_indices k) j ≠ Some DKIX_DUMMY) ->
  ∃ n, probing k h (λ i, x ← dictkeys_get_index k i; mret (if x =? DKIX_EMPTY then Some i else None)) s
      = Ret (probe_slot (dk_size k - 1) h n) s ∧
    idx_at (dk_size k) (dk_indices k) h n = Some DKIX_EMPTY ∧
    ∀ m, (m < n)%nat -> ∃ z, idx_at (dk_size k) (dk_indices k) h m = Some z ∧ 0 <= z.
Proof.
  intros Hfree Hnd. destruct (filled_lt (dk_indices k)) as [j Hj]; [by rewrite (ik_len _ _ _ Hok)|].
  destruct (probing_first k h (λ i, x ← dictkeys_get_index k i; mret (if x =? DKIX_EMPTY then Some i else None))
      (λ i x, if x =? DKIX_EMPTY then Some i else None) s) as (n & y & a & Hrun & Hy & Ha & Hpre); [done|apply Hok| | |].
  - intros j' x Hj'. run_step; [apply get_index_run; [done|eapply index_ok_ge; eauto]|done].
  - by exists j, DKIX_EMPTY, j.
  - destruct (y =? DKIX_EMPTY) eqn:He; [|done]. bool_to_prop. subst y. injection Ha as <-. exists n.
    split_and!; [done|done|]. intros m Hm. destruct (Hpre m Hm) as (z & Hz & Hf). exists z. split; [done|].
    destruct (ik_values _ _ _ Hok _ _ Hz) as [->|[->|[? _]]]; [done|by destruct (Hnd _ Hz)|done].
Qed.
End loops.
