(* ===== verification/DictWf.v ===== *)
(** * Well-formed hash tables

    The invariant of a checked dict, what a table holds, and the steps that
    work on one table: storing into a free slot, taking an entry out. *)

From stdpp Require Import base list gmap numbers strings.
From S2P Require Import Prelude DictProbe DictObject DictCore DictTable.

Section wf.
Context {V E : Type} {api : DictApi V E} `{EqDecision V}.

(** ** What a table holds *)

Definition entry_hash (e : dictentry V) : option Z := (λ _, me_hash e) <$> me_key e.
Definition hashes (k : dictkeys V) (ix : Z) : option Z := aget (dk_entries k) ix ≫= entry_hash.
(** An entry with its hash, its key and its value. *)
Definition entry_item (e : dictentry V) : option (Z * V * V) :=
  key ← me_key e; value ← me_value e; Some (me_hash e, key, value).
Definition entry_items (l : list (dictentry V)) : list (Z * V * V) := omap entry_item l.
Definition items (k : dictkeys V) : list (Z * V * V) := entry_items (dk_entries k).

Definition unicode_keys (k : dictkeys V) : Prop :=
  ∀ ix e key, aget (dk_entries k) ix = Some e -> me_key e = Some key -> PyUnicode_CheckExact key = true.
(** Each lookup function makes its own assumptions on the table. *)
Definition lookup_ok (k : dictkeys V) : Prop :=
  match dk_lookup k with
  | Lookdict => True
  | LookdictUnicode => unicode_keys k
  | LookdictUnicodeNodummy => unicode_keys k ∧ ∀ j, aget (dk_indices k) j ≠ Some DKIX_DUMMY
  | LookdictSplit => False
  end.
(** Key and value come together, and only below [dk_nentries]. *)
Definition entries_ok (k : dictkeys V) : Prop :=
  ∀ i e, aget (dk_entries k) i = Some e ->
    (is_Some (me_key e) <-> is_Some (me_value e)) ∧ (dk_nentries k <= i -> me_key e = None).

Record keys_wf (k : dictkeys V) : Prop := {
  kw_refcnt : dk_refcnt k = 1;
  kw_size : table_size (dk_size k);
  kw_entries : Zlen (dk_entries k) = USABLE_FRACTION (dk_size k);
  kw_usable : 0 <= dk_usable k;
  kw_nentries : 0 <= dk_nentries k;
  kw_room : dk_nentries k + dk_usable k <= USABLE_FRACTION (dk_size k);
  kw_filled : filled (dk_indices k) + dk_usable k <= USABLE_FRACTION (dk_size k);
  kw_pairs : entries_ok k;
  kw_index : index_ok (dk_size k) (dk_indices k) (hashes k);
  kw_lookup : lookup_ok k
}.
(** A dict with a table of its own. *)
Record table_wf (d : dictobj V) (k : dictkeys V) : Prop := {
  tw_own : ma_keys d ≠ Py_EMPTY_KEYS;
  tw_combined : ma_values d = NullValues;
  tw_keys : keys_wf k;
  tw_used : ma_used d = Zlen (items k)
}.
(** A dict without one. *)
Record empty_wf (d : dictobj V) (k : dictkeys V) : Prop := {
  ew_dict : d = DictObj 0 Py_EMPTY_KEYS EmptyValues;
  ew_keys : k = empty_keys_struct (dk_refcnt k)
}.
Definition dict_wf (d : dictobj V) (k : dictkeys V) : Prop := empty_wf d k ∨ table_wf d k.

(** ** A dict and its keys object inside the heap *)

Definition upd (mp : Z) (d : dictobj V) (k : dictkeys V) (h : dheap V E) : dheap V E :=
  DHeap (<[mp := d]> (dicts h)) (<[ma_keys d := k]> (keys h)) (dstate h) (refs h) (world h).
Definition has_dict (h : dheap V E) (mp : Z) (d : dictobj V) (k : dictkeys V) : Prop :=
  dicts h !! mp = Some d ∧ keys h !! ma_keys d = Some k.

Lemma upd_id h mp d k : has_dict h mp d k -> upd mp d k h = h.
Proof.
  intros [Hd Hk]. unfold upd. rewrite !insert_id by done. by destruct h.
Qed.
Lemma has_dict_upd h mp d k : has_dict (upd mp d k h) mp d k.
Proof. split; simpl; by rewrite lookup_insert_eq. Qed.
Lemma upd_upd mp d k d' k' h : ma_keys d' = ma_keys d -> upd mp d' k' (upd mp d k h) = upd mp d' k' h.
Proof. intros Heq. unfold upd. simpl. by rewrite Heq, !insert_insert_eq. Qed.
Lemma add_ref_upd mp d k h ev : add_ref ev (upd mp d k h) = upd mp d k (add_ref ev h).
Proof. done. Qed.

Section runs.
Context (mp : Z) (h : dheap V E).
Implicit Types (d : dictobj V) (k : dictkeys V).

Lemma get_dict_run d k : get_dict mp (upd mp d k h) = Ret d (upd mp d k h).
Proof. unfold get_dict. run_step; [done|]. simpl. by rewrite lookup_insert_eq. Qed.
Lemma put_dict_run d k d' :
  ma_keys d' = ma_keys d -> put_dict mp d' (upd mp d k h) = Ret tt (upd mp d' k h).
Proof.
  intros Heq. unfold put_dict. run_step; [done|]. cbv beta. simpl dicts.
  rewrite lookup_insert_eq. run_step; [done|].
  unfold mput, upd, set_dicts. simpl. by rewrite insert_insert_eq, Heq.
Qed.
Lemma get_keys_run d k : get_keys mp (upd mp d k h) = Ret k (upd mp d k h).
Proof.
  unfold get_keys. run_step; [apply get_dict_run|]. unfold get_dk. run_step; [done|].
  simpl. by rewrite lookup_insert_eq.
Qed.
Lemma put_keys_run d k k' : put_keys mp k' (upd mp d k h) = Ret tt (upd mp d k' h).
Proof.
  unfold put_keys. run_step; [apply get_dict_run|]. unfold put_dk. run_step; [done|]. cbv beta. simpl keys.
  rewrite lookup_insert_eq. run_step; [done|].
  unfold mput, upd, set_keys. simpl. by rewrite insert_insert_eq.
Qed.
Lemma get_dk_run d k : get_dk (ma_keys d) (upd mp d k h) = Ret k (upd mp d k h).
Proof. unfold get_dk. run_step; [done|]. simpl. by rewrite lookup_insert_eq. Qed.
Lemma get_entry_run d k ix e :
  aget (dk_entries k) ix = Some e -> get_entry mp ix (upd mp d k h) = Ret e (upd mp d k h).
Proof. intros He. unfold get_entry. run_step; [apply get_keys_run|]. cbv beta. by rewrite He. Qed.
Lemma put_entry_run d k ix e :
  0 <= ix < Zlen (dk_entries k) ->
  put_entry mp ix e (upd mp d k h) =
    Ret tt (upd mp d (with_entries (<[Z.to_nat ix := e]> (dk_entries k)) k) h).
Proof.
  intros Hix. unfold put_entry. run_step; [apply get_keys_run|]. cbv beta.
  rewrite aset_lt by done. run_step; [done|]. apply put_keys_run.
Qed.
Lemma set_index_run d k i ix :
  0 <= i < Zlen (dk_indices k) -> DKIX_DUMMY <= ix -> ix <= index_max (dk_size k) ->
  dictkeys_set_index mp i ix (upd mp d k h) =
    Ret tt (upd mp d (with_indices (<[Z.to_nat i := ix]> (dk_indices k)) k) h).
Proof.
  intros Hi Hlo Hhi. unfold dictkeys_set_index. run_step; [apply get_keys_run|]. cbv beta.
  run_step; [unfold cassert; by rewrite (proj2 (Z.leb_le _ _) Hlo)|].
  run_step; [unfold cassert; by rewrite (proj2 (Z.leb_le _ _) Hhi)|].
  rewrite aset_lt by done. run_step; [done|]. apply put_keys_run.
Qed.
Lemma count_entry_run d k :
  0 < dk_usable k ->
  count_entry mp (upd mp d k h) =
    Ret tt (upd mp (DictObj (ma_used d + 1) (ma_keys d) (ma_values d))
              (with_counts (dk_usable k - 1) (dk_nentries k + 1) k) h).
Proof.
  intros Hu. unfold count_entry. run_step; [apply get_dict_run|].
  run_step; [by apply put_dict_run|]. run_step; [apply get_keys_run|].
  run_step; [apply put_keys_run|]. unfold cassert. by rewrite (proj2 (Z.leb_le _ _)) by lia.
Qed.
End runs.

(** ** Storing into a free slot *)

Lemma entry_items_none l : (∀ i e, aget l i = Some e -> me_key e = None) -> entry_items l = [].
Proof.
  intros Hl. unfold entry_items. induction l as [|e l IH]; [done|]. simpl. unfold entry_item.
  rewrite (Hl 0 e) by done. simpl. apply IH. intros i e' He'.
  apply (Hl (1 + i) e'). apply aget_Some in He' as ?.
  rewrite (aget_app_r [e] l) by zlia. rewrite <- He'. f_equal. zlia.
Qed.
Lemma entry_items_app l1 l2 : entry_items (l1 ++ l2) = entry_items l1 ++ entry_items l2.
Proof. apply omap_app. Qed.
(** The entry at an index, and the list around it. *)
Lemma entries_around (l : list (dictentry V)) i e :
  aget l i = Some e ->
  ∃ l1 l2, l = l1 ++ e :: l2 ∧ i = Zlen l1 ∧
    ∀ e', <[Z.to_nat i := e']> l = l1 ++ e' :: l2.
Proof.
  intros (l1 & l2 & -> & ->)%aget_split. exists l1, l2. split_and!; [done|done|]. intros e'.
  unfold Zlen. rewrite Nat2Z.id, insert_app_r_alt, Nat.sub_diag by done. done.
Qed.

Lemma keys_wf_free k : keys_wf k -> filled (dk_indices k) < dk_size k.
Proof.
  intros [_ Hs _ Hu _ _ Hf _ _ _]. apply table_size_bounds in Hs.
  pose proof (USABLE_FRACTION_bounds (dk_size k)). lia.
Qed.

Definition key_lookup (k : dictkeys V) (key : V) : dict_lookup_func :=
  if PyUnicode_CheckExact key then dk_lookup k else Lookdict.
(** The table after [key] has been put into slot [slot]. *)
Definition inserted (k : dictkeys V) (slot : Z) (key : V) (hash : Z) (value : V) : dictkeys V :=
  DictKeys (dk_refcnt k) (dk_size k) (key_lookup k key) (dk_usable k - 1) (dk_nentries k + 1)
    (<[Z.to_nat slot := dk_nentries k]> (dk_indices k))
    (<[Z.to_nat (dk_nentries k) := Entry hash (Some key) (Some value)]> (dk_entries k)).

Section inserting.
Context (k : dictkeys V) (Hwf : keys_wf k) (Hroom : 0 < dk_usable k).
Context (key : V) (hash : Z) (value : V).

Lemma nentries_bounds : 0 <= dk_nentries k < Zlen (dk_entries k).
Proof using Hwf Hroom. destruct Hwf. lia. Qed.
Lemma inserted_hashes slot ix :
  hashes (inserted k slot key hash value) ix =
    if decide (ix = dk_nentries k) then Some hash else hashes k ix.
Proof using Hwf Hroom.
  unfold hashes. simpl. rewrite aget_insert by apply nentries_bounds. by case_decide.
Qed.
Lemma hashes_nentries : hashes k (dk_nentries k) = None.
Proof using Hwf Hroom.
  unfold hashes. destruct (aget_lt _ _ nentries_bounds) as [e He]. rewrite He. simpl.
  unfold entry_hash. by rewrite (proj2 (kw_pairs _ Hwf _ _ He)).
Qed.
Lemma inserted_items slot :
  items (inserted k slot key hash value) = items k ++ [(hash, key, value)].
Proof using Hwf Hroom.
  unfold items. simpl. destruct (aget_lt _ _ nentries_bounds) as [e He].
  destruct (entries_around _ _ _ He) as (l1 & l2 & Hl & Hi & Hins). rewrite Hins, Hl.
  rewrite !entry_items_app.
  assert (Hnone : entry_items (e :: l2) = []).
  { apply entry_items_none. intros i e' He'. apply aget_Some in He' as Hi'.
    apply (kw_pairs _ Hwf (Zlen l1 + i) e'); [|lia].
    rewrite Hl, aget_app_r by lia. rewrite <- He'. f_equal. lia. }
  rewrite Hnone, app_nil_r. f_equal. change (e :: l2) with ([e] ++ l2) in Hnone.
  rewrite entry_items_app in Hnone. apply app_eq_nil in Hnone as [_ Hl2].
  pose proof (entry_items_app [Entry hash (Some key) (Some value)] l2) as Happ.
  rewrite Hl2 in Happ. exact Happ.
Qed.

Lemma inserted_wf n y :
  idx_at (dk_size k) (dk_indices k) hash n = Some y -> y < 0 ->
  (∀ m, (m < n)%nat -> ∃ z, idx_at (dk_size k) (dk_indices k) hash m = Some z ∧ 0 <= z) ->
  keys_wf (inserted k (probe_slot (dk_size k - 1) hash n) key hash value).
Proof using Hwf Hroom.
  intros Hy Hneg Hpath. pose proof nentries_bounds as Hn.
  destruct Hwf as [Hr Hs He Hu Hne Hrm Hf Hp Hi Hl].
  set (slot := probe_slot (dk_size k - 1) hash n) in *.
  assert (Hsl : 0 <= slot < Zlen (dk_indices k)).
  { rewrite (ik_len _ _ _ Hi). by apply slot_bounds. }
  split; simpl; try done; try lia.
  - by rewrite Zlen_insert.
  - rewrite (filled_insert _ _ y) by done. repeat case_decide; lia.
  - intros i e. simpl. rewrite aget_insert by done. case_decide.
    + intros [= <-]. simpl. split; [done|]. lia.
    + intros Hi'. destruct (Hp _ _ Hi') as [H1 H2]. split; [done|]. intros. apply H2. lia.
  - eapply index_ok_ext; [intros ix; symmetry; apply inserted_hashes|].
    apply (index_ok_insert _ (dk_indices k) (hashes k) hash n _ y);
      [done|by apply hashes_nentries|lia|done|done|done|exact (aset_lt _ _ _ Hsl)].
  - unfold lookup_ok. simpl. unfold key_lookup. destruct (PyUnicode_CheckExact key) eqn:Hkey; [|done].
    assert (Huni : unicode_keys k -> unicode_keys (inserted k slot key hash value)).
    { intros Hun i e key'. simpl. rewrite aget_insert by done. case_decide; [|by apply Hun].
      by intros [= <-] [= <-]. }
    unfold lookup_ok in Hl. destruct (dk_lookup k); [done|by apply Huni| |done].
    destruct Hl as [Hun Hnd]. split; [by apply Huni|]. simpl.
    intros j. rewrite aget_insert by done. case_decide; [|apply Hnd].
    intros [= Hd]. unfold DKIX_DUMMY in Hd. lia.
Qed.
End inserting.

Lemma allow_key_run mp d k h key :
  allow_key mp key (upd mp d k h) = Ret tt (upd mp d (with_lookup (key_lookup k key) k) h).
Proof.
  unfold allow_key, key_lookup. run_step; [apply get_keys_run|].
  destruct (PyUnicode_CheckExact key); simpl; [by destruct k|].
  case_bool_decide as Hl; simpl; [|apply put_keys_run]. rewrite <- Hl. by destruct k.
Qed.
(** How every insertion starts: the free slot of [hash] gets the next index. *)
Lemma insert_slot_run {A} mp d k h key hash value (rest : Z -> DM V E A) :
  table_wf d k -> 0 < dk_usable k ->
  ∃ slot, keys_wf (inserted k slot key hash value) ∧
    (_ ← allow_key mp key;
     k ← get_keys mp;
     hashpos ← find_empty_slot k hash;
     let ep := dk_nentries k in
     _ ← dictkeys_set_index mp hashpos ep;
     rest ep) (upd mp d k h) =
    rest (dk_nentries k) (upd mp d (with_indices (<[Z.to_nat slot := dk_nentries k]> (dk_indices k))
      (with_lookup (key_lookup k key) k)) h).
Proof.
  intros [Hown Hcomb Hwf Hused] Hroom.
  set (k0 := with_lookup (key_lookup k key) k).
  destruct (find_empty_slot_run k0 (hashes k) (kw_size _ Hwf) (kw_index _ Hwf) hash (upd mp d k0 h)
    (keys_wf_free _ Hwf)) as (n & y & Hrun & Hy & Hneg & Hpath).
  set (slot := probe_slot (dk_size k0 - 1) hash n) in *.
  pose proof (nentries_bounds k Hwf Hroom) as Hn.
  pose proof (slot_bounds _ (kw_size _ Hwf) hash n) as Hsl.
  exists slot. split; [exact (inserted_wf k Hwf Hroom key hash value n y Hy Hneg Hpath)|].
  run_step; [apply allow_key_run|]. fold k0. run_step; [apply get_keys_run|].
  run_step; [exact Hrun|]. cbv beta zeta.
  run_step; [apply set_index_run; [simpl; rewrite (ik_len _ _ _ (kw_index _ Hwf)); exact Hsl|
    unfold DKIX_DUMMY; simpl; lia|
    simpl; apply index_fits; [apply Hwf|destruct Hwf; lia]]|]. done.
Qed.
Lemma inserted_table d k slot key hash value :
  table_wf d k -> 0 < dk_usable k -> keys_wf (inserted k slot key hash value) ->
  table_wf (DictObj (ma_used d + 1) (ma_keys d) NullValues) (inserted k slot key hash value) ∧
  items (inserted k slot key hash value) = items k ++ [(hash, key, value)].
Proof.
  intros [Hown Hcomb Hwf Hused] Hroom Hwf'. split; [|by apply inserted_items].
  split; [done|done|done|]. rewrite inserted_items by done. simpl. zlia.
Qed.
Lemma insert_new_entry_run mp d k h key hash value :
  table_wf d k -> 0 < dk_usable k ->
  ∃ k', insert_new_entry mp key hash value (upd mp d k h) =
      Ret tt (upd mp (DictObj (ma_used d + 1) (ma_keys d) NullValues) k' h) ∧
    table_wf (DictObj (ma_used d + 1) (ma_keys d) NullValues) k' ∧
    items k' = items k ++ [(hash, key, value)].
Proof.
  intros Ht Hroom. unfold insert_new_entry.
  destruct (insert_slot_run mp d k h key hash value (write_new_entry mp key hash value)) as (slot & Hwf' & Hrun);
    [done|done|].
  exists (inserted k slot key hash value). split; [|by apply inserted_table].
  eapply eq_trans; [exact Hrun|]. unfold write_new_entry. pose proof (nentries_bounds k (tw_keys _ _ Ht) Hroom) as Hn.
  destruct (aget_lt (dk_entries k) (dk_nentries k) Hn) as [e He].
  run_step; [apply get_entry_run; exact He|]. run_step; [apply get_dict_run|]. cbv beta.
  rewrite (tw_combined _ _ Ht). run_step; [by apply put_entry_run|].
  eapply eq_trans; [by apply count_entry_run|]. by rewrite (tw_combined _ _ Ht).
Qed.
End wf.
