(* ===== verification/DictResize.v ===== *)
(** * Taking entries out of a table, and resizing it

    A resized table holds the same items in the same order, without the
    deleted entries, and its index table is built anew. *)

From stdpp Require Import base list gmap numbers strings.
From S2P Require Import Prelude DictProbe DictObject DictCore DictTable DictWf.

Section remove.
Context {V E : Type} {api : DictApi V E} `{EqDecision V}.

(** ** Deleting *)

Definition allow_dummy (f : dict_lookup_func) : dict_lookup_func :=
  match f with LookdictUnicodeNodummy => LookdictUnicode | f => f end.
(** The table after slot [j] and entry [ix] have been cleared. *)
Definition removed (k : dictkeys V) (j ix nentries : Z) (e : dictentry V) : dictkeys V :=
  DictKeys (dk_refcnt k) (dk_size k) (allow_dummy (dk_lookup k)) (dk_usable k) nentries
    (<[Z.to_nat j := DKIX_DUMMY]> (dk_indices k))
    (<[Z.to_nat ix := Entry (me_hash e) None None]> (dk_entries k)).

Lemma entry_item_Some (e : dictentry V) x key v :
  entry_item e = Some (x, key, v) <-> e = Entry x (Some key) (Some v).
Proof. destruct e as [x' [key'|] [v'|]]; unfold entry_item; simpl; naive_solver. Qed.

Section removing.
Context (k : dictkeys V) (Hwf : keys_wf k).
Context (j ix nentries : Z) (x : Z) (key v : V).
Let e := Entry x (Some key) (Some v).
Context (Hix : aget (dk_entries k) ix = Some e) (Hj : aget (dk_indices k) j = Some ix).

Lemma removed_hashes i :
  hashes (removed k j ix nentries e) i = if decide (i = ix) then None else hashes k i.
Proof using Hix.
  unfold hashes. simpl. rewrite aget_insert by (by apply aget_Some in Hix). by case_decide.
Qed.
Lemma removed_items :
  ∃ l1 l2, items k = l1 ++ (x, key, v) :: l2 ∧ items (removed k j ix nentries e) = l1 ++ l2.
Proof using Hix.
  destruct (entries_around _ _ _ Hix) as (l1 & l2 & Hl & Hi & Hins).
  exists (entry_items l1), (entry_items l2). unfold items. simpl. rewrite Hins, Hl.
  rewrite !entry_items_app. done.
Qed.

(** Either the counter stays, or it drops to the last entry. *)
Lemma removed_wf :
  nentries = dk_nentries k ∨
    nentries = ix ∧ (∀ i e', aget (dk_entries k) i = Some e' -> ix < i -> me_key e' = None) ->
  keys_wf (removed k j ix nentries e).
Proof using Hwf Hix Hj.
  intros Hne. apply aget_Some in Hix as Hb. apply aget_Some in Hj as Hjb.
  destruct Hwf as [Hr Hs He Hu Hn Hrm Hf Hp Hi Hl].
  assert (Hlt : ix < dk_nentries k).
  { destruct (decide (dk_nentries k <= ix)); [|lia]. pose proof (proj2 (Hp _ _ Hix) l); done. }
  split; simpl; try done; try lia.
  - by rewrite Zlen_insert.
  - rewrite (filled_insert _ _ ix) by done. unfold DKIX_DUMMY, DKIX_EMPTY in *.
    repeat case_decide; lia.
  - intros i e'. simpl. rewrite aget_insert by done. case_decide.
    { intros [= <-]. simpl. split; [|done]. split; by intros []. }
    intros Hi'. destruct (Hp _ _ Hi') as [H1 H2]. split; [done|].
    destruct Hne as [->|[-> Hlast]]; [done|]. intros. apply (Hlast i); [done|lia].
  - eapply index_ok_ext; [intros i; symmetry; apply removed_hashes|].
    apply (index_ok_delete _ (dk_indices k) (hashes k) j ix); [done|done|lia|by apply aset_lt].
  - unfold lookup_ok in *. simpl.
    assert (Huni : unicode_keys k -> unicode_keys (removed k j ix nentries e)).
    { intros Hun i e' key'. simpl. rewrite aget_insert by done. case_decide; [by intros [= <-]|apply Hun]. }
    destruct (dk_lookup k); simpl; [done|by apply Huni|by apply Huni, Hl|done].
Qed.
End removing.

Lemma ensure_run mp (d : dictobj V) (k : dictkeys V) (h : dheap V E) :
  ENSURE_ALLOWS_DELETIONS mp (upd mp d k h) =
    Ret tt (upd mp d (with_lookup (allow_dummy (dk_lookup k)) k) h).
Proof.
  unfold ENSURE_ALLOWS_DELETIONS. run_step; [apply get_keys_run|]. cbv beta.
  destruct k as [r s f u n l es]; simpl. destruct f; simpl; try done. apply put_keys_run.
Qed.

Lemma live_below (k : dictkeys V) ix e :
  keys_wf k -> aget (dk_entries k) ix = Some e -> is_Some (me_key e) -> ix < dk_nentries k.
Proof.
  intros Hwf He [key Hk]. destruct (decide (dk_nentries k <= ix)) as [Hge|]; [|lia].
  pose proof (proj2 (kw_pairs _ Hwf _ _ He) Hge). congruence.
Qed.

Lemma remove_entry_run mp d (k : dictkeys V) (h : dheap V E) hash ix x key v :
  table_wf d k -> aget (dk_entries k) ix = Some (Entry x (Some key) (Some v)) ->
  reaches (dk_size k) (dk_indices k) hash ix ->
  ∃ k', remove_entry mp hash ix (upd mp d k h) =
      Ret key (upd mp (DictObj (ma_used d - 1) (ma_keys d) NullValues) k' h) ∧
    table_wf (DictObj (ma_used d - 1) (ma_keys d) NullValues) k' ∧
    ∃ l1 l2, items k = l1 ++ (x, key, v) :: l2 ∧ items k' = l1 ++ l2.
Proof.
  intros [Hown Hcomb Hwf Hused] Hix Hreach.
  destruct (lookdict_index_run k (hashes k) (kw_size _ Hwf) (kw_index _ Hwf) hash ix (upd mp d k h))
    as (j & Hrun & Hj); [apply aget_Some in Hix; lia|done|].
  apply aget_Some in Hj as Hjb.
  exists (removed k j ix (dk_nentries k) (Entry x (Some key) (Some v))). split_and!.
  - unfold remove_entry. run_step; [apply get_keys_run|]. run_step; [exact Hrun|].
    run_step; [unfold cassert; by rewrite (proj2 (Z.leb_le _ _)) by lia|].
    run_step; [apply get_dict_run|]. cbv beta. rewrite Hcomb. run_step; [by apply put_dict_run|].
    run_step; [apply set_index_run; [done|unfold DKIX_DUMMY; lia|]|].
    { apply index_fits; [apply Hwf|]. pose proof (USABLE_FRACTION_bounds (dk_size k)).
      pose proof (table_size_bounds _ (kw_size _ Hwf)). unfold DKIX_DUMMY. lia. }
    run_step; [by apply get_entry_run|]. run_step; [apply ensure_run|].
    run_step; [apply put_entry_run; by apply aget_Some in Hix|]. done.
  - destruct (removed_items k j ix (dk_nentries k) x key v Hix) as (l1 & l2 & Hl & Hl').
    split; [done|done|by apply removed_wf; auto|]. simpl. rewrite Hl', Hused, Hl. zlia.
  - by apply removed_items.
Qed.

(** ** Replacing a value *)

Lemma insertdict_found_items (k : dictkeys V) ix x key v value :
  aget (dk_entries k) ix = Some (Entry x (Some key) (Some v)) ->
  ∃ l1 l2, items k = l1 ++ (x, key, v) :: l2 ∧
    items (with_entries (<[Z.to_nat ix := Entry x (Some key) (Some value)]> (dk_entries k)) k)
      = l1 ++ (x, key, value) :: l2.
Proof.
  intros Hix. destruct (entries_around _ _ _ Hix) as (l1 & l2 & Hl & Hi & Hins).
  exists (entry_items l1), (entry_items l2). unfold items. simpl. rewrite Hins, Hl.
  by rewrite !entry_items_app.
Qed.
Lemma replaced_wf (k : dictkeys V) ix x key v value :
  keys_wf k -> aget (dk_entries k) ix = Some (Entry x (Some key) (Some v)) ->
  keys_wf (with_entries (<[Z.to_nat ix := Entry x (Some key) (Some value)]> (dk_entries k)) k).
Proof.
  intros Hwf Hix. apply aget_Some in Hix as Hb. destruct Hwf as [Hr Hs He Hu Hn Hrm Hf Hp Hi Hl].
  split; simpl; try done.
  - by rewrite Zlen_insert.
  - intros i e'. simpl. rewrite aget_insert by done. case_decide; [|apply Hp].
    intros [= <-]. simpl. split; [done|]. subst i. apply (proj2 (Hp _ _ Hix)).
  - eapply index_ok_ext; [|exact Hi]. intros i. unfold hashes. simpl.
    rewrite aget_insert by done. case_decide; [subst; by rewrite Hix|done].
  - unfold lookup_ok in *. simpl.
    assert (Huni : unicode_keys k ->
      unicode_keys (with_entries (<[Z.to_nat ix := Entry x (Some key) (Some value)]> (dk_entries k)) k)).
    { intros Hun i e' key'. simpl. rewrite aget_insert by done. case_decide; [|apply Hun].
      intros [= <-] [= <-]. by apply (Hun ix (Entry x (Some key) (Some v))). }
    destruct (dk_lookup k); [done|by apply Huni| |done]. destruct Hl; split; [by apply Huni|done].
Qed.
End remove.

Section resize.
Context {V E : Type} {api : DictApi V E} `{EqDecision V}.
Implicit Types (k : dictkeys V) (d : dictobj V) (h : dheap V E) (e : dictentry V) (l : list (dictentry V)).

(** ** Copying the entries *)

Definition live (e : dictentry V) : Prop := is_Some (me_key e).
#[local] Instance live_dec e : Decision (live e).
Proof. unfold live. apply _. Defined.
Definition live_entries (l : list (dictentry V)) : list (dictentry V) := filter live l.
(** Key and value come together. *)
Definition paired (l : list (dictentry V)) : Prop :=
  Forall (λ e, is_Some (me_key e) <-> is_Some (me_value e)) l.

Lemma entries_ok_paired k : entries_ok k -> paired (dk_entries k).
Proof. intros Hok. apply Forall_forall. intros e [i He]%elem_aget. by apply (Hok i). Qed.

Lemma entry_items_cons e l :
  entry_items (e :: l) = match entry_item e with Some x => x :: entry_items l | None => entry_items l end.
Proof. done. Qed.
Lemma live_cons e l : live_entries (e :: l) = if decide (live e) then e :: live_entries l else live_entries l.
Proof. apply filter_cons. Qed.
Lemma dead_item e : ¬ live e -> entry_item e = None.
Proof. unfold live, entry_item. destruct (me_key e); [|done]. intros []. eauto. Qed.
Lemma live_item e :
  (is_Some (me_key e) <-> is_Some (me_value e)) -> live e -> is_Some (entry_item e).
Proof.
  intros He Hl. destruct (proj1 He Hl) as [v Hv]. destruct Hl as [key Hk].
  unfold entry_item. rewrite Hk, Hv. eauto.
Qed.
Lemma live_items l : paired l -> entry_items (live_entries l) = entry_items l.
Proof.
  induction 1 as [|e l He Hl IH]; [done|]. rewrite live_cons, entry_items_cons.
  case_decide as Hlive; [by rewrite entry_items_cons, IH|]. by rewrite dead_item.
Qed.
Lemma live_length l : paired l -> Zlen (live_entries l) = Zlen (entry_items l).
Proof.
  induction 1 as [|e l He Hl IH]; [done|]. rewrite live_cons, entry_items_cons.
  case_decide as Hlive; [|by rewrite dead_item].
  destruct (live_item e He Hlive) as [x ->]. zlia.
Qed.
Lemma live_shorter l : Zlen (live_entries l) <= Zlen l.
Proof. unfold Zlen, live_entries. pose proof (length_filter live l). lia. Qed.
Lemma live_app l1 l2 : live_entries (l1 ++ l2) = live_entries l1 ++ live_entries l2.
Proof.
  induction l1 as [|e l1 IH]; [done|]. simpl. rewrite !live_cons, IH. by case_decide.
Qed.
(** The first live entry of a list that has one. *)
Lemma live_first l x r :
  live_entries l = x :: r -> ∃ dead rest, l = dead ++ x :: rest ∧ live_entries dead = [] ∧ live_entries rest = r ∧ live x.
Proof.
  induction l as [|e l IH]; [done|]. rewrite live_cons. case_decide as Hlive.
  - intros [= <- <-]. by exists [], l.
  - intros Hr. destruct (IH Hr) as (dead & rest & -> & Hd & Hrest & Hx).
    exists (e :: dead), rest. rewrite live_cons, decide_False by done. done.
Qed.

Lemma skip_null_run pre dead x rest s fuel :
  paired dead -> live_entries dead = [] -> is_Some (me_value x) -> (length dead < fuel)%nat ->
  skip_null fuel (pre ++ dead ++ x :: rest) (Zlen pre) s = Ret (A := Z) (S := dheap V E) (Zlen pre + Zlen dead) s.
Proof.
  intros Hp. revert pre fuel. induction Hp as [|e dead He Hp IH]; intros pre fuel Hd Hx Hf;
    destruct fuel as [|fuel]; simpl in Hf; try lia.
  - simpl. rewrite aget_app by done. run_step; [done|]. cbv beta. destruct Hx as [v ->].
    unfold mret, M_ret. f_equal. zlia.
  - rewrite live_cons in Hd. case_decide as Hlive; [done|].
    simpl. rewrite aget_app by done. run_step; [done|]. cbv beta.
    destruct (me_value e) eqn:Hv; [destruct Hlive; apply He; eauto|].
    specialize (IH (pre ++ [e]) fuel Hd Hx ltac:(lia)).
    rewrite <- app_assoc in IH. simpl in IH. rewrite !Zlen_app, Zlen_cons, Zlen_nil in IH.
    rewrite Z.add_0_r in IH. rewrite IH. f_equal. zlia.
Qed.
Lemma copy_live_run (n : nat) old pre rest done_ m s :
  old = pre ++ rest -> paired rest -> length (live_entries rest) = n -> (n <= m)%nat ->
  copy_live n old (Zlen pre) (done_ ++ replicate m null_entry) (Zlen done_) s =
    Ret (S := dheap V E) (done_ ++ live_entries rest ++ replicate (m - n) null_entry) s.
Proof.
  revert pre rest done_ m. induction n as [|n IH]; intros pre rest done_ m Hold Hp Hn Hm.
  { apply nil_length_inv in Hn. rewrite Hn, Nat.sub_0_r. done. }
  destruct (live_entries rest) as [|x r] eqn:Hlive; [done|].
  destruct (live_first _ _ _ Hlive) as (dead & rest' & -> & Hdead & Hrest & Hx).
  apply Forall_app in Hp as [Hpd [Hpx Hpr]%Forall_cons].
  destruct m as [|m]; [lia|]. simpl in Hn. cbn [copy_live].
  run_step; [rewrite Hold; apply skip_null_run; [done|done|by apply Hpx|]|].
  { rewrite !length_app. lia. }
  cbv beta. rewrite Hold, app_assoc.
  run_step; [by rewrite aget_app by zlia|]. cbv beta. simpl replicate.
  run_step; [by rewrite aset_app by done|]. cbv beta.
  specialize (IH ((pre ++ dead) ++ [x]) rest' (done_ ++ [x]) m).
  rewrite <- !app_assoc in IH. simpl in IH. rewrite <- app_assoc.
  replace (Zlen pre + Zlen dead + 1) with (Zlen (pre ++ dead ++ [x])) by zlia.
  replace (Zlen done_ + 1) with (Zlen (done_ ++ [x])) by zlia.
  rewrite <- Hold, IH; [by rewrite Hrest|done|done|congruence|lia].
Qed.

(** All entries are live when there are as many as live ones. *)
Lemma all_live l n :
  (∀ i e, aget l i = Some e -> n <= i -> ¬ live e) -> 0 <= n <= Zlen l -> Zlen (live_entries l) = n ->
  live_entries l = take (Z.to_nat n) l.
Proof.
  intros Hdead Hb Hn. destruct (Zlen_split n l Hb) as (l1 & l2 & -> & Hl1).
  assert (H2 : live_entries l2 = []).
  { apply Zlen_0_inv. pose proof (Zlen_nonneg (live_entries l2)).
    destruct (live_entries l2) as [|x r] eqn:Hx; [done|].
    destruct (live_first _ _ _ Hx) as (dead & rest & -> & _ & _ & Hlive).
    destruct (Hdead (Zlen l1 + Zlen dead) x); [|zlia|done].
    rewrite app_assoc. apply aget_app. zlia. }
  rewrite live_app, H2, app_nil_r in *. unfold Zlen in Hl1. rewrite <- Hl1, Nat2Z.id, take_app_length.
  unfold Zlen in Hn. rewrite <- Hl1 in Hn. apply Nat2Z.inj in Hn.
  clear Hdead Hb H2 l2 Hl1.
  induction l1 as [|e l1 IH]; [done|]. rewrite live_cons in *.
  assert (length (live_entries l1) <= length l1)%nat by apply length_filter. case_decide; simpl in *; [|lia]. f_equal. apply IH. lia.
Qed.

(** ** Building the index table *)

(** The entries below [ix] are indexed, and nothing else is. *)
Record building (k : dictkeys V) (ix : Z) (inds : list Z) : Prop := {
  bu_index : index_ok (dk_size k) inds (λ i, if decide (i < ix) then hashes k i else None);
  bu_filled : filled inds <= ix;
  bu_clean : ∀ j, aget inds j ≠ Some DKIX_DUMMY
}.
Lemma building_step k ix inds (x : Z) n :
  table_size (dk_size k) -> building k ix inds -> 0 <= ix -> hashes k ix = Some x ->
  idx_at (dk_size k) inds x n = Some DKIX_EMPTY ->
  (∀ m, (m < n)%nat -> ∃ z, idx_at (dk_size k) inds x m = Some z ∧ 0 <= z) ->
  building k (ix + 1) (<[Z.to_nat (probe_slot (dk_size k - 1) x n) := ix]> inds).
Proof.
  intros Hs [Hi Hf Hc] Hix Hh Hn Hpath.
  assert (Hsl : 0 <= probe_slot (dk_size k - 1) x n < Zlen inds).
  { rewrite (ik_len _ _ _ Hi). by apply slot_bounds. }
  split.
  - eapply index_ok_ext; [|apply (index_ok_insert _ inds
      (λ i, if decide (i < ix) then hashes k i else None) x n ix DKIX_EMPTY);
      [exact Hi| |done|done|done|done|by apply aset_lt]].
    + intros i. simpl. destruct (decide (i = ix)) as [->|]; [by rewrite decide_True by lia|].
      repeat case_decide; done || lia.
    + simpl. by rewrite decide_False by lia.
  - rewrite (filled_insert _ _ DKIX_EMPTY) by done. repeat case_decide; try done; lia.
  - intros j. rewrite aget_insert by done. case_decide; [|apply Hc].
    intros [= Hd]. unfold DKIX_DUMMY in Hd. lia.
Qed.
Lemma build_indices_run mp d k h todo ix inds :
  table_size (dk_size k) -> building k ix inds -> 0 <= ix ->
  ix + Z.of_nat todo <= USABLE_FRACTION (dk_size k) ->
  (∀ i, 0 <= i < ix + Z.of_nat todo -> ∃ e, aget (dk_entries k) i = Some e ∧ live e) ->
  ∃ inds', build_indices todo mp ix (upd mp d (with_indices inds k) h) =
      Ret tt (upd mp d (with_indices inds' k) h) ∧ building k (ix + Z.of_nat todo) inds'.
Proof.
  intros Hs. revert ix inds. induction todo as [|todo IH]; intros ix inds Hb Hix Hroom Hlive.
  { exists inds. simpl. by rewrite Z.add_0_r. }
  pose proof (USABLE_FRACTION_bounds (dk_size k)) as Huf. pose proof (table_size_bounds _ Hs).
  destruct (Hlive ix ltac:(lia)) as (e & He & key & Hk).
  assert (Hh : hashes k ix = Some (me_hash e)) by (unfold hashes; rewrite He; simpl; unfold entry_hash; by rewrite Hk).
  destruct (build_slot_run (with_indices inds k) _ Hs (bu_index _ _ _ Hb) (me_hash e)
    (upd mp d (with_indices inds k) h)) as (n & Hrun & Hn & Hpath);
    [destruct Hb; simpl; lia|apply Hb|].
  assert (Hsl : 0 <= probe_slot (dk_size k - 1) (me_hash e) n < Zlen inds).
  { rewrite (ik_len _ _ _ (bu_index _ _ _ Hb)). by apply slot_bounds. }
  pose proof (building_step k ix inds (me_hash e) n Hs Hb Hix Hh Hn Hpath) as Hb'.
  destruct (IH (ix + 1) _ Hb') as (inds' & Hrun' & Hb''); [lia|lia|intros i Hi; apply Hlive; lia|].
  exists inds'. split; [|by replace (ix + Z.of_nat (S todo)) with (ix + 1 + Z.of_nat todo) by lia].
  cbn [build_indices]. run_step; [apply get_keys_run|]. cbv beta. simpl dk_entries.
  rewrite He. run_step; [done|]. run_step; [exact Hrun|]. cbv beta.
  run_step; [apply set_index_run; [done|unfold DKIX_DUMMY; lia|apply index_fits; [done|simpl; lia]]|].
  exact Hrun'.
Qed.

(** ** The resized table *)

Definition fresh_lookup (k : dictkeys V) : dict_lookup_func :=
  if bool_decide (dk_lookup k = Lookdict) then Lookdict else LookdictUnicodeNodummy.
(** A table of [newsize] slots with the live entries of [k]. *)
Definition compacted (k : dictkeys V) (newsize : Z) (inds : list Z) : dictkeys V :=
  let live := live_entries (dk_entries k) in
  DictKeys 1 newsize (fresh_lookup k) (USABLE_FRACTION newsize - Zlen live) (Zlen live) inds
    (live ++ replicate (Z.to_nat (USABLE_FRACTION newsize) - length live) null_entry).

Section compacting.
Context (k : dictkeys V) (newsize : Z) (inds : list Z).
Context (Hsize : table_size newsize) (Hp : paired (dk_entries k)).
Context (Hfit : Zlen (items k) <= USABLE_FRACTION newsize).
Let n := Zlen (items k).
Let new := compacted k newsize inds.

Lemma compacted_length : Zlen (live_entries (dk_entries k)) = n.
Proof using Hp. by apply live_length. Qed.
Lemma compacted_entry i e :
  aget (dk_entries new) i = Some e ->
  (i < n ∧ e ∈ live_entries (dk_entries k)) ∨ (n <= i ∧ e = null_entry).
Proof using Hp.
  intros He. simpl in He. destruct (decide (i < n)) as [Hlt|].
  - left. split; [done|]. apply aget_Some in He as ?.
    rewrite aget_app_l in He by (rewrite compacted_length; lia). by eapply aget_elem.
  - right. split; [lia|]. rewrite aget_app_r in He by (rewrite compacted_length; lia).
    by eapply aget_replicate.
Qed.
Lemma live_elem e l : e ∈ live_entries l -> live e ∧ e ∈ l.
Proof. apply list_elem_of_filter. Qed.

Lemma compacted_items : items new = items k.
Proof using Hp.
  unfold items. simpl. rewrite entry_items_app, live_items by done.
  rewrite (entry_items_none (replicate _ _)), app_nil_r; [done|].
  by intros i e ->%aget_replicate.
Qed.
Lemma compacted_live i : 0 <= i < n -> ∃ e, aget (dk_entries new) i = Some e ∧ live e.
Proof using Hp.
  intros Hi. destruct (aget_lt (live_entries (dk_entries k)) i) as [e He]; [by rewrite compacted_length|].
  exists e. simpl. rewrite aget_app_l by (by rewrite compacted_length). split; [done|].
  by eapply live_elem, aget_elem.
Qed.

Lemma compacted_wf :
  building new n inds -> (dk_lookup k = Lookdict ∨ unicode_keys k) -> keys_wf new.
Proof using Hp Hfit Hsize.
  intros [Hi Hf Hc] Hl. pose proof (Zlen_nonneg (items k)).
  pose proof compacted_length as Hlen.
  split; simpl; rewrite ?Hlen; try done; try lia.
  - unfold Zlen in *. rewrite length_app, length_replicate. lia.
  - intros i e He. destruct (compacted_entry _ _ He) as [[? Hin]|[? ->]]; [|done].
    apply live_elem in Hin as [Hlive Hin]. unfold paired in Hp. rewrite Forall_forall in Hp.
    split; [by apply Hp|]. simpl. rewrite Hlen. lia.
  - eapply index_ok_ext; [|exact Hi]. intros i. simpl. case_decide; [done|].
    unfold hashes. destruct (aget (dk_entries new) i) as [e|] eqn:He; [|done].
    destruct (compacted_entry _ _ He) as [[? _]|[_ ->]]; [lia|done].
  - unfold lookup_ok. simpl. unfold fresh_lookup. case_bool_decide; [done|].
    destruct Hl as [|Hl]; [done|]. split; [|done].
    intros i e key He Hk. destruct (compacted_entry _ _ He) as [[? Hin]|[? ->]]; [|done].
    apply live_elem in Hin as [_ [j Hj]%elem_aget]. by eapply Hl.
Qed.
End compacting.
End resize.
