(* ===== verification/DictHeap.v ===== *)
(** * The invariant of the heap of dicts

    The free list of keys objects never holds a block that is in use, so a new
    table is always at an address of its own.  Every dict is well formed and
    owns its table; the shared empty table is referenced once by itself and
    once by each dict that uses it.  Each way an operation changes a dict keeps
    this, and touches no other dict. *)

From stdpp Require Import base list gmap numbers strings sets.
From S2P Require Import Prelude DictProbe DictObject DictCore DictTable DictWf DictResize.

Section alloc.
Context {V E : Type} {api : DictApi V E} `{EqDecision V}.
Implicit Types (k : dictkeys V) (d : dictobj V) (h : dheap V E) (m : gmap Z (dictkeys V)).

(** The blocks on the free list. *)
Definition spare (s : dict_state) : list Z := take (Z.to_nat (keys_numfree s)) (keys_free_list s).
(** The dict objects on theirs. *)
Definition spare_dicts (s : option dict_state) : list Z :=
  match s with Some s => take (Z.to_nat (numfree s)) (free_list s) | None => [] end.
Record state_ok (m : gmap Z (dictkeys V)) (s : dict_state) : Prop := {
  so_slots : Zlen (keys_free_list s) = CiDict_MAXFREELIST;
  so_numfree : 0 <= keys_numfree s <= CiDict_MAXFREELIST;
  so_dict_slots : Zlen (free_list s) = CiDict_MAXFREELIST;
  so_dicts : 0 <= numfree s <= CiDict_MAXFREELIST;
  so_nodup : NoDup (spare s);
  so_unused : ∀ a, a ∈ spare s -> a ≠ Py_EMPTY_KEYS ∧ m !! a = None
}.
Definition dstate_ok (m : gmap Z (dictkeys V)) (s : option dict_state) : Prop :=
  match s with Some s => state_ok m s | None => True end.

Lemma dstate_ok_dom m m' s :
  (∀ a, m !! a = None -> m' !! a = None) -> dstate_ok m s -> dstate_ok m' s.
Proof.
  intros Hm. destruct s as [s|]; [|done]. intros [H1 H2 D1 D2 H3 H4]. split; [done|done|done|done|done|].
  intros a Ha. destruct (H4 a Ha). auto.
Qed.
Lemma dstate_ok_update m a k k' s : m !! a = Some k -> dstate_ok m s -> dstate_ok (<[a := k']> m) s.
Proof.
  intros Ha. apply dstate_ok_dom. intros b Hb. rewrite lookup_insert_ne; [done|congruence].
Qed.

(** The last block of the free list. *)
Lemma spare_pop s :
  0 < keys_numfree s <= Zlen (keys_free_list s) ->
  ∃ a, aget (keys_free_list s) (keys_numfree s - 1) = Some a ∧
    spare s = take (Z.to_nat (keys_numfree s - 1)) (keys_free_list s) ++ [a].
Proof.
  intros Hn. destruct (aget_lt (keys_free_list s) (keys_numfree s - 1)) as [a Ha]; [lia|].
  exists a. split; [done|]. unfold spare.
  replace (Z.to_nat (keys_numfree s)) with (S (Z.to_nat (keys_numfree s - 1))) by lia.
  apply take_S_r. unfold aget in Ha. by case_decide.
Qed.
Lemma spare_push s dk :
  0 <= keys_numfree s < Zlen (keys_free_list s) ->
  take (Z.to_nat (keys_numfree s + 1)) (<[Z.to_nat (keys_numfree s) := dk]> (keys_free_list s)) = spare s ++ [dk].
Proof.
  intros Hn. unfold spare. replace (Z.to_nat (keys_numfree s + 1)) with (S (Z.to_nat (keys_numfree s))) by lia.
  erewrite take_S_r; [|apply list_lookup_insert_eq; unfold Zlen in Hn; lia].
  by rewrite take_insert_ge by lia.
Qed.

(** [h1] differs from [h] in the free lists and the world only. *)
Definition same_objects (h h1 : dheap V E) : Prop :=
  dicts h1 = dicts h ∧ keys h1 = keys h ∧ refs h1 = refs h.
(** [a] is a block for a table of [size] slots that nothing uses. *)
Definition new_block (h h1 : dheap V E) (size a : Z) : Prop :=
  same_objects h h1 ∧ a ≠ Py_EMPTY_KEYS ∧ keys h !! a = None ∧
  (∀ k, dstate_ok (<[a := k]> (keys h)) (dstate h1)) ∧ spare_dicts (dstate h1) = spare_dicts (dstate h) ∧
  (size = PyDict_MINSIZE ∨ keys_bytes size <= PY_SSIZE_T_MAX).

Lemma malloc_keys_run size h :
  dstate_ok (keys h) (dstate h) ->
  (∃ e, malloc_keys size h = Exn (PyErr MemoryError no_msg) (set_world e h)) ∨
  (∃ a h1, malloc_keys size h = Ret a h1 ∧ new_block h h1 size a).
Proof.
  intros Hok. unfold malloc_keys, mbind, M_bind, PyObject_Malloc.
  destruct (dict_malloc (keys_bytes size) h) as [[a|] e] eqn:Ha; [right|left; eauto].
  exists a, (set_world e h). split; [done|].
  assert (Ha1 : (dict_malloc (keys_bytes size) h).1 = Some a) by by rewrite Ha.
  destruct (dict_malloc_fresh _ _ _ Ha1) as (Hnz & Hfree & Hspare).
  split_and!; [done|done|done| |done|].
  - intros k. simpl. destruct (dstate h) as [s|]; [|done]. destruct Hok as [H1 H2 D1 D2 H3 H4].
    split; [done|done|done|done|done|]. intros b Hb. destruct (H4 b Hb). split; [done|].
    rewrite lookup_insert_ne; [done|]. intros ->. done.
  - right. destruct (decide (PY_SSIZE_T_MAX < keys_bytes size)) as [Hbig|]; [|lia].
    apply (dict_malloc_limit _ h) in Hbig. congruence.
Qed.
Lemma alloc_keys_run size h :
  dstate_ok (keys h) (dstate h) ->
  (∃ e, alloc_keys size h = Exn (PyErr MemoryError no_msg) (set_world e h)) ∨
  (∃ a h1, alloc_keys size h = Ret a h1 ∧ new_block h h1 size a).
Proof.
  intros Hok. pose proof (malloc_keys_run size h Hok) as Hm. unfold alloc_keys.
  assert (Hget : ∀ (f : dheap V E -> DM V E Z), (h0 ← mget; f h0) h = f h h) by done.
  rewrite Hget. destruct (dstate h) as [s|] eqn:Hs; [|done].
  destruct (_ && _) eqn:Hc; [|done]. bool_to_prop. right. destruct Hok as [H1 H2 D1 D2 H3 H4].
  destruct (spare_pop s) as (a & Ha & Hsp); [lia|]. cbv zeta. rewrite Ha.
  exists a. eexists. split; [done|].
  rewrite Hsp in H3, H4. apply NoDup_app in H3 as (H3 & Hna & _).
  destruct (H4 a) as [Hnz Hfree]; [set_solver|].
  split_and!; [done|done|done| |by rewrite Hs|by left].
  intros k. simpl. split; simpl; [done|lia|done|done|done|]. unfold spare. simpl. intros b Hb.
  destruct (H4 b) as [Hb1 Hb2]; [set_solver|]. split; [done|].
  rewrite lookup_insert_ne; [done|]. intros ->. apply (Hna b Hb). set_solver.
Qed.

(** Blocks larger than 2^58 slots are never given. *)
Lemma block_size kk :
  3 <= kk <= 60 -> 2 ^ kk = PyDict_MINSIZE ∨ keys_bytes (2 ^ kk) <= PY_SSIZE_T_MAX -> table_size (2 ^ kk).
Proof.
  intros Hk Hb. exists kk. split; [|done]. split; [lia|].
  destruct (decide (kk = 59)) as [->|]; [destruct Hb; by vm_compute in H|].
  destruct (decide (kk = 60)) as [->|]; [destruct Hb; by vm_compute in H|]. lia.
Qed.
Lemma is_power_of_2 kk : 0 <= kk -> IS_POWER_OF_2 (2 ^ kk) = true.
Proof.
  intros Hk. unfold IS_POWER_OF_2. replace (2 ^ kk - 1) with (Z.ones kk) by (rewrite Z.ones_equiv; lia).
  rewrite Z.land_ones, Z.mod_same by lia. done.
Qed.
Lemma new_keys_run kk h :
  3 <= kk <= 60 -> dstate_ok (keys h) (dstate h) ->
  (∃ e, new_keys_object (2 ^ kk) h = Exn (PyErr MemoryError no_msg) (set_world e h)) ∨
  (∃ a h1, new_keys_object (2 ^ kk) h = Ret a (set_keys (<[a := fresh_keys (2 ^ kk)]> (keys h)) h1) ∧
    new_block h h1 (2 ^ kk) a).
Proof.
  intros Hk Hok. unfold new_keys_object.
  assert (8 <= 2 ^ kk) by (pose proof (Z.pow_le_mono_r 2 3 kk); lia).
  assert (H1 : ∀ (f : unit -> DM V E Z), (x ← cassert (PyDict_MINSIZE <=? 2 ^ kk); f x) h = f tt h).
  { intros f. by rewrite (proj2 (Z.leb_le _ _)). }
  assert (H2 : ∀ (f : unit -> DM V E Z), (x ← cassert (IS_POWER_OF_2 (2 ^ kk)); f x) h = f tt h).
  { intros f. by rewrite is_power_of_2 by lia. }
  rewrite H1, H2.
  destruct (alloc_keys_run (2 ^ kk) h Hok) as [[e He]|(a & h1 & He & Hb)]; [left|right].
  { exists e. unfold mbind, M_bind. by rewrite He. }
  exists a, h1. split; [|done]. run_step; [exact He|]. destruct Hb as [(_ & <- & _) _]. done.
Qed.

(** Releasing a block. *)
Lemma release_block_run dk size k h :
  dk ≠ Py_EMPTY_KEYS -> keys h !! dk = Some k -> dstate_ok (keys h) (dstate h) ->
  ∃ s, release_block dk size h = Ret tt (set_dstate s (set_keys (delete dk (keys h)) h)) ∧
    dstate_ok (delete dk (keys h)) s ∧ spare_dicts s = spare_dicts (dstate h).
Proof.
  intros Hnz Hdk Hok. unfold release_block.
  assert (Hget : ∀ (f : dheap V E -> DM V E unit), (h0 ← mget; f h0) h = f h h) by done.
  rewrite Hget. cbv zeta.
  change (dstate (set_keys (delete dk (keys h)) h)) with (dstate h).
  assert (Hkeep : dstate_ok (delete dk (keys h)) (dstate h)).
  { eapply dstate_ok_dom; [|done]. intros a Ha. by rewrite lookup_delete_None; right. }
  assert (Hput : ∃ s, mput (set_keys (delete dk (keys h)) h) h =
      Ret tt (set_dstate s (set_keys (delete dk (keys h)) h)) ∧ dstate_ok (delete dk (keys h)) s ∧
      spare_dicts s = spare_dicts (dstate h)).
  { exists (dstate h). by destruct h. }
  destruct (dstate h) as [s|] eqn:Hs; [|exact Hput].
  destruct (_ && _) eqn:Hc; [|exact Hput]. bool_to_prop.
  destruct Hok as [H1 H2 D1 D2 H3 H4]. rewrite aset_lt by lia. eexists. split; [done|]. simpl. split; [|done].
  split; simpl; [by rewrite Zlen_insert|lia|done|done| |]; unfold spare; simpl; rewrite spare_push by lia.
  - apply NoDup_app. split_and!; [done| |apply NoDup_singleton].
    intros a Ha ->%list_elem_of_singleton. destruct (H4 dk Ha). congruence.
  - intros a [Ha| ->%list_elem_of_singleton]%elem_of_app.
    + destruct (H4 a Ha). split; [done|]. rewrite lookup_delete_None. by right.
    + split; [done|]. rewrite lookup_delete_None. by left.
Qed.
End alloc.

Section heap.
Context {V E : Type} {api : DictApi V E} `{EqDecision V}.
Implicit Types (k : dictkeys V) (d : dictobj V) (h : dheap V E).

(** How many dicts use the empty table. *)
Definition uses_empty (d : dictobj V) : bool := ma_keys d =? Py_EMPTY_KEYS.
Definition empty_users (m : gmap Z (dictobj V)) : Z :=
  Z.of_nat (size (filter (λ p : Z * dictobj V, uses_empty p.2 = true) m)).

Lemma empty_users_insert m mp d d' :
  m !! mp = Some d ->
  empty_users (<[mp := d']> m) =
    empty_users m - (if uses_empty d then 1 else 0) + (if uses_empty d' then 1 else 0).
Proof.
  intros Hd. unfold empty_users.
  assert (Hdel : Z.of_nat (size (filter (λ p : Z * dictobj V, uses_empty p.2 = true) m)) =
    Z.of_nat (size (filter (λ p : Z * dictobj V, uses_empty p.2 = true) (delete mp m))) +
      (if uses_empty d then 1 else 0)).
  { rewrite <- (insert_delete_id m mp d) at 1 by done. destruct (uses_empty d) eqn:Hu.
    - rewrite map_filter_insert_True by done. rewrite map_size_insert_None; [lia|].
      rewrite map_lookup_filter_None. left. apply lookup_delete_eq.
    - rewrite map_filter_insert_False by (simpl; congruence). rewrite delete_delete_eq. lia. }
  rewrite Hdel. rewrite <- (insert_delete_eq m mp d'). destruct (uses_empty d') eqn:Hu'.
  - rewrite map_filter_insert_True by done. rewrite map_size_insert_None; [lia|].
    rewrite map_lookup_filter_None. left. apply lookup_delete_eq.
  - rewrite map_filter_insert_False by (simpl; congruence). rewrite delete_delete_eq. lia.
Qed.

(** The free dict objects are not in use. *)
Definition spare_ok (m : gmap Z (dictobj V)) (s : option dict_state) : Prop :=
  NoDup (spare_dicts s) ∧ ∀ mp, mp ∈ spare_dicts s -> m !! mp = None.
Lemma spare_ok_update m mp d d' s s' :
  m !! mp = Some d -> spare_dicts s' = spare_dicts s -> spare_ok m s -> spare_ok (<[mp := d']> m) s'.
Proof.
  intros Hd Hs [H1 H2]. unfold spare_ok. rewrite Hs. split; [done|]. intros a Ha. pose proof (H2 a Ha).
  rewrite lookup_insert_ne; [done|]. congruence.
Qed.

Record heap_inv (h : dheap V E) : Prop := {
  hi_dict : ∀ mp d, dicts h !! mp = Some d -> ∃ k, keys h !! ma_keys d = Some k ∧ dict_wf d k;
  hi_own : ∀ mp1 mp2 d1 d2, dicts h !! mp1 = Some d1 -> dicts h !! mp2 = Some d2 ->
    ma_keys d1 = ma_keys d2 -> ma_keys d1 ≠ Py_EMPTY_KEYS -> mp1 = mp2;
  hi_empty : ∃ n, keys h !! Py_EMPTY_KEYS = Some (empty_keys_struct n) ∧ 1 + empty_users (dicts h) <= n;
  hi_state : dstate_ok (keys h) (dstate h);
  hi_spare : spare_ok (dicts h) (dstate h)
}.
(** Nothing but the dict [mp] and its table has changed; a new table of it is
    at an address that was not in use. *)
Record only_dict (mp : Z) (h h' : dheap V E) : Prop := {
  od_dicts : ∀ mp', mp' ≠ mp -> dicts h' !! mp' = dicts h !! mp';
  od_keys : ∀ b, b ≠ Py_EMPTY_KEYS -> is_Some (keys h !! b) ->
    (∀ d, dicts h !! mp = Some d -> ma_keys d ≠ b) -> keys h' !! b = keys h !! b;
  od_fresh : ∀ d', dicts h' !! mp = Some d' -> ma_keys d' = Py_EMPTY_KEYS ∨
    (∃ d, dicts h !! mp = Some d ∧ ma_keys d = ma_keys d') ∨ keys h !! ma_keys d' = None
}.
(** The items of a dict, in order. *)
Definition dict_items (h : dheap V E) (mp : Z) : list (Z * V * V) :=
  match dicts h !! mp with
  | Some d => match keys h !! ma_keys d with Some k => items k | None => [] end
  | None => []
  end.

Lemma has_dict_items h mp d k : has_dict h mp d k -> dict_items h mp = items k.
Proof. intros [Hd Hk]. unfold dict_items. by rewrite Hd, Hk. Qed.
Lemma only_dict_refl mp h : only_dict mp h h.
Proof. split; naive_solver. Qed.
Lemma only_dict_trans mp h1 h2 h3 : only_dict mp h1 h2 -> only_dict mp h2 h3 -> only_dict mp h1 h3.
Proof.
  intros [D1 K1 F1] [D2 K2 F2]. split.
  - intros mp' Hne. by rewrite D2, D1.
  - intros b Hb [kb Hkb] Hno. rewrite K2, K1; eauto.
    + rewrite K1; eauto.
    + intros d2 Hd2 Heq. destruct (F1 _ Hd2) as [?|[(d1 & Hd1 & ?)|?]]; [congruence| |congruence].
      apply (Hno _ Hd1). congruence.
  - intros d3 Hd3. destruct (decide (ma_keys d3 = Py_EMPTY_KEYS)) as [|Hnz]; [by left|right].
    destruct (F2 _ Hd3) as [?|[(d2 & Hd2 & Heq)|Hnone]]; [done| |].
    + destruct (F1 _ Hd2) as [?|[(d1 & Hd1 & ?)|?]]; [congruence|left|right; congruence].
      exists d1. split; [done|congruence].
    + destruct (keys h1 !! ma_keys d3) as [k|] eqn:Hk; [left|by right].
      destruct (dicts h1 !! mp) as [d|] eqn:Hd.
      * exists d. split; [done|]. destruct (decide (ma_keys d = ma_keys d3)) as [|Hne]; [done|].
        rewrite K1 in Hnone; [congruence|done|by eexists|]. congruence.
      * rewrite K1 in Hnone; [congruence|done|by eexists|]. congruence.
Qed.
(** Other dicts keep their items. *)
Lemma only_dict_items mp mp' h h' :
  only_dict mp h h' -> heap_inv h -> heap_inv h' -> mp' ≠ mp ->
  dict_items h' mp' = dict_items h mp'.
Proof.
  intros [Hd Hk _] Hh Hh' Hne. unfold dict_items. rewrite Hd by done.
  destruct (dicts h !! mp') as [d|] eqn:Hmp; [|done].
  destruct (hi_dict _ Hh _ _ Hmp) as (k & Hkd & _). rewrite Hkd.
  destruct (decide (ma_keys d = Py_EMPTY_KEYS)) as [He|].
  - destruct (hi_empty _ Hh) as (n & Hn & _), (hi_empty _ Hh') as (n' & Hn' & _).
    rewrite He in *. rewrite Hn'. rewrite Hn in Hkd. by injection Hkd as <-.
  - rewrite Hk, Hkd; [done|done|by eexists|]. intros d1 Hd1 Heq. apply Hne. symmetry.
    apply (hi_own _ Hh mp mp' d1 d); congruence.
Qed.

(** A change inside a table. *)
Lemma heap_inv_upd h mp d k d' k' :
  heap_inv h -> has_dict h mp d k -> ma_keys d ≠ Py_EMPTY_KEYS ->
  table_wf d' k' -> ma_keys d' = ma_keys d ->
  heap_inv (upd mp d' k' h) ∧ only_dict mp h (upd mp d' k' h).
Proof.
  intros Hh [Hd Hk] Hne Hwf Heq. split; [split|split]; simpl.
  - intros mp1 d1. destruct (decide (mp1 = mp)) as [->|].
    + rewrite lookup_insert_eq. intros [= <-]. exists k'. rewrite lookup_insert_eq. split; [done|by right].
    + rewrite lookup_insert_ne by done. intros Hd1. destruct (hi_dict _ Hh _ _ Hd1) as (k1 & Hk1 & Hw).
      exists k1. split; [|done]. rewrite lookup_insert_ne; [done|]. rewrite Heq. intros Hc.
      by destruct (hi_own _ Hh mp mp1 d d1 Hd Hd1 Hc Hne).
  - assert (Hback : ∀ mp1 d1, <[mp := d']> (dicts h) !! mp1 = Some d1 ->
      ∃ d0, dicts h !! mp1 = Some d0 ∧ ma_keys d0 = ma_keys d1).
    { intros mp1 d1. destruct (decide (mp1 = mp)) as [->|].
      - rewrite lookup_insert_eq. intros [= <-]. eauto.
      - rewrite lookup_insert_ne by done. eauto. }
    intros mp1 mp2 d1 d2 H1 H2 Hkk Hnz.
    destruct (Hback _ _ H1) as (d10 & ? & ?), (Hback _ _ H2) as (d20 & ? & ?).
    apply (hi_own _ Hh mp1 mp2 d10 d20); congruence.
  - destruct (hi_empty _ Hh) as (n & Hn & Hu). exists n. rewrite lookup_insert_ne by congruence.
    split; [done|]. erewrite empty_users_insert by done. unfold uses_empty. rewrite Heq.
    destruct (_ =? _); lia.
  - rewrite Heq. eapply dstate_ok_update; [done|apply Hh].
  - by eapply spare_ok_update, Hh.
  - intros mp' Hmp. by rewrite lookup_insert_ne.
  - intros b Hb _ Hno. rewrite lookup_insert_ne; [done|]. rewrite Heq. by apply Hno.
  - intros d1. rewrite lookup_insert_eq. intros [= <-]. right. left. eauto.
Qed.

(** A move to a new table: [m] is what is left of the keys objects. *)
Lemma heap_inv_move h mp d d' k' a s w (m : gmap Z (dictkeys V)) r :
  heap_inv h -> dicts h !! mp = Some d -> table_wf d' k' -> ma_keys d' = a ->
  keys h !! a = None ->
  (∀ b, b ≠ Py_EMPTY_KEYS -> b ≠ ma_keys d -> m !! b = keys h !! b) ->
  (∃ n, m !! Py_EMPTY_KEYS = Some (empty_keys_struct n) ∧ 1 + empty_users (<[mp := d']> (dicts h)) <= n) ->
  dstate_ok (<[a := k']> m) s -> spare_dicts s = spare_dicts (dstate h) ->
  let h' := DHeap (<[mp := d']> (dicts h)) (<[a := k']> m) s r w in
  heap_inv h' ∧ only_dict mp h h' ∧ has_dict h' mp d' k'.
Proof.
  intros Hh Hd Hwf Ha Hfresh Hm Hempty Hs Hsp h'.
  assert (Hnz : a ≠ Py_EMPTY_KEYS) by (rewrite <- Ha; apply Hwf).
  assert (Hother : ∀ mp1 d1, mp1 ≠ mp -> dicts h !! mp1 = Some d1 -> ma_keys d1 ≠ a).
  { intros mp1 d1 _ Hd1 Hc. destruct (hi_dict _ Hh _ _ Hd1) as (k1 & Hk1 & _). congruence. }
  split_and!; [split|split|split]; simpl.
  - intros mp1 d1. destruct (decide (mp1 = mp)) as [->|Hne].
    + rewrite lookup_insert_eq. intros [= <-]. exists k'. rewrite Ha, lookup_insert_eq. split; [done|by right].
    + rewrite lookup_insert_ne by done. intros Hd1. pose proof (Hother _ _ Hne Hd1).
      rewrite lookup_insert_ne by done. destruct (hi_dict _ Hh _ _ Hd1) as (k1 & Hk1 & Hw).
      destruct (decide (ma_keys d1 = Py_EMPTY_KEYS)) as [He|Hne0].
      * destruct Hempty as (n & Hn & _). exists (empty_keys_struct n). rewrite He. split; [done|]. left.
        destruct Hw as [[Hw _]|Hw]; [by split|]. by destruct (tw_own _ _ Hw).
      * exists k1. rewrite Hm; [done|done|]. intros Hc. apply Hne.
        by apply (hi_own _ Hh mp1 mp d1 d).
  - intros mp1 mp2 d1 d2. destruct (decide (mp1 = mp)) as [->|H1], (decide (mp2 = mp)) as [->|H2];
      rewrite ?lookup_insert_eq, ?lookup_insert_ne by done; try done.
    + intros [= <-] Hd2 Hc. destruct (Hother _ _ H2 Hd2). congruence.
    + intros Hd1 [= <-] Hc. destruct (Hother _ _ H1 Hd1). congruence.
    + apply (hi_own _ Hh).
  - destruct Hempty as (n & Hn & Hu). exists n. by rewrite lookup_insert_ne by done.
  - done.
  - by eapply spare_ok_update, Hh.
  - intros mp' Hmp. by rewrite lookup_insert_ne.
  - intros b Hb [kb Hkb] Hno. rewrite lookup_insert_ne by congruence. apply Hm; [done|].
    intros ->. by apply (Hno d).
  - intros d1. rewrite lookup_insert_eq. intros [= <-]. right. right. by rewrite Ha.
  - by rewrite lookup_insert_eq.
  - by rewrite Ha, lookup_insert_eq.
Qed.
End heap.
