(* ===== verification/DictGrow.v ===== *)
(** * [dictresize] moves a dict to a new table *)

From stdpp Require Import base list gmap numbers strings sets.
From S2P Require Import Prelude DictProbe DictObject DictCore DictTable DictWf DictResize DictHeap.

Section grow.
Context {V E : Type} {api : DictApi V E} `{EqDecision V}.
Implicit Types (k : dictkeys V) (d : dictobj V) (h : dheap V E).

(** ** Access in a given heap *)

Lemma get_dict_at h mp d : dicts h !! mp = Some d -> get_dict mp h = Ret d h.
Proof. intros Hd. unfold get_dict. run_step; [done|]. cbv beta. by rewrite Hd. Qed.
Lemma put_dict_at h mp d d' :
  dicts h !! mp = Some d -> put_dict mp d' h = Ret tt (set_dicts (<[mp := d']> (dicts h)) h).
Proof. intros Hd. unfold put_dict. run_step; [done|]. cbv beta. rewrite Hd. run_step; [done|]. done. Qed.
Lemma get_dk_at h dk k : keys h !! dk = Some k -> get_dk dk h = Ret k h.
Proof. intros Hk. unfold get_dk. run_step; [done|]. cbv beta. by rewrite Hk. Qed.
Lemma put_dk_at h dk k k' :
  keys h !! dk = Some k -> put_dk dk k' h = Ret tt (set_keys (<[dk := k']> (keys h)) h).
Proof. intros Hk. unfold put_dk. run_step; [done|]. cbv beta. rewrite Hk. run_step; [done|]. done. Qed.
Lemma get_keys_at h mp d k : has_dict h mp d k -> get_keys mp h = Ret k h.
Proof. intros [Hd Hk]. unfold get_keys. run_step; [by apply get_dict_at|]. by apply get_dk_at. Qed.
Lemma cassert_run (b : bool) h : b = true -> cassert b h = Ret tt h.
Proof. by intros ->. Qed.

Lemma heap_inv_world h e : heap_inv h -> heap_inv (set_world e h) ∧ ∀ mp, only_dict mp h (set_world e h).
Proof. intros [H1 H2 H3 H4 H5]. split; [by split|]. intros mp. split; naive_solver. Qed.

(** ** The tail of a resize: the index table and the counters *)

(** The new table before it is indexed. *)
Definition unindexed (k : dictkeys V) (newsize : Z) : dictkeys V :=
  DictKeys 1 newsize (fresh_lookup k) (USABLE_FRACTION newsize) 0
    (replicate (Z.to_nat newsize) DKIX_EMPTY) (dk_entries (compacted k newsize [])).

Lemma index_table_run mp d k newsize h :
  table_size newsize -> paired (dk_entries k) -> Zlen (items k) <= USABLE_FRACTION newsize ->
  has_dict h mp d (unindexed k newsize) ->
  ∃ inds, (_ ← build_indices (Z.to_nat (Zlen (items k))) mp 0;
           k1 ← get_keys mp;
           put_keys mp (with_counts (dk_usable k1 - Zlen (items k)) (Zlen (items k)) k1)) h =
      Ret tt (upd mp d (compacted k newsize inds) h) ∧
    building (compacted k newsize inds) (Zlen (items k)) inds.
Proof.
  intros Hs Hp Hfit Hh. pose proof (Zlen_nonneg (items k)).
  assert (H0 : building (unindexed k newsize) 0 (replicate (Z.to_nat newsize) DKIX_EMPTY)).
  { split.
    - eapply index_ok_ext; [|by apply index_ok_empty].
      intros i. simpl. case_decide; [|done]. unfold hashes, aget. by rewrite decide_False by lia.
    - by rewrite filled_replicate.
    - intros j Hj%aget_replicate. done. }
  destruct (build_indices_run mp d (unindexed k newsize) h (Z.to_nat (Zlen (items k))) 0 _ Hs H0)
    as (inds & Hrun & Hb); [lia|simpl; lia|intros i Hi; apply (compacted_live k newsize []); [done|lia]|].
  exists inds. change (with_indices (replicate (Z.to_nat newsize) DKIX_EMPTY) (unindexed k newsize))
    with (unindexed k newsize) in Hrun. rewrite upd_id in Hrun by done.
  rewrite Z2Nat.id, Z.add_0_l in Hb by done. split.
  - run_step; [exact Hrun|]. run_step; [apply get_keys_run|]. cbv beta.
    eapply eq_trans; [apply put_keys_run|]. unfold compacted, with_counts, unindexed, with_indices. simpl.
    by rewrite compacted_length.
  - destruct Hb as [Hi Hf Hc]. by split.
Qed.

(** ** The two cases of [dictresize] *)

(** [mp] now has a table of 2^[kk] slots with the items [its]. *)
Record resized (mp : Z) (its : list (Z * V * V)) (kk : Z) (h h' : dheap V E) (d' : dictobj V)
    (k' : dictkeys V) : Prop := {
  rs_inv : heap_inv h';
  rs_only : only_dict mp h h';
  rs_dict : has_dict h' mp d' k';
  rs_wf : table_wf d' k';
  rs_items : items k' = its;
  rs_usable : dk_usable k' = USABLE_FRACTION (2 ^ kk) - Zlen its;
  rs_size : dk_size k' = 2 ^ kk;
  rs_fresh : keys h !! ma_keys d' = None;
  rs_refs : refs h' = refs h
}.

Lemma unindexed_entries k newsize :
  dk_entries (unindexed k newsize) =
    live_entries (dk_entries k) ++
      replicate (Z.to_nat (USABLE_FRACTION newsize) - length (live_entries (dk_entries k))) null_entry.
Proof. done. Qed.
(** The entries [dictresize] copies are the live ones. *)
Lemma copy_entries_run d k newsize h :
  table_wf d k -> Zlen (items k) <= USABLE_FRACTION newsize ->
  (if dk_nentries k =? ma_used d then
     mlift (blit (replicate (Z.to_nat (USABLE_FRACTION newsize)) null_entry) 0 (dk_entries k) 0 (ma_used d))
   else copy_live (Z.to_nat (ma_used d)) (dk_entries k) 0
     (replicate (Z.to_nat (USABLE_FRACTION newsize)) null_entry) 0) h =
  Ret (dk_entries (unindexed k newsize)) h.
Proof.
  intros [_ _ Hwf Hused] Hfit. pose proof (entries_ok_paired _ (kw_pairs _ Hwf)) as Hp.
  pose proof (Zlen_nonneg (items k)) as Hnn.
  assert (Hlen : Zlen (live_entries (dk_entries k)) = ma_used d) by (rewrite live_length by done; by symmetry).
  rewrite unindexed_entries. destruct (_ =? _) eqn:Hn; bool_to_prop.
  - assert (Hlive : live_entries (dk_entries k) = take (Z.to_nat (ma_used d)) (dk_entries k)).
    { apply all_live; [|destruct Hwf; lia|done]. intros i e He Hi [key Hk].
      rewrite <- Hn in Hi. pose proof (proj2 (kw_pairs _ Hwf _ _ He) Hi). congruence. }
    unfold blit. rewrite decide_True; [|destruct Hwf; rewrite Zlen_replicate; lia].
    unfold mlift, mret, M_ret. simpl. do 3 f_equal; [by rewrite drop_0|].
    rewrite Z.add_0_l, skipn_replicate || rewrite Z.add_0_l.
    rewrite <- Hlen. unfold Zlen. rewrite Nat2Z.id. apply drop_replicate.
  - pose proof (copy_live_run (Z.to_nat (ma_used d)) (dk_entries k) [] (dk_entries k) []
      (Z.to_nat (USABLE_FRACTION newsize)) h eq_refl Hp) as Hrun.
    simpl in Hrun. change (Zlen (@nil (dictentry V))) with 0 in Hrun. rewrite Hrun.
    + unfold Zlen in Hlen. do 3 f_equal. lia.
    + unfold Zlen in Hlen. lia.
    + lia.
Qed.

(** Indexing the new table, once the dict points to it; [m] is what is left
    of the other keys objects. *)
Lemma resize_finish mp d k kk h hC a (m : gmap Z (dictkeys V)) :
  let d' := DictObj (ma_used d) a NullValues in
  heap_inv h -> dicts h !! mp = Some d -> a ≠ Py_EMPTY_KEYS -> keys h !! a = None ->
  table_size (2 ^ kk) -> paired (dk_entries k) -> Zlen (items k) <= USABLE_FRACTION (2 ^ kk) ->
  ma_used d = Zlen (items k) -> (dk_lookup k = Lookdict ∨ unicode_keys k) ->
  dicts hC = <[mp := d']> (dicts h) -> keys hC = <[a := unindexed k (2 ^ kk)]> m -> refs hC = refs h ->
  (∀ b, b ≠ Py_EMPTY_KEYS -> b ≠ ma_keys d -> m !! b = keys h !! b) ->
  (∃ n, m !! Py_EMPTY_KEYS = Some (empty_keys_struct n) ∧ 1 + empty_users (<[mp := d']> (dicts h)) <= n) ->
  dstate_ok (keys hC) (dstate hC) -> spare_dicts (dstate hC) = spare_dicts (dstate h) ->
  ∃ h' k', (_ ← build_indices (Z.to_nat (ma_used d)) mp 0;
            k1 ← get_keys mp;
            put_keys mp (with_counts (dk_usable k1 - ma_used d) (ma_used d) k1)) hC = Ret tt h' ∧
    resized mp (items k) kk h h' d' k'.
Proof.
  intros d' Hh Hd Hnz Hfree Hs Hp Hfit Hused Hl HD HK HR Hm Hempty Hst Hsp. rewrite Hused.
  assert (HC : has_dict hC mp d' (unindexed k (2 ^ kk))).
  { split; [by rewrite HD, lookup_insert_eq|]. by rewrite HK, lookup_insert_eq. }
  destruct (index_table_run mp d' k (2 ^ kk) hC Hs Hp Hfit HC) as (inds & Hrun & Hb).
  set (k' := compacted k (2 ^ kk) inds) in *.
  assert (Hwf' : table_wf d' k').
  { split; [done|done|by apply compacted_wf|]. unfold k'. by rewrite compacted_items. }
  assert (Heq : upd mp d' k' hC =
    DHeap (<[mp := d']> (dicts h)) (<[a := k']> m) (dstate hC) (refs h) (world hC)).
  { unfold upd. rewrite HD, HK, HR. simpl. by rewrite !insert_insert_eq. }
  destruct (heap_inv_move h mp d d' k' a (dstate hC) (world hC) m (refs h) Hh Hd Hwf' eq_refl Hfree Hm Hempty)
    as (Hinv & Honly & Hhas); [|done|].
  { eapply dstate_ok_dom; [|exact Hst]. intros b. by rewrite HK, !lookup_insert_None. }
  rewrite Heq in Hrun. eexists _, k'. split; [exact Hrun|].
  split; [done|done|done|done|by apply compacted_items| |done|done|done].
  simpl. by rewrite compacted_length.
Qed.

(** The opening of [dictresize] up to the allocation of the new table. *)
Lemma dictresize_alloc mp d kk h :
  heap_inv h -> dicts h !! mp = Some d -> 3 <= kk <= 60 ->
  (∃ e, dictresize mp (2 ^ kk) h = Exn (PyErr MemoryError no_msg) (set_world e h)) ∨
  (∃ a h1, new_block h h1 (2 ^ kk) a ∧ table_size (2 ^ kk) ∧
    ∀ k, keys h !! ma_keys d = Some k -> ma_used d = Zlen (items k) ->
    Zlen (items k) <= USABLE_FRACTION (2 ^ kk) ->
    dictresize mp (2 ^ kk) h =
      (let nk := with_lookup (fresh_lookup k) (fresh_keys (2 ^ kk)) in
       _ ← (match ma_values d with
            | NullValues => move_combined mp a d k nk
            | _ => move_split mp a d k nk
            end);
       _ ← build_indices (Z.to_nat (ma_used d)) mp 0;
       k1 ← get_keys mp;
       put_keys mp (with_counts (dk_usable k1 - ma_used d) (ma_used d) k1))
        (set_keys (<[a := fresh_keys (2 ^ kk)]> (keys h)) h1)).
Proof.
  intros Hh Hd Hkk. assert (Hbig : 8 <= 2 ^ kk) by (pose proof (Z.pow_le_mono_r 2 3 kk); lia).
  unfold dictresize. destruct (2 ^ kk <=? 0) eqn:Hle; bool_to_prop; [lia|].
  assert (Hpow : IS_POWER_OF_2 (2 ^ kk) = true) by (apply is_power_of_2; lia).
  assert (Hmin : (PyDict_MINSIZE <=? 2 ^ kk) = true) by by apply Z.leb_le.
  destruct (new_keys_run kk h Hkk (hi_state _ Hh)) as [[e He]|(a & h1 & He & Hb)].
  - left. exists e. run_step; [by apply cassert_run|]. run_step; [by apply cassert_run|].
    run_step; [by apply get_dict_at|]. cbv beta zeta. unfold mbind, M_bind. by rewrite He.
  - right. exists a, h1. split; [done|]. split; [by apply (block_size kk Hkk), Hb|].
    intros k Hk Hused Hfit.
    run_step; [by apply cassert_run|]. run_step; [by apply cassert_run|].
    run_step; [by apply get_dict_at|]. cbv beta zeta. run_step; [exact He|].
    run_step; [apply get_dk_at; simpl; by rewrite lookup_insert_eq|].
    destruct Hb as [_ (Hnz & Hfree & _)].
    run_step; [apply get_dk_at; simpl; rewrite lookup_insert_ne; [exact Hk|congruence]|]. cbv beta.
    run_step; [apply cassert_run, Z.leb_le; rewrite Hused; exact Hfit|]. cbv beta.
    unfold fresh_lookup. by destruct (bool_decide (dk_lookup k = Lookdict)).
Qed.

Lemma dictresize_table mp d k kk h :
  heap_inv h -> has_dict h mp d k -> table_wf d k -> 3 <= kk <= 60 ->
  Zlen (items k) <= USABLE_FRACTION (2 ^ kk) ->
  (∃ e, dictresize mp (2 ^ kk) h = Exn (PyErr MemoryError no_msg) (set_world e h)) ∨
  (∃ h' d' k', dictresize mp (2 ^ kk) h = Ret tt h' ∧ resized mp (items k) kk h h' d' k').
Proof.
  intros Hh [Hd Hk] Hwf Hkk Hfit. pose proof (kw_lookup _ (tw_keys _ _ Hwf)) as Hl.
  destruct (dictresize_alloc mp d kk h Hh Hd Hkk) as [He|(a & h1 & Hb & Hs & Hrun)]; [by left|right].
  specialize (Hrun k Hk (tw_used _ _ Hwf) Hfit). destruct Hb as [(Hsd & Hsk & Hsr) (Hnz & Hfree & Hst & Hsp & _)].
  set (d' := DictObj (ma_used d) a NullValues : dictobj V).
  set (hB := set_dicts (<[mp := d']> (dicts h)) (set_keys (<[a := unindexed k (2 ^ kk)]> (keys h)) h1)).
  assert (Hne : a ≠ ma_keys d) by congruence.
  destruct (release_block_run (ma_keys d) (dk_size k) k hB) as (s & Hrel & Hs' & Hsp').
  { apply Hwf. } { simpl. by rewrite lookup_insert_ne by done. } { simpl. apply Hst. }
  set (hC := set_dstate s (set_keys (delete (ma_keys d) (keys hB)) hB)) in *.
  destruct (resize_finish mp d k kk h hC a (delete (ma_keys d) (keys h))) as (h' & k' & Htail & Hres);
    [done|done|done|done|done|by apply entries_ok_paired, Hwf|done|apply Hwf| |done| |done| | | | |].
  - unfold lookup_ok in Hl. destruct (dk_lookup k); naive_solver.
  - simpl. by rewrite delete_insert_ne.
  - intros b _ Hb. by apply lookup_delete_ne.
  - destruct (hi_empty _ Hh) as (n & Hn & Hu). exists n.
    rewrite lookup_delete_ne by (intros Hc; by destruct (tw_own _ _ Hwf)). split; [done|].
    erewrite empty_users_insert by done. unfold uses_empty.
    rewrite (proj2 (Z.eqb_neq _ _) (tw_own _ _ Hwf)). simpl ma_keys. rewrite (proj2 (Z.eqb_neq a _) Hnz). lia.
  - done.
  - simpl. by rewrite Hsp'.
  - exists h', d', k'. split; [|done]. rewrite Hrun. cbv zeta. rewrite (tw_combined _ _ Hwf).
    run_step; [|exact Htail]. unfold move_combined. run_step; [by apply copy_entries_run|]. cbv beta.
    run_step; [eapply put_dk_at; simpl; by rewrite lookup_insert_eq|].
    run_step; [apply put_dict_at with d; simpl; by rewrite Hsd|]. cbv beta.
    run_step; [apply cassert_run; unfold lookup_ok in Hl; by destruct (dk_lookup k)|].
    run_step; [apply cassert_run, Z.eqb_eq, Hwf|].
    rewrite <- Hrel. f_equal. unfold hB, set_dicts, set_keys. simpl. by rewrite insert_insert_eq, Hsd.
Qed.

(** A dict without a table gets its first one. *)
Lemma dictresize_empty mp d k kk h :
  heap_inv h -> has_dict h mp d k -> empty_wf d k -> 3 <= kk <= 60 ->
  (∃ e, dictresize mp (2 ^ kk) h = Exn (PyErr MemoryError no_msg) (set_world e h)) ∨
  (∃ h' d' k', dictresize mp (2 ^ kk) h = Ret tt h' ∧ resized mp [] kk h h' d' k').
Proof.
  intros Hh [Hd Hk] [-> Hek] Hkk. simpl in Hk. set (d := DictObj 0 Py_EMPTY_KEYS EmptyValues : dictobj V) in *.
  destruct (dictresize_alloc mp d kk h Hh Hd Hkk) as [He|(a & h1 & Hb & Hs & Hrun)]; [by left|right].
  assert (Huf : 0 <= USABLE_FRACTION (2 ^ kk)).
  { apply table_size_bounds in Hs. pose proof (USABLE_FRACTION_bounds (2 ^ kk)). lia. }
  assert (Hits : items k = []) by by rewrite Hek.
  specialize (Hrun k Hk ltac:(by rewrite Hits) ltac:(by rewrite Hits)).
  destruct Hb as [(Hsd & Hsk & Hsr) (Hnz & Hfree & Hst & Hsp & _)].
  destruct (hi_empty _ Hh) as (n & Hn & Hu). assert (Heq : k = empty_keys_struct n) by congruence.
  set (d' := DictObj 0 a NullValues : dictobj V).
  assert (Hcnt : empty_users (<[mp := d']> (dicts h)) = empty_users (dicts h) - 1).
  { erewrite empty_users_insert by done. unfold uses_empty.
    simpl ma_keys.
    rewrite (proj2 (Z.eqb_neq a _) Hnz). simpl. lia. }
  assert (0 <= empty_users (<[mp := d']> (dicts h))) by (unfold empty_users; lia).
  set (m := <[Py_EMPTY_KEYS := empty_keys_struct (n - 1)]> (keys h)).
  set (hC := DHeap (<[mp := d']> (dicts h)) (<[a := unindexed k (2 ^ kk)]> m) (dstate h1) (refs h1) (world h1)).
  destruct (resize_finish mp d k kk h hC a m) as (h' & k' & Htail & Hres);
    [done|done|done|done|done|by rewrite Heq; apply Forall_nil|by rewrite Hits|by rewrite Hits| |done|done|done| | | | |].
  - right. rewrite Heq. intros ix e key Hix%aget_Some. simpl in Hix. zlia.
  - intros b Hb _. by apply lookup_insert_ne.
  - exists (n - 1). unfold m. rewrite lookup_insert_eq. split; [done|]. change (ma_used d) with 0. fold d'. lia.
  - eapply dstate_ok_dom; [|apply (Hst k)]. intros b. simpl. unfold m. rewrite !lookup_insert_None.
    intros [Hb1 Hb2]. split_and!; [|congruence|done]. done.
  - done.
  - rewrite Hits in Hres. exists h', d', k'. split; [|done]. rewrite Hrun. cbv zeta. simpl ma_values.
    run_step; [|exact Htail]. unfold move_split. run_step; [done|]. cbv beta.
    run_step; [eapply put_dk_at; simpl; by rewrite lookup_insert_eq|].
    run_step; [apply put_dict_at with d; simpl; by rewrite Hsd|]. cbv beta.
    run_step.
    { unfold dictkeys_decref. run_step; [apply get_dk_at; simpl; rewrite !lookup_insert_ne by done; exact Hn|].
      run_step; [apply cassert_run, Z.ltb_lt; simpl; lia|].
      run_step; [eapply put_dk_at; simpl; rewrite !lookup_insert_ne by done; exact Hn|]. cbv beta.
      change (dk_refcnt (@empty_keys_struct V n)) with n. rewrite (proj2 (Z.eqb_neq (n - 1) 0)) by lia. done. }
    run_step; [apply get_dict_at; simpl; by rewrite lookup_insert_eq|]. cbv beta.
    eapply eq_trans; [apply put_dict_at with (DictObj 0 a EmptyValues); simpl; by rewrite lookup_insert_eq|].
    f_equal. unfold hC, set_dicts, set_keys. simpl. rewrite !insert_insert_eq, Hsd.
    rewrite insert_insert_ne by done. unfold m. rewrite Heq. unfold unindexed. simpl. by rewrite Nat.sub_0_r.
Qed.
End grow.
