(* ===== verification/DictSpec.v ===== *)
(** * What a dict promises, and what a lookup finds

    When comparing and hashing keys, and releasing references, runs no code
    that changes the dicts, each of the four lookup functions finds the entry
    of a key exactly when the table has one.  The abstract dict is an association
    list in insertion order; its operations, and the facts that link them to
    what a lookup in the hash table finds. *)

From stdpp Require Import base list gmap numbers strings sets.
From S2P Require Import Prelude DictProbe DictObject DictCore DictTable DictWf DictResize DictHeap DictGrow.

(** ** References *)
Section refs.
Context {V E : Type} `{EqDecision V}.

Definition more_refs (l : list (ref_event V)) (h : dheap V E) : dheap V E :=
  DHeap (dicts h) (keys h) (dstate h) (l ++ refs h) (world h).
(** References to [v] taken minus released. *)
Fixpoint taken (v : V) (l : list (ref_event V)) : Z :=
  match l with
  | [] => 0
  | IncRef w :: l => taken v l + (if decide (w = v) then 1 else 0)
  | DecRef w :: l => taken v l - (if decide (w = v) then 1 else 0)
  end.
Definition balanced (l : list (ref_event V)) : Prop := ∀ v, taken v l = 0.

Lemma taken_app v l1 l2 : taken v (l1 ++ l2) = taken v l1 + taken v l2.
Proof. induction l1 as [|[w|w] l1 IH]; simpl; [done| |]; rewrite IH; lia. Qed.
Lemma balanced_app l1 l2 : balanced l1 -> balanced l2 -> balanced (l1 ++ l2).
Proof. intros H1 H2 v. by rewrite taken_app, H1, H2. Qed.
Lemma more_refs_app l1 l2 h : more_refs l1 (more_refs l2 h) = more_refs (l1 ++ l2) h.
Proof. unfold more_refs. simpl. by rewrite app_assoc. Qed.
Lemma more_refs_nil h : more_refs [] h = h.
Proof. by destruct h. Qed.
(** The same objects, with balanced references. *)
Definition settled (h h' : dheap V E) : Prop := ∃ l, h' = more_refs l h ∧ balanced l.
Lemma settled_refl h : settled h h.
Proof. exists []. by rewrite more_refs_nil. Qed.
Lemma settled_trans h1 h2 h3 : settled h1 h2 -> settled h2 h3 -> settled h1 h3.
Proof.
  intros (l1 & -> & H1) (l2 & -> & H2). exists (l2 ++ l1). rewrite more_refs_app.
  split; [done|]. by apply balanced_app.
Qed.
Lemma settled_has_dict h h' mp d k : settled h h' -> has_dict h mp d k -> has_dict h' mp d k.
Proof. by intros (l & -> & _). Qed.
Lemma settled_taken h h' v : settled h h' -> taken v (refs h') = taken v (refs h).
Proof. intros (l & -> & Hb). simpl. by rewrite taken_app, Hb. Qed.
End refs.

(** ** Well-behaved keys *)

(** Two exact strings with the same length, kind and data. *)
Definition ustring_eq (a b : ustring) : bool :=
  (us_length a =? us_length b) && (us_kind a =? us_kind b) &&
  memeq (us_data a) (us_data b) (us_length a * us_kind a).

(** [keq] is what comparing answers, [khash] what hashing does ([None] for
    an unhashable object).  Nothing changes the state. *)
Record well_behaved {V E} {api : DictApi V E} (keq : V -> V -> bool) (khash : V -> option Z) : Prop := {
  wb_eq : ∀ v w h, rich_eq v w h = (Some (keq v w), h);
  wb_hash : ∀ v h, run_hash v h = (khash v, h);
  wb_str : ∀ v u e, PyUnicode v = Some u -> str_hash v e = -1 ∨ khash v = Some (str_hash v e);
  wb_release : ∀ v h, on_release v h = h;
  wb_gc : ∀ h, (gc_new h).2 = h;
  wb_refl : ∀ v, keq v v = true;
  wb_sym : ∀ v w, keq v w = keq w v;
  wb_trans : ∀ u v w, keq u v = true -> keq v w = true -> keq u w = true;
  wb_hash_eq : ∀ v w, keq v w = true -> khash v = khash w;
  wb_unicode : ∀ v w a b, PyUnicode v = Some a -> PyUnicode w = Some b -> keq v w = ustring_eq a b
}.
Arguments wb_eq {V E api keq khash} _.
Arguments wb_hash {V E api keq khash} _.
Arguments wb_str {V E api keq khash} _.
Arguments wb_release {V E api keq khash} _.
Arguments wb_gc {V E api keq khash} _.
Arguments wb_refl {V E api keq khash} _.
Arguments wb_sym {V E api keq khash} _.
Arguments wb_trans {V E api keq khash} _.
Arguments wb_hash_eq {V E api keq khash} _.
Arguments wb_unicode {V E api keq khash} _.

Section lookup.
Context {V E : Type} {api : DictApi V E} `{EqDecision V}.
Context {keq : V -> V -> bool} {khash : V -> option Z} (Hwb : well_behaved keq khash).
Implicit Types (k : dictkeys V) (d : dictobj V) (h : dheap V E) (e : dictentry V).

(** Every item is stored under its hash, and no key twice. *)
Definition differ (p q : Z * V * V) : Prop := keq p.1.2 q.1.2 = false.
Record items_ok (its : list (Z * V * V)) : Prop := {
  io_hash : ∀ x key v, (x, key, v) ∈ its -> khash key = Some x;
  io_distinct : ForallOrdPairs differ its
}.

Definition entry_matches (key : V) (e : dictentry V) : bool :=
  match me_key e with Some key' => keq key' key | None => false end.
(** What a lookup of [key] may return. *)
Definition lookup_spec k (key : V) (hash : Z) (r : found) : Prop :=
  (r = (DKIX_EMPTY, None) ∧ ∀ x key' v, (x, key', v) ∈ items k -> keq key' key = false) ∨
  (∃ ix x key' v, r = (ix, Some v) ∧ 0 <= ix ∧ aget (dk_entries k) ix = Some (Entry x (Some key') (Some v)) ∧
    keq key' key = true ∧ reaches (dk_size k) (dk_indices k) hash ix).

Lemma items_entry k x key v :
  (x, key, v) ∈ items k <-> ∃ ix, aget (dk_entries k) ix = Some (Entry x (Some key) (Some v)).
Proof.
  unfold items, entry_items. rewrite list_elem_of_omap. split.
  - intros (e & [ix Hix]%elem_aget & He). exists ix. rewrite Hix. f_equal.
    destruct e as [x' [key'|] [v'|]]; unfold entry_item in He; simpl in He; congruence.
  - intros [ix Hix]. eexists. split; [by eapply aget_elem|done].
Qed.
Lemma live_item_of k ix e key :
  keys_wf k -> aget (dk_entries k) ix = Some e -> me_key e = Some key ->
  ∃ v, e = Entry (me_hash e) (Some key) (Some v) ∧ (me_hash e, key, v) ∈ items k.
Proof.
  intros Hwf He Hk. destruct (proj1 (proj1 (kw_pairs _ Hwf _ _ He))) as [v Hv]; [by eexists|].
  assert (Heq : e = Entry (me_hash e) (Some key) (Some v)) by (destruct e; simpl in *; congruence).
  exists v. split; [done|]. apply items_entry. exists ix. congruence.
Qed.

(** What visiting a slot with index [ix] answers. *)
Definition slot_result {A} (mk : found -> A) k (key : V) (ix : Z) : option A :=
  if ix =? DKIX_EMPTY then Some (mk (DKIX_EMPTY, None))
  else if 0 <=? ix then
    match aget (dk_entries k) ix with
    | Some e => if entry_matches key e then Some (mk (ix, me_value e)) else None
    | None => None
    end
  else None.

(** A probing loop whose visits answer so is a lookup. *)
Lemma lookup_probing {A} (mk : found -> A) mp d k key hash visit h :
  keys_wf k -> items_ok (items k) -> khash key = Some hash -> has_dict h mp d k ->
  (∀ j ix h', aget (dk_indices k) j = Some ix -> has_dict h' mp d k ->
     wp (visit j) (λ r h'', settled h' h'' ∧ r = slot_result mk k key ix) (λ _ _, False) h') ->
  wp (probing k hash visit) (λ a h', settled h h' ∧ ∃ r, a = mk r ∧ lookup_spec k key hash r)
    (λ _ _, False) h.
Proof.
  intros Hwf Hits Hh Hd Hvisit. pose proof (kw_index _ Hwf) as Hok. pose proof (kw_size _ Hwf) as Hs.
  apply (probing_wp k hash visit (λ n h', settled h h' ∧ ∀ m, (m < n)%nat ->
    ∃ ix, idx_at (dk_size k) (dk_indices k) hash m = Some ix ∧ slot_result mk k key ix = None)).
  - intros n h' [Hset Hpre].
    destruct (idx_at_some _ Hs (dk_indices k) hash n (ik_len _ _ _ Hok)) as [ix Hix].
    eapply wp_conseq; [apply (Hvisit _ ix); [exact Hix|by eapply settled_has_dict]| |done].
    intros r h'' [Hset' ->]. assert (settled h h'') by by eapply settled_trans.
    destruct (slot_result mk k key ix) as [a|] eqn:Hr.
    2: { split; [done|]. intros m Hm. destruct (decide (m = n)) as [->|]; [eauto|]. apply Hpre. lia. }
    split; [done|]. unfold slot_result in Hr. destruct (ix =? DKIX_EMPTY) eqn:He; bool_to_prop.
    + injection Hr as <-. eexists. split; [done|]. left. split; [done|]. subst ix.
      intros x key' v [i Hi]%items_entry. destruct (keq key' key) eqn:Hk; [exfalso|done].
      assert (Hx : hash = x).
      { assert (Hx : khash key' = Some x) by (eapply io_hash; [done|]; apply items_entry; eauto).
        rewrite (wb_hash_eq Hwb _ _ Hk) in Hx. congruence. }
      subst x. destruct (ik_reach _ _ _ Hok i hash) as (Hi0 & n0 & Hn0 & Hclear).
      { unfold hashes. by rewrite Hi. }
      destruct (decide (n0 < n)%nat) as [Hlt|].
      * destruct (Hpre n0 Hlt) as (ix & Hix' & Hnone). rewrite Hn0 in Hix'. injection Hix' as <-.
        unfold slot_result in Hnone. rewrite Hi, (proj2 (Z.leb_le _ _) Hi0) in Hnone.
        unfold entry_matches in Hnone. simpl in Hnone. rewrite Hk in Hnone.
        destruct (i =? DKIX_EMPTY); done.
      * destruct (decide (n0 = n)) as [->|]; [|by destruct (Hclear n ltac:(lia))].
        rewrite Hix in Hn0. injection Hn0 as <-. done.
    + destruct (0 <=? ix) eqn:Hix0; [|done]. bool_to_prop.
      destruct (aget (dk_entries k) ix) as [e|] eqn:Hent; [|done].
      destruct (entry_matches key e) eqn:Hm; [|done]. injection Hr as <-.
      unfold entry_matches in Hm. destruct (me_key e) as [key'|] eqn:Hkey; [|done].
      destruct (live_item_of k ix e key' Hwf Hent Hkey) as (v & Heq & _).
      eexists. split; [done|]. right. exists ix, (me_hash e), key', v.
      rewrite Heq in Hent. rewrite Heq at 1. simpl. split_and!; try done.
      exists n. split; [done|]. intros m Hm' Hempty. destruct (Hpre m Hm') as (ix' & Hix' & Hnone).
      rewrite Hempty in Hix'. injection Hix' as <-. done.
  - intros h' [_ Hpre]. destruct (filled_lt (dk_indices k)) as [j Hj].
    { rewrite (ik_len _ _ _ Hok). by apply keys_wf_free. }
    apply aget_Some in Hj as Hb. rewrite (ik_len _ _ _ Hok) in Hb.
    destruct (slot_complete _ Hs hash j Hb) as (n & Hn & Heq). destruct (Hpre n Hn) as (z & Hz & Hnone).
    unfold idx_at in Hz. rewrite Heq, Hj in Hz. injection Hz as <-. done.
  - split; [apply settled_refl|]. intros m Hm. lia.
Qed.

(** ** The four functions *)

(** The entry a slot points to. *)
Lemma slot_entry k j ix :
  keys_wf k -> items_ok (items k) -> aget (dk_indices k) j = Some ix -> 0 <= ix ->
  ∃ x key' v, aget (dk_entries k) ix = Some (Entry x (Some key') (Some v)) ∧ khash key' = Some x.
Proof.
  intros Hwf Hits Hj Hix. destruct (ik_values _ _ _ (kw_index _ Hwf) _ _ Hj) as [->|[->|[_ [x Hx]]]]; [done|done|].
  unfold hashes in Hx. destruct (aget (dk_entries k) ix) as [e|] eqn:He; [|done]. simpl in Hx.
  unfold entry_hash in Hx. destruct (me_key e) as [key'|] eqn:Hk; [|done]. injection Hx as <-.
  destruct (live_item_of k ix e key' Hwf He Hk) as (v & Heq & Hin).
  exists (me_hash e), key', v. rewrite <- Heq. split; [done|]. by eapply io_hash.
Qed.
(** Keys of different hashes differ. *)
Lemma hash_differs key' key x hash :
  khash key' = Some x -> khash key = Some hash -> x ≠ hash -> keq key' key = false.
Proof.
  intros Hx Hh Hne. destruct (keq key' key) eqn:Hk; [|done].
  apply (wb_hash_eq Hwb) in Hk. congruence.
Qed.

Lemma wp_compare {nf} v w Q X h : Q (keq v w) h -> wpo nf (RichCompareBool_EQ v w) Q X h.
Proof. intros HQ. unfold wpo, RichCompareBool_EQ. by rewrite (wb_eq Hwb). Qed.
Lemma wp_decref {nf} v Q X h : Q tt (add_ref (DecRef v) h) -> wpo nf (DECREF v) Q X h.
Proof. intros HQ. unfold wpo, DECREF, mmodify. by rewrite (wb_release Hwb). Qed.
Lemma wp_get_dict {nf} mp d Q X h : dicts h !! mp = Some d -> Q d h -> wpo nf (get_dict mp) Q X h.
Proof. intros Hd HQ. unfold wpo. by rewrite (get_dict_at _ _ _ Hd). Qed.
Lemma wp_get_dk {nf} a k Q X h : keys h !! a = Some k -> Q k h -> wpo nf (get_dk a) Q X h.
Proof. intros Hk HQ. unfold wpo. by rewrite (get_dk_at _ _ _ Hk). Qed.
Lemma wp_get_keys {nf} mp d k Q X h : has_dict h mp d k -> Q k h -> wpo nf (get_keys mp) Q X h.
Proof. intros Hd HQ. unfold wpo. by rewrite (get_keys_at _ _ _ _ Hd). Qed.
Lemma wp_get_index {nf} k j ix Q X h :
  keys_wf k -> aget (dk_indices k) j = Some ix -> Q ix h -> wpo nf (dictkeys_get_index k j) Q X h.
Proof.
  intros Hwf Hj HQ. unfold wpo. by rewrite (get_index_run k j ix) by (done || eapply index_ok_ge, Hj; apply Hwf).
Qed.
(** One reference taken and released again. *)
Lemma settled_borrow v h : settled h (add_ref (DecRef v) (add_ref (IncRef v) h)).
Proof. exists [DecRef v; IncRef v]. split; [done|]. intros w. simpl. case_decide; lia. Qed.

Section visits.
Context (mp : Z) (d : dictobj V) (k : dictkeys V) (key : V) (hash : Z).
Context (Hwf : keys_wf k) (Hits : items_ok (items k)) (Hh : khash key = Some hash).

Lemma lookdict_visit_wp j ix h :
  aget (dk_indices k) j = Some ix -> has_dict h mp d k ->
  wp (lookdict_visit mp key hash (ma_keys d) (dk_size k) j)
    (λ r h', settled h h' ∧ r = slot_result Some k key ix) (λ _ _, False) h.
Proof using Hwb Hwf Hits Hh.
  intros Hj [Hd Hk]. unfold lookdict_visit, slot_result.
  apply wp_bind, (wp_get_dk _ _ _ _ _ Hk). apply wp_bind, (wp_get_index _ _ _ _ _ _ Hwf Hj).
  destruct (ix =? DKIX_EMPTY) eqn:He; bool_to_prop; [subst; split; [apply settled_refl|done]|].
  destruct (0 <=? ix) eqn:Hix; [|split; [apply settled_refl|done]]. bool_to_prop.
  destruct (slot_entry k j ix Hwf Hits Hj Hix) as (x & key' & v & Hent & Hx). rewrite Hent.
  apply wp_bind, (wp_lift _ (Entry x (Some key') (Some v))); [done|].
  apply wp_bind, (wp_lift _ key'); [done|]. unfold entry_matches. simpl.
  case_bool_decide as Hsame.
  { subst. rewrite (wb_refl Hwb). split; [apply settled_refl|done]. }
  destruct (x =? hash) eqn:Hxh; bool_to_prop.
  2: { rewrite (hash_differs key' key x hash) by done. split; [apply settled_refl|done]. }
  apply wp_bind, wp_modify, wp_bind, wp_try, wp_compare, wp_bind, wp_decref.
  apply wp_bind, (wp_get_dict _ d); [done|]. rewrite Z.eqb_refl.
  apply wp_bind, (wp_get_dk _ k); [done|]. apply wp_bind, wp_assert; [apply Z.eqb_refl|].
  rewrite Hent. apply wp_bind, (wp_lift _ (Entry x (Some key') (Some v))); [done|].
  rewrite bool_decide_eq_true_2 by done. apply wp_ret. split; [apply settled_borrow|done].
Qed.

(** The visits of the functions for string keys. *)
Lemma same_unicode_wp x key' v h :
  PyUnicode_CheckExact key = true -> PyUnicode_CheckExact key' = true -> khash key' = Some x ->
  wp (same_unicode (Entry x (Some key') (Some v)) key hash) (λ r h', h' = h ∧ r = keq key' key)
    (λ _ _, False) h.
Proof using Hwb Hh.
  intros Hu Hu' Hx. unfold same_unicode. cbn [me_key me_hash].
  apply wp_bind, (wp_lift _ key'); [done|]. apply wp_bind, wp_assert; [done|]. case_bool_decide as Hsame.
  { subst. by rewrite (wb_refl Hwb). }
  destruct (x =? hash) eqn:Hxh; bool_to_prop.
  2: { by rewrite (hash_differs key' key x hash). }
  apply bool_decide_eq_true_1 in Hu as [b Hb], Hu' as [a Ha].
  unfold unicode_eq. rewrite Ha, Hb. apply wp_bind, (wp_lift _ a); [done|].
  apply wp_bind, (wp_lift _ b); [done|]. apply wp_ret. split; [done|].
  rewrite (wb_unicode Hwb _ _ _ _ Ha Hb). unfold ustring_eq.
  destruct (us_length a =? us_length b); [|done]. by destruct (us_kind a =? us_kind b).
Qed.
Lemma unicode_visit_wp j ix h :
  aget (dk_indices k) j = Some ix -> unicode_keys k -> PyUnicode_CheckExact key = true ->
  0 <= ix ->
  wp (ep ← mlift (aget (dk_entries k) ix);
      same ← same_unicode ep key hash;
      mret (if same : bool then Some (ix, me_value ep) else None))
    (λ r h', settled h h' ∧ r = slot_result id k key ix) (λ _ _, False) h.
Proof using Hwb Hwf Hits Hh.
  intros Hj Huni Hu Hix. unfold slot_result.
  destruct (ix =? DKIX_EMPTY) eqn:He; bool_to_prop; [unfold DKIX_EMPTY in He; lia|].
  rewrite (proj2 (Z.leb_le _ _) Hix).
  destruct (slot_entry k j ix Hwf Hits Hj Hix) as (x & key' & v & Hent & Hx). rewrite Hent.
  apply wp_bind, (wp_lift _ (Entry x (Some key') (Some v))); [done|].
  eapply wp_bind_use; [apply same_unicode_wp; [done|by eapply Huni|done]| |done].
  intros r h' [-> ->]. unfold entry_matches. simpl. apply wp_ret. split; [apply settled_refl|].
  by destruct (keq key' key).
Qed.
End visits.

(** Whatever [dk_lookup] points to finds the entry of [key]. *)
Lemma lookup_run fuel mp d k key hash h :
  table_wf d k -> has_dict h mp d k -> items_ok (items k) -> khash key = Some hash -> (0 < fuel)%nat ->
  ∃ r h', dk_lookup_call fuel mp key hash h = Ret r h' ∧ settled h h' ∧ lookup_spec k key hash r.
Proof.
  intros [_ Hcomb Hwf _] Hd Hits Hh Hf.
  assert (Hld : wp (lookdict fuel mp key hash)
    (λ r h', settled h h' ∧ lookup_spec k key hash r) (λ _ _, False) h).
  { destruct fuel as [|fuel]; [lia|]. cbn [lookdict].
    apply wp_bind, (wp_get_dict _ d); [apply Hd|]. apply wp_bind, (wp_get_dk _ k); [apply Hd|].
    eapply wp_bind_use; [apply (lookup_probing Some mp d); [done|done|done|done|]| |done].
    - intros j ix h' Hj Hd'. by apply lookdict_visit_wp.
    - intros a h' (Hset & r & -> & Hr). by apply wp_ret. }
  enough (wp (dk_lookup_call fuel mp key hash)
    (λ r h', settled h h' ∧ lookup_spec k key hash r) (λ _ _, False) h) as Hwp.
  { apply wp_outcome in Hwp as [(r & h' & ? & ? & ?)|(e & h' & _ & [])]. eauto. }
  unfold dk_lookup_call. apply wp_bind, (wp_get_keys _ d k); [done|].
  pose proof (kw_lookup _ Hwf) as Hl. unfold lookup_ok in Hl. destruct (dk_lookup k); [done| | |done].
  - unfold lookdict_unicode. apply wp_bind, (wp_get_dict _ d); [apply Hd|]. rewrite Hcomb.
    apply wp_bind, wp_assert; [done|]. destruct (PyUnicode_CheckExact key) eqn:Hu; [|done]. simpl negb.
    apply wp_bind, (wp_get_keys _ d k); [done|].
    eapply wp_conseq; [apply (lookup_probing id mp d k key hash); [done|done|done|done|]| |done].
    + intros j ix h' Hj Hd'. apply wp_bind, (wp_get_index _ _ _ _ _ _ Hwf Hj).
      destruct (ix =? DKIX_EMPTY) eqn:He; [apply wp_ret; split; [apply settled_refl|]; unfold slot_result; by rewrite He|].
      destruct (0 <=? ix) eqn:Hix; [by apply (unicode_visit_wp k key hash Hwf Hits Hh j); [| | |apply Z.leb_le]|].
      apply wp_ret. split; [apply settled_refl|]. unfold slot_result. by rewrite He, Hix.
    + intros a h' (Hset & r & -> & Hr). done.
  - destruct Hl as [Huni Hnd]. unfold lookdict_unicode_nodummy.
    apply wp_bind, (wp_get_dict _ d); [apply Hd|]. rewrite Hcomb.
    apply wp_bind, wp_assert; [done|]. destruct (PyUnicode_CheckExact key) eqn:Hu; [|done]. simpl negb.
    apply wp_bind, (wp_get_keys _ d k); [done|].
    eapply wp_conseq; [apply (lookup_probing id mp d k key hash); [done|done|done|done|]| |done].
    + intros j ix h' Hj Hd'. apply wp_bind, (wp_get_index _ _ _ _ _ _ Hwf Hj).
      apply wp_bind, wp_assert; [destruct (ix =? DKIX_DUMMY) eqn:Hdum; [bool_to_prop; subst; by destruct (Hnd j)|done]|].
      destruct (ix =? DKIX_EMPTY) eqn:He; [apply wp_ret; split; [apply settled_refl|]; unfold slot_result; by rewrite He|].
      apply (unicode_visit_wp k key hash Hwf Hits Hh j); [done|done|done|]. bool_to_prop.
      destruct (ik_values _ _ _ (kw_index _ Hwf) _ _ Hj) as [->|[->|[? _]]]; [done|by destruct (Hnd j)|done].
    + intros a h' (Hset & r & -> & Hr). done.
Qed.
End lookup.

(** ** Association lists *)
Section assoc.
Context {V : Type} (keq : V -> V -> bool).
Implicit Types l : list (V * V).

Fixpoint dget (key : V) l : option V :=
  match l with
  | [] => None
  | (k, v) :: l => if keq k key then Some v else dget key l
  end.
(** The first key stays; a new key goes to the end. *)
Fixpoint dset (key value : V) l : list (V * V) :=
  match l with
  | [] => [(key, value)]
  | (k, v) :: l => if keq k key then (k, value) :: l else (k, v) :: dset key value l
  end.
Fixpoint ddel (key : V) l : list (V * V) :=
  match l with
  | [] => []
  | (k, v) :: l => if keq k key then l else (k, v) :: ddel key l
  end.
Definition absent (key : V) l : Prop := Forall (λ p, keq p.1 key = false) l.

Lemma dget_absent key l : absent key l -> dget key l = None.
Proof. induction 1 as [|[k v] l Hk _ IH]; [done|]. simpl in *. by rewrite Hk. Qed.
Lemma dset_absent key value l : absent key l -> dset key value l = l ++ [(key, value)].
Proof. induction 1 as [|[k v] l Hk _ IH]; [done|]. simpl in *. by rewrite Hk, IH. Qed.
Lemma ddel_absent key l : absent key l -> ddel key l = l.
Proof. induction 1 as [|[k v] l Hk _ IH]; [done|]. simpl in *. by rewrite Hk, IH. Qed.
Lemma dget_found key l1 k v l2 :
  absent key l1 -> keq k key = true -> dget key (l1 ++ (k, v) :: l2) = Some v.
Proof. intros H Hk. induction H as [|[k1 v1] l1 H1 _ IH]; simpl in *; [by rewrite Hk|by rewrite H1]. Qed.
Lemma dset_found key value l1 k v l2 :
  absent key l1 -> keq k key = true -> dset key value (l1 ++ (k, v) :: l2) = l1 ++ (k, value) :: l2.
Proof. intros H Hk. induction H as [|[k1 v1] l1 H1 _ IH]; simpl in *; [by rewrite Hk|by rewrite H1, IH]. Qed.
Lemma ddel_found key l1 k v l2 :
  absent key l1 -> keq k key = true -> ddel key (l1 ++ (k, v) :: l2) = l1 ++ l2.
Proof. intros H Hk. induction H as [|[k1 v1] l1 H1 _ IH]; simpl in *; [by rewrite Hk|by rewrite H1, IH]. Qed.
End assoc.

(** ** The items of a table as an association list *)
Section pairs.
Context {V E : Type} {api : DictApi V E} `{EqDecision V}.
Context {keq : V -> V -> bool} {khash : V -> option Z} (Hwb : well_behaved keq khash).
Abbreviation items_ok := (@items_ok V keq khash).

Definition pairs (its : list (Z * V * V)) : list (V * V) := (λ '(x, k, v), (k, v)) <$> its.
(** References that the items hold. *)
Definition owned (v : V) (its : list (Z * V * V)) : Z :=
  foldr (λ '(x, k, w) n, n + (if decide (k = v) then 1 else 0) + (if decide (w = v) then 1 else 0)) 0 its.

Lemma pairs_app l1 l2 : pairs (l1 ++ l2) = pairs l1 ++ pairs l2.
Proof. apply fmap_app. Qed.
Lemma owned_app v l1 l2 : owned v (l1 ++ l2) = owned v l1 + owned v l2.
Proof. induction l1 as [|[[x k] w] l1 IH]; simpl; [done|]. rewrite IH. lia. Qed.

Lemma pairwise_app {A} (R : A -> A -> Prop) l1 l2 :
  ForallOrdPairs R (l1 ++ l2) <->
    ForallOrdPairs R l1 ∧ ForallOrdPairs R l2 ∧ ∀ a b, a ∈ l1 -> b ∈ l2 -> R a b.
Proof.
  induction l1 as [|x l1 IH]; simpl.
  { split; [|by intros (_ & ? & _)]. intros H. split_and!; [constructor|done|]. intros a b Ha. set_solver. }
  split.
  - intros H. inversion H as [|? ? Hx Hl]; subst. apply Forall_app in Hx as [Hx1 Hx2].
    apply IH in Hl as (H1 & H2 & H3). split_and!; [by constructor|done|].
    intros a b [->|Ha]%elem_of_cons Hb; [by eapply Forall_forall|eauto].
  - intros (H1 & H2 & H3). inversion H1 as [|? ? Hx Hl]; subst. constructor.
    + apply Forall_app. split; [done|]. apply Forall_forall. intros b Hb. apply H3; set_solver.
    + apply IH. split_and!; [done|done|]. intros. apply H3; set_solver.
Qed.

Lemma items_ok_split l1 x k v l2 key :
  items_ok (l1 ++ (x, k, v) :: l2) -> keq k key = true -> absent keq key (pairs l1).
Proof.
  intros [Hh Hd] Hk. unfold absent, pairs. rewrite Forall_fmap, Forall_forall. intros [[x1 k1] v1] Hin. simpl.
  apply pairwise_app in Hd as (_ & _ & Hd). destruct (keq k1 key) eqn:H1; [|done].
  rewrite <- (Hd (x1, k1, v1) (x, k, v)) by set_solver. symmetry. simpl.
  apply (wb_trans Hwb _ key); [done|]. by rewrite (wb_sym Hwb).
Qed.
Lemma items_ok_absent its key :
  (∀ x k v, (x, k, v) ∈ its -> keq k key = false) -> absent keq key (pairs its).
Proof.
  intros H. unfold absent, pairs. rewrite Forall_fmap, Forall_forall. intros [[x k] v] Hin. by apply (H x k v).
Qed.
Lemma items_ok_snoc its x key v :
  items_ok its -> khash key = Some x -> (∀ x k v, (x, k, v) ∈ its -> keq k key = false) ->
  items_ok (its ++ [(x, key, v)]).
Proof.
  intros [Hh Hd] Hx Hno. split.
  - intros x' k' v' [Hin|[= -> -> ->]%list_elem_of_singleton]%elem_of_app; eauto.
  - apply pairwise_app. split_and!; [done|repeat constructor|].
    intros [[x1 k1] v1] b Hin ->%list_elem_of_singleton. unfold differ. simpl. eauto.
Qed.
Lemma items_ok_delete l1 p l2 : items_ok (l1 ++ p :: l2) -> items_ok (l1 ++ l2).
Proof.
  intros [Hh Hd]. split; [intros x k v Hin; eapply (Hh x k v); set_solver|].
  apply pairwise_app in Hd as (H1 & H2 & H3). inversion H2; subst.
  apply pairwise_app. split_and!; [done|done|]. intros a b Ha Hb. apply H3; set_solver.
Qed.
Lemma items_ok_replace l1 x k v w l2 : items_ok (l1 ++ (x, k, v) :: l2) -> items_ok (l1 ++ (x, k, w) :: l2).
Proof.
  intros [Hh Hd]. split.
  - intros x' k' v' Hin. assert ((x', k') = (x, k) ∨ (x', k', v') ∈ l1 ++ l2) as [[= -> ->]|Hin'] by set_solver.
    + apply (Hh x k v). set_solver.
    + apply (Hh x' k' v'). set_solver.
  - apply pairwise_app in Hd as (H1 & H2 & H3). inversion H2; subst.
    apply pairwise_app. split_and!; [done|by constructor|].
    intros a b Ha [->|Hb]%elem_of_cons; [exact (H3 a (x, k, v) Ha (list_elem_of_here _ _))|apply H3; set_solver].
Qed.
Lemma items_ok_nil : items_ok [].
Proof. split; [set_solver|constructor]. Qed.
End pairs.
