(* ===== verification/DictOps.v ===== *)
(** * The operations of a dict refine those of the association list

    For well-behaved keys: storing, deleting, popping and clearing, from any
    state of the heap that satisfies its invariant. *)

From stdpp Require Import base list gmap numbers strings sets.
From S2P Require Import Prelude DictProbe DictObject DictCore DictTable DictWf DictResize DictHeap DictGrow DictSpec.

Section ops.
Context {V E : Type} {api : DictApi V E} `{EqDecision V}.
Context {keq : V -> V -> bool} {khash : V -> option Z} (Hwb : well_behaved keq khash).
Implicit Types (k : dictkeys V) (d : dictobj V) (h : dheap V E) (mp : Z).
Abbreviation items_ok := (@items_ok V keq khash).

(** ** States *)

(** [mp] is a dict with the items [its]. *)
Record dict_is (h : dheap V E) (mp : Z) (its : list (Z * V * V)) : Prop := {
  di_inv : heap_inv h;
  di_dict : is_Some (dicts h !! mp);
  di_items : dict_items h mp = its;
  di_ok : items_ok its
}.
(** From [h] to [h'], [mp] has changed to [its]; the references taken are those the
    items hold, and [extra]. *)
Record updated (mp : Z) (h h' : dheap V E) (its : list (Z * V * V)) (extra : V -> Z) : Prop := {
  up_is : dict_is h' mp its;
  up_only : only_dict mp h h';
  up_refs : ∀ v, taken v (refs h') = taken v (refs h) + owned v its - owned v (dict_items h mp) + extra v
}.

Lemma dict_is_at h mp its :
  dict_is h mp its -> ∃ d k, has_dict h mp d k ∧ dict_wf d k ∧ items k = its.
Proof.
  intros [Hi [d Hd] Hits Hok]. destruct (hi_dict _ Hi _ _ Hd) as (k & Hk & Hwf).
  exists d, k. split; [done|]. split; [done|]. rewrite <- Hits. symmetry. by apply (has_dict_items _ _ d).
Qed.
Lemma dict_is_intro h mp d k :
  heap_inv h -> has_dict h mp d k -> items_ok (items k) -> dict_is h mp (items k).
Proof.
  intros Hi Hd Hok. split; [done|eexists; apply Hd|by apply (has_dict_items _ _ d)|done].
Qed.
Lemma updated_refl h mp its : dict_is h mp its -> updated mp h h its (λ _, 0).
Proof.
  intros Hd. split; [done|apply only_dict_refl|]. intros v. rewrite (di_items _ _ _ Hd). lia.
Qed.
Lemma updated_trans mp h1 h2 h3 its2 its3 x2 x3 :
  updated mp h1 h2 its2 x2 -> updated mp h2 h3 its3 x3 -> updated mp h1 h3 its3 (λ v, x2 v + x3 v).
Proof.
  intros [I2 O2 R2] [I3 O3 R3]. split; [done|by eapply only_dict_trans|].
  intros v. rewrite R3, R2, (di_items _ _ _ I2). lia.
Qed.
Lemma updated_extra mp h h' its x y : updated mp h h' its x -> (∀ v, x v = y v) -> updated mp h h' its y.
Proof. intros [I O R] Hxy. split; [done|done|]. intros v. by rewrite R, Hxy. Qed.

(** Counting and world changes do not touch the objects. *)
Lemma dict_is_refs h mp its l : dict_is h mp its -> dict_is (more_refs l h) mp its.
Proof.
  intros [[H1 H2 H3 H4 H5] Hd Hi Ho]. by split.
Qed.
Lemma updated_more h mp its l : dict_is h mp its -> updated mp h (more_refs l h) its (λ v, taken v l).
Proof.
  intros Hd. split; [by apply dict_is_refs|split; naive_solver|].
  intros v. simpl. rewrite taken_app, (di_items _ _ _ Hd). lia.
Qed.
Lemma updated_settled h h' mp its : dict_is h mp its -> settled h h' -> updated mp h h' its (λ _, 0).
Proof.
  intros Hd (l & -> & Hb). eapply updated_extra; [by apply updated_more|]. intros v. by rewrite Hb.
Qed.
Lemma updated_world h mp its e : dict_is h mp its -> updated mp h (set_world e h) its (λ _, 0).
Proof.
  intros [Hi Hd Hits Hok]. destruct (heap_inv_world _ e Hi) as [Hi' Ho].
  split; [by split|done|]. intros v. simpl. rewrite Hits. lia.
Qed.
(** A change inside a table. *)
Lemma updated_upd h mp d k d' k' :
  heap_inv h -> has_dict h mp d k -> table_wf d k -> table_wf d' k' -> ma_keys d' = ma_keys d ->
  items_ok (items k') ->
  updated mp h (upd mp d' k' h) (items k') (λ v, owned v (items k) - owned v (items k')).
Proof.
  intros Hi Hd Hwf Hwf' Heq Hok. destruct (heap_inv_upd h mp d k d' k' Hi Hd (tw_own _ _ Hwf) Hwf' Heq) as [Hi' Ho].
  split; [apply (dict_is_intro _ _ d'); [done|apply has_dict_upd|done]|done|].
  intros v. simpl. rewrite (has_dict_items _ _ _ _ Hd). lia.
Qed.
Lemma updated_resized h h' mp its kk d' k' :
  dict_is h mp its -> resized mp its kk h h' d' k' -> updated mp h h' its (λ _, 0).
Proof.
  intros Hd [Hi Ho Hd' Hwf Hits _ _ _ Hr]. split; [|done|].
  - rewrite <- Hits. apply (dict_is_intro _ _ d'); [done|done|]. rewrite Hits. apply Hd.
  - intros v. rewrite Hr, (di_items _ _ _ Hd). lia.
Qed.

(** ** Room for one more entry *)

Lemma dictresize_run mp d k kk h :
  heap_inv h -> has_dict h mp d k -> dict_wf d k -> 3 <= kk <= 60 ->
  Zlen (items k) <= USABLE_FRACTION (2 ^ kk) ->
  (∃ e, dictresize mp (2 ^ kk) h = Exn (PyErr MemoryError no_msg) (set_world e h)) ∨
  (∃ h' d' k', dictresize mp (2 ^ kk) h = Ret tt h' ∧ resized mp (items k) kk h h' d' k').
Proof.
  intros Hi Hd [He|Ht] Hkk Hfit; [|by eapply dictresize_table].
  assert (items k = []) as -> by (by rewrite (ew_keys _ _ He)). by eapply dictresize_empty.
Qed.
Lemma used_items d k : dict_wf d k -> ma_used d = Zlen (items k) ∧ Zlen (items k) <= USABLE_FRACTION (2 ^ 58).
Proof.
  intros [[-> ->]|Hwf]; [by vm_compute|]. split; [apply Hwf|].
  pose proof (tw_keys _ _ Hwf) as Hk. unfold items. rewrite <- live_length by by apply entries_ok_paired, Hk.
  pose proof (table_size_bounds _ (kw_size _ Hk)).
  transitivity (USABLE_FRACTION (dk_size k)); [|apply USABLE_FRACTION_mono; lia].
  rewrite <- (kw_entries _ Hk). apply live_shorter.
Qed.
Lemma insertion_resize_run mp d k h :
  heap_inv h -> has_dict h mp d k -> dict_wf d k ->
  (∃ e, insertion_resize mp h = Exn (PyErr MemoryError no_msg) (set_world e h)) ∨
  (∃ h' d' k' kk, insertion_resize mp h = Ret tt h' ∧ resized mp (items k) kk h h' d' k' ∧ 0 < dk_usable k').
Proof.
  intros Hi Hd Hwf. destruct (used_items d k Hwf) as [Hused Hmax]. pose proof (Zlen_nonneg (items k)).
  pose proof (USABLE_FRACTION_bounds (2 ^ 58) ltac:(lia)).
  destruct (calculate_keysize_ge (ma_used d * 3)) as (kk & Hkk & Hsize & Hge & Hle); [lia|].
  assert (Hk60 : kk <= 60).
  { destruct (decide (60 < kk)); [|lia]. pose proof (Z.pow_le_mono_r 2 61 kk ltac:(lia) ltac:(lia)). lia. }
  assert (8 <= 2 ^ kk) by (pose proof (Z.pow_le_mono_r 2 3 kk); lia).
  pose proof (USABLE_FRACTION_bounds (2 ^ kk) ltac:(lia)) as Huf.
  destruct (dictresize_run mp d k kk h Hi Hd Hwf ltac:(lia) ltac:(lia)) as [[e He]|(h' & d' & k' & Hrun & Hres)].
  - left. exists e. unfold insertion_resize. run_step; [apply get_dict_at, Hd|]. cbv beta.
    unfold GROWTH_RATE. by rewrite Hsize.
  - right. exists h', d', k', kk. split_and!; [|done|rewrite (rs_usable _ _ _ _ _ _ _ Hres); lia].
    unfold insertion_resize. run_step; [apply get_dict_at, Hd|]. cbv beta. unfold GROWTH_RATE. by rewrite Hsize.
Qed.

(** ** Looking up in any dict *)

Lemma wp_run {nf A} (m : DM V E A) a h' Q X h : m h = Ret a h' -> Q a h' -> wpo nf m Q X h.
Proof. intros Hm HQ. unfold wpo. by rewrite Hm. Qed.
Lemma wp_exn {nf A} (m : DM V E A) e h' Q X h : m h = Exn e h' -> X e h' -> wpo nf m Q X h.
Proof. intros Hm HX. unfold wpo. by rewrite Hm. Qed.

(** In the empty table the first slot visited is empty. *)
Lemma probing_empty {A} n hash (visit : Z -> DM V E (option A)) a h :
  visit 0 h = Ret (Some a) h -> probing (@empty_keys_struct V n) hash visit h = Ret a h.
Proof.
  intros Hv. unfold probing, DK_MASK. simpl dk_size. change (1 - 1) with 0. rewrite Z.land_0_r.
  simpl. run_step; [exact Hv|]. done.
Qed.
Lemma lookup_empty_run fuel mp n key hash h :
  has_dict h mp (DictObj 0 Py_EMPTY_KEYS EmptyValues) (empty_keys_struct n) -> (0 < fuel)%nat ->
  dk_lookup_call fuel mp key hash h = Ret (DKIX_EMPTY, None) h.
Proof.
  intros Hd Hf. pose proof Hd as [Hdict Hkeys]. simpl in Hkeys.
  assert (Hld : lookdict fuel mp key hash h = Ret (DKIX_EMPTY, None) h).
  { destruct fuel as [|fuel]; [lia|]. cbn [lookdict]. run_step; [by apply get_dict_at|].
    run_step; [by apply get_dk_at|]. cbv beta.
    run_step; [apply (probing_empty _ _ _ (Some (DKIX_EMPTY, None)))|done].
    unfold lookdict_visit. run_step; [by apply get_dk_at|]. run_step; [by apply get_index_run|]. done. }
  unfold dk_lookup_call. run_step; [by apply (get_keys_at _ _ _ _ Hd)|]. simpl.
  unfold lookdict_split. run_step; [by apply get_dict_at|]. run_step; [done|]. cbv beta.
  destruct (PyUnicode_CheckExact key); simpl negb; cbv iota.
  - run_step; [by apply (get_keys_at _ _ _ _ Hd)|]. cbv beta. apply probing_empty.
    run_step; [by apply get_index_run|]. run_step; [done|]. done.
  - run_step; [exact Hld|]. done.
Qed.
Lemma lookup_wp {nf} fuel mp key hash h its Q X :
  dict_is h mp its -> khash key = Some hash -> (0 < fuel)%nat ->
  (∀ r h' d k, settled h h' -> dict_is h' mp its -> has_dict h' mp d k -> dict_wf d k -> items k = its ->
     lookup_spec (keq := keq) k key hash r -> Q r h') ->
  wpo nf (dk_lookup_call fuel mp key hash) Q X h.
Proof.
  intros Hd Hh Hf HQ. destruct (dict_is_at _ _ _ Hd) as (d & k & Hdk & Hwf & Hits).
  destruct Hwf as [He|Ht].
  - assert (Hrun : dk_lookup_call fuel mp key hash h = Ret (DKIX_EMPTY, None) h).
    { pose proof Hdk as Hdk'. rewrite (ew_dict _ _ He), (ew_keys _ _ He) in Hdk'. by eapply lookup_empty_run. }
    eapply wp_run; [exact Hrun|]. apply (HQ _ _ d k); [apply settled_refl|done|done|by left|done|].
    left. split; [done|]. rewrite (ew_keys _ _ He). intros x k' v Hin. by apply not_elem_of_nil in Hin.
  - destruct (lookup_run Hwb fuel mp d k key hash h Ht Hdk) as (r & h' & Hrun & Hset & Hr);
      [rewrite Hits; apply Hd|done|done|].
    eapply wp_run; [exact Hrun|]. apply (HQ _ _ d k); [done| |by eapply settled_has_dict|by right|done|done].
    destruct Hset as (l & -> & _). by apply dict_is_refs.
Qed.

(** ** Storing *)

Lemma room_wp {nf} mp h its Q X :
  dict_is h mp its ->
  (∀ h' d k, updated mp h h' its (λ _, 0) -> has_dict h' mp d k -> table_wf d k -> 0 < dk_usable k ->
     items k = its -> Q tt h') ->
  (∀ e, X (PyErr MemoryError no_msg) (set_world e h)) ->
  wpo nf (k ← get_keys mp; if dk_usable k <=? 0 then insertion_resize mp else mret tt) Q X h.
Proof.
  intros Hd HQ HX. destruct (dict_is_at _ _ _ Hd) as (d & k & Hdk & Hwf & Hits).
  apply wp_bind, (wp_get_keys _ d k); [done|]. destruct (dk_usable k <=? 0) eqn:Hu; bool_to_prop.
  - destruct (insertion_resize_run mp d k h (di_inv _ _ _ Hd) Hdk Hwf)
      as [[e He]|(h' & d' & k' & kk & Hrun & Hres & Hu')]; [eapply wp_exn; eauto|].
    rewrite Hits in Hres. eapply wp_run; [exact Hrun|].
    apply (HQ _ d' k'); [by eapply updated_resized|apply Hres|apply Hres|done|apply Hres].
  - apply wp_ret. destruct Hwf as [He|Ht]; [rewrite (ew_keys _ _ He) in Hu; done|].
    apply (HQ _ d k); [by apply updated_refl|done|done|done|done].
Qed.
(** A new key goes to the end. *)
Lemma insert_new_wp {nf} mp d k key hash value h Q X :
  heap_inv h -> has_dict h mp d k -> table_wf d k -> 0 < dk_usable k ->
  items_ok (items k) -> khash key = Some hash -> absent keq key (pairs (items k)) ->
  (∀ h', updated mp h h' (items k ++ [(hash, key, value)])
     (λ v, - (if decide (key = v) then 1 else 0) - (if decide (value = v) then 1 else 0)) -> Q tt h') ->
  wpo nf (insert_new_entry mp key hash value) Q X h.
Proof.
  intros Hi Hd Hwf Hu Hok Hh Habs HQ.
  destruct (insert_new_entry_run mp d k h key hash value Hwf Hu) as (k' & Hrun & Hwf' & Hits).
  rewrite upd_id in Hrun by done. eapply wp_run; [exact Hrun|]. apply HQ. rewrite <- Hits.
  eapply updated_extra; [apply (updated_upd h mp d k); [done|done|done|done|done|]|].
  - rewrite Hits. apply items_ok_snoc; [done|done|done|].
    intros x k1 v Hin. unfold absent, pairs in Habs. rewrite Forall_fmap, Forall_forall in Habs.
    apply (Habs (x, k1, v) Hin).
  - intros v. rewrite Hits, owned_app. simpl. lia.
Qed.
(** A known key keeps its place and its key object. *)
Lemma insert_found_wp {nf} mp d k ix x key' old key value h Q X :
  heap_inv h -> has_dict h mp d k -> table_wf d k -> items_ok (items k) ->
  aget (dk_entries k) ix = Some (Entry x (Some key') (Some old)) ->
  (∀ h' l1 l2, items k = l1 ++ (x, key', old) :: l2 ->
     updated mp h h' (l1 ++ (x, key', value) :: l2)
       (λ v, - (if decide (key = v) then 1 else 0) - (if decide (value = v) then 1 else 0)) -> Q tt h') ->
  wpo nf (insertdict_found mp key ix (Some old) value) Q X h.
Proof.
  intros Hi Hd Hwf Hok Hent HQ.
  set (k' := with_entries (<[Z.to_nat ix := Entry x (Some key') (Some value)]> (dk_entries k)) k).
  destruct (insertdict_found_items k ix x key' old value Hent) as (l1 & l2 & Hl & Hl'). fold k' in Hl'.
  assert (Hwf' : table_wf d k').
  { destruct Hwf as [H1 H2 H3 H4]. split; [done|done|by eapply replaced_wf|]. rewrite Hl', H4, Hl. zlia. }
  assert (Hok' : items_ok (items k')) by (rewrite Hl'; rewrite Hl in Hok; by eapply items_ok_replace).
  pose proof (updated_upd h mp d k d k' Hi Hd Hwf Hwf' eq_refl Hok') as Hup.
  assert (Hstep : (if bool_decide (Some old = Some value) then mret tt
       else _ ← cassert (negb (bool_decide (Some old = None)));
            e ← get_entry mp ix;
            put_entry mp ix (Entry (me_hash e) (me_key e) (Some value))) h = Ret tt (upd mp d k' h)).
  { rewrite <- (upd_id h mp d k Hd) at 1. case_bool_decide as Heq.
    - injection Heq as ->. unfold mret, M_ret. do 2 f_equal. unfold k'.
      unfold aget in Hent. case_decide; [|done]. rewrite list_insert_id by done. by destruct k.
    - run_step; [done|]. run_step; [by apply get_entry_run|]. cbv beta. apply put_entry_run. by apply aget_Some in Hent. }
  unfold insertdict_found. apply wp_bind. eapply wp_run; [exact Hstep|].
  apply wp_bind, (wp_decref Hwb), (wp_decref Hwb). apply (HQ _ l1 l2 Hl). rewrite Hl' in Hup.
  change (add_ref (DecRef key) (add_ref (DecRef old) (upd mp d k' h)))
    with (more_refs [DecRef key; DecRef old] (upd mp d k' h)).
  eapply updated_extra; [eapply updated_trans; [exact Hup|]|].
  - apply updated_more. rewrite <- Hl'. apply (dict_is_intro _ _ d); [apply Hup|apply has_dict_upd|done].
  - intros v. rewrite Hl, !owned_app. simpl. lia.
Qed.

Lemma resize_wp {nf} mp h its (b : bool) Q X :
  dict_is h mp its -> (∀ h', updated mp h h' its (λ _, 0) -> Q tt h') ->
  (∀ e, X (PyErr MemoryError no_msg) (set_world e h)) ->
  wpo nf (if b then insertion_resize mp else mret tt) Q X h.
Proof.
  intros Hd HQ HX. destruct b; [|by apply HQ, updated_refl].
  destruct (dict_is_at _ _ _ Hd) as (d & k & Hdk & Hwf & Hits).
  destruct (insertion_resize_run mp d k h (di_inv _ _ _ Hd) Hdk Hwf)
    as [[e He]|(h' & d' & k' & kk & Hrun & Hres & _)]; [eapply wp_exn; eauto|].
  rewrite Hits in Hres. eapply wp_run; [exact Hrun|]. apply HQ. by eapply updated_resized.
Qed.
(** What a lookup found, in terms of the items. *)
Lemma lookup_cases k key hash ix v :
  items_ok (items k) -> lookup_spec (keq := keq) k key hash (ix, v) ->
  (ix = DKIX_EMPTY ∧ v = None ∧ absent keq key (pairs (items k))) ∨
  (0 <= ix ∧ ∃ x key' old, v = Some old ∧ aget (dk_entries k) ix = Some (Entry x (Some key') (Some old)) ∧
    keq key' key = true ∧ reaches (dk_size k) (dk_indices k) hash ix ∧
    ∃ l1 l2, items k = l1 ++ (x, key', old) :: l2 ∧ absent keq key (pairs l1)).
Proof.
  intros Hok [[[= -> ->] Hno]|(i & x & key' & old & [= -> ->] & Hi & Hent & Hk & Hr)].
  - left. split_and!; [done|done|by apply items_ok_absent].
  - right. split; [done|]. exists x, key', old. split_and!; [done|done|done|done|].
    destruct (insertdict_found_items k i x key' old old Hent) as (l1 & l2 & Hl & _).
    exists l1, l2. split; [done|]. rewrite Hl in Hok. by apply (items_ok_split Hwb _ _ _ _ _ _ Hok).
Qed.

(** [insertdict] with references to a key and a value of its own. *)
Lemma insertdict_wp fuel mp key hash value h its :
  dict_is h mp its -> khash key = Some hash -> (0 < fuel)%nat ->
  wp (insertdict fuel mp key hash value)
    (λ _ h', ∃ its', updated mp h h' its' (λ _, 0) ∧ pairs its' = dset keq key value (pairs its))
    (λ e h', e = PyErr MemoryError no_msg ∧ updated mp h h' its (λ _, 0)) h.
Proof.
  intros Hd Hh Hf. set (held v := (if decide (key = v) then 1 else 0) + (if decide (value = v) then 1 else 0)).
  unfold insertdict. apply wp_bind, wp_modify, wp_bind, wp_modify.
  set (h1 := add_ref (IncRef value) (add_ref (IncRef key) h)).
  assert (H1 : updated mp h h1 its held).
  { change h1 with (more_refs [IncRef value; IncRef key] h).
    eapply updated_extra; [by apply updated_more|]. intros v. simpl. unfold held. lia. }
  destruct (di_dict _ _ _ (up_is _ _ _ _ _ H1)) as [d1 Hd1].
  apply wp_bind, (wp_get_dict _ d1 _ _ _ Hd1). apply wp_bind, wp_try.
  assert (Hfail : ∀ h2 e, updated mp h h2 its held ->
    wp (_ ← DECREF value; _ ← DECREF key; mthrow (S := dheap V E) (A := unit) (PyErr MemoryError no_msg))
      (λ _ h', ∃ its', updated mp h h' its' (λ _, 0) ∧ pairs its' = dset keq key value (pairs its))
      (λ e h', e = PyErr MemoryError no_msg ∧ updated mp h h' its (λ _, 0)) (set_world e h2)).
  { intros h2 e H2. apply wp_bind, (wp_decref Hwb), wp_bind, (wp_decref Hwb), wp_throw. split; [done|].
    change (updated mp h (more_refs [DecRef key; DecRef value] (set_world e h2)) its (λ _, 0)).
    pose proof (updated_world _ _ _ e (up_is _ _ _ _ _ H2)) as Hw.
    eapply updated_extra; [eapply updated_trans; [eapply updated_trans; [exact H2|exact Hw]|apply updated_more; apply Hw]|].
    intros v. simpl. unfold held. lia. }
  apply wp_bind, (resize_wp mp h1 its); [apply H1| |by intros e; apply Hfail].
  intros h2 H12. assert (H2 : updated mp h h2 its held).
  { eapply updated_extra; [by eapply updated_trans|]. intros v. simpl. lia. }
  apply wp_bind, (lookup_wp fuel mp key hash h2 its); [apply H2|done|done|].
  intros [ix old] h3 d k Hset Hd3 Hdk Hwf Hits Hr.
  assert (H3 : updated mp h h3 its held).
  { eapply updated_extra; [eapply updated_trans; [exact H2|by apply updated_settled; [apply H2|]]|]. intros v. simpl. lia. }
  assert (Hok : items_ok (items k)) by (rewrite Hits; apply Hd3).
  destruct (lookup_cases k key hash ix old Hok Hr)
    as [(-> & -> & Habs)|(Hix & x & key' & v & -> & Hent & Hk & _ & l1 & l2 & Hl & Habs)].
  - apply wp_bind. rewrite Z.eqb_refl. apply wp_bind, wp_assert; [done|].
    apply (room_wp mp h3 its); [done| |by intros e; apply Hfail].
    intros h4 d4 k4 H34 Hd4 Hwf4 Hu Hits4. apply wp_ret. rewrite Hits in Habs.
    apply (insert_new_wp mp d4 k4); [apply H34|done|done|done|rewrite Hits4; apply Hd3|done|by rewrite Hits4|].
    intros h5 H45. rewrite Hits4 in H45. exists (its ++ [(hash, key, value)]). split.
    + eapply updated_extra; [eapply updated_trans; [eapply updated_trans; [exact H3|exact H34]|exact H45]|].
      intros v. simpl. unfold held. lia.
    + rewrite pairs_app, dset_absent by done. done.
  - apply wp_bind. rewrite (proj2 (Z.eqb_neq ix DKIX_EMPTY)) by (unfold DKIX_EMPTY; lia).
    apply wp_ret, wp_ret.
    assert (Ht : table_wf d k).
    { destruct Hwf as [He|]; [|done]. rewrite (ew_keys _ _ He) in Hent. apply aget_Some in Hent. simpl in Hent. zlia. }
    rewrite (proj2 (Z.eqb_neq ix DKIX_EMPTY)) by (unfold DKIX_EMPTY; lia).
    apply (insert_found_wp mp d k ix x key' v); [apply Hd3|done|done|done|done|].
    intros h4 m1 m2 Hm H34. exists (m1 ++ (x, key', value) :: m2). split.
    + eapply updated_extra; [eapply updated_trans; [exact H3|exact H34]|]. intros w. simpl. unfold held. lia.
    + rewrite <- Hits, Hm, !pairs_app. simpl. rewrite dset_found; [done| |done].
      rewrite Hm in Hok. by apply (items_ok_split Hwb _ _ _ _ _ _ Hok).
Qed.

(** ** The first entry of an empty dict *)

Lemma fresh_wf : keys_wf (@fresh_keys V PyDict_MINSIZE).
Proof.
  assert (Hs : table_size PyDict_MINSIZE) by (exists 3; split; [lia|done]).
  split; simpl; try done; try lia.
  - intros i e He%aget_replicate. by subst.
  - eapply index_ok_ext; [|by apply (index_ok_empty PyDict_MINSIZE)]. intros i. unfold hashes. simpl.
    destruct (aget _ i) as [e|] eqn:He; [|done]. apply (aget_replicate 5 null_entry) in He. by subst.
  - split.
    + intros i e key He%(aget_replicate 5 null_entry). by subst.
    + intros j Hj%(aget_replicate 8). done.
Qed.
Lemma empty_to_table h h1 mp n a :
  let d' := DictObj 0 a NullValues in
  heap_inv h -> dicts h !! mp = Some (DictObj 0 Py_EMPTY_KEYS EmptyValues) ->
  keys h !! Py_EMPTY_KEYS = Some (empty_keys_struct n) -> new_block h h1 PyDict_MINSIZE a ->
  1 < n ∧
  updated mp h (DHeap (<[mp := d']> (dicts h))
      (<[a := fresh_keys PyDict_MINSIZE]> (<[Py_EMPTY_KEYS := empty_keys_struct (n - 1)]> (keys h)))
      (dstate h1) (refs h) (world h1)) [] (λ _, 0).
Proof.
  intros d' Hh Hd Hn [_ (Hnz & Hfree & Hst & Hsp & _)].
  assert (Hcnt : empty_users (<[mp := d']> (dicts h)) = empty_users (dicts h) - 1).
  { erewrite empty_users_insert by done. unfold uses_empty. simpl ma_keys.
    rewrite (proj2 (Z.eqb_neq a _) Hnz). simpl. lia. }
  assert (0 <= empty_users (<[mp := d']> (dicts h))) by (unfold empty_users; lia).
  destruct (hi_empty _ Hh) as (n' & Hn' & Hu). rewrite Hn in Hn'. injection Hn' as <-. split; [lia|].
  assert (Hwf : table_wf d' (@fresh_keys V PyDict_MINSIZE)) by (split; [done|done|apply fresh_wf|done]).
  edestruct (heap_inv_move h mp _ d' (fresh_keys PyDict_MINSIZE) a (dstate h1) (world h1)
    (<[Py_EMPTY_KEYS := empty_keys_struct (n - 1)]> (keys h)) (refs h) Hh Hd Hwf eq_refl Hfree)
    as (Hinv & Honly & Hhas).
  - intros b Hb _. by apply lookup_insert_ne.
  - exists (n - 1). rewrite lookup_insert_eq. split; [done|lia].
  - eapply dstate_ok_dom; [|apply (Hst (fresh_keys PyDict_MINSIZE))]. intros b. rewrite !lookup_insert_None.
    intros [Hb1 Hb2]. split_and!; [done| |done]. intros <-. congruence.
  - done.
  - split; [|exact Honly|].
    + apply (dict_is_intro _ _ d' (fresh_keys PyDict_MINSIZE)); [exact Hinv|exact Hhas|by apply (items_ok_nil Hwb)].
    + intros v. unfold dict_items. rewrite Hd. simpl. rewrite Hn. simpl. lia.
Qed.

Lemma decref_empty_run h n :
  keys h !! Py_EMPTY_KEYS = Some (empty_keys_struct n) -> 1 < n ->
  dictkeys_decref Py_EMPTY_KEYS h =
    Ret tt (set_keys (<[Py_EMPTY_KEYS := empty_keys_struct (n - 1)]> (keys h)) h).
Proof.
  intros Hn Hgt. unfold dictkeys_decref. run_step; [by apply get_dk_at|].
  run_step; [apply cassert_run, Z.ltb_lt; simpl; lia|]. run_step; [by eapply put_dk_at|]. cbv beta.
  change (dk_refcnt (@empty_keys_struct V n)) with n. by rewrite (proj2 (Z.eqb_neq (n - 1) 0)) by lia.
Qed.

Lemma insert_to_emptydict_wp mp key hash value h d :
  dict_is h mp [] -> dicts h !! mp = Some d -> ma_keys d = Py_EMPTY_KEYS -> khash key = Some hash ->
  wp (insert_to_emptydict mp key hash value)
    (λ _ h', updated mp h h' [(hash, key, value)] (λ _, 0))
    (λ e h', e = PyErr MemoryError no_msg ∧ updated mp h h' [] (λ _, 0)) h.
Proof.
  intros Hd Hdm Hek Hh. pose proof (di_inv _ _ _ Hd) as Hi.
  destruct (hi_dict _ Hi _ _ Hdm) as (k & Hk & [[-> _]|Ht]); [|by destruct (tw_own _ _ Ht)].
  destruct (hi_empty _ Hi) as (n & Hn & _). unfold insert_to_emptydict.
  apply wp_bind, (wp_get_dict _ _ _ _ _ Hdm), wp_bind, wp_assert; [done|].
  destruct (new_keys_run 3 h ltac:(lia) (hi_state _ Hi)) as [[e He]|(a & h1 & He & Hb)].
  { apply wp_bind. eapply wp_exn; [exact He|]. split; [done|]. by apply updated_world. }
  destruct (empty_to_table h h1 mp n a Hi Hdm Hn Hb) as [Hn1 Hup].
  destruct Hb as [(Hsd & Hsk & Hsr) (Hnz & Hfree & _)].
  apply wp_bind. eapply wp_run; [exact He|]. cbv beta.
  apply wp_bind. eapply wp_run; [apply (decref_empty_run _ n); [simpl; by rewrite lookup_insert_ne|done]|]. cbv beta.
  apply wp_bind. eapply wp_run; [eapply put_dict_at; simpl; by rewrite Hsd|]. cbv beta.
  set (k0 := @fresh_keys V PyDict_MINSIZE). set (d0 := DictObj 0 a NullValues : dictobj V).
  match type of Hup with updated _ _ ?hC _ _ => set (hC' := hC) in Hup end.
  match goal with |- wpo _ _ _ _ ?s => assert (Hs : s = hC') end.
  { unfold hC', set_dicts, set_keys. simpl. rewrite Hsd, Hsr. f_equal. by apply insert_insert_ne. }
  rewrite Hs. clear Hs. assert (HdC : has_dict hC' mp d0 k0) by (split; simpl; by rewrite lookup_insert_eq).
  rewrite <- (upd_id hC' mp d0 k0 HdC).
  apply wp_bind. eapply (wp_run _ tt (upd mp d0 (with_lookup (key_lookup k0 key) k0) hC')).
  { unfold key_lookup. destruct (PyUnicode_CheckExact key); simpl; [done|].
    run_step; [apply get_keys_run|]. apply put_keys_run. }
  apply wp_bind, wp_modify, wp_bind, wp_modify. rewrite !add_ref_upd.
  pose proof (slot_bounds _ (kw_size _ fresh_wf) hash 0) as Hsl. change (dk_size (@fresh_keys V PyDict_MINSIZE)) with 8 in Hsl.
  apply wp_bind. eapply wp_run; [apply set_index_run; [exact Hsl|done|done]|]. cbv beta.
  apply wp_bind. eapply wp_run; [by apply put_entry_run|]. cbv beta.
  apply wp_bind. eapply wp_run; [apply get_dict_run|]. cbv beta.
  apply wp_bind. eapply wp_run; [by apply put_dict_run|]. cbv beta.
  apply wp_bind. eapply wp_run; [apply get_keys_run|]. cbv beta.
  eapply wp_run; [apply put_keys_run|]. cbv beta.
  set (hR := add_ref (IncRef value) (add_ref (IncRef key) hC')).
  assert (HupR : updated mp h hR [] (λ v, (if decide (key = v) then 1 else 0) + (if decide (value = v) then 1 else 0))).
  { change hR with (more_refs [IncRef value; IncRef key] hC').
    eapply updated_extra; [eapply updated_trans; [exact Hup|by apply updated_more, Hup]|]. intros v. simpl. lia. }
  assert (Hwf0 : table_wf d0 k0) by (split; [done|done|apply fresh_wf|done]).
  set (k1 := inserted k0 (probe_slot (8 - 1) hash 0) key hash value).
  assert (Hits : items k1 = [(hash, key, value)]) by exact (inserted_items k0 fresh_wf ltac:(done) key hash value _).
  assert (Hwf1 : table_wf (DictObj 1 a NullValues) k1).
  { split; [done|done| |by rewrite Hits].
    apply (inserted_wf k0 fresh_wf ltac:(done) key hash value 0 DKIX_EMPTY); [|done|lia].
    unfold idx_at, aget. change (dk_indices k0) with (replicate 8 DKIX_EMPTY). change (dk_size k0) with 8.
    rewrite decide_True by lia. apply lookup_replicate. split; [done|]. lia. }
  assert (Hfin : updated mp hR (upd mp (DictObj 1 a NullValues) k1 hR) (items k1) (λ v, owned v [] - owned v (items k1))).
  { apply (updated_upd hR mp d0 k0); [apply HupR|done|done|done|done|].
    rewrite Hits. apply (items_ok_snoc Hwb [] hash key value); [by apply (items_ok_nil Hwb)|done|set_solver]. }
  rewrite Hits in Hfin. eapply updated_extra; [eapply updated_trans; [exact HupR|exact Hfin]|].
  intros v. simpl. lia.
Qed.

(** Storing a value under a key. *)
Lemma store_item_wp fuel mp key hash value h its :
  dict_is h mp its -> khash key = Some hash -> (0 < fuel)%nat ->
  wp (store_item fuel mp key hash value)
    (λ _ h', ∃ its', updated mp h h' its' (λ _, 0) ∧ pairs its' = dset keq key value (pairs its))
    (λ e h', e = PyErr MemoryError no_msg ∧ updated mp h h' its (λ _, 0)) h.
Proof.
  intros Hd Hh Hf. unfold store_item. destruct (dict_is_at _ _ _ Hd) as (d & k & [Hdm Hk] & Hwf & Hits).
  apply wp_bind, (wp_get_dict _ d _ _ _ Hdm). destruct (ma_keys d =? Py_EMPTY_KEYS) eqn:He; bool_to_prop.
  - destruct Hwf as [Hwf|Ht]; [|by destruct (tw_own _ _ Ht)].
    assert (its = []) as ->. { rewrite <- Hits. by rewrite (ew_keys _ _ Hwf). }
    eapply wp_conseq; [by eapply insert_to_emptydict_wp| |done].
    intros [] h' Hup. exists [(hash, key, value)]. by split.
  - by apply insertdict_wp.
Qed.
End ops.
