(* ===== verification/DictDelete.v ===== *)
(** * Taking items out: pop, popitem and clear refine the association list

    [Ci_CheckedDict_Clear] also gives the table back and releases every item. *)

From stdpp Require Import base list gmap numbers strings sets.
From S2P Require Import Prelude DictProbe DictObject DictCore DictTable DictWf DictResize DictHeap DictGrow DictSpec.
From S2P Require Import DictOps.

Section delete.
Context {V E : Type} {api : DictApi V E} `{EqDecision V}.
Context {keq : V -> V -> bool} {khash : V -> option Z} (Hwb : well_behaved keq khash).
Implicit Types (k : dictkeys V) (d : dictobj V) (h : dheap V E) (mp : Z).
Abbreviation items_ok := (@items_ok V keq khash).
Abbreviation dict_is := (@dict_is V E api keq khash).
Abbreviation updated := (@updated V E api EqDecision0 keq khash).

(** A reference to [v]. *)
Definition one (v w : V) : Z := if decide (v = w) then 1 else 0.

Lemma wp_key_hash {nf} key h Q X :
  (∀ hash, khash key = Some hash -> Q hash h) ->
  (khash key = None -> X (PyErr Foreign no_msg) h) ->
  wpo nf (key_hash key) Q X h.
Proof.
  intros HQ HX. unfold key_hash. apply wp_bind, wp_get.
  assert (Hrun : wpo nf (PyObject_Hash key) Q X h).
  { unfold wpo, PyObject_Hash. rewrite (wb_hash Hwb). destruct (khash key) as [x|]; [by apply HQ|by apply HX]. }
  destruct (negb _ || _) eqn:Hb; [done|]. apply orb_false_iff in Hb as [Hu Hne]. bool_to_prop.
  apply negb_false_iff, bool_decide_eq_true_1 in Hu as [u Hu].
  destruct (wb_str Hwb key u (world h) Hu) as [?|Hh]; [done|]. apply wp_ret. by apply HQ.
Qed.

(** Taking the entry a lookup found. *)
Lemma remove_entry_wp {nf} mp d k hash ix x key v h Q X :
  heap_inv h -> has_dict h mp d k -> table_wf d k -> items_ok (items k) ->
  aget (dk_entries k) ix = Some (Entry x (Some key) (Some v)) ->
  reaches (dk_size k) (dk_indices k) hash ix ->
  (∀ h' l1 l2, items k = l1 ++ (x, key, v) :: l2 ->
     updated mp h h' (l1 ++ l2) (λ w, one key w + one v w) -> Q key h') ->
  wpo nf (remove_entry mp hash ix) Q X h.
Proof.
  intros Hi Hd Hwf Hok Hent Hr HQ.
  destruct (remove_entry_run mp d k h hash ix x key v Hwf Hent Hr) as (k' & Hrun & Hwf' & l1 & l2 & Hl & Hl').
  rewrite upd_id in Hrun by done. eapply wp_run; [exact Hrun|]. apply (HQ _ l1 l2 Hl). rewrite <- Hl'.
  eapply updated_extra; [apply (updated_upd h mp d k); [done|done|done|done|done|]|].
  - rewrite Hl'. rewrite Hl in Hok. by eapply items_ok_delete.
  - intros w. rewrite Hl, Hl', !owned_app. simpl. unfold one. lia.
Qed.

(** ** pop *)

Lemma pop_known_wp fuel mp key hash deflt h its :
  dict_is h mp its -> khash key = Some hash -> (0 < fuel)%nat ->
  wp (Ci_CheckedDict_Pop_KnownHash fuel mp key hash deflt)
    (λ v h', (dget keq key (pairs its) = Some v ∧
                ∃ its', pairs its' = ddel keq key (pairs its) ∧ updated mp h h' its' (one v)) ∨
             (dget keq key (pairs its) = None ∧ deflt = Some v ∧ updated mp h h' its (one v)))
    (λ e h', e = PyErr KeyError no_msg ∧ dget keq key (pairs its) = None ∧ deflt = None ∧
             updated mp h h' its (λ _, 0)) h.
Proof.
  intros Hd Hh Hf. unfold Ci_CheckedDict_Pop_KnownHash.
  set (Q := λ v h', (dget keq key (pairs its) = Some v ∧
                ∃ its', pairs its' = ddel keq key (pairs its) ∧ updated mp h h' its' (one v)) ∨
             (dget keq key (pairs its) = None ∧ deflt = Some v ∧ updated mp h h' its (one v))).
  set (X := λ e h', e = PyErr KeyError no_msg ∧ dget keq key (pairs its) = None ∧ deflt = None ∧
             updated mp h h' its (λ _, 0)).
  assert (Hmissing : ∀ h1, updated mp h h1 its (λ _, 0) -> absent keq key (pairs its) ->
    wp (match deflt with Some v => _ ← INCREF v; mret v | None => mraise KeyError no_msg end) Q X h1).
  { intros h1 H1 Habs. pose proof (dget_absent keq key _ Habs) as Hget. destruct deflt as [v|].
    - apply wp_bind, wp_modify, wp_ret. right. split_and!; [done|done|].
      change (updated mp h (more_refs [IncRef v] h1) its (one v)).
      eapply updated_extra; [eapply updated_trans; [exact H1|apply updated_more, H1]|]. intros w. simpl. unfold one. lia.
    - by apply wp_raise. }
  destruct (dict_is_at _ _ _ Hd) as (d & k & Hdk & Hwf & Hits).
  apply wp_bind, (wp_get_dict _ d); [apply Hdk|]. destruct (ma_used d =? 0) eqn:Hu; bool_to_prop.
  { apply Hmissing; [by apply updated_refl|]. destruct (used_items d k Hwf) as [Hlen _].
    assert (its = []) as ->; [|constructor]. apply Zlen_0_inv. rewrite <- Hits. lia. }
  apply wp_bind, (lookup_wp Hwb fuel mp key hash h its); [done|done|done|].
  intros [ix old] h1 d1 k1 Hset Hd1 Hdk1 Hwf1 Hits1 Hr.
  assert (H1 : updated mp h h1 its (λ _, 0)) by by apply updated_settled.
  assert (Hok : items_ok (items k1)) by (rewrite Hits1; apply Hd1).
  destruct (lookup_cases Hwb k1 key hash ix old Hok Hr)
    as [(-> & -> & Habs)|(Hix & x & key' & v & -> & Hent & Hk & Hreach & _)].
  { rewrite Hits1 in Habs. by apply Hmissing. }
  rewrite (proj2 (Z.eqb_neq ix DKIX_EMPTY)) by (unfold DKIX_EMPTY; lia).
  assert (Ht : table_wf d1 k1).
  { destruct Hwf1 as [He|]; [|done]. rewrite (ew_keys _ _ He) in Hent. apply aget_Some in Hent. simpl in Hent. zlia. }
  apply wp_bind, (remove_entry_wp mp d1 k1 hash ix x key' v); [apply Hd1|done|done|done|done|done|].
  intros h2 l1 l2 Hl H12. apply wp_bind, (wp_decref Hwb), wp_ret. left.
  assert (Habs : absent keq key (pairs l1)) by (rewrite Hl in Hok; by apply (items_ok_split Hwb _ _ _ _ _ _ Hok)).
  rewrite <- Hits1, Hl, pairs_app. simpl. split; [by apply dget_found|].
  exists (l1 ++ l2). split; [by rewrite pairs_app, ddel_found|].
  change (updated mp h (more_refs [DecRef key'] h2) (l1 ++ l2) (one v)).
  eapply updated_extra; [eapply updated_trans; [eapply updated_trans; [exact H1|exact H12]|apply updated_more, H12]|].
  intros w. simpl. unfold one. lia.
Qed.

(** ** popitem *)

Lemma last_live_run (l : list (dictentry V)) i fuel s :
  paired l -> i < Zlen l -> (∃ j e, aget l j = Some e ∧ live e ∧ j <= i) -> (Z.to_nat (i + 1) < fuel)%nat ->
  ∃ j e, last_live fuel l i s = Ret (S := dheap V E) j s ∧ aget l j = Some e ∧ live e ∧ j <= i ∧
    ∀ m e', aget l m = Some e' -> j < m <= i -> ¬ live e'.
Proof.
  intros Hp. revert i. induction fuel as [|fuel IH]; intros i Hi (j & e & Hj & Hl & Hji) Hf; [lia|].
  apply aget_Some in Hj as Hb. cbn [last_live]. rewrite (proj2 (Z.leb_le 0 i)) by lia.
  destruct (aget_lt l i ltac:(lia)) as [ei Hei]. rewrite Hei.
  assert (Hpi : is_Some (me_key ei) <-> is_Some (me_value ei)).
  { unfold paired in Hp. rewrite Forall_forall in Hp. by apply Hp, (aget_elem _ i). }
  destruct (me_value ei) as [v|] eqn:Hv.
  - exists i, ei. split_and!; [|done|by apply Hpi|lia|intros; lia].
    run_step; [done|]. cbv beta. by rewrite Hv.
  - assert (Hdead : ¬ live ei). { intros Hlive. apply Hpi in Hlive as []. done. }
    destruct (IH (i - 1)) as (j' & e' & Hrun & Hj' & Hl' & Hle & Hno); [lia| |lia|].
    { exists j, e. split_and!; [done|done|]. destruct (decide (j = i)) as [->|]; [congruence|lia]. }
    exists j', e'. split_and!; [|done|done|lia|].
    + run_step; [done|]. cbv beta. by rewrite Hv.
    + intros m em Hm Hr. destruct (decide (m = i)) as [->|]; [congruence|]. apply (Hno m em Hm). lia.
Qed.

(** The last live entry is the last item. *)
Lemma last_item k i j x key v :
  aget (dk_entries k) i = Some (Entry x (Some key) (Some v)) ->
  (∀ m e, aget (dk_entries k) m = Some e -> i < m -> ¬ live e) ->
  ∃ l, items k = l ++ [(x, key, v)] ∧ items (removed k j i i (Entry x (Some key) (Some v))) = l.
Proof.
  intros Hi Hlast. destruct (entries_around _ _ _ Hi) as (l1 & l2 & Hl & Hlen & Hins).
  assert (H2 : entry_items l2 = []).
  { apply entry_items_none. intros q e Hq. apply aget_Some in Hq as ?.
    destruct (me_key e) eqn:Hk; [|done]. exfalso. apply (Hlast (Zlen l1 + 1 + q) e); [|lia|by eexists].
    rewrite Hl, aget_app_r by lia. change (?y :: l2) with ([y] ++ l2).
    rewrite aget_app_r by zlia. rewrite <- Hq. f_equal. zlia. }
  exists (entry_items l1). unfold items. simpl. rewrite Hins, Hl, !entry_items_app. split.
  - f_equal. by rewrite entry_items_cons, H2.
  - by rewrite entry_items_cons, H2, app_nil_r.
Qed.

(** The table [popitem] leaves. *)
Lemma popitem_table mp d k h :
  table_wf d k -> 0 < Zlen (items k) ->
  ∃ l x key v k', items k = l ++ [(x, key, v)] ∧ items k' = l ∧
    table_wf (DictObj (ma_used d - 1) (ma_keys d) NullValues) k' ∧
    (_ ← ENSURE_ALLOWS_DELETIONS mp;
     k ← get_keys mp;
     i ← last_live (S (length (dk_entries k))) (dk_entries k) (dk_nentries k - 1);
     _ ← cassert (0 <=? i);
     ep ← get_entry mp i;
     j ← lookdict_index k (me_hash ep) i;
     _ ← cassert (0 <=? j);
     ix ← dictkeys_get_index k j;
     _ ← cassert (ix =? i);
     _ ← dictkeys_set_index mp j DKIX_DUMMY;
     _ ← put_entry mp i (Entry (me_hash ep) None None);
     k ← get_keys mp;
     _ ← put_keys mp (with_counts (dk_usable k) i k);
     d ← get_dict mp;
     _ ← put_dict mp (DictObj (ma_used d - 1) (ma_keys d) (ma_values d));
     old_key ← mlift (me_key ep);
     old_value ← mlift (me_value ep);
     mret (old_key, old_value)) (upd mp d k h) =
    Ret (key, v) (upd mp (DictObj (ma_used d - 1) (ma_keys d) NullValues) k' h).
Proof.
  intros [Hown Hcomb Hwf Hused] Hne. pose proof (entries_ok_paired _ (kw_pairs _ Hwf)) as Hp.
  pose proof (kw_size _ Hwf) as Hs. pose proof (kw_index _ Hwf) as Hok.
  assert (Hlive : ∃ j e, aget (dk_entries k) j = Some e ∧ live e ∧ j <= dk_nentries k - 1).
  { destruct (Zlen_pos_inv _ Hne) as ([[x key] v] & its & Hits).
    assert ((x, key, v) ∈ items k) as [j Hj]%items_entry by (rewrite Hits; set_solver).
    exists j, (Entry x (Some key) (Some v)). split_and!; [done|by eexists|].
    pose proof (live_below k j _ Hwf Hj (mk_is_Some _ _ eq_refl)). lia. }
  set (k0 := with_lookup (allow_dummy (dk_lookup k)) k).
  destruct (last_live_run (dk_entries k) (dk_nentries k - 1) (S (length (dk_entries k))) (upd mp d k0 h) Hp)
    as (i & e & Hrun & Hi & Hli & Hle & Hno); [destruct Hwf; lia|done|destruct Hwf; unfold Zlen in *; lia|].
  destruct Hli as [key Hkey]. destruct (live_item_of k i e key Hwf Hi Hkey) as (v & Heq & _).
  set (x := me_hash e) in *. rewrite Heq in Hi. apply aget_Some in Hi as Hib.
  destruct (ik_reach _ _ _ Hok i x) as [Hi0 Hreach]; [unfold hashes; by rewrite Hi|].
  destruct (lookdict_index_run k0 (hashes k) Hs Hok x i (upd mp d k0 h)) as (j & Hrj & Hj); [lia|done|].
  apply aget_Some in Hj as Hjb.
  assert (Hlast : ∀ m e', aget (dk_entries k) m = Some e' -> i < m -> ¬ live e').
  { intros m e' Hm Him. destruct (decide (m <= dk_nentries k - 1)); [by apply (Hno m e' Hm)|].
    intros [key' Hk']. pose proof (proj2 (kw_pairs _ Hwf _ _ Hm) ltac:(lia)). congruence. }
  destruct (last_item k i j x key v Hi Hlast) as (l & Hl & Hl').
  exists l, x, key, v, (removed k j i i (Entry x (Some key) (Some v))). split_and!; [done|done| |].
  { split; [done|done| |simpl; rewrite Hl', Hused, Hl; zlia].
    apply removed_wf; [done|done|done|]. right. split; [done|]. intros m e' Hm Him.
    destruct (me_key e') eqn:Hk'; [|done]. destruct (Hlast m e' Hm Him). by eexists. }
  run_step; [apply ensure_run|]. fold k0. run_step; [apply get_keys_run|]. cbv beta.
  run_step; [exact Hrun|]. cbv beta. run_step; [by apply cassert_run, Z.leb_le|].
  run_step; [by apply get_entry_run|]. cbv beta. run_step; [exact Hrj|]. cbv beta.
  run_step; [apply cassert_run, Z.leb_le; lia|].
  run_step; [apply (get_index_run k0 j i); [done|unfold DKIX_DUMMY; lia]|]. cbv beta.
  run_step; [apply cassert_run, Z.eqb_refl|].
  run_step; [apply set_index_run; [done|done|]|].
  { pose proof (table_size_bounds _ Hs). pose proof (USABLE_FRACTION_bounds (dk_size k)).
    apply index_fits; [done|]. unfold DKIX_DUMMY. simpl. lia. }
  run_step; [by apply put_entry_run|]. run_step; [apply get_keys_run|]. run_step; [apply put_keys_run|].
  run_step; [apply get_dict_run|]. cbv beta. rewrite Hcomb. run_step; [by apply put_dict_run|]. done.
Qed.

Lemma popitem_wp mp h its :
  dict_is h mp its ->
  wp (dict_popitem_impl mp)
    (λ r h', ∃ x its', its = its' ++ [(x, r.1, r.2)] ∧ updated mp h h' its' (λ w, one r.1 w + one r.2 w))
    (λ e h', h' = h ∧ (e = PyErr MemoryError no_msg ∨
      (its = [] ∧ e = PyErr KeyError "popitem(): dictionary is empty"))) h.
Proof.
  intros Hd. unfold dict_popitem_impl. destruct (dict_is_at _ _ _ Hd) as (d & k & Hdk & Hwf & Hits).
  destruct (used_items d k Hwf) as [Hused _]. rewrite Hits in Hused.
  apply wp_bind. unfold wpo at 1, PyObject_GC_New. pose proof (wb_gc Hwb h) as Hgc.
  destruct (gc_new h) as [[a|] h1]; simpl in Hgc; subst h1; [|apply wp_raise; auto].
  apply wp_bind, (wp_get_dict _ d); [apply Hdk|]. destruct (ma_used d =? 0) eqn:Hu; bool_to_prop.
  { apply wp_raise. split; [done|]. right. split; [|done]. apply Zlen_0_inv. lia. }
  pose proof (Zlen_nonneg its).
  assert (Ht : table_wf d k).
  { destruct Hwf as [He|]; [|done]. rewrite (ew_dict _ _ He) in Hu. done. }
  apply wp_bind, (wp_get_keys _ d k); [done|].
  assert (Hns : bool_decide (dk_lookup k = LookdictSplit) = false).
  { apply bool_decide_eq_false. intros Hs. pose proof (kw_lookup _ (tw_keys _ _ Ht)) as Hl.
    unfold lookup_ok in Hl. by rewrite Hs in Hl. }
  rewrite Hns. apply wp_bind, wp_ret.
  destruct (popitem_table mp d k h Ht) as (l & x & key & v & k' & Hl & Hl' & Hwf' & Hrun); [rewrite Hits; lia|].
  rewrite upd_id in Hrun by done. eapply wp_run; [exact Hrun|]. exists x, l. simpl.
  rewrite <- Hits. split; [done|]. rewrite <- Hl'.
  eapply updated_extra; [apply (updated_upd h mp d k); [apply Hd|done|done|done|done|]|].
  - rewrite Hl'. pose proof (di_ok _ _ _ Hd) as Hok. rewrite <- Hits, Hl in Hok.
    apply (items_ok_delete Hwb) in Hok. by rewrite app_nil_r in Hok.
  - intros w. rewrite Hl, Hl', owned_app. simpl. unfold one. lia.
Qed.
End delete.

Section clear.
Context {V E : Type} {api : DictApi V E} `{EqDecision V}.
Context {keq : V -> V -> bool} {khash : V -> option Z} (Hwb : well_behaved keq khash).
Implicit Types (k : dictkeys V) (d : dictobj V) (h : dheap V E) (mp : Z).
Abbreviation dict_is := (@dict_is V E api keq khash).
Abbreviation updated := (@updated V E api EqDecision0 keq khash).

Lemma xdecref_run (v : option V) h :
  XDECREF v h = Ret tt (more_refs (match v with Some v => [DecRef v] | None => [] end) h).
Proof.
  destruct v as [v|]; simpl; [|by rewrite more_refs_nil]. unfold DECREF, mmodify. by rewrite (wb_release Hwb).
Qed.
(** Each live entry releases its key and its value. *)
Lemma release_entries_run k dk pre now_ post h :
  keys h !! dk = Some k -> dk_entries k = pre ++ now_ ++ post -> paired now_ ->
  ∃ l, release_entries (length now_) dk (Zlen pre) h = Ret tt (more_refs l h) ∧
    ∀ v, taken v l = - owned v (entry_items now_).
Proof.
  intros Hk He Hp. revert pre h Hk He. induction Hp as [|e now_ Hpe Hp IH]; intros pre h Hk He.
  { exists []. simpl. by rewrite more_refs_nil. }
  set (l0 := match me_value e with Some v => [DecRef v] | None => [] end ++
             match me_key e with Some v => [DecRef v] | None => [] end).
  destruct (IH (pre ++ [e]) (more_refs l0 h)) as (l & Hrun & Hl); [done|by rewrite He, <- app_assoc|].
  exists (l ++ l0). split.
  - assert (Hent : aget (dk_entries k) (Zlen pre) = Some e) by (rewrite He; by apply aget_app).
    cbn [length release_entries]. run_step; [by apply get_dk_at|]. cbv beta. rewrite Hent. run_step; [done|]. cbv beta.
    run_step; [apply xdecref_run|]. run_step; [by apply get_dk_at|]. cbv beta. rewrite Hent. run_step; [done|]. cbv beta.
    run_step; [apply xdecref_run|]. cbv beta. rewrite more_refs_app. fold l0.
    replace (Zlen pre + 1) with (Zlen (pre ++ [e])) by zlia. rewrite Hrun. by rewrite more_refs_app.
  - intros v. rewrite taken_app, Hl, entry_items_cons. unfold l0, entry_item.
    destruct (me_key e) as [key|], (me_value e) as [w|]; simpl.
    + lia.
    + by destruct (proj1 Hpe (mk_is_Some _ _ eq_refl)).
    + by destruct (proj2 Hpe (mk_is_Some _ _ eq_refl)).
    + lia.
Qed.
(** The last reference to a table releases its items and its block. *)
Lemma decref_table_run k a h :
  keys h !! a = Some k -> a ≠ Py_EMPTY_KEYS -> keys_wf k -> dstate_ok (keys h) (dstate h) ->
  ∃ l s, dictkeys_decref a h =
      Ret tt (more_refs l (set_dstate s (set_keys (delete a (keys h)) h))) ∧
    dstate_ok (delete a (keys h)) s ∧ spare_dicts s = spare_dicts (dstate h) ∧ ∀ v, taken v l = - owned v (items k).
Proof.
  intros Hk Hnz Hwf Hst. set (k0 := with_refcnt 0 k). set (h0 := set_keys (<[a := k0]> (keys h)) h).
  assert (Hk0 : keys h0 !! a = Some k0) by (simpl; by rewrite lookup_insert_eq).
  pose proof (entries_ok_paired _ (kw_pairs _ Hwf)) as Hp.
  assert (Hn : 0 <= dk_nentries k <= Zlen (dk_entries k)) by (destruct Hwf; lia).
  destruct (Zlen_split _ _ Hn) as (now_ & post & He & Hlen).
  pose proof Hp as Hp'. rewrite He in Hp'. apply Forall_app in Hp' as [Hp1 _].
  destruct (release_entries_run k0 a [] now_ post h0 Hk0 He Hp1) as (l & Hrun & Hl).
  destruct (release_block_run a (dk_size k) k0 (more_refs l h0) Hnz Hk0) as (s & Hrel & Hs & Hsp).
  { simpl. eapply dstate_ok_update; done. }
  exists l, s. split_and!.
  - unfold dictkeys_decref. run_step; [by apply get_dk_at|]. cbv beta. rewrite (kw_refcnt _ Hwf).
    run_step; [done|]. run_step; [by eapply put_dk_at|]. cbv beta. simpl Z.eqb. cbv iota. fold k0 h0.
    unfold free_keys_object. run_step; [by apply get_dk_at|]. cbv beta.
    replace (Z.to_nat (dk_nentries k0)) with (length now_) by (simpl; unfold Zlen in Hlen; lia).
    run_step; [exact Hrun|]. cbv beta. rewrite (proj2 (Z.eqb_neq _ _) Hnz).
    run_step; [by apply get_dk_at|]. cbv beta. eapply eq_trans; [exact Hrel|].
    f_equal. unfold more_refs, set_dstate, set_keys. simpl. by rewrite delete_insert_eq.
  - simpl in Hs. by rewrite delete_insert_eq in Hs.
  - exact Hsp.
  - intros v. rewrite Hl. unfold items. rewrite He, entry_items_app.
    rewrite (entry_items_none post), app_nil_r; [done|]. intros i e Hi. apply aget_Some in Hi as ?.
    apply (kw_pairs _ Hwf (Zlen now_ + i)); [|lia]. rewrite He, aget_app_r by lia. rewrite <- Hi. f_equal. lia.
Qed.

(** A dict that goes back to the empty table. *)
Lemma heap_inv_drop h mp d k n s r w :
  let d' := DictObj 0 Py_EMPTY_KEYS EmptyValues in
  let m := delete (ma_keys d) (<[Py_EMPTY_KEYS := empty_keys_struct (n + 1)]> (keys h)) in
  heap_inv h -> has_dict h mp d k -> table_wf d k -> keys h !! Py_EMPTY_KEYS = Some (empty_keys_struct n) ->
  dstate_ok m s -> spare_dicts s = spare_dicts (dstate h) ->
  let h' := DHeap (<[mp := d']> (dicts h)) m s r w in
  heap_inv h' ∧ only_dict mp h h' ∧ has_dict h' mp d' (empty_keys_struct (n + 1)).
Proof.
  intros d' m Hh [Hd Hk] Hwf Hn Hs Hsp h'. pose proof (tw_own _ _ Hwf) as Hnz.
  assert (Hm0 : m !! Py_EMPTY_KEYS = Some (empty_keys_struct (n + 1))).
  { unfold m. rewrite lookup_delete_ne by done. by rewrite lookup_insert_eq. }
  assert (Hm : ∀ b, b ≠ Py_EMPTY_KEYS -> b ≠ ma_keys d -> m !! b = keys h !! b).
  { intros b H1 H2. unfold m. rewrite lookup_delete_ne by done. by apply lookup_insert_ne. }
  split_and!; [split|split|split]; simpl; try done.
  - intros mp1 d1. destruct (decide (mp1 = mp)) as [->|Hne].
    + rewrite lookup_insert_eq. intros [= <-]. eexists. split; [exact Hm0|]. left. by split.
    + rewrite lookup_insert_ne by done. intros Hd1. destruct (hi_dict _ Hh _ _ Hd1) as (k1 & Hk1 & Hw).
      destruct (decide (ma_keys d1 = Py_EMPTY_KEYS)) as [He|Hne0].
      * eexists. rewrite He. split; [exact Hm0|]. left.
        destruct Hw as [[Hw _]|Hw]; [by split|]. by destruct (tw_own _ _ Hw).
      * exists k1. rewrite Hm; [done|done|]. intros Hc. apply Hne. by apply (hi_own _ Hh mp1 mp d1 d).
  - intros mp1 mp2 d1 d2. destruct (decide (mp1 = mp)) as [->|H1], (decide (mp2 = mp)) as [->|H2];
      rewrite ?lookup_insert_eq, ?lookup_insert_ne by done; try done.
    + by intros [= <-] _ _.
    + intros _ [= <-] Hc. by rewrite Hc.
    + apply (hi_own _ Hh).
  - exists (n + 1). split; [done|]. destruct (hi_empty _ Hh) as (n' & Hn' & Hu). rewrite Hn in Hn'. injection Hn' as <-.
    erewrite empty_users_insert by done. unfold uses_empty. rewrite (proj2 (Z.eqb_neq _ _) Hnz). simpl. lia.
  - by eapply spare_ok_update, Hh.
  - intros mp' Hmp. by rewrite lookup_insert_ne.
  - intros b Hb _ Hno. apply Hm; [done|]. intros ->. by apply (Hno d).
  - intros d1. rewrite lookup_insert_eq. intros [= <-]. by left.
  - by rewrite lookup_insert_eq.
Qed.

Lemma clear_wp mp h its :
  dict_is h mp its ->
  wp (Ci_CheckedDict_Clear mp) (λ _ h', updated mp h h' [] (λ _, 0)) (λ _ _, False) h.
Proof.
  intros Hd. destruct (dict_is_at _ _ _ Hd) as (d & k & Hdk & Hwf & Hits). pose proof (di_inv _ _ _ Hd) as Hi.
  unfold Ci_CheckedDict_Clear. apply wp_bind, (wp_get_dict _ d); [apply Hdk|].
  destruct Hwf as [He|Ht].
  { rewrite (ew_dict _ _ He). apply wp_ret. assert (its = []) as -> by (rewrite <- Hits; by rewrite (ew_keys _ _ He)).
    by apply updated_refl. }
  rewrite (tw_combined _ _ Ht). destruct (hi_empty _ Hi) as (n & Hn & _). destruct Hdk as [Hdm Hk].
  pose proof (tw_own _ _ Ht) as Hnz.
  apply wp_bind. unfold dictkeys_incref. apply wp_bind, (wp_get_dk _ _ _ _ _ Hn).
  eapply wp_run; [eapply put_dk_at, Hn|]. cbv beta.
  apply wp_bind. eapply wp_run; [by eapply put_dict_at|]. cbv beta.
  match goal with |- wpo _ _ _ _ ?s => set (h1 := s) end.
  assert (Hk1 : keys h1 !! ma_keys d = Some k) by (simpl; by rewrite lookup_insert_ne).
  apply wp_bind, (wp_get_dk _ _ _ _ _ Hk1).
  apply wp_bind, wp_assert; [apply Z.eqb_eq, Ht|].
  destruct (decref_table_run k (ma_keys d) h1 Hk1 Hnz (tw_keys _ _ Ht)) as (l & s & Hrun & Hs & Hsp & Hl).
  { simpl. eapply dstate_ok_update; [exact Hn|apply Hi]. }
  eapply wp_run; [exact Hrun|]. cbv beta.
  destruct (heap_inv_drop h mp d k n s (l ++ refs h) (world h) Hi (conj Hdm Hk) Ht Hn Hs Hsp) as (Hinv & Honly & Hhas).
  split; [|exact Honly|].
  - apply (dict_is_intro _ _ _ _ Hinv Hhas). by apply (items_ok_nil Hwb).
  - intros v. simpl. rewrite taken_app, Hl, (has_dict_items _ _ _ _ (conj Hdm Hk)). lia.
Qed.
End clear.
