(* ===== verification/CheckedDict.v ===== *)
(** * The methods of [CheckedDict[K, V]]

    Queries, [get], [setdefault], subscripts, new dicts and the consistency
    check of [checked_dict.c], on top of its hash table. *)

From stdpp Require Import base list gmap numbers strings.
From S2P Require Import Prelude TypeCheck DictProbe DictObject DictCore.

(** [sizeof(CiChkDictObject)] without its GC header. *)
Definition DICT_BYTES : Z := 40.

(** A lookup's answer, to the caller that tests
    [ix == DKIX_EMPTY || value == NULL]. *)
Definition found_value {V} (r : Z * option V) : option V :=
  if r.1 =? DKIX_EMPTY then None else r.2.

Section queries.
Context {V E : Type} {api : DictApi V E} `{EqDecision V}.

(** ** Size *)

Definition dict_length (mp : Z) : DM V E Z := d ← get_dict mp; mret (ma_used d).
Definition Ci_CheckedDict_KeysSize (k : dictkeys V) : Z :=
  KEYS_HEADER + DK_IXSIZE (dk_size k) * dk_size k + USABLE_FRACTION (dk_size k) * ENTRY_BYTES.
Definition _CiDict_SizeOf (mp : Z) : DM V E Z :=
  d ← get_dict mp;
  k ← get_dk (ma_keys d);
  let size := dk_size k in
  let usable := USABLE_FRACTION size in
  let res := DICT_BYTES + (if is_null (ma_values d) then 0 else usable * SIZEOF_PTR) in
  mret (if dk_refcnt k =? 1 then res + (KEYS_HEADER + DK_IXSIZE size * size + ENTRY_BYTES * usable)
        else res).

(** [Ci_CheckedDict_CheckConsistency]: [true] when no [CHECK] fails. *)
Definition check_entry (h : dheap V E) (entry : dictentry V) : bool :=
  match me_key entry with
  | None => true
  | Some key =>
      (if PyUnicode_CheckExact key then
         negb (str_hash key (world h) =? -1) && (me_hash entry =? str_hash key (world h))
       else negb (me_hash entry =? -1))
      && negb (bool_decide (me_value entry = None))
  end.
Definition Ci_CheckedDict_CheckConsistency (mp : Z) (check_content : bool) : DM V E bool :=
  d ← get_dict mp;
  k ← get_dk (ma_keys d);
  h ← mget;
  let usable := USABLE_FRACTION (dk_size k) in
  mret (
    (0 <=? ma_used d) && (ma_used d <=? usable)
    && IS_POWER_OF_2 (dk_size k)
    && (0 <=? dk_usable k) && (dk_usable k <=? usable)
    && (0 <=? dk_nentries k) && (dk_nentries k <=? usable)
    && (dk_usable k + dk_nentries k <=? usable)
    && ((ma_keys d =? Py_EMPTY_KEYS) || (dk_refcnt k =? 1))
    && (negb check_content ||
        (forallb (λ ix, (DKIX_DUMMY <=? ix) && (ix <=? usable)) (dk_indices k)
         && forallb (check_entry h) (dk_entries k)))).

(** ** Looking a key up *)

Definition dict_subscript (fuel : nat) (mp : Z) (key : V) : DM V E V :=
  hash ← key_hash key;
  r ← dk_lookup_call fuel mp key hash;
  match found_value r with
  | None => mraise KeyError no_msg
  | Some value => _ ← INCREF value; mret value
  end.
Definition _CiDict_Contains_KnownHash (fuel : nat) (mp : Z) (key : V) (hash : Z) : DM V E bool :=
  r ← dk_lookup_call fuel mp key hash;
  mret (negb (bool_decide (found_value r = None))).
Definition dict___contains__ (fuel : nat) (mp : Z) (key : V) : DM V E bool :=
  hash ← key_hash key;
  r ← dk_lookup_call fuel mp key hash;
  mret (match found_value r with None => false | Some _ => true end).
Definition CiCheckedDict_Contains (fuel : nat) (mp : Z) (key : V) : DM V E bool :=
  hash ← key_hash key;
  r ← dk_lookup_call fuel mp key hash;
  mret (negb (bool_decide (found_value r = None))).
Definition dict_get_impl (fuel : nat) (mp : Z) (key default_value : V) : DM V E V :=
  hash ← key_hash key;
  r ← dk_lookup_call fuel mp key hash;
  let val := match found_value r with None => default_value | Some val => val end in
  _ ← INCREF val;
  mret val.

(** ** [setdefault] *)

(** The new entry, without the test for a split table of [insertdict]. *)
Definition setdefault_entry (mp : Z) (key : V) (hash : Z) (value : V) (ep : Z) : DM V E unit :=
  _ ← INCREF key;
  _ ← INCREF value;
  _ ← put_entry mp ep (Entry hash (Some key) (Some value));
  count_entry mp.
Definition setdefault_insert (mp : Z) (key : V) (hash : Z) (value : V) : DM V E unit :=
  _ ← allow_key mp key;
  k ← get_keys mp;
  hashpos ← find_empty_slot k hash;
  let ep := dk_nentries k in
  _ ← dictkeys_set_index mp hashpos ep;
  setdefault_entry mp key hash value ep.
(** A borrowed reference. *)
Definition Ci_CheckedDict_SetDefault (fuel : nat) (mp : Z) (key defaultobj : V) : DM V E V :=
  hash ← key_hash key;
  d ← get_dict mp;
  if ma_keys d =? Py_EMPTY_KEYS then
    _ ← insert_to_emptydict mp key hash defaultobj; mret defaultobj
  else
    _ ← (if negb (is_null (ma_values d)) && negb (PyUnicode_CheckExact key)
         then insertion_resize mp else mret tt);
    '(ix, value) ← dk_lookup_call fuel mp key hash;
    if ix =? DKIX_EMPTY then
      _ ← (k ← get_keys mp; if dk_usable k <=? 0 then insertion_resize mp else mret tt);
      _ ← setdefault_insert mp key hash defaultobj;
      mret defaultobj
    else mlift value.

(** ** Deletion *)

Definition delitem_common (mp hash ix : Z) (old_value : V) : DM V E unit :=
  old_key ← remove_entry mp hash ix;
  _ ← DECREF old_key;
  DECREF old_value.
(** [is_dict]: [PyDict_Check(op)], false for a checked dict. *)
Definition _CiDict_DelItem_KnownHash (fuel : nat) (is_dict : bool) (mp : Z) (key : V) (hash : Z)
    : DM V E unit :=
  if negb is_dict then mraise SystemError "bad argument to internal function"
  else
    r ← dk_lookup_call fuel mp key hash;
    match found_value r with
    | None => mraise KeyError no_msg
    | Some old_value => delitem_common mp hash r.1 old_value
    end.

(** ** New dicts *)

Definition free_values (vs : dictvalues V) : DM V E unit :=
  match vs with NullValues => mret tt | SplitValues _ => mret tt | EmptyValues => mstuck end.
(** A dict from the free list or from the collector.  [get_dict_state()] is
    NULL outside the main interpreter and is dereferenced all the same. *)
Definition chknew_dict (keys_addr : Z) (values : dictvalues V) : DM V E Z :=
  h ← mget;
  s ← mlift (dstate h);
  mp ← (if negb (numfree s =? 0) then
          let n := numfree s - 1 in
          mp ← mlift (aget (free_list s) n);
          _ ← mput (set_dstate (Some (DictState (free_list s) n (keys_free_list s) (keys_numfree s))) h);
          mret mp
        else
          res ← PyObject_GC_New;
          match res with
          | Some mp => mret mp
          | None =>
              _ ← dictkeys_decref keys_addr;
              _ ← (match values with EmptyValues => mret tt | _ => free_values values end);
              mraise MemoryError no_msg
          end);
  h ← mget;
  _ ← mput (set_dicts (<[mp := DictObj 0 keys_addr values]> (dicts h)) h);
  mret mp.
Definition Ci_CheckedDict_New : DM V E Z :=
  _ ← dictkeys_incref Py_EMPTY_KEYS; chknew_dict Py_EMPTY_KEYS EmptyValues.
(** [tp_alloc]. *)
Definition chkdict_alloc (nitems : Z) : DM V E Z := Ci_CheckedDict_New.

Definition max_presize : Z := 128 * 1024.
(** [while (newsize < minsize) newsize <<= 1]. *)
Fixpoint presize_loop (fuel : nat) (newsize minsize : Z) : DM V E Z :=
  match fuel with
  | O => mnofuel
  | S fuel =>
      if newsize <? minsize then presize_loop fuel (Z.shiftl newsize 1) minsize else mret newsize
  end.
Definition Ci_CheckedDict_NewPresized (minused : Z) : DM V E Z :=
  if minused <=? USABLE_FRACTION PyDict_MINSIZE then Ci_CheckedDict_New
  else
    newsize ← (if USABLE_FRACTION max_presize <? minused then mret max_presize
               else presize_loop 18 (PyDict_MINSIZE * 2) (estimate_keysize minused));
    _ ← cassert (IS_POWER_OF_2 newsize);
    new_keys ← new_keys_object newsize;
    chknew_dict new_keys NullValues.

(** ** Destruction *)

(** [dict_dealloc], for an object that nothing revives. *)
Definition dict_dealloc (mp : Z) : DM V E unit :=
  d ← get_dict mp;
  _ ← (match ma_values d with
       | NullValues =>
           k ← get_dk (ma_keys d);
           _ ← cassert (dk_refcnt k =? 1);
           dictkeys_decref (ma_keys d)
       | EmptyValues => dictkeys_decref (ma_keys d)
       | SplitValues vs =>
           k ← get_dk (ma_keys d);
           _ ← clear_values (take (Z.to_nat (dk_nentries k)) vs);
           dictkeys_decref (ma_keys d)
       end);
  h ← mget;
  let h := set_dicts (delete mp (dicts h)) h in
  match dstate h with
  | Some s =>
      if numfree s <? CiDict_MAXFREELIST then
        l ← mlift (aset (free_list s) (numfree s) mp);
        mput (set_dstate (Some (DictState l (numfree s + 1) (keys_free_list s) (keys_numfree s))) h)
      else mput h
  | None => mput h
  end.
(** The dict objects and the keys objects that go back to the allocator. *)
Definition _PyCheckedDict_ClearCaches : DM V E (list Z * list Z) :=
  h ← mget;
  match dstate h with
  | Some s =>
      let freed := take (Z.to_nat (numfree s)) (free_list s) in
      let keys_freed := take (Z.to_nat (keys_numfree s)) (keys_free_list s) in
      _ ← mput (set_dstate (Some (DictState (free_list s) 0 (keys_free_list s) 0)) h);
      mret (freed, keys_freed)
  | None => mret ([], [])
  end.
(** [dict_clear] and [dict_tp_clear]. *)
Definition dict_clear (mp : Z) : DM V E unit := Ci_CheckedDict_Clear mp.
Definition dict_tp_clear (mp : Z) : DM V E unit := Ci_CheckedDict_Clear mp.

(** ** Traversal by the collector: a [visit] that answers other than 0 ends it *)

Fixpoint visit_all (visit : V -> DM V E Z) (vs : list (option V)) : DM V E Z :=
  match vs with
  | [] => mret 0
  | None :: vs => visit_all visit vs
  | Some v :: vs => r ← visit v; if r =? 0 then visit_all visit vs else mret r
  end.
(** What an entry holds: with string keys, which refer to nothing, only the value. *)
Definition visited_entry (e : dictentry V) : list (option V) :=
  match me_value e with None => [] | Some v => [Some v; me_key e] end.
Definition dict_traverse (visit : V -> DM V E Z) (mp : Z) : DM V E Z :=
  d ← get_dict mp;
  k ← get_dk (ma_keys d);
  let n := Z.to_nat (dk_nentries k) in
  if bool_decide (dk_lookup k = Lookdict) then
    visit_all visit (mjoin (visited_entry <$> take n (dk_entries k)))
  else
    match ma_values d with
    | NullValues => visit_all visit (me_value <$> take n (dk_entries k))
    | EmptyValues => visit_all visit (take n [None])
    | SplitValues vs => visit_all visit (take n vs)
    end.
End queries.

(** ** The methods that check types *)
Section checked.
Context {V E : Type} {api : DictApi V E} {tapi : TypeApi V} `{EqDecision V}.
(** [gti_inst] of the dict's type: the types of keys and values. *)
Variable inst : list gparam.

Definition Ci_Py_Sig_T1_Opt : Z := Z.lor Ci_Py_Sig_T1 Ci_Py_SIG_OPTIONAL.

Definition chkdict_checkkey (key : V) : DM V E unit :=
  ok ← _PyClassLoader_CheckParamType inst key 0;
  if ok : bool then mret tt else mraise TypeError "bad key".
Definition chkdict_checkval (value : V) : DM V E unit :=
  ok ← _PyClassLoader_CheckParamType inst value 1;
  if ok : bool then mret tt else mraise TypeError "bad value".

(** [_PyArg_CheckPositional(name, nargs, 1, 2)], giving the arguments. *)
Definition one_or_two (args : list V) : DM V E (V * option V) :=
  match args with
  | [key] => mret (key, None)
  | [key; default_value] => mret (key, Some default_value)
  | _ => mraise TypeError no_msg
  end.
Definition dict_get (fuel : nat) (mp : Z) (args : list V) : DM V E V :=
  '(key, default_value) ← one_or_two args;
  _ ← _PyClassLoader_CheckOneArg inst key Ci_Py_Sig_T0;
  match default_value with
  | None => dict_get_impl fuel mp key Py_None
  | Some default_value =>
      _ ← _PyClassLoader_CheckOneArg inst default_value Ci_Py_Sig_T1_Opt;
      dict_get_impl fuel mp key default_value
  end.
Definition dict_setdefault_impl (fuel : nat) (mp : Z) (args : list V) : DM V E V :=
  '(key, default_value) ← one_or_two args;
  _ ← _PyClassLoader_CheckOneArg inst key Ci_Py_Sig_T0;
  return_value ←
    match default_value with
    | None => Ci_CheckedDict_SetDefault fuel mp key Py_None
    | Some default_value =>
        _ ← _PyClassLoader_CheckOneArg inst default_value Ci_Py_Sig_T1;
        Ci_CheckedDict_SetDefault fuel mp key default_value
    end;
  _ ← INCREF return_value;
  mret return_value.
Definition dict_pop_impl (fuel : nat) (mp : Z) (key : V) (default_value : option V) : DM V E V :=
  Ci_CheckedDict_Pop fuel mp key default_value.
Definition dict_pop (fuel : nat) (mp : Z) (args : list V) : DM V E V :=
  '(key, default_value) ← one_or_two args;
  dict_pop_impl fuel mp key default_value.

(** [value]: [None] for [del]. *)
Definition chkdict_ass_sub (fuel : nat) (mp : Z) (key : V) (value : option V) : DM V E unit :=
  _ ← chkdict_checkkey key;
  hash ← key_hash key;
  match value with
  | None => _CiDict_DelItem_KnownHash fuel false mp key hash
  | Some value => _ ← chkdict_checkval value; store_item fuel mp key hash value
  end.
(** Called by compiled code that knows the types; [key] and [value] are not NULL. *)
Definition chkdict_ass_sub_unchecked (fuel : nat) (mp : Z) (key value : V) : DM V E unit :=
  hash ← key_hash key; store_item fuel mp key hash value.
Definition chkdict_subscript (fuel : nat) (mp : Z) (key : V) : DM V E V :=
  _ ← chkdict_checkkey key; dict_subscript fuel mp key.
End checked.
