(* ===== verification/DictQuery.v ===== *)
(** * Queries and [setdefault] on a dict that is an association list

    What [dict_subscript], [get], [in] and [setdefault] answer, the
    consistency check, and deletion of an entry that a lookup found. *)

From stdpp Require Import base list gmap numbers strings sets.
From S2P Require Import Prelude TypeCheck DictProbe DictObject DictCore DictTable DictWf DictResize DictHeap DictGrow.
From S2P Require Import DictSpec DictOps DictDelete CheckedDict.

Section query.
Context {V E : Type} {api : DictApi V E} `{EqDecision V}.
Context {keq : V -> V -> bool} {khash : V -> option Z} (Hwb : well_behaved keq khash).
Implicit Types (k : dictkeys V) (d : dictobj V) (h : dheap V E).
Abbreviation dict_is := (@dict_is V E api keq khash).
Abbreviation updated := (@updated V E api EqDecision0 keq khash).
Abbreviation items_ok := (@items_ok V keq khash).

(** ** Lookups *)

Lemma find_wp {nf} fuel mp key hash h its Q X :
  dict_is h mp its -> khash key = Some hash -> (0 < fuel)%nat ->
  (∀ r h', updated mp h h' its (λ _, 0) -> found_value r = dget keq key (pairs its) -> Q r h') ->
  wpo nf (dk_lookup_call fuel mp key hash) Q X h.
Proof.
  intros Hd Hh Hf HQ. apply (lookup_wp Hwb fuel mp key hash h its); [done|done|done|].
  intros [ix v] h' d k Hset Hd' Hdk Hwf Hits Hr. apply HQ; [by apply updated_settled|].
  assert (Hok : items_ok (items k)) by (rewrite Hits; apply Hd').
  destruct (lookup_cases Hwb k key hash ix v Hok Hr)
    as [(-> & -> & Habs)|(Hix & x & key' & old & -> & Hent & Hk & _ & l1 & l2 & Hl & Habs)];
    rewrite Hits in *; unfold found_value; simpl.
  - symmetry. by apply dget_absent.
  - rewrite (proj2 (Z.eqb_neq ix DKIX_EMPTY)) by (unfold DKIX_EMPTY; lia).
    rewrite Hl, pairs_app. symmetry. by apply dget_found.
Qed.
(** A query: the key's hash, a lookup, and what is made of its answer. *)
Lemma query_wp {nf A} fuel mp key h its (f : Z * option V -> DM V E A) Q X :
  dict_is h mp its -> (0 < fuel)%nat ->
  (∀ r h', khash key ≠ None -> updated mp h h' its (λ _, 0) ->
     found_value r = dget keq key (pairs its) -> wpo nf (f r) Q X h') ->
  (khash key = None -> X (PyErr Foreign no_msg) h) ->
  wpo nf (hash ← key_hash key; r ← dk_lookup_call fuel mp key hash; f r) Q X h.
Proof.
  intros Hd Hf HQ HX. apply wp_bind, (wp_key_hash Hwb); [|done]. intros hash Hh.
  apply wp_bind, (find_wp fuel mp key hash h its); [done|done|done|]. intros r h' Hu Hr.
  apply HQ; [congruence|done|done].
Qed.
Lemma updated_incref mp h h' its v :
  updated mp h h' its (λ _, 0) -> updated mp h (add_ref (IncRef v) h') its (one v).
Proof.
  intros Hu. change (add_ref (IncRef v) h') with (more_refs [IncRef v] h').
  eapply updated_extra; [eapply updated_trans; [exact Hu|apply updated_more; apply Hu]|].
  intros w. simpl. unfold one. lia.
Qed.

(** Unhashable keys raise before anything happens. *)
Definition unhashable (key : V) (e : pyexn) h h' : Prop :=
  khash key = None ∧ e = PyErr Foreign no_msg ∧ h' = h.

Lemma subscript_wp fuel mp key h its :
  dict_is h mp its -> (0 < fuel)%nat ->
  wp (dict_subscript fuel mp key)
    (λ v h', khash key ≠ None ∧ dget keq key (pairs its) = Some v ∧ updated mp h h' its (one v))
    (λ e h', unhashable key e h h' ∨
       (e = PyErr KeyError no_msg ∧ khash key ≠ None ∧ dget keq key (pairs its) = None ∧ updated mp h h' its (λ _, 0))) h.
Proof.
  intros Hd Hf. apply (query_wp fuel mp key h its); [done|done| |by left].
  intros r h' Hk Hu ->. destruct (dget keq key (pairs its)) as [v|] eqn:Hg; [|by right].
  apply wp_bind, wp_modify, wp_ret. split_and!; [done|done|]. by apply updated_incref.
Qed.
Lemma contains_wp fuel mp key h its :
  dict_is h mp its -> (0 < fuel)%nat ->
  wp (CiCheckedDict_Contains fuel mp key)
    (λ b h', khash key ≠ None ∧ b = bool_decide (is_Some (dget keq key (pairs its))) ∧ updated mp h h' its (λ _, 0))
    (λ e h', unhashable key e h h') h.
Proof.
  intros Hd Hf. apply (query_wp fuel mp key h its); [done|done| |done].
  intros r h' Hk Hu ->. apply wp_ret. split_and!; [done| |done]. by destruct (dget _ _ _).
Qed.
Lemma contains_method_wp fuel mp key h its :
  dict_is h mp its -> (0 < fuel)%nat ->
  wp (dict___contains__ fuel mp key)
    (λ b h', khash key ≠ None ∧ b = bool_decide (is_Some (dget keq key (pairs its))) ∧ updated mp h h' its (λ _, 0))
    (λ e h', unhashable key e h h') h.
Proof.
  intros Hd Hf. apply (query_wp fuel mp key h its); [done|done| |done].
  intros r h' Hk Hu ->. apply wp_ret. split_and!; [done| |done]. by destruct (dget _ _ _).
Qed.
Lemma contains_known_wp {nf} fuel mp key hash h its Q X :
  dict_is h mp its -> khash key = Some hash -> (0 < fuel)%nat ->
  (∀ h', updated mp h h' its (λ _, 0) -> Q (bool_decide (is_Some (dget keq key (pairs its)))) h') ->
  wpo nf (_CiDict_Contains_KnownHash fuel mp key hash) Q X h.
Proof.
  intros Hd Hh Hf HQ. apply wp_bind, (find_wp fuel mp key hash h its); [done|done|done|].
  intros r h' Hu ->. apply wp_ret. apply HQ in Hu. by destruct (dget _ _ _).
Qed.
Lemma get_wp fuel mp key default_value h its :
  dict_is h mp its -> (0 < fuel)%nat ->
  wp (dict_get_impl fuel mp key default_value)
    (λ v h', khash key ≠ None ∧ v = default default_value (dget keq key (pairs its)) ∧ updated mp h h' its (one v))
    (λ e h', unhashable key e h h') h.
Proof.
  intros Hd Hf. apply (query_wp fuel mp key h its); [done|done| |done].
  intros r h' Hk Hu ->. cbv zeta. apply wp_bind, wp_modify, wp_ret.
  split_and!; [done|by destruct (dget _ _ _)|]. by apply updated_incref.
Qed.
Lemma length_run mp h its :
  dict_is h mp its -> dict_length mp h = Ret (Zlen its) h.
Proof.
  intros Hd. destruct (dict_is_at _ _ _ Hd) as (d & k & [Hdk _] & Hwf & Hits).
  unfold dict_length. run_step; [by apply get_dict_at|]. destruct (used_items d k Hwf) as [-> _]. by rewrite Hits.
Qed.

(** ** [setdefault] *)

Lemma setdefault_insert_run mp d k h key hash value :
  table_wf d k -> 0 < dk_usable k ->
  ∃ k', setdefault_insert mp key hash value (upd mp d k h) =
      Ret tt (upd mp (DictObj (ma_used d + 1) (ma_keys d) NullValues) k'
        (add_ref (IncRef value) (add_ref (IncRef key) h))) ∧
    table_wf (DictObj (ma_used d + 1) (ma_keys d) NullValues) k' ∧
    items k' = items k ++ [(hash, key, value)].
Proof.
  intros Ht Hroom. unfold setdefault_insert.
  destruct (insert_slot_run mp d k h key hash value (setdefault_entry mp key hash value)) as (slot & Hwf' & Hrun);
    [done|done|].
  exists (inserted k slot key hash value). split; [|by apply inserted_table].
  eapply eq_trans; [exact Hrun|]. unfold setdefault_entry.
  pose proof (nentries_bounds k (tw_keys _ _ Ht) Hroom) as Hn.
  run_step; [done|]. run_step; [done|]. rewrite !add_ref_upd. run_step; [by apply put_entry_run|].
  eapply eq_trans; [by apply count_entry_run|]. by rewrite (tw_combined _ _ Ht).
Qed.
Lemma setdefault_insert_wp {nf} mp d k key hash value h Q X :
  heap_inv h -> has_dict h mp d k -> table_wf d k -> 0 < dk_usable k ->
  items_ok (items k) -> khash key = Some hash -> absent keq key (pairs (items k)) ->
  (∀ h', updated mp h h' (items k ++ [(hash, key, value)]) (λ _, 0) -> Q tt h') ->
  wpo nf (setdefault_insert mp key hash value) Q X h.
Proof.
  intros Hi Hd Hwf Hu Hok Hh Habs HQ.
  destruct (setdefault_insert_run mp d k h key hash value Hwf Hu) as (k' & Hrun & Hwf' & Hits).
  rewrite upd_id in Hrun by done. eapply wp_run; [exact Hrun|]. apply HQ. rewrite <- Hits.
  set (h1 := add_ref (IncRef value) (add_ref (IncRef key) h)).
  assert (Hd0 : dict_is h mp (items k)) by (by apply (dict_is_intro _ _ d)).
  assert (H1 : updated mp h h1 (items k) (λ v, one key v + one value v)).
  { change h1 with (more_refs [IncRef value; IncRef key] h).
    eapply updated_extra; [by apply updated_more|]. intros v. simpl. unfold one. lia. }
  eapply updated_extra; [eapply updated_trans; [exact H1|apply (updated_upd h1 mp d k); [apply H1|done|done|done|done|]]|].
  - rewrite Hits. apply (items_ok_snoc Hwb); [done|done|]. intros x key' v Hin.
    unfold absent, pairs in Habs. rewrite Forall_fmap, Forall_forall in Habs. by apply (Habs (x, key', v)).
  - intros v. rewrite Hits, owned_app. simpl. unfold one. lia.
Qed.
(** What [setdefault] leaves and answers. *)
Definition setdefault_spec (key value : V) (l : list (V * V)) : V * list (V * V) :=
  match dget keq key l with Some v => (v, l) | None => (value, l ++ [(key, value)]) end.
Lemma setdefault_wp fuel mp key value h its :
  dict_is h mp its -> (0 < fuel)%nat ->
  wp (Ci_CheckedDict_SetDefault fuel mp key value)
    (λ v h', khash key ≠ None ∧ ∃ its', updated mp h h' its' (λ _, 0) ∧ (v, pairs its') = setdefault_spec key value (pairs its))
    (λ e h', unhashable key e h h' ∨ (e = PyErr MemoryError no_msg ∧ updated mp h h' its (λ _, 0))) h.
Proof.
  intros Hd Hf. unfold Ci_CheckedDict_SetDefault. apply wp_bind, (wp_key_hash Hwb); [|by left].
  intros hash Hh. destruct (dict_is_at _ _ _ Hd) as (d & k & [Hdm Hk] & Hwf & Hits).
  apply wp_bind, (wp_get_dict _ d _ _ _ Hdm). destruct (ma_keys d =? Py_EMPTY_KEYS) eqn:He; bool_to_prop.
  { assert (its = []) as ->.
    { destruct Hwf as [Hwf|Ht]; [|by destruct (tw_own _ _ Ht)]. rewrite <- Hits. by rewrite (ew_keys _ _ Hwf). }
    apply wp_bind. eapply wp_conseq; [by apply (insert_to_emptydict_wp Hwb mp key hash value h d)| |by auto].
    intros [] h' Hu. apply wp_ret. split; [congruence|by eexists]. }
  apply wp_bind, (resize_wp (keq := keq) (khash := khash) mp h its); [done| |intros e; right; split; [done|by apply updated_world]].
  intros h1 H1. apply wp_bind, (lookup_wp Hwb fuel mp key hash h1 its); [apply H1|done|done|].
  intros [ix old] h2 d2 k2 Hset Hd2 Hdk Hwf2 Hits2 Hr.
  assert (H2 : updated mp h h2 its (λ _, 0)).
  { eapply updated_extra; [eapply updated_trans; [exact H1|by apply updated_settled; [apply H1|]]|]. intros v. lia. }
  assert (Hok : items_ok (items k2)) by (rewrite Hits2; apply Hd2).
  destruct (lookup_cases Hwb k2 key hash ix old Hok Hr)
    as [(-> & -> & Habs)|(Hix & x & key' & v & -> & Hent & Hk' & _ & l1 & l2 & Hl & Habs)]; rewrite Hits2 in *.
  - rewrite Z.eqb_refl. apply wp_bind, (room_wp (keq := keq) (khash := khash) mp h2 its); [done| |].
    2: { intros e. right. split; [done|]. eapply updated_extra; [eapply updated_trans; [exact H2|by apply updated_world]|].
         intros v. lia. }
    intros h3 d3 k3 H23 Hd3 Hwf3 Hu Hits3.
    apply wp_bind, (setdefault_insert_wp mp d3 k3); [apply H23|done|done|done|rewrite Hits3; apply Hd2|done|by rewrite Hits3|].
    intros h4 H34. rewrite Hits3 in H34. apply wp_ret. split; [congruence|]. exists (its ++ [(hash, key, value)]). split.
    + eapply updated_extra; [eapply updated_trans; [eapply updated_trans; [exact H2|exact H23]|exact H34]|]. intros v. lia.
    + unfold setdefault_spec. by rewrite dget_absent, pairs_app.
  - rewrite (proj2 (Z.eqb_neq ix DKIX_EMPTY)) by (unfold DKIX_EMPTY; lia). apply wp_ret. split; [congruence|]. exists its. split; [done|].
    unfold setdefault_spec. rewrite Hl, pairs_app. simpl. by rewrite (dget_found keq key _ key' v).
Qed.

(** ** Deleting the entry that a lookup found, and the consistency check *)

Lemma delitem_known_wp fuel mp key hash h its :
  dict_is h mp its -> khash key = Some hash -> (0 < fuel)%nat ->
  wp (_CiDict_DelItem_KnownHash fuel true mp key hash)
    (λ _ h', ∃ its', pairs its' = ddel keq key (pairs its) ∧ updated mp h h' its' (λ _, 0) ∧
             dget keq key (pairs its) ≠ None)
    (λ e h', e = PyErr KeyError no_msg ∧ dget keq key (pairs its) = None ∧ updated mp h h' its (λ _, 0)) h.
Proof.
  intros Hd Hh Hf. unfold _CiDict_DelItem_KnownHash.
  apply wp_bind, (lookup_wp Hwb fuel mp key hash h its); [done|done|done|].
  intros [ix old] h2 d k Hset Hd2 Hdk Hwf Hits Hr.
  assert (Hok : items_ok (items k)) by (rewrite Hits; apply Hd2).
  pose proof (updated_settled _ _ _ _ Hd Hset) as H2.
  destruct (lookup_cases Hwb k key hash ix old Hok Hr)
    as [(-> & -> & Habs)|(Hix & x & key' & v & -> & Hent & Hk & Hreach & l1 & l2 & Hl & Habs)];
    unfold found_value; simpl.
  { apply wp_raise. rewrite Hits in Habs. by rewrite dget_absent. }
  rewrite (proj2 (Z.eqb_neq ix DKIX_EMPTY)) by (unfold DKIX_EMPTY; lia).
  assert (Ht : table_wf d k).
  { destruct Hwf as [He|]; [|done]. rewrite (ew_keys _ _ He) in Hent. apply aget_Some in Hent. simpl in Hent. zlia. }
  unfold delitem_common. apply wp_bind, (remove_entry_wp Hwb mp d k hash ix x key' v); [apply Hd2|done|done|done|done|done|].
  intros h3 m1 m2 Hm H3. apply wp_bind, (wp_decref Hwb), (wp_decref Hwb). exists (m1 ++ m2).
  assert (Hm1 : absent keq key (pairs m1)).
  { rewrite Hm in Hok. by apply (items_ok_split Hwb _ _ _ _ _ _ Hok). }
  rewrite <- Hits, Hm, !pairs_app. simpl. split_and!.
  - by rewrite ddel_found.
  - change (add_ref (DecRef v) (add_ref (DecRef key') h3)) with (more_refs [DecRef v; DecRef key'] h3).
    eapply updated_extra; [eapply updated_trans; [eapply updated_trans; [exact H2|exact H3]|apply updated_more, H3]|].
    intros w. simpl. unfold one. lia.
  - by rewrite (dget_found keq key _ key' v).
Qed.
(** Hashes are not -1 and every exact string knows its own. *)
Definition hashes_cached (e : E) : Prop :=
  (∀ v, khash v ≠ Some (-1)) ∧ ∀ v u, PyUnicode v = Some u -> khash v = Some (str_hash v e).

Lemma content_consistent k h :
  keys_wf k -> items_ok (items k) -> hashes_cached (world h) ->
  forallb (λ ix, (DKIX_DUMMY <=? ix) && (ix <=? USABLE_FRACTION (dk_size k))) (dk_indices k) = true ∧
  forallb (check_entry h) (dk_entries k) = true.
Proof.
  intros Hwf Hok [Hne Hc]. rewrite !forallb_forall. split.
  - intros ix Hin. apply list_elem_of_In, elem_aget in Hin as [j Hj].
    pose proof (table_size_bounds _ (kw_size _ Hwf)). pose proof (USABLE_FRACTION_bounds (dk_size k) ltac:(lia)).
    assert (DKIX_DUMMY <= ix <= USABLE_FRACTION (dk_size k)) as [? ?].
    { destruct (ik_values _ _ _ (kw_index _ Hwf) _ _ Hj) as [->|[->|[? [x Hx]]]];
        [unfold DKIX_DUMMY, DKIX_EMPTY; lia|unfold DKIX_DUMMY; lia|]. split; [unfold DKIX_DUMMY; lia|].
      unfold hashes in Hx. destruct (aget (dk_entries k) ix) as [e|] eqn:He; [|done].
      apply aget_Some in He. rewrite (kw_entries _ Hwf) in He. lia. }
    by rewrite !(proj2 (Z.leb_le _ _)).
  - intros e Hin. apply list_elem_of_In, elem_aget in Hin as [i Hi]. unfold check_entry.
    destruct (me_key e) as [key|] eqn:Hk; [|done].
    destruct (live_item_of k i e key Hwf Hi Hk) as (v & Heq & Hit).
    pose proof (io_hash _ Hok _ _ _ Hit) as Hh. assert (Hme : me_hash e ≠ -1) by (intros Hm; rewrite Hm in Hh; by apply (Hne key)).
    assert (Hv : me_value e = Some v) by (by rewrite Heq). rewrite Hv. rewrite bool_decide_eq_false_2 by done.
    rewrite andb_true_r. unfold PyUnicode_CheckExact. case_bool_decide as Hu.
    + destruct Hu as [u Hu]. rewrite (Hc _ _ Hu) in Hh. injection Hh as Hh. rewrite Hh, Z.eqb_refl, andb_true_r.
      by rewrite (proj2 (Z.eqb_neq _ _)).
    + by rewrite (proj2 (Z.eqb_neq _ _)).
Qed.
Lemma consistent_run mp h its check_content :
  dict_is h mp its -> (check_content = true -> hashes_cached (world h)) ->
  Ci_CheckedDict_CheckConsistency mp check_content h = Ret true h.
Proof.
  intros Hd Hc. destruct (dict_is_at _ _ _ Hd) as (d & k & [Hdm Hk] & Hwf & Hits).
  unfold Ci_CheckedDict_CheckConsistency. run_step; [by apply get_dict_at|]. run_step; [by apply get_dk_at|].
  run_step; [done|]. cbv beta zeta. unfold mret, M_ret. f_equal. pose proof (used_items d k Hwf) as [Hused _].
  pose proof (Zlen_nonneg (items k)) as Hn. destruct Hwf as [He|Ht].
  - rewrite (ew_dict _ _ He), (ew_keys _ _ He). destruct check_content; reflexivity.
  - pose proof (tw_keys _ _ Ht) as Hw.
    assert (Hlive : ma_used d <= USABLE_FRACTION (dk_size k)).
    { rewrite Hused. unfold items. rewrite <- live_length by by apply entries_ok_paired, Hw.
      rewrite <- (kw_entries _ Hw). apply live_shorter. }
    assert (Hpow : IS_POWER_OF_2 (dk_size k) = true).
    { destruct (kw_size _ Hw) as (kk & Hkk & ->). apply is_power_of_2. lia. }
    destruct Hw as [Hr Hs He Hu Hne Hrm Hf Hp Hi Hl] eqn:Heq. clear Heq.
    rewrite Hpow, Hr, Z.eqb_refl, orb_true_r, !(proj2 (Z.leb_le _ _)) by lia. simpl.
    destruct check_content; [|done]. simpl.
    destruct (content_consistent k h (tw_keys _ _ Ht)) as [-> ->]; [rewrite Hits; apply Hd|by apply Hc|done].
Qed.
End query.

(** ** New dicts *)
Section new.
Context {V E : Type} {api : DictApi V E} `{EqDecision V}.
Context {keq : V -> V -> bool} {khash : V -> option Z} (Hwb : well_behaved keq khash).
Implicit Types (h : dheap V E).
Abbreviation updated := (@updated V E api EqDecision0 keq khash).

(** One more user of the empty table. *)
Lemma heap_inv_new h mp n s w :
  heap_inv h -> dicts h !! mp = None -> keys h !! Py_EMPTY_KEYS = Some (empty_keys_struct n) ->
  1 + empty_users (dicts h) <= n -> dstate_ok (keys h) s ->
  NoDup (spare_dicts s) -> (∀ a, a ∈ spare_dicts s -> a ≠ mp ∧ dicts h !! a = None) ->
  let h' := DHeap (<[mp := DictObj 0 Py_EMPTY_KEYS EmptyValues]> (dicts h))
                  (<[Py_EMPTY_KEYS := empty_keys_struct (n + 1)]> (keys h)) s (refs h) w in
  heap_inv h' ∧ only_dict mp h h' ∧ dict_items h' mp = [].
Proof.
  intros Hi Hmp Hn Hle Hs Hnd Hsp h'. split; [split|split; [split|]]; simpl.
  - intros mp1 d1. destruct (decide (mp1 = mp)) as [->|].
    + rewrite lookup_insert_eq. intros [= <-]. eexists. rewrite lookup_insert_eq. split; [done|]. by left.
    + rewrite lookup_insert_ne by done. intros Hd1. destruct (hi_dict _ Hi _ _ Hd1) as (k1 & Hk1 & Hw).
      destruct (decide (ma_keys d1 = Py_EMPTY_KEYS)) as [He|].
      * rewrite He, lookup_insert_eq. eexists. split; [done|]. left. destruct Hw as [Hw|Hw]; [|by destruct (tw_own _ _ Hw)].
        split; [apply Hw|done].
      * exists k1. by rewrite lookup_insert_ne.
  - intros mp1 mp2 d1 d2 H1 H2 Heq Hnz. assert (Hback : ∀ mp1 d1, <[mp:=DictObj 0 Py_EMPTY_KEYS EmptyValues]> (dicts h) !! mp1 = Some d1 ->
      ma_keys d1 ≠ Py_EMPTY_KEYS -> dicts h !! mp1 = Some d1).
    { intros m d. destruct (decide (m = mp)) as [->|]; [|by rewrite lookup_insert_ne].
      rewrite lookup_insert_eq. by intros [= <-]. }
    apply (hi_own _ Hi mp1 mp2 d1 d2); [by apply Hback|apply Hback; [done|congruence]|done|done].
  - exists (n + 1). rewrite lookup_insert_eq. split; [done|]. unfold empty_users in *.
    rewrite map_filter_insert_True by done. rewrite map_size_insert_None; [lia|].
    rewrite map_lookup_filter_None. by left.
  - by eapply dstate_ok_update.
  - split; [done|]. intros a Ha. destruct (Hsp a Ha). by rewrite lookup_insert_ne.
  - intros mp' Hne. by rewrite lookup_insert_ne.
  - intros b Hb _ _. by rewrite lookup_insert_ne.
  - intros d'. rewrite lookup_insert_eq. intros [= <-]. by left.
  - unfold dict_items. simpl. by rewrite !lookup_insert_eq.
Qed.
Lemma new_wp h :
  heap_inv h -> is_Some (dstate h) ->
  wp Ci_CheckedDict_New
    (λ mp h', dicts h !! mp = None ∧ dicts h' !! mp = Some (DictObj 0 Py_EMPTY_KEYS EmptyValues) ∧
       updated mp h h' [] (λ _, 0))
    (λ e h', e = PyErr MemoryError no_msg ∧ ∃ w, h' = set_world w h) h.
Proof.
  intros Hi [s Hs]. pose proof (hi_state _ Hi) as Hst. rewrite Hs in Hst.
  pose proof (hi_spare _ Hi) as [Hnd Hfree]. rewrite Hs in Hnd, Hfree.
  pose proof (so_dict_slots _ _ Hst) as Hlen. pose proof (so_dicts _ _ Hst) as Hnum. destruct (hi_empty _ Hi) as (n & Hn & Hle).
  unfold Ci_CheckedDict_New, dictkeys_incref. apply wp_bind, wp_bind, (wp_get_dk _ _ _ _ _ Hn).
  eapply wp_run; [eapply put_dk_at, Hn|]. cbv beta. change (with_refcnt _ _) with (@empty_keys_struct V (n + 1)).
  set (h1 := set_keys (<[Py_EMPTY_KEYS := empty_keys_struct (n + 1)]> (keys h)) h).
  unfold chknew_dict. apply wp_bind, wp_get, wp_bind. eapply wp_lift; [exact Hs|].
  assert (Hfin : ∀ mp s, dicts h !! mp = None -> dstate_ok (keys h) s ->
    NoDup (spare_dicts s) -> (∀ a, a ∈ spare_dicts s -> a ≠ mp ∧ dicts h !! a = None) ->
    wp (h0 ← mget; _ ← mput (set_dicts (<[mp := DictObj 0 Py_EMPTY_KEYS EmptyValues]> (dicts h0)) h0); mret mp)
      (λ mp h', dicts h !! mp = None ∧ dicts h' !! mp = Some (DictObj 0 Py_EMPTY_KEYS EmptyValues) ∧
         updated mp h h' [] (λ _, 0))
      (λ e h', e = PyErr MemoryError no_msg ∧ ∃ w, h' = set_world w h) (set_dstate s h1)).
  { intros mp s' Hmp Hs' Hnd' Hsp'. wp_steps. split; [done|]. split; [apply lookup_insert_eq|].
    destruct (heap_inv_new h mp n s' (world h) Hi Hmp Hn Hle Hs' Hnd' Hsp') as (Hi' & Ho' & Hit). split.
    - split; [done|by eexists; apply lookup_insert_eq|done|by apply (items_ok_nil Hwb)].
    - done.
    - intros v. simpl. unfold dict_items. rewrite Hmp. simpl. lia. }
  destruct (negb (numfree s =? 0)) eqn:Hz.
  - apply negb_true_iff in Hz. bool_to_prop. apply wp_bind, wp_bind.
    destruct (aget_lt (free_list s) (numfree s - 1)) as [mp Hmp]; [lia|]. eapply wp_lift; [exact Hmp|].
    apply wp_bind, wp_put, wp_ret.
    assert (Hsplit : spare_dicts (Some s) = take (Z.to_nat (numfree s - 1)) (free_list s) ++ [mp]).
    { simpl. replace (Z.to_nat (numfree s)) with (S (Z.to_nat (numfree s - 1))) by lia.
      apply take_S_r. unfold aget in Hmp. by case_decide. }
    rewrite Hsplit in Hnd, Hfree. apply NoDup_app in Hnd as (Hnd1 & Hnd2 & _). apply Hfin.
    + apply Hfree. set_solver.
    + destruct Hst as [H1 H2 D1 D2 H3 H4]. split; simpl; try done. lia.
    + done.
    + intros a Ha. split; [|apply Hfree; set_solver]. intros ->. apply (Hnd2 _ Ha). set_solver.
  - apply wp_bind, wp_bind. unfold wpo at 1, PyObject_GC_New. pose proof (wb_gc Hwb h1) as Hgc.
    pose proof (gc_new_fresh h1) as Hfr. destruct (gc_new h1) as [[a|] h2]; simpl in Hgc; subst h2.
    + apply wp_ret. destruct (Hfr a h1 eq_refl) as [Ha _].
      assert (Heq : h1 = set_dstate (dstate h) h1) by done. rewrite Heq. apply Hfin; [done|apply Hi|apply Hi|].
      intros b Hb. pose proof (proj2 (hi_spare _ Hi) b Hb). split; [|done]. intros ->.
      destruct (Hfr a h1 eq_refl) as [_ Hno]. simpl in Hno. rewrite Hs in Hno, Hb. done.
    + apply wp_bind. eapply wp_run; [apply (decref_empty_run h1 (n + 1))|].
      * simpl. by rewrite lookup_insert_eq.
      * unfold empty_users in Hle. lia.
      * apply wp_bind, wp_ret, wp_raise. split; [done|]. exists (world h).
        unfold set_keys, set_world, h1. simpl. rewrite insert_insert_eq.
        replace (n + 1 - 1) with n by lia. rewrite insert_id by done. by destruct h.
Qed.

(** ** Presizing *)

Lemma presize_loop_run fuel kk j (h : dheap V E) :
  0 <= kk -> 0 <= j -> j - kk < Z.of_nat fuel ->
  presize_loop fuel (2 ^ kk) (2 ^ j) h = Ret (2 ^ (kk `max` j)) h ∨ fuel = 0%nat ∧ j < kk.
Proof.
  revert kk. induction fuel as [|fuel IH]; intros kk Hk Hj Hf; [lia|left].
  change (presize_loop (S fuel) (2 ^ kk) (2 ^ j) h) with
    ((if 2 ^ kk <? 2 ^ j then presize_loop fuel (Z.shiftl (2 ^ kk) 1) (2 ^ j) else mret (2 ^ kk)) h).
  destruct (_ <? _) eqn:Hlt; bool_to_prop.
  - apply Z.pow_lt_mono_r_iff in Hlt; [|lia|lia]. rewrite Z.shiftl_mul_pow2, <- Z.pow_add_r by lia.
    destruct (IH (kk + 1)) as [->|]; [lia|lia|lia| |lia]. f_equal. f_equal. lia.
  - apply Z.pow_le_mono_r_iff in Hlt; [|lia|lia]. by rewrite Z.max_l by lia.
Qed.
(** The table that [NewPresized] asks for holds as many items as it was
    asked for, unless that is more than the largest presized table holds. *)
Lemma presize_room minused (h : dheap V E) :
  USABLE_FRACTION PyDict_MINSIZE < minused <= USABLE_FRACTION max_presize ->
  ∃ kk, 4 <= kk <= 18 ∧ presize_loop 18 (PyDict_MINSIZE * 2) (estimate_keysize minused) h = Ret (2 ^ kk) h ∧
    minused <= USABLE_FRACTION (2 ^ kk).
Proof.
  intros Hm. change (USABLE_FRACTION PyDict_MINSIZE) with 5 in Hm. change (USABLE_FRACTION max_presize) with 87381 in Hm.
  unfold estimate_keysize. rewrite Z.quot_div_nonneg by lia.
  assert (Hb : minused <= (minused * 3 + 1) `div` 2 * 2 / 3 ∧ 0 <= (minused * 3 + 1) `div` 2 <= 131072) by (split; divlia).
  set (m := (minused * 3 + 1) `div` 2) in *.
  destruct (calculate_keysize_ge m) as (j & Hj & -> & Hge & Hle); [lia|].
  assert (j <= 18). { apply (Z.pow_le_mono_r_iff 2); [lia|lia|]. change (2 ^ 18) with 262144. lia. }
  exists (4 `max` j). split; [lia|]. split.
  { destruct (presize_loop_run 18 4 j h) as [Hr|]; [lia|lia|lia|exact Hr|lia]. }
  rewrite USABLE_FRACTION_val by lia.
  pose proof (Z.pow_le_mono_r 2 j (4 `max` j) ltac:(lia) ltac:(lia)).
  etransitivity; [apply Hb|]. apply Z.div_le_mono; lia.
Qed.
End new.
