(* ===== verification/DictFree.v ===== *)
(** * Dropping a dict's table, and destroying a dict *)

From stdpp Require Import base list gmap numbers strings sets.
From S2P Require Import Prelude DictProbe DictObject DictCore DictTable DictWf DictResize DictHeap DictGrow DictSpec.
From S2P Require Import DictOps DictDelete CheckedDict.

Section free.
Context {V E : Type} {api : DictApi V E} `{EqDecision V}.
Context {keq : V -> V -> bool} {khash : V -> option Z} (Hwb : well_behaved keq khash).
Implicit Types (k : dictkeys V) (d : dictobj V) (h : dheap V E) (m : gmap Z (dictkeys V)).
Abbreviation dict_is := (@dict_is V E api keq khash).

(** ** The keys objects without the reference of [d] to its own *)

Definition dropped d (n : Z) m : gmap Z (dictkeys V) :=
  if uses_empty d then <[Py_EMPTY_KEYS := empty_keys_struct (n - 1)]> m else delete (ma_keys d) m.

Lemma dropped_other d n m b : b ≠ Py_EMPTY_KEYS -> b ≠ ma_keys d -> dropped d n m !! b = m !! b.
Proof.
  intros H1 H2. unfold dropped. destruct (uses_empty d); [by apply lookup_insert_ne|by apply lookup_delete_ne].
Qed.
Lemma dropped_empty d n m :
  m !! Py_EMPTY_KEYS = Some (empty_keys_struct n) ->
  dropped d n m !! Py_EMPTY_KEYS = Some (empty_keys_struct (n - (if uses_empty d then 1 else 0))).
Proof.
  intros Hn. unfold dropped. destruct (uses_empty d) eqn:Hu; [apply lookup_insert_eq|].
  unfold uses_empty in Hu. bool_to_prop. rewrite lookup_delete_ne by done. by rewrite Z.sub_0_r.
Qed.
Lemma dropped_insert d n m a k :
  a ≠ Py_EMPTY_KEYS -> a ≠ ma_keys d -> dropped d n (<[a := k]> m) = <[a := k]> (dropped d n m).
Proof.
  intros H1 H2. unfold dropped. destruct (uses_empty d); [by apply insert_insert_ne|by apply delete_insert_ne].
Qed.
Lemma empty_users_delete (m : gmap Z (dictobj V)) mp d :
  m !! mp = Some d -> empty_users (delete mp m) = empty_users m - (if uses_empty d then 1 else 0).
Proof.
  intros Hd. unfold empty_users. rewrite <- (insert_delete_id m mp d) at 2 by done. destruct (uses_empty d) eqn:Hu.
  - rewrite map_filter_insert_True by done. rewrite map_size_insert_None; [lia|].
    rewrite map_lookup_filter_None. left. apply lookup_delete_eq.
  - rewrite map_filter_insert_False by (simpl; congruence). rewrite delete_delete_eq. lia.
Qed.
Lemma empty_users_pos (m : gmap Z (dictobj V)) mp d n :
  m !! mp = Some d -> 1 + empty_users m <= n -> uses_empty d = true -> 1 < n.
Proof.
  intros Hd Hn Hu. pose proof (empty_users_delete m mp d Hd) as He. rewrite Hu in He.
  assert (0 <= empty_users (delete mp m)) by (unfold empty_users; lia). lia.
Qed.
(** Dropping it releases the items of a table of its own. *)
Lemma drop_table_run h d k n :
  keys h !! ma_keys d = Some k -> dict_wf d k -> keys h !! Py_EMPTY_KEYS = Some (empty_keys_struct n) ->
  (uses_empty d = true -> 1 < n) -> dstate_ok (keys h) (dstate h) ->
  ∃ s evs, dictkeys_decref (ma_keys d) h =
      Ret tt (more_refs evs (set_dstate s (set_keys (dropped d n (keys h)) h))) ∧
    dstate_ok (dropped d n (keys h)) s ∧ spare_dicts s = spare_dicts (dstate h) ∧
    ∀ v, taken v evs = - owned v (items k).
Proof.
  intros Hk Hwf Hn Hgt Hst. unfold dropped. destruct Hwf as [He|Ht].
  - rewrite (ew_dict _ _ He) in *. simpl in *. specialize (Hgt eq_refl). exists (dstate h), []. split_and!.
    + eapply eq_trans; [by apply decref_empty_run|]. rewrite more_refs_nil. by destruct h.
    + by eapply dstate_ok_update.
    + done.
    + intros v. by rewrite (ew_keys _ _ He).
  - pose proof (tw_own _ _ Ht) as Hnz. unfold uses_empty. rewrite (proj2 (Z.eqb_neq _ _) Hnz).
    destruct (decref_table_run Hwb k (ma_keys d) h Hk Hnz (tw_keys _ _ Ht) Hst) as (l & s & H1 & H2 & H3 & H4).
    by exists s, l.
Qed.

(** ** Destroying a dict *)

Lemma heap_inv_free h mp d m s r w :
  heap_inv h -> dicts h !! mp = Some d ->
  (∀ b, b ≠ Py_EMPTY_KEYS -> b ≠ ma_keys d -> m !! b = keys h !! b) ->
  (∃ n, m !! Py_EMPTY_KEYS = Some (empty_keys_struct n) ∧ 1 + empty_users (delete mp (dicts h)) <= n) ->
  dstate_ok m s -> spare_ok (delete mp (dicts h)) s ->
  let h' := DHeap (delete mp (dicts h)) m s r w in
  heap_inv h' ∧ only_dict mp h h'.
Proof.
  intros Hh Hd Hm Hempty Hs Hsp h'. split; [split|split]; simpl; try done.
  - intros mp1 d1 [Hne Hd1]%lookup_delete_Some. destruct (hi_dict _ Hh _ _ Hd1) as (k1 & Hk1 & Hw).
    destruct (decide (ma_keys d1 = Py_EMPTY_KEYS)) as [He|Hne0].
    + destruct Hempty as (n & Hn & _). exists (empty_keys_struct n). rewrite He. split; [done|]. left.
      destruct Hw as [[Hw _]|Hw]; [by split|]. by destruct (tw_own _ _ Hw).
    + exists k1. rewrite Hm; [done|done|]. intros Hc. apply Hne. symmetry. by apply (hi_own _ Hh mp1 mp d1 d).
  - intros mp1 mp2 d1 d2 [_ H1]%lookup_delete_Some [_ H2]%lookup_delete_Some. by apply (hi_own _ Hh).
  - intros mp' Hne. by rewrite lookup_delete_ne.
  - intros b Hb _ Hno. apply Hm; [done|]. intros ->. by apply (Hno d).
  - intros d1. by rewrite lookup_delete_eq.
Qed.
(** The state with one more free dict object. *)
Lemma spare_dicts_push s mp :
  0 <= numfree s < Zlen (free_list s) ->
  spare_dicts (Some (DictState (<[Z.to_nat (numfree s) := mp]> (free_list s)) (numfree s + 1)
    (keys_free_list s) (keys_numfree s))) = spare_dicts (Some s) ++ [mp].
Proof.
  intros Hn. simpl. replace (Z.to_nat (numfree s + 1)) with (S (Z.to_nat (numfree s))) by lia.
  erewrite take_S_r; [|apply list_lookup_insert_eq; unfold Zlen in Hn; lia]. by rewrite take_insert_ge by lia.
Qed.
Lemma push_dict_wp mp d m h1 (Q : unit -> dheap V E -> Prop) X :
  dstate_ok m (dstate h1) -> dicts h1 !! mp = Some d -> spare_ok (dicts h1) (dstate h1) -> keys h1 = m ->
  (∀ s, dstate_ok m s -> spare_ok (delete mp (dicts h1)) s ->
     Q tt (DHeap (delete mp (dicts h1)) m s (refs h1) (world h1))) ->
  wp (h ← mget;
      let h := set_dicts (delete mp (dicts h)) h in
      match dstate h with
      | Some s =>
          if numfree s <? CiDict_MAXFREELIST then
            l ← mlift (aset (free_list s) (numfree s) mp);
            mput (set_dstate (Some (DictState l (numfree s + 1) (keys_free_list s) (keys_numfree s))) h)
          else mput h
      | None => mput h
      end) Q X h1.
Proof.
  intros Hs Hd [Hnd Hsp] Hk HQ. apply wp_bind, wp_get. cbv zeta.
  change (dstate (set_dicts (delete mp (dicts h1)) h1)) with (dstate h1).
  assert (Hkeep : Q tt (set_dicts (delete mp (dicts h1)) h1)).
  { unfold set_dicts. rewrite Hk. apply HQ; [done|]. split; [done|]. intros a Ha. rewrite lookup_delete_None. auto. }
  destruct (dstate h1) as [s|] eqn:Hd1; [|by apply wp_put].
  destruct (numfree s <? CiDict_MAXFREELIST) eqn:Hlt; [|by apply wp_put]. bool_to_prop.
  destruct Hs as [H1 H2 D1 D2 H3 H4]. rewrite aset_lt by lia. apply wp_bind, wp_ret, wp_put.
  unfold set_dstate, set_dicts. simpl. rewrite Hk. apply HQ.
  - split; simpl; try done; [by rewrite Zlen_insert|lia].
  - unfold spare_ok. rewrite spare_dicts_push by lia. split.
    + apply NoDup_app. split_and!; [done| |apply NoDup_singleton].
      intros a Ha ->%list_elem_of_singleton. pose proof (Hsp mp Ha). congruence.
    + intros a [Ha| ->%list_elem_of_singleton]%elem_of_app; rewrite lookup_delete_None; auto.
Qed.
Lemma dealloc_wp mp h its :
  dict_is h mp its ->
  wp (dict_dealloc mp)
    (λ _ h', heap_inv h' ∧ only_dict mp h h' ∧ dicts h' !! mp = None ∧
       ∀ v, taken v (refs h') = taken v (refs h) - owned v its) (λ _ _, False) h.
Proof.
  intros Hd. destruct (dict_is_at _ _ _ Hd) as (d & k & [Hdm Hk] & Hwf & Hits). pose proof (di_inv _ _ _ Hd) as Hi.
  destruct (hi_empty _ Hi) as (n & Hn & Hle). unfold dict_dealloc. apply wp_bind, (wp_get_dict _ d _ _ _ Hdm).
  destruct (drop_table_run h d k n Hk Hwf Hn (empty_users_pos _ _ _ _ Hdm Hle) (hi_state _ Hi))
    as (s & evs & Hrun & Hs & Hsp & Hev).
  set (h1 := more_refs evs (set_dstate s (set_keys (dropped d n (keys h)) h))) in *.
  apply wp_bind, (wp_conseq _ (λ _ h', h' = h1) _ (λ _ _, False)); [|intros [] ? ->|done].
  { destruct Hwf as [He|Ht].
    - rewrite (ew_dict _ _ He) in Hrun |- *. simpl in *. eapply wp_run; [exact Hrun|done].
    - rewrite (tw_combined _ _ Ht). apply wp_bind, (wp_get_dk _ _ _ _ _ Hk), wp_bind, wp_assert; [apply Z.eqb_eq, Ht|].
      eapply wp_run; [exact Hrun|done]. }
  apply (push_dict_wp mp d (dropped d n (keys h))); [done|done| |done|].
  { destruct (hi_spare _ Hi) as [S1 S2]. unfold spare_ok. simpl. by rewrite Hsp. }
  intros s' Hs' Hsp'.
  destruct (heap_inv_free h mp d (dropped d n (keys h)) s' (refs h1) (world h1) Hi Hdm) as [Hinv Honly]; [| |done|done|].
  - intros b H1 H2. by apply dropped_other.
  - eexists. rewrite dropped_empty by done. split; [done|]. rewrite (empty_users_delete _ _ d) by done. lia.
  - split_and!; [done|done|apply lookup_delete_eq|]. intros v. simpl. rewrite taken_app, Hev, Hits. lia.
Qed.
(** Emptying the caches frees blocks once each, and none that is in use. *)
Lemma clear_caches_wp h :
  heap_inv h ->
  wp _PyCheckedDict_ClearCaches
    (λ freed h', heap_inv h' ∧ dicts h' = dicts h ∧ keys h' = keys h ∧ refs h' = refs h ∧
       NoDup freed.1 ∧ (∀ mp, mp ∈ freed.1 -> dicts h !! mp = None) ∧
       NoDup freed.2 ∧ (∀ a, a ∈ freed.2 -> keys h !! a = None)) (λ _ _, False) h.
Proof.
  intros Hi. unfold _PyCheckedDict_ClearCaches. apply wp_bind, wp_get.
  pose proof (hi_state _ Hi) as Hs. destruct (hi_spare _ Hi) as [S1 S2].
  destruct (dstate h) as [s|]; [|apply wp_ret; split_and!; simpl; try done; try apply NoDup_nil_2; set_solver].
  destruct Hs as [H1 H2 D1 D2 H3 H4]. apply wp_bind, wp_put, wp_ret. split_and!; try done.
  - destruct Hi as [I1 I2 I3 I4 I5]. split; try done; unfold set_dstate; simpl.
    + split; simpl; try done; try lia; unfold spare; simpl; [apply NoDup_nil_2|set_solver].
    + split; simpl; [apply NoDup_nil_2|set_solver].
  - intros a Ha. by apply H4.
Qed.
End free.
