(* ===== verification/DictUpdate.v ===== *)
(** * Merging into a checked dict

    [clone_combined_dict_keys], [dict_merge], [chkdict_merge], the updates
    from mappings and from sequences of pairs, [update], [fromkeys] and
    [copy] of [checked_dict.c].  References to iterators, dicts and
    sequences are not tracked; those to keys and values are. *)

From stdpp Require Import base list gmap numbers strings.
From S2P Require Import Prelude TypeCheck DictProbe DictObject DictCore CheckedDict.

(** What [PyIter_Next] gives: a new reference, the end, or an exception. *)
Inductive next_result (V : Type) := NextItem (v : V) | NextStop | NextErr (e : pyexn).
Arguments NextItem {V} v.
Arguments NextStop {V}.
Arguments NextErr {V} e.

(** An object to iterate over: [PyObject_GetIter] and [PyIter_Next]. *)
Record diter (V E : Type) := DIter {
  di_get : dheap V E -> option pyexn * dheap V E;
  di_next : dheap V E -> next_result V * dheap V E
}.
Arguments DIter {V E} _ _.
Arguments di_get {V E} _ _.
Arguments di_next {V E} _ _.
(** A mapping: [PyMapping_Keys], iterating over them, [PyObject_GetItem]. *)
Record mapping (V E : Type) := Mapping {
  mp_keys : dheap V E -> option pyexn * dheap V E;
  mp_iter : diter V E;
  mp_getitem : V -> dheap V E -> (pyexn + V) * dheap V E
}.
Arguments Mapping {V E} _ _ _.
Arguments mp_keys {V E} _ _.
Arguments mp_iter {V E} _.
Arguments mp_getitem {V E} _ _ _.
(** The argument of [update]: a checked dict, of this type or another one; a
    dict; another object, with the attribute [keys] or without.  [lookup] is
    what looking the attribute up does. *)
Inductive update_arg (V E : Type) :=
  | UChecked (same_type : bool) (other : Z)
  | UDict (m : mapping V E)
  | UObject (lookup : dheap V E -> (pyexn + bool) * dheap V E) (m : mapping V E) (seq2 : diter V E).
Arguments UChecked {V E} _ _.
Arguments UDict {V E} _.
Arguments UObject {V E} _ _ _.

Section update.
Context {V E : Type} {api : DictApi V E} {tapi : TypeApi V} `{EqDecision V}.

(** Calls into objects that may fail. *)
Definition run_status (f : dheap V E -> option pyexn * dheap V E) : DM V E unit := λ h,
  match f h with (None, h) => Ret tt h | (Some e, h) => Exn e h end.
Definition run_value {A} (f : dheap V E -> (pyexn + A) * dheap V E) : DM V E A := λ h,
  match f h with (inr a, h) => Ret a h | (inl e, h) => Exn e h end.
Definition PyIter_Next (it : diter V E) : DM V E (next_result V) := λ h,
  match di_next it h with
  | (NextItem v, h) => Ret (NextItem v) (add_ref (IncRef v) h)
  | (r, h) => Ret r h
  end.
(** [PyObject_GetItem]: a new reference. *)
Definition PyObject_GetItem (m : mapping V E) (key : V) : DM V E V :=
  value ← run_value (mp_getitem m key); _ ← INCREF value; mret value.

(** ** Cloning a table *)

Fixpoint incref_entries (l : list (dictentry V)) : DM V E unit :=
  match l with
  | [] => mret tt
  | e :: l =>
      _ ← (match me_value e with
           | Some value => _ ← INCREF value; key ← mlift (me_key e); INCREF key
           | None => mret tt
           end);
      incref_entries l
  end.
Definition clone_combined_dict_keys (orig : Z) : DM V E Z :=
  d ← get_dict orig;
  k ← get_dk (ma_keys d);
  _ ← cassert (is_null (ma_values d));
  _ ← cassert (dk_refcnt k =? 1);
  a ← PyObject_Malloc (Ci_CheckedDict_KeysSize k);
  match a with
  | None => mraise MemoryError no_msg
  | Some keys_addr =>
      h ← mget;
      _ ← mput (set_keys (<[keys_addr := k]> (keys h)) h);
      _ ← incref_entries (take (Z.to_nat (dk_nentries k)) (dk_entries k));
      mret keys_addr
  end.

(** ** Merging one checked dict into another *)

(** The room made at the start. *)
Definition merge_resize (mp other : Z) : DM V E unit :=
  k ← get_keys mp;
  o ← get_dict other;
  if USABLE_FRACTION (dk_size k) <? ma_used o then
    d ← get_dict mp;
    dictresize mp (estimate_keysize (ma_used d + ma_used o))
  else mret tt.
(** Entry [i] through the pointer [ep0] taken at the start, into the table
    [okeys]; the value, in a split table, from the dict as it is now. *)
Definition merge_entry (okeys other i : Z) : DM V E (Z * option V * option V) :=
  ok ← get_dk okeys;
  entry ← mlift (aget (dk_entries ok) i);
  o ← get_dict other;
  value ← (match ma_values o with
           | NullValues => mret (me_value entry)
           | vs => mlift (values_get vs i)
           end);
  mret (me_hash entry, me_key entry, value).
(** [if (n != other->ma_keys->dk_nentries)]. *)
Definition merge_unchanged (n other : Z) : DM V E unit :=
  ok ← get_keys other;
  if n =? dk_nentries ok then mret tt else mraise RuntimeError "dict mutated during update".

(** [override]: 1 replaces values, 0 keeps them, 2 raises. *)
Definition merge_store (fuel : nat) (mp : Z) (override : Z) (key : V) (hash : Z) (value : V) : DM V E unit :=
  if override =? 1 then insertdict fuel mp key hash value
  else
    found ← _CiDict_Contains_KnownHash fuel mp key hash;
    if (found : bool) then
      if negb (override =? 0) then mraise KeyError no_msg else mret tt
    else insertdict fuel mp key hash value.
(** [store key value] between the references the loop holds. *)
Definition hold_pair (key value : V) (store : DM V E unit) : DM V E unit :=
  _ ← INCREF key;
  _ ← INCREF value;
  err ← mtry store;
  _ ← DECREF value;
  _ ← DECREF key;
  match err with inl e => mthrow e | inr _ => mret tt end.
(** The loop of both merges: [store key hash value] handles one item. *)
Fixpoint merge_loop (todo : nat) (store : V -> Z -> V -> DM V E unit) (other okeys n i : Z) : DM V E unit :=
  match todo with
  | O => mret tt
  | S todo =>
      '(hash, key, value) ← merge_entry okeys other i;
      _ ← (match value with
           | None => mret tt
           | Some value =>
               key ← mlift key;
               _ ← store key hash value;
               merge_unchanged n other
           end);
      merge_loop todo store other okeys n (i + 1)
  end.
Definition merge_entries (store : V -> Z -> V -> DM V E unit) (other : Z) : DM V E unit :=
  o ← get_dict other;
  ok ← get_dk (ma_keys o);
  merge_loop (Z.to_nat (dk_nentries ok)) store other (ma_keys o) (dk_nentries ok) 0.
(** The target is empty and [other] is clean: take a copy of its table. *)
Definition merge_clone (mp other : Z) : DM V E unit :=
  keys_addr ← clone_combined_dict_keys other;
  d ← get_dict mp;
  _ ← dictkeys_decref (ma_keys d);
  o ← get_dict other;
  put_dict mp (DictObj (ma_used o) keys_addr NullValues).
Definition clonable (o : dictobj V) (ok : dictkeys V) : bool :=
  is_null (ma_values o) && (ma_used o =? dk_nentries ok)
  && ((dk_size ok =? PyDict_MINSIZE) || (USABLE_FRACTION (dk_size ok `quot` 2) <? ma_used o)).
(** [dict_merge(a, b, override)] for a checked dict [other]. *)
Definition dict_merge (fuel : nat) (mp other override : Z) : DM V E unit :=
  _ ← cassert ((0 <=? override) && (override <=? 2));
  o ← get_dict other;
  if (other =? mp) || (ma_used o =? 0) then mret tt
  else
    d ← get_dict mp;
    ok ← get_dk (ma_keys o);
    let override := if ma_used d =? 0 then 1 else override in
    if (ma_used d =? 0) && clonable o ok then merge_clone mp other
    else
      _ ← merge_resize mp other;
      merge_entries (λ key hash value,
        hold_pair key value (merge_store fuel mp override key hash value)) other.
(** [tp_alloc] and [dict_merge(copy, mp, 1)]. *)
Definition chkdict_copy (fuel : nat) (mp : Z) : DM V E Z :=
  copy ← chkdict_alloc 0;
  r ← mtry (dict_merge fuel copy mp 1);
  match r with
  | inr _ => mret copy
  | inl e => _ ← dict_dealloc copy; mthrow e
  end.

(** ** Merging with type checks *)
Section checked.
Variable inst : list gparam.

(** The branch of [chkdict_merge] for a checked dict. *)
Definition chkdict_merge (fuel : nat) (mp other : Z) : DM V E unit :=
  o ← get_dict other;
  if (other =? mp) || (ma_used o =? 0) then mret tt
  else
    _ ← merge_resize mp other;
    merge_entries (λ key hash value,
      _ ← chkdict_checkkey inst key;
      _ ← chkdict_checkval inst value;
      hold_pair key value (insertdict fuel mp key hash value)) other.

(** [insertdict(mp, key, PyObject_Hash(key), value)]: when hashing raises,
    the exception stays pending and the hash is -1. *)
Definition insert_hashed (fuel : nat) (mp : Z) (key value : V) : DM V E (option pyexn) :=
  r ← mtry (PyObject_Hash key);
  match r with
  | inr hash => _ ← insertdict fuel mp key hash value; mret None
  | inl e => _ ← insertdict fuel mp key (-1) value; mret (Some e)
  end.
(** The exception that is pending after a step. *)
Definition still_pending (before after : option pyexn) : option pyexn :=
  match after with Some e => Some e | None => before end.
(** [if (PyErr_Occurred()) ...] after a loop. *)
Definition check_pending (pending : option pyexn) : DM V E unit :=
  match pending with Some e => mthrow e | None => mret tt end.
(** The checks and the store of the three loops below. *)
Definition check_and_insert (fuel : nat) (mp : Z) (key value : V) : DM V E (option pyexn) :=
  _ ← chkdict_checkkey inst key;
  _ ← chkdict_checkval inst value;
  insert_hashed fuel mp key value.

(** [steps] bounds the items of the iterator. *)
Fixpoint merge_iterable_loop (steps fuel : nat) (mp : Z) (b : mapping V E) (pending : option pyexn)
    : DM V E unit :=
  match steps with
  | O => mnofuel
  | S steps =>
      r ← PyIter_Next (mp_iter b);
      match r with
      | NextErr e => mthrow e
      | NextStop => check_pending pending
      | NextItem key =>
          v ← mtry (PyObject_GetItem b key);
          match v with
          | inl e => _ ← DECREF key; mthrow e
          | inr value =>
              status ← mtry (check_and_insert fuel mp key value);
              _ ← DECREF key;
              _ ← DECREF value;
              match status with
              | inl e => mthrow e
              | inr after => merge_iterable_loop steps fuel mp b (still_pending pending after)
              end
          end
      end
  end.
Definition chkdict_merge_iterable (steps fuel : nat) (mp : Z) (b : mapping V E) : DM V E unit :=
  _ ← run_status (mp_keys b);
  _ ← run_status (di_get (mp_iter b));
  merge_iterable_loop steps fuel mp b None.

(** [as_seq]: [PySequence_Fast(item, "")]. *)
Variable as_seq : V -> dheap V E -> (pyexn + list V) * dheap V E.
Definition fast_pair (item : V) : DM V E (V * V) :=
  r ← mtry (run_value (as_seq item));
  match r with
  | inl e =>
      if bool_decide (exn_ty e = TypeError)
      then mraise TypeError "cannot convert dictionary update sequence element to a sequence"
      else mthrow e
  | inr [key; value] => mret (key, value)
  | inr _ => mraise ValueError "dictionary update sequence element: 2 is required"
  end.
Fixpoint mergefromseq2_loop (steps fuel : nat) (mp : Z) (it : diter V E) (pending : option pyexn)
    : DM V E unit :=
  match steps with
  | O => mnofuel
  | S steps =>
      r ← PyIter_Next it;
      match r with
      | NextErr e => mthrow e
      | NextStop => check_pending pending
      | NextItem item =>
          p ← mtry (fast_pair item);
          match p with
          | inl e => _ ← DECREF item; mthrow e
          | inr (key, value) =>
              _ ← INCREF key;
              _ ← INCREF value;
              status ← mtry (check_and_insert fuel mp key value);
              match status with
              | inl e => _ ← DECREF key; _ ← DECREF value; _ ← DECREF item; mthrow e
              | inr after =>
                  _ ← DECREF key;
                  _ ← DECREF value;
                  _ ← DECREF item;
                  mergefromseq2_loop steps fuel mp it (still_pending pending after)
              end
          end
      end
  end.
Definition chkdict_mergefromseq2 (steps fuel : nat) (mp : Z) (seq2 : diter V E) : DM V E unit :=
  _ ← run_status (di_get seq2);
  mergefromseq2_loop steps fuel mp seq2 None.

(** ** [update], [fromkeys] *)

(** [kwds]: the keyword arguments, a dict, and whether all its keys are strings. *)
Definition chkdict_update_common_fast (steps fuel : nat) (mp : Z) (arg : option (update_arg V E))
    (kwds : option (bool * mapping V E)) : DM V E unit :=
  _ ← (match arg with
       | None => mret tt
       | Some (UChecked true other) => dict_merge fuel mp other 1
       | Some (UChecked false other) => chkdict_merge fuel mp other
       | Some (UDict m) => chkdict_merge_iterable steps fuel mp m
       | Some (UObject lookup m seq2) =>
           has_keys ← run_value lookup;
           if (has_keys : bool) then chkdict_merge_iterable steps fuel mp m
           else chkdict_mergefromseq2 steps fuel mp seq2
       end);
  match kwds with
  | None => mret tt
  | Some (valid, kwds) =>
      if (valid : bool) then chkdict_merge_iterable steps fuel mp kwds
      else mraise TypeError "keywords must be strings"
  end.

Fixpoint fromkeys_loop (steps fuel : nat) (d : Z) (it : diter V E) (value : V) (pending : option pyexn)
    : DM V E unit :=
  match steps with
  | O => mnofuel
  | S steps =>
      r ← PyIter_Next it;
      match r with
      | NextErr e => mthrow e
      | NextStop => check_pending pending
      | NextItem key =>
          ok ← _PyClassLoader_CheckParamType inst key 0;
          if (ok : bool) then
            status ← mtry (insert_hashed fuel d key value);
            _ ← DECREF key;
            match status with
            | inl e => mthrow e
            | inr after => fromkeys_loop steps fuel d it value (still_pending pending after)
            end
          else _ ← DECREF key; mraise TypeError "bad key type"
      end
  end.
(** [call_type]: calling the class without arguments; its result is a checked
    dict that nothing else refers to. *)
Definition chkdict_fromkeys (steps fuel : nat) (call_type : DM V E Z) (iterable : diter V E)
    (value : option V) : DM V E Z :=
  let value := default Py_None value in
  d ← call_type;
  r ← mtry (
    ok ← _PyClassLoader_CheckParamType inst value 1;
    _ ← (if (ok : bool) then mret tt else mraise TypeError "bad value type");
    _ ← run_status (di_get iterable);
    fromkeys_loop steps fuel d iterable value None);
  match r with
  | inr _ => mret d
  | inl e => _ ← dict_dealloc d; mthrow e
  end.
End checked.
End update.
