(* ===== verification/DictMerge.v ===== *)
(** * Merging and copying dicts refines merging association lists

    [dict_merge] and [chkdict_merge] go through the items of the other dict in
    order; the clone of a clean table is a shortcut to the same result. *)

From stdpp Require Import base list gmap numbers strings sets.
From S2P Require Import Prelude TypeCheck DictProbe DictObject DictCore DictTable DictWf DictResize DictHeap DictGrow.
From S2P Require Import DictSpec DictOps DictDelete CheckedDict DictQuery DictFree DictUpdate.

(** ** Merging association lists *)
Section assoc.
Context {V : Type} (keq : V -> V -> bool).
Implicit Types l ps : list (V * V).

(** One item: [override] 1 replaces the value, 0 and 2 keep it. *)
Definition dput (override : Z) l (p : V * V) : list (V * V) :=
  if override =? 1 then dset keq p.1 p.2 l
  else match dget keq p.1 l with Some _ => l | None => dset keq p.1 p.2 l end.
Definition dputs (override : Z) l ps : list (V * V) := foldl (dput override) l ps.

(** No two keys of a list are equal. *)
Definition distinct ps : Prop := ForallOrdPairs (λ p q, keq p.1 q.1 = false) ps.

Lemma dput_absent override l p : absent keq p.1 l -> dput override l p = l ++ [p].
Proof.
  intros Ha. unfold dput. rewrite dget_absent by done. rewrite dset_absent by done. destruct p. by destruct (_ =? _).
Qed.
Lemma dputs_absent override l ps :
  distinct ps -> (∀ p, p ∈ ps -> absent keq p.1 l) -> dputs override l ps = l ++ ps.
Proof.
  revert l. induction ps as [|p ps IH]; intros l Hd Ha; [by rewrite app_nil_r|].
  inversion Hd as [|? ? Hp Hd']; subst. unfold dputs. simpl. rewrite dput_absent by (apply Ha; set_solver).
  change (dputs override (l ++ [p]) ps = l ++ p :: ps). rewrite IH; [by rewrite <- app_assoc|done|].
  intros q Hq. apply Forall_app. split; [apply Ha; set_solver|]. constructor; [|constructor].
  rewrite Forall_forall in Hp. by apply Hp.
Qed.
Lemma dputs_nil override ps : distinct ps -> dputs override [] ps = ps.
Proof. intros Hd. rewrite dputs_absent; [done|done|]. intros. constructor. Qed.
End assoc.

Section merge.
Context {V E : Type} {api : DictApi V E} {tapi : TypeApi V} `{EqDecision V}.
Context {keq : V -> V -> bool} {khash : V -> option Z} (Hwb : well_behaved keq khash).
Implicit Types (k : dictkeys V) (d : dictobj V) (h : dheap V E).
Abbreviation dict_is := (@dict_is V E api keq khash).
Abbreviation updated := (@updated V E api EqDecision0 keq khash).
Abbreviation items_ok := (@items_ok V keq khash).

Lemma items_distinct its : items_ok its -> distinct keq (pairs its).
Proof.
  intros [_ Hd]. unfold distinct. induction Hd as [|[[x key] v] its Hf Hd IH]; simpl; constructor; [|done].
  unfold pairs. rewrite Forall_fmap. eapply Forall_impl; [exact Hf|]. by intros [[x1 key1] v1].
Qed.

(** [store], run on [mp] with the items [its], leaves it with items of which
    [S] holds, or fails leaving it with items of which [X] does. *)
Definition stores (mp : Z) (store : DM V E unit) (S : list (Z * V * V) -> Prop)
    (X : pyexn -> list (Z * V * V) -> Prop) its : Prop :=
  ∀ h, dict_is h mp its ->
    wp store (λ _ h', ∃ its', updated mp h h' its' (λ _, 0) ∧ S its')
      (λ e h', ∃ its', updated mp h h' its' (λ _, 0) ∧ X e its') h.

Lemma updated_trans0 mp h1 h2 h3 its2 its3 :
  updated mp h1 h2 its2 (λ _, 0) -> updated mp h2 h3 its3 (λ _, 0) -> updated mp h1 h3 its3 (λ _, 0).
Proof. intros H1 H2. eapply updated_extra; [by eapply updated_trans|]. intros v. lia. Qed.
Lemma updated_other mp other h h' its x o ok :
  updated mp h h' its x -> heap_inv h -> other ≠ mp -> has_dict h other o ok -> table_wf o ok ->
  has_dict h' other o ok.
Proof.
  intros [Hd [Hod Hok _] _] Hi Hne [Ho Hk] Ht. split; [by rewrite Hod|]. rewrite Hok; [done|apply Ht|by eexists|].
  intros d Hd0 Heq. apply Hne. symmetry. apply (hi_own _ Hi mp other d o Hd0 Ho Heq). rewrite Heq. apply Ht.
Qed.
Lemma stores_insertdict fuel mp key hash value its :
  khash key = Some hash -> (0 < fuel)%nat ->
  stores mp (insertdict fuel mp key hash value)
    (λ its', pairs its' = dset keq key value (pairs its))
    (λ e its', its' = its ∧ e = PyErr MemoryError no_msg) its.
Proof.
  intros Hh Hf h Hd. eapply wp_conseq; [by apply (insertdict_wp Hwb fuel mp key hash value h its)|done|].
  intros e h' [-> Hu]. eauto.
Qed.
Lemma stores_hold mp key value store S X its :
  stores mp store S X its -> stores mp (hold_pair key value store) S X its.
Proof.
  intros Hs h Hd. unfold hold_pair. apply wp_bind, wp_modify, wp_bind, wp_modify.
  set (h1 := add_ref (IncRef value) (add_ref (IncRef key) h)).
  assert (H1 : updated mp h h1 its (λ v, one key v + one value v)).
  { change h1 with (more_refs [IncRef value; IncRef key] h).
    eapply updated_extra; [by apply updated_more|]. intros v. simpl. unfold one. lia. }
  assert (Hdrop : ∀ h2 its', updated mp h1 h2 its' (λ _, 0) ->
    updated mp h (add_ref (DecRef key) (add_ref (DecRef value) h2)) its' (λ _, 0)).
  { intros h2 its' H2. change (add_ref (DecRef key) (add_ref (DecRef value) h2)) with (more_refs [DecRef key; DecRef value] h2).
    eapply updated_extra; [eapply updated_trans; [eapply updated_trans; [exact H1|exact H2]|apply updated_more, H2]|].
    intros v. simpl. unfold one. lia. }
  apply wp_bind, wp_try. eapply wp_conseq; [apply Hs, H1| |].
  - intros [] h2 (its' & H2 & HS). apply wp_bind, (wp_decref Hwb), wp_bind, (wp_decref Hwb), wp_ret. eauto.
  - intros e h2 (its' & H2 & HX). apply wp_bind, (wp_decref Hwb), wp_bind, (wp_decref Hwb), wp_throw. eauto.
Qed.
Lemma stores_merge fuel mp override key hash value its :
  khash key = Some hash -> (0 < fuel)%nat -> 0 <= override <= 2 ->
  stores mp (merge_store fuel mp override key hash value)
    (λ its', pairs its' = dput keq override (pairs its) (key, value))
    (λ e its', its' = its ∧ (e = PyErr MemoryError no_msg ∨
       (override = 2 ∧ e = PyErr KeyError no_msg ∧ dget keq key (pairs its) ≠ None))) its.
Proof.
  intros Hh Hf Ho h Hd. unfold merge_store, dput. simpl fst. simpl snd. destruct (override =? 1) eqn:H1; bool_to_prop.
  { eapply wp_conseq; [by apply stores_insertdict|done|]. intros e h' (its' & Hu & -> & ->). eauto. }
  apply wp_bind, (contains_known_wp Hwb fuel mp key hash h its); [done|done|done|]. intros h1 Hu.
  destruct (dget keq key (pairs its)) as [v|] eqn:Hg; simpl.
  - destruct (override =? 0) eqn:H0; bool_to_prop; simpl.
    + apply wp_ret. eauto.
    + apply wp_raise. exists its. split; [done|]. split; [done|]. right. split; [lia|done].
  - eapply wp_conseq; [apply stores_insertdict; [done|done|apply Hu]| |].
    + intros [] h2 (its' & Hu2 & Hp). exists its'. split; [by eapply updated_trans0|done].
    + intros e h2 (its' & Hu2 & -> & ->). exists its. split; [by eapply updated_trans0|auto].
Qed.

(** ** The loop over the other dict's entries *)
Section loop.
Context (mp other : Z) (Hne : other ≠ mp) (o : dictobj V) (ok : dictkeys V) (Hot : table_wf o ok) (Hoi : items_ok (items ok)).
(** What storing one item does to the items, which items it accepts, and how it fails. *)
Context (store : V -> Z -> V -> DM V E unit) (step : list (V * V) -> V * V -> list (V * V)) (accepts : V * V -> Prop)
        (bad : list (V * V) -> V * V -> pyexn -> Prop).
Context (Hstore : ∀ key hash value its, khash key = Some hash ->
  stores mp (store key hash value) (λ its', pairs its' = step (pairs its) (key, value) ∧ accepts (key, value))
    (λ e its', its' = its ∧ bad (pairs its) (key, value) e) its).

Lemma merge_entry_run h i e :
  has_dict h other o ok -> aget (dk_entries ok) i = Some e ->
  merge_entry (ma_keys o) other i h = Ret (me_hash e, me_key e, me_value e) h.
Proof using Hot.
  intros [Ho Hk] He. unfold merge_entry. run_step; [by apply get_dk_at|]. cbv beta. rewrite He. run_step; [done|].
  cbv beta. run_step; [by apply get_dict_at|]. cbv beta. rewrite (tw_combined _ _ Hot). by run_step.
Qed.
Lemma merge_loop_wp todo pre now_ post its h :
  dk_entries ok = pre ++ now_ ++ post -> length now_ = todo ->
  dict_is h mp its -> has_dict h other o ok ->
  let ps := pairs (entry_items now_) in
  wp (merge_loop todo store other (ma_keys o) (dk_nentries ok) (Zlen pre))
    (λ _ h', ∃ its', updated mp h h' its' (λ _, 0) ∧ pairs its' = foldl step (pairs its) ps ∧ Forall accepts ps)
    (λ e h', ∃ m its' p, updated mp h h' its' (λ _, 0) ∧ pairs its' = foldl step (pairs its) (take m ps) ∧
       Forall accepts (take m ps) ∧ ps !! m = Some p ∧ bad (pairs its') p e) h.
Proof using Hwb Hne Hot Hoi Hstore.
  revert pre now_ its h. induction todo as [|todo IH]; intros pre now_ its h He Hlen Hd Ho ps.
  { apply length_zero_iff_nil in Hlen. subst now_. apply wp_ret. exists its. split_and!; [by apply updated_refl|done|constructor]. }
  destruct now_ as [|e now_]; [done|]. injection Hlen as Hlen. cbn [merge_loop].
  assert (Hent : aget (dk_entries ok) (Zlen pre) = Some e) by (rewrite He; by apply aget_app).
  apply wp_bind. eapply wp_run; [by apply merge_entry_run|]. cbv beta iota.
  replace (Zlen pre + 1) with (Zlen (pre ++ [e])) by zlia.
  assert (He' : dk_entries ok = (pre ++ [e]) ++ now_ ++ post) by (rewrite He, <- app_assoc; done).
  destruct (proj1 (kw_pairs _ (tw_keys _ _ Hot) _ _ Hent)) as [Hkv Hvk].
  destruct (me_value e) as [value|] eqn:Hv.
  2: { assert (ps = pairs (entry_items now_)) as ->.
       { unfold ps. rewrite entry_items_cons. unfold entry_item. rewrite Hv. by destruct (me_key e). }
       apply wp_bind, wp_ret. by apply IH. }
  destruct Hvk as [key Hk]; [by eexists|].
  assert (ps = (key, value) :: pairs (entry_items now_)) as ->.
  { unfold ps. rewrite entry_items_cons. unfold entry_item. by rewrite Hv, Hk. }
  rewrite Hk. apply wp_bind, wp_bind. eapply wp_lift; [done|].
  assert (Hh : khash key = Some (me_hash e)).
  { destruct (live_item_of ok _ e key (tw_keys _ _ Hot) Hent Hk) as (v & _ & Hin). by apply (io_hash _ Hoi _ _ _ Hin). }
  apply wp_bind. eapply wp_conseq; [by apply Hstore| |].
  - intros [] h1 (its1 & H1 & Hp1 & Ha1). pose proof (updated_other _ _ _ _ _ _ _ _ H1 (di_inv _ _ _ Hd) Hne Ho Hot) as Ho1.
    unfold merge_unchanged. apply wp_bind, (wp_get_keys _ o ok); [done|]. rewrite Z.eqb_refl. apply wp_ret.
    eapply wp_conseq; [apply (IH (pre ++ [e]) now_ its1 h1 He' Hlen (up_is _ _ _ _ _ H1) Ho1)| |].
    + intros [] h2 (its2 & H2 & Hp2 & Ha2). exists its2. split_and!; [by eapply updated_trans0| |by constructor].
      by rewrite Hp2, Hp1.
    + intros ex h2 (m & its2 & p & H2 & Hp2 & Ha2 & Hm & Hb). exists (S m), its2, p.
      split_and!; [by eapply updated_trans0|simpl; by rewrite <- Hp1|by constructor|done|done].
  - intros ex h1 (its1 & H1 & -> & Hb). exists 0%nat, its, (key, value). by split_and!; [| |constructor| |].
Qed.
Lemma merge_entries_wp its h :
  dict_is h mp its -> has_dict h other o ok ->
  let ps := pairs (items ok) in
  wp (merge_entries store other)
    (λ _ h', ∃ its', updated mp h h' its' (λ _, 0) ∧ pairs its' = foldl step (pairs its) ps ∧ Forall accepts ps)
    (λ e h', ∃ m its' p, updated mp h h' its' (λ _, 0) ∧ pairs its' = foldl step (pairs its) (take m ps) ∧
       Forall accepts (take m ps) ∧ ps !! m = Some p ∧ bad (pairs its') p e) h.
Proof using Hwb Hne Hot Hoi Hstore.
  intros Hd Ho ps. unfold merge_entries. destruct Ho as [Ho1 Ho2].
  apply wp_bind, (wp_get_dict _ o _ _ _ Ho1), wp_bind, (wp_get_dk _ _ _ _ _ Ho2).
  pose proof (tw_keys _ _ Hot) as Hw.
  destruct (Zlen_split (dk_nentries ok) (dk_entries ok)) as (now_ & post & He & Hlen); [destruct Hw; lia|].
  assert (Hits : items ok = entry_items now_).
  { unfold items. rewrite He, entry_items_app, (entry_items_none post), app_nil_r; [done|].
    intros i e Hi. apply aget_Some in Hi as ?. apply (kw_pairs _ Hw (Zlen now_ + i)); [|lia].
    rewrite He, aget_app_r by lia. rewrite <- Hi. f_equal. lia. }
  unfold ps. rewrite Hits. apply (merge_loop_wp _ [] now_ post); [done|unfold Zlen in Hlen; lia|done|done].
Qed.
End loop.
End merge.

Section copy.
Context {V E : Type} {api : DictApi V E} {tapi : TypeApi V} `{EqDecision V}.
Context {keq : V -> V -> bool} {khash : V -> option Z} (Hwb : well_behaved keq khash).
Implicit Types (k : dictkeys V) (d : dictobj V) (h : dheap V E).
Abbreviation dict_is := (@dict_is V E api keq khash).
Abbreviation updated := (@updated V E api EqDecision0 keq khash).
Abbreviation items_ok := (@items_ok V keq khash).

(** ** Making room *)

Lemma merge_resize_wp {nf} mp other o ok its h Q X :
  dict_is h mp its -> has_dict h other o ok -> dict_wf o ok ->
  (∀ h', updated mp h h' its (λ _, 0) -> Q tt h') ->
  (∀ e, X (PyErr MemoryError no_msg) (set_world e h)) ->
  wpo nf (merge_resize mp other) Q X h.
Proof.
  intros Hd [Ho Hok] Hwo HQ HX. unfold merge_resize. destruct (dict_is_at _ _ _ Hd) as (d & k & Hdk & Hwf & Hits).
  apply wp_bind, (wp_get_keys _ d k); [done|]. apply wp_bind, (wp_get_dict _ o _ _ _ Ho).
  destruct (_ <? _); [|by apply HQ, updated_refl].
  apply wp_bind, (wp_get_dict _ d); [apply Hdk|].
  destruct (used_items d k Hwf) as [Hu Hm], (used_items o ok Hwo) as [Huo Hmo].
  pose proof (Zlen_nonneg (items k)). pose proof (Zlen_nonneg (items ok)).
  assert (H58 : USABLE_FRACTION (2 ^ 58) < 2 ^ 58) by (apply USABLE_FRACTION_bounds; lia).
  unfold estimate_keysize. rewrite Z.quot_div_nonneg by lia.
  set (m := ((ma_used d + ma_used o) * 3 + 1) `div` 2).
  assert (Hmb : 0 <= m < 2 ^ 60 ∧ ma_used d + ma_used o <= 2 * m / 3).
  { rewrite USABLE_FRACTION_val in Hm, Hmo by lia. unfold m. split; [|divlia].
    change (2 ^ 58) with 288230376151711744 in *. change (2 ^ 60) with 1152921504606846976. divlia. }
  destruct (calculate_keysize_ge m) as (kk & Hkk & -> & Hge & Hle); [lia|].
  assert (kk <= 60).
  { destruct (decide (60 < kk)); [|lia]. pose proof (Z.pow_le_mono_r 2 61 kk ltac:(lia) ltac:(lia)). lia. }
  destruct (dictresize_run mp d k kk h (di_inv _ _ _ Hd) Hdk Hwf) as [[e He]|(h' & d' & k' & Hrun & Hres)].
  - lia.
  - rewrite USABLE_FRACTION_val by lia. etransitivity; [|apply Z.div_le_mono; [lia|apply Z.mul_le_mono_nonneg_l; [lia|exact Hge]]]. lia.
  - eapply wp_exn; eauto.
  - eapply wp_run; [exact Hrun|]. apply HQ. rewrite Hits in Hres. by eapply updated_resized.
Qed.

(** ** The clone of a table *)

Lemma incref_entries_run l h :
  paired l -> ∃ evs, incref_entries l h = Ret tt (more_refs evs h) ∧ ∀ v, taken v evs = owned v (entry_items l).
Proof.
  intros Hp. revert h. induction Hp as [|e l [_ Hvk] Hp IH]; intros h.
  { exists []. simpl. by rewrite more_refs_nil. }
  cbn [incref_entries]. rewrite entry_items_cons. unfold entry_item. destruct (me_value e) as [value|].
  2: { destruct (IH h) as (evs & Hrun & Ht). exists evs. split; [by run_step|]. by destruct (me_key e). }
  destruct Hvk as [key Hk]; [by eexists|]. rewrite Hk.
  destruct (IH (more_refs [IncRef key; IncRef value] h)) as (evs & Hrun & Ht).
  exists (evs ++ [IncRef key; IncRef value]). split.
  - run_step; [run_step; [done|]; run_step; [done|]; done|]. eapply eq_trans; [exact Hrun|]. by rewrite more_refs_app.
  - intros v. rewrite taken_app, Ht. simpl. lia.
Qed.
(** Dropping an empty dict's table once another table is at [a]. *)
Lemma drop_empty_table h mp d k a ok :
  heap_inv h -> has_dict h mp d k -> dict_wf d k -> items k = [] ->
  a ≠ Py_EMPTY_KEYS -> keys h !! a = None -> dstate_ok (<[a := ok]> (keys h)) (dstate h) ->
  ∀ l, let h1 := more_refs l (set_keys (<[a := ok]> (keys h)) h) in
  ∃ m s evs, dictkeys_decref (ma_keys d) h1 = Ret tt (more_refs evs (set_dstate s (set_keys (<[a := ok]> m) h1))) ∧
    dstate_ok (<[a := ok]> m) s ∧ spare_dicts s = spare_dicts (dstate h) ∧ (∀ v, taken v evs = 0) ∧
    (∀ b, b ≠ Py_EMPTY_KEYS -> b ≠ ma_keys d -> m !! b = keys h !! b) ∧
    (∀ d', ma_keys d' = a -> ∃ n, m !! Py_EMPTY_KEYS = Some (empty_keys_struct n) ∧
       1 + empty_users (<[mp := d']> (dicts h)) <= n).
Proof.
  intros Hi [Hd Hk] Hwf Hits Hnz Hfree Hst l h1. destruct (hi_empty _ Hi) as (n & Hn & Hle).
  assert (Hne : a ≠ ma_keys d) by congruence.
  destruct (drop_table_run Hwb h1 d k n) as (s & evs & Hrun & Hs & Hsp & Hev);
    [simpl; by rewrite lookup_insert_ne|done|simpl; by rewrite lookup_insert_ne|by apply (empty_users_pos _ mp d n Hd)|exact Hst|].
  simpl keys in Hrun, Hs. rewrite dropped_insert in Hrun, Hs by done.
  exists (dropped d n (keys h)), s, evs. split_and!; [exact Hrun|done|done| | |].
  - intros v. rewrite Hev, Hits. done.
  - intros b H1 H2. by apply dropped_other.
  - intros d' Ha. eexists. rewrite dropped_empty by done. split; [done|].
    erewrite empty_users_insert by done. assert (uses_empty d' = false) as ->.
    { unfold uses_empty. rewrite Ha. by apply Z.eqb_neq. }
    lia.
Qed.
Lemma merge_clone_wp mp other o ok h :
  dict_is h mp [] -> other ≠ mp -> has_dict h other o ok -> table_wf o ok -> items_ok (items ok) ->
  wp (merge_clone mp other) (λ _ h', updated mp h h' (items ok) (λ _, 0))
    (λ e h', e = PyErr MemoryError no_msg ∧ updated mp h h' [] (λ _, 0)) h.
Proof.
  intros Hd Hne [Ho Hok] Hot Hoi. pose proof (di_inv _ _ _ Hd) as Hi.
  destruct (dict_is_at _ _ _ Hd) as (d & k & Hdk & Hwf & Hits). destruct Hdk as [Hdm Hk].
  unfold merge_clone, clone_combined_dict_keys. apply wp_bind, wp_bind, (wp_get_dict _ o _ _ _ Ho).
  apply wp_bind, (wp_get_dk _ _ _ _ _ Hok), wp_bind, wp_assert; [by rewrite (tw_combined _ _ Hot)|].
  pose proof (tw_keys _ _ Hot) as Hw. apply wp_bind, wp_assert; [apply Z.eqb_eq, Hw|].
  apply wp_bind. unfold wpo at 1, PyObject_Malloc.
  destruct (dict_malloc (Ci_CheckedDict_KeysSize ok) h) as [[a|] e] eqn:Ha.
  2: { apply wp_raise. split; [done|]. by apply updated_world. }
  assert (Ha1 : (dict_malloc (Ci_CheckedDict_KeysSize ok) h).1 = Some a) by by rewrite Ha.
  destruct (dict_malloc_fresh _ _ _ Ha1) as (Hnz & Hfree & Hspare).
  set (h0 := set_world e h). destruct (heap_inv_world h e Hi) as [Hi0 Honly0].
  assert (Hst : dstate_ok (<[a := ok]> (keys h)) (dstate h)).
  { destruct (dstate h) as [s|] eqn:Hs; [|done]. pose proof (hi_state _ Hi) as Hs0. rewrite Hs in Hs0.
    destruct Hs0 as [H1 H2 D1 D2 H3 H4]. split; [done|done|done|done|done|]. intros b Hb. destruct (H4 b Hb). split; [done|].
    rewrite lookup_insert_ne; [done|]. intros ->. done. }
  apply wp_bind, wp_get, wp_bind, wp_put.
  destruct (Zlen_split (dk_nentries ok) (dk_entries ok)) as (now_ & post & He & Hlen); [destruct Hw; lia|].
  pose proof (entries_ok_paired _ (kw_pairs _ Hw)) as Hp. rewrite He in Hp. apply Forall_app in Hp as [Hp1 _].
  assert (Hitems : items ok = entry_items now_).
  { unfold items. rewrite He, entry_items_app, (entry_items_none post), app_nil_r; [done|].
    intros i e' Hi'. apply aget_Some in Hi' as ?. apply (kw_pairs _ Hw (Zlen now_ + i)); [|lia].
    rewrite He, aget_app_r by lia. rewrite <- Hi'. f_equal. lia. }
  assert (Htake : take (Z.to_nat (dk_nentries ok)) (dk_entries ok) = now_).
  { rewrite He. apply take_app_length'. unfold Zlen in Hlen. lia. }
  rewrite Htake.
  destruct (incref_entries_run now_ (set_keys (<[a := ok]> (keys h0)) h0) Hp1) as (evs & Hrun & Hev).
  apply wp_bind. eapply wp_run; [exact Hrun|]. apply wp_ret.
  assert (Hdm1 : dicts (more_refs evs (set_keys (<[a := ok]> (keys h0)) h0)) !! mp = Some d) by done.
  apply wp_bind, (wp_get_dict _ d _ _ _ Hdm1).
  destruct (drop_empty_table h0 mp d k a ok Hi0 (conj Hdm Hk) Hwf Hits Hnz Hfree Hst evs)
    as (m & s & evs2 & Hrun2 & Hs2 & Hsp2 & Hev2 & Hm & Hempty).
  apply wp_bind. eapply wp_run; [exact Hrun2|]. cbv beta.
  match goal with |- wpo _ _ _ _ ?hh => set (h2 := hh) end.
  assert (Ho2 : dicts h2 !! other = Some o) by done. apply wp_bind, (wp_get_dict _ o _ _ _ Ho2).
  eapply wp_run; [apply (put_dict_at h2 mp d); done|]. cbv beta.
  set (d' := DictObj (ma_used o) a NullValues : dictobj V).
  assert (Hwf' : table_wf d' ok) by (split; [done|done|done|apply Hot]).
  destruct (heap_inv_move h0 mp d d' ok a s e m (evs2 ++ evs ++ refs h) Hi0 Hdm Hwf' eq_refl Hfree Hm (Hempty d' eq_refl) Hs2 Hsp2)
    as (Hinv & Honly & Hhas).
  split; [exact (dict_is_intro _ _ _ _ Hinv Hhas Hoi)|by eapply only_dict_trans|].
  intros v. simpl. rewrite !taken_app, Hev, Hev2, <- Hitems.
  assert (dict_items h mp = []) as -> by apply Hd. simpl. lia.
Qed.

(** ** [dict_merge] *)

(** How merging stops early: after [m] items. *)
Definition merge_stopped (mp : Z) h (its : list (Z * V * V)) (ps : list (V * V)) (step : list (V * V) -> V * V -> list (V * V))
    (accepts : V * V -> Prop)
    (bad : list (V * V) -> V * V -> pyexn -> Prop) (e : pyexn) h' : Prop :=
  (e = PyErr MemoryError no_msg ∧ updated mp h h' its (λ _, 0)) ∨
  ∃ m its' p, updated mp h h' its' (λ _, 0) ∧ pairs its' = foldl step (pairs its) (take m ps) ∧
    Forall accepts (take m ps) ∧ ps !! m = Some p ∧ bad (pairs its') p e.
(** A key is already there that [override] 2 forbids, or memory runs out. *)
Definition merge_bad (override : Z) (l : list (V * V)) (p : V * V) (e : pyexn) : Prop :=
  e = PyErr MemoryError no_msg ∨ (override = 2 ∧ e = PyErr KeyError no_msg ∧ dget keq p.1 l ≠ None).

Lemma dict_merge_wp fuel mp other override its oits h :
  dict_is h mp its -> dict_is h other oits -> other ≠ mp -> 0 <= override <= 2 -> (0 < fuel)%nat ->
  let ov := if decide (its = []) then 1 else override in
  wp (dict_merge fuel mp other override)
    (λ _ h', ∃ its', updated mp h h' its' (λ _, 0) ∧ pairs its' = dputs keq override (pairs its) (pairs oits))
    (merge_stopped mp h its (pairs oits) (dput keq ov) (λ _, True) (merge_bad ov)) h.
Proof.
  intros Hd Ho Hne Hov Hf ov. destruct (dict_is_at _ _ _ Hd) as (d & k & Hdk & Hwf & Hits).
  destruct (dict_is_at _ _ _ Ho) as (o & ok & Hok & Hwo & Hoits). pose proof (di_ok _ _ _ Ho) as Hoi.
  unfold dict_merge. apply wp_bind, wp_assert; [apply andb_true_iff; split; apply Z.leb_le; lia|].
  apply wp_bind, (wp_get_dict _ o); [apply Hok|]. rewrite (proj2 (Z.eqb_neq other mp) Hne). simpl.
  destruct (used_items o ok Hwo) as [Huo _], (used_items d k Hwf) as [Hu _]. rewrite Huo, Hoits.
  destruct (Zlen oits =? 0) eqn:Hz; bool_to_prop.
  { apply Zlen_0_inv in Hz. subst oits. rewrite Hz. apply wp_ret. exists its. split; [by apply updated_refl|done]. }
  assert (Hot : table_wf o ok).
  { destruct Hwo as [He|]; [|done]. rewrite (ew_keys _ _ He) in Hoits. destruct Hz. by rewrite <- Hoits. }
  apply wp_bind, (wp_get_dict _ d); [apply Hdk|]. apply wp_bind, (wp_get_dk _ ok); [apply Hok|]. cbv zeta.
  rewrite Hu, Hits.
  assert (Hov1 : (if Zlen its =? 0 then 1 else override) = ov).
  { unfold ov. destruct (decide (its = [])) as [->|Hnil]; [done|].
    destruct (Zlen its =? 0) eqn:H0; [|done]. bool_to_prop. by apply Zlen_0_inv in H0. }
  rewrite Hov1. destruct ((Zlen its =? 0) && _) eqn:Hc.
  { apply andb_true_iff in Hc as [Hc _]. bool_to_prop. apply Zlen_0_inv in Hc as Hnil. rewrite Hnil in Hd |- *.
    eapply wp_conseq; [apply (merge_clone_wp mp other o ok); [done|done|done|done|by rewrite Hoits]| |].
    - intros [] h' Hup. rewrite Hoits in Hup. exists oits. split; [done|].
      symmetry. by apply dputs_nil, (items_distinct (keq := keq) (khash := khash)).
    - intros e h' [-> Hup]. by left. }
  apply wp_bind, (merge_resize_wp mp other o ok its); [done|done|by right| |].
  2: { intros e. left. split; [done|]. by apply updated_world. }
  intros h1 H1. pose proof (updated_other _ _ _ _ _ _ _ _ H1 (di_inv _ _ _ Hd) Hne Hok Hot) as Hok1.
  assert (Hovb : 0 <= ov <= 2) by (unfold ov; case_decide; lia).
  eapply wp_conseq; [apply (merge_entries_wp Hwb mp other Hne o ok Hot ltac:(by rewrite Hoits)
    (λ key hash value, hold_pair key value (merge_store fuel mp ov key hash value)) (dput keq ov) (λ _, True) (merge_bad ov));
    [|apply H1|done]| |].
  - intros key hash value its1 Hh. apply (stores_hold Hwb). intros h2 Hd2.
    eapply wp_conseq; [by apply (stores_merge Hwb fuel mp ov key hash value its1)| |done].
    intros [] h3 (its3 & H3 & Hp3). exists its3. by split_and!.
  - intros [] h2 (its2 & H2 & Hp & _). exists its2. split; [by eapply updated_trans0|]. rewrite Hp, Hoits.
    unfold ov. case_decide as Hnil; [|done]. rewrite Hnil.
    assert (Hdis : distinct keq (pairs oits)) by by eapply items_distinct.
    change (dputs keq 1 [] (pairs oits) = dputs keq override [] (pairs oits)). by rewrite !dputs_nil.
  - intros e h2 (m & its2 & p & H2 & Hp & Ha & Hm & Hb). rewrite Hoits in *. right. exists m, its2, p.
    split_and!; [by eapply updated_trans0|done|done|done|done].
Qed.

(** ** [copy] *)

(** [c] is a new dict with the items [its]; nothing else has changed. *)
Definition fresh_dict h h' (c : Z) (its : list (Z * V * V)) : Prop :=
  dicts h !! c = None ∧ dict_is h' c its ∧ only_dict c h h' ∧
  ∀ v, taken v (refs h') = taken v (refs h) + owned v its.
(** Nothing is left of a dict that was made in between. *)
Definition undone h h' : Prop :=
  heap_inv h' ∧ (∀ v, taken v (refs h') = taken v (refs h)) ∧
  ∃ c, dicts h !! c = None ∧ dicts h' !! c = None ∧ only_dict c h h'.

Lemma copy_wp fuel mp its h :
  dict_is h mp its -> is_Some (dstate h) -> (0 < fuel)%nat ->
  wp (chkdict_copy fuel mp)
    (λ c h', ∃ its', fresh_dict h h' c its' ∧ pairs its' = pairs its)
    (λ e h', e = PyErr MemoryError no_msg ∧ ((∃ w, h' = set_world w h) ∨ undone h h')) h.
Proof.
  intros Hd Hs Hf. unfold chkdict_copy, chkdict_alloc.
  apply wp_bind. eapply wp_conseq; [apply (new_wp Hwb h); [apply Hd|done]| |].
  2: { intros e h' [-> Hw]. by auto. }
  intros c h1 (Hc & Hc1 & H1). cbv beta.
  assert (Hne : mp ≠ c). { intros ->. destruct (di_dict _ _ _ Hd) as [d Hd']. congruence. }
  assert (Hd1 : dict_is h1 mp its).
  { destruct H1 as [Hdc Ho _]. destruct (dict_is_at _ _ _ Hd) as (d & k & [Hdm Hk] & Hwf & Hits). split.
    - apply Hdc.
    - exists d. by rewrite (od_dicts _ _ _ Ho).
    - rewrite <- (di_items _ _ _ Hd). apply (only_dict_items c); [done|apply Hd|apply Hdc|done].
    - apply Hd. }
  apply wp_bind, wp_try.
  eapply wp_conseq; [apply (dict_merge_wp fuel c mp 1 [] its h1); [apply H1|done|done|lia|done]| |].
  - intros [] h2 (its2 & H2 & Hp). apply wp_ret. exists its2. rewrite Hp.
    assert (Hnil : dict_items h c = []) by (unfold dict_items; by rewrite Hc).
    split; [|by apply dputs_nil, (items_distinct (keq := keq) (khash := khash)), Hd].
    split_and!; [done|apply H2|eapply only_dict_trans; [apply H1|apply H2]|].
    intros v. rewrite (up_refs _ _ _ _ _ H2 v), (di_items _ _ _ (up_is _ _ _ _ _ H1)), (up_refs _ _ _ _ _ H1 v), Hnil.
    simpl. lia.
  - intros e h2 Hstop. assert (He : e = PyErr MemoryError no_msg ∧ ∃ its2, updated c h1 h2 its2 (λ _, 0)).
    { destruct Hstop as [[-> H2]|(m & its2 & p & H2 & _ & _ & _ & [->|(Hov & _)])]; [eauto|eauto|].
      by rewrite decide_True in Hov. }
    destruct He as [-> [its2 H2]]. apply wp_bind.
    eapply wp_conseq; [apply (dealloc_wp Hwb c h2 its2); apply H2| |done].
    intros [] h3 (Hi3 & Ho3 & Hn3 & Hr3). apply wp_throw. split; [done|]. right. split_and!; [done| |].
    + intros v. rewrite Hr3, (up_refs _ _ _ _ _ H2 v), (di_items _ _ _ (up_is _ _ _ _ _ H1)), (up_refs _ _ _ _ _ H1 v).
      unfold dict_items. rewrite Hc. simpl. lia.
    + exists c. split_and!; [done|done|]. eapply only_dict_trans; [apply H1|]. eapply only_dict_trans; [apply H2|done].
Qed.

(** ** [chkdict_merge] *)
Section checked.
(** The types of the keys and of the values. *)
Context (kparam vparam : gparam).
Abbreviation inst := [kparam; vparam].

Definition typed_pair (p : V * V) : Prop := param_ok kparam p.1 = true ∧ param_ok vparam p.2 = true.
Definition type_refused (p : V * V) (e : pyexn) : Prop :=
  ¬ typed_pair p ∧ (e = PyErr TypeError "bad key" ∨ e = PyErr TypeError "bad value").
Definition chk_bad (l : list (V * V)) (p : V * V) (e : pyexn) : Prop :=
  e = PyErr MemoryError no_msg ∨ type_refused p e.

Lemma wp_checkkey {nf} key h (Q : unit -> dheap V E -> Prop) X :
  (param_ok kparam key = true -> Q tt h) ->
  (param_ok kparam key = false -> X (PyErr TypeError "bad key") h) -> wpo nf (chkdict_checkkey inst key) Q X h.
Proof.
  intros HQ HX. unfold chkdict_checkkey, _PyClassLoader_CheckParamType. wp_step. wp_step. eapply wp_lift; [done|].
  wp_step. destruct (param_ok kparam key); [by apply wp_ret, HQ|by apply wp_raise, HX].
Qed.
Lemma wp_checkval {nf} value h (Q : unit -> dheap V E -> Prop) X :
  (param_ok vparam value = true -> Q tt h) ->
  (param_ok vparam value = false -> X (PyErr TypeError "bad value") h) -> wpo nf (chkdict_checkval inst value) Q X h.
Proof.
  intros HQ HX. unfold chkdict_checkval, _PyClassLoader_CheckParamType. wp_step. wp_step. eapply wp_lift; [done|].
  wp_step. destruct (param_ok vparam value); [by apply wp_ret, HQ|by apply wp_raise, HX].
Qed.
(** Both checks before a store. *)
Lemma wp_check_pair {nf} key value (m : DM V E unit) h Q X :
  (typed_pair (key, value) -> wpo nf m Q X h) ->
  (∀ e, type_refused (key, value) e -> X e h) ->
  wpo nf (_ ← chkdict_checkkey inst key; _ ← chkdict_checkval inst value; m) Q X h.
Proof.
  intros HQ HX. apply wp_bind, wp_checkkey; [intros Hk|intros Hk; apply HX].
  - apply wp_bind, wp_checkval; [intros Hv; by apply HQ|intros Hv; apply HX].
    split; [|by right]. intros [_ Hv']. simpl in Hv'. congruence.
  - split; [|by left]. intros [Hk' _]. simpl in Hk'. congruence.
Qed.

Lemma chkdict_merge_wp fuel mp other its oits h :
  dict_is h mp its -> dict_is h other oits -> other ≠ mp -> (0 < fuel)%nat ->
  wp (chkdict_merge inst fuel mp other)
    (λ _ h', ∃ its', updated mp h h' its' (λ _, 0) ∧ pairs its' = dputs keq 1 (pairs its) (pairs oits) ∧
             Forall typed_pair (pairs oits))
    (merge_stopped mp h its (pairs oits) (dput keq 1) typed_pair chk_bad) h.
Proof.
  intros Hd Ho Hne Hf. destruct (dict_is_at _ _ _ Ho) as (o & ok & Hok & Hwo & Hoits). pose proof (di_ok _ _ _ Ho) as Hoi.
  unfold chkdict_merge. apply wp_bind, (wp_get_dict _ o); [apply Hok|]. rewrite (proj2 (Z.eqb_neq other mp) Hne). simpl.
  destruct (used_items o ok Hwo) as [Huo _]. rewrite Huo, Hoits.
  destruct (Zlen oits =? 0) eqn:Hz; bool_to_prop.
  { apply Zlen_0_inv in Hz. subst oits. rewrite Hz. apply wp_ret. exists its. split_and!; [by apply updated_refl|done|constructor]. }
  assert (Hot : table_wf o ok).
  { destruct Hwo as [He|]; [|done]. rewrite (ew_keys _ _ He) in Hoits. destruct Hz. by rewrite <- Hoits. }
  apply wp_bind, (merge_resize_wp mp other o ok its); [done|done|by right| |].
  2: { intros e. left. split; [done|]. by apply updated_world. }
  intros h1 H1. pose proof (updated_other _ _ _ _ _ _ _ _ H1 (di_inv _ _ _ Hd) Hne Hok Hot) as Hok1.
  eapply wp_conseq; [apply (merge_entries_wp Hwb mp other Hne o ok Hot ltac:(by rewrite Hoits) _ (dput keq 1) typed_pair chk_bad);
    [|apply H1|done]| |].
  - intros key hash value its1 Hh h2 Hd2. apply wp_check_pair.
    + intros Ht. pose proof (stores_hold Hwb mp key value _ _ _ its1
        (stores_insertdict Hwb fuel mp key hash value its1 Hh Hf)) as Hs.
      eapply wp_conseq; [apply (Hs h2 Hd2)| |].
      * intros [] h3 (its3 & H3 & Hp3). exists its3. by split_and!.
      * intros e h3 (its3 & H3 & -> & ->). exists its1. split; [done|]. split; [done|]. by left.
    + intros e He. exists its1. split; [by apply updated_refl|]. split; [done|]. by right.
  - intros [] h2 (its2 & H2 & Hp & Ha). rewrite Hoits in *. exists its2. split_and!; [by eapply updated_trans0|done|done].
  - intros e h2 (m & its2 & p & H2 & Hp & Ha & Hm & Hb). rewrite Hoits in *. right. exists m, its2, p.
    split_and!; [by eapply updated_trans0|done|done|done|done].
Qed.
End checked.
End copy.
