(* ===== verification/DictIter.v ===== *)
(** * Iterating over and comparing checked dicts

    [Ci_CheckedDict_Next], the iterators over keys, values and items, forwards
    and backwards, the views, and equality of [checked_dict.c].  An iterator
    is a value that each call takes and gives back; the reference it holds to
    the dict is not tracked. *)

From stdpp Require Import base list gmap numbers strings.
From S2P Require Import Prelude TypeCheck DictProbe DictObject DictCore CheckedDict.

(** [dictiterobject]; [di_dict] is [None] once the iterator is exhausted,
    [di_result] is the tuple of an iterator over items. *)
Record dictiter (V : Type) := DictIt {
  di_dict : option Z;
  di_used : Z;
  di_pos : Z;
  di_result : V * V;
  di_len : Z
}.
Arguments DictIt {V} _ _ _ _ _.
Arguments di_dict {V} _.
Arguments di_used {V} _.
Arguments di_pos {V} _.
Arguments di_result {V} _.
Arguments di_len {V} _.
(** The iterator types. *)
Inductive iter_kind := IterKey | IterValue | IterItem.

(** What an iterator's [tp_iternext] returns. *)
Inductive iter_answer (A : Type) := Got (a : A) | Exhausted | Failed (e : pyexn).
Arguments Got {A} a.
Arguments Exhausted {A}.
Arguments Failed {A} e.

Section iter.
Context {V E : Type} {api : DictApi V E} {tapi : TypeApi V} `{EqDecision V}.

(** [while (i < n && ep->me_value == NULL) { ep++; i++; }]. *)
Fixpoint skip_dead (fuel : nat) (l : list (dictentry V)) (n i : Z) : DM V E Z :=
  match fuel with
  | O => mnofuel
  | S fuel =>
      if i <? n then
        e ← mlift (aget l i);
        match me_value e with None => skip_dead fuel l n (i + 1) | Some _ => mret i end
      else mret i
  end.
(** The next live entry from [i] on: its position, hash, key and value. *)
Definition next_entry (d : dictobj V) (k : dictkeys V) (i : Z) : DM V E (option (Z * Z * V * V)) :=
  match ma_values d with
  | NullValues =>
      let n := dk_nentries k in
      i ← skip_dead (S (length (dk_entries k))) (dk_entries k) n i;
      if n <=? i then mret None
      else
        ep ← mlift (aget (dk_entries k) i);
        key ← mlift (me_key ep);
        value ← mlift (me_value ep);
        mret (Some (i, me_hash ep, key, value))
  | vs =>
      if ma_used d <=? i then mret None
      else
        ep ← mlift (aget (dk_entries k) i);
        key ← mlift (me_key ep);
        value ← mlift (values_get vs i);
        value ← mlift value;
        mret (Some (i, me_hash ep, key, value))
  end.
(** [None] for 0; else [*ppos], key, value and hash. *)
Definition Ci_CheckedDict_Next (mp ppos : Z) : DM V E (option (Z * V * V * Z)) :=
  d ← get_dict mp;
  k ← get_dk (ma_keys d);
  if (ppos <? 0) || ((if is_null (ma_values d) then dk_nentries k else ma_used d) <=? ppos) then mret None
  else
    r ← next_entry d k ppos;
    mret (match r with None => None | Some (i, hash, key, value) => Some (i + 1, key, value, hash) end).

(** ** Iterators *)

(** [di_result] of an iterator over items is a new tuple of two None. *)
Definition dictiter_new (mp : Z) (kind : iter_kind) (reverse : bool) : DM V E (dictiter V) :=
  res ← PyObject_GC_New;
  match res with
  | None => mraise MemoryError no_msg
  | Some _ =>
      d ← get_dict mp;
      k ← get_dk (ma_keys d);
      let pos := if reverse then (if is_null (ma_values d) then dk_nentries k - 1 else ma_used d - 1) else 0 in
      let di := DictIt (Some mp) (ma_used d) pos (Py_None, Py_None) (ma_used d) in
      match kind with
      | IterItem =>
          tuple ← PyObject_GC_New;
          match tuple with
          | None => mraise MemoryError no_msg
          | Some _ => _ ← INCREF Py_None; _ ← INCREF Py_None; mret di
          end
      | _ => mret di
      end
  end.
Definition dictiter_len (di : dictiter V) : DM V E Z :=
  match di_dict di with
  | None => mret 0
  | Some mp => d ← get_dict mp; mret (if di_used di =? ma_used d then di_len di else 0)
  end.

(** [di->di_used = -1]. *)
Definition stale (di : dictiter V) : dictiter V :=
  DictIt (di_dict di) (-1) (di_pos di) (di_result di) (di_len di).
(** [fail:]: [di->di_dict = NULL]. *)
Definition exhausted (di : dictiter V) : dictiter V :=
  DictIt None (di_used di) (di_pos di) (di_result di) (di_len di).
Definition advanced (di : dictiter V) (pos : Z) : dictiter V :=
  DictIt (di_dict di) (di_used di) pos (di_result di) (di_len di - 1).

(** The part the three functions share; [give] makes the result of the
    iterator's new state, a key and a value. *)
Definition iternext_with {A} (give : dictiter V -> V -> V -> DM V E (dictiter V * iter_answer A))
    (di : dictiter V) : DM V E (dictiter V * iter_answer A) :=
  match di_dict di with
  | None => mret (di, Exhausted)
  | Some mp =>
      d ← get_dict mp;
      if negb (di_used di =? ma_used d) then
        mret (stale di, Failed (PyErr RuntimeError "dictionary changed size during iteration"))
      else
        k ← get_dk (ma_keys d);
        _ ← cassert (0 <=? di_pos di);
        r ← next_entry d k (di_pos di);
        match r with
        | None => mret (exhausted di, Exhausted)
        | Some (i, _, key, value) =>
            if di_len di =? 0 then
              mret (exhausted di, Failed (PyErr RuntimeError "dictionary keys changed during iteration"))
            else give (advanced di (i + 1)) key value
        end
  end.
Definition dictiter_iternextkey (di : dictiter V) : DM V E (dictiter V * iter_answer V) :=
  iternext_with (λ di key _, _ ← INCREF key; mret (di, Got key)) di.
Definition dictiter_iternextvalue (di : dictiter V) : DM V E (dictiter V * iter_answer V) :=
  iternext_with (λ di _ value, _ ← INCREF value; mret (di, Got value)) di.
(** The tuple of the iterator is reused when nothing else refers to it; a new
    one that cannot be allocated leaves the references to key and value. *)
Definition give_item (shared : bool) (drop : bool) (di : dictiter V) (key value : V)
    : DM V E (dictiter V * iter_answer (V * V)) :=
  if shared then
    tuple ← PyObject_GC_New;
    match tuple with
    | None =>
        _ ← (if drop then _ ← DECREF key; DECREF value else mret tt);
        mret (di, Failed (PyErr MemoryError no_msg))
    | Some _ => mret (di, Got (key, value))
    end
  else
    let '(oldkey, oldvalue) := di_result di in
    _ ← DECREF oldkey;
    _ ← DECREF oldvalue;
    mret (DictIt (di_dict di) (di_used di) (di_pos di) (key, value) (di_len di), Got (key, value)).
(** [shared]: [Py_REFCNT(di->di_result) != 1]. *)
Definition dictiter_iternextitem (shared : bool) (di : dictiter V) : DM V E (dictiter V * iter_answer (V * V)) :=
  iternext_with (λ di key value,
    _ ← INCREF key; _ ← INCREF value; give_item shared false di key value) di.

(** [while (ep->me_value == NULL) { if (--i < 0) goto fail; ep--; }]: -1 for [fail]. *)
Fixpoint skip_dead_back (fuel : nat) (l : list (dictentry V)) (i : Z) : DM V E Z :=
  match fuel with
  | O => mnofuel
  | S fuel =>
      e ← mlift (aget l i);
      match me_value e with
      | None => if i - 1 <? 0 then mret (-1) else skip_dead_back fuel l (i - 1)
      | Some _ => mret i
      end
  end.
Definition prev_entry (d : dictobj V) (k : dictkeys V) (i : Z) : DM V E (option (Z * V * V)) :=
  if i <? 0 then mret None
  else
    match ma_values d with
    | NullValues =>
        i ← skip_dead_back (S (length (dk_entries k))) (dk_entries k) i;
        if i <? 0 then mret None
        else
          ep ← mlift (aget (dk_entries k) i);
          key ← mlift (me_key ep);
          value ← mlift (me_value ep);
          mret (Some (i, key, value))
    | vs =>
        ep ← mlift (aget (dk_entries k) i);
        key ← mlift (me_key ep);
        value ← mlift (values_get vs i);
        value ← mlift value;
        mret (Some (i, key, value))
    end.
Definition reviter_next {A} (give : dictiter V -> V -> V -> DM V E (dictiter V * iter_answer A))
    (di : dictiter V) : DM V E (dictiter V * iter_answer A) :=
  match di_dict di with
  | None => mret (di, Exhausted)
  | Some mp =>
      d ← get_dict mp;
      if negb (di_used di =? ma_used d) then
        mret (stale di, Failed (PyErr RuntimeError "dictionary changed size during iteration"))
      else
        k ← get_dk (ma_keys d);
        r ← prev_entry d k (di_pos di);
        match r with
        | None => mret (exhausted di, Exhausted)
        | Some (i, key, value) =>
            _ ← INCREF key;
            _ ← INCREF value;
            give (advanced di (i - 1)) key value
        end
  end.
(** The three types of reverse iterator. *)
Definition dictreviter_iternext_key (di : dictiter V) : DM V E (dictiter V * iter_answer V) :=
  reviter_next (λ di key value, _ ← DECREF value; mret (di, Got key)) di.
Definition dictreviter_iternext_value (di : dictiter V) : DM V E (dictiter V * iter_answer V) :=
  reviter_next (λ di key value, _ ← DECREF key; mret (di, Got value)) di.
Definition dictreviter_iternext_item (shared : bool) (di : dictiter V)
    : DM V E (dictiter V * iter_answer (V * V)) :=
  reviter_next (give_item shared true) di.

(** ** Views *)

(** [dv->dv_dict]. *)
Definition dictview_len (dv : option Z) : DM V E Z :=
  match dv with None => mret 0 | Some mp => d ← get_dict mp; mret (ma_used d) end.
(** [PyDict_GetItemWithError] refuses an object that is not a dict;
    [pair]: [obj] as a tuple of two. *)
Definition dictitems_contains (dv : option Z) (pair : option (V * V)) : DM V E bool :=
  match dv, pair with
  | None, _ | _, None => mret false
  | Some _, Some _ => mraise SystemError "bad argument to internal function"
  end.

(** ** Equality *)

(** The loop of both equality tests, over the entries of [a]; [get] looks a
    key up in the other mapping. *)
Fixpoint equal_loop (fuel : nat) (get : V -> Z -> DM V E (option V)) (a i : Z) : DM V E bool :=
  match fuel with
  | O => mnofuel
  | S fuel =>
      d ← get_dict a;
      k ← get_dk (ma_keys d);
      if i <? dk_nentries k then
        ep ← mlift (aget (dk_entries k) i);
        aval ← (match ma_values d with
                | NullValues => mret (me_value ep)
                | vs => mlift (values_get vs i)
                end);
        match aval with
        | None => equal_loop fuel get a (i + 1)
        | Some aval =>
            key ← mlift (me_key ep);
            _ ← INCREF aval;
            _ ← INCREF key;
            bval ← mtry (get key (me_hash ep));
            match bval with
            | inl e => _ ← DECREF key; _ ← DECREF aval; mthrow e
            | inr None => _ ← DECREF key; _ ← DECREF aval; mret false
            | inr (Some bval) =>
                _ ← INCREF bval;
                cmp ← mtry (RichCompareBool_EQ aval bval);
                _ ← DECREF key;
                _ ← DECREF aval;
                _ ← DECREF bval;
                match cmp with
                | inl e => mthrow e
                | inr cmp => if (cmp : bool) then equal_loop fuel get a (i + 1) else mret false
                end
            end
        end
      else mret true
  end.
Definition dict_equal (steps fuel : nat) (a b : Z) : DM V E bool :=
  da ← get_dict a;
  db ← get_dict b;
  if negb (ma_used da =? ma_used db) then mret false
  else equal_loop steps (λ key hash, r ← dk_lookup_call fuel b key hash; mret r.2) a 0.
(** [size] is [PyDict_Size(b)], [get] is [_PyDict_GetItem_KnownHash(b, ...)]. *)
Definition dict_equal_pydict (steps : nat) (a : Z) (size : DM V E Z) (get : V -> Z -> DM V E (option V))
    : DM V E bool :=
  da ← get_dict a;
  n ← size;
  if negb (ma_used da =? n) then mret false else equal_loop steps get a 0.
(** The other operand: a dict, a checked dict or something else. *)
Inductive eq_operand :=
  | EqPyDict (size : DM V E Z) (get : V -> Z -> DM V E (option V))
  | EqChecked (b : Z)
  | EqOther.
Inductive compare_op := CmpEq | CmpNe | CmpOrder.
(** [None] for [NotImplemented]. *)
Definition chkdict_richcompare (steps fuel : nat) (v : Z) (w : eq_operand) (op : compare_op)
    : DM V E (option bool) :=
  match op with
  | CmpOrder => mret None
  | _ =>
      let answer (cmp : bool) := mret (M := M (dheap V E)) (Some (Bool.eqb cmp (match op with CmpEq => true | _ => false end))) in
      match w with
      | EqPyDict size get => cmp ← dict_equal_pydict steps v size get; answer cmp
      | EqChecked b => cmp ← dict_equal steps fuel v b; answer cmp
      | EqOther => mret None
      end
  end.
End iter.
