(* ===== verification/DictIterSpec.v ===== *)
(** * Iterators go through the items in order

    An iterator's position determines the items still to come; on a dict that
    does not change, all of them come, forwards or backwards, and then the
    end.  Equality compares the two association lists. *)

From stdpp Require Import base list gmap numbers strings sets.
From S2P Require Import Prelude TypeCheck DictProbe DictObject DictCore DictTable DictWf DictResize DictHeap DictGrow.
From S2P Require Import DictSpec DictOps DictDelete CheckedDict DictQuery DictIter.

Section spec.
Context {V E : Type} {api : DictApi V E} {tapi : TypeApi V} `{EqDecision V}.
Context {keq : V -> V -> bool} {khash : V -> option Z} (Hwb : well_behaved keq khash).
Implicit Types (k : dictkeys V) (d : dictobj V) (h : dheap V E).
Abbreviation dict_is := (@dict_is V E api keq khash).
Abbreviation updated := (@updated V E api EqDecision0 keq khash).

(** ** The next entry *)

(** The items at positions from [i] on, and before [i]. *)
Definition ahead k (i : Z) : list (Z * V * V) := entry_items (drop (Z.to_nat i) (dk_entries k)).
Definition behind k (i : Z) : list (Z * V * V) := entry_items (take (Z.to_nat i) (dk_entries k)).

Lemma skip_dead_run fuel l n pre post h :
  l = pre ++ post -> paired l -> (length post < fuel)%nat ->
  (∀ i e, aget l i = Some e -> n <= i -> me_key e = None) -> n <= Zlen l ->
  ∃ j, skip_dead fuel l n (Zlen pre) h = Ret j h ∧ Zlen pre <= j ∧
    match entry_items post with
    | [] => n <= j
    | (x, key, v) :: r => j < n ∧ aget l j = Some (Entry x (Some key) (Some v)) ∧
        entry_items (drop (Z.to_nat (j + 1)) l) = r
    end.
Proof.
  intros Hl Hp Hf Hn Hlen. revert pre post Hl Hf. induction fuel as [|fuel IH]; intros pre post Hl Hf; [lia|].
  cbn [skip_dead]. destruct post as [|e post].
  { rewrite app_nil_r in Hl. subst pre. exists (Zlen l). rewrite (proj2 (Z.ltb_ge _ _)) by lia. by split_and!. }
  assert (He : aget l (Zlen pre) = Some e) by (rewrite Hl; by apply aget_app).
  destruct (Zlen pre <? n) eqn:Hlt; bool_to_prop.
  2: { exists (Zlen pre). split_and!; [done|lia|]. rewrite (entry_items_none (e :: post)); [done|].
       intros i e' Hi. apply aget_Some in Hi as ?. apply (Hn (Zlen pre + i)); [|lia].
       rewrite Hl, aget_app_r by lia. rewrite <- Hi. f_equal. lia. }
  assert (Hpe : is_Some (me_key e) <-> is_Some (me_value e)).
  { unfold paired in Hp. rewrite Forall_forall in Hp. by apply Hp, (aget_elem _ (Zlen pre)). }
  assert (Hl' : l = (pre ++ [e]) ++ post) by (by rewrite <- app_assoc). rewrite entry_items_cons. unfold entry_item.
  destruct (me_value e) as [v|] eqn:Hv.
  - destruct (proj2 Hpe) as [key Hk]; [by eexists|]. rewrite Hk. exists (Zlen pre). simpl.
    split_and!; [|lia|done| |].
    + run_step; [by rewrite He|]. by rewrite Hv.
    + rewrite He. f_equal. destruct e; simpl in *; congruence.
    + rewrite Hl'. f_equal. apply drop_app_length'. unfold Zlen. rewrite length_app. simpl. lia.
  - destruct (me_key e) as [key|]; [destruct (proj1 Hpe); [by eexists|done]|]. simpl.
    destruct (IH (pre ++ [e]) post Hl') as (j & Hrun & Hj & Hm); [simpl in Hf; lia|].
    exists j. split_and!; [|zlia|done]. run_step; [by rewrite He|]. cbv beta. rewrite Hv.
    rewrite <- Hrun. f_equal. zlia.
Qed.
Lemma next_entry_run d k i h :
  dict_wf d k -> 0 <= i ->
  match ahead k i with
  | [] => next_entry d k i h = Ret None h
  | (x, key, v) :: r => ∃ j, next_entry d k i h = Ret (Some (j, x, key, v)) h ∧ i <= j ∧ ahead k (j + 1) = r
  end.
Proof.
  intros Hwf Hi. unfold ahead. destruct Hwf as [He|Ht].
  { rewrite (ew_keys _ _ He), (ew_dict _ _ He). simpl. rewrite drop_nil. simpl. unfold next_entry. simpl.
    by rewrite (proj2 (Z.leb_le _ _) Hi). }
  pose proof (tw_keys _ _ Ht) as Hw. unfold next_entry. rewrite (tw_combined _ _ Ht).
  set (l := dk_entries k). set (pre := take (Z.to_nat i) l). set (post := drop (Z.to_nat i) l).
  assert (Hsplit : l = pre ++ post) by (symmetry; apply take_drop).
  assert (Hnl : dk_nentries k <= Zlen l) by (unfold l; destruct Hw; lia).
  assert (Hdead : ∀ i e, aget l i = Some e -> dk_nentries k <= i -> me_key e = None) by (intros; by eapply (kw_pairs _ Hw)).
  assert (Hpost : (length post < S (length l))%nat) by (unfold post; rewrite length_drop; lia).
  destruct (decide (i <= Zlen l)) as [Hil|Hil].
  - assert (Hpl : Zlen pre = i) by (by apply Zlen_take).
    destruct (skip_dead_run (S (length l)) l (dk_nentries k) pre post h Hsplit (entries_ok_paired _ (kw_pairs _ Hw)) Hpost Hdead Hnl)
      as (j & Hrun & Hj & Hm). rewrite Hpl in Hrun, Hj.
    destruct (entry_items post) as [|[[x key] v] r].
    + run_step; [exact Hrun|]. cbv beta. by rewrite (proj2 (Z.leb_le _ _) Hm).
    + destruct Hm as (Hjn & Hent & Hr). exists j. split_and!; [|done|done]. run_step; [exact Hrun|]. cbv beta.
      rewrite (proj2 (Z.leb_gt _ _) Hjn). fold l. rewrite Hent. done.
  - assert (post = []) as ->. { unfold post. apply drop_ge. unfold Zlen in Hil. lia. } simpl.
    run_step; [cbn [skip_dead]; rewrite (proj2 (Z.ltb_ge _ _)) by lia; done|]. cbv beta.
    by rewrite (proj2 (Z.leb_le _ _)) by lia.
Qed.

Lemma skip_dead_back_run fuel l pre e post h :
  l = pre ++ e :: post -> paired l -> (length pre < fuel)%nat ->
  ∃ j, skip_dead_back fuel l (Zlen pre) h = Ret j h ∧
    ((j = -1 ∧ entry_items (pre ++ [e]) = []) ∨
     ∃ x key v, 0 <= j <= Zlen pre ∧ aget l j = Some (Entry x (Some key) (Some v)) ∧
       entry_items (pre ++ [e]) = entry_items (take (Z.to_nat j) l) ++ [(x, key, v)]).
Proof.
  intros Hl Hp Hf. revert pre e post Hl Hf. induction fuel as [|fuel IH]; intros pre e post Hl Hf; [lia|].
  cbn [skip_dead_back]. assert (He : aget l (Zlen pre) = Some e) by (rewrite Hl; by apply aget_app).
  assert (Hpe : is_Some (me_key e) <-> is_Some (me_value e)).
  { unfold paired in Hp. rewrite Forall_forall in Hp. by apply Hp, (aget_elem _ (Zlen pre)). }
  rewrite entry_items_app, entry_items_cons. unfold entry_item. pose proof (Zlen_nonneg pre).
  destruct (me_value e) as [v|] eqn:Hv.
  - destruct (proj2 Hpe) as [key Hk]; [by eexists|]. exists (Zlen pre). split.
    { run_step; [by rewrite He|]. by rewrite Hv. }
    right. exists (me_hash e), key, v. rewrite Hk. split_and!; [lia|lia| |].
    + rewrite He. f_equal. destruct e; simpl in *; congruence.
    + simpl. f_equal. f_equal. rewrite Hl. symmetry. apply take_app_length'. unfold Zlen. lia.
  - destruct (me_key e) as [key|]; [destruct (proj1 Hpe); [by eexists|done]|]. simpl. rewrite app_nil_r.
    destruct pre as [|e0 pre0 _] using rev_ind.
    { exists (-1). split; [|by left]. run_step; [by rewrite He|]. by rewrite Hv. }
    destruct (IH pre0 e0 (e :: post)) as (j & Hrun & Hj); [by rewrite Hl, <- app_assoc|rewrite length_app in Hf; simpl in Hf; lia|].
    exists j. split.
    + run_step; [by rewrite He|]. cbv beta. rewrite Hv. rewrite (proj2 (Z.ltb_ge _ _)) by zlia.
      rewrite <- Hrun. f_equal. zlia.
    + destruct Hj as [Hj|(x & key & v & ? & ? & ?)]; [by left|right]. exists x, key, v. split_and!; [zlia|zlia|done|done].
Qed.
Lemma prev_entry_run d k i h :
  dict_wf d k -> -1 <= i < Zlen (dk_entries k) ->
  (behind k (i + 1) = [] ∧ prev_entry d k i h = Ret None h) ∨
  ∃ r x key v j, behind k (i + 1) = r ++ [(x, key, v)] ∧ prev_entry d k i h = Ret (Some (j, key, v)) h ∧
    0 <= j <= i ∧ behind k j = r.
Proof.
  intros Hwf Hi. unfold prev_entry. destruct (i <? 0) eqn:Hneg; bool_to_prop.
  { left. assert (i = -1) as -> by lia. done. }
  destruct Hwf as [He|Ht].
  { rewrite (ew_keys _ _ He) in Hi. simpl in Hi. zlia. }
  pose proof (tw_keys _ _ Ht) as Hw. rewrite (tw_combined _ _ Ht).
  destruct (aget_lt (dk_entries k) i) as [e He]; [lia|].
  destruct (aget_split _ _ _ He) as (pre & post & Hl & Hpre).
  assert (Hbeh : behind k (i + 1) = entry_items (pre ++ [e])).
  { unfold behind. f_equal. rewrite Hl. change (e :: post) with ([e] ++ post). rewrite app_assoc.
    apply take_app_length'. unfold Zlen in Hpre. rewrite length_app. simpl. lia. }
  destruct (skip_dead_back_run (S (length (dk_entries k))) _ pre e post h Hl (entries_ok_paired _ (kw_pairs _ Hw)))
    as (j & Hrun & Hj); [rewrite Hl, length_app; lia|]. rewrite <- Hpre in Hrun. rewrite Hbeh.
  destruct Hj as [[-> Hnil]|(x & key & v & Hjb & Hent & Hits)]; [left|right].
  - split; [done|]. run_step; [exact Hrun|]. done.
  - exists (behind k j), x, key, v, j. split_and!; [done| |lia|lia|done]. run_step; [exact Hrun|]. cbv beta.
    rewrite (proj2 (Z.ltb_ge _ _)) by lia. by rewrite Hent.
Qed.

(** ** Whole iterations *)

(** Calls of [tp_iternext], one after the other. *)
Fixpoint iterate {A} (nexts : list (dictiter V -> DM V E (dictiter V * iter_answer A))) (di : dictiter V)
    : DM V E (list (iter_answer A)) :=
  match nexts with
  | [] => mret []
  | next :: nexts => '(di, a) ← next di; rest ← iterate nexts di; mret (a :: rest)
  end.
(** The iterator has only moved its tuple. *)
Definition same_place (di di' : dictiter V) : Prop :=
  di_dict di' = di_dict di ∧ di_used di' = di_used di ∧ di_pos di' = di_pos di ∧ di_len di' = di_len di.
(** From [h] on, [give b] answers [f key value] as [ok b] says, and changes
    only references. *)
Definition gives {A B} (h : dheap V E) (give : B -> dictiter V -> V -> V -> DM V E (dictiter V * iter_answer A))
    (ok : B -> A -> iter_answer A -> Prop) (f : V -> V -> A) : Prop :=
  ∀ b di key value l, ∃ di' a l', give b di key value (more_refs l h) = Ret (di', a) (more_refs l' h) ∧
    ok b (f key value) a ∧ same_place di di'.
(** An iterator over [mp]. *)
Definition iterating (mp : Z) d (di : dictiter V) : Prop := di_dict di = Some mp ∧ di_used di = ma_used d.
(** The answers, one for each item. *)
Definition answers {A B} (ok : B -> A -> iter_answer A -> Prop) (f : V -> V -> A) (bs : list B)
    (rest : list (Z * V * V)) (l : list (iter_answer A)) : Prop :=
  ∃ given, l = given ++ [Exhausted] ∧ Forall3 (λ b p a, ok b (f p.1.2 p.2) a) (take (length rest) bs) rest given.
Lemma answers_cons {A B} (ok : B -> A -> iter_answer A -> Prop) f b bs x key value rest a l :
  ok b (f key value) a -> answers ok f bs rest l -> answers ok f (b :: bs) ((x, key, value) :: rest) (a :: l).
Proof. intros Ha (given & -> & Hg). exists (a :: given). split; [done|]. by constructor. Qed.

Section whole.
Context {A B : Type} (give : B -> dictiter V -> V -> V -> DM V E (dictiter V * iter_answer A)).
Context (ok : B -> A -> iter_answer A -> Prop) (f : V -> V -> A) (h : dheap V E) (Hg : gives h give ok f).
Context (mp : Z) (d : dictobj V) (k : dictkeys V) (Hd : has_dict h mp d k) (Hwf : dict_wf d k).

Lemma iterate_forward rest bs di l :
  length bs = S (length rest) -> iterating mp d di ->
  0 <= di_pos di -> ahead k (di_pos di) = rest -> di_len di = Zlen rest ->
  ∃ l' r, iterate ((λ b, iternext_with (give b)) <$> bs) di (more_refs l h) = Ret r (more_refs l' h) ∧
    answers ok f bs rest r.
Proof using Hg Hd Hwf.
  revert bs di l. induction rest as [|[[x key] v] rest IH]; intros [|b bs] di l Hlb [Hdi Hu] Hpos Hah Hlen; try done;
    pose proof (next_entry_run d k (di_pos di) (more_refs l h) Hwf Hpos) as Hnext; rewrite Hah in Hnext.
  - destruct bs as [|]; [|done].
    assert (Hstep : iternext_with (give b) di (more_refs l h) = Ret (exhausted di, Exhausted) (more_refs l h)).
    { unfold iternext_with. rewrite Hdi. run_step; [apply get_dict_at, Hd|]. cbv beta. rewrite Hu, Z.eqb_refl. simpl negb. cbv iota.
    run_step; [apply get_dk_at, Hd|]. run_step; [by apply cassert_run, Z.leb_le|]. run_step; [exact Hnext|]. done. }
    eexists l, [Exhausted]. split; [|exists []; split; [done|constructor]].
    cbn [iterate fmap list_fmap]. run_step; [exact Hstep|]. done.
  - destruct Hnext as (j & Hnext & Hj & Hah').
    destruct (Hg b (advanced di (j + 1)) key v l) as (di' & a & l1 & Hrun & Ha & D1 & D2 & D3 & D4).
    destruct (IH bs di' l1) as (l' & r & Hrec & Hr); [simpl in Hlb; lia|by split; [rewrite D1|rewrite D2]|
      rewrite D3; simpl; lia|by rewrite D3|rewrite D4; simpl; zlia|].
    exists l', (a :: r). split; [|by apply answers_cons].
    assert (Hstep : iternext_with (give b) di (more_refs l h) = Ret (di', a) (more_refs l1 h)).
    { unfold iternext_with. rewrite Hdi. run_step; [apply get_dict_at, Hd|]. cbv beta. rewrite Hu, Z.eqb_refl. simpl negb. cbv iota.
    run_step; [apply get_dk_at, Hd|]. run_step; [by apply cassert_run, Z.leb_le|]. run_step; [exact Hnext|]. cbv beta iota.
    rewrite (proj2 (Z.eqb_neq _ _)) by zlia. exact Hrun. }
    cbn [iterate fmap list_fmap]. run_step; [exact Hstep|]. cbv beta iota. run_step; [exact Hrec|]. done.
Qed.
Lemma iterate_backward rest bs di l :
  length bs = S (length rest) -> iterating mp d di ->
  -1 <= di_pos di < Zlen (dk_entries k) -> behind k (di_pos di + 1) = reverse rest ->
  ∃ l' r, iterate ((λ b, reviter_next (give b)) <$> bs) di (more_refs l h) = Ret r (more_refs l' h) ∧
    answers ok f bs rest r.
Proof using Hg Hd Hwf.
  revert bs di l. induction rest as [|[[x key] v] rest IH]; intros [|b bs] di l Hlb [Hdi Hu] Hpos Hbe; try done;
    destruct (prev_entry_run d k (di_pos di) (more_refs l h) Hwf Hpos)
      as [[Hb Hprev]|(r & x' & key' & v' & j & Hb & Hprev & Hj & Hbj)]; rewrite Hbe in Hb.
  - destruct bs as [|]; [|done].
    assert (Hstep : reviter_next (give b) di (more_refs l h) = Ret (exhausted di, Exhausted) (more_refs l h)).
    { unfold reviter_next. rewrite Hdi. run_step; [apply get_dict_at, Hd|]. cbv beta. rewrite Hu, Z.eqb_refl. simpl negb. cbv iota.
    run_step; [apply get_dk_at, Hd|]. run_step; [exact Hprev|]. done. }
    eexists l, [Exhausted]. split; [|exists []; split; [done|constructor]].
    cbn [iterate fmap list_fmap]. run_step; [exact Hstep|]. done.
  - by destruct r.
  - rewrite reverse_cons in Hb. by destruct (reverse rest).
  - rewrite reverse_cons in Hb. apply app_inj_tail in Hb as [Hr [= <- <- <-]].
    destruct (Hg b (advanced di (j - 1)) key v ([IncRef v; IncRef key] ++ l)) as (di' & a & l1 & Hrun & Ha & D1 & D2 & D3 & D4).
    destruct (IH bs di' l1) as (l' & rs & Hrec & Hrs); [simpl in Hlb; lia|by split; [rewrite D1|rewrite D2]|
      rewrite D3; simpl; lia|rewrite D3; simpl; replace (j - 1 + 1) with j by lia; by rewrite Hr|].
    exists l', (a :: rs). split; [|by apply answers_cons].
    assert (Hstep : reviter_next (give b) di (more_refs l h) = Ret (di', a) (more_refs l1 h)).
    { unfold reviter_next. rewrite Hdi. run_step; [apply get_dict_at, Hd|]. cbv beta. rewrite Hu, Z.eqb_refl. simpl negb. cbv iota.
    run_step; [apply get_dk_at, Hd|]. run_step; [exact Hprev|]. cbv beta iota.
    run_step; [done|]. run_step; [done|]. exact Hrun. }
    cbn [iterate fmap list_fmap]. run_step; [exact Hstep|]. cbv beta iota. run_step; [exact Hrec|]. done.
Qed.
End whole.

(** ** A new iterator *)

Lemma iter_new_wp mp kind h its (Q : dictiter V -> dheap V E -> Prop) X :
  dict_is h mp its ->
  (∀ d k di l, has_dict h mp d k -> dict_wf d k -> items k = its -> iterating mp d di -> di_pos di = 0 ->
     di_len di = Zlen its -> Q di (more_refs l h)) ->
  X (PyErr MemoryError no_msg) h -> wp (dictiter_new mp kind false) Q X h.
Proof.
  intros Hd HQ HX. destruct (dict_is_at _ _ _ Hd) as (d & k & Hdk & Hwf & Hits).
  destruct (used_items d k Hwf) as [Hu _]. unfold dictiter_new. apply wp_bind. unfold wpo at 1, PyObject_GC_New.
  pose proof (wb_gc Hwb h) as Hgc. destruct (gc_new h) as [[a|] h1] eqn:Hg; simpl in Hgc; subst h1; [|by apply wp_raise].
  apply wp_bind, (wp_get_dict _ d); [apply Hdk|]. apply wp_bind, (wp_get_dk _ k); [apply Hdk|]. cbv zeta.
  set (di := DictIt (Some mp) (ma_used d) 0 (Py_None, Py_None) (ma_used d)).
  assert (Hdi : ∀ l, Q di (more_refs l h)).
  { intros l. apply (HQ d k); [done|done|done|done|done|]. simpl. by rewrite Hu, Hits. }
  destruct kind; [apply wp_ret; rewrite <- (more_refs_nil h); apply Hdi|apply wp_ret; rewrite <- (more_refs_nil h); apply Hdi|].
  apply wp_bind. unfold wpo at 1, PyObject_GC_New. rewrite Hg. apply wp_bind, wp_modify, wp_bind, wp_modify, wp_ret.
  exact (Hdi [IncRef Py_None; IncRef Py_None]).
Qed.
(** A reverse iterator starts at the last item. *)
Lemma last_position d k : dict_wf d k ->
  -1 <= (if is_null (ma_values d) then dk_nentries k - 1 else ma_used d - 1) < Zlen (dk_entries k).
Proof.
  intros [He|Ht].
  - rewrite (ew_dict _ _ He). simpl. pose proof (Zlen_nonneg (dk_entries k)). lia.
  - rewrite (tw_combined _ _ Ht). simpl. pose proof (tw_keys _ _ Ht) as Hw. destruct Hw.
    pose proof (table_size_bounds _ kw_size). pose proof (USABLE_FRACTION_bounds (dk_size k) ltac:(lia)). lia.
Qed.
Lemma behind_last d k : dict_wf d k ->
  behind k ((if is_null (ma_values d) then dk_nentries k - 1 else ma_used d - 1) + 1) = items k.
Proof.
  intros [He|Ht]; [by rewrite (ew_keys _ _ He), (ew_dict _ _ He)|].
  rewrite (tw_combined _ _ Ht). simpl. rewrite Z.sub_add. pose proof (tw_keys _ _ Ht) as Hw.
  destruct (Zlen_split (dk_nentries k) (dk_entries k)) as (now_ & post & Hl & Hlen); [destruct Hw; lia|].
  unfold behind, items. rewrite Hl, entry_items_app, (entry_items_none post), app_nil_r.
  - f_equal. apply take_app_length'. unfold Zlen in Hlen. lia.
  - intros i e Hi. apply aget_Some in Hi as ?. apply (kw_pairs _ Hw (Zlen now_ + i)); [|lia].
    rewrite Hl, aget_app_r by lia. rewrite <- Hi. f_equal. lia.
Qed.
Lemma reviter_new_wp mp kind h its (Q : dictiter V -> dheap V E -> Prop) X :
  dict_is h mp its ->
  (∀ d k di l, has_dict h mp d k -> dict_wf d k -> iterating mp d di ->
     -1 <= di_pos di < Zlen (dk_entries k) -> behind k (di_pos di + 1) = its -> Q di (more_refs l h)) ->
  X (PyErr MemoryError no_msg) h -> wp (dictiter_new mp kind true) Q X h.
Proof.
  intros Hd HQ HX. destruct (dict_is_at _ _ _ Hd) as (d & k & Hdk & Hwf & Hits).
  unfold dictiter_new. apply wp_bind. unfold wpo at 1, PyObject_GC_New.
  pose proof (wb_gc Hwb h) as Hgc. destruct (gc_new h) as [[a|] h1] eqn:Hg; simpl in Hgc; subst h1; [|by apply wp_raise].
  apply wp_bind, (wp_get_dict _ d); [apply Hdk|]. apply wp_bind, (wp_get_dk _ k); [apply Hdk|]. cbv zeta iota.
  set (di := DictIt (Some mp) (ma_used d) _ (Py_None, Py_None) (ma_used d)).
  assert (Hdi : ∀ l, Q di (more_refs l h)).
  { intros l. apply (HQ d k); [done|done|done|by apply last_position|]. rewrite <- Hits. by apply behind_last. }
  destruct kind; [apply wp_ret; rewrite <- (more_refs_nil h); apply Hdi|apply wp_ret; rewrite <- (more_refs_nil h); apply Hdi|].
  apply wp_bind. unfold wpo at 1, PyObject_GC_New. rewrite Hg. apply wp_bind, wp_modify, wp_bind, wp_modify, wp_ret.
  exact (Hdi [IncRef Py_None; IncRef Py_None]).
Qed.

(** ** What the iterators give *)

Definition exactly {A B} (_ : B) (x : A) (a : iter_answer A) : Prop := a = Got x.
(** A tuple that is still in use is replaced by a new one, for which the
    memory may be missing. *)
Definition new_tuple h (shared : bool) (x : V * V) (a : iter_answer (V * V)) : Prop :=
  a = Got x ∨
  shared = true ∧ a = Failed (PyErr MemoryError no_msg) ∧ ∃ l, (gc_new (more_refs l h)).1 = None.
Lemma gives_key h : gives h (λ (_ : ()) di key (_ : V), _ ← INCREF key; mret (di, Got key)) exactly (λ key _, key).
Proof. intros b di key value l. by exists di, (Got key), (IncRef key :: l). Qed.
Lemma gives_value h : gives h (λ (_ : ()) di (_ : V) value, _ ← INCREF value; mret (di, Got value)) exactly (λ _ value, value).
Proof. intros b di key value l. by exists di, (Got value), (IncRef value :: l). Qed.
Lemma gives_rev_key h : gives h (λ (_ : ()) di key value, _ ← DECREF value; mret (di, Got key)) exactly (λ key _, key).
Proof.
  intros b di key value l. exists di, (Got key), (DecRef value :: l). split; [|done].
  unfold DECREF, mmodify, mbind, M_bind. by rewrite (wb_release Hwb).
Qed.
Lemma gives_rev_value h : gives h (λ (_ : ()) di key value, _ ← DECREF key; mret (di, Got value)) exactly (λ _ value, value).
Proof.
  intros b di key value l. exists di, (Got value), (DecRef key :: l). split; [|done].
  unfold DECREF, mmodify, mbind, M_bind. by rewrite (wb_release Hwb).
Qed.
Lemma gives_pair h drop : gives h (λ shared, give_item shared drop) (new_tuple h) pair.
Proof.
  intros [] di key value l; unfold give_item.
  - pose proof (wb_gc Hwb (more_refs l h)) as Hgc. destruct (gc_new (more_refs l h)) as [[a|] h1] eqn:Hg; simpl in Hgc; subst h1.
    + exists di, (Got (key, value)), l. split; [run_step; [unfold PyObject_GC_New; by rewrite Hg|]; done|]. by split; [left|].
    + exists di, (Failed (PyErr MemoryError no_msg)), (if drop then DecRef value :: DecRef key :: l else l).
      split; [|split; [right; split_and!; [done|done|by exists l; rewrite Hg]|done]].
      run_step; [unfold PyObject_GC_New; by rewrite Hg|]. cbv beta iota. destruct drop; [|done].
      unfold DECREF, mmodify, mbind, M_bind. by rewrite !(wb_release Hwb).
  - destruct (di_result di) as [ok ov] eqn:Hr.
    exists (DictIt (di_dict di) (di_used di) (di_pos di) (key, value) (di_len di)), (Got (key, value)), (DecRef ov :: DecRef ok :: l). split; [|by split; [left|]].
    unfold DECREF, mmodify, mbind, M_bind. by rewrite !(wb_release Hwb).
Qed.
Lemma gives_item h :
  gives h (λ shared di key value, _ ← INCREF key; _ ← INCREF value; give_item shared false di key value) (new_tuple h) pair.
Proof.
  intros shared di key value l.
  destruct (gives_pair h false shared di key value (IncRef value :: IncRef key :: l)) as (di' & a & l' & Hrun & Ha).
  exists di', a, l'. split; [|done]. run_step; [done|]. run_step; [done|]. exact Hrun.
Qed.

(** ** Iterators on a whole dict *)

(** One answer for each of [ps] and then the end. *)
Definition answered {A B} (ok : B -> A -> iter_answer A -> Prop) (f : V -> V -> A) (bs : list B) h (ps : list (V * V))
    (l : list (iter_answer A)) h' : Prop :=
  (∃ given, l = given ++ [Exhausted] ∧ Forall3 (λ b p a, ok b (f p.1 p.2) a) (take (length ps) bs) ps given) ∧
  ∃ evs, h' = more_refs evs h.
Lemma answers_answered {A B} (ok : B -> A -> iter_answer A -> Prop) f bs h rest l evs :
  answers ok f bs rest l -> answered ok f bs h (pairs rest) l (more_refs evs h).
Proof.
  intros (given & -> & Hg). split; [|by eexists]. exists given. split; [done|]. unfold pairs. rewrite length_fmap.
  induction Hg as [|b [[x key] v] a bs' rest' given' H1 H2 IH]; simpl; by constructor.
Qed.
(** Keys or values: all of them, in the order of [ps]. *)
Definition comes {A} h (f : V -> V -> A) (ps : list (V * V)) (l : list (iter_answer A)) h' : Prop :=
  l = ((λ p, Got (f p.1 p.2)) <$> ps) ++ [Exhausted] ∧ ∃ evs, h' = more_refs evs h.
(** Items, in the order of [ps]; [shareds] says at which calls the tuple of the
    iterator is in use. *)
Definition items_come h (shareds : list bool) (ps : list (V * V)) : list (iter_answer (V * V)) -> dheap V E -> Prop :=
  answered (new_tuple h) pair shareds h ps.
Lemma answered_exactly {A B} (f : V -> V -> A) (bs : list B) h ps l h' :
  answered exactly f bs h ps l h' -> comes h f ps l h'.
Proof.
  intros [(given & -> & Hg) He]. split; [|done]. f_equal. clear He.
  induction Hg as [|b p a bs' ps' given' Ha _ IH]; simpl; [done|]. by rewrite IH, Ha.
Qed.

(** ** Iterators on a whole dict *)
Section iterators.
Context {A B : Type} (give : B -> dictiter V -> V -> V -> DM V E (dictiter V * iter_answer A)).
Context (ok : B -> A -> iter_answer A -> Prop) (f : V -> V -> A) (h : dheap V E) (Hg : gives h give ok f).
Context (mp : Z) (its : list (Z * V * V)) (Hd : dict_is h mp its) (bs : list B) (Hbs : length bs = S (length its)).

Lemma forward_wp kind :
  wp (di ← dictiter_new mp kind false; iterate ((λ b, iternext_with (give b)) <$> bs) di)
    (answered ok f bs h (pairs its)) (λ e h', e = PyErr MemoryError no_msg ∧ h' = h) h.
Proof using Hwb Hg Hd Hbs.
  apply wp_bind, (iter_new_wp mp kind h its); [done| |done].
  intros d k di l Hdk Hwf Hits Hit Hpos Hlen.
  destruct (iterate_forward give ok f h Hg mp d k Hdk Hwf its bs di l Hbs Hit) as (l' & r & Hrun & Hr);
    [lia|by rewrite Hpos|done|].
  eapply wp_run; [exact Hrun|]. by apply answers_answered.
Qed.
Lemma backward_wp kind :
  wp (di ← dictiter_new mp kind true; iterate ((λ b, reviter_next (give b)) <$> bs) di)
    (answered ok f bs h (reverse (pairs its))) (λ e h', e = PyErr MemoryError no_msg ∧ h' = h) h.
Proof using Hwb Hg Hd Hbs.
  apply wp_bind, (reviter_new_wp mp kind h its); [done| |done]. intros d k di l Hdk Hwf Hit Hpos Hbe.
  destruct (iterate_backward give ok f h Hg mp d k Hdk Hwf (reverse its) bs di l) as (l' & r & Hrun & Hr);
    [by rewrite length_reverse|done|done|by rewrite reverse_involutive|].
  eapply wp_run; [exact Hrun|]. unfold pairs. rewrite <- fmap_reverse. by apply answers_answered.
Qed.
End iterators.
(** [n] calls of the same function. *)
Lemma forward_exact {A} (give : dictiter V -> V -> V -> DM V E (dictiter V * iter_answer A)) f kind mp h its :
  gives h (λ _ : (), give) exactly f -> dict_is h mp its ->
  wp (di ← dictiter_new mp kind false; iterate (replicate (S (length its)) (iternext_with give)) di)
    (comes h f (pairs its)) (λ e h', e = PyErr MemoryError no_msg ∧ h' = h) h.
Proof.
  intros Hg Hd. pose proof (forward_wp _ _ _ h Hg mp its Hd (replicate (S (length its)) tt) ltac:(apply length_replicate) kind) as H.
  rewrite fmap_replicate in H. eapply wp_conseq; [exact H| |done]. intros l h'. apply answered_exactly.
Qed.
Lemma backward_exact {A} (give : dictiter V -> V -> V -> DM V E (dictiter V * iter_answer A)) f kind mp h its :
  gives h (λ _ : (), give) exactly f -> dict_is h mp its ->
  wp (di ← dictiter_new mp kind true; iterate (replicate (S (length its)) (reviter_next give)) di)
    (comes h f (reverse (pairs its))) (λ e h', e = PyErr MemoryError no_msg ∧ h' = h) h.
Proof.
  intros Hg Hd. pose proof (backward_wp _ _ _ h Hg mp its Hd (replicate (S (length its)) tt) ltac:(apply length_replicate) kind) as H.
  rewrite fmap_replicate in H. eapply wp_conseq; [exact H| |done]. intros l h'. apply answered_exactly.
Qed.

(** ** Equality *)

Definition dict_eqb (l1 l2 : list (V * V)) : bool :=
  (Zlen l1 =? Zlen l2) &&
  forallb (λ p, match dget keq p.1 l2 with Some w => keq p.2 w | None => false end) l1.

(** A lookup in the other dict. *)
Lemma other_get_wp fuel b key hash h itsb :
  dict_is h b itsb -> khash key = Some hash -> (0 < fuel)%nat ->
  wp (r ← dk_lookup_call fuel b key hash; mret r.2)
    (λ v h', settled h h' ∧ v = dget keq key (pairs itsb)) (λ _ _, False) h.
Proof.
  intros Hd Hh Hf. apply wp_bind, (lookup_wp Hwb fuel b key hash h itsb); [done|done|done|].
  intros [ix v] h' d k Hset Hd' Hdk Hwf Hits Hr. apply wp_ret. split; [done|].
  assert (Hok : @items_ok V keq khash (items k)) by (rewrite Hits; apply Hd').
  destruct (lookup_cases Hwb k key hash ix v Hok Hr)
    as [(-> & -> & Habs)|(Hix & x & key' & old & -> & Hent & Hk & _ & l1 & l2 & Hl & Habs)]; rewrite Hits in *; simpl.
  - symmetry. by apply dget_absent.
  - rewrite Hl, pairs_app. symmetry. by apply dget_found.
Qed.
Section loop.
Context (a : Z) (d : dictobj V) (k : dictkeys V) (Hwf : table_wf d k) (Hok : @items_ok V keq khash (items k)).
(** What [get] finds. *)
Context (get : V -> Z -> DM V E (option V)) (found : V -> option V) (inv : dheap V E -> Prop).
Context (Hinv : ∀ h l, inv h -> inv (more_refs l h)).
Context (Hget : ∀ key hash h, inv h -> khash key = Some hash ->
  wp (get key hash) (λ v h', settled h h' ∧ v = found key) (λ _ _, False) h).

Lemma equal_loop_wp steps pre post h :
  dk_entries k = pre ++ post -> (length post < steps)%nat -> has_dict h a d k -> inv h ->
  wp (equal_loop steps get a (Zlen pre))
    (λ b h', settled h h' ∧ b = forallb (λ p, match found p.1 with Some w => keq p.2 w | None => false end)
                                  (pairs (entry_items post))) (λ _ _, False) h.
Proof using Hwb Hwf Hok Hinv Hget.
  revert pre post h. induction steps as [|steps IH]; intros pre post h Hl Hf Hd Hi; [lia|]. cbn [equal_loop].
  destruct Hd as [Hda Hk]. apply wp_bind, (wp_get_dict _ d _ _ _ Hda), wp_bind, (wp_get_dk _ _ _ _ _ Hk).
  pose proof (tw_keys _ _ Hwf) as Hw. destruct (Zlen pre <? dk_nentries k) eqn:Hlt; bool_to_prop.
  2: { apply wp_ret. split; [apply settled_refl|]. rewrite (entry_items_none post); [done|].
       intros i e Hi'. apply aget_Some in Hi' as ?. apply (kw_pairs _ Hw (Zlen pre + i)); [|lia].
       rewrite Hl, aget_app_r by lia. rewrite <- Hi'. f_equal. lia. }
  destruct post as [|e post]; [rewrite app_nil_r in Hl; destruct Hw; rewrite <- Hl in Hlt; lia|].
  assert (He : aget (dk_entries k) (Zlen pre) = Some e) by (rewrite Hl; by apply aget_app).
  apply wp_bind. eapply wp_lift; [exact He|]. rewrite (tw_combined _ _ Hwf). apply wp_bind, wp_ret.
  assert (Hl' : dk_entries k = (pre ++ [e]) ++ post) by (by rewrite <- app_assoc).
  assert (Hrec : ∀ h', has_dict h' a d k -> inv h' -> wp (equal_loop steps get a (Zlen pre + 1))
    (λ b h'', settled h' h'' ∧ b = forallb (λ p, match found p.1 with Some w => keq p.2 w | None => false end)
       (pairs (entry_items post))) (λ _ _, False) h').
  { intros h' Hd' Hi'. replace (Zlen pre + 1) with (Zlen (pre ++ [e])) by zlia.
    apply IH; [done|simpl in Hf; lia|done|done]. }
  destruct (kw_pairs _ Hw _ _ He) as [Hkv _]. rewrite entry_items_cons. unfold entry_item.
  destruct (me_value e) as [aval|] eqn:Hv.
  2: { destruct (me_key e) as [key|]; [by destruct (proj1 Hkv (ltac:(by eexists)))|]. by apply Hrec. }
  destruct (proj2 Hkv) as [key Hke]; [by eexists|]. rewrite Hke. apply wp_bind. eapply wp_lift; [done|].
  destruct (live_item_of k _ e key Hw He Hke) as (v & _ & Hin). pose proof (io_hash _ Hok _ _ _ Hin) as Hh.
  apply wp_bind, wp_modify, wp_bind, wp_modify.
  set (h1 := more_refs [IncRef key; IncRef aval] h). apply wp_bind, wp_try.
  eapply wp_conseq; [apply (Hget key (me_hash e) h1); [by apply Hinv|done]| |done].
  intros bval h2 [(l & -> & Hb) ->]. unfold h1. rewrite more_refs_app. destruct (found key) as [bval|] eqn:Hfd.
  - apply wp_bind, wp_modify, wp_bind, wp_try. unfold wpo at 1, RichCompareBool_EQ. rewrite (wb_eq Hwb).
    apply wp_bind, (wp_decref Hwb), wp_bind, (wp_decref Hwb), wp_bind, (wp_decref Hwb).
    set (l3 := [DecRef bval; DecRef aval; DecRef key; IncRef bval] ++ l ++ [IncRef key; IncRef aval]).
    assert (H3 : settled h (more_refs l3 h)).
    { exists l3. split; [done|]. intros w. unfold l3. rewrite !taken_app, Hb. simpl. lia. }
    change (add_ref _ _) with (more_refs l3 h). simpl forallb. rewrite Hfd. destruct (keq aval bval).
    + eapply wp_conseq; [apply (Hrec (more_refs l3 h)); [done|by apply Hinv]| |done].
      intros b h4 [H4 ->]. split; [by eapply settled_trans|done].
    + by apply wp_ret.
  - apply wp_bind, (wp_decref Hwb), wp_bind, (wp_decref Hwb), wp_ret. simpl forallb. rewrite Hfd. split; [|done].
    exists ([DecRef aval; DecRef key] ++ l ++ [IncRef key; IncRef aval]). split; [done|].
    intros w. rewrite !taken_app, Hb. simpl. lia.
Qed.
End loop.
(** [steps] exceeds the entries of [a]. *)
Lemma dict_equal_wp steps fuel a b itsa itsb h :
  dict_is h a itsa -> dict_is h b itsb -> (0 < fuel)%nat ->
  (∀ d k, has_dict h a d k -> Zlen (dk_entries k) < Z.of_nat steps) ->
  wp (dict_equal steps fuel a b)
    (λ r h', settled h h' ∧ r = dict_eqb (pairs itsa) (pairs itsb)) (λ _ _, False) h.
Proof.
  intros Ha Hb Hf Hsteps. destruct (dict_is_at _ _ _ Ha) as (d & k & Hdk & Hwf & Hits).
  destruct (dict_is_at _ _ _ Hb) as (db & kb & Hdkb & Hwfb & Hitsb).
  destruct (used_items d k Hwf) as [Hu _], (used_items db kb Hwfb) as [Hub _].
  unfold dict_equal, dict_eqb. apply wp_bind, (wp_get_dict _ d); [apply Hdk|].
  apply wp_bind, (wp_get_dict _ db); [apply Hdkb|]. rewrite Hu, Hub, Hits, Hitsb.
  unfold pairs at 1 2. rewrite !Zlen_fmap. destruct (Zlen itsa =? Zlen itsb) eqn:Hlen; simpl.
  2: { apply wp_ret. split; [apply settled_refl|done]. }
  specialize (Hsteps d k Hdk). destruct Hwf as [He|Ht].
  - assert (itsa = []) as -> by (rewrite <- Hits; by rewrite (ew_keys _ _ He)).
    destruct steps as [|steps]; [pose proof (Zlen_nonneg (dk_entries k)); lia|]. cbn [equal_loop].
    apply wp_bind, (wp_get_dict _ d); [apply Hdk|]. apply wp_bind, (wp_get_dk _ k); [apply Hdk|].
    rewrite (ew_keys _ _ He). simpl. apply wp_ret. split; [apply settled_refl|done].
  - rewrite <- Hits.
    apply (equal_loop_wp a d k Ht ltac:(rewrite Hits; apply Ha) _ (λ key, dget keq key (pairs itsb))
      (λ h, dict_is h b itsb)) with (pre := []) (post := dk_entries k).
    + intros h1 l. by apply dict_is_refs.
    + intros key hash h1 Hd1 Hh. by apply other_get_wp.
    + done.
    + unfold Zlen in Hsteps. lia.
    + done.
    + done.
Qed.
End spec.
