(* ===== verification/DictSafe.v ===== *)
(** * The key and value types of a checked dict

    The methods of [CheckedDict[K, V]] that look items up, store, remove or copy
    them, and the functions compiled code calls with arguments of the types,
    keep the dict well formed with all keys of type [K] and all values of type
    [V], whether they succeed or fail.  Objects of type [K] are hashable, and
    what mappings and iterators run leaves dicts alone; [setdefault] has a
    default. *)

From stdpp Require Import base list gmap numbers strings sets.
From S2P Require Import Prelude TypeCheck DictProbe DictObject DictCore DictTable DictWf DictResize DictHeap DictGrow.
From S2P Require Import DictSpec DictOps DictDelete CheckedDict DictQuery DictFree DictUpdate DictMerge.

(** ** Association lists *)
Section assoc.
Context {V : Type} (keq : V -> V -> bool) (P : V * V -> Prop).
Implicit Types l ps : list (V * V).

(** [P] of a pair is about the key and the value apart. *)
Definition split_pred : Prop := ∀ k v k' v', P (k, v) -> P (k', v') -> P (k, v').

Lemma dset_typed key value l : split_pred -> P (key, value) -> Forall P l -> Forall P (dset keq key value l).
Proof.
  intros Hs Hp. induction 1 as [|[k v] l Hk Hl IH]; simpl; [by constructor|].
  destruct (keq k key); constructor; eauto.
Qed.
Lemma ddel_typed key l : Forall P l -> Forall P (ddel keq key l).
Proof. induction 1 as [|[k v] l Hk Hl IH]; simpl; [constructor|]. destruct (keq k key); [done|by constructor]. Qed.
Lemma dput_typed override l p : split_pred -> P p -> Forall P l -> Forall P (dput keq override l p).
Proof.
  intros Hs Hp Hl. unfold dput. destruct (_ =? _); [by apply dset_typed; [|destruct p|]|].
  destruct (dget _ _ _); [done|by apply dset_typed; [|destruct p|]].
Qed.
Lemma dputs_typed override l ps : split_pred -> Forall P ps -> Forall P l -> Forall P (foldl (dput keq override) l ps).
Proof. intros Hs Hps. revert l. induction Hps as [|p ps Hp Hps IH]; intros l Hl; [done|]. simpl. by apply IH, dput_typed. Qed.
Lemma setdefault_typed key value l :
  P (key, value) -> Forall P l -> Forall P (setdefault_spec (keq := keq) key value l).2.
Proof.
  intros Hp Hl. unfold setdefault_spec. destruct (dget _ _ _); [done|]. apply Forall_app. split; [done|by constructor].
Qed.
End assoc.

Section safe.
Context {V E : Type} {api : DictApi V E} {tapi : TypeApi V} `{EqDecision V}.
Context {keq : V -> V -> bool} {khash : V -> option Z} (Hwb : well_behaved keq khash).
(** The type parameters; objects of the key type are hashable. *)
Context (kparam vparam : gparam) (Hhash : ∀ v, param_ok kparam v = true -> khash v ≠ None).
Abbreviation inst := [kparam; vparam].
Abbreviation dict_is := (@dict_is V E api keq khash).
Abbreviation updated := (@updated V E api EqDecision0 keq khash).
Abbreviation typed := (typed_pair kparam vparam).

Lemma typed_split : split_pred typed.
Proof. by intros k v k' v' [? _] [_ ?]. Qed.

(** [mp] is well formed with all its items of the types. *)
Definition typed_dict (h : dheap V E) (mp : Z) : Prop := ∃ its, dict_is h mp its ∧ Forall typed (pairs its).
(** Nothing but [mp] has changed, and it is still so. *)
Definition kept (mp : Z) (h h' : dheap V E) : Prop := only_dict mp h h' ∧ typed_dict h' mp.
Definition keeps {A} (mp : Z) (m : DM V E A) : Prop :=
  ∀ h, typed_dict h mp -> wpo True m (λ _ h', kept mp h h') (λ _ h', kept mp h h') h.

Lemma kept_refl mp h : typed_dict h mp -> kept mp h h.
Proof. intros Hd. split; [apply only_dict_refl|done]. Qed.
Lemma kept_trans mp h1 h2 h3 : kept mp h1 h2 -> kept mp h2 h3 -> kept mp h1 h3.
Proof. intros [O1 _] [O2 T]. split; [by eapply only_dict_trans|done]. Qed.
Lemma kept_updated mp h h' its' x : updated mp h h' its' x -> Forall typed (pairs its') -> kept mp h h'.
Proof. intros Hu Ht. split; [apply Hu|]. exists its'. split; [apply Hu|done]. Qed.
Lemma kept_world mp h e : typed_dict h mp -> kept mp h (set_world e h).
Proof. intros (its & Hd & Ht). by apply (kept_updated mp _ _ its (λ _, 0)); [apply updated_world|]. Qed.
Lemma kept_more mp h l : typed_dict h mp -> kept mp h (more_refs l h).
Proof. intros (its & Hd & Ht). eapply (kept_updated mp _ _ its); [by apply updated_more|done]. Qed.

Lemma wp_partial {A} (m : DM V E A) Q X h : wp m Q X h -> wpo True m Q X h.
Proof. unfold wpo. by destruct (m h). Qed.
(** Composition. *)
Lemma dict_keeps_ret {A} mp (a : A) : keeps mp (mret a).
Proof. intros h Hd. by apply wp_ret, kept_refl. Qed.
Lemma dict_keeps_raise {A} mp ty msg : keeps mp (mraise ty msg : DM V E A).
Proof. intros h Hd. by apply wp_raise, kept_refl. Qed.
Lemma dict_keeps_throw {A} mp e : keeps mp (mthrow e : DM V E A).
Proof. intros h Hd. by apply wp_throw, kept_refl. Qed.
Lemma dict_keeps_bind {A B} mp (m : DM V E A) (f : A -> DM V E B) :
  keeps mp m -> (∀ a, keeps mp (f a)) -> keeps mp (m ≫= f).
Proof.
  intros Hm Hf h Hd. apply wp_bind. eapply wp_conseq; [by apply Hm| |done].
  intros a h1 H1. eapply wp_conseq; [apply Hf, H1| |]; intros ? ? H2; exact (kept_trans _ _ _ _ H1 H2).
Qed.
Lemma dict_keeps_try {A} mp (m : DM V E A) : keeps mp m -> keeps mp (mtry m).
Proof. intros Hm h Hd. apply wp_try. eapply wp_conseq; [by apply Hm|done|done]. Qed.
Lemma keeps_incref mp v : keeps mp (INCREF v).
Proof. intros h Hd. apply wp_modify. by apply (kept_more mp h [IncRef v]). Qed.
Lemma keeps_decref mp v : keeps mp (DECREF v).
Proof. intros h Hd. apply (wp_decref Hwb). by apply (kept_more mp h [DecRef v]). Qed.

(** Calls that leave the dicts alone. *)
Definition quiet {A} (f : dheap V E -> A * dheap V E) : Prop := ∀ h, ∃ e, (f h).2 = set_world e h.
Lemma keeps_status mp f : quiet f -> keeps mp (run_status f).
Proof.
  intros Hq h Hd. destruct (Hq h) as [e He]. unfold wpo, run_status.
  destruct (f h) as [[x|] h']; simpl in He; subst h'; by apply kept_world.
Qed.
Lemma keeps_value {A} mp (f : dheap V E -> (pyexn + A) * dheap V E) : quiet f -> keeps mp (run_value f).
Proof.
  intros Hq h Hd. destruct (Hq h) as [e He]. unfold wpo, run_value.
  destruct (f h) as [[x|a] h']; simpl in He; subst h'; by apply kept_world.
Qed.
Lemma keeps_next mp it : quiet (di_next it) -> keeps mp (PyIter_Next it).
Proof.
  intros Hq h Hd. destruct (Hq h) as [e He]. unfold wpo, PyIter_Next.
  destruct (di_next it h) as [[v| |x] h']; simpl in He; subst h'; try by apply kept_world.
  eapply kept_trans; [by apply kept_world|]. apply (kept_more mp _ [IncRef v]). by apply kept_world.
Qed.

(** ** Storing with checks *)

Lemma keeps_insert fuel mp key hash value :
  khash key = Some hash -> (0 < fuel)%nat -> typed (key, value) -> keeps mp (insertdict fuel mp key hash value).
Proof.
  intros Hh Hf Ht h (its & Hd & Hits). apply wp_partial.
  eapply wp_conseq; [by apply (insertdict_wp Hwb fuel mp key hash value h its)| |].
  - intros [] h' (its' & Hu & Hp). eapply kept_updated; [exact Hu|]. rewrite Hp. by apply dset_typed; [apply typed_split| |].
  - intros e h' [_ Hu]. by eapply kept_updated.
Qed.
(** An unhashable key cannot be of the key type. *)
Lemma keeps_hashed fuel mp key value :
  (0 < fuel)%nat -> typed (key, value) -> keeps mp (insert_hashed fuel mp key value).
Proof.
  intros Hf Ht. unfold insert_hashed. intros h Hd. apply wp_bind, wp_try. unfold wpo at 1, PyObject_Hash.
  rewrite (wb_hash Hwb). destruct (khash key) as [hash|] eqn:Hh; [|by destruct (Hhash key (proj1 Ht))].
  revert h Hd. apply dict_keeps_bind; [by apply keeps_insert|intros; apply dict_keeps_ret].
Qed.
Lemma keeps_check_insert fuel mp key value :
  (0 < fuel)%nat -> keeps mp (check_and_insert inst fuel mp key value).
Proof.
  intros Hf h Hd. unfold check_and_insert. apply wp_bind, wp_checkkey; [intros Hk|intros _; by apply kept_refl].
  apply wp_bind, wp_checkval; [intros Hv|intros _; by apply kept_refl]. by apply keeps_hashed.
Qed.
Lemma keeps_pending mp p : keeps mp (check_pending p : DM V E unit).
Proof. destruct p; [apply dict_keeps_throw|apply dict_keeps_ret]. Qed.

(** ** Updates *)

Definition quiet_iter (it : diter V E) : Prop := quiet (di_get it) ∧ quiet (di_next it).
Definition quiet_mapping (m : mapping V E) : Prop :=
  quiet (mp_keys m) ∧ quiet_iter (mp_iter m) ∧ ∀ key, quiet (mp_getitem m key).

Lemma keeps_merge_iterable_loop steps fuel mp b p :
  (0 < fuel)%nat -> quiet_mapping b -> keeps mp (merge_iterable_loop inst steps fuel mp b p).
Proof.
  intros Hf (_ & [_ Hn] & Hget). revert p. induction steps as [|steps IH]; intros p; [by intros h Hd|].
  cbn [merge_iterable_loop]. apply dict_keeps_bind; [by apply keeps_next|].
  intros [key| |e]; [|apply keeps_pending|apply dict_keeps_throw].
  apply dict_keeps_bind; [apply dict_keeps_try, dict_keeps_bind; [by apply keeps_value|intros v; apply dict_keeps_bind; [apply keeps_incref|intros; apply dict_keeps_ret]]|].
  intros [e|value]; [apply dict_keeps_bind; [apply keeps_decref|intros; apply dict_keeps_throw]|].
  apply dict_keeps_bind; [by apply dict_keeps_try, keeps_check_insert|]. intros status.
  apply dict_keeps_bind; [apply keeps_decref|intros _]. apply dict_keeps_bind; [apply keeps_decref|intros _].
  destruct status as [e|after]; [apply dict_keeps_throw|apply IH].
Qed.
Lemma keeps_merge_iterable steps fuel mp b :
  (0 < fuel)%nat -> quiet_mapping b -> keeps mp (chkdict_merge_iterable inst steps fuel mp b).
Proof.
  intros Hf Hq. pose proof Hq as (Hk & [Hi _] & _). unfold chkdict_merge_iterable.
  apply dict_keeps_bind; [by apply keeps_status|intros _]. apply dict_keeps_bind; [by apply keeps_status|intros _].
  by apply keeps_merge_iterable_loop.
Qed.
Section seq2.
Context (as_seq : V -> dheap V E -> (pyexn + list V) * dheap V E) (Hseq : ∀ v, quiet (as_seq v)).
Lemma keeps_fast_pair mp item : keeps mp (fast_pair as_seq item).
Proof using Hseq.
  unfold fast_pair. apply dict_keeps_bind; [by apply dict_keeps_try, keeps_value|].
  intros [e|[|key [|value [|]]]]; try apply dict_keeps_raise; [|apply dict_keeps_ret].
  case_bool_decide; [apply dict_keeps_raise|apply dict_keeps_throw].
Qed.
Lemma keeps_seq2_loop steps fuel mp it p :
  (0 < fuel)%nat -> quiet_iter it -> keeps mp (mergefromseq2_loop inst as_seq steps fuel mp it p).
Proof using Hwb Hhash Hseq.
  intros Hf [_ Hn]. revert p. induction steps as [|steps IH]; intros p; [by intros h Hd|].
  cbn [mergefromseq2_loop]. apply dict_keeps_bind; [by apply keeps_next|].
  intros [item| |e]; [|apply keeps_pending|apply dict_keeps_throw].
  apply dict_keeps_bind; [apply dict_keeps_try, keeps_fast_pair|].
  intros [e|[key value]]; [apply dict_keeps_bind; [apply keeps_decref|intros; apply dict_keeps_throw]|].
  apply dict_keeps_bind; [apply keeps_incref|intros _]. apply dict_keeps_bind; [apply keeps_incref|intros _].
  apply dict_keeps_bind; [by apply dict_keeps_try, keeps_check_insert|].
  intros [e|after]; (apply dict_keeps_bind; [apply keeps_decref|intros _]); (apply dict_keeps_bind; [apply keeps_decref|intros _]);
    (apply dict_keeps_bind; [apply keeps_decref|intros _]); [apply dict_keeps_throw|apply IH].
Qed.

(** A checked dict that is merged is well formed, and typed if it is of the
    type of [mp]. *)
Definition update_ok (h : dheap V E) (a : update_arg V E) : Prop :=
  match a with
  | UChecked true other => typed_dict h other
  | UChecked false other => ∃ oits, dict_is h other oits
  | UDict m => quiet_mapping m
  | UObject lookup m seq2 => quiet lookup ∧ quiet_mapping m ∧ quiet_iter seq2
  end.
Lemma stopped_kept mp h its ps accepts bad e h' :
  merge_stopped (keq := keq) (khash := khash) mp h its ps (dput keq 1) accepts bad e h' ->
  (∀ p, p ∈ ps -> accepts p -> typed p) -> Forall typed (pairs its) -> kept mp h h'.
Proof.
  intros [[_ Hu]|(m & its' & p & Hu & Hp & Ha & _)] Hacc Hits; eapply kept_updated; [exact Hu|done|exact Hu|].
  rewrite Hp. apply dputs_typed; [apply typed_split| |done]. rewrite Forall_forall in Ha |- *. intros q Hq.
  apply Hacc; [|by apply Ha]. apply elem_of_take in Hq as (i & Hi & _). by apply list_elem_of_lookup_2 in Hi.
Qed.
Lemma keeps_dict_merge fuel mp other h :
  (0 < fuel)%nat -> typed_dict h mp -> typed_dict h other ->
  wpo True (dict_merge fuel mp other 1) (λ _ h', kept mp h h') (λ _ h', kept mp h h') h.
Proof using Hwb.
  intros Hf Hd (oits & Ho & Hot). destruct (decide (other = mp)) as [->|Hne].
  { destruct (di_dict _ _ _ Ho) as [d Hd0]. unfold dict_merge. apply wp_bind, wp_assert; [done|].
    apply wp_bind, (wp_get_dict _ d _ _ _ Hd0). rewrite Z.eqb_refl. by apply wp_ret, kept_refl. }
  destruct Hd as (its & Hd & Hits). apply wp_partial.
  eapply wp_conseq; [apply (dict_merge_wp Hwb fuel mp other 1 its oits h); [done|done|done|lia|done]| |].
  - intros [] h' (its' & Hu & Hp). eapply kept_updated; [exact Hu|]. rewrite Hp.
    apply dputs_typed; [apply typed_split|done|done].
  - intros e h' Hs. replace (if decide (its = []) then 1 else 1) with 1 in Hs by by case_decide.
    eapply stopped_kept; [exact Hs| |done]. intros p Hp _. rewrite Forall_forall in Hot. by apply Hot.
Qed.
Lemma keeps_chkdict_merge fuel mp other oits h :
  (0 < fuel)%nat -> typed_dict h mp -> dict_is h other oits ->
  wpo True (chkdict_merge inst fuel mp other) (λ _ h', kept mp h h') (λ _ h', kept mp h h') h.
Proof using Hwb.
  intros Hf Hd Ho. destruct (decide (other = mp)) as [->|Hne].
  { destruct (di_dict _ _ _ Ho) as [d Hd0]. unfold chkdict_merge.
    apply wp_bind, (wp_get_dict _ d _ _ _ Hd0). rewrite Z.eqb_refl. by apply wp_ret, kept_refl. }
  destruct Hd as (its & Hd & Hits). apply wp_partial.
  eapply wp_conseq; [by apply (chkdict_merge_wp Hwb kparam vparam fuel mp other its oits h)| |].
  - intros [] h' (its' & Hu & Hp & Ha). eapply kept_updated; [exact Hu|]. rewrite Hp.
    apply dputs_typed; [apply typed_split|done|done].
  - intros e h' Hs. by eapply stopped_kept.
Qed.
Lemma keeps_update steps fuel mp arg kwds h :
  (0 < fuel)%nat -> typed_dict h mp ->
  (∀ a, arg = Some a -> update_ok h a) -> (∀ valid m, kwds = Some (valid, m) -> quiet_mapping m) ->
  wpo True (chkdict_update_common_fast inst as_seq steps fuel mp arg kwds)
    (λ _ h', kept mp h h') (λ _ h', kept mp h h') h.
Proof using Hwb Hhash Hseq.
  intros Hf Hd Ha Hk. unfold chkdict_update_common_fast. apply wp_bind.
  assert (Hkw : ∀ h1, kept mp h h1 -> wpo True
    (match kwds with
     | None => mret tt
     | Some (valid, kwds) => if (valid : bool) then chkdict_merge_iterable inst steps fuel mp kwds
                             else mraise TypeError "keywords must be strings"
     end) (λ _ h', kept mp h h') (λ _ h', kept mp h h') h1).
  { intros h1 H1. assert (H2 : keeps mp (match kwds with
     | None => mret tt
     | Some (valid, kwds) => if (valid : bool) then chkdict_merge_iterable inst steps fuel mp kwds
                             else mraise TypeError "keywords must be strings"
     end)).
    { destruct kwds as [[[] m]|]; [apply keeps_merge_iterable; [done|by eapply Hk]|apply dict_keeps_raise|apply dict_keeps_ret]. }
    eapply wp_conseq; [apply H2, H1| |]; intros ? ? H3; exact (kept_trans _ _ _ _ H1 H3). }
  apply (wp_conseq _ (λ _ h', kept mp h h') _ (λ _ h', kept mp h h')); [|intros [] h1 H1; by apply Hkw|done].
  destruct arg as [a|]; [|by apply wp_ret, kept_refl]. specialize (Ha a eq_refl).
  destruct a as [[] other|m|lookup m seq2]; simpl in Ha.
  - by apply keeps_dict_merge.
  - destruct Ha as [oits Ho]. by eapply keeps_chkdict_merge.
  - by apply keeps_merge_iterable.
  - destruct Ha as (H1 & H2 & H3).
    assert (keeps mp (has_keys ← run_value lookup;
       if (has_keys : bool) then chkdict_merge_iterable inst steps fuel mp m
       else chkdict_mergefromseq2 inst as_seq steps fuel mp seq2)) as HK; [|by apply HK].
    apply dict_keeps_bind; [by apply keeps_value|].
    intros []; [by apply keeps_merge_iterable|].
    unfold chkdict_mergefromseq2. apply dict_keeps_bind; [apply keeps_status, H3|intros _]. by apply keeps_seq2_loop.
Qed.
End seq2.

(** ** The other methods *)

(** A total specification that says how the items change. *)
Lemma kept_wp {A} (m : DM V E A) mp h its (Q : A -> dheap V E -> Prop) X :
  wp m Q X h -> Forall typed (pairs its) ->
  (∀ a h', Q a h' -> ∃ its' x, updated mp h h' its' x ∧ (Forall typed (pairs its) -> Forall typed (pairs its'))) ->
  (∀ e h', X e h' -> h' = h ∨ ∃ x, updated mp h h' its x) -> dict_is h mp its ->
  wpo True m (λ _ h', kept mp h h') (λ _ h', kept mp h h') h.
Proof.
  intros Hwp Hits HQ HX Hd. apply wp_partial. eapply wp_conseq; [exact Hwp| |].
  - intros a h' Ha. destruct (HQ a h' Ha) as (its' & x & Hu & Ht). by eapply kept_updated; [|apply Ht].
  - intros e h' He. destruct (HX e h' He) as [->|[x Hu]]; [apply kept_refl; by exists its|by eapply kept_updated].
Qed.
Lemma keeps_key_hash {A} mp key (f : Z -> DM V E A) :
  (∀ hash, khash key = Some hash -> keeps mp (f hash)) -> keeps mp (hash ← key_hash key; f hash).
Proof.
  intros Hf h Hd. apply wp_bind, (wp_key_hash Hwb); [|intros _; by apply kept_refl].
  intros hash Hh. by apply Hf.
Qed.
Lemma keeps_store fuel mp key hash value :
  khash key = Some hash -> (0 < fuel)%nat -> typed (key, value) -> keeps mp (store_item fuel mp key hash value).
Proof.
  intros Hh Hf Ht h (its & Hd & Hits).
  eapply kept_wp; [by apply (store_item_wp Hwb fuel mp key hash value h its)|done| | |done].
  - intros [] h' (its' & Hu & Hp). exists its', (λ _, 0). split; [done|]. intros _. rewrite Hp.
    by apply dset_typed; [apply typed_split| |].
  - intros e h' [_ Hu]. eauto.
Qed.
Lemma keeps_ass_sub fuel mp key value :
  (0 < fuel)%nat -> keeps mp (chkdict_ass_sub inst fuel mp key value).
Proof.
  intros Hf h Hd. unfold chkdict_ass_sub. apply wp_bind, wp_checkkey; [intros Hk|intros _; by apply kept_refl].
  revert h Hd. apply keeps_key_hash. intros hash Hh. destruct value as [value|]; [|apply dict_keeps_raise].
  intros h Hd. apply wp_bind, wp_checkval; [intros Hv|intros _; by apply kept_refl]. by apply keeps_store.
Qed.
(** [_PyClassLoader_CheckOneArg] against a type parameter. *)
Lemma wp_check_one {nf} v i param h (Q : unit -> dheap V E -> Prop) X :
  aget inst i = Some param -> Z.land (Ci_Py_SIG_TYPE_PARAM_IDX i) Ci_Py_SIG_OPTIONAL = 0 ->
  Ci_Py_SIG_TYPE_MASK (Ci_Py_SIG_TYPE_PARAM_IDX i) = i ->
  (param_ok param v = true -> Q tt h) -> (∀ e, X e h) ->
  wpo nf (_PyClassLoader_CheckOneArg inst v (Ci_Py_SIG_TYPE_PARAM_IDX i)) Q X h.
Proof.
  intros Hi Ho Hm HQ HX. unfold _PyClassLoader_CheckOneArg. rewrite Ho. simpl. rewrite andb_false_r, Hm.
  wp_step. eapply wp_lift; [exact Hi|]. destruct (PyObject_TypeCheck v (gtp_type param)) eqn:E1; [|by apply wp_raise].
  apply wp_ret, HQ. unfold param_ok. rewrite E1. apply orb_true_r.
Qed.
Lemma keeps_setdefault fuel mp key value :
  (0 < fuel)%nat -> keeps mp (dict_setdefault_impl inst fuel mp [key; value]).
Proof.
  intros Hf h Hd. unfold dict_setdefault_impl. apply wp_bind, wp_ret.
  apply wp_bind, (wp_check_one key 0 kparam); [done|done|done| |intros _; by apply kept_refl].
  intros Hk. revert h Hd. apply dict_keeps_bind; [|intros v; apply dict_keeps_bind; [apply keeps_incref|intros; apply dict_keeps_ret]].
  intros h Hd. apply wp_bind, (wp_check_one value 1 vparam); [done|done|done| |intros _; by apply kept_refl].
  intros Hv. destruct Hd as (its & Hd & Hits).
  eapply kept_wp; [by apply (setdefault_wp Hwb fuel mp key value h its)|done| | |done].
  - intros v h' (_ & its' & Hu & Hp). exists its', (λ _, 0). split; [done|]. intros _.
    replace (pairs its') with (setdefault_spec (keq := keq) key value (pairs its)).2 by by rewrite <- Hp.
    by apply setdefault_typed.
  - intros e h' [(_ & _ & ->)|[_ Hu]]; eauto.
Qed.
Lemma keeps_pop fuel mp key deflt :
  (0 < fuel)%nat -> keeps mp (Ci_CheckedDict_Pop fuel mp key deflt).
Proof.
  intros Hf h (its & Hd & Hits). unfold Ci_CheckedDict_Pop. destruct (di_dict _ _ _ Hd) as [d Hd0].
  apply wp_bind, (wp_get_dict _ d _ _ _ Hd0). assert (Ht : typed_dict h mp) by by exists its.
  destruct (ma_used d =? 0).
  { destruct deflt as [v|]; [|by apply wp_raise, kept_refl]. revert h Hd Hd0 Ht. intros h _ _ Ht.
    revert h Ht. apply dict_keeps_bind; [apply keeps_incref|intros; apply dict_keeps_ret]. }
  revert h Hd Hd0 Ht. intros h _ _. revert h. apply keeps_key_hash. intros hash Hh h (its1 & Hd & Hits1).
  eapply kept_wp; [by apply (pop_known_wp Hwb fuel mp key hash deflt h its1)|done| | |done].
  - intros v h' [(_ & its' & Hp & Hu)|(_ & _ & Hu)]; [exists its', (one v)|exists its1, (one v)]; split; try done.
    intros _. rewrite Hp. by apply ddel_typed.
  - intros e h' (_ & _ & _ & Hu). eauto.
Qed.
Lemma keeps_popitem mp : keeps mp (dict_popitem_impl mp).
Proof.
  intros h (its & Hd & Hits). eapply kept_wp; [by apply (popitem_wp Hwb mp h its)|done| | |done].
  - intros r h' (x & its' & Heq & Hu). eexists its', _. split; [exact Hu|]. intros _. subst its.
    rewrite pairs_app in Hits. by apply Forall_app in Hits as [? _].
  - intros e h' [-> _]. by left.
Qed.
Lemma keeps_clear mp : keeps mp (Ci_CheckedDict_Clear mp).
Proof.
  intros h (its & Hd & Hits). eapply kept_wp; [by apply (clear_wp Hwb mp h its)|done| |done|done].
  intros [] h' Hu. exists [], (λ _, 0). split; [done|]. constructor.
Qed.
Lemma keeps_lookup fuel mp key default_value :
  (0 < fuel)%nat -> keeps mp (dict_get_impl fuel mp key default_value).
Proof.
  intros Hf h (its & Hd & Hits). eapply kept_wp; [by apply (get_wp Hwb fuel mp key default_value h its)|done| | |done].
  - intros v h' (_ & _ & Hu). eauto.
  - intros e h' (_ & _ & ->). by left.
Qed.
Lemma keeps_dict_subscript fuel mp key : (0 < fuel)%nat -> keeps mp (dict_subscript fuel mp key).
Proof.
  intros Hf h (its & Hd & Hits). eapply kept_wp; [by apply (subscript_wp Hwb fuel mp key h its)|done| | |done].
  - intros v h' (_ & _ & Hu). eauto.
  - intros e h' [(_ & _ & ->)|(_ & _ & _ & Hu)]; eauto.
Qed.
Lemma keeps_subscript fuel mp key : (0 < fuel)%nat -> keeps mp (chkdict_subscript inst fuel mp key).
Proof.
  intros Hf h Ht. unfold chkdict_subscript. apply wp_bind, wp_checkkey; [intros Hk|intros _; by apply kept_refl].
  by apply keeps_dict_subscript.
Qed.
Lemma keeps_contains fuel mp key : (0 < fuel)%nat -> keeps mp (CiCheckedDict_Contains fuel mp key).
Proof.
  intros Hf h (its & Hd & Hits). eapply kept_wp; [by apply (contains_wp Hwb fuel mp key h its)|done| | |done].
  - intros v h' (_ & _ & Hu). eauto.
  - intros e h' (_ & _ & ->). by left.
Qed.
Lemma keeps_unchecked fuel mp key value :
  (0 < fuel)%nat -> typed (key, value) -> keeps mp (chkdict_ass_sub_unchecked fuel mp key value).
Proof. intros Hf Ht. apply keeps_key_hash. intros hash Hh. by apply keeps_store. Qed.
Lemma dict_keeps_get fuel mp key default_value :
  (0 < fuel)%nat -> keeps mp (dict_get inst fuel mp [key; default_value]).
Proof.
  intros Hf h Ht. unfold dict_get. apply wp_bind, wp_ret.
  apply wp_bind, (wp_check_one key 0 kparam); [done|done|done| |intros _; by apply kept_refl].
  intros _. revert h Ht. apply dict_keeps_bind; [|intros _; by apply keeps_lookup].
  intros h Ht. unfold _PyClassLoader_CheckOneArg. destruct (_ && _); [by apply wp_ret, kept_refl|].
  apply wp_bind. eapply wp_lift; [done|]. destruct (PyObject_TypeCheck _ _); [by apply wp_ret, kept_refl|by apply wp_raise, kept_refl].
Qed.

(** ** New dicts *)

(** [c] is a new dict of the types; nothing else has changed. *)
Definition made (h h' : dheap V E) (c : Z) : Prop := dicts h !! c = None ∧ typed_dict h' c ∧ only_dict c h h'.
(** A dict that was made has been destroyed; nothing else has changed. *)
Definition unmade (h h' : dheap V E) : Prop :=
  heap_inv h' ∧ ((∀ c, only_dict c h h') ∨ ∃ c, dicts h !! c = None ∧ dicts h' !! c = None ∧ only_dict c h h').

Lemma world_unmade h e : heap_inv h -> unmade h (set_world e h).
Proof. intros Hi. destruct (heap_inv_world h e Hi). split; [done|by left]. Qed.
(** Another dict stays as it is. *)
Lemma typed_other c mp h h' :
  typed_dict h mp -> c ≠ mp -> heap_inv h' -> only_dict c h h' -> typed_dict h' mp.
Proof.
  intros (its & Hd & Hits) Hne Hi Ho. exists its. split; [|done]. destruct Hd as [Hi0 [d Hd] <- Hok]. split; [done| | |done].
  - exists d. by rewrite (od_dicts _ _ _ Ho).
  - by apply (only_dict_items c).
Qed.
Lemma typed_present c mp h : typed_dict h mp -> dicts h !! c = None -> c ≠ mp.
Proof. intros (its & [_ [d Hd] _ _] & _) Hc ->. congruence. Qed.

Lemma copy_made fuel mp h :
  (0 < fuel)%nat -> typed_dict h mp -> is_Some (dstate h) ->
  wpo True (chkdict_copy fuel mp) (λ c h', made h h' c) (λ _ h', unmade h h') h.
Proof.
  intros Hf (its & Hd & Hits) Hs. apply wp_partial. eapply wp_conseq; [by apply (copy_wp Hwb fuel mp its h)| |].
  - intros c h' (its' & (Hc & Hd' & Ho & _) & Hp). split_and!; [done| |done]. exists its'. by rewrite Hp.
  - intros e h' [_ [[w ->]|(Hi & _ & c & H1 & H2 & H3)]]; [apply world_unmade, Hd|]. split; [done|]. right. by exists c.
Qed.
Lemma keeps_fromkeys_loop steps fuel c it value p :
  (0 < fuel)%nat -> quiet_iter it -> param_ok vparam value = true -> keeps c (fromkeys_loop inst steps fuel c it value p).
Proof.
  intros Hf [_ Hn] Hv. revert p. induction steps as [|steps IH]; intros p; [by intros h Hd|].
  cbn [fromkeys_loop]. apply dict_keeps_bind; [by apply keeps_next|].
  intros [key| |e]; [|apply keeps_pending|apply dict_keeps_throw].
  intros h Hd. apply wp_bind, wp_bind. eapply wp_lift; [done|]. apply wp_ret.
  destruct (param_ok kparam key) eqn:Hk; revert h Hd.
  - apply dict_keeps_bind; [by apply dict_keeps_try, keeps_hashed|]. intros status.
    apply dict_keeps_bind; [apply keeps_decref|intros _]. destruct status as [e|after]; [apply dict_keeps_throw|apply IH].
  - apply dict_keeps_bind; [apply keeps_decref|intros; apply dict_keeps_raise].
Qed.
Lemma fromkeys_made steps fuel it value h :
  (0 < fuel)%nat -> heap_inv h -> is_Some (dstate h) -> quiet_iter it ->
  wpo True (chkdict_fromkeys inst steps fuel (chkdict_alloc 0) it value) (λ c h', made h h' c) (λ _ h', unmade h h') h.
Proof.
  intros Hf Hi Hs Hit. unfold chkdict_fromkeys, chkdict_alloc. cbv zeta. apply wp_bind.
  eapply wp_conseq; [by apply wp_partial, (new_wp Hwb h)| |intros e h' [_ [w ->]]; by apply world_unmade].
  intros c h1 (Hc & _ & H1). assert (Hd1 : typed_dict h1 c) by (exists []; split; [apply H1|constructor]).
  apply wp_bind, wp_try. set (value' := default Py_None value).
  assert (Hk : keeps c (ok ← _PyClassLoader_CheckParamType inst value' 1;
    _ ← (if (ok : bool) then mret tt else mraise TypeError "bad value type");
    _ ← run_status (di_get it);
    fromkeys_loop inst steps fuel c it value' None)).
  { intros h2 H2. apply wp_bind, wp_bind. eapply wp_lift; [done|]. apply wp_ret. revert h2 H2.
    destruct (param_ok vparam value') eqn:Hv; [|intros h2 H2; by apply wp_bind, wp_raise, kept_refl].
    apply dict_keeps_bind; [apply dict_keeps_ret|intros _]. apply dict_keeps_bind; [apply keeps_status, Hit|intros _].
    by apply keeps_fromkeys_loop. }
  eapply wp_conseq; [by apply Hk| |].
  - intros _ h2 [Ho Ht]. apply wp_ret. split_and!; [done|done|]. eapply only_dict_trans; [apply H1|done].
  - intros e h2 [Ho (its & Ht & _)]. apply wp_bind.
    eapply wp_conseq; [by apply wp_partial, (dealloc_wp Hwb c h2 its)| |done].
    intros [] h3 (Hi3 & Ho3 & Hn3 & _). apply wp_throw. split; [done|]. right. exists c. split_and!; [done|done|].
    eapply only_dict_trans; [apply H1|]. by eapply only_dict_trans.
Qed.

(** ** Methods *)

(** Lookups, stores, removals and copies, and what compiled code calls. *)
Inductive dict_call :=
  | CSubscript (key : V)
  | CContains (key : V)
  | CSetItem (key value : V)
  | CDelItem (key : V)
  | CGet (key default_value : V)
  | CSetDefault (key default_value : V)
  | CPop (key : V) (default_value : option V)
  | CPopItem
  | CClear
  | CUpdate (as_seq : V -> dheap V E -> (pyexn + list V) * dheap V E)
      (arg : option (update_arg V E)) (kwds : option (bool * mapping V E))
  | CCopy
  | CFromKeys (iterable : diter V E) (value : option V)
  | CGetItemCompiled (key : V)
  | CGetCompiled (key default_value : V)
  | CSetItemCompiled (key value : V).
(** The new dict, when the method makes one; [steps] bounds the items that an
    iterator gives.  The constructor is [CUpdate] on a new dict, and calling
    the class for [fromkeys] makes an empty dict. *)
Definition run_call (steps fuel : nat) (mp : Z) (c : dict_call) : DM V E (option Z) :=
  let done {A} (m : DM V E A) := _ ← m; mret None in
  match c with
  | CSubscript key => done (chkdict_subscript inst fuel mp key)
  | CContains key => done (CiCheckedDict_Contains fuel mp key)
  | CSetItem key value => done (chkdict_ass_sub inst fuel mp key (Some value))
  | CDelItem key => done (chkdict_ass_sub inst fuel mp key None)
  | CGet key d => done (dict_get inst fuel mp [key; d])
  | CSetDefault key d => done (dict_setdefault_impl inst fuel mp [key; d])
  | CPop key d => done (dict_pop_impl fuel mp key d)
  | CPopItem => done (dict_popitem_impl mp)
  | CClear => done (dict_clear mp)
  | CUpdate as_seq arg kwds => done (chkdict_update_common_fast inst as_seq steps fuel mp arg kwds)
  | CCopy => c ← chkdict_copy fuel mp; mret (Some c)
  | CFromKeys iterable value => c ← chkdict_fromkeys inst steps fuel (chkdict_alloc 0) iterable value; mret (Some c)
  | CGetItemCompiled key => done (dict_subscript fuel mp key)
  | CGetCompiled key d => done (dict_get_impl fuel mp key d)
  | CSetItemCompiled key value => done (chkdict_ass_sub_unchecked fuel mp key value)
  end.
(** What the arguments run leaves the dicts alone; a checked dict is in shape;
    compiled code passes arguments of the types; a new dict is made in the main
    interpreter. *)
Definition call_ok (h : dheap V E) (c : dict_call) : Prop :=
  match c with
  | CUpdate as_seq arg kwds =>
      (∀ v, quiet (as_seq v)) ∧ (∀ a, arg = Some a -> update_ok h a) ∧
      (∀ valid m, kwds = Some (valid, m) -> quiet_mapping m)
  | CCopy => is_Some (dstate h)
  | CFromKeys iterable _ => is_Some (dstate h) ∧ quiet_iter iterable
  | CSetItemCompiled key value => typed (key, value)
  | _ => True
  end.
(** [mp] is of its types, and so is a new dict; nothing else has changed. *)
Definition call_kept (mp : Z) (h : dheap V E) (r : option Z) (h' : dheap V E) : Prop :=
  match r with None => kept mp h h' | Some c => c ≠ mp ∧ typed_dict h' mp ∧ made h h' c end.
Definition call_failed (mp : Z) (h h' : dheap V E) : Prop := typed_dict h' mp ∧ (only_dict mp h h' ∨ unmade h h').

Lemma keeps_done {A} mp (m : DM V E A) h :
  wpo True m (λ _ h', kept mp h h') (λ _ h', kept mp h h') h ->
  wpo True (_ ← m; mret None) (call_kept mp h) (λ _ h', call_failed mp h h') h.
Proof.
  intros Hm. apply wp_bind. eapply wp_conseq; [exact Hm| |].
  - intros a h' Hk. by apply wp_ret.
  - intros e h' [Ho Ht]. split; [done|by left].
Qed.
Lemma keeps_made mp (m : DM V E Z) h :
  typed_dict h mp -> wpo True m (λ c h', made h h' c) (λ _ h', unmade h h') h ->
  wpo True (c ← m; mret (Some c)) (call_kept mp h) (λ _ h', call_failed mp h h') h.
Proof.
  intros Hd Hm. apply wp_bind. eapply wp_conseq; [exact Hm| |].
  - intros c h' Hm'. pose proof Hm' as (Hc & (its & Ht & _) & Ho). pose proof (typed_present _ _ _ Hd Hc) as Hne.
    apply wp_ret. split_and!; [done| |done]. by eapply typed_other; [|exact Hne|apply Ht|].
  - intros e h' Hu. split; [|by right]. destruct Hu as [Hi [Ho|(c & Hc & _ & Ho)]].
    + by apply (typed_other (mp + 1) mp h); [|lia| |].
    + eapply typed_other; [done|by eapply typed_present|done|done].
Qed.
Lemma keeps_call steps fuel mp c h :
  (0 < fuel)%nat -> typed_dict h mp -> call_ok h c ->
  wpo True (run_call steps fuel mp c) (call_kept mp h) (λ _ h', call_failed mp h h') h.
Proof.
  intros Hf Hd Hc. destruct c; cbn [run_call]; first [apply keeps_made; [done|]|apply keeps_done].
  - by apply keeps_subscript.
  - by apply keeps_contains.
  - by apply keeps_ass_sub.
  - by apply keeps_ass_sub.
  - by apply dict_keeps_get.
  - by apply keeps_setdefault.
  - by apply keeps_pop.
  - by apply keeps_popitem.
  - by apply keeps_clear.
  - destruct Hc as (Hs & Ha & Hk). by apply keeps_update.
  - by apply copy_made.
  - destruct Hc as [Hs Hit]. apply fromkeys_made; [done| |done|done]. destruct Hd as (its & Hd & _). apply Hd.
  - by apply keeps_dict_subscript.
  - by apply keeps_lookup.
  - by apply keeps_unchecked.
Qed.

(** ** [setdefault] without a default *)

(** None is stored without a check. *)
Lemma setdefault_none_wp fuel mp key its h :
  dict_is h mp its -> (0 < fuel)%nat -> PyObject_TypeCheck key (gtp_type kparam) = true ->
  dget keq key (pairs its) = None ->
  wp (dict_setdefault_impl inst fuel mp [key])
    (λ v h', v = Py_None ∧ ∃ its' x, updated mp h h' its' x ∧ pairs its' = pairs its ++ [(key, Py_None)])
    (λ e _, e = PyErr MemoryError no_msg ∨ e = PyErr Foreign no_msg) h.
Proof.
  intros Hd Hf Hk Hg. unfold dict_setdefault_impl. apply wp_bind, wp_ret. apply wp_bind.
  unfold _PyClassLoader_CheckOneArg. change (Z.land Ci_Py_Sig_T0 Ci_Py_SIG_OPTIONAL =? 0) with true.
  rewrite andb_false_r. wp_step. eapply wp_lift; [done|]. rewrite Hk. apply wp_ret.
  apply wp_bind. eapply wp_conseq; [by apply (setdefault_wp Hwb fuel mp key Py_None h its)| |].
  - intros v h' (_ & its' & Hu & Hp). unfold setdefault_spec in Hp. rewrite Hg in Hp. injection Hp as -> Hp.
    apply wp_bind, wp_modify, wp_ret. split; [done|]. eexists its', _. split; [|done].
    apply (updated_incref _ _ _ _ Py_None Hu).
  - intros e h' [(_ & -> & _)|[-> _]]; auto.
Qed.
End safe.
