(* ===== verification/DictRefine.v ===== *)
(** * A checked dict implements an insertion-ordered association list

    The abstract dict, the operations of the C interface on it, and the
    simulation: any sequence of operations on the hash table answers what the
    same sequence answers on the association list, except where memory runs
    out, which changes nothing. *)

From stdpp Require Import base list gmap numbers strings sets.
From S2P Require Import Prelude TypeCheck DictProbe DictObject DictCore DictTable DictWf DictResize DictHeap DictGrow.
From S2P Require Import DictSpec DictOps DictDelete CheckedDict DictQuery.

Inductive dict_op (V : Type) :=
  | OpSet (key value : V)
  | OpSetDefault (key default_value : V)
  | OpPop (key : V) (default_value : option V)
  | OpPopItem
  | OpClear
  | OpGet (key default_value : V)
  | OpSubscript (key : V)
  | OpContains (key : V)
  | OpLength.
Arguments OpSet {V} _ _.
Arguments OpSetDefault {V} _ _.
Arguments OpPop {V} _ _.
Arguments OpPopItem {V}.
Arguments OpClear {V}.
Arguments OpGet {V} _ _.
Arguments OpSubscript {V} _.
Arguments OpContains {V} _.
Arguments OpLength {V}.
(** A result: [ABorrowed] is a reference the caller does not own. *)
Inductive dict_answer (V : Type) :=
  | ADone | AObject (v : V) | ABorrowed (v : V) | APair (key value : V) | ABool (b : bool) | ASize (n : Z).
Arguments ADone {V}.
Arguments AObject {V} v.
Arguments ABorrowed {V} v.
Arguments APair {V} key value.
Arguments ABool {V} b.
Arguments ASize {V} n.

(** ** The abstract dict *)
Section abstract.
Context {V : Type} (keq : V -> V -> bool) (khash : V -> option Z).
Implicit Types l : list (V * V).

Definition outcome_of : Type := (pyexn + dict_answer V) * list (V * V).
(** An operation with a key: an unhashable one raises. *)
Definition with_key (key : V) l (f : outcome_of) : outcome_of :=
  match khash key with None => (inl (PyErr Foreign no_msg), l) | Some _ => f end.
Definition pop_missing (default_value : option V) l : outcome_of :=
  (match default_value with Some v => inr (AObject v) | None => inl (PyErr KeyError no_msg) end, l).
Definition spec_op (op : dict_op V) l : outcome_of :=
  match op with
  | OpSet key value => with_key key l (inr ADone, dset keq key value l)
  | OpSetDefault key d =>
      with_key key l
        (match dget keq key l with
         | Some v => (inr (ABorrowed v), l)
         | None => (inr (ABorrowed d), l ++ [(key, d)])
         end)
  | OpPop key d =>
      match l with
      | [] => pop_missing d l
      | _ => with_key key l
               (match dget keq key l with
                | Some v => (inr (AObject v), ddel keq key l)
                | None => pop_missing d l
                end)
      end
  | OpPopItem =>
      match last l with
      | Some (key, value) => (inr (APair key value), removelast l)
      | None => (inl (PyErr KeyError "popitem(): dictionary is empty"), l)
      end
  | OpClear => (inr ADone, [])
  | OpGet key d => with_key key l (inr (AObject (default d (dget keq key l))), l)
  | OpSubscript key =>
      with_key key l
        (match dget keq key l with
         | Some v => inr (AObject v)
         | None => inl (PyErr KeyError no_msg)
         end, l)
  | OpContains key => with_key key l (inr (ABool (bool_decide (is_Some (dget keq key l)))), l)
  | OpLength => (inr (ASize (Zlen l)), l)
  end.

(** The answers that a sequence of operations may give: those of the abstract
    dict, or running out of memory, which leaves it as it was. *)
Inductive follows : list (dict_op V) -> list (V * V) -> list (pyexn + dict_answer V) -> list (V * V) -> Prop :=
  | follows_nil l : follows [] l [] l
  | follows_step op ops l r l1 rs l2 :
      spec_op op l = (r, l1) -> follows ops l1 rs l2 -> follows (op :: ops) l (r :: rs) l2
  | follows_no_memory op ops l rs l2 :
      follows ops l rs l2 -> follows (op :: ops) l (inl (PyErr MemoryError no_msg) :: rs) l2.
End abstract.

(** ** The operations of [checked_dict.c] *)
Section concrete.
Context {V E : Type} {api : DictApi V E} `{EqDecision V}.

Definition run_op (fuel : nat) (mp : Z) (op : dict_op V) : DM V E (dict_answer V) :=
  match op with
  | OpSet key value => _ ← Ci_CheckedDict_SetItem fuel mp key value; mret ADone
  | OpSetDefault key d => v ← Ci_CheckedDict_SetDefault fuel mp key d; mret (ABorrowed v)
  | OpPop key d => v ← Ci_CheckedDict_Pop fuel mp key d; mret (AObject v)
  | OpPopItem => '(key, value) ← dict_popitem_impl mp; mret (APair key value)
  | OpClear => _ ← Ci_CheckedDict_Clear mp; mret ADone
  | OpGet key d => v ← dict_get_impl fuel mp key d; mret (AObject v)
  | OpSubscript key => v ← dict_subscript fuel mp key; mret (AObject v)
  | OpContains key => b ← CiCheckedDict_Contains fuel mp key; mret (ABool b)
  | OpLength => n ← dict_length mp; mret (ASize n)
  end.
(** A program that runs them one after the other and looks at each result. *)
Fixpoint run_ops (fuel : nat) (mp : Z) (ops : list (dict_op V)) : DM V E (list (pyexn + dict_answer V)) :=
  match ops with
  | [] => mret []
  | op :: ops => r ← mtry (run_op fuel mp op); rs ← run_ops fuel mp ops; mret (r :: rs)
  end.
(** The references that a result gives its caller. *)
Definition given (r : pyexn + dict_answer V) (v : V) : Z :=
  match r with
  | inr (AObject w) => one w v
  | inr (APair key value) => one key v + one value v
  | _ => 0
  end.
Definition all_given (rs : list (pyexn + dict_answer V)) (v : V) : Z := foldr (λ r n, given r v + n) 0 rs.

Context {keq : V -> V -> bool} {khash : V -> option Z} (Hwb : well_behaved keq khash).
Abbreviation dict_is := (@dict_is V E api keq khash).
Abbreviation updated := (@updated V E api EqDecision0 keq khash).

(** ** The simulation *)

(** [op] goes from [its] to [its'] as the abstract dict does. *)
Definition simulates mp h its op (r : pyexn + dict_answer V) (h' : dheap V E) : Prop :=
  ∃ its', updated mp h h' its' (given r) ∧
    (spec_op keq khash op (pairs its) = (r, pairs its') ∨ r = inl (PyErr MemoryError no_msg) ∧ its' = its).

Lemma simulates_same mp h its op r h' x :
  spec_op keq khash op (pairs its) = (r, pairs its) -> updated mp h h' its x -> (∀ v, x v = given r v) ->
  simulates mp h its op r h'.
Proof. intros Hs Hu Hx. exists its. split; [by eapply updated_extra|by left]. Qed.
Lemma simulates_nomem mp h its op h' :
  updated mp h h' its (λ _, 0) -> simulates mp h its op (inl (PyErr MemoryError no_msg)) h'.
Proof. intros Hu. exists its. split; [done|by right]. Qed.
Lemma simulates_unhashable mp h its op key e h' :
  dict_is h mp its -> unhashable (khash := khash) key e h h' ->
  (khash key = None -> spec_op keq khash op (pairs its) = (inl (PyErr Foreign no_msg), pairs its)) ->
  simulates mp h its op (inl e) h'.
Proof.
  intros Hd (Hh & -> & ->) Hs. eapply simulates_same; [by apply Hs|by apply updated_refl|done].
Qed.
Lemma no_key key l f : khash key = None -> with_key khash key l f = (inl (PyErr Foreign no_msg), l).
Proof. intros Hh. unfold with_key. by rewrite Hh. Qed.
Lemma has_key key hash l f : khash key = Some hash -> with_key khash key l f = f.
Proof. intros Hh. unfold with_key. by rewrite Hh. Qed.

Lemma set_sim fuel mp key value h its :
  dict_is h mp its -> (0 < fuel)%nat ->
  wp (run_op fuel mp (OpSet key value)) (λ r, simulates mp h its (OpSet key value) (inr r))
    (λ e, simulates mp h its (OpSet key value) (inl e)) h.
Proof.
  intros Hd Hf. apply wp_bind, wp_bind, (wp_key_hash Hwb).
  2: { intros Hh. eapply simulates_unhashable; [done|by split_and!|]. by apply no_key. }
  intros hash Hh. eapply wp_conseq; [by apply (store_item_wp Hwb fuel mp key hash value h its)| |].
  - intros [] h' (its' & Hu & Hp). apply wp_ret. exists its'. split; [done|]. left. simpl. rewrite (has_key _ hash) by done.
    by rewrite Hp.
  - intros e h' [-> Hu]. by apply simulates_nomem.
Qed.
Lemma pop_sim fuel mp key d h its :
  dict_is h mp its -> (0 < fuel)%nat ->
  wp (run_op fuel mp (OpPop key d)) (λ r, simulates mp h its (OpPop key d) (inr r))
    (λ e, simulates mp h its (OpPop key d) (inl e)) h.
Proof.
  intros Hd Hf. destruct (dict_is_at _ _ _ Hd) as (o & k & [Hdm Hk] & Hwf & Hits).
  destruct (used_items o k Hwf) as [Hu _]. rewrite Hits in Hu.
  apply wp_bind. unfold Ci_CheckedDict_Pop. apply wp_bind, (wp_get_dict _ o _ _ _ Hdm).
  destruct (ma_used o =? 0) eqn:Hz; bool_to_prop.
  { rewrite Hu in Hz. apply Zlen_0_inv in Hz. subst its. rewrite Hz in *. destruct d as [v|].
    - apply wp_bind, wp_modify, wp_ret, wp_ret. eapply simulates_same; [done|by apply (updated_more _ _ _ [IncRef v])|].
      intros w. simpl. unfold one. lia.
    - apply wp_raise. eapply simulates_same; [done|by apply updated_refl|done]. }
  assert (Hne : ∀ (A : Type) (x y : A), match pairs its with [] => x | _ :: _ => y end = y).
  { intros A x y. destruct its as [|[[? ?] ?] ?]; [by rewrite Hu in Hz|done]. }
  apply wp_bind, (wp_key_hash Hwb).
  2: { intros Hh. eapply simulates_unhashable; [done|by split_and!|]. intros _. simpl. rewrite Hne. by apply no_key. }
  intros hash Hh. eapply wp_conseq; [by apply (pop_known_wp Hwb fuel mp key hash d h its)| |].
  - intros v h' Hv. apply wp_ret. destruct Hv as [(Hg & its' & Hp & Hup)|(Hg & -> & Hup)].
    + exists its'. split; [done|]. left. simpl. rewrite Hne, (has_key _ hash), Hg, Hp by done. done.
    + eapply simulates_same; [|exact Hup|done]. simpl. by rewrite Hne, (has_key _ hash), Hg by done.
  - intros e h' (-> & Hg & -> & Hup). eapply simulates_same; [|exact Hup|done]. simpl.
    by rewrite Hne, (has_key _ hash), Hg by done.
Qed.
Lemma op_sim fuel mp op h its :
  dict_is h mp its -> (0 < fuel)%nat ->
  wp (run_op fuel mp op) (λ r, simulates mp h its op (inr r)) (λ e, simulates mp h its op (inl e)) h.
Proof.
  intros Hd Hf. destruct op; [by apply set_sim| |by apply pop_sim| | | | | |]; cbn [run_op]; apply wp_bind.
  - eapply wp_conseq; [by apply (setdefault_wp Hwb fuel mp key default_value h its)| |].
    + intros v h' (Hh%not_eq_None_Some & its' & Hu & Hp). destruct Hh as [hash Hh]. apply wp_ret.
      exists its'. split; [done|]. unfold setdefault_spec in Hp. simpl. left. rewrite (has_key _ hash) by done.
      destruct (dget _ _ _); by injection Hp as -> ->.
    + intros e h' [He|[-> Hu]]; [eapply simulates_unhashable; [done|exact He|by apply no_key]|by apply simulates_nomem].
  - eapply wp_conseq; [by apply (popitem_wp Hwb mp h its)| |].
    + intros [key value] h' (x & its' & -> & Hu). apply wp_ret. exists its'. split; [done|]. left. simpl.
      rewrite pairs_app. simpl. rewrite last_snoc, removelast_last. done.
    + intros e h' [-> [->|[-> ->]]]; [by apply simulates_nomem, updated_refl|].
      eapply simulates_same; [done|by apply updated_refl|done].
  - eapply wp_conseq; [by apply (clear_wp Hwb mp h its)| |done].
    intros [] h' Hu. apply wp_ret. exists []. split; [done|by left].
  - eapply wp_conseq; [by apply (get_wp Hwb fuel mp key default_value h its)| |].
    + intros v h' (Hh%not_eq_None_Some & -> & Hu). destruct Hh as [hash Hh]. apply wp_ret.
      eapply simulates_same; [|exact Hu|done]. simpl. by rewrite (has_key _ hash).
    + intros e h' He. eapply simulates_unhashable; [done|exact He|by apply no_key].
  - eapply wp_conseq; [by apply (subscript_wp Hwb fuel mp key h its)| |].
    + intros v h' (Hh%not_eq_None_Some & Hg & Hu). destruct Hh as [hash Hh]. apply wp_ret.
      eapply simulates_same; [|exact Hu|done]. simpl. by rewrite (has_key _ hash), Hg.
    + intros e h' [He|(-> & Hh%not_eq_None_Some & Hg & Hu)]; [eapply simulates_unhashable; [done|exact He|by apply no_key]|].
      destruct Hh as [hash Hh]. eapply simulates_same; [|exact Hu|done]. simpl. by rewrite (has_key _ hash), Hg.
  - eapply wp_conseq; [by apply (contains_wp Hwb fuel mp key h its)| |].
    + intros b h' (Hh%not_eq_None_Some & -> & Hu). destruct Hh as [hash Hh]. apply wp_ret.
      eapply simulates_same; [|exact Hu|done]. simpl. by rewrite (has_key _ hash).
    + intros e h' He. eapply simulates_unhashable; [done|exact He|by apply no_key].
  - eapply wp_run; [by apply (length_run (keq := keq) (khash := khash) mp h its)|]. apply wp_ret. eapply simulates_same; [|by apply updated_refl|done].
    simpl. unfold pairs. by rewrite Zlen_fmap.
Qed.
Lemma ops_sim fuel mp ops h its :
  dict_is h mp its -> (0 < fuel)%nat ->
  wp (run_ops fuel mp ops)
    (λ rs h', ∃ its', updated mp h h' its' (all_given rs) ∧ follows keq khash ops (pairs its) rs (pairs its'))
    (λ _ _, False) h.
Proof.
  intros Hd Hf. revert h its Hd. induction ops as [|op ops IH]; intros h its Hd; cbn [run_ops].
  { apply wp_ret. exists its. split; [by apply updated_refl|constructor]. }
  apply wp_bind, wp_try.
  assert (Hrest : ∀ r h1, simulates mp h its op r h1 ->
    wp (rs ← run_ops fuel mp ops; mret (r :: rs))
      (λ rs h', ∃ its', updated mp h h' its' (all_given rs) ∧ follows keq khash (op :: ops) (pairs its) rs (pairs its'))
      (λ _ _, False) h1).
  { intros r h1 (its1 & H1 & Hs). apply wp_bind. eapply wp_conseq; [apply IH, H1| |done].
    intros rs h2 (its2 & H2 & Hf2). apply wp_ret. exists its2. split.
    - eapply updated_extra; [by eapply updated_trans|]. intros v. done.
    - destruct Hs as [Hs|[-> ->]]; [by eapply follows_step|by apply follows_no_memory]. }
  eapply wp_conseq; [by apply op_sim| |]; intros ? ? Hs; by apply Hrest.
Qed.
End concrete.
