(* ===== verification/DictDemo.v ===== *)
(** * A small interpreter for dicts: the objects are integers

    A concrete instance of the interface of [DictObject], in which allocations
    succeed: it shows that the documented behaviour the theorems rely on is
    satisfiable, and gives heaps to evaluate the model on. *)

From stdpp Require Import base list gmap numbers strings sets.
From S2P Require Import Prelude TypeCheck DictProbe DictObject DictCore DictTable DictWf DictResize DictHeap DictGrow.
From S2P Require Import DictSpec DictOps CheckedDict DictQuery DictRefine.

(** An address above all of a list. *)
Definition next_address (l : list Z) : Z := 1 + foldr Z.max 0 l.
Lemma next_address_above l a : a ∈ l -> a < next_address l.
Proof.
  unfold next_address. induction l as [|b l IH]; intros Ha; [set_solver|]. simpl.
  apply elem_of_cons in Ha as [->|Ha]; [lia|]. specialize (IH Ha). lia.
Qed.
Lemma next_address_pos l : 0 < next_address l.
Proof. unfold next_address. induction l; simpl; lia. Qed.
Definition addresses {A} (m : gmap Z A) : list Z := (map_to_list m).*1.
Lemma address_of {A} (m : gmap Z A) a x : m !! a = Some x -> a ∈ addresses m.
Proof. intros Hx. apply list_elem_of_fmap. exists (a, x). split; [done|]. by apply elem_of_map_to_list. Qed.

Section demo.
Abbreviation dheapZ := (dheap Z unit).
Implicit Types h : dheapZ.

Definition demo_keys_address h : Z :=
  next_address (addresses (keys h) ++ match dstate h with Some s => keys_free_list s | None => [] end).
Definition demo_dict_address h : Z :=
  next_address (addresses (dicts h) ++ match dstate h with Some s => free_list s | None => [] end).
Definition demo_malloc (bytes : Z) h : option Z * unit :=
  (if bytes <=? PY_SSIZE_T_MAX then Some (demo_keys_address h) else None, tt).

Lemma demo_fresh {A} (m : gmap Z A) l n a :
  a = next_address (addresses m ++ l) -> m !! a = None ∧ a ∉ take n l.
Proof.
  intros ->. split.
  - destruct (m !! _) as [x|] eqn:Hx; [|done]. exfalso. apply address_of in Hx.
    pose proof (next_address_above (addresses m ++ l) _ ltac:(apply elem_of_app; left; exact Hx)). lia.
  - intros (i & Hi & _)%elem_of_take. apply list_elem_of_lookup_2 in Hi.
    pose proof (next_address_above (addresses m ++ l) _ ltac:(apply elem_of_app; right; exact Hi)). lia.
Qed.
Lemma demo_malloc_fresh bytes h a :
  (demo_malloc bytes h).1 = Some a ->
  a ≠ Py_EMPTY_KEYS ∧ keys h !! a = None ∧
  match dstate h with
  | Some s => a ∉ take (Z.to_nat (keys_numfree s)) (keys_free_list s)
  | None => True
  end.
Proof.
  unfold demo_malloc. simpl. destruct (_ <=? _); [|done]. intros [= <-]. unfold demo_keys_address.
  destruct (dstate h) as [s|].
  - edestruct (demo_fresh (keys h) (keys_free_list s)) as [H1 H2]; [done|].
    split_and!; [|exact H1|exact H2]. pose proof (next_address_pos (addresses (keys h) ++ keys_free_list s)).
    unfold Py_EMPTY_KEYS. lia.
  - edestruct (demo_fresh (keys h) [] 0) as [H1 _]; [done|]. split_and!; [|exact H1|done].
    pose proof (next_address_pos (addresses (keys h) ++ [])). unfold Py_EMPTY_KEYS. lia.
Qed.
Lemma demo_malloc_limit bytes h : PY_SSIZE_T_MAX < bytes -> (demo_malloc bytes h).1 = None.
Proof. intros Hb. unfold demo_malloc. simpl. by rewrite (proj2 (Z.leb_gt _ _) Hb). Qed.
Lemma demo_gc_fresh h a h' :
  (Some (demo_dict_address h), h) = (Some a, h') -> dicts h' !! a = None ∧
  match dstate h' with
  | Some s => a ∉ take (Z.to_nat (numfree s)) (free_list s)
  | None => True
  end.
Proof.
  intros [= <- <-]. unfold demo_dict_address. destruct (dstate h) as [s|].
  - by edestruct (demo_fresh (dicts h) (free_list s)) as [H1 H2].
  - by edestruct (demo_fresh (dicts h) [] 0) as [H1 _].
Qed.

(** Integers from 100 on are strings; negative ones cannot be hashed. *)
Definition demo_string (v : Z) : option ustring := if 100 <=? v then Some (UString 1 1 [v]) else None.
Definition demo_hash (v : Z) : option Z := if v <? 0 then None else Some v.
#[export] Instance demo_api : DictApi Z unit := {
  dict_malloc := demo_malloc;
  dict_malloc_fresh := demo_malloc_fresh;
  dict_malloc_limit := demo_malloc_limit;
  gc_new h := (Some (demo_dict_address h), h);
  gc_new_fresh := demo_gc_fresh;
  PyUnicode := demo_string;
  str_hash v _ := v;
  rich_eq v w h := (Some (v =? w), h);
  run_hash v h := (demo_hash v, h);
  on_release _ h := h
}.
Lemma demo_well_behaved : well_behaved Z.eqb demo_hash.
Proof.
  split; simpl; try done.
  - intros v u e. unfold demo_string, demo_hash. destruct (100 <=? v) eqn:Hv; [|done]. bool_to_prop. intros _. right.
    by rewrite (proj2 (Z.ltb_ge _ _)) by lia.
  - apply Z.eqb_refl.
  - intros v w. apply Z.eqb_sym.
  - intros u v w H1 H2. bool_to_prop. subst. apply Z.eqb_refl.
  - intros v w H1. bool_to_prop. by subst.
  - intros v w a b. unfold demo_string. destruct (100 <=? v), (100 <=? w); try done. intros [= <-] [= <-].
    unfold ustring_eq, memeq. simpl. case_bool_decide as Hb; [injection Hb as ->; apply Z.eqb_refl|].
    apply Z.eqb_neq. by intros ->.
Qed.
(** None is 50; type 0 is the integers from 0 to 49, type 1 the strings, type 2
    the unhashable objects. *)
#[export] Instance demo_tapi : TypeApi Z := {|
  Py_None := 50;
  PyObject_TypeCheck v ty := if ty =? 0 then (0 <=? v) && (v <? 50) else if ty =? 2 then v <? 0 else 100 <=? v
|}.
Definition demo_int : gparam := GParam 0 false.
Definition demo_str : gparam := GParam 1 false.
Definition demo_unhashable : gparam := GParam 2 false.

(** Two empty dicts, at 1 and 2. *)
Definition demo_state : dict_state := DictState (replicate 80 0) 0 (replicate 80 0) 0.
Definition demo_start : dheapZ :=
  let d := DictObj 0 Py_EMPTY_KEYS EmptyValues in
  DHeap {[1 := d; 2 := d]} {[Py_EMPTY_KEYS := empty_keys_struct 3]} (Some demo_state) [] tt.
Lemma demo_start_inv : heap_inv demo_start.
Proof.
  assert (Hd : ∀ mp d, dicts demo_start !! mp = Some d -> d = DictObj 0 Py_EMPTY_KEYS EmptyValues).
  { intros mp d. unfold demo_start. simpl. rewrite lookup_insert_Some, lookup_singleton_Some. naive_solver. }
  split.
  - intros mp d ->%Hd. exists (empty_keys_struct 3). split; [done|]. by left.
  - intros mp1 mp2 d1 d2 ->%Hd. done.
  - exists 3. split; [done|]. by vm_compute.
  - split; simpl; try done; try lia. + constructor. + intros a Ha. by apply elem_of_nil in Ha.
  - split; simpl; [constructor|]. intros a Ha. by apply elem_of_nil in Ha.
Qed.
Lemma demo_start_is mp : mp = 1 ∨ mp = 2 -> @dict_is Z unit demo_api Z.eqb demo_hash demo_start mp [].
Proof.
  intros Hmp. split; [apply demo_start_inv| | |apply (items_ok_nil demo_well_behaved)].
  - destruct Hmp as [-> | ->]; by eexists.
  - by destruct Hmp as [-> | ->].
Qed.

(** The state after some operations. *)
Definition after (mp : Z) (ops : list (dict_op Z)) h : dheapZ :=
  match run_ops 1 mp ops h with Ret _ h' => h' | _ => h end.
Lemma after_is mp ops h its :
  @dict_is Z unit demo_api Z.eqb demo_hash h mp its ->
  let h' := after mp ops h in
  @dict_is Z unit demo_api Z.eqb demo_hash h' mp (dict_items h' mp) ∧
  ∀ mp' its', mp' ≠ mp -> @dict_is Z unit demo_api Z.eqb demo_hash h mp' its' ->
    @dict_is Z unit demo_api Z.eqb demo_hash h' mp' its'.
Proof.
  intros Hd h'. unfold h', after. pose proof (ops_sim demo_well_behaved 1 mp ops h its Hd ltac:(lia)) as Hsim.
  unfold wpo in Hsim. destruct (run_ops 1 mp ops h) as [rs h1|e h1| |]; [|done|done|done].
  destruct Hsim as (its1 & [Hd1 Ho1 _] & _). split.
  - rewrite (di_items _ _ _ Hd1). exact Hd1.
  - intros mp' its' Hne Hd'. destruct (dict_is_at _ _ _ Hd') as (d & k & [Hdm Hk] & Hwf & Hits). split.
    + apply Hd1.
    + exists d. by rewrite (od_dicts _ _ _ Ho1).
    + rewrite <- (di_items _ _ _ Hd'). by apply (only_dict_items mp); [|apply Hd|apply Hd1|].
    + apply Hd'.
Qed.
(** Dict 1 is [{1: 'a', 2: 'b', 3: 'c'}] and dict 2 is [{3: 'd', 9: 'e'}]. *)
Definition demo_one : dheapZ := after 1 [OpSet 1 101; OpSet 2 102; OpSet 3 103] demo_start.
Definition demo_two : dheapZ := after 2 [OpSet 3 104; OpSet 9 105] demo_one.
Definition demo_items1 : list (Z * Z * Z) := [(1, 1, 101); (2, 2, 102); (3, 3, 103)].
Definition demo_items2 : list (Z * Z * Z) := [(3, 3, 104); (9, 9, 105)].
Lemma demo_one_is :
  @dict_is Z unit demo_api Z.eqb demo_hash demo_one 1 demo_items1 ∧
  @dict_is Z unit demo_api Z.eqb demo_hash demo_one 2 [].
Proof.
  destruct (after_is 1 [OpSet 1 101; OpSet 2 102; OpSet 3 103] demo_start []) as [H1 H2]; [by apply demo_start_is; left|].
  split; [exact H1|]. apply H2; [done|]. by apply demo_start_is; right.
Qed.
Lemma demo_two_is :
  @dict_is Z unit demo_api Z.eqb demo_hash demo_two 1 demo_items1 ∧
  @dict_is Z unit demo_api Z.eqb demo_hash demo_two 2 demo_items2.
Proof.
  destruct demo_one_is as [H1 H2]. destruct (after_is 2 [OpSet 3 104; OpSet 9 105] demo_one [] H2) as [H3 H4].
  split; [by apply H4|exact H3].
Qed.
End demo.
#[global] Opaque demo_one demo_two.
