(* ===== verification/SortSpec.v ===== *)
(** * What sorting means: the abstract side of [list.sort]

    Key orders (strict weak orders as boolean tests), sorted lists of
    key/value cells, and stability: a rearrangement is stable when, for every
    key, the elements equivalent to that key keep their relative order. *)

From stdpp Require Import base sets list numbers sorting.
From S2P Require Import Prelude.

(** A boolean [<] whose complement is a total preorder. *)
Class StrictWeakOrder {V : Type} (lt : V -> V -> bool) : Prop := {
  swo_asym : ∀ x y, lt x y = true -> lt y x = false;
  swo_ntrans : ∀ x y z, lt x y = false -> lt y z = false -> lt x z = false
}.

Section spec.
Context {V : Type} (lt : V -> V -> bool).

(** A cell: a key and the value that moves with it. *)
Abbreviation cell := (V * V)%type.

Definition cle (c d : cell) : Prop := lt d.1 c.1 = false.
Definition clt (c d : cell) : Prop := lt c.1 d.1 = true.
Definition equivk (k : V) (c : cell) : bool :=
  negb (lt k c.1) && negb (lt c.1 k).
Definition sorted_cells (C : list cell) : Prop := StronglySorted cle C.
Definition stable (C D : list cell) : Prop :=
  ∀ k, filter (λ c, equivk k c = true) D = filter (λ c, equivk k c = true) C.

(** Every element of [C] is before, resp. strictly before, every one of [D]. *)
Definition all_le (C D : list cell) : Prop := ∀ c d, c ∈ C -> d ∈ D -> cle c d.
Definition all_lt (C D : list cell) : Prop := ∀ c d, c ∈ C -> d ∈ D -> clt c d.

(** ** Stability is a congruence *)
#[export] Instance stable_equiv : Equivalence stable.
Proof.
  split; [intros C k|intros C D H k|intros C D F H1 H2 k]; [done|by rewrite H|].
  by rewrite H2.
Qed.
#[export] Instance stable_app : Proper (stable ==> stable ==> stable) (@app cell).
Proof. intros C C' H1 D D' H2 k. by rewrite !filter_app, H1, H2. Qed.

Context `{!StrictWeakOrder lt}.

Lemma lt_irrefl x : lt x x = false.
Proof. destruct (lt x x) eqn:H; [|done]. by rewrite (swo_asym _ _ H) in H. Qed.
Lemma clt_cle c d : clt c d -> cle c d.
Proof. apply swo_asym. Qed.
Lemma cle_refl c : cle c c.
Proof. apply lt_irrefl. Qed.
Lemma cle_trans c d e : cle c d -> cle d e -> cle c e.
Proof. unfold cle. intros H1 H2. exact (swo_ntrans _ _ _ H2 H1). Qed.
Lemma clt_cle_trans c d e : clt c d -> cle d e -> clt c e.
Proof.
  unfold clt, cle. intros H1 H2. destruct (lt c.1 e.1) eqn:H; [done|].
  by rewrite (swo_ntrans _ _ _ H H2) in H1.
Qed.
Lemma cle_clt_trans c d e : cle c d -> clt d e -> clt c e.
Proof.
  unfold clt, cle. intros H1 H2. destruct (lt c.1 e.1) eqn:H; [done|].
  by rewrite (swo_ntrans _ _ _ H1 H) in H2.
Qed.
Lemma clt_trans c d e : clt c d -> clt d e -> clt c e.
Proof. intros H1 H2. eapply clt_cle_trans; [done|by apply clt_cle]. Qed.
Lemma cle_total c d : cle c d ∨ clt d c.
Proof. unfold cle, clt. destruct (lt d.1 c.1); auto. Qed.

#[export] Instance cle_preorder : PreOrder cle.
Proof. split; [intros ?; apply cle_refl|intros ???; apply cle_trans]. Qed.
#[export] Instance clt_transitive : Transitive clt.
Proof. intros ???; apply clt_trans. Qed.

(** Moving a block across strictly larger elements is stable. *)
Lemma stable_swap C D : all_lt D C -> stable (C ++ D) (D ++ C).
Proof.
  intros H k. rewrite !filter_app.
  destruct (filter _ C) as [|c C'] eqn:HC; [by rewrite app_nil_r|].
  destruct (filter _ D) as [|d D'] eqn:HD; [by rewrite app_nil_r|]. exfalso.
  assert (c ∈ filter (λ c, equivk k c = true) C) as Hc by (rewrite HC; set_solver).
  assert (d ∈ filter (λ c, equivk k c = true) D) as Hd by (rewrite HD; set_solver).
  apply list_elem_of_filter in Hc as [Hc ?], Hd as [Hd ?].
  specialize (H d c ltac:(done) ltac:(done)). unfold equivk, clt in *.
  apply andb_prop in Hc as [Hc1 Hc2], Hd as [Hd1 Hd2].
  apply negb_true_iff in Hc1, Hc2, Hd1, Hd2.
  rewrite (swo_ntrans _ _ _ Hd2 Hc1) in H. done.
Qed.

(** A strictly descending list can be reversed stably. *)
Lemma stable_reverse C : StronglySorted (flip clt) C -> stable C (reverse C).
Proof.
  induction 1 as [|c C Hs IH Hc]; [done|].
  rewrite reverse_cons.
  transitivity (C ++ [c]); [|by apply stable_app; [apply IH|reflexivity]].
  apply (stable_swap [c] C). intros d c' Hd ->%list_elem_of_singleton.
  rewrite Forall_forall in Hc. by apply Hc.
Qed.

(** ** Sorted lists *)
Lemma sorted_app C D :
  sorted_cells (C ++ D) <-> sorted_cells C ∧ sorted_cells D ∧ all_le C D.
Proof.
  unfold sorted_cells, all_le. induction C as [|c C IH]; simpl.
  - split; [intros H; split_and!; [constructor|done|set_solver]|naive_solver].
  - split.
    + intros [H1 H2]%StronglySorted_inv. apply IH in H1 as (H3&H4&H5).
      apply Forall_app in H2 as [H2 H6]. split_and!; [by constructor|done|].
      intros x y [->|Hx]%elem_of_cons Hy; [|by eauto].
      rewrite Forall_forall in H6. by apply H6.
    + intros ([H1 H2]%StronglySorted_inv & H3 & H4). constructor.
      * apply IH. split_and!; [done..|]. set_solver.
      * apply Forall_app. split; [done|]. apply Forall_forall. set_solver.
Qed.
Lemma sorted_cons c C : sorted_cells (c :: C) <-> sorted_cells C ∧ all_le [c] C.
Proof.
  rewrite (sorted_app [c] C). split; [naive_solver|].
  intros []; split_and!; [repeat constructor|done|done].
Qed.
Lemma sorted_nil : sorted_cells [].
Proof. constructor. Qed.
Lemma sorted_singleton c : sorted_cells [c].
Proof. repeat constructor. Qed.
Lemma sorted_reverse C : StronglySorted (flip clt) C -> sorted_cells (reverse C).
Proof.
  induction 1 as [|c C Hs IH Hc]; [constructor|].
  rewrite reverse_cons. apply sorted_app. split_and!; [done|apply sorted_singleton|].
  intros d c' Hd ->%list_elem_of_singleton. rewrite elem_of_reverse in Hd.
  rewrite Forall_forall in Hc. apply clt_cle. by apply Hc.
Qed.

Lemma all_le_app_l C D F : all_le (C ++ D) F <-> all_le C F ∧ all_le D F.
Proof. unfold all_le. setoid_rewrite elem_of_app. naive_solver. Qed.
Lemma all_le_app_r C D F : all_le C (D ++ F) <-> all_le C D ∧ all_le C F.
Proof. unfold all_le. setoid_rewrite elem_of_app. naive_solver. Qed.
Lemma all_lt_app_l C D F : all_lt (C ++ D) F <-> all_lt C F ∧ all_lt D F.
Proof. unfold all_lt. setoid_rewrite elem_of_app. naive_solver. Qed.
Lemma all_lt_app_r C D F : all_lt C (D ++ F) <-> all_lt C D ∧ all_lt C F.
Proof. unfold all_lt. setoid_rewrite elem_of_app. naive_solver. Qed.
Lemma all_lt_all_le C D : all_lt C D -> all_le C D.
Proof. intros H c d ??. by apply clt_cle, H. Qed.
Lemma all_le_nil_l C : all_le [] C.
Proof. intros ??. set_solver. Qed.
Lemma all_le_nil_r C : all_le C [].
Proof. intros ??. set_solver. Qed.
Lemma all_lt_nil_l C : all_lt [] C.
Proof. intros ??. set_solver. Qed.
Lemma all_lt_nil_r C : all_lt C [].
Proof. intros ??. set_solver. Qed.
(** In a sorted list everything is after the head and before the last. *)
Lemma all_lt_hd D c C : sorted_cells (c :: C) -> all_lt D [c] -> all_lt D (c :: C).
Proof.
  intros [_ H]%sorted_cons HD d c' Hd [->|Hc]%elem_of_cons; [by apply HD; set_solver|].
  eapply clt_cle_trans; [apply (HD d c)|apply (H c c')]; set_solver.
Qed.
Lemma all_le_hd D c C : sorted_cells (c :: C) -> all_le D [c] -> all_le D (c :: C).
Proof.
  intros [_ H]%sorted_cons HD d c' Hd [->|Hc]%elem_of_cons; [by apply HD; set_solver|].
  eapply cle_trans; [apply (HD d c)|apply (H c c')]; set_solver.
Qed.
Lemma all_lt_last C c D : sorted_cells (C ++ [c]) -> all_lt [c] D -> all_lt (C ++ [c]) D.
Proof.
  intros (_&_&H)%sorted_app HD d c' [Hd|Hd]%elem_of_app Hc.
  - eapply cle_clt_trans; [apply (H d c)|apply (HD c c')]; set_solver.
  - apply list_elem_of_singleton in Hd as ->. apply HD; set_solver.
Qed.
Lemma all_le_last C c D : sorted_cells (C ++ [c]) -> all_le [c] D -> all_le (C ++ [c]) D.
Proof.
  intros (_&_&H)%sorted_app HD d c' [Hd|Hd]%elem_of_app Hc.
  - eapply cle_trans; [apply (H d c)|apply (HD c c')]; set_solver.
  - apply list_elem_of_singleton in Hd as ->. apply HD; set_solver.
Qed.

(** ** Uniqueness: sortedness and stability determine the result *)
Lemma stable_cons_inv c C D : stable (c :: C) (c :: D) -> stable C D.
Proof.
  intros H k. specialize (H k). rewrite !filter_cons in H.
  case_decide; [by injection H|done].
Qed.
Lemma stable_elem C D c : stable C D -> c ∈ D -> c ∈ C.
Proof.
  intros H Hc.
  assert (c ∈ filter (λ d, equivk c.1 d = true) D) as Hf.
  { apply list_elem_of_filter. split; [|done]. unfold equivk. by rewrite lt_irrefl. }
  rewrite H in Hf. by apply list_elem_of_filter in Hf as [_ ?].
Qed.
Lemma stable_nil_inv C : stable [] C -> C = [].
Proof.
  intros H. destruct C as [|c C]; [done|].
  assert (c ∈ @nil cell) as Hc by (eapply stable_elem; [done|set_solver]). set_solver.
Qed.
Theorem stable_sorted_unique C D :
  stable C D -> sorted_cells C -> sorted_cells D -> C = D.
Proof.
  revert D. induction C as [|c C IH]; intros D Hst HC HD.
  { by apply stable_nil_inv in Hst. }
  destruct D as [|d D].
  { symmetry in Hst. by apply stable_nil_inv in Hst. }
  assert (c = d) as ->.
  { apply sorted_cons in HC as [_ HC]. apply sorted_cons in HD as [_ HD].
    assert (cle d c) as Hdc.
    { symmetry in Hst. assert (c ∈ d :: D) as [->|Hc]%elem_of_cons by
        (eapply stable_elem; [done|set_solver]); [apply cle_refl|].
      apply HD; set_solver. }
    assert (cle c d) as Hcd.
    { assert (d ∈ c :: C) as [->|Hc]%elem_of_cons by
        (eapply stable_elem; [done|set_solver]); [apply cle_refl|].
      apply HC; set_solver. }
    specialize (Hst d.1). unfold equivk, cle in *.
    rewrite !filter_cons in Hst. rewrite Hcd, Hdc, lt_irrefl in Hst. simpl in Hst.
    congruence. }
  f_equal. apply IH; [by eapply stable_cons_inv|..];
    [by apply sorted_cons in HC as [? _]|by apply sorted_cons in HD as [? _]].
Qed.
End spec.
#[global] Arguments cle_trans {V lt _}.

(** A rearrangement: nothing lost or duplicated, and stable when [ordered]. *)
Definition rearr {V} (ordered : Prop) (lt : V -> V -> bool) (C D : list (V * V)) : Prop :=
  C ≡ₚ D ∧ (ordered -> stable lt C D).

Section rearr.
Context {V : Type} (ordered : Prop) (lt : V -> V -> bool).

#[export] Instance rearr_equiv : Equivalence (rearr ordered lt).
Proof.
  split.
  - intros C. split; [done|]. intros _. reflexivity.
  - intros C D [H1 H2]. split; [done|]. intros Ho. symmetry. auto.
  - intros C D F [H1 H2] [H3 H4]. split; [by transitivity D|].
    intros Ho. transitivity D; auto.
Qed.
#[export] Instance rearr_app :
  Proper (rearr ordered lt ==> rearr ordered lt ==> rearr ordered lt) (@app (V * V)).
Proof.
  intros C C' [H1 H2] D D' [H3 H4]. split; [by rewrite H1, H3|].
  intros Ho. apply stable_app; auto.
Qed.
Lemma rearr_Forall (Q : V * V -> Prop) C D :
  rearr ordered lt C D -> Forall Q C -> Forall Q D.
Proof. intros [H _]. by rewrite H. Qed.
Lemma rearr_Zlen C D : rearr ordered lt C D -> Zlen C = Zlen D.
Proof. intros [H _]. by apply Zlen_perm. Qed.

Context `{!StrictWeakOrder lt}.
Lemma rearr_swap C D : (ordered -> all_lt lt D C) -> rearr ordered lt (C ++ D) (D ++ C).
Proof. intros H. split; [apply Permutation_app_comm|]. intros Ho. by apply stable_swap, H. Qed.
Lemma rearr_reverse C :
  (ordered -> StronglySorted (flip (clt lt)) C) -> rearr ordered lt C (reverse C).
Proof.
  intros H. split; [by rewrite reverse_Permutation|]. intros Ho. by apply stable_reverse, H.
Qed.
End rearr.
