(* ===== verification/SortMem.v ===== *)
(** * The memory of the merge sort: sort slices, the merge state and comparison

    [struct sortslice], [struct s_slice], [struct s_MergeState] and the
    [sortslice_*] routines of [checked_list.c].  Keys and values live in two
    parallel arrays; the sort works on two such pairs of arrays, the array
    being sorted ([Main]) and the merge buffer [ms->a] ([Tmp]). *)

From stdpp Require Import base sets list numbers sorting.
From S2P Require Import Prelude PyHeap SortSpec.

Inductive which := Main | Tmp.
#[export] Instance which_eq_dec : EqDecision which.
Proof. solve_decision. Defined.

(** A pair of parallel arrays; [vs = None] when the values pointer is NULL
    and the keys are also the values. *)
Record sarr (V : Type) := SArr { ks : list V; vs : option (list V) }.
Arguments SArr {V} _ _.
Arguments ks {V} _.
Arguments vs {V} _.

(** [sortslice]: a position in one of the two pairs of arrays.  The [keys] and
    the [values] pointer always have the same offset from their arrays. *)
Record sortslice := Slice { pw : which; po : Z }.
#[export] Instance sortslice_eq_dec : EqDecision sortslice.
Proof. solve_decision. Defined.

(** [struct s_slice]: a pending run. *)
Record s_slice := Run { base : sortslice; len : Z }.

Definition MAX_MERGE_PENDING : Z := 85.
Definition MIN_GALLOP : Z := 7.
Definition MERGESTATE_TEMP_SIZE : Z := 256.

(** [MergeState] without its buffer and its comparison function, which are
    the [tmp] field below and a parameter of the sort. [on_stack] is
    [ms->a.keys == ms->temparray]; [pending] is the array of 85 runs of which
    the first [nrun] are in use. *)
Record MergeState := MkMS {
  min_gallop : Z;
  on_stack : bool;
  alloced : Z;
  nrun : Z;
  pending : list s_slice
}.

Record sortst (V E : Type) := SortSt {
  hp : heap V E;
  main : sarr V;
  tmp : sarr V;
  ms : MergeState
}.
Arguments SortSt {V E} _ _ _ _.
Arguments hp {V E} _.
Arguments main {V E} _.
Arguments tmp {V E} _.
Arguments ms {V E} _.

Definition SM (V E A : Type) : Type := M (sortst V E) A.

Definition sortslice_advance (s : sortslice) (n : Z) : sortslice :=
  Slice (pw s) (po s + n).

Section mem.
Context {V E : Type} {api : PyApi V E}.

Definition set_hp (h : heap V E) (s : sortst V E) : sortst V E :=
  SortSt h (main s) (tmp s) (ms s).
Definition set_ms (m : MergeState) (s : sortst V E) : sortst V E :=
  SortSt (hp s) (main s) (tmp s) m.
Definition getarr (w : which) (s : sortst V E) : sarr V :=
  match w with Main => main s | Tmp => tmp s end.
Definition setarr (w : which) (a : sarr V) (s : sortst V E) : sortst V E :=
  match w with
  | Main => SortSt (hp s) a (tmp s) (ms s)
  | Tmp => SortSt (hp s) (main s) a (ms s)
  end.

(** [if (x->values != NULL)] the same access on the values. *)
Definition on_values (f : list V -> list V -> option (list V)) (d s : option (list V))
    : option (option (list V)) :=
  match d, s with
  | None, _ => Some None
  | Some d, Some s => Some <$> f d s
  | Some _, None => None
  end.

(** One slot, or a block of slots, moved between parallel arrays. *)
Definition copy1 (d : list V) (i : Z) (s : list V) (j : Z) : option (list V) :=
  x ← aget s j; aset d i x.
Definition sa_copy (d : sarr V) (i : Z) (s : sarr V) (j : Z) : option (sarr V) :=
  k ← copy1 (ks d) i (ks s) j;
  v ← on_values (λ d s, copy1 d i s j) (vs d) (vs s);
  Some (SArr k v).
Definition sa_blit (d : sarr V) (i : Z) (s : sarr V) (j n : Z) : option (sarr V) :=
  k ← blit (ks d) i (ks s) j n;
  v ← on_values (λ d s, blit d i s j n) (vs d) (vs s);
  Some (SArr k v).

Definition sortslice_copy (s1 : sortslice) (i : Z) (s2 : sortslice) (j : Z)
    : SM V E unit :=
  s ← mget;
  a ← mlift (sa_copy (getarr (pw s1) s) (po s1 + i) (getarr (pw s2) s) (po s2 + j));
  mput (setarr (pw s1) a s).

(** Both pointers are advanced; the new pointers are returned. *)
Definition sortslice_copy_incr (dst src : sortslice) : SM V E (sortslice * sortslice) :=
  _ ← sortslice_copy dst 0 src 0;
  mret (sortslice_advance dst 1, sortslice_advance src 1).
Definition sortslice_copy_decr (dst src : sortslice) : SM V E (sortslice * sortslice) :=
  _ ← sortslice_copy dst 0 src 0;
  mret (sortslice_advance dst (-1), sortslice_advance src (-1)).

Definition sortslice_memmove (s1 : sortslice) (i : Z) (s2 : sortslice) (j n : Z)
    : SM V E unit :=
  s ← mget;
  a ← mlift (sa_blit (getarr (pw s1) s) (po s1 + i) (getarr (pw s2) s) (po s2 + j) n);
  mput (setarr (pw s1) a s).

(** [memcpy] is undefined on overlapping blocks. *)
Definition overlap (s1 : sortslice) (i : Z) (s2 : sortslice) (j n : Z) : bool :=
  bool_decide (pw s1 = pw s2 ∧ Z.abs (po s1 + i - (po s2 + j)) < n).
Definition sortslice_memcpy (s1 : sortslice) (i : Z) (s2 : sortslice) (j n : Z)
    : SM V E unit :=
  if overlap s1 i s2 j n then mstuck else sortslice_memmove s1 i s2 j n.

(** [s.keys[i]]. *)
Definition key_at (s : sortslice) (i : Z) : SM V E V :=
  st ← mget; mlift (aget (ks (getarr (pw s) st)) (po s + i)).

Definition get_ms : SM V E MergeState := λ s, Ret (ms s) s.
Definition put_ms (m : MergeState) : SM V E unit := mmodify (set_ms m).
Definition set_min_gallop (g : Z) : SM V E unit :=
  m ← get_ms; put_ms (MkMS g (on_stack m) (alloced m) (nrun m) (pending m)).

(** A routine on the list and the interpreter, run by the sort. *)
Definition in_heap {A} (m : PM V E A) : SM V E A := λ s,
  match m (hp s) with
  | Ret a h => Ret a (set_hp h s)
  | Exn e h => Exn e (set_hp h s)
  | Stuck => Stuck
  | NoFuel => NoFuel
  end.
(** [ISLT(X, Y)]: the comparison function chosen for this sort. *)
Definition compare_fn : Type := V -> V -> PM V E bool.
Definition ISLT (key_compare : compare_fn) (x y : V) : SM V E bool := in_heap (key_compare x y).

(** [merge_init]: the buffer starts on the stack; with a key function its
    [MERGESTATE_TEMP_SIZE] slots are shared between keys and values. *)
Definition merge_init (list_size : Z) (has_keyfunc : bool) : MergeState * sarr V :=
  let al :=
    if has_keyfunc then
      let al := (list_size + 1) `div` 2 in
      if MERGESTATE_TEMP_SIZE `div` 2 <? al then MERGESTATE_TEMP_SIZE `div` 2 else al
    else MERGESTATE_TEMP_SIZE in
  let buf := replicate (Z.to_nat al) junk in
  (MkMS MIN_GALLOP true al 0
     (replicate (Z.to_nat MAX_MERGE_PENDING) (Run (Slice Main 0) 0)),
   SArr buf (if has_keyfunc then Some buf else None)).

(** The parts of [ms->temparray] that are in use, each with its first slot and
    its length.  The model has a list per part, with its bounds; [regions_ok] is
    what makes that the same as one array: the parts lie in it and apart. *)
Record region := Region { r_at : Z; r_len : Z }.
Definition region_fits (r : region) : bool :=
  (0 <=? r_at r) && (0 <=? r_len r) && (r_at r + r_len r <=? MERGESTATE_TEMP_SIZE).
Definition apart (r q : region) : bool :=
  (r_at r + r_len r <=? r_at q) || (r_at q + r_len q <=? r_at r).
Fixpoint regions_ok (rs : list region) : bool :=
  match rs with
  | [] => true
  | r :: rs => region_fits r && forallb (apart r) rs && regions_ok rs
  end.
(** [a.keys = temparray] and [a.values = &temparray[alloced]]. *)
Definition merge_init_regions (alloced : Z) (has_keyfunc : bool) : list region :=
  Region 0 alloced :: (if has_keyfunc then [Region alloced alloced] else []).

(** A NULL buffer has no slot. *)
Definition null_arr (a : sarr V) : sarr V :=
  SArr [] (match vs a with Some _ => Some [] | None => None end).

Definition merge_freemem : SM V E unit :=
  s ← mget;
  if on_stack (ms s) then mret tt else mput (setarr Tmp (null_arr (tmp s)) s).

(** [merge_getmem]: room for [need] slots, without keeping the old ones. *)
Definition merge_getmem (need : Z) : SM V E unit :=
  m ← get_ms;
  if need <=? alloced m then mret tt
  else
    s ← mget;
    let multiplier := match vs (tmp s) with Some _ => 2 | None => 1 end in
    _ ← merge_freemem;
    if PY_SSIZE_T_MAX `div` SIZEOF_PTR `div` multiplier <? size_t need
    then mraise MemoryError no_msg
    else
      s ← mget;
      let '(ok, e) := py_malloc (multiplier * need * SIZEOF_PTR) (env (hp s)) in
      let h := set_env e (hp s) in
      let m := ms s in
      if ok : bool then
        let buf := replicate (Z.to_nat need) junk in
        mput (SortSt h (main s)
          (SArr buf (match vs (tmp s) with Some _ => Some buf | None => None end))
          (MkMS (min_gallop m) false need (nrun m) (pending m)))
      else
        _ ← mput (SortSt h (main s) (null_arr (tmp s))
               (MkMS (min_gallop m) false (alloced m) (nrun m) (pending m)));
        mraise MemoryError no_msg.
Definition MERGE_GETMEM (need : Z) : SM V E unit :=
  m ← get_ms; if need <=? alloced m then mret tt else merge_getmem need.
End mem.
#[global] Arguments compare_fn : clear implicits.

(** ** Reasoning about the two arrays as lists of cells

    [arr_of hv C] lays the key/value cells [C] out in memory: with [hv] as two
    parallel arrays, without it as one array of keys. *)
Definition arr_of {V} (hv : bool) (C : list (V * V)) : sarr V :=
  SArr (fst <$> C) (if hv then Some (snd <$> C) else None).
Definition st {V E} (hv : bool) (h : heap V E) (CM CT : list (V * V)) (m : MergeState)
    : sortst V E :=
  SortSt h (arr_of hv CM) (arr_of hv CT) m.
Definition sel {A} (w : which) (m t : A) : A :=
  match w with Main => m | Tmp => t end.

(** Pointer arithmetic. *)
Ltac slia := cbn [po pw sortslice_advance] in *; zlia.

(** What is known of a comparison function: on the keys satisfying [P] it
    runs, its assertions hold, and when [ordered] it answers [lt] and never
    raises; otherwise its answers mean nothing. *)
Record cmp_ok {V E} (key_compare : compare_fn V E) (ordered : Prop)
    (P : V -> Prop) (lt : V -> V -> bool) : Prop := {
  cmp_swo : StrictWeakOrder lt;
  cmp_runs : ∀ x y h, P x -> P y -> wp (key_compare x y) (λ _ _, True) (λ _ _, True) h;
  cmp_agree : ordered -> ∀ x y h, P x -> P y -> ∃ h', key_compare x y h = Ret (lt x y) h'
}.

(** How a routine may fail: only when the comparison is not [ordered]. *)
Definition failed {V E} (ordered : Prop) (Q : sortst V E -> Prop)
    (e : pyexn) (s' : sortst V E) : Prop := ¬ ordered ∧ Q s'.
(** The routine ran comparisons and touched nothing else. *)
Definition heap_only {V E} (s s' : sortst V E) : Prop := ∃ h, s' = set_hp h s.

(** Merge states that differ at most in the buffer and in [min_gallop]. *)
Definition runs_same (m m' : MergeState) : Prop :=
  nrun m' = nrun m ∧ pending m' = pending m.

Section mem_facts.
Context {V E : Type} {api : PyApi V E} {nf : Prop}.
Implicit Types (CM CT C : list (V * V)) (Q : unit -> sortst V E -> Prop).

Lemma ks_arr_of hv C : ks (arr_of hv C) = fst <$> C.
Proof. done. Qed.
Lemma getarr_st w hv (h : heap V E) CM CT m :
  getarr w (st hv h CM CT m) = arr_of hv (sel w CM CT).
Proof. by destruct w. Qed.
Lemma setarr_st w hv (h : heap V E) CM CT m C :
  setarr w (arr_of hv C) (st hv h CM CT m) =
  st hv h (sel w C CM) (sel w CT C) m.
Proof. by destruct w. Qed.
Lemma copy1_fmap {A} (f : V * V -> A) C1 i C2 j :
  (x ← aget (f <$> C2) j; aset (f <$> C1) i x) =
  (λ C, f <$> C) <$> (x ← aget C2 j; aset C1 i x).
Proof.
  rewrite aget_fmap. destruct (aget C2 j) as [x|]; simpl; [|done].
  apply aset_fmap.
Qed.
Lemma sa_copy_arr_of hv C1 i C2 j :
  sa_copy (arr_of hv C1) i (arr_of hv C2) j =
  arr_of hv <$> (x ← aget C2 j; aset C1 i x).
Proof.
  unfold sa_copy, copy1, on_values. cbn [ks vs arr_of]. rewrite copy1_fmap.
  destruct hv; [rewrite copy1_fmap|];
    by destruct (x ← aget C2 j; aset C1 i x).
Qed.
Lemma sa_blit_arr_of hv C1 i C2 j n :
  sa_blit (arr_of hv C1) i (arr_of hv C2) j n = arr_of hv <$> blit C1 i C2 j n.
Proof.
  unfold sa_blit, on_values. cbn [ks vs arr_of]. rewrite blit_fmap.
  destruct hv; [rewrite blit_fmap|]; by destruct (blit C1 i C2 j n).
Qed.

(** Moving the block [y] over the block [x]. *)
Lemma wp_memmove hv h CM CT m s1 i s2 j n l x k l' y k' Q X :
  sel (pw s1) CM CT = l ++ x ++ k -> sel (pw s2) CM CT = l' ++ y ++ k' ->
  po s1 + i = Zlen l -> po s2 + j = Zlen l' -> n = Zlen x -> n = Zlen y ->
  Q tt (st hv h (sel (pw s1) (l ++ y ++ k) CM) (sel (pw s1) CT (l ++ y ++ k)) m) ->
  wpo nf (sortslice_memmove s1 i s2 j n) Q X (st hv h CM CT m).
Proof.
  intros H1 H2 Hi Hj Hx Hy HQ. unfold sortslice_memmove. wp_steps.
  apply wp_lift with (arr_of hv (l ++ y ++ k)).
  { rewrite !getarr_st, sa_blit_arr_of, H1, H2.
    rewrite (blit_app l x k l' y k') by done. done. }
  wp_steps. by rewrite setarr_st.
Qed.
Lemma wp_memcpy hv h CM CT m s1 i s2 j n l x k l' y k' Q X :
  overlap s1 i s2 j n = false ->
  sel (pw s1) CM CT = l ++ x ++ k -> sel (pw s2) CM CT = l' ++ y ++ k' ->
  po s1 + i = Zlen l -> po s2 + j = Zlen l' -> n = Zlen x -> n = Zlen y ->
  Q tt (st hv h (sel (pw s1) (l ++ y ++ k) CM) (sel (pw s1) CT (l ++ y ++ k)) m) ->
  wpo nf (sortslice_memcpy s1 i s2 j n) Q X (st hv h CM CT m).
Proof. intros Ho. unfold sortslice_memcpy. rewrite Ho. apply wp_memmove. Qed.
Lemma overlap_ne s1 i s2 j n : pw s1 ≠ pw s2 -> overlap s1 i s2 j n = false.
Proof. intros H. apply bool_decide_eq_false. naive_solver. Qed.

Lemma wp_copy hv h CM CT m s1 i s2 j l x k l' y k' Q X :
  sel (pw s1) CM CT = l ++ x :: k -> sel (pw s2) CM CT = l' ++ y :: k' ->
  po s1 + i = Zlen l -> po s2 + j = Zlen l' ->
  Q tt (st hv h (sel (pw s1) (l ++ y :: k) CM) (sel (pw s1) CT (l ++ y :: k)) m) ->
  wpo nf (sortslice_copy s1 i s2 j) Q X (st hv h CM CT m).
Proof.
  intros H1 H2 Hi Hj HQ. unfold sortslice_copy. wp_steps.
  apply wp_lift with (arr_of hv (l ++ y :: k)).
  { rewrite !getarr_st, sa_copy_arr_of, H1, H2. rewrite aget_app by done.
    simpl. by rewrite aset_app. }
  wp_steps. by rewrite setarr_st.
Qed.

(** The effect shared by the block operations, as a relation between states:
    [n] slots at [s2 + j] replace the [n] slots at [s1 + i]. *)
Definition block_move hv (s1 : sortslice) (i : Z) (s2 : sortslice) (j n : Z)
    (s s' : sortst V E) : Prop :=
  ∃ h CM CT m l x k l' y k',
    s = st hv h CM CT m ∧
    sel (pw s1) CM CT = l ++ x ++ k ∧ sel (pw s2) CM CT = l' ++ y ++ k' ∧
    po s1 + i = Zlen l ∧ po s2 + j = Zlen l' ∧ n = Zlen x ∧ n = Zlen y ∧
    s' = st hv h (sel (pw s1) (l ++ y ++ k) CM) (sel (pw s1) CT (l ++ y ++ k)) m.
(** Only the positions matter. *)
Lemma block_move_pos hv s1 i t1 i' s2 j t2 j' n s s' :
  pw s1 = pw t1 -> po s1 + i = po t1 + i' -> pw s2 = pw t2 -> po s2 + j = po t2 + j' ->
  block_move hv s1 i s2 j n s s' -> block_move hv t1 i' t2 j' n s s'.
Proof.
  intros Hw1 Hp1 Hw2 Hp2 (h&CM&CT&m&l&x&k&l'&y&k'&Hm). rewrite Hw1, Hp1, Hw2, Hp2 in Hm.
  by exists h, CM, CT, m, l, x, k, l', y, k'.
Qed.
Lemma wp_move hv s1 i s2 j n s s' Q X :
  block_move hv s1 i s2 j n s s' -> Q tt s' ->
  wpo nf (sortslice_memmove s1 i s2 j n) Q X s.
Proof.
  intros (h&CM&CT&m&l&x&k&l'&y&k'&->&H1&H2&H3&H4&H5&H6&->) HQ.
  by eapply wp_memmove.
Qed.
Lemma wp_move_cpy hv s1 i s2 j n s s' Q X :
  pw s1 ≠ pw s2 -> block_move hv s1 i s2 j n s s' -> Q tt s' ->
  wpo nf (sortslice_memcpy s1 i s2 j n) Q X s.
Proof.
  intros Hne Hm HQ. unfold sortslice_memcpy. rewrite overlap_ne by done.
  by eapply wp_move.
Qed.
Lemma wp_move_copy hv s1 i s2 j s s' Q X :
  block_move hv s1 i s2 j 1 s s' -> Q tt s' ->
  wpo nf (sortslice_copy s1 i s2 j) Q X s.
Proof.
  intros (h&CM&CT&m&l&x&k&l'&y&k'&->&H1&H2&H3&H4&H5&H6&->) HQ.
  destruct (Zlen_1_inv x) as [x1 ->]; [done|]. destruct (Zlen_1_inv y) as [y1 ->]; [done|].
  by eapply wp_copy.
Qed.

Lemma wp_key_at hv h CM CT m s i l x k (Q : V -> sortst V E -> Prop) X :
  sel (pw s) CM CT = l ++ x :: k -> po s + i = Zlen l ->
  Q x.1 (st hv h CM CT m) ->
  wpo nf (key_at s i) Q X (st hv h CM CT m).
Proof.
  intros H1 Hi HQ. unfold key_at. wp_steps. apply wp_lift with x.1; [|done].
  rewrite getarr_st, ks_arr_of, H1, aget_fmap. by rewrite aget_app.
Qed.
Lemma set_hp_st h' hv (h : heap V E) CM CT m :
  set_hp h' (st hv h CM CT m) = st hv h' CM CT m.
Proof. done. Qed.

Lemma wp_in_heap {A} (m : PM V E A) (R : A -> sortst V E -> Prop) X (s : sortst V E) :
  wpo nf m (λ a h, R a (set_hp h s)) (λ e h, X e (set_hp h s)) (hp s) ->
  wpo nf (in_heap m) R X s.
Proof. unfold wpo, in_heap. by destruct (m (hp s)). Qed.
Lemma wp_ISLT kc ordered P lt x y (s : sortst V E) (Q : bool -> sortst V E -> Prop) X :
  cmp_ok kc ordered P lt -> P x -> P y ->
  (∀ b h', (ordered -> b = lt x y) -> Q b (set_hp h' s)) ->
  (∀ e h', ¬ ordered -> X e (set_hp h' s)) ->
  wpo nf (ISLT kc x y) Q X s.
Proof.
  intros Hok Hx Hy HQ HX. apply wp_in_heap. pose proof (cmp_runs _ _ _ _ Hok x y (hp s) Hx Hy) as Hr.
  unfold wpo in *. destruct (kc x y (hp s)) as [b h'|e h'| |] eqn:Heq; [apply HQ|apply HX|done|done];
    intros Ho; destruct (cmp_agree _ _ _ _ Hok Ho x y (hp s) Hx Hy) as [h'' Hc]; congruence.
Qed.

Lemma wp_get_ms hv h CM CT m (Q : MergeState -> sortst V E -> Prop) X :
  Q m (st hv h CM CT m) -> wpo nf get_ms Q X (st hv h CM CT m).
Proof. done. Qed.

Lemma null_arr_of hv (C : list (V * V)) : null_arr (arr_of hv C) = arr_of hv [].
Proof. by destruct hv. Qed.
Lemma arr_of_replicate (hv : bool) n (x : V) :
  SArr (replicate n x) (if hv then Some (replicate n x) else None) =
  arr_of hv (replicate n (x, x)).
Proof. unfold arr_of. rewrite !fmap_replicate. done. Qed.

(** Getting a buffer: room for [need] slots, or [MemoryError]. *)
Lemma wp_MERGE_GETMEM hv (h : heap V E) CM CT m need Q (X : pyexn -> sortst V E -> Prop) :
  alloced m = Zlen CT -> 0 <= need ->
  (∀ h' CT' m', alloced m' = Zlen CT' -> need <= Zlen CT' -> runs_same m m' ->
     Q tt (st hv h' CM CT' m')) ->
  (∀ h' CT' m', runs_same m m' -> X (PyErr MemoryError no_msg) (st hv h' CM CT' m')) ->
  wpo nf (MERGE_GETMEM need) Q X (st hv h CM CT m).
Proof.
  intros Hal Hneed HQ HX. unfold MERGE_GETMEM. wp_step. apply wp_get_ms.
  destruct (need <=? alloced m) eqn:E1; bool_to_prop.
  { apply wp_ret, HQ; [done|lia|done]. }
  unfold merge_getmem. wp_step. apply wp_get_ms.
  rewrite (proj2 (Z.leb_gt _ _) E1). wp_step. apply wp_get. cbv zeta. wp_step.
  eapply (wp_conseq _ (λ _ s', ∃ C, s' = st hv h CM C m) _ X); [| |done].
  { unfold merge_freemem. wp_steps. cbn [st ms tmp]. case_match; wp_steps; [by exists CT|].
    exists []. unfold setarr. cbn [st hp main tmp ms]. by rewrite null_arr_of. }
  intros _ s' [C ->]. case_match; [apply wp_raise; by apply HX|].
  wp_step. apply wp_get. cbn [st hp tmp main ms vs arr_of].
  destruct (py_malloc _ _) as [ok e]. destruct ok.
  - apply wp_put.
    replace (SArr _ _) with (arr_of hv (replicate (Z.to_nat need) (junk, junk)))
      by (rewrite <- arr_of_replicate; by destruct hv).
    apply HQ; [cbn; zlia|zlia|done].
  - wp_step. apply wp_put, wp_raise.
    change (SArr (fst <$> C) _) with (arr_of hv C). rewrite null_arr_of. by apply HX.
Qed.
End mem_facts.
