(* ===== verification/Gallop.v ===== *)
(** * Galloping search: [gallop_left] and [gallop_right]

    Both find the boundary of a sorted slice around a key: an exponential
    search from a hint, then a binary search.  The theorems give the returned
    position exactly, show that no access leaves the slice, that every
    [assert] holds and that the offsets never overflow. *)

From stdpp Require Import base sets list numbers sorting.
From S2P Require Import Prelude PyHeap SortSpec SortMem.

Section gallop.
Context {V E : Type} {api : PyApi V E}.
Variable key_compare : compare_fn V E.

(** [while (ofs < maxofs)]: as long as [continue] accepts the probe at [ofs],
    remember it and double the offset; the result is [(lastofs, ofs)]. *)
Fixpoint gallop_loop (fuel : nat) (continue : Z -> SM V E bool)
    (maxofs lastofs ofs : Z) : SM V E (Z * Z) :=
  match fuel with
  | O => mnofuel
  | S fuel =>
      if ofs <? maxofs then
        b ← continue ofs;
        if b : bool then
          _ ← cassert (ofs <=? (PY_SSIZE_T_MAX - 1) `div` 2);
          gallop_loop fuel continue maxofs ofs (Z.shiftl ofs 1 + 1)
        else mret (lastofs, ofs)
      else mret (lastofs, ofs)
  end.

(** [while (lastofs < ofs)]: the final binary search, going right of the
    middle when [right] says so. *)
Fixpoint gallop_bsearch (fuel : nat) (right : Z -> SM V E bool)
    (lastofs ofs : Z) : SM V E (Z * Z) :=
  match fuel with
  | O => mnofuel
  | S fuel =>
      if lastofs <? ofs then
        let m := lastofs + Z.shiftr (ofs - lastofs) 1 in
        b ← right m;
        if b : bool then gallop_bsearch fuel right (m + 1) ofs
        else gallop_bsearch fuel right lastofs m
      else mret (lastofs, ofs)
  end.

Definition gallop_left (key : V) (a : sortslice) (n hint : Z) : SM V E Z :=
  _ ← cassert ((0 <? n) && (0 <=? hint) && (hint <? n));
  let a := sortslice_advance a hint in
  x ← key_at a 0;
  b ← ISLT key_compare x key;
  '(lastofs, ofs) ←
    (if b : bool then
       (* a[hint] < key -- gallop right *)
       let maxofs := n - hint in
       '(lastofs, ofs) ← gallop_loop (S (Z.to_nat maxofs))
          (λ ofs, x ← key_at a ofs; ISLT key_compare x key) maxofs 0 1;
       let ofs := if maxofs <? ofs then maxofs else ofs in
       mret (lastofs + hint, ofs + hint)
     else
       (* key <= a[hint] -- gallop left *)
       let maxofs := hint + 1 in
       '(lastofs, ofs) ← gallop_loop (S (Z.to_nat maxofs))
          (λ ofs, x ← key_at a (- ofs);
             b ← ISLT key_compare x key; mret (negb b)) maxofs 0 1;
       let ofs := if maxofs <? ofs then maxofs else ofs in
       let k := lastofs in
       mret (hint - ofs, hint - k));
  let a := sortslice_advance a (- hint) in
  _ ← cassert ((-1 <=? lastofs) && (lastofs <? ofs) && (ofs <=? n));
  '(lastofs, ofs) ← gallop_bsearch (S (Z.to_nat n))
     (λ m, x ← key_at a m; ISLT key_compare x key) (lastofs + 1) ofs;
  _ ← cassert (lastofs =? ofs);
  mret ofs.

Definition gallop_right (key : V) (a : sortslice) (n hint : Z) : SM V E Z :=
  _ ← cassert ((0 <? n) && (0 <=? hint) && (hint <? n));
  let a := sortslice_advance a hint in
  x ← key_at a 0;
  b ← ISLT key_compare key x;
  '(lastofs, ofs) ←
    (if b : bool then
       (* key < a[hint] -- gallop left *)
       let maxofs := hint + 1 in
       '(lastofs, ofs) ← gallop_loop (S (Z.to_nat maxofs))
          (λ ofs, x ← key_at a (- ofs); ISLT key_compare key x) maxofs 0 1;
       let ofs := if maxofs <? ofs then maxofs else ofs in
       let k := lastofs in
       mret (hint - ofs, hint - k)
     else
       (* a[hint] <= key -- gallop right *)
       let maxofs := n - hint in
       '(lastofs, ofs) ← gallop_loop (S (Z.to_nat maxofs))
          (λ ofs, x ← key_at a ofs;
             b ← ISLT key_compare key x; mret (negb b)) maxofs 0 1;
       let ofs := if maxofs <? ofs then maxofs else ofs in
       mret (lastofs + hint, ofs + hint));
  let a := sortslice_advance a (- hint) in
  _ ← cassert ((-1 <=? lastofs) && (lastofs <? ofs) && (ofs <=? n));
  '(lastofs, ofs) ← gallop_bsearch (S (Z.to_nat n))
     (λ m, x ← key_at a m; b ← ISLT key_compare key x; mret (negb b))
     (lastofs + 1) ofs;
  _ ← cassert (lastofs =? ofs);
  mret ofs.
End gallop.

(** ** The loops, for an arbitrary probe

    [probes s good ordered g test]: from any state that differs from [s] only
    in the heap, [test i] runs safely at the good indices, changes only the
    heap, and when [ordered] answers [g i]. *)
Definition probes {V E} (s : sortst V E) (good : Z -> Prop) (ordered : Prop)
    (g : Z -> bool) (test : Z -> SM V E bool) : Prop :=
  ∀ i h, good i ->
    wp (test i) (λ b s', (∃ h', s' = set_hp h' s) ∧ (ordered -> b = g i))
       (failed ordered (heap_only s)) (set_hp h s).

Lemma max_half : (PY_SSIZE_T_MAX - 1) `div` 2 = 2 ^ 62 - 1.
Proof. done. Qed.

Section loops.
Context {V E : Type} (s : sortst V E) (ordered : Prop) (g : Z -> bool).

Lemma gallop_loop_spec test maxofs fuel lastofs ofs h :
  probes s (λ i, 1 <= i < maxofs) ordered g test ->
  maxofs <= MAX_ITEMS -> 0 <= lastofs < ofs -> lastofs < maxofs ->
  (ordered -> lastofs ≠ 0 -> g lastofs = true) ->
  maxofs - ofs < Z.of_nat fuel -> (0 < fuel)%nat ->
  wp (gallop_loop fuel test maxofs lastofs ofs)
    (λ '(l, o) s', heap_only s s' ∧ 0 <= l < o ∧ l < maxofs ∧
       (ordered -> l ≠ 0 -> g l = true) ∧ (ordered -> o < maxofs -> g o = false))
    (failed ordered (heap_only s)) (set_hp h s).
Proof.
  intros Ht Hmax. revert lastofs ofs h.
  induction fuel as [|fuel IH]; intros lastofs ofs h Hl Hlm Hg Hf Hf0; [lia|].
  simpl. destruct (ofs <? maxofs) eqn:Hc; bool_to_prop.
  2:{ wp_steps. split_and!; [by exists h|lia..|done|lia]. }
  apply wp_bind. eapply wp_conseq; [apply Ht; lia| |done].
  intros b s' [[h' ->] Hb]. destruct b.
  - wp_steps. apply wp_assert.
    { rewrite max_half. apply Z.leb_le. rewrite MAX_ITEMS_val in Hmax. lia. }
    rewrite Z.shiftl_mul_pow2 by lia. apply IH; try lia. intros Ho _. by rewrite Hb.
  - wp_steps. split_and!; [by exists h'|lia..|done|]. intros Ho _. by rewrite Hb.
Qed.

Lemma gallop_bsearch_spec test (lo0 hi0 : Z) fuel lo hi h :
  probes s (λ i, lo0 <= i < hi0) ordered g test ->
  lo0 <= lo -> lo <= hi -> hi <= hi0 ->
  (ordered -> ∀ i j, lo0 <= i <= j -> j < hi0 -> g j = true -> g i = true) ->
  (ordered -> ∀ i, lo0 <= i < lo -> g i = true) ->
  (ordered -> ∀ i, hi <= i < hi0 -> g i = false) ->
  hi - lo < Z.of_nat fuel ->
  wp (gallop_bsearch fuel test lo hi)
    (λ '(l, o) s', heap_only s s' ∧ l = o ∧ lo <= o <= hi ∧
       (ordered -> ∀ i, lo0 <= i < o -> g i = true) ∧
       (ordered -> ∀ i, o <= i < hi0 -> g i = false))
    (failed ordered (heap_only s)) (set_hp h s).
Proof.
  intros Ht. revert lo hi h.
  induction fuel as [|fuel IH]; intros lo hi h Hlo Hlh Hhi Hmono Hpre Hpost Hf; [lia|].
  simpl. destruct (lo <? hi) eqn:Hc; bool_to_prop.
  2:{ wp_steps. assert (lo = hi) as -> by lia. split_and!; [by exists h|lia..|done|done]. }
  rewrite Z.shiftr_div_pow2 by lia. change (2 ^ 1) with 2.
  set (m := lo + (hi - lo) `div` 2). assert (lo <= m < hi) as Hm by (subst m; divlia).
  apply wp_bind. eapply wp_conseq; [apply Ht; lia| |done].
  intros b s' [[h' ->] Hb]. destruct b.
  - eapply wp_conseq; [apply IH; try lia; try done| |done].
    + intros Ho i Hi. apply (Hmono Ho i m); [lia..|]. by rewrite Hb.
    + intros [l o] s''. naive_solver lia.
  - eapply wp_conseq; [apply IH; try lia; try done| |done].
    + intros Ho i Hi. destruct (g i) eqn:Hgi; [|done].
      symmetry. rewrite (Hb Ho). apply (Hmono Ho m i); [lia..|done].
    + intros [l o] s''. naive_solver lia.
Qed.
End loops.

(** [split_at g L k]: the first [k] elements of [L] have keys satisfying [g]
    and no other has. *)
Definition split_at {V} (g : V -> bool) (L : list (V * V)) (k : Z) : Prop :=
  ∃ L1 L2, L = L1 ++ L2 ∧ Zlen L1 = k ∧
    Forall (λ c, g c.1 = true) L1 ∧ Forall (λ c, g c.1 = false) L2.

(** The two parts of a slice cut at a search result. *)
Lemma cut_at {V} (ordered : Prop) (g : V -> bool) (L : list (V * V)) r :
  0 <= r <= Zlen L -> (ordered -> split_at g L r) ->
  ∃ L1 L2, L = L1 ++ L2 ∧ r = Zlen L1 ∧
    (ordered -> Forall (λ c, g c.1 = true) L1 ∧ Forall (λ c, g c.1 = false) L2).
Proof.
  intros Hr Hs. destruct (Zlen_split r L Hr) as (L1 & L2 & HL & Hl).
  exists L1, L2. split_and!; [done|done|]. intros Ho.
  destruct (Hs Ho) as (K1 & K2 & HK & Hk & HK1 & HK2).
  rewrite HL in HK. apply app_inj_1 in HK as [-> ->]; [done|]. unfold Zlen in *. lia.
Qed.

(** ** The phases of a search, for an arbitrary boundary test [g] *)
Section phases.
Context {V E : Type} {api : PyApi V E}.
Variables (ordered : Prop) (g : V -> bool) (L : list (V * V)).

(** [g] on the slot [i] of [L]. *)
Definition at_slot (i : Z) : bool :=
  match aget L i with Some c => g c.1 | None => false end.
(** [g] holds on a prefix of [L]. *)
Definition downward : Prop :=
  ∀ i j, 0 <= i <= j -> j < Zlen L -> at_slot j = true -> at_slot i = true.

Lemma split_at_index k :
  0 <= k <= Zlen L ->
  (∀ i, 0 <= i < k -> at_slot i = true) ->
  (∀ i, k <= i < Zlen L -> at_slot i = false) ->
  split_at g L k.
Proof.
  intros Hk H1 H2. destruct (Zlen_split k L Hk) as (L1 & L2 & HL & Hl).
  exists L1, L2. split_and!; [done|done|..]; apply Forall_forall; intros c Hc.
  - apply list_elem_of_lookup in Hc as [i Hi]. apply lookup_lt_Some in Hi as Hi'.
    specialize (H1 (Z.of_nat i)). unfold at_slot, aget in H1.
    rewrite HL, decide_True, Nat2Z.id, lookup_app_l, Hi in H1 by lia.
    apply H1. unfold Zlen in Hl. lia.
  - apply list_elem_of_lookup in Hc as [i Hi]. apply lookup_lt_Some in Hi as Hi'.
    specialize (H2 (Zlen L1 + Z.of_nat i)). unfold at_slot in H2.
    rewrite HL, aget_app_r in H2 by lia. unfold aget in H2.
    rewrite decide_True in H2 by lia.
    replace (Z.to_nat _) with i in H2 by lia. rewrite Hi in H2.
    apply H2. rewrite Zlen_app in *. unfold Zlen in *. lia.
Qed.

Variables (s : sortst V E) (hint : Z).
Hypothesis Hlen : Zlen L <= MAX_ITEMS.
Hypothesis Hhint : 0 <= hint < Zlen L.
Let n := Zlen L.

(** What both phases leave for the binary search. *)
Definition bracket (lo hi : Z) : Prop :=
  -1 <= lo ∧ lo < hi ∧ hi <= n ∧
  (ordered -> 0 <= lo -> at_slot lo = true) ∧
  (ordered -> hi < n -> at_slot hi = false).

Lemma right_phase h test :
  (ordered -> at_slot hint = true) ->
  probes s (λ i, 0 <= hint + i < n) ordered (λ i, at_slot (hint + i)) test ->
  wp ('(lastofs, ofs) ← gallop_loop (S (Z.to_nat (n - hint))) test (n - hint) 0 1;
      let ofs := if n - hint <? ofs then n - hint else ofs in
      mret (lastofs + hint, ofs + hint))
    (λ '(lo, hi) s', heap_only s s' ∧ bracket lo hi)
    (failed ordered (heap_only s)) (set_hp h s).
Proof.
  intros Hg Ht. apply wp_bind. eapply wp_conseq;
    [eapply (gallop_loop_spec s ordered (λ i, at_slot (hint + i))); try lia| |done].
  { intros i h' Hi. apply Ht. lia. }
  intros [l o] s' (Hs & Hl & Hlm & Hgl & Hgo). wp_steps. split; [done|].
  destruct (n - hint <? o) eqn:Hc; bool_to_prop; unfold bracket; split_and!; try lia.
  - intros Ho _. destruct (decide (l = 0)) as [->|]; [by apply Hg|].
    rewrite Z.add_comm. by apply Hgl.
  - intros Ho _. destruct (decide (l = 0)) as [->|]; [by apply Hg|].
    rewrite Z.add_comm. by apply Hgl.
  - intros Ho Hlt. rewrite Z.add_comm. apply Hgo; [done|lia].
Qed.

Lemma left_phase h test :
  (ordered -> at_slot hint = false) ->
  probes s (λ i, 0 <= hint - i < n) ordered (λ i, negb (at_slot (hint - i))) test ->
  wp ('(lastofs, ofs) ← gallop_loop (S (Z.to_nat (hint + 1))) test (hint + 1) 0 1;
      let ofs := if hint + 1 <? ofs then hint + 1 else ofs in
      let k := lastofs in
      mret (hint - ofs, hint - k))
    (λ '(lo, hi) s', heap_only s s' ∧ bracket lo hi)
    (failed ordered (heap_only s)) (set_hp h s).
Proof.
  intros Hg Ht. apply wp_bind. eapply wp_conseq;
    [eapply (gallop_loop_spec s ordered (λ i, negb (at_slot (hint - i)))); try lia| |done].
  { intros i h' Hi. apply Ht. lia. }
  intros [l o] s' (Hs & Hl & Hlm & Hgl & Hgo). wp_steps. split; [done|].
  assert (ordered -> at_slot (hint - l) = false) as Hhi.
  { intros Ho. destruct (decide (l = 0)) as [->|]; [by rewrite Z.sub_0_r; apply Hg|].
    apply negb_true_iff. by apply Hgl. }
  destruct (hint + 1 <? o) eqn:Hc; bool_to_prop; unfold bracket; split_and!; try lia; try by auto.
  intros Ho Hlt. apply negb_false_iff. apply Hgo; [done|lia].
Qed.

Lemma search_phase h test lo hi :
  bracket lo hi -> (ordered -> downward) ->
  probes s (λ i, 0 <= i < n) ordered at_slot test ->
  wp ('(lastofs, ofs) ← gallop_bsearch (S (Z.to_nat n)) test (lo + 1) hi;
      _ ← cassert (lastofs =? ofs);
      mret ofs)
    (λ k s', heap_only s s' ∧ 0 <= k <= n ∧ (ordered -> split_at g L k))
    (failed ordered (heap_only s)) (set_hp h s).
Proof.
  intros (H1 & H2 & H3 & H4 & H5) Hd Ht. apply wp_bind. eapply wp_conseq;
    [eapply (gallop_bsearch_spec s ordered at_slot test 0 n); try lia; try done| |done].
  - intros Ho i Hi. apply (Hd Ho i lo); [lia|lia|]. apply H4; [done|lia].
  - intros Ho i Hi. destruct (at_slot i) eqn:Hgi; [|done].
    rewrite <- (H5 Ho) by lia. symmetry. apply (Hd Ho hi i); [lia|lia|done].
  - intros [l o] s' (Hs & -> & Ho & Hp & Hq). apply wp_bind.
    apply wp_assert; [by apply Z.eqb_eq|]. apply wp_ret.
    split_and!; [done|lia|lia|]. intros Hord. apply split_at_index; [lia|..].
    + intros i Hi. apply Hp; [done|lia].
    + intros i Hi. apply Hq; [done|lia].
Qed.
End phases.

(** ** Boundary tests of a sorted slice *)
Section boundary.
Context {V : Type} (lt : V -> V -> bool) `{!StrictWeakOrder lt}.
Variables (L : list (V * V)) (key : V).

Lemma slot_Forall (Q : V -> Prop) j c :
  aget L j = Some c -> Forall (λ c, Q c.1) L -> Q c.1.
Proof.
  intros Hc HL. rewrite Forall_forall in HL. apply HL.
  destruct (aget_split _ _ _ Hc) as (L1 & L2 & -> & _). set_solver.
Qed.
(** In a sorted slice both boundary tests hold on a prefix. *)
Lemma sorted_slots i j c d :
  sorted_cells lt L -> aget L i = Some c -> aget L j = Some d -> i < j -> cle lt c d.
Proof.
  intros Hs Hc Hd Hij.
  destruct (aget_split _ _ _ Hd) as (L1 & L2 & HL & ->). rewrite HL in Hc, Hs.
  rewrite aget_app_l in Hc by (apply aget_Some in Hc; lia).
  destruct (aget_split _ _ _ Hc) as (L3 & L4 & -> & _).
  apply sorted_app in Hs as (_ & _ & Hle); [|done]. apply Hle; set_solver.
Qed.
Lemma downward_of (g : V -> bool) :
  (∀ c d, cle lt c d -> g d.1 = true -> g c.1 = true) ->
  sorted_cells lt L -> downward g L.
Proof.
  intros Hg Hs i j Hij Hj. unfold at_slot.
  destruct (aget_lt L j) as [d Hd]; [lia|]. destruct (aget_lt L i) as [c Hc]; [lia|].
  rewrite Hd, Hc. destruct (decide (i = j)) as [->|]; [congruence|].
  apply Hg. eapply (sorted_slots i j); eauto. lia.
Qed.
Lemma downward_left : sorted_cells lt L -> downward (λ x, lt x key) L.
Proof.
  apply downward_of.
  intros c d Hcd Hd. unfold cle in Hcd. destruct (lt c.1 key) eqn:Hc; [done|].
  by rewrite (swo_ntrans _ _ _ Hcd Hc) in Hd.
Qed.
Lemma downward_right : sorted_cells lt L -> downward (λ x, negb (lt key x)) L.
Proof.
  apply downward_of.
  intros c d Hcd Hd. unfold cle in Hcd. apply negb_true_iff in Hd. apply negb_true_iff.
  by apply (swo_ntrans _ _ _ Hd Hcd).
Qed.
End boundary.

(** ** The two searches *)
Section spec.
Context {V E : Type} {api : PyApi V E}.
Variable key_compare : compare_fn V E.
Variables (ordered : Prop) (P : V -> Prop) (lt : V -> V -> bool).
Hypothesis Hcmp : cmp_ok key_compare ordered P lt.

(** The slice [L] searched, somewhere in one of the two arrays. *)
Variables (hv : bool) (h : heap V E) (CM CT : list (V * V)) (m : MergeState).
Variables (l L k : list (V * V)) (a : sortslice) (key : V).
Hypothesis Ha : sel (pw a) CM CT = l ++ L ++ k.
Hypothesis Hpo : po a = Zlen l.
Hypothesis HPkey : P key.
Hypothesis HPL : Forall (λ c, P c.1) L.
Let s := st hv h CM CT m.

Lemma wp_slot a' i j h' (Q : V -> sortst V E -> Prop) X :
  pw a' = pw a -> po a' + i = po a + j -> 0 <= j < Zlen L ->
  (∀ c, aget L j = Some c -> Q c.1 (set_hp h' s)) ->
  wp (key_at a' i) Q X (set_hp h' s).
Proof.
  intros Hw Hp Hj HQ. destruct (aget_lt L j Hj) as [c Hc].
  destruct (aget_split _ _ _ Hc) as (L1 & L2 & HL & ->).
  subst s. rewrite set_hp_st. eapply (wp_key_at _ _ _ _ _ _ _ (l ++ L1) c (L2 ++ k)).
  - rewrite Hw, Ha, HL. by rewrite <- !app_assoc.
  - rewrite Zlen_app. lia.
  - rewrite <- (set_hp_st h' hv h). by apply HQ.
Qed.

(** The comparison of a slot with the key, in both orders. *)
Lemma probe_slot_lt a' (e f : Z -> Z) (good : Z -> Prop) :
  pw a' = pw a -> (∀ i, good i -> po a' + e i = po a + f i ∧ 0 <= f i < Zlen L) ->
  probes s good ordered (λ i, at_slot (λ x, lt x key) L (f i))
    (λ i, x ← key_at a' (e i); ISLT key_compare x key).
Proof.
  intros Hw Hf i h' Hi. destruct (Hf i Hi) as [Hp Hj]. apply wp_bind.
  eapply wp_slot; [done|done|done|]. intros c Hc.
  eapply wp_ISLT; [done|by eapply slot_Forall|exact HPkey|..].
  - intros b h'' Hb. split; [by exists h''|]. intros Ho. unfold at_slot. rewrite Hc. by apply Hb.
  - intros ? h'' Hno. split; [done|by exists h''].
Qed.
Lemma probe_lt_slot a' (e f : Z -> Z) (good : Z -> Prop) :
  pw a' = pw a -> (∀ i, good i -> po a' + e i = po a + f i ∧ 0 <= f i < Zlen L) ->
  probes s good ordered (λ i, negb (at_slot (λ x, negb (lt key x)) L (f i)))
    (λ i, x ← key_at a' (e i); ISLT key_compare key x).
Proof.
  intros Hw Hf i h' Hi. destruct (Hf i Hi) as [Hp Hj]. apply wp_bind.
  eapply wp_slot; [done|done|done|]. intros c Hc.
  eapply wp_ISLT; [done|exact HPkey|by eapply slot_Forall|..].
  - intros b h'' Hb. split; [by exists h''|]. intros Ho.
    unfold at_slot. rewrite Hc, negb_involutive. by apply Hb.
  - intros ? h'' Hno. split; [done|by exists h''].
Qed.
Lemma probes_negb good (g g' : Z -> bool) (key_of : Z -> SM V E V)
    (test : V -> SM V E bool) :
  probes s good ordered g (λ i, x ← key_of i; test x) ->
  (∀ i, good i -> g' i = negb (g i)) ->
  probes s good ordered g' (λ i, x ← key_of i; b ← test x; mret (negb b)).
Proof.
  intros H Hg i h' Hi. specialize (H i h' Hi). apply wp_bind_inv in H.
  apply wp_bind. eapply wp_conseq; [exact H| |done]. intros x s' H'. simpl in H'.
  apply wp_bind. eapply wp_conseq; [exact H'| |done].
  intros b s'' [Hs Hb]. apply wp_ret. split; [done|].
  intros Ho. rewrite Hg by done. by rewrite Hb.
Qed.

Variable hint : Z.
Hypothesis Hlen : Zlen L <= MAX_ITEMS.
Hypothesis Hhint : 0 <= hint < Zlen L.
Hypothesis Hsorted : ordered -> sorted_cells lt L.

Lemma gallop_left_spec :
  wp (gallop_left key_compare key a (Zlen L) hint)
    (λ r s', heap_only s s' ∧ 0 <= r <= Zlen L ∧
             (ordered -> split_at (λ x, lt x key) L r))
    (failed ordered (heap_only s)) s.
Proof.
  pose proof (cmp_swo _ _ _ _ Hcmp). unfold gallop_left. apply wp_bind, wp_assert; [lia|]. cbv zeta.
  change s with (set_hp h s). apply wp_bind.
  eapply (wp_slot _ _ hint); [done|simpl; lia|lia|]. intros c Hc.
  apply wp_bind. eapply wp_ISLT; [done|by eapply slot_Forall|exact HPkey| |
    intros ? h' Hno; split; [done|by exists h']].
  intros b h1 Hb. apply wp_bind.
  assert (ordered -> at_slot (λ x, lt x key) L hint = b) as Hat.
  { intros Ho. unfold at_slot. rewrite Hc. symmetry. by apply Hb. }
  apply (wp_conseq _ (λ '(lo, hi) s', heap_only s s' ∧
    bracket ordered (λ x, lt x key) L lo hi) _ (failed ordered (heap_only s))).
  - destruct b; cbv zeta; change (set_hp h1 (set_hp h s)) with (set_hp h1 s).
    + apply right_phase; [lia|lia|done|].
      apply (probe_slot_lt _ (λ i, i) (λ i, hint + i)); [done|]. intros i Hi. simpl. lia.
    + apply left_phase; [lia|lia|done|].
      apply (probes_negb _ (λ i, at_slot (λ x, lt x key) L (hint - i))); [|done].
      apply (probe_slot_lt _ Z.opp (λ i, hint - i)); [done|]. intros i Hi. simpl. lia.
  - intros [lo hi] s' [[h2 ->] Hbr]. destruct Hbr as (H1&H2&H3&H4).
    apply wp_bind, wp_assert; [lia|]. eapply search_phase; [done|by intros Ho; apply downward_left, Hsorted|].
    apply (probe_slot_lt _ (λ i, i) (λ i, i)); [done|]. intros i Hi. simpl. lia.
  - done.
Qed.

Lemma gallop_right_spec :
  wp (gallop_right key_compare key a (Zlen L) hint)
    (λ r s', heap_only s s' ∧ 0 <= r <= Zlen L ∧
             (ordered -> split_at (λ x, negb (lt key x)) L r))
    (failed ordered (heap_only s)) s.
Proof.
  pose proof (cmp_swo _ _ _ _ Hcmp). unfold gallop_right. apply wp_bind, wp_assert; [lia|]. cbv zeta.
  change s with (set_hp h s). apply wp_bind.
  eapply (wp_slot _ _ hint); [done|simpl; lia|lia|]. intros c Hc.
  apply wp_bind. eapply wp_ISLT; [done|exact HPkey|by eapply slot_Forall| |
    intros ? h' Hno; split; [done|by exists h']].
  intros b h1 Hb. apply wp_bind.
  assert (ordered -> at_slot (λ x, negb (lt key x)) L hint = negb b) as Hat.
  { intros Ho. unfold at_slot. rewrite Hc. f_equal. symmetry. by apply Hb. }
  apply (wp_conseq _ (λ '(lo, hi) s', heap_only s s' ∧
    bracket ordered (λ x, negb (lt key x)) L lo hi) _ (failed ordered (heap_only s))).
  - destruct b; cbv zeta; change (set_hp h1 (set_hp h s)) with (set_hp h1 s).
    + apply left_phase; [lia|lia|done|].
      apply (probe_lt_slot _ Z.opp (λ i, hint - i)); [done|]. intros i Hi. simpl. lia.
    + apply right_phase; [lia|lia|done|].
      apply (probes_negb _ (λ i, negb (at_slot (λ x, negb (lt key x)) L (hint + i))));
        [|intros i _; by rewrite negb_involutive].
      apply (probe_lt_slot _ (λ i, i) (λ i, hint + i)); [done|]. intros i Hi. simpl. lia.
  - intros [lo hi] s' [[h2 ->] Hbr]. destruct Hbr as (H1&H2&H3&H4).
    apply wp_bind, wp_assert; [lia|]. eapply search_phase; [done|by intros Ho; apply downward_right, Hsorted|].
    apply (probes_negb _ (λ i, negb (at_slot (λ x, negb (lt key x)) L i)));
      [|intros i _; by rewrite negb_involutive].
    apply (probe_lt_slot _ (λ i, i) (λ i, i)); [done|]. intros i Hi. simpl. lia.
  - done.
Qed.
End spec.
