(* ===== verification/Runs.v ===== *)
(** * Natural runs: [merge_compute_minrun], [count_run], [reverse_sortslice]
    and [binarysort] *)

From stdpp Require Import base sets list numbers sorting.
From S2P Require Import Prelude Slices PyHeap SortSpec SortMem Gallop.

Section runs.
Context {V E : Type} {api : PyApi V E}.
Variable key_compare : compare_fn V E.

(** [while (n >= 64) { r |= n & 1; n >>= 1; }] *)
Fixpoint minrun_loop (fuel : nat) (n r : Z) : Z :=
  match fuel with
  | O => n + r
  | S fuel =>
      if 64 <=? n then minrun_loop fuel (Z.shiftr n 1) (Z.lor r (Z.land n 1))
      else n + r
  end.
Definition merge_compute_minrun (n : Z) : Z := minrun_loop 64 n 0.

(** The loops of [count_run]: [lo] moves up while the comparison with its
    predecessor keeps giving [descending]. *)
Fixpoint count_run_loop (fuel : nat) (descending : bool) (keys : sortslice)
    (lo hi n : Z) : SM V E Z :=
  match fuel with
  | O => mnofuel
  | S fuel =>
      if lo <? hi then
        x ← key_at keys lo;
        y ← key_at keys (lo - 1);
        b ← ISLT key_compare x y;
        if eqb b descending then count_run_loop fuel descending keys (lo + 1) hi (n + 1)
        else mret n
      else mret n
  end.
(** [count_run(ms, lo, hi, &descending)]; the pointers are offsets from the
    start of the array of [lo]. *)
Definition count_run (lo : sortslice) (hi : Z) : SM V E (Z * bool) :=
  let keys := Slice (pw lo) 0 in
  _ ← cassert (po lo <? hi);
  let l := po lo + 1 in
  if l =? hi then mret (1, false)
  else
    x ← key_at keys l;
    y ← key_at keys (l - 1);
    b ← ISLT key_compare x y;
    n ← count_run_loop (S (Z.to_nat (hi - l))) b keys (l + 1) hi 2;
    mret (n, b).

(** The same loop on the keys, then on the values if there are any. *)
Definition sa_each (f : list V -> option (list V)) (a : sarr V) : option (sarr V) :=
  k ← f (ks a);
  v ← match vs a with None => Some None | Some v => Some <$> f v end;
  Some (SArr k v).

Definition reverse_sortslice (s : sortslice) (n : Z) : SM V E unit :=
  st ← mget;
  a ← mlift (sa_each (λ a, reverse_slice a (po s) (po s + n)) (getarr (pw s) st));
  mput (setarr (pw s) a st).

(** [do { ... } while (l < r);]: where the pivot belongs. *)
Fixpoint binarysort_search (fuel : nat) (pivot : V) (keys : sortslice) (l r : Z)
    : SM V E (Z * Z) :=
  match fuel with
  | O => mnofuel
  | S fuel =>
      let p := l + Z.shiftr (r - l) 1 in
      x ← key_at keys p;
      b ← ISLT key_compare pivot x;
      let l' := if b : bool then l else p + 1 in
      let r' := if b : bool then p else r in
      if l' <? r' then binarysort_search fuel pivot keys l' r' else mret (l', r')
  end.
Fixpoint binarysort_loop (fuel : nat) (lo : sortslice) (hi start : Z) : SM V E unit :=
  match fuel with
  | O => mnofuel
  | S fuel =>
      if start <? hi then
        let keys := Slice (pw lo) 0 in
        pivot ← key_at keys start;
        _ ← cassert (po lo <? start);
        '(l, r) ← binarysort_search (S (Z.to_nat (start - po lo))) pivot keys (po lo) start;
        _ ← cassert (l =? r);
        st ← mget;
        a ← mlift (sa_each (λ a, slide a l start) (getarr (pw lo) st));
        _ ← mput (setarr (pw lo) a st);
        binarysort_loop fuel lo hi (start + 1)
      else mret tt
  end.
Definition binarysort (lo : sortslice) (hi start : Z) : SM V E unit :=
  _ ← cassert ((po lo <=? start) && (start <=? hi));
  let start := if po lo =? start then start + 1 else start in
  binarysort_loop (S (Z.to_nat (hi - po lo))) lo hi start.
End runs.

(** ** [merge_compute_minrun] *)

Lemma minrun_loop_spec fuel n r :
  0 <= n < 2 ^ (Z.of_nat fuel + 6) -> 0 <= r <= 1 ->
  (64 <= n ∨ 32 <= n ∨ r = 0) ->
  ∃ p, 0 <= p ∧
    let k := minrun_loop fuel n r in
    (n < 64 -> p = 0 ∧ k = n + r) ∧ (64 <= n -> 32 <= n `div` 2 ^ p < 64) ∧
    k = n `div` 2 ^ p + (if decide (n `mod` 2 ^ p = 0 ∧ r = 0) then 0 else 1).
Proof.
  revert n r. induction fuel as [|fuel IH]; intros n r Hn Hr Hc; simpl.
  - exists 0. rewrite Z.pow_0_r, Z.div_1_r, Z.mod_1_r. simpl in Hn. split_and!; try lia.
    case_decide; lia.
  - destruct (64 <=? n) eqn:H; bool_to_prop.
    2:{ exists 0. rewrite Z.pow_0_r, Z.div_1_r, Z.mod_1_r. split_and!; try lia.
        case_decide; lia. }
    rewrite Z.shiftr_div_pow2 by lia. change (2 ^ 1) with 2.
    assert (Z.land n 1 = n `mod` 2) as -> by (apply (Z.land_ones n 1); lia).
    set (r' := Z.lor r (n `mod` 2)).
    assert (0 <= n `mod` 2 < 2) as Hm by (apply Z.mod_pos_bound; lia).
    assert (0 <= r' <= 1 ∧ (r' = 0 <-> r = 0 ∧ n `mod` 2 = 0)) as [Hr' Hr0].
    { subst r'. assert (r = 0 ∨ r = 1) as [-> | ->] by lia;
        assert (n `mod` 2 = 0 ∨ n `mod` 2 = 1) as [-> | ->] by lia; rewrite ?Z.lor_0_l, ?Z.lor_0_r, ?Z.lor_diag; lia. }
    destruct (IH (n `div` 2) r') as (p & Hp & H1 & H2 & H3); [|done|left + right; divlia|].
    { rewrite Nat2Z.inj_succ, <- Z.add_1_l, <- Z.add_assoc, Z.pow_add_r in Hn by lia.
      change (2 ^ 1) with 2 in Hn. divlia. }
    exists (p + 1). split; [lia|]. rewrite Z.pow_add_r by lia. change (2 ^ 1) with 2.
    assert (0 < 2 ^ p) as Hpow by (apply Z.pow_pos_nonneg; lia).
    rewrite (Z.mul_comm (2 ^ p) 2), <- Z.div_div by lia.
    split_and!; [lia| |].
    + intros _. destruct (decide (64 <= n `div` 2)); [by apply H2|].
      destruct (H1 ltac:(lia)) as [-> _]. rewrite Z.pow_0_r, Z.div_1_r. divlia.
    + rewrite H3. f_equal. rewrite Z.rem_mul_r by lia.
      assert (0 <= (n `div` 2) `mod` 2 ^ p) by (apply Z.mod_pos_bound; lia).
      repeat case_decide; lia.
Qed.

(** [n] itself below 64; otherwise the ceiling of [n / 2^p] for the [p] that
    brings [n] into [32, 64). *)
Lemma merge_compute_minrun_spec n :
  0 <= n <= PY_SSIZE_T_MAX ->
  let k := merge_compute_minrun n in
  (n < 64 -> k = n) ∧
  (64 <= n -> 32 <= k <= 64 ∧ ∃ p, 0 < p ∧ 2 ^ p * (k - 1) < n <= 2 ^ p * k).
Proof.
  intros Hn k.
  destruct (minrun_loop_spec 64 n 0) as (p & Hp & H1 & H2 & H3);
    [unfold PY_SSIZE_T_MAX in Hn; simpl; lia|lia|lia|].
  fold (merge_compute_minrun n) in H1, H3. fold k in H1, H3.
  split; [intros H; destruct (H1 H); lia|]. intros H. specialize (H2 H).
  assert (0 < 2 ^ p) as Hpow by (apply Z.pow_pos_nonneg; lia).
  pose proof (Z.mod_pos_bound n (2 ^ p) Hpow).
  pose proof (Z.div_mod n (2 ^ p) ltac:(lia)).
  assert (0 < p).
  { destruct (decide (p = 0)) as [->|]; [|lia]. rewrite Z.pow_0_r, Z.div_1_r in H2. lia. }
  split; [case_decide; lia|]. exists p. split; [done|]. case_decide; nia.
Qed.

(** ** [count_run] *)

Lemma ssorted_snoc {A} (R : A -> A -> Prop) `{!Transitive R} l x y :
  StronglySorted R (l ++ [x]) -> R x y -> StronglySorted R ((l ++ [x]) ++ [y]).
Proof.
  intros Hs Hxy. induction l as [|z l IH]; simpl in *; [by repeat constructor|].
  apply StronglySorted_inv in Hs as [Hs Hz]. constructor; [by apply IH|].
  rewrite !Forall_app, !Forall_singleton in *. destruct Hz as [Hz Hx].
  split_and!; [done|done|by transitivity x].
Qed.

Section spec.
Context {V E : Type} {api : PyApi V E}.
Variable key_compare : compare_fn V E.
Variables (ordered : Prop) (P : V -> Prop) (lt : V -> V -> bool).
Hypothesis Hcmp : cmp_ok key_compare ordered P lt.

(** The relation between neighbours in a run that goes up or down. *)
Definition run_rel (descending : bool) : V * V -> V * V -> Prop :=
  if descending then flip (clt lt) else cle lt.
#[local] Instance run_rel_trans d : Transitive (run_rel d).
Proof.
  pose proof (cmp_swo _ _ _ _ Hcmp). destruct d; simpl.
  - intros x y z H1 H2. exact (clt_trans lt _ _ _ H2 H1).
  - intros x y z H1 H2. exact (cle_trans _ _ _ H1 H2).
Qed.
Lemma run_rel_cmp d x y : lt x.1 y.1 = d -> run_rel d y x.
Proof. by intros <-; destruct (lt x.1 y.1) eqn:H; unfold run_rel, cle, flip, clt. Qed.

(** A comparison of two neighbouring slots of [Main]. *)
Lemma wp_ISLT_slots hv h CM CT m l x k l' y k' i j Q X :
  CM = l ++ x :: k -> CM = l' ++ y :: k' -> i = Zlen l -> j = Zlen l' ->
  P x.1 -> P y.1 ->
  (∀ b h', (ordered -> b = lt x.1 y.1) -> Q b (st hv h' CM CT m)) ->
  (∀ e h', ¬ ordered -> X e (st hv h' CM CT m)) ->
  wp (u ← key_at (Slice Main 0) i; v ← key_at (Slice Main 0) j; ISLT key_compare u v)
     Q X (st hv h CM CT m).
Proof.
  intros H1 H2 Hi Hj Hx Hy HQ HX. apply wp_bind.
  eapply (wp_key_at _ _ _ _ _ (Slice Main 0)); [exact H1|simpl; lia|]. apply wp_bind.
  eapply (wp_key_at _ _ _ _ _ (Slice Main 0)); [exact H2|simpl; lia|].
  eapply wp_ISLT; [done|done|done|..].
  - intros b h' Hb. by apply HQ.
  - intros e h' Hno. by apply HX.
Qed.

Lemma bind_assoc3 {A B C D : Type} (m : SM V E A) (f : A -> SM V E B)
    (g : A -> B -> SM V E C) (k : C -> SM V E D) Q X s :
  wp ((x ← m; y ← f x; g x y) ≫= k) Q X s ->
  wp (x ← m; y ← f x; c ← g x y; k c) Q X s.
Proof.
  unfold wpo, mbind, M_bind. destruct (m s) as [x s'| | |]; try done.
  destruct (f x s') as [y s''| | |]; done.
Qed.

Lemma count_run_loop_spec fuel d hv h CM CT m pre R1 x R2 post lo hi n :
  CM = pre ++ (R1 ++ [x]) ++ R2 ++ post ->
  lo = Zlen pre + Zlen R1 + 1 -> hi = lo + Zlen R2 -> n = Zlen R1 + 1 ->
  Zlen R2 < Z.of_nat fuel ->
  Forall (λ c, P c.1) (R1 ++ x :: R2) ->
  (ordered -> StronglySorted (run_rel d) (R1 ++ [x])) ->
  wp (count_run_loop key_compare fuel d (Slice Main 0) lo hi n)
    (λ r s', heap_only (st hv h CM CT m) s' ∧ n <= r <= n + Zlen R2 ∧
       ∃ R R', (R1 ++ [x]) ++ R2 = R ++ R' ∧ Zlen R = r ∧
               (ordered -> StronglySorted (run_rel d) R))
    (failed ordered (heap_only (st hv h CM CT m))) (st hv h CM CT m).
Proof.
  revert h R1 x R2 lo n. induction fuel as [|fuel IH];
    intros h R1 x R2 lo n HCM Hlo Hhi Hn Hf HP Hs; [pose_zlen; lia|]. simpl.
  destruct (lo <? hi) eqn:Hc; bool_to_prop.
  2:{ apply wp_ret. split_and!; [by exists h|zlia|zlia|].
      exists (R1 ++ [x]), R2. split_and!; [done|zlia|done]. }
  destruct (Zlen_pos_inv R2) as (y & R3 & ->); [lia|].
  apply bind_assoc3, wp_bind.
  eapply (wp_ISLT_slots _ _ _ _ _ (pre ++ R1 ++ [x]) y (R3 ++ post)
    (pre ++ R1) x ((y :: R3) ++ post)); [rewrite HCM; list_assoc|rewrite HCM; list_assoc
    |zlia|zlia|rewrite Forall_app, !Forall_cons in HP; naive_solver..| |].
  2:{ intros e h' Hno. split; [done|by exists h']. }
  intros b h' Hb. destruct (eqb b d) eqn:Hbd.
  - apply eqb_prop in Hbd as ->.
    eapply wp_conseq.
    + eapply (IH h' (R1 ++ [x]) y R3 (lo + 1) (n + 1)); try zlia.
      * rewrite HCM. list_assoc.
      * by rewrite <- app_assoc.
      * intros Ho. apply (ssorted_snoc (run_rel d)); [by apply Hs|].
        apply run_rel_cmp. symmetry. by apply Hb.
    + intros r s' ([h'' ->] & Hr & R & R' & HR & Hlen & Hsr).
      split_and!; [by exists h''|zlia|zlia|].
      exists R, R'. split_and!; [|done|done]. rewrite <- HR. list_assoc.
    + intros ? s' [? [h'' ->]]. split; [done|by exists h''].
  - apply wp_ret. split_and!; [by exists h'|zlia|zlia|].
    exists (R1 ++ [x]), (y :: R3). split_and!; [done|zlia|done].
Qed.

Lemma count_run_spec hv h CM CT m pre R post lo hi :
  CM = pre ++ R ++ post -> lo = Slice Main (Zlen pre) -> hi = Zlen pre + Zlen R ->
  0 < Zlen R -> Forall (λ c, P c.1) R ->
  wp (count_run key_compare lo hi)
    (λ '(n, d) s', heap_only (st hv h CM CT m) s' ∧ 1 <= n <= Zlen R ∧
       ∃ R1 R2, R = R1 ++ R2 ∧ Zlen R1 = n ∧
                (ordered -> StronglySorted (run_rel d) R1))
    (failed ordered (heap_only (st hv h CM CT m))) (st hv h CM CT m).
Proof.
  intros HCM -> -> HR HP. unfold count_run. apply wp_bind, wp_assert; [simpl; lia|].
  cbn [pw po]. destruct (Zlen_pos_inv R HR) as (x & R' & ->).
  destruct (_ =? _) eqn:Hc; bool_to_prop.
  { apply wp_ret. split_and!; [by exists h|lia|zlia|]. exists [x], R'.
    split_and!; [done|done|]. intros _. repeat constructor. }
  destruct (Zlen_pos_inv R') as (y & R'' & ->); [zlia|].
  apply bind_assoc3, wp_bind.
  eapply (wp_ISLT_slots _ _ _ _ _ (pre ++ [x]) y (R'' ++ post)
    pre x ((y :: R'') ++ post)); [rewrite HCM; list_assoc|rewrite HCM; list_assoc
    |zlia|lia|rewrite !Forall_cons in HP; naive_solver..| |].
  2:{ intros e h' Hno. split; [done|by exists h']. }
  intros b h' Hb. apply wp_bind. eapply wp_conseq.
  - eapply (count_run_loop_spec _ b hv h' CM CT m pre [x] y R'' post); try zlia.
    + rewrite HCM. list_assoc.
    + done.
    + intros Ho. apply (ssorted_snoc (run_rel b) []); [repeat constructor|].
      apply run_rel_cmp. symmetry. by apply Hb.
  - intros n s' ([h'' ->] & Hn & R1 & R2 & HR1 & Hlen & Hs). apply wp_ret.
    split_and!; [by exists h''|zlia|zlia|]. exists R1, R2. by split_and!.
  - intros ? s' [? [h'' ->]]. split; [done|by exists h''].
Qed.

(** ** [reverse_sortslice] *)
Lemma sa_each_arr_of (f : list V -> option (list V)) hv C C' :
  f (fst <$> C) = Some (fst <$> C') -> f (snd <$> C) = Some (snd <$> C') ->
  sa_each f (arr_of hv C) = Some (arr_of hv C').
Proof. intros H1 H2. unfold sa_each. cbn [ks vs arr_of]. rewrite H1. destruct hv; simpl; by rewrite ?H2. Qed.

Lemma wp_reverse_sortslice nf hv (h : heap V E) CM CT m pre R post s n Q X :
  CM = pre ++ R ++ post -> s = Slice Main (Zlen pre) -> n = Zlen R ->
  Q tt (st hv h (pre ++ reverse R ++ post) CT m) ->
  wpo nf (reverse_sortslice s n) Q X (st hv h CM CT m).
Proof.
  intros -> -> -> HQ. unfold reverse_sortslice. wp_steps.
  apply wp_lift with (arr_of hv (pre ++ reverse R ++ post)); [|by wp_steps].
  cbn [pw po getarr st main].
  apply sa_each_arr_of; by apply reverse_slice_fmap.
Qed.

(** ** [binarysort] *)
Lemma binarysort_search_spec fuel hv h CM CT m pre R post c l r lo hi :
  CM = pre ++ R ++ post -> P c -> Forall (λ d, P d.1) R ->
  (ordered -> sorted_cells lt R) ->
  lo = Zlen pre + l -> hi = Zlen pre + r ->
  0 <= l -> l < r -> r <= Zlen R -> r - l < Z.of_nat fuel ->
  (ordered -> ∀ i, 0 <= i < l -> at_slot (λ x, negb (lt c x)) R i = true) ->
  (ordered -> ∀ i, r <= i < Zlen R -> at_slot (λ x, negb (lt c x)) R i = false) ->
  wp (binarysort_search key_compare fuel c (Slice Main 0) lo hi)
    (λ '(p, q) s', heap_only (st hv h CM CT m) s' ∧ p = q ∧
       0 <= p - Zlen pre <= Zlen R ∧
       (ordered -> split_at (λ x, negb (lt c x)) R (p - Zlen pre)))
    (failed ordered (heap_only (st hv h CM CT m))) (st hv h CM CT m).
Proof.
  intros HCM HPc HPR Hs. revert h l r lo hi.
  induction fuel as [|fuel IH]; intros h l r lo hi -> -> Hl Hlr Hr Hf Hpre Hpost; [lia|].
  cbn [binarysort_search]. rewrite Z.shiftr_div_pow2 by lia. change (2 ^ 1) with 2.
  replace (Zlen pre + l + (Zlen pre + r - (Zlen pre + l)) `div` 2)
    with (Zlen pre + (l + (r - l) `div` 2)) by divlia.
  set (i := l + (r - l) `div` 2). assert (l <= i < r) as Hi by (subst i; divlia).
  apply wp_bind. change (st hv h CM CT m) with (set_hp h (st hv h CM CT m)).
  eapply (wp_slot hv h CM CT m pre R post (Slice Main (Zlen pre)) HCM eq_refl _ _ i);
    [done|simpl; lia|lia|]. intros d Hd.
  apply wp_bind. eapply wp_ISLT; [done|exact HPc|by eapply slot_Forall| |
    intros ? h' Hno; split; [done|by exists h']].
  intros b h1 Hb. change (set_hp h1 (set_hp h _)) with (st hv h1 CM CT m).
  assert (ordered -> at_slot (λ x, negb (lt c x)) R i = negb b) as Hat.
  { intros Ho. unfold at_slot. rewrite Hd. f_equal. symmetry. by apply Hb. }
  assert (ordered -> downward (λ x, negb (lt c x)) R) as Hdown
    by (pose proof (cmp_swo _ _ _ _ Hcmp); intros Ho; by apply downward_right, Hs).
  set (l' := if b then l else i + 1). set (r' := if b then i else r).
  assert (0 <= l' ∧ l' <= r' ∧ r' <= Zlen R ∧ r' - l' < r - l) as (H1&H2&H3&H4)
    by (subst l' r'; destruct b; lia).
  assert (ordered -> ∀ j, 0 <= j < l' -> at_slot (λ x, negb (lt c x)) R j = true) as H5.
  { intros Ho j Hj. subst l'. destruct b; [by apply Hpre|].
    apply (Hdown Ho j i); [lia|lia|]. by rewrite Hat. }
  assert (ordered -> ∀ j, r' <= j < Zlen R -> at_slot (λ x, negb (lt c x)) R j = false) as H6.
  { intros Ho j Hj. subst r'. destruct b; [|by apply Hpost].
    destruct (at_slot _ R j) eqn:Hj'; [|done].
pose proof (Hdown Ho i j ltac:(lia) ltac:(lia) Hj') as Hi'. by rewrite (Hat Ho) in Hi'. }
  replace (if b then Zlen pre + l else Zlen pre + i + 1) with (Zlen pre + l')
    by (subst l'; destruct b; lia).
  replace (if b then Zlen pre + i else Zlen pre + r) with (Zlen pre + r')
    by (subst r'; by destruct b).
  destruct (_ <? _) eqn:Hc; bool_to_prop.
  - eapply wp_conseq; [apply (IH h1 l' r'); try done; lia| |].
    + intros [p q] s' ([h2 ->] & ?). split; [by exists h2|done].
    + intros ? s' [? [h2 ->]]. split; [done|by exists h2].
  - assert (l' = r') as Heq by lia. apply wp_ret. rewrite Heq.
    split_and!; [by exists h1|done|lia|lia|]. intros Ho.
    replace (Zlen pre + r' - Zlen pre) with r' by lia.
    apply split_at_index; [lia|..].
    + intros j Hj. apply H5; [done|lia].
    + by apply H6.
Qed.

(** Inserting at the boundary keeps the prefix sorted, stably. *)
Lemma insert_at_boundary R k c U :
  sorted_cells lt R -> split_at (λ x, negb (lt c.1 x)) R k ->
  ∃ R1 R2, R = R1 ++ R2 ∧ Zlen R1 = k ∧ sorted_cells lt (R1 ++ c :: R2) ∧
    stable lt (R ++ c :: U) ((R1 ++ c :: R2) ++ U).
Proof.
  pose proof (cmp_swo _ _ _ _ Hcmp) as Hswo.
  intros Hs (R1 & R2 & -> & Hk & H1 & H2). exists R1, R2.
  apply sorted_app in Hs as (Hs1 & Hs2 & Hle); [|done].
  assert (all_lt lt [c] R2) as Hlt.
  { intros x d ->%list_elem_of_singleton Hd. rewrite Forall_forall in H2.
    apply negb_false_iff, H2, Hd. }
  assert (all_le lt R1 [c]) as Hle1.
  { intros d x Hd ->%list_elem_of_singleton. rewrite Forall_forall in H1.
    apply negb_true_iff, H1, Hd. }
  split_and!; [done|done|..].
  - apply sorted_app; [done|]. split_and!; [done|..].
    + apply (sorted_app lt [c]). split_and!; [apply sorted_singleton|done|].
      by apply all_lt_all_le.
    + apply (all_le_app_r lt R1 [c] R2). by split.
  - replace ((R1 ++ R2) ++ c :: U) with (R1 ++ (R2 ++ [c]) ++ U) by list_assoc.
    replace ((R1 ++ c :: R2) ++ U) with (R1 ++ ([c] ++ R2) ++ U) by list_assoc.
    apply stable_app; [reflexivity|]. apply stable_app; [|reflexivity].
    by apply stable_swap.
Qed.

Definition rearranged_main hv CT m pre post R0 (s' : sortst V E) : Prop :=
  ∃ h' R, s' = st hv h' (pre ++ R ++ post) CT m ∧ rearr ordered lt R0 R.

Lemma binarysort_loop_spec fuel hv h CM CT m pre R U post hi start :
  CM = pre ++ R ++ U ++ post -> start = Zlen pre + Zlen R -> hi = start + Zlen U ->
  0 < Zlen R -> Zlen U < Z.of_nat fuel ->
  Forall (λ d, P d.1) (R ++ U) -> (ordered -> sorted_cells lt R) ->
  wp (binarysort_loop key_compare fuel (Slice Main (Zlen pre)) hi start)
    (λ _ s', ∃ h' R', s' = st hv h' (pre ++ R' ++ post) CT m ∧
       rearr ordered lt (R ++ U) R' ∧ (ordered -> sorted_cells lt R'))
    (failed ordered (rearranged_main hv CT m pre post (R ++ U))) (st hv h CM CT m).
Proof.
  revert h CM R U start. induction fuel as [|fuel IH];
    intros h CM R U start HCM Hst Hhi HR Hf HP Hs; [pose_zlen; lia|].
  cbn [binarysort_loop po pw]. destruct (start <? hi) eqn:Hc; bool_to_prop.
  2:{ assert (U = []) as -> by (apply Zlen_0_inv; zlia). apply wp_ret.
      exists h, R. rewrite app_nil_r. split_and!; [by subst CM|reflexivity|done]. }
  destruct (Zlen_pos_inv U) as (c & U' & ->); [lia|].
  apply wp_bind. eapply (wp_key_at _ _ _ _ _ (Slice Main 0) _ (pre ++ R) c (U' ++ post));
    [rewrite HCM; list_assoc|slia|].
  apply wp_bind, wp_assert; [lia|]. apply wp_bind. eapply wp_conseq.
  - eapply (binarysort_search_spec _ hv h CM CT m pre R ((c :: U') ++ post) c.1 0 (Zlen R));
      try done; try lia.
    + rewrite Forall_app, Forall_cons in HP. naive_solver.
    + rewrite Forall_app in HP. naive_solver.
  - intros [l r] s' ([h1 ->] & <- & Hl & Hsplit).
    apply wp_bind, wp_assert; [by apply Z.eqb_eq|]. wp_steps.
    set (k := l - Zlen pre) in *. destruct (Zlen_split k R Hl) as (R1 & R2 & HR12 & Hk).
    apply wp_lift with (arr_of hv ((pre ++ R1) ++ c :: R2 ++ U' ++ post)).
    { change (getarr Main (set_hp h1 (st hv h CM CT m))) with (arr_of hv CM).
      replace CM with ((pre ++ R1) ++ R2 ++ c :: (U' ++ post)) by (rewrite HCM, HR12; list_assoc).
      apply sa_each_arr_of; apply slide_fmap; rewrite ?HR12 in Hst; zlia. }
    apply wp_bind, wp_put.
    change (setarr Main _ _) with (st hv h1 ((pre ++ R1) ++ c :: R2 ++ U' ++ post) CT m).
    assert (rearr ordered lt (R ++ c :: U') ((R1 ++ c :: R2) ++ U') ∧
            (ordered -> sorted_cells lt (R1 ++ c :: R2))) as [Hre Hso].
    { split; [split|].
      - rewrite HR12. rewrite <- !app_assoc. f_equiv. simpl. by rewrite Permutation_middle.
      - intros Ho. destruct (insert_at_boundary R k c U') as (R3&R4&HR34&Hk'&_&Hst'); auto.
        rewrite HR12 in HR34. apply app_inj_1 in HR34 as [-> ->]; [done|unfold Zlen in *; lia].
      - intros Ho. destruct (insert_at_boundary R k c U') as (R3&R4&HR34&Hk'&Hso&_); auto.
        rewrite HR12 in HR34. apply app_inj_1 in HR34 as [-> ->]; [done|unfold Zlen in *; lia]. }
    eapply wp_conseq.
    + eapply (IH h1 _ (R1 ++ c :: R2) U'); [list_assoc| | | | | |].
      * subst start. rewrite HR12. zlia.
      * rewrite Hhi. zlia.
      * zlia.
      * zlia.
      * eapply rearr_Forall; [exact Hre|exact HP].
      * done.
    + intros _ s' (h2 & R' & -> & Hre' & Hso'). exists h2, R'. split_and!; [done| |done].
      by etransitivity.
    + intros ? s' (? & h2 & R' & -> & Hre'). split; [done|]. exists h2, R'. split; [done|]. by etransitivity.
  - intros ? s' [? [h1 ->]]. split; [done|]. exists h1, (R ++ c :: U'). split; [|reflexivity].
    rewrite HCM. rewrite set_hp_st. f_equal. list_assoc.
Qed.

Lemma binarysort_spec hv h CM CT m pre R U post hi start :
  CM = pre ++ R ++ U ++ post -> start = Zlen pre + Zlen R -> hi = start + Zlen U ->
  0 < Zlen R ->
  Forall (λ d, P d.1) (R ++ U) -> (ordered -> sorted_cells lt R) ->
  wp (binarysort key_compare (Slice Main (Zlen pre)) hi start)
    (λ _ s', ∃ h' R', s' = st hv h' (pre ++ R' ++ post) CT m ∧
       rearr ordered lt (R ++ U) R' ∧ (ordered -> sorted_cells lt R'))
    (failed ordered (rearranged_main hv CT m pre post (R ++ U))) (st hv h CM CT m).
Proof.
  intros HCM Hst Hhi HR HP Hs. unfold binarysort. cbn [po].
  apply wp_bind, wp_assert; [zlia|]. cbv zeta.
  destruct (_ =? _) eqn:Hc; bool_to_prop; [lia|].
  eapply binarysort_loop_spec; try done. zlia.
Qed.
End spec.
