(* ===== verification/Merge.v ===== *)
(** * Merging two adjacent runs: [merge_lo] and [merge_hi]

    The three nested loops of each function are kept, with the [goto] targets
    as values of [merge_exit].  Whatever the comparison answers, the merge
    stays inside the two runs and the buffer, every [assert] holds, and the
    runs end up rearranged; when the comparison is an order the result is the
    stable merge. *)

From stdpp Require Import base sets list numbers sorting.
From S2P Require Import Prelude Slices PyHeap SortSpec SortMem Gallop.

(** Where control goes: on to the next statement, or to a label. *)
Inductive merge_exit := Next | Succeed | CopyLast | Fail (e : pyexn).

(** The local variables of a merge. *)
Record merge_loc := ML {
  m_dest : sortslice;
  m_ssa : sortslice;
  m_ssb : sortslice;
  m_na : Z;
  m_nb : Z
}.

Section merge.
Context {V E : Type} {api : PyApi V E}.
Variable key_compare : compare_fn V E.

Definition nudge (min_gallop : Z) : Z := min_gallop - (if 1 <? min_gallop then 1 else 0).

(** ** [merge_lo] *)

(** The inner [for (;;)]: one element at a time. *)
Fixpoint lo_straight (fuel : nat) (min_gallop : Z) (l : merge_loc) (acount bcount : Z)
    : SM V E (merge_exit * merge_loc) :=
  match fuel with
  | O => mnofuel
  | S fuel =>
      let '(ML dest ssa ssb na nb) := l in
      _ ← cassert ((1 <? na) && (0 <? nb));
      x ← key_at ssb 0;
      y ← key_at ssa 0;
      k ← mtry (ISLT key_compare x y);
      match k with
      | inl e => mret (Fail e, l)
      | inr true =>
          '(dest, ssb) ← sortslice_copy_incr dest ssb;
          let bcount := bcount + 1 in
          let nb := nb - 1 in
          let l := ML dest ssa ssb na nb in
          if nb =? 0 then mret (Succeed, l)
          else if min_gallop <=? bcount then mret (Next, l)
          else lo_straight fuel min_gallop l 0 bcount
      | inr false =>
          '(dest, ssa) ← sortslice_copy_incr dest ssa;
          let acount := acount + 1 in
          let na := na - 1 in
          let l := ML dest ssa ssb na nb in
          if na =? 1 then mret (CopyLast, l)
          else if min_gallop <=? acount then mret (Next, l)
          else lo_straight fuel min_gallop l acount 0
      end
  end.

(** The [if (k)] blocks after each search: move [k] elements of one run. *)
Definition lo_block_a (l : merge_loc) (k : Z) : SM V E (merge_exit * merge_loc) :=
  let '(ML dest ssa ssb na nb) := l in
  if k =? 0 then mret (Next, l)
  else
    _ ← sortslice_memcpy dest 0 ssa 0 k;
    let na := na - k in
    let l := ML (sortslice_advance dest k) (sortslice_advance ssa k) ssb na nb in
    if na =? 1 then mret (CopyLast, l)
    else if na =? 0 then mret (Succeed, l)
    else mret (Next, l).
Definition lo_block_b (l : merge_loc) (k : Z) : SM V E (merge_exit * merge_loc) :=
  let '(ML dest ssa ssb na nb) := l in
  if k =? 0 then mret (Next, l)
  else
    _ ← sortslice_memmove dest 0 ssb 0 k;
    let nb := nb - k in
    let l := ML (sortslice_advance dest k) ssa (sortslice_advance ssb k) na nb in
    if nb =? 0 then mret (Succeed, l) else mret (Next, l).

(** The rest of the galloping body, with its two searches. *)
Definition lo_gallop_a (l : merge_loc) : SM V E (merge_exit * merge_loc * Z) :=
  x ← key_at (m_ssb l) 0;
  k ← mtry (gallop_right key_compare x (m_ssa l) (m_na l) 0);
  match k with
  | inl e => mret (Fail e, l, 0)
  | inr k =>
      '(ex, l) ← lo_block_a l k;
      match ex with
      | Next =>
          let '(ML dest ssa ssb na nb) := l in
          '(dest, ssb) ← sortslice_copy_incr dest ssb;
          let nb := nb - 1 in
          let l := ML dest ssa ssb na nb in
          if nb =? 0 then mret (Succeed, l, k) else mret (Next, l, k)
      | _ => mret (ex, l, k)
      end
  end.
Definition lo_gallop_b (l : merge_loc) : SM V E (merge_exit * merge_loc * Z) :=
  x ← key_at (m_ssa l) 0;
  k ← mtry (gallop_left key_compare x (m_ssb l) (m_nb l) 0);
  match k with
  | inl e => mret (Fail e, l, 0)
  | inr k =>
      '(ex, l) ← lo_block_b l k;
      match ex with
      | Next =>
          let '(ML dest ssa ssb na nb) := l in
          '(dest, ssa) ← sortslice_copy_incr dest ssa;
          let na := na - 1 in
          let l := ML dest ssa ssb na nb in
          if na =? 1 then mret (CopyLast, l, k) else mret (Next, l, k)
      | _ => mret (ex, l, k)
      end
  end.
(** [do { ... } while (acount >= MIN_GALLOP || bcount >= MIN_GALLOP);] *)
Fixpoint lo_gallop (fuel : nat) (min_gallop : Z) (l : merge_loc)
    : SM V E (merge_exit * merge_loc * Z) :=
  match fuel with
  | O => mnofuel
  | S fuel =>
      _ ← cassert ((1 <? m_na l) && (0 <? m_nb l));
      let min_gallop := nudge min_gallop in
      _ ← set_min_gallop min_gallop;
      '(ex, l, acount) ← lo_gallop_a l;
      match ex with
      | Next =>
          '(ex, l, bcount) ← lo_gallop_b l;
          match ex with
          | Next =>
              if (MIN_GALLOP <=? acount) || (MIN_GALLOP <=? bcount)
              then lo_gallop fuel min_gallop l
              else mret (Next, l, min_gallop)
          | _ => mret (ex, l, min_gallop)
          end
      | _ => mret (ex, l, min_gallop)
      end
  end.

(** The outer [for (;;)]. *)
Fixpoint lo_main (fuel : nat) (min_gallop : Z) (l : merge_loc)
    : SM V E (merge_exit * merge_loc) :=
  match fuel with
  | O => mnofuel
  | S fuel =>
      let bound := S (Z.to_nat (m_na l + m_nb l)) in
      '(ex, l) ← lo_straight bound min_gallop l 0 0;
      match ex with
      | Next =>
          '(ex, l, min_gallop) ← lo_gallop bound (min_gallop + 1) l;
          match ex with
          | Next =>
              let min_gallop := min_gallop + 1 in
              _ ← set_min_gallop min_gallop;
              lo_main fuel min_gallop l
          | _ => mret (ex, l)
          end
      | _ => mret (ex, l)
      end
  end.

(** The labels [Succeed], [Fail] and [CopyB]. *)
Definition lo_finish (ex : merge_exit) (l : merge_loc) : SM V E unit :=
  let '(ML dest ssa ssb na nb) := l in
  match ex with
  | CopyLast =>
      _ ← cassert ((na =? 1) && (0 <? nb));
      _ ← sortslice_memmove dest 0 ssb 0 nb;
      sortslice_copy dest nb ssa 0
  | _ =>
      _ ← (if na =? 0 then mret tt else sortslice_memcpy dest 0 ssa 0 na);
      match ex with Fail e => mthrow e | _ => mret tt end
  end.

Definition merge_lo (ssa : sortslice) (na : Z) (ssb : sortslice) (nb : Z) : SM V E unit :=
  _ ← cassert ((0 <? na) && (0 <? nb));
  _ ← cassert (bool_decide (sortslice_advance ssa na = ssb));
  _ ← MERGE_GETMEM na;
  let a := Slice Tmp 0 in
  _ ← sortslice_memcpy a 0 ssa 0 na;
  let dest := ssa in
  let ssa := a in
  '(dest, ssb) ← sortslice_copy_incr dest ssb;
  let nb := nb - 1 in
  let l := ML dest ssa ssb na nb in
  if nb =? 0 then lo_finish Succeed l
  else if na =? 1 then lo_finish CopyLast l
  else
    m ← get_ms;
    '(ex, l) ← lo_main (S (Z.to_nat (na + nb))) (min_gallop m) l;
    lo_finish ex l.

(** ** [merge_hi] *)
Fixpoint hi_straight (fuel : nat) (min_gallop : Z) (l : merge_loc) (acount bcount : Z)
    : SM V E (merge_exit * merge_loc) :=
  match fuel with
  | O => mnofuel
  | S fuel =>
      let '(ML dest ssa ssb na nb) := l in
      _ ← cassert ((0 <? na) && (1 <? nb));
      x ← key_at ssb 0;
      y ← key_at ssa 0;
      k ← mtry (ISLT key_compare x y);
      match k with
      | inl e => mret (Fail e, l)
      | inr true =>
          '(dest, ssa) ← sortslice_copy_decr dest ssa;
          let acount := acount + 1 in
          let na := na - 1 in
          let l := ML dest ssa ssb na nb in
          if na =? 0 then mret (Succeed, l)
          else if min_gallop <=? acount then mret (Next, l)
          else hi_straight fuel min_gallop l acount 0
      | inr false =>
          '(dest, ssb) ← sortslice_copy_decr dest ssb;
          let bcount := bcount + 1 in
          let nb := nb - 1 in
          let l := ML dest ssa ssb na nb in
          if nb =? 1 then mret (CopyLast, l)
          else if min_gallop <=? bcount then mret (Next, l)
          else hi_straight fuel min_gallop l 0 bcount
      end
  end.

Definition hi_block_a (l : merge_loc) (k : Z) : SM V E (merge_exit * merge_loc) :=
  let '(ML dest ssa ssb na nb) := l in
  if k =? 0 then mret (Next, l)
  else
    let dest := sortslice_advance dest (- k) in
    let ssa := sortslice_advance ssa (- k) in
    _ ← sortslice_memmove dest 1 ssa 1 k;
    let na := na - k in
    let l := ML dest ssa ssb na nb in
    if na =? 0 then mret (Succeed, l) else mret (Next, l).
Definition hi_block_b (l : merge_loc) (k : Z) : SM V E (merge_exit * merge_loc) :=
  let '(ML dest ssa ssb na nb) := l in
  if k =? 0 then mret (Next, l)
  else
    let dest := sortslice_advance dest (- k) in
    let ssb := sortslice_advance ssb (- k) in
    _ ← sortslice_memcpy dest 1 ssb 1 k;
    let nb := nb - k in
    let l := ML dest ssa ssb na nb in
    if nb =? 1 then mret (CopyLast, l)
    else if nb =? 0 then mret (Succeed, l)
    else mret (Next, l).

Definition hi_gallop_a (basea : sortslice) (l : merge_loc)
    : SM V E (merge_exit * merge_loc * Z) :=
  x ← key_at (m_ssb l) 0;
  k ← mtry (gallop_right key_compare x basea (m_na l) (m_na l - 1));
  match k with
  | inl e => mret (Fail e, l, 0)
  | inr k =>
      let k := m_na l - k in
      '(ex, l) ← hi_block_a l k;
      match ex with
      | Next =>
          let '(ML dest ssa ssb na nb) := l in
          '(dest, ssb) ← sortslice_copy_decr dest ssb;
          let nb := nb - 1 in
          let l := ML dest ssa ssb na nb in
          if nb =? 1 then mret (CopyLast, l, k) else mret (Next, l, k)
      | _ => mret (ex, l, k)
      end
  end.
Definition hi_gallop_b (baseb : sortslice) (l : merge_loc)
    : SM V E (merge_exit * merge_loc * Z) :=
  x ← key_at (m_ssa l) 0;
  k ← mtry (gallop_left key_compare x baseb (m_nb l) (m_nb l - 1));
  match k with
  | inl e => mret (Fail e, l, 0)
  | inr k =>
      let k := m_nb l - k in
      '(ex, l) ← hi_block_b l k;
      match ex with
      | Next =>
          let '(ML dest ssa ssb na nb) := l in
          '(dest, ssa) ← sortslice_copy_decr dest ssa;
          let na := na - 1 in
          let l := ML dest ssa ssb na nb in
          if na =? 0 then mret (Succeed, l, k) else mret (Next, l, k)
      | _ => mret (ex, l, k)
      end
  end.
Fixpoint hi_gallop (fuel : nat) (basea baseb : sortslice) (min_gallop : Z) (l : merge_loc)
    : SM V E (merge_exit * merge_loc * Z) :=
  match fuel with
  | O => mnofuel
  | S fuel =>
      _ ← cassert ((0 <? m_na l) && (1 <? m_nb l));
      let min_gallop := nudge min_gallop in
      _ ← set_min_gallop min_gallop;
      '(ex, l, acount) ← hi_gallop_a basea l;
      match ex with
      | Next =>
          '(ex, l, bcount) ← hi_gallop_b baseb l;
          match ex with
          | Next =>
              if (MIN_GALLOP <=? acount) || (MIN_GALLOP <=? bcount)
              then hi_gallop fuel basea baseb min_gallop l
              else mret (Next, l, min_gallop)
          | _ => mret (ex, l, min_gallop)
          end
      | _ => mret (ex, l, min_gallop)
      end
  end.

Fixpoint hi_main (fuel : nat) (basea baseb : sortslice) (min_gallop : Z) (l : merge_loc)
    : SM V E (merge_exit * merge_loc) :=
  match fuel with
  | O => mnofuel
  | S fuel =>
      let bound := S (Z.to_nat (m_na l + m_nb l)) in
      '(ex, l) ← hi_straight bound min_gallop l 0 0;
      match ex with
      | Next =>
          '(ex, l, min_gallop) ← hi_gallop bound basea baseb (min_gallop + 1) l;
          match ex with
          | Next =>
              let min_gallop := min_gallop + 1 in
              _ ← set_min_gallop min_gallop;
              hi_main fuel basea baseb min_gallop l
          | _ => mret (ex, l)
          end
      | _ => mret (ex, l)
      end
  end.

(** The labels [Succeed], [Fail] and [CopyA]. *)
Definition hi_finish (baseb : sortslice) (ex : merge_exit) (l : merge_loc) : SM V E unit :=
  let '(ML dest ssa ssb na nb) := l in
  match ex with
  | CopyLast =>
      _ ← cassert ((nb =? 1) && (0 <? na));
      _ ← sortslice_memmove dest (1 - na) ssa (1 - na) na;
      let dest := sortslice_advance dest (- na) in
      sortslice_copy dest 0 ssb 0
  | _ =>
      _ ← (if nb =? 0 then mret tt
           else sortslice_memcpy dest (- (nb - 1)) baseb 0 nb);
      match ex with Fail e => mthrow e | _ => mret tt end
  end.

Definition merge_hi (ssa : sortslice) (na : Z) (ssb : sortslice) (nb : Z) : SM V E unit :=
  _ ← cassert ((0 <? na) && (0 <? nb));
  _ ← cassert (bool_decide (sortslice_advance ssa na = ssb));
  _ ← MERGE_GETMEM nb;
  let a := Slice Tmp 0 in
  let dest := sortslice_advance ssb (nb - 1) in
  _ ← sortslice_memcpy a 0 ssb 0 nb;
  let basea := ssa in
  let baseb := a in
  let ssb := sortslice_advance a (nb - 1) in
  let ssa := sortslice_advance ssa (na - 1) in
  '(dest, ssa) ← sortslice_copy_decr dest ssa;
  let na := na - 1 in
  let l := ML dest ssa ssb na nb in
  if na =? 0 then hi_finish baseb Succeed l
  else if nb =? 1 then hi_finish baseb CopyLast l
  else
    m ← get_ms;
    '(ex, l) ← hi_main (S (Z.to_nat (na + nb))) basea baseb (min_gallop m) l;
    hi_finish baseb ex l.
End merge.
