(* ===== verification/MergeLo.v ===== *)
(** * Correctness of [merge_lo] *)

From stdpp Require Import base sets list numbers sorting.
From S2P Require Import Prelude Slices PyHeap SortSpec SortMem Gallop Merge.

Ltac mlia := cbn [m_dest m_ssa m_ssb m_na m_nb] in *; slia.

(** Equality of two sets of local variables. *)
Ltac ml_eq :=
  unfold sortslice_advance; cbn [po pw m_dest m_ssa m_ssb m_na m_nb];
  f_equal; first [done | zlia | f_equal; zlia].

(** A fact about the two runs of an ordered merge. *)
Ltac by_ord HF :=
  first [done | match goal with H : Forall _ (_ :: _) |- _ => by inversion H end
        | let Ho := fresh "Ho" in intros Ho; by destruct (HF Ho)].

(** Merge states that differ at most in [min_gallop]. *)
Definition ms_same (m m' : MergeState) : Prop :=
  ∃ g, m' = MkMS g (on_stack m) (alloced m) (nrun m) (pending m).
Lemma ms_same_refl m : ms_same m m.
Proof. exists (min_gallop m). by destruct m. Qed.

Section lo.
Context {V E : Type} {api : PyApi V E}.
Variable key_compare : compare_fn V E.
Variables (ordered : Prop) (P : V -> Prop) (lt : V -> V -> bool).
Hypothesis Hcmp : cmp_ok key_compare ordered P lt.
(** The merged region [R0] between [pre] and [post], the merge state and the
    length of the buffer. *)
Variables (hv : bool) (pre post R0 : list (V * V)) (m : MergeState) (tlen : Z).
Hypothesis HP : Forall (λ c, P c.1) R0.
Hypothesis Hmax : Zlen R0 <= MAX_ITEMS.

#[local] Instance lo_swo : StrictWeakOrder lt := cmp_swo _ _ _ _ Hcmp.

(** [D] has been merged, [A] is left in the buffer and [B] in place. *)
Definition lo_ord (D A B : list (V * V)) : Prop :=
  sorted_cells lt (D ++ A) ∧ sorted_cells lt (D ++ B) ∧
  ∀ A' z, A = A' ++ [z] -> all_lt lt B [z].

Lemma lo_ord_take_b D A B1 B2 :
  lo_ord D A (B1 ++ B2) -> all_lt lt B1 A -> lo_ord (D ++ B1) A B2.
Proof.
  intros (H1 & H2 & H3) H4. rewrite app_assoc in H2. split_and!; [|done|].
  - apply (sorted_app lt) in H1 as (HD & HA & HDA).
    apply (sorted_app lt) in H2 as (HDB & _ & _).
    apply (sorted_app lt). split_and!; [done|done|].
    apply all_le_app_l. split; [done|]. by apply (all_lt_all_le lt).
  - intros A' z HA. pose proof (H3 A' z HA) as H5. apply all_lt_app_l in H5 as [_ ?]. done.
Qed.
Lemma lo_ord_take_a D A1 A2 B :
  lo_ord D (A1 ++ A2) B -> all_le lt A1 B -> lo_ord (D ++ A1) A2 B.
Proof.
  intros (H1 & H2 & H3) H4. rewrite app_assoc in H1. split_and!; [done|..].
  - apply (sorted_app lt) in H1 as (HDA & _ & _).
    apply (sorted_app lt) in H2 as (HD & HB & HDB).
    apply (sorted_app lt). split_and!; [done|done|].
    by apply all_le_app_l.
  - intros A' z ->. apply (H3 (A1 ++ A')). list_assoc.
Qed.

Definition lo_inv (l : merge_loc) (A B : list (V * V)) (s : sortst V E) : Prop :=
  ∃ h m' D G T1 T2,
    s = st hv h (pre ++ D ++ G ++ B ++ post) (T1 ++ A ++ T2) m' ∧ ms_same m m' ∧
    l = ML (Slice Main (Zlen pre + Zlen D)) (Slice Tmp (Zlen T1))
           (Slice Main (Zlen pre + Zlen D + Zlen G)) (Zlen A) (Zlen B) ∧
    Zlen G = Zlen A ∧ Zlen T1 + Zlen A + Zlen T2 = tlen ∧
    rearr ordered lt R0 (D ++ A ++ B) ∧ (ordered -> lo_ord D A B).

Lemma lo_inv_heap l A B s s' : lo_inv l A B s -> heap_only s s' -> lo_inv l A B s'.
Proof.
  intros (h & m' & D & G & T1 & T2 & -> & ?) [h' ->]. by exists h', m', D, G, T1, T2.
Qed.
Lemma lo_inv_na l A B s : lo_inv l A B s -> m_na l = Zlen A ∧ m_nb l = Zlen B.
Proof. by intros (h & m' & D & G & T1 & T2 & _ & _ & -> & _). Qed.
Lemma lo_inv_facts l A B s :
  lo_inv l A B s ->
  Zlen A + Zlen B <= MAX_ITEMS ∧ Forall (λ c, P c.1) A ∧ Forall (λ c, P c.1) B ∧
  (ordered -> sorted_cells lt A ∧ sorted_cells lt B).
Proof.
  intros (h & m' & D & G & T1 & T2 & _ & _ & _ & _ & _ & Hre & Ho).
  pose proof (rearr_Forall _ _ _ _ _ Hre HP) as HF. rewrite !Forall_app in HF.
  split_and!; [apply rearr_Zlen in Hre; zlia|naive_solver..|].
  intros Hord. destruct (Ho Hord) as (H1 & H2 & _).
  apply (sorted_app lt) in H1 as (_ & H1 & _). by apply (sorted_app lt) in H2 as (_ & H2 & _).
Qed.
Lemma wp_lo_min_gallop g l A B s Q X :
  lo_inv l A B s -> (∀ s', lo_inv l A B s' -> Q tt s') -> wp (set_min_gallop g) Q X s.
Proof.
  intros (h & m' & D & G & T1 & T2 & -> & [g' ->] & Hr) HQ. unfold set_min_gallop.
  apply wp_bind. unfold get_ms, wpo. cbn [ms st]. apply HQ.
  eexists h, _, D, G, T1, T2. split; [done|]. split; [by exists g|done].
Qed.

(** The heads of the two remaining runs. *)
Lemma wp_lo_key_a l a A B s Q X :
  lo_inv l (a :: A) B s -> Q a.1 s -> wp (key_at (m_ssa l) 0) Q X s.
Proof.
  intros (h & m' & D & G & T1 & T2 & -> & _ & -> & _) HQ.
  eapply (wp_key_at _ _ _ _ _ _ _ T1 a (A ++ T2)); [done|mlia|done].
Qed.
Lemma wp_lo_key_b l b A B s Q X :
  lo_inv l A (b :: B) s -> Q b.1 s -> wp (key_at (m_ssb l) 0) Q X s.
Proof.
  intros (h & m' & D & G & T1 & T2 & -> & _ & -> & _) HQ.
  eapply (wp_key_at _ _ _ _ _ _ _ (pre ++ D ++ G) b (B ++ post)); [cbn; list_assoc|mlia|done].
Qed.

(** Taking a block of the buffer, or of the run in place. *)
Lemma lo_move_a l A1 A2 B s :
  lo_inv l (A1 ++ A2) B s -> (ordered -> all_le lt A1 B) ->
  ∃ s', block_move hv (m_dest l) 0 (m_ssa l) 0 (Zlen A1) s s' ∧
    lo_inv (ML (sortslice_advance (m_dest l) (Zlen A1))
               (sortslice_advance (m_ssa l) (Zlen A1)) (m_ssb l)
               (m_na l - Zlen A1) (m_nb l)) A2 B s'.
Proof.
  intros (h & m' & D & G & T1 & T2 & -> & Hm & -> & HG & HT & Hre & Ho) Hle.
  destruct (Zlen_split (Zlen A1) G) as (G1 & G2 & -> & HG1); [zlia|].
  eexists. split.
  - eexists h, _, _, m', (pre ++ D), G1, (G2 ++ B ++ post), T1, A1, (A2 ++ T2).
    split_and!; [done|cbn; list_assoc|cbn; list_assoc|mlia|mlia|done|done|done].
  - cbn [sel pw m_dest]. exists h, m', (D ++ A1), G2, (T1 ++ A1), T2. split_and?.
    + f_equal; list_assoc.
    + done.
    + ml_eq.
    + zlia.
    + zlia.
    + replace ((D ++ A1) ++ A2 ++ B) with (D ++ (A1 ++ A2) ++ B) by list_assoc. done.
    + intros Hord. apply lo_ord_take_a; [by apply Ho|by apply Hle].
Qed.
Lemma lo_move_b l A B1 B2 s :
  lo_inv l A (B1 ++ B2) s -> (ordered -> all_lt lt B1 A) ->
  ∃ s', block_move hv (m_dest l) 0 (m_ssb l) 0 (Zlen B1) s s' ∧
    lo_inv (ML (sortslice_advance (m_dest l) (Zlen B1)) (m_ssa l)
               (sortslice_advance (m_ssb l) (Zlen B1))
               (m_na l) (m_nb l - Zlen B1)) A B2 s'.
Proof.
  intros (h & m' & D & G & T1 & T2 & -> & Hm & -> & HG & HT & Hre & Ho) Hle.
  destruct (Zlen_split (Zlen B1) (G ++ B1)) as (X1 & X2 & HX & HX1); [zlia|].
  assert (Zlen X2 = Zlen G) as HX2.
  { apply (f_equal Zlen) in HX. zlia. }
  eexists. split.
  - eexists h, _, _, m', (pre ++ D), X1, (X2 ++ B2 ++ post), (pre ++ D ++ G), B1, (B2 ++ post).
    split_and!; [done| |cbn; list_assoc|mlia|mlia|done|done|done].
    cbn. rewrite <- !app_assoc. do 2 f_equal.
    rewrite (app_assoc X1), <- HX. list_assoc.
  - cbn [sel pw m_dest]. exists h, m', (D ++ B1), X2, T1, T2. split_and?.
    + f_equal; list_assoc.
    + done.
    + ml_eq.
    + lia.
    + zlia.
    + etransitivity; [exact Hre|]. rewrite <- app_assoc.
      apply rearr_app; [reflexivity|]. rewrite !app_assoc.
      apply rearr_app; [|reflexivity]. by apply (rearr_swap ordered lt).
    + intros Hord. apply lo_ord_take_b; [by apply Ho|by apply Hle].
Qed.

(** ** The loops *)
Definition lo_exit (n : Z) (ex : merge_exit) (l : merge_loc) (s : sortst V E) : Prop :=
  ∃ A B, lo_inv l A B s ∧
    match ex with
    | Next => 1 < Zlen A ∧ 0 < Zlen B ∧ Zlen A + Zlen B < n
    | Succeed => Zlen A = 0 ∨ Zlen B = 0
    | CopyLast => Zlen A = 1 ∧ 0 < Zlen B
    | Fail _ => ¬ ordered
    end.
Definition no_exn : pyexn -> sortst V E -> Prop := λ _ _, False.

Lemma lo_exit_lt n n' ex l s : lo_exit n ex l s -> n <= n' -> lo_exit n' ex l s.
Proof.
  intros (A & B & Hinv & Hex) Hn. exists A, B. split; [done|]. destruct ex; try done. lia.
Qed.
Lemma lo_exit_intro n ex l A B s :
  lo_inv l A B s ->
  (ex = Next -> 1 < Zlen A ∧ 0 < Zlen B ∧ Zlen A + Zlen B < n) ->
  (ex = Succeed -> Zlen A = 0 ∨ Zlen B = 0) ->
  (ex = CopyLast -> Zlen A = 1 ∧ 0 < Zlen B) ->
  match ex with Fail _ => False | _ => True end -> lo_exit n ex l s.
Proof. intros Hinv H1 H2 H3 H4. exists A, B. split; [done|]. destruct ex; auto; done. Qed.

Lemma wp_lo_copy_a l a A B s Q X :
  lo_inv l (a :: A) B s -> (ordered -> all_le lt [a] B) ->
  (∀ s', let dest := sortslice_advance (m_dest l) 1 in
         let ssa := sortslice_advance (m_ssa l) 1 in
         lo_inv (ML dest ssa (m_ssb l) (m_na l - 1) (m_nb l)) A B s' ->
         Q (dest, ssa) s') ->
  wp (sortslice_copy_incr (m_dest l) (m_ssa l)) Q X s.
Proof.
  intros Hinv Hle HQ. destruct (lo_move_a l [a] A B s Hinv Hle) as (s' & Hm & Hinv').
  apply wp_bind. eapply wp_move_copy; [exact Hm|]. apply wp_ret. by apply HQ.
Qed.
Lemma wp_lo_copy_b l A b B s Q X :
  lo_inv l A (b :: B) s -> (ordered -> all_lt lt [b] A) ->
  (∀ s', let dest := sortslice_advance (m_dest l) 1 in
         let ssb := sortslice_advance (m_ssb l) 1 in
         lo_inv (ML dest (m_ssa l) ssb (m_na l) (m_nb l - 1)) A B s' ->
         Q (dest, ssb) s') ->
  wp (sortslice_copy_incr (m_dest l) (m_ssb l)) Q X s.
Proof.
  intros Hinv Hle HQ. destruct (lo_move_b l A [b] B s Hinv Hle) as (s' & Hm & Hinv').
  apply wp_bind. eapply wp_move_copy; [exact Hm|]. apply wp_ret. by apply HQ.
Qed.

(** Comparing the heads decides which of them comes next. *)
Lemma wp_lo_islt l (a b : V * V) A B s (Q : pyexn + bool -> sortst V E -> Prop) X :
  lo_inv l (a :: A) (b :: B) s ->
  (∀ (k : bool) s', lo_inv l (a :: A) (b :: B) s' ->
     (ordered -> if k then all_lt lt [b] (a :: A) else all_le lt [a] (b :: B)) ->
     Q (inr k) s') ->
  (∀ e s', ¬ ordered -> lo_inv l (a :: A) (b :: B) s' -> Q (inl e) s') ->
  wp (mtry (ISLT key_compare b.1 a.1)) Q X s.
Proof.
  intros Hinv HQ HX. apply wp_try. destruct (lo_inv_facts _ _ _ _ Hinv) as (_ & HA & HB & HF).
  apply Forall_cons in HA as [HA _], HB as [HB _].
  eapply wp_ISLT; [exact Hcmp|exact HB|exact HA|intros k h' Hk|intros e h' Hno; apply HX; [done|]].
  2:{ eapply lo_inv_heap; [exact Hinv|by exists h']. }
  apply HQ; [eapply lo_inv_heap; [exact Hinv|by exists h']|].
  intros Ho. destruct (HF Ho) as [HsA HsB]. specialize (Hk Ho).
  destruct k; symmetry in Hk.
  - apply (all_lt_hd lt); [done|]. intros x y ->%list_elem_of_singleton ->%list_elem_of_singleton. done.
  - apply (all_le_hd lt); [done|]. intros x y ->%list_elem_of_singleton ->%list_elem_of_singleton. done.
Qed.

Lemma lo_straight_spec fuel g l A B ac bc s :
  lo_inv l A B s -> 1 < Zlen A -> 0 < Zlen B -> Zlen A + Zlen B < Z.of_nat fuel ->
  wp (lo_straight key_compare fuel g l ac bc)
    (λ '(ex, l') s', lo_exit (Zlen A + Zlen B) ex l' s') no_exn s.
Proof.
  revert l A B ac bc s. induction fuel as [|fuel IH]; intros l A B ac bc s Hinv HA HB Hf;
    [zlia|].
  destruct (Zlen_pos_inv A) as (a & A' & ->); [lia|].
  destruct (Zlen_pos_inv B) as (b & B' & ->); [lia|].
  destruct (lo_inv_na _ _ _ _ Hinv) as [Hna Hnb].
  destruct l as [dest ssa ssb na nb]. cbn [m_na m_nb] in Hna, Hnb. cbn [lo_straight].
  apply wp_bind, wp_assert; [lia|]. wp_step.
  eapply (wp_lo_key_b (ML dest ssa ssb na nb)); [exact Hinv|]. wp_step.
  eapply (wp_lo_key_a (ML dest ssa ssb na nb)); [exact Hinv|]. wp_step.
  eapply wp_lo_islt; [exact Hinv| |].
  2:{ intros e s' Hno Hinv'. cbv beta iota. wp_steps. by eexists _, _. }
  intros k s' Hinv' Hk. destruct k; cbv beta iota; wp_step.
  - eapply (wp_lo_copy_b (ML dest ssa ssb na nb)); [exact Hinv'|exact Hk|]. cbn [m_dest m_ssa m_ssb m_na m_nb].
    intros s'' Hi. cbv beta iota zeta. case_match eqn:E1; bool_to_prop; [|case_match eqn:E2; bool_to_prop].
    + wp_steps. eapply lo_exit_intro; [exact Hi|..]; zlia || done || zlia.
    + wp_steps. eapply lo_exit_intro; [exact Hi|..]; zlia || done.
    + eapply wp_conseq; [eapply IH; [exact Hi|zlia..]| |done].
      intros [ex l'] s3 H3. eapply lo_exit_lt; [exact H3|zlia].
  - eapply (wp_lo_copy_a (ML dest ssa ssb na nb)); [exact Hinv'|exact Hk|]. cbn [m_dest m_ssa m_ssb m_na m_nb].
    intros s'' Hi. cbv beta iota zeta. case_match eqn:E1; bool_to_prop; [|case_match eqn:E2; bool_to_prop].
    + wp_steps. eapply lo_exit_intro; [exact Hi|..]; zlia || done.
    + wp_steps. eapply lo_exit_intro; [exact Hi|..]; zlia || done.
    + eapply wp_conseq; [eapply IH; [exact Hi|zlia..]| |done].
      intros [ex l'] s3 H3. eapply lo_exit_lt; [exact H3|zlia].
Qed.

(** Searching one run for the head of the other. *)
Lemma wp_lo_gallop_right l A (b : V * V) B s (Q : pyexn + Z -> sortst V E -> Prop) X :
  lo_inv l A (b :: B) s -> 0 < Zlen A ->
  (∀ A1 A2 s', A = A1 ++ A2 -> lo_inv l A (b :: B) s' ->
     (ordered -> all_le lt A1 (b :: B) ∧ all_lt lt [b] A2) -> Q (inr (Zlen A1)) s') ->
  (∀ e s', ¬ ordered -> lo_inv l A (b :: B) s' -> Q (inl e) s') ->
  wp (mtry (gallop_right key_compare b.1 (m_ssa l) (m_na l) 0)) Q X s.
Proof.
  intros Hinv HA HQ HX. apply wp_try. destruct (lo_inv_facts _ _ _ _ Hinv) as (Hlen & HPA & HPB & HF).
  pose proof Hinv as (h & m' & D & G & T1 & T2 & -> & _ & -> & _). cbn [m_ssa m_na].
  eapply wp_conseq.
  - eapply (gallop_right_spec _ ordered P lt Hcmp _ _ _ _ _ T1 A T2);
      [done|done|by_ord HF|by_ord HF|zlia|lia|by_ord HF].
  - cbv beta. intros r s' (Hh & Hr & Hs).
    destruct (cut_at _ _ _ _ Hr Hs) as (A1 & A2 & HA12 & -> & Hcut).
    apply (HQ _ A2); [done|by eapply lo_inv_heap|]. intros Ho.
    destruct (Hcut Ho) as [H1 H2]. destruct (HF Ho) as [_ HsB].
    rewrite Forall_forall in H1, H2. split.
    + apply (all_le_hd lt); [done|]. intros c d Hc ->%list_elem_of_singleton.
      by apply negb_true_iff, H1.
    + intros c d ->%list_elem_of_singleton Hd. by apply negb_false_iff, H2.
  - cbv beta. intros e s' [Hno Hh]. apply HX; [done|]. by eapply lo_inv_heap.
Qed.
Lemma wp_lo_gallop_left l (a : V * V) A B s (Q : pyexn + Z -> sortst V E -> Prop) X :
  lo_inv l (a :: A) B s -> 0 < Zlen B ->
  (∀ B1 B2 s', B = B1 ++ B2 -> lo_inv l (a :: A) B s' ->
     (ordered -> all_lt lt B1 (a :: A) ∧ all_le lt [a] B2) -> Q (inr (Zlen B1)) s') ->
  (∀ e s', ¬ ordered -> lo_inv l (a :: A) B s' -> Q (inl e) s') ->
  wp (mtry (gallop_left key_compare a.1 (m_ssb l) (m_nb l) 0)) Q X s.
Proof.
  intros Hinv HB HQ HX. apply wp_try. destruct (lo_inv_facts _ _ _ _ Hinv) as (Hlen & HPA & HPB & HF).
  pose proof Hinv as (h & m' & D & G & T1 & T2 & -> & _ & -> & _). cbn [m_ssb m_nb].
  eapply wp_conseq.
  - eapply (gallop_left_spec _ ordered P lt Hcmp _ _ _ _ _ (pre ++ D ++ G) B post);
      [cbn; list_assoc|slia|by_ord HF|by_ord HF|zlia|lia|by_ord HF].
  - cbv beta. intros r s' (Hh & Hr & Hs).
    destruct (cut_at _ _ _ _ Hr Hs) as (B1 & B2 & HB12 & -> & Hcut).
    apply (HQ _ B2); [done|by eapply lo_inv_heap|]. intros Ho.
    destruct (Hcut Ho) as [H1 H2]. destruct (HF Ho) as [HsA _].
    rewrite Forall_forall in H1, H2. split.
    + apply (all_lt_hd lt); [done|]. intros c d Hc ->%list_elem_of_singleton. by apply H1.
    + intros c d ->%list_elem_of_singleton Hd. by apply H2.
  - cbv beta. intros e s' [Hno Hh]. apply HX; [done|]. by eapply lo_inv_heap.
Qed.

Lemma lo_block_a_spec l A1 A2 B s :
  lo_inv l (A1 ++ A2) B s -> (ordered -> all_le lt A1 B) -> 1 < Zlen (A1 ++ A2) ->
  wp (lo_block_a l (Zlen A1))
    (λ '(ex, l') s', lo_inv l' A2 B s' ∧
       match ex with
       | Next => 1 < Zlen A2 | CopyLast => Zlen A2 = 1 | Succeed => Zlen A2 = 0
       | Fail _ => False
       end) no_exn s.
Proof.
  intros Hinv Hle HA. destruct (lo_inv_na _ _ _ _ Hinv) as [Hna Hnb].
  destruct (lo_move_a l A1 A2 B s Hinv Hle) as (s' & Hm & Hinv').
  destruct l as [dest ssa ssb na nb]. cbn [m_dest m_ssa m_ssb m_na m_nb] in *.
  unfold lo_block_a. case_match eqn:E1; bool_to_prop.
  { apply wp_ret. apply Zlen_0_inv in E1 as ->. done. }
  apply wp_bind. eapply wp_move_cpy; [|exact Hm|].
  { destruct Hinv as (?&?&?&?&?&?&_&_&[=-> -> _ _ _]&_). done. }
  cbv zeta. case_match eqn:E2; [|case_match eqn:E3]; bool_to_prop; apply wp_ret;
    (split; [done|]); zlia.
Qed.
Lemma lo_block_b_spec l A B1 B2 s :
  lo_inv l A (B1 ++ B2) s -> (ordered -> all_lt lt B1 A) -> 0 < Zlen (B1 ++ B2) ->
  wp (lo_block_b l (Zlen B1))
    (λ '(ex, l') s', lo_inv l' A B2 s' ∧
       match ex with
       | Next => 0 < Zlen B2 | Succeed => Zlen B2 = 0
       | CopyLast | Fail _ => False
       end) no_exn s.
Proof.
  intros Hinv Hle HB. destruct (lo_inv_na _ _ _ _ Hinv) as [Hna Hnb].
  destruct (lo_move_b l A B1 B2 s Hinv Hle) as (s' & Hm & Hinv').
  destruct l as [dest ssa ssb na nb]. cbn [m_dest m_ssa m_ssb m_na m_nb] in *.
  unfold lo_block_b. case_match eqn:E1; bool_to_prop.
  { apply wp_ret. apply Zlen_0_inv in E1 as ->. done. }
  apply wp_bind. eapply wp_move; [exact Hm|].
  cbv zeta. case_match eqn:E2; bool_to_prop; apply wp_ret; (split; [done|]); zlia.
Qed.

Lemma lo_gallop_a_spec l A B s :
  lo_inv l A B s -> 1 < Zlen A -> 0 < Zlen B ->
  wp (lo_gallop_a key_compare l)
    (λ '(ex, l', _) s', lo_exit (Zlen A + Zlen B) ex l' s') no_exn s.
Proof.
  intros Hinv HA HB. destruct (Zlen_pos_inv B) as (b & B' & ->); [lia|].
  unfold lo_gallop_a. wp_step. eapply wp_lo_key_b; [exact Hinv|]. wp_step.
  eapply wp_lo_gallop_right; [exact Hinv|lia|..]; cbv beta iota.
  2:{ intros e s' Hno Hinv'. wp_steps. by eexists _, _. }
  intros A1 A2 s' -> Hinv' Ho. wp_step. eapply wp_conseq;
    [apply (lo_block_a_spec _ A1 A2 _ _ Hinv'); [by intros ?; apply Ho|done]| |done].
  intros [ex l'] s2 [Hinv2 Hex]. destruct ex; [|apply wp_ret..].
  - destruct l' as [dest ssa ssb na nb]. wp_step.
    destruct (lo_inv_na _ _ _ _ Hinv2) as [Hna Hnb]. cbn [m_na m_nb] in Hna, Hnb.
    eapply (wp_lo_copy_b (ML dest ssa ssb na nb)); [exact Hinv2|by intros ?; apply Ho|].
    cbn [m_dest m_ssa m_ssb m_na m_nb]. intros s3 Hinv3.
    cbv beta iota zeta. case_match eqn:E1; bool_to_prop; apply wp_ret;
      (eapply lo_exit_intro; [exact Hinv3|..]); intros; try done; zlia.
  - eapply lo_exit_intro; [exact Hinv2|..]; intros; try done; zlia.
  - eapply lo_exit_intro; [exact Hinv2|..]; intros; try done; zlia.
  - done.
Qed.
Lemma lo_gallop_b_spec l A B s :
  lo_inv l A B s -> 1 < Zlen A -> 0 < Zlen B ->
  wp (lo_gallop_b key_compare l)
    (λ '(ex, l', _) s', lo_exit (Zlen A + Zlen B) ex l' s') no_exn s.
Proof.
  intros Hinv HA HB. destruct (Zlen_pos_inv A) as (a & A' & ->); [lia|].
  unfold lo_gallop_b. wp_step. eapply wp_lo_key_a; [exact Hinv|]. wp_step.
  eapply wp_lo_gallop_left; [exact Hinv|lia|..]; cbv beta iota.
  2:{ intros e s' Hno Hinv'. wp_steps. by eexists _, _. }
  intros B1 B2 s' -> Hinv' Ho. wp_step. eapply wp_conseq;
    [apply (lo_block_b_spec _ _ B1 B2 _ Hinv'); [by intros ?; apply Ho|done]| |done].
  intros [ex l'] s2 [Hinv2 Hex]. destruct ex; [|apply wp_ret..|].
  - destruct l' as [dest ssa ssb na nb]. wp_step.
    destruct (lo_inv_na _ _ _ _ Hinv2) as [Hna Hnb]. cbn [m_na m_nb] in Hna, Hnb.
    eapply (wp_lo_copy_a (ML dest ssa ssb na nb)); [exact Hinv2|by intros ?; apply Ho|].
    cbn [m_dest m_ssa m_ssb m_na m_nb]. intros s3 Hinv3.
    cbv beta iota zeta. case_match eqn:E1; bool_to_prop; apply wp_ret;
      (eapply lo_exit_intro; [exact Hinv3|..]); intros; try done; zlia.
  - eapply lo_exit_intro; [exact Hinv2|..]; intros; try done; zlia.
  - done.
  - done.
Qed.

Lemma lo_gallop_spec fuel g l A B s :
  lo_inv l A B s -> 1 < Zlen A -> 0 < Zlen B -> Zlen A + Zlen B < Z.of_nat fuel ->
  wp (lo_gallop key_compare fuel g l)
    (λ '(ex, l', _) s', lo_exit (Zlen A + Zlen B) ex l' s') no_exn s.
Proof.
  revert g l A B s. induction fuel as [|fuel IH]; intros g l A B s Hinv HA HB Hf; [lia|].
  destruct (lo_inv_na _ _ _ _ Hinv) as [Hna Hnb]. cbn [lo_gallop].
  apply wp_bind, wp_assert; [lia|]. cbv zeta. wp_step.
  eapply wp_lo_min_gallop; [exact Hinv|]. intros s1 Hinv1. wp_step.
  eapply wp_conseq; [eapply lo_gallop_a_spec; [exact Hinv1|lia..]| |done].
  intros [[ex l1] ac] s2 Hex. destruct ex; try (apply wp_ret; exact Hex).
  destruct Hex as (A1 & B1 & Hinv2 & HA1 & HB1 & Hlt). wp_step.
  eapply wp_conseq; [eapply lo_gallop_b_spec; [exact Hinv2|lia..]| |done].
  intros [[ex l2] bc] s3 Hex. cbv beta iota.
  pose proof (lo_exit_lt _ (Zlen A + Zlen B) _ _ _ Hex ltac:(lia)) as Hex'.
  destruct ex; try (apply wp_ret; exact Hex').
  case_match; [|apply wp_ret; exact Hex'].
  destruct Hex as (A2 & B2 & Hinv3 & HA2 & HB2 & Hlt2).
  eapply wp_conseq; [eapply IH; [exact Hinv3|lia..]| |done].
  intros [[ex l3] g'] s4 Hex. eapply lo_exit_lt; [exact Hex|lia].
Qed.

(** The outer loop ends at one of the labels. *)
Lemma lo_main_spec fuel g l A B s :
  lo_inv l A B s -> 1 < Zlen A -> 0 < Zlen B -> Zlen A + Zlen B < Z.of_nat fuel ->
  wp (lo_main key_compare fuel g l)
    (λ '(ex, l') s', lo_exit 0 ex l' s') no_exn s.
Proof.
  revert g l A B s. induction fuel as [|fuel IH]; intros g l A B s Hinv HA HB Hf; [lia|].
  destruct (lo_inv_na _ _ _ _ Hinv) as [Hna Hnb]. cbn [lo_main]. cbv zeta. wp_step.
  eapply wp_conseq; [eapply lo_straight_spec; [exact Hinv|lia..]| |done].
  assert (∀ ex l' n s', ex ≠ Next -> lo_exit n ex l' s' -> lo_exit 0 ex l' s') as Hend.
  { intros ex l' n s' Hne (A' & B' & ? & ?). exists A', B'. split; [done|]. by destruct ex. }
  intros [ex l1] s1 Hex. destruct ex; try (apply wp_ret; by eapply Hend).
  destruct Hex as (A1 & B1 & Hinv1 & HA1 & HB1 & Hlt1). cbv beta iota.
  destruct (lo_inv_na _ _ _ _ Hinv1) as [Hna1 Hnb1]. wp_step.
  eapply wp_conseq; [eapply lo_gallop_spec; [exact Hinv1|lia..]| |done].
  intros [[ex l2] g2] s2 Hex. destruct ex; try (apply wp_ret; by eapply Hend).
  destruct Hex as (A2 & B2 & Hinv2 & HA2 & HB2 & Hlt2). cbv beta iota zeta. wp_step.
  eapply wp_lo_min_gallop; [exact Hinv2|]. intros s3 Hinv3.
  eapply IH; [exact Hinv3|lia..].
Qed.

(** ** The end: the merged region is complete *)
Definition merged (Q : list (V * V) -> Prop) (s : sortst V E) : Prop :=
  ∃ h m' R CT, s = st hv h (pre ++ R ++ post) CT m' ∧ ms_same m m' ∧ Zlen CT = tlen ∧
    rearr ordered lt R0 R ∧ Q R.
Definition merge_done : sortst V E -> Prop := merged (λ R, ordered -> sorted_cells lt R).
Definition merge_failed : pyexn -> sortst V E -> Prop :=
  failed ordered (merged (λ _, True)).

Lemma lo_inv_done l B s : lo_inv l [] B s -> merge_done s.
Proof.
  intros (h & m' & D & G & T1 & T2 & -> & Hm & _ & HG & HT & Hre & Ho).
  apply Zlen_0_inv in HG as ->. exists h, m', (D ++ B), (T1 ++ T2). split_and?.
  - f_equal. list_assoc.
  - done.
  - zlia.
  - exact Hre.
  - intros Hord. by apply Ho.
Qed.
Lemma merge_done_failed e s : ¬ ordered -> merge_done s -> merge_failed e s.
Proof. intros Hno (h & m' & R & CT & ?&?&?&?&_). split; [done|]. by exists h, m', R, CT. Qed.

(** Copying back what is left in the buffer. *)
Lemma lo_copy_back l A B s Q X :
  lo_inv l A B s -> (ordered -> B = []) ->
  (∀ s', merge_done s' -> Q tt s') ->
  wp (if m_na l =? 0 then mret tt else sortslice_memcpy (m_dest l) 0 (m_ssa l) 0 (m_na l))
     Q X s.
Proof.
  intros Hinv HB HQ. destruct (lo_inv_na _ _ _ _ Hinv) as [-> _].
  case_match eqn:E1; bool_to_prop.
  { apply wp_ret, HQ. apply Zlen_0_inv in E1 as ->. by eapply lo_inv_done. }
  destruct (lo_move_a l A [] B s) as (s' & Hm & Hinv').
  { by rewrite app_nil_r. }
  { intros Ho. rewrite (HB Ho). apply (all_le_nil_r lt). }
  eapply wp_move_cpy; [|exact Hm|by eapply HQ, lo_inv_done].
  destruct Hinv as (?&?&?&?&?&?&_&_&->&_). done.
Qed.
Lemma lo_finish_spec ex l s :
  lo_exit 0 ex l s -> wp (lo_finish ex l) (λ _, merge_done) merge_failed s.
Proof.
  intros (A & B & Hinv & Hex). destruct l as [dest ssa ssb na nb].
  destruct (lo_inv_na _ _ _ _ Hinv) as [Hna Hnb]. cbn [m_na m_nb] in Hna, Hnb.
  destruct ex; cbn [lo_finish].
  - zlia.
  - wp_step. destruct Hex as [HA|HB].
    + apply Zlen_0_inv in HA as ->. rewrite Hna. apply wp_ret, wp_ret.
      by eapply lo_inv_done.
    + apply Zlen_0_inv in HB as ->.
      eapply (lo_copy_back (ML dest ssa ssb na nb)); [exact Hinv|done|].
      intros s' Hs'. by apply wp_ret.
  - destruct Hex as [HA HB]. destruct (Zlen_1_inv A HA) as [z ->].
    apply wp_bind, wp_assert; [lia|]. wp_step.
    destruct (lo_move_b (ML dest ssa ssb na nb) [z] B [] s) as (s1 & Hm1 & Hinv1); [by rewrite app_nil_r|..].
    { intros Ho. destruct Hinv as (h & m' & D & G & T1 & T2 & _ & _ & _ & _ & _ & _ & Hlo).
      destruct (Hlo Ho) as (_ & _ & H3). by apply (H3 []). }
    cbn [m_dest m_ssa m_ssb m_na m_nb] in Hm1, Hinv1. rewrite <- Hnb in Hm1, Hinv1.
    eapply wp_move; [exact Hm1|].
    destruct (lo_move_a _ [z] [] [] s1 Hinv1) as (s2 & Hm2 & Hinv2).
    { intros _. apply (all_le_nil_r lt). }
    cbn [m_dest m_ssa] in Hm2.
    eapply (block_move_pos _ _ _ dest nb) in Hm2; [|done|slia|done..].
    eapply wp_move_copy; [exact Hm2|]. by eapply lo_inv_done.
  - wp_step. eapply (lo_copy_back (ML dest ssa ssb na nb)); [exact Hinv|done|].
    intros s' Hs'. apply wp_throw. by apply merge_done_failed.
Qed.
End lo.

(** ** What a merge of two adjacent runs achieves *)
Section merge_spec.
Context {V E : Type} {api : PyApi V E}.
Variables (ordered : Prop) (lt : V -> V -> bool).
Variables (hv : bool) (pre post : list (V * V)) (m : MergeState).

Definition region_done (R0 : list (V * V)) (s : sortst V E) : Prop :=
  ∃ h m' R CT, s = st hv h (pre ++ R ++ post) CT m' ∧ runs_same m m' ∧
    alloced m' = Zlen CT ∧ rearr ordered lt R0 R ∧ (ordered -> sorted_cells lt R).
(** With an ordering the only failure is running out of memory. *)
Definition region_failed (R0 : list (V * V)) (e : pyexn) (s : sortst V E) : Prop :=
  (ordered -> e = PyErr MemoryError no_msg) ∧
  ∃ h m' R CT, s = st hv h (pre ++ R ++ post) CT m' ∧ runs_same m m' ∧
    rearr ordered lt R0 R.

(** The runs handed to a merge: both sorted, the first element of the second
    belongs before the first run, the last one of the first run at the end. *)
Definition merge_ready (A B : list (V * V)) : Prop :=
  sorted_cells lt A ∧ sorted_cells lt B ∧
  (∀ b B', B = b :: B' -> all_lt lt [b] A) ∧ (∀ A' z, A = A' ++ [z] -> all_lt lt B [z]).

Lemma merge_done_region R0 tlen m1 s :
  runs_same m m1 -> alloced m1 = tlen ->
  merge_done ordered lt hv pre post R0 m1 tlen s -> region_done R0 s.
Proof.
  intros [Hn Hp] Ha (h & m' & R & CT & -> & [g ->] & HCT & Hre & Ho).
  eexists h, _, R, CT. split_and?; [done|by split|cbn; lia|exact Hre|exact Ho].
Qed.
Lemma merge_failed_region R0 tlen m1 e s :
  runs_same m m1 ->
  merge_failed ordered lt hv pre post R0 m1 tlen e s -> region_failed R0 e s.
Proof.
  intros [Hn Hp] (Hno & h & m' & R & CT & -> & [g ->] & HCT & Hre & Ho).
  split; [by intros ?%Hno|]. eexists h, _, R, CT. split_and?; [done|by split|exact Hre].
Qed.
Lemma region_failed_mem R0 h m' CT :
  runs_same m m' ->
  region_failed R0 (PyErr MemoryError no_msg) (st hv h (pre ++ R0 ++ post) CT m').
Proof. intros Hm. split; [done|]. exists h, m', R0, CT. split_and?; [done..|reflexivity]. Qed.
End merge_spec.

Section merge_lo.
Context {V E : Type} {api : PyApi V E}.
Variable key_compare : compare_fn V E.
Variables (ordered : Prop) (P : V -> Prop) (lt : V -> V -> bool).
Hypothesis Hcmp : cmp_ok key_compare ordered P lt.
#[local] Instance merge_lo_swo : StrictWeakOrder lt := cmp_swo _ _ _ _ Hcmp.

(** Moving the first run to the buffer, and the first element of the second. *)
Lemma merge_lo_setup hv (h : heap V E) pre A b B post CT m :
  Zlen A <= Zlen CT -> 0 < Zlen A ->
  (ordered -> merge_ready lt A (b :: B)) ->
  let main := pre ++ A ++ (b :: B) ++ post in
  ∃ s1 s2,
    block_move hv (Slice Tmp 0) 0 (Slice Main (Zlen pre)) 0 (Zlen A)
      (st hv h main CT m) s1 ∧
    block_move hv (Slice Main (Zlen pre)) 0 (Slice Main (Zlen pre + Zlen A)) 0 1 s1 s2 ∧
    lo_inv ordered lt hv pre post (A ++ b :: B) m (Zlen CT)
      (ML (Slice Main (Zlen pre + 1)) (Slice Tmp 0) (Slice Main (Zlen pre + Zlen A + 1))
          (Zlen A) (Zlen (b :: B) - 1)) A B s2.
Proof.
  intros Hlen HA Hready main.
  destruct (Zlen_split (Zlen A) CT) as (X & T2 & -> & HX); [zlia|].
  assert (lo_inv ordered lt hv pre post (A ++ b :: B) m (Zlen (X ++ T2))
    (ML (Slice Main (Zlen pre)) (Slice Tmp 0) (Slice Main (Zlen pre + Zlen A))
        (Zlen A) (Zlen (b :: B))) A ([b] ++ B) (st hv h main (A ++ T2) m)) as Hinv.
  { exists h, m, [], A, [], T2. split_and?; try done.
    - apply ms_same_refl.
    - ml_eq.
    - zlia.
    - intros Ho. destruct (Hready Ho) as (H1 & H2 & H3 & H4). done. }
  destruct (lo_move_b key_compare ordered P lt Hcmp hv pre post _ m _ _ A [b] B _ Hinv)
    as (s2 & Hm2 & Hinv2).
  { intros Ho. destruct (Hready Ho) as (_ & _ & H3 & _). by eapply H3. }
  exists (st hv h main (A ++ T2) m), s2. split_and!; [|exact Hm2|exact Hinv2].
  exists h, main, (X ++ T2), m, [], X, T2, pre, A, ((b :: B) ++ post). split_and!; try done; slia.
Qed.

Lemma merge_lo_spec hv (h : heap V E) pre A B post CT m :
  alloced m = Zlen CT -> 0 < Zlen A -> 0 < Zlen B -> Zlen A + Zlen B <= MAX_ITEMS ->
  Forall (λ c, P c.1) (A ++ B) -> (ordered -> merge_ready lt A B) ->
  wp (merge_lo key_compare (Slice Main (Zlen pre)) (Zlen A)
        (Slice Main (Zlen pre + Zlen A)) (Zlen B))
    (λ _, region_done ordered lt hv pre post m (A ++ B))
    (region_failed ordered lt hv pre post m (A ++ B))
    (st hv h (pre ++ A ++ B ++ post) CT m).
Proof.
  intros Hal HA HB Hmax HP Hready. destruct (Zlen_pos_inv B HB) as (b & B' & ->).
  unfold merge_lo. apply wp_bind, wp_assert; [lia|]. apply wp_bind, wp_assert.
  { apply bool_decide_eq_true. done. }
  wp_step. apply wp_MERGE_GETMEM; [done|lia|..].
  2:{ intros h' CT' m' Hm'. rewrite (app_assoc A). by apply region_failed_mem. }
  intros h' CT' m' Hal' HCT' Hm'. cbv zeta.
  destruct (merge_lo_setup hv h' pre A b B' post CT' m') as (s1 & s2 & Hm1 & Hm2 & Hinv);
    [lia|lia|done|].
  wp_step. eapply wp_move_cpy; [done|exact Hm1|]. wp_step. unfold sortslice_copy_incr. wp_step.
  eapply wp_move_copy; [exact Hm2|]. apply wp_ret. cbv beta iota zeta.
  change (sortslice_advance (Slice Main (Zlen pre)) 1) with (Slice Main (Zlen pre + 1)).
  change (sortslice_advance (Slice Main (Zlen pre + Zlen A)) 1)
    with (Slice Main (Zlen pre + Zlen A + 1)).
  set (l := ML _ _ _ _ _).
  assert (∀ ex l' (s' : sortst V E), lo_exit ordered lt hv pre post (A ++ b :: B') m' (Zlen CT') 0 ex l' s' ->
    wp (lo_finish ex l') (λ _, region_done ordered lt hv pre post m (A ++ b :: B'))
       (region_failed ordered lt hv pre post m (A ++ b :: B')) s') as Hfin.
  { intros ex l' s' Hex. eapply wp_conseq; [by eapply lo_finish_spec|..].
    - intros ? s3. by apply merge_done_region.
    - intros e s3. by apply merge_failed_region. }
  case_match eqn:E1; [|case_match eqn:E2]; bool_to_prop.
  - apply Hfin. eapply lo_exit_intro; [exact Hinv|..]; intros; try done. zlia.
  - apply Hfin. eapply lo_exit_intro; [exact Hinv|..]; intros; try done. zlia.
  - wp_step. unfold get_ms, wpo at 1. wp_step.
    eapply wp_conseq; [eapply lo_main_spec; [exact Hcmp|exact HP|zlia|exact Hinv|zlia..]| |done].
    intros [ex l'] s3 Hex. by apply Hfin.
Qed.
End merge_lo.
