(* ===== verification/MergeHi.v ===== *)
(** * Correctness of [merge_hi]

    The mirror image of [MergeLo]: the second run is in the buffer and the
    merged region fills up from its right end. *)

From stdpp Require Import base sets list numbers sorting.
From S2P Require Import Prelude Slices PyHeap SortSpec SortMem Gallop Merge MergeLo.

Section hi.
Context {V E : Type} {api : PyApi V E}.
Variable key_compare : compare_fn V E.
Variables (ordered : Prop) (P : V -> Prop) (lt : V -> V -> bool).
Hypothesis Hcmp : cmp_ok key_compare ordered P lt.
Variables (hv : bool) (pre post R0 : list (V * V)) (m : MergeState) (tlen : Z).
Hypothesis HP : Forall (λ c, P c.1) R0.
Hypothesis Hmax : Zlen R0 <= MAX_ITEMS.

#[local] Instance hi_swo : StrictWeakOrder lt := cmp_swo _ _ _ _ Hcmp.

(** [D] has been merged, [A] is left in place and [B] in the buffer. *)
Definition hi_ord (D A B : list (V * V)) : Prop :=
  sorted_cells lt (A ++ D) ∧ sorted_cells lt (B ++ D) ∧
  ∀ b B', B = b :: B' -> all_lt lt [b] A.

Lemma hi_ord_take_a D A1 A2 B :
  hi_ord D (A1 ++ A2) B -> all_lt lt B A2 -> hi_ord (A2 ++ D) A1 B.
Proof.
  intros (H1 & H2 & H3) H4. rewrite <- app_assoc in H1. split_and!; [done|..].
  - apply (sorted_app lt) in H1 as (_ & HAD & _).
    apply (sorted_app lt) in H2 as (HB & _ & HBD).
    apply (sorted_app lt). split_and!; [done|done|].
    apply all_le_app_r. split; [by apply (all_lt_all_le lt)|done].
  - intros b B' HB. pose proof (H3 b B' HB) as H5. apply all_lt_app_r in H5 as [? _]. done.
Qed.
Lemma hi_ord_take_b D A B1 B2 :
  hi_ord D A (B1 ++ B2) -> all_le lt A B2 -> hi_ord (B2 ++ D) A B1.
Proof.
  intros (H1 & H2 & H3) H4. rewrite <- app_assoc in H2. split_and!; [|done|].
  - apply (sorted_app lt) in H2 as (_ & HBD & _).
    apply (sorted_app lt) in H1 as (HA & _ & HAD).
    apply (sorted_app lt). split_and!; [done|done|]. apply all_le_app_r. done.
  - intros b B' ->. by apply (H3 b (B' ++ B2)).
Qed.

Definition hi_inv (l : merge_loc) (A B : list (V * V)) (s : sortst V E) : Prop :=
  ∃ h m' D G T2,
    s = st hv h (pre ++ A ++ G ++ D ++ post) (B ++ T2) m' ∧ ms_same m m' ∧
    l = ML (Slice Main (Zlen pre + Zlen A + Zlen G - 1))
           (Slice Main (Zlen pre + Zlen A - 1)) (Slice Tmp (Zlen B - 1))
           (Zlen A) (Zlen B) ∧
    Zlen G = Zlen B ∧ Zlen B + Zlen T2 = tlen ∧
    rearr ordered lt R0 (A ++ B ++ D) ∧ (ordered -> hi_ord D A B).

Lemma hi_inv_heap l A B s s' : hi_inv l A B s -> heap_only s s' -> hi_inv l A B s'.
Proof. intros (h & m' & D & G & T2 & -> & ?) [h' ->]. by exists h', m', D, G, T2. Qed.
Lemma hi_inv_na l A B s : hi_inv l A B s -> m_na l = Zlen A ∧ m_nb l = Zlen B.
Proof. by intros (h & m' & D & G & T2 & _ & _ & -> & _). Qed.
Lemma hi_inv_facts l A B s :
  hi_inv l A B s ->
  Zlen A + Zlen B <= MAX_ITEMS ∧ Forall (λ c, P c.1) A ∧ Forall (λ c, P c.1) B ∧
  (ordered -> sorted_cells lt A ∧ sorted_cells lt B).
Proof.
  intros (h & m' & D & G & T2 & _ & _ & _ & _ & _ & Hre & Ho).
  pose proof (rearr_Forall _ _ _ _ _ Hre HP) as HF. rewrite !Forall_app in HF.
  split_and!; [apply rearr_Zlen in Hre; zlia|naive_solver..|].
  intros Hord. destruct (Ho Hord) as (H1 & H2 & _).
  apply (sorted_app lt) in H1 as (H1 & _). by apply (sorted_app lt) in H2 as (H2 & _).
Qed.
Lemma wp_hi_min_gallop g l A B s Q X :
  hi_inv l A B s -> (∀ s', hi_inv l A B s' -> Q tt s') -> wp (set_min_gallop g) Q X s.
Proof.
  intros (h & m' & D & G & T2 & -> & [g' ->] & Hr) HQ. unfold set_min_gallop.
  apply wp_bind. unfold get_ms, wpo. cbn [ms st]. apply HQ.
  eexists h, _, D, G, T2. split; [done|]. split; [by exists g|done].
Qed.

(** The last elements of the two remaining runs. *)
Lemma wp_hi_key_a l A (y : V * V) B s Q X :
  hi_inv l (A ++ [y]) B s -> Q y.1 s -> wp (key_at (m_ssa l) 0) Q X s.
Proof.
  intros (h & m' & D & G & T2 & -> & _ & -> & _) HQ.
  eapply (wp_key_at _ _ _ _ _ _ _ (pre ++ A) y (G ++ D ++ post));
    [cbn; list_assoc|mlia|done].
Qed.
Lemma wp_hi_key_b l A B (z : V * V) s Q X :
  hi_inv l A (B ++ [z]) s -> Q z.1 s -> wp (key_at (m_ssb l) 0) Q X s.
Proof.
  intros (h & m' & D & G & T2 & -> & _ & -> & _) HQ.
  eapply (wp_key_at _ _ _ _ _ _ _ B z T2); [cbn; list_assoc|mlia|done].
Qed.

(** Taking a block off the end of the run in place, or of the buffer. *)
Lemma hi_move_a l A1 A2 B s :
  hi_inv l (A1 ++ A2) B s -> (ordered -> all_lt lt B A2) ->
  let dest := sortslice_advance (m_dest l) (- Zlen A2) in
  let ssa := sortslice_advance (m_ssa l) (- Zlen A2) in
  ∃ s', block_move hv dest 1 ssa 1 (Zlen A2) s s' ∧
    hi_inv (ML dest ssa (m_ssb l) (m_na l - Zlen A2) (m_nb l)) A1 B s'.
Proof.
  intros (h & m' & D & G & T2 & -> & Hm & -> & HG & HT & Hre & Ho) Hle dest ssa.
  destruct (Zlen_split (Zlen G) (A2 ++ G)) as (X1 & X2 & HX & HX1); [zlia|].
  assert (Zlen X2 = Zlen A2) as HX2 by (apply (f_equal Zlen) in HX; zlia).
  eexists. split.
  - eexists h, _, _, m', (pre ++ A1 ++ X1), X2, (D ++ post), (pre ++ A1), A2, (G ++ D ++ post).
    split_and!; [done| |cbn; list_assoc|subst dest; mlia|subst ssa; mlia|done|done|done].
    cbn. rewrite <- !app_assoc. do 2 f_equal.
    rewrite (app_assoc X1), <- HX. list_assoc.
  - cbn [sel pw m_dest]. exists h, m', (A2 ++ D), X1, T2. split_and?.
    + f_equal; list_assoc.
    + done.
    + subst dest ssa. ml_eq.
    + lia.
    + zlia.
    + etransitivity; [exact Hre|]. rewrite <- app_assoc.
      apply rearr_app; [reflexivity|]. rewrite !app_assoc.
      apply rearr_app; [|reflexivity]. by apply (rearr_swap ordered lt).
    + intros Hord. apply hi_ord_take_a; [by apply Ho|by apply Hle].
Qed.
Lemma hi_move_b l A B1 B2 s :
  hi_inv l A (B1 ++ B2) s -> (ordered -> all_le lt A B2) ->
  let dest := sortslice_advance (m_dest l) (- Zlen B2) in
  let ssb := sortslice_advance (m_ssb l) (- Zlen B2) in
  ∃ s', block_move hv dest 1 ssb 1 (Zlen B2) s s' ∧
    hi_inv (ML dest (m_ssa l) ssb (m_na l) (m_nb l - Zlen B2)) A B1 s'.
Proof.
  intros (h & m' & D & G & T2 & -> & Hm & -> & HG & HT & Hre & Ho) Hle dest ssb.
  destruct (Zlen_split (Zlen B1) G) as (G1 & G2 & -> & HG1); [zlia|].
  eexists. split.
  - eexists h, _, _, m', (pre ++ A ++ G1), G2, (D ++ post), B1, B2, T2.
    split_and!; [done|cbn; list_assoc|cbn; list_assoc|subst dest; mlia|subst ssb; mlia
      |zlia|done|done].
  - cbn [sel pw m_dest]. exists h, m', (B2 ++ D), G1, (B2 ++ T2). split_and?.
    + f_equal; list_assoc.
    + done.
    + subst dest ssb. ml_eq.
    + zlia.
    + zlia.
    + replace (A ++ B1 ++ B2 ++ D) with (A ++ (B1 ++ B2) ++ D) by list_assoc. done.
    + intros Hord. apply hi_ord_take_b; [by apply Ho|by apply Hle].
Qed.

(** ** The loops *)
Definition hi_exit (n : Z) (ex : merge_exit) (l : merge_loc) (s : sortst V E) : Prop :=
  ∃ A B, hi_inv l A B s ∧
    match ex with
    | Next => 0 < Zlen A ∧ 1 < Zlen B ∧ Zlen A + Zlen B < n
    | Succeed => Zlen A = 0 ∨ Zlen B = 0
    | CopyLast => Zlen B = 1 ∧ 0 < Zlen A
    | Fail _ => ¬ ordered
    end.

Lemma hi_exit_lt n n' ex l s : hi_exit n ex l s -> n <= n' -> hi_exit n' ex l s.
Proof.
  intros (A & B & Hinv & Hex) Hn. exists A, B. split; [done|]. destruct ex; try done. lia.
Qed.
Lemma hi_exit_intro n ex l A B s :
  hi_inv l A B s ->
  (ex = Next -> 0 < Zlen A ∧ 1 < Zlen B ∧ Zlen A + Zlen B < n) ->
  (ex = Succeed -> Zlen A = 0 ∨ Zlen B = 0) ->
  (ex = CopyLast -> Zlen B = 1 ∧ 0 < Zlen A) ->
  match ex with Fail _ => False | _ => True end -> hi_exit n ex l s.
Proof. intros Hinv H1 H2 H3 H4. exists A, B. split; [done|]. destruct ex; auto; done. Qed.

Lemma wp_hi_copy_a l A y B s Q X :
  hi_inv l (A ++ [y]) B s -> (ordered -> all_lt lt B [y]) ->
  (∀ s', let dest := sortslice_advance (m_dest l) (-1) in
         let ssa := sortslice_advance (m_ssa l) (-1) in
         hi_inv (ML dest ssa (m_ssb l) (m_na l - 1) (m_nb l)) A B s' ->
         Q (dest, ssa) s') ->
  wp (sortslice_copy_decr (m_dest l) (m_ssa l)) Q X s.
Proof.
  intros Hinv Hle HQ. destruct (hi_move_a l A [y] B s Hinv Hle) as (s' & Hm & Hinv').
  apply wp_bind. eapply wp_move_copy; [|apply wp_ret; by apply HQ].
  eapply block_move_pos; [..|exact Hm]; first [done | slia].
Qed.
Lemma wp_hi_copy_b l A B z s Q X :
  hi_inv l A (B ++ [z]) s -> (ordered -> all_le lt A [z]) ->
  (∀ s', let dest := sortslice_advance (m_dest l) (-1) in
         let ssb := sortslice_advance (m_ssb l) (-1) in
         hi_inv (ML dest (m_ssa l) ssb (m_na l) (m_nb l - 1)) A B s' ->
         Q (dest, ssb) s') ->
  wp (sortslice_copy_decr (m_dest l) (m_ssb l)) Q X s.
Proof.
  intros Hinv Hle HQ. destruct (hi_move_b l A B [z] s Hinv Hle) as (s' & Hm & Hinv').
  apply wp_bind. eapply wp_move_copy; [|apply wp_ret; by apply HQ].
  eapply block_move_pos; [..|exact Hm]; first [done | slia].
Qed.

(** Comparing the last elements decides which of them goes last. *)
Lemma wp_hi_islt l A (y : V * V) B (z : V * V) s (Q : pyexn + bool -> sortst V E -> Prop) X :
  hi_inv l (A ++ [y]) (B ++ [z]) s ->
  (∀ (k : bool) s', hi_inv l (A ++ [y]) (B ++ [z]) s' ->
     (ordered -> if k then all_lt lt (B ++ [z]) [y] else all_le lt (A ++ [y]) [z]) ->
     Q (inr k) s') ->
  (∀ e s', ¬ ordered -> hi_inv l (A ++ [y]) (B ++ [z]) s' -> Q (inl e) s') ->
  wp (mtry (ISLT key_compare z.1 y.1)) Q X s.
Proof.
  intros Hinv HQ HX. apply wp_try. destruct (hi_inv_facts _ _ _ _ Hinv) as (_ & HA & HB & HF).
  apply Forall_app in HA as [_ HA], HB as [_ HB]. rewrite Forall_singleton in HA, HB.
  eapply wp_ISLT; [exact Hcmp|exact HB|exact HA|intros k h' Hk|intros e h' Hno; apply HX; [done|]].
  2:{ eapply hi_inv_heap; [exact Hinv|by exists h']. }
  apply HQ; [eapply hi_inv_heap; [exact Hinv|by exists h']|].
  intros Ho. destruct (HF Ho) as [HsA HsB]. specialize (Hk Ho). destruct k; symmetry in Hk.
  - apply (all_lt_last lt); [done|].
    intros u v ->%list_elem_of_singleton ->%list_elem_of_singleton. done.
  - apply (all_le_last lt); [done|].
    intros u v ->%list_elem_of_singleton ->%list_elem_of_singleton. done.
Qed.

Lemma hi_straight_spec fuel g l A B ac bc s :
  hi_inv l A B s -> 0 < Zlen A -> 1 < Zlen B -> Zlen A + Zlen B < Z.of_nat fuel ->
  wp (hi_straight key_compare fuel g l ac bc)
    (λ '(ex, l') s', hi_exit (Zlen A + Zlen B) ex l' s') no_exn s.
Proof.
  revert l A B ac bc s. induction fuel as [|fuel IH]; intros l A B ac bc s Hinv HA HB Hf;
    [zlia|].
  destruct (Zlen_pos_inv_r A) as (A' & y & ->); [lia|].
  destruct (Zlen_pos_inv_r B) as (B' & z & ->); [lia|].
  destruct (hi_inv_na _ _ _ _ Hinv) as [Hna Hnb].
  destruct l as [dest ssa ssb na nb]. cbn [m_na m_nb] in Hna, Hnb. cbn [hi_straight].
  apply wp_bind, wp_assert; [lia|]. wp_step.
  eapply (wp_hi_key_b (ML dest ssa ssb na nb)); [exact Hinv|]. wp_step.
  eapply (wp_hi_key_a (ML dest ssa ssb na nb)); [exact Hinv|]. wp_step.
  eapply wp_hi_islt; [exact Hinv| |].
  2:{ intros e s' Hno Hinv'. cbv beta iota. wp_steps. by eexists _, _. }
  intros k s' Hinv' Hk. destruct k; cbv beta iota; wp_step.
  - eapply (wp_hi_copy_a (ML dest ssa ssb na nb)); [exact Hinv'|exact Hk|].
    cbn [m_dest m_ssa m_ssb m_na m_nb].
    intros s'' Hi. cbv beta iota zeta. case_match eqn:E1; bool_to_prop; [|case_match eqn:E2; bool_to_prop].
    + wp_steps. eapply hi_exit_intro; [exact Hi|..]; zlia || done.
    + wp_steps. eapply hi_exit_intro; [exact Hi|..]; zlia || done.
    + eapply wp_conseq; [eapply IH; [exact Hi|zlia..]| |done].
      intros [ex l'] s3 H3. eapply hi_exit_lt; [exact H3|zlia].
  - eapply (wp_hi_copy_b (ML dest ssa ssb na nb)); [exact Hinv'|exact Hk|].
    cbn [m_dest m_ssa m_ssb m_na m_nb].
    intros s'' Hi. cbv beta iota zeta. case_match eqn:E1; bool_to_prop; [|case_match eqn:E2; bool_to_prop].
    + wp_steps. eapply hi_exit_intro; [exact Hi|..]; zlia || done.
    + wp_steps. eapply hi_exit_intro; [exact Hi|..]; zlia || done.
    + eapply wp_conseq; [eapply IH; [exact Hi|zlia..]| |done].
      intros [ex l'] s3 H3. eapply hi_exit_lt; [exact H3|zlia].
Qed.

(** Searching one run for the last element of the other. *)
Lemma wp_hi_gallop_right l A B (z : V * V) s (Q : pyexn + Z -> sortst V E -> Prop) X :
  hi_inv l A (B ++ [z]) s -> 0 < Zlen A ->
  (∀ A1 A2 s', A = A1 ++ A2 -> hi_inv l A (B ++ [z]) s' ->
     (ordered -> all_le lt A1 [z] ∧ all_lt lt (B ++ [z]) A2) -> Q (inr (Zlen A1)) s') ->
  (∀ e s', ¬ ordered -> hi_inv l A (B ++ [z]) s' -> Q (inl e) s') ->
  wp (mtry (gallop_right key_compare z.1 (Slice Main (Zlen pre)) (m_na l) (m_na l - 1)))
     Q X s.
Proof.
  intros Hinv HA HQ HX. apply wp_try. destruct (hi_inv_facts _ _ _ _ Hinv) as (Hlen & HPA & HPB & HF).
  pose proof Hinv as (h & m' & D & G & T2 & -> & _ & -> & _). cbn [m_ssa m_na].
  eapply wp_conseq.
  - eapply (gallop_right_spec _ ordered P lt Hcmp _ _ _ _ _ pre A (G ++ D ++ post));
      [done|done| |by_ord HF|zlia|lia|by_ord HF].
    apply Forall_app in HPB as [_ HPB]. by rewrite Forall_singleton in HPB.
  - cbv beta. intros r s' (Hh & Hr & Hs).
    destruct (cut_at _ _ _ _ Hr Hs) as (A1 & A2 & HA12 & -> & Hcut).
    apply (HQ _ A2); [done|by eapply hi_inv_heap|]. intros Ho.
    destruct (Hcut Ho) as [H1 H2]. destruct (HF Ho) as [_ HsB].
    rewrite Forall_forall in H1, H2. split.
    + intros c d Hc ->%list_elem_of_singleton. by apply negb_true_iff, H1.
    + apply (all_lt_last lt); [done|].
      intros c d ->%list_elem_of_singleton Hd. by apply negb_false_iff, H2.
  - cbv beta. intros e s' [Hno Hh]. apply HX; [done|]. by eapply hi_inv_heap.
Qed.
Lemma wp_hi_gallop_left l A (y : V * V) B s (Q : pyexn + Z -> sortst V E -> Prop) X :
  hi_inv l (A ++ [y]) B s -> 0 < Zlen B ->
  (∀ B1 B2 s', B = B1 ++ B2 -> hi_inv l (A ++ [y]) B s' ->
     (ordered -> all_lt lt B1 [y] ∧ all_le lt (A ++ [y]) B2) -> Q (inr (Zlen B1)) s') ->
  (∀ e s', ¬ ordered -> hi_inv l (A ++ [y]) B s' -> Q (inl e) s') ->
  wp (mtry (gallop_left key_compare y.1 (Slice Tmp 0) (m_nb l) (m_nb l - 1))) Q X s.
Proof.
  intros Hinv HB HQ HX. apply wp_try. destruct (hi_inv_facts _ _ _ _ Hinv) as (Hlen & HPA & HPB & HF).
  pose proof Hinv as (h & m' & D & G & T2 & -> & _ & -> & _). cbn [m_ssb m_nb].
  eapply wp_conseq.
  - eapply (gallop_left_spec _ ordered P lt Hcmp _ _ _ _ _ [] B T2);
      [done|done| |by_ord HF|zlia|lia|by_ord HF].
    apply Forall_app in HPA as [_ HPA]. by rewrite Forall_singleton in HPA.
  - cbv beta. intros r s' (Hh & Hr & Hs).
    destruct (cut_at _ _ _ _ Hr Hs) as (B1 & B2 & HB12 & -> & Hcut).
    apply (HQ _ B2); [done|by eapply hi_inv_heap|]. intros Ho.
    destruct (Hcut Ho) as [H1 H2]. destruct (HF Ho) as [HsA _].
    rewrite Forall_forall in H1, H2. split.
    + intros c d Hc ->%list_elem_of_singleton. by apply H1.
    + apply (all_le_last lt); [done|].
      intros c d ->%list_elem_of_singleton Hd. by apply H2.
  - cbv beta. intros e s' [Hno Hh]. apply HX; [done|]. by eapply hi_inv_heap.
Qed.

Lemma hi_block_a_spec l A1 A2 B s :
  hi_inv l (A1 ++ A2) B s -> (ordered -> all_lt lt B A2) -> 0 < Zlen (A1 ++ A2) ->
  wp (hi_block_a l (Zlen A2))
    (λ '(ex, l') s', hi_inv l' A1 B s' ∧
       match ex with
       | Next => 0 < Zlen A1 | Succeed => Zlen A1 = 0
       | CopyLast | Fail _ => False
       end) no_exn s.
Proof.
  intros Hinv Hle HA. destruct (hi_inv_na _ _ _ _ Hinv) as [Hna Hnb].
  destruct (hi_move_a l A1 A2 B s Hinv Hle) as (s' & Hm & Hinv').
  destruct l as [dest ssa ssb na nb]. cbn [m_dest m_ssa m_ssb m_na m_nb] in *.
  unfold hi_block_a. case_match eqn:E1; bool_to_prop.
  { apply wp_ret. apply Zlen_0_inv in E1 as ->. rewrite app_nil_r in *. done. }
  cbv zeta. apply wp_bind. eapply wp_move; [exact Hm|].
  case_match eqn:E2; bool_to_prop; apply wp_ret; (split; [done|]); zlia.
Qed.
Lemma hi_block_b_spec l A B1 B2 s :
  hi_inv l A (B1 ++ B2) s -> (ordered -> all_le lt A B2) -> 1 < Zlen (B1 ++ B2) ->
  wp (hi_block_b l (Zlen B2))
    (λ '(ex, l') s', hi_inv l' A B1 s' ∧
       match ex with
       | Next => 1 < Zlen B1 | CopyLast => Zlen B1 = 1 | Succeed => Zlen B1 = 0
       | Fail _ => False
       end) no_exn s.
Proof.
  intros Hinv Hle HB. destruct (hi_inv_na _ _ _ _ Hinv) as [Hna Hnb].
  destruct (hi_move_b l A B1 B2 s Hinv Hle) as (s' & Hm & Hinv').
  destruct l as [dest ssa ssb na nb]. cbn [m_dest m_ssa m_ssb m_na m_nb] in *.
  unfold hi_block_b. case_match eqn:E1; bool_to_prop.
  { apply wp_ret. apply Zlen_0_inv in E1 as ->. rewrite app_nil_r in *. done. }
  cbv zeta. apply wp_bind. eapply wp_move_cpy; [|exact Hm|].
  { destruct Hinv as (?&?&?&?&?&_&_&[=-> _ -> _ _]&_). done. }
  case_match eqn:E2; [|case_match eqn:E3]; bool_to_prop; apply wp_ret;
    (split; [done|]); zlia.
Qed.

Lemma hi_gallop_a_spec l A B s :
  hi_inv l A B s -> 0 < Zlen A -> 1 < Zlen B ->
  wp (hi_gallop_a key_compare (Slice Main (Zlen pre)) l)
    (λ '(ex, l', _) s', hi_exit (Zlen A + Zlen B) ex l' s') no_exn s.
Proof.
  intros Hinv HA HB. destruct (Zlen_pos_inv_r B) as (B' & z & ->); [lia|].
  unfold hi_gallop_a. wp_step. eapply wp_hi_key_b; [exact Hinv|]. wp_step.
  eapply wp_hi_gallop_right; [exact Hinv|lia|..]; cbv beta iota.
  2:{ intros e s' Hno Hinv'. wp_steps. by eexists _, _. }
  intros A1 A2 s' -> Hinv' Ho. cbv zeta. wp_step.
  destruct (hi_inv_na _ _ _ _ Hinv) as [Hna0 _].
  replace (m_na l - Zlen A1) with (Zlen A2) by zlia.
  eapply wp_conseq;
    [apply (hi_block_a_spec _ A1 A2 _ _ Hinv'); [by intros ?; apply Ho|done]| |done].
  intros [ex l'] s2 [Hinv2 Hex]. destruct ex; [|apply wp_ret..|].
  - destruct l' as [dest ssa ssb na nb]. wp_step.
    destruct (hi_inv_na _ _ _ _ Hinv2) as [Hna Hnb]. cbn [m_na m_nb] in Hna, Hnb.
    eapply (wp_hi_copy_b (ML dest ssa ssb na nb)); [exact Hinv2|by intros ?; apply Ho|].
    cbn [m_dest m_ssa m_ssb m_na m_nb]. intros s3 Hinv3.
    cbv beta iota zeta. case_match eqn:E1; bool_to_prop; apply wp_ret;
      (eapply hi_exit_intro; [exact Hinv3|..]); intros; try done; zlia.
  - eapply hi_exit_intro; [exact Hinv2|..]; intros; try done; zlia.
  - done.
  - done.
Qed.
Lemma hi_gallop_b_spec l A B s :
  hi_inv l A B s -> 0 < Zlen A -> 1 < Zlen B ->
  wp (hi_gallop_b key_compare (Slice Tmp 0) l)
    (λ '(ex, l', _) s', hi_exit (Zlen A + Zlen B) ex l' s') no_exn s.
Proof.
  intros Hinv HA HB. destruct (Zlen_pos_inv_r A) as (A' & y & ->); [lia|].
  unfold hi_gallop_b. wp_step. eapply wp_hi_key_a; [exact Hinv|]. wp_step.
  eapply wp_hi_gallop_left; [exact Hinv|lia|..]; cbv beta iota.
  2:{ intros e s' Hno Hinv'. wp_steps. by eexists _, _. }
  intros B1 B2 s' -> Hinv' Ho. cbv zeta. wp_step.
  destruct (hi_inv_na _ _ _ _ Hinv) as [_ Hnb0].
  replace (m_nb l - Zlen B1) with (Zlen B2) by zlia.
  eapply wp_conseq;
    [apply (hi_block_b_spec _ _ B1 B2 _ Hinv'); [by intros ?; apply Ho|done]| |done].
  intros [ex l'] s2 [Hinv2 Hex]. destruct ex; [|apply wp_ret..|].
  - destruct l' as [dest ssa ssb na nb]. wp_step.
    destruct (hi_inv_na _ _ _ _ Hinv2) as [Hna Hnb]. cbn [m_na m_nb] in Hna, Hnb.
    eapply (wp_hi_copy_a (ML dest ssa ssb na nb)); [exact Hinv2|by intros ?; apply Ho|].
    cbn [m_dest m_ssa m_ssb m_na m_nb]. intros s3 Hinv3.
    cbv beta iota zeta. case_match eqn:E1; bool_to_prop; apply wp_ret;
      (eapply hi_exit_intro; [exact Hinv3|..]); intros; try done; zlia.
  - eapply hi_exit_intro; [exact Hinv2|..]; intros; try done; zlia.
  - eapply hi_exit_intro; [exact Hinv2|..]; intros; try done; zlia.
  - done.
Qed.

Lemma hi_gallop_spec fuel g l A B s :
  hi_inv l A B s -> 0 < Zlen A -> 1 < Zlen B -> Zlen A + Zlen B < Z.of_nat fuel ->
  wp (hi_gallop key_compare fuel (Slice Main (Zlen pre)) (Slice Tmp 0) g l)
    (λ '(ex, l', _) s', hi_exit (Zlen A + Zlen B) ex l' s') no_exn s.
Proof.
  revert g l A B s. induction fuel as [|fuel IH]; intros g l A B s Hinv HA HB Hf; [lia|].
  destruct (hi_inv_na _ _ _ _ Hinv) as [Hna Hnb]. cbn [hi_gallop].
  apply wp_bind, wp_assert; [lia|]. cbv zeta. wp_step.
  eapply wp_hi_min_gallop; [exact Hinv|]. intros s1 Hinv1. wp_step.
  eapply wp_conseq; [eapply hi_gallop_a_spec; [exact Hinv1|lia..]| |done].
  intros [[ex l1] ac] s2 Hex. destruct ex; try (apply wp_ret; exact Hex).
  destruct Hex as (A1 & B1 & Hinv2 & HA1 & HB1 & Hlt). wp_step.
  eapply wp_conseq; [eapply hi_gallop_b_spec; [exact Hinv2|lia..]| |done].
  intros [[ex l2] bc] s3 Hex. cbv beta iota.
  pose proof (hi_exit_lt _ (Zlen A + Zlen B) _ _ _ Hex ltac:(lia)) as Hex'.
  destruct ex; try (apply wp_ret; exact Hex').
  case_match; [|apply wp_ret; exact Hex'].
  destruct Hex as (A2 & B2 & Hinv3 & HA2 & HB2 & Hlt2).
  eapply wp_conseq; [eapply IH; [exact Hinv3|lia..]| |done].
  intros [[ex l3] g'] s4 Hex. eapply hi_exit_lt; [exact Hex|lia].
Qed.

Lemma hi_main_spec fuel g l A B s :
  hi_inv l A B s -> 0 < Zlen A -> 1 < Zlen B -> Zlen A + Zlen B < Z.of_nat fuel ->
  wp (hi_main key_compare fuel (Slice Main (Zlen pre)) (Slice Tmp 0) g l)
    (λ '(ex, l') s', hi_exit 0 ex l' s') no_exn s.
Proof.
  revert g l A B s. induction fuel as [|fuel IH]; intros g l A B s Hinv HA HB Hf; [lia|].
  destruct (hi_inv_na _ _ _ _ Hinv) as [Hna Hnb]. cbn [hi_main]. cbv zeta. wp_step.
  eapply wp_conseq; [eapply hi_straight_spec; [exact Hinv|lia..]| |done].
  assert (∀ ex l' n s', ex ≠ Next -> hi_exit n ex l' s' -> hi_exit 0 ex l' s') as Hend.
  { intros ex l' n s' Hne (A' & B' & ? & ?). exists A', B'. split; [done|]. by destruct ex. }
  intros [ex l1] s1 Hex. destruct ex; try (apply wp_ret; by eapply Hend).
  destruct Hex as (A1 & B1 & Hinv1 & HA1 & HB1 & Hlt1). cbv beta iota.
  destruct (hi_inv_na _ _ _ _ Hinv1) as [Hna1 Hnb1]. wp_step.
  eapply wp_conseq; [eapply hi_gallop_spec; [exact Hinv1|lia..]| |done].
  intros [[ex l2] g2] s2 Hex. destruct ex; try (apply wp_ret; by eapply Hend).
  destruct Hex as (A2 & B2 & Hinv2 & HA2 & HB2 & Hlt2). cbv beta iota zeta. wp_step.
  eapply wp_hi_min_gallop; [exact Hinv2|]. intros s3 Hinv3.
  eapply IH; [exact Hinv3|lia..].
Qed.

(** ** The end *)
Lemma hi_inv_done l A s :
  hi_inv l A [] s -> merge_done ordered lt hv pre post R0 m tlen s.
Proof.
  intros (h & m' & D & G & T2 & -> & Hm & _ & HG & HT & Hre & Ho).
  apply Zlen_0_inv in HG as ->. exists h, m', (A ++ D), T2. split_and?.
  - f_equal. list_assoc.
  - done.
  - zlia.
  - exact Hre.
  - intros Hord. by apply Ho.
Qed.

Lemma hi_copy_back l A B s Q X :
  hi_inv l A B s -> (ordered -> A = []) ->
  (∀ s', merge_done ordered lt hv pre post R0 m tlen s' -> Q tt s') ->
  wp (if m_nb l =? 0 then mret tt
      else sortslice_memcpy (m_dest l) (- (m_nb l - 1)) (Slice Tmp 0) 0 (m_nb l)) Q X s.
Proof.
  intros Hinv HA HQ. destruct (hi_inv_na _ _ _ _ Hinv) as [_ ->].
  case_match eqn:E1; bool_to_prop.
  { apply wp_ret, HQ. apply Zlen_0_inv in E1 as ->. by eapply hi_inv_done. }
  destruct (hi_move_b l A [] B s) as (s' & Hm & Hinv').
  { done. }
  { intros Ho. rewrite (HA Ho). apply (all_le_nil_l lt). }
  pose proof Hinv as (?&?&?&?&?&_&_&->&_).
  eapply wp_move_cpy; [done| |by eapply HQ, hi_inv_done].
  eapply block_move_pos; [..|exact Hm]; first [done | mlia].
Qed.

Lemma hi_finish_spec ex l s :
  hi_exit 0 ex l s ->
  wp (hi_finish (Slice Tmp 0) ex l) (λ _, merge_done ordered lt hv pre post R0 m tlen)
    (merge_failed ordered lt hv pre post R0 m tlen) s.
Proof.
  intros (A & B & Hinv & Hex). destruct l as [dest ssa ssb na nb].
  destruct (hi_inv_na _ _ _ _ Hinv) as [Hna Hnb]. cbn [m_na m_nb] in Hna, Hnb.
  destruct ex; cbn [hi_finish].
  - zlia.
  - wp_step. destruct Hex as [HA|HB].
    + apply Zlen_0_inv in HA as ->.
      eapply (hi_copy_back (ML dest ssa ssb na nb)); [exact Hinv|done|].
      intros s' Hs'. by apply wp_ret.
    + apply Zlen_0_inv in HB as ->. rewrite Hnb. apply wp_ret, wp_ret.
      by eapply hi_inv_done.
  - destruct Hex as [HB HA]. destruct (Zlen_1_inv B HB) as [z ->].
    apply wp_bind, wp_assert; [lia|]. wp_step.
    destruct (hi_move_a (ML dest ssa ssb na nb) [] A [z] s) as (s1 & Hm1 & Hinv1); [done|..].
    { intros Ho. destruct Hinv as (h & m' & D & G & T2 & _ & _ & _ & _ & _ & _ & Hlo).
      destruct (Hlo Ho) as (_ & _ & H3). by apply (H3 z []). }
    cbn [m_dest m_ssa m_ssb m_na m_nb] in Hm1, Hinv1. rewrite <- Hna in Hm1, Hinv1.
    eapply wp_move; [eapply block_move_pos; [..|exact Hm1]; first [done | slia]|].
    destruct (hi_move_b _ [] [] [z] s1 Hinv1) as (s2 & Hm2 & Hinv2).
    { intros _. apply (all_le_nil_l lt). }
    cbn [m_dest m_ssb] in Hm2. cbv zeta.
    eapply wp_move_copy; [|by eapply hi_inv_done].
    eapply block_move_pos; [..|exact Hm2]; first [done | slia].
  - wp_step. eapply (hi_copy_back (ML dest ssa ssb na nb)); [exact Hinv|done|].
    intros s' Hs'. apply wp_throw. by apply merge_done_failed.
Qed.
End hi.

Section merge_hi.
Context {V E : Type} {api : PyApi V E}.
Variable key_compare : compare_fn V E.
Variables (ordered : Prop) (P : V -> Prop) (lt : V -> V -> bool).
Hypothesis Hcmp : cmp_ok key_compare ordered P lt.
#[local] Instance merge_hi_swo : StrictWeakOrder lt := cmp_swo _ _ _ _ Hcmp.

(** Moving the second run to the buffer, and the last element of the first. *)
Lemma merge_hi_setup hv (h : heap V E) pre A y B post CT m :
  Zlen B <= Zlen CT -> 0 < Zlen B ->
  (ordered -> merge_ready lt (A ++ [y]) B) ->
  let main := pre ++ (A ++ [y]) ++ B ++ post in
  let na := Zlen (A ++ [y]) in
  let dest := Slice Main (Zlen pre + na + (Zlen B - 1)) in
  let ssa := Slice Main (Zlen pre + (na - 1)) in
  ∃ s1 s2,
    block_move hv (Slice Tmp 0) 0 (Slice Main (Zlen pre + na)) 0 (Zlen B)
      (st hv h main CT m) s1 ∧
    block_move hv dest 0 ssa 0 1 s1 s2 ∧
    hi_inv ordered lt hv pre post ((A ++ [y]) ++ B) m (Zlen CT)
      (ML (sortslice_advance dest (-1)) (sortslice_advance ssa (-1))
          (Slice Tmp (Zlen B - 1)) (na - 1) (Zlen B)) A B s2.
Proof.
  intros Hlen HB Hready main na dest ssa.
  destruct (Zlen_split (Zlen B) CT) as (X & T2 & -> & HX); [zlia|].
  assert (hi_inv ordered lt hv pre post ((A ++ [y]) ++ B) m (Zlen (X ++ T2))
    (ML dest ssa (Slice Tmp (Zlen B - 1)) na (Zlen B)) (A ++ [y]) B
    (st hv h main (B ++ T2) m)) as Hinv.
  { exists h, m, [], B, T2. split_and?; try done.
    - apply ms_same_refl.
    - subst dest ssa na. ml_eq.
    - zlia.
    - by rewrite app_nil_r.
    - intros Ho. destruct (Hready Ho) as (H1 & H2 & H3 & H4).
      split_and!; [by rewrite app_nil_r|by rewrite app_nil_r|done]. }
  destruct (hi_move_a key_compare ordered P lt Hcmp hv pre post _ m _ _ A [y] B _ Hinv)
    as (s2 & Hm2 & Hinv2).
  { intros Ho. destruct (Hready Ho) as (_ & _ & _ & H4). by eapply H4. }
  exists (st hv h main (B ++ T2) m), s2. split_and!; [| |exact Hinv2].
  - exists h, main, (X ++ T2), m, [], X, T2, (pre ++ A ++ [y]), B, post.
    split_and!; try done; subst main na; first [slia | cbn; list_assoc].
  - eapply block_move_pos; [..|exact Hm2]; first [done | mlia].
Qed.

Lemma merge_hi_spec hv (h : heap V E) pre A B post CT m :
  alloced m = Zlen CT -> 0 < Zlen A -> 0 < Zlen B -> Zlen A + Zlen B <= MAX_ITEMS ->
  Forall (λ c, P c.1) (A ++ B) -> (ordered -> merge_ready lt A B) ->
  wp (merge_hi key_compare (Slice Main (Zlen pre)) (Zlen A)
        (Slice Main (Zlen pre + Zlen A)) (Zlen B))
    (λ _, region_done ordered lt hv pre post m (A ++ B))
    (region_failed ordered lt hv pre post m (A ++ B))
    (st hv h (pre ++ A ++ B ++ post) CT m).
Proof.
  intros Hal HA HB Hmax HP Hready. destruct (Zlen_pos_inv_r A HA) as (A' & y & ->).
  unfold merge_hi. apply wp_bind, wp_assert; [lia|]. apply wp_bind, wp_assert.
  { apply bool_decide_eq_true. done. }
  wp_step. apply wp_MERGE_GETMEM; [done|lia|..].
  2:{ intros h' CT' m' Hm'. rewrite (app_assoc (A' ++ [y])). by apply region_failed_mem. }
  intros h' CT' m' Hal' HCT' Hm'. cbv zeta.
  destruct (merge_hi_setup hv h' pre A' y B post CT' m') as (s1 & s2 & Hm1 & Hm2 & Hinv);
    [lia|lia|done|].
  wp_step. eapply wp_move_cpy; [done|exact Hm1|]. wp_step. unfold sortslice_copy_decr. wp_step.
  eapply wp_move_copy; [exact Hm2|]. apply wp_ret. cbv beta iota zeta.
  change (sortslice_advance (Slice Tmp 0) (Zlen B - 1)) with (Slice Tmp (Zlen B - 1)).
  set (l := ML _ _ _ _ _).
  assert (∀ ex l' (s' : sortst V E),
    hi_exit ordered lt hv pre post ((A' ++ [y]) ++ B) m' (Zlen CT') 0 ex l' s' ->
    wp (hi_finish (Slice Tmp 0) ex l')
       (λ _, region_done ordered lt hv pre post m ((A' ++ [y]) ++ B))
       (region_failed ordered lt hv pre post m ((A' ++ [y]) ++ B)) s') as Hfin.
  { intros ex l' s' Hex. eapply wp_conseq; [by eapply hi_finish_spec|..].
    - intros ? s3. by apply merge_done_region.
    - intros e s3. by apply merge_failed_region. }
  case_match eqn:E1; [|case_match eqn:E2]; bool_to_prop.
  - apply Hfin. eapply hi_exit_intro; [exact Hinv|..]; intros; try done. zlia.
  - apply Hfin. eapply hi_exit_intro; [exact Hinv|..]; intros; try done. zlia.
  - wp_step. unfold get_ms, wpo at 1. wp_step.
    eapply wp_conseq; [eapply hi_main_spec; [exact Hcmp|exact HP|zlia|exact Hinv|zlia..]| |done].
    intros [ex l'] s3 Hex. by apply Hfin.
Qed.
End merge_hi.
