(* ===== verification/Collapse.v ===== *)
(** * The stack of pending runs: [merge_at], [merge_collapse], [merge_force_collapse]

    The run lengths obey a Fibonacci-like invariant between pushes, which is
    what makes the fixed array of 85 pending runs large enough. *)

From stdpp Require Import base sets list numbers sorting.
From S2P Require Import Prelude Slices PyHeap SortSpec SortMem Gallop Merge MergeLo MergeHi.

Section collapse.
Context {V E : Type} {api : PyApi V E}.
Variable key_compare : compare_fn V E.

(** The stack after [merge_at] has recorded the merged run [i]. *)
Definition merge_pending (m : MergeState) (i : Z) (ssa : sortslice) (n : Z)
    : SM V E MergeState :=
  p ← mlift (aset (pending m) i (Run ssa n));
  p ← (if i =? nrun m - 3
       then r ← mlift (aget p (i + 2)); mlift (aset p (i + 1) r)
       else mret p);
  mret (MkMS (min_gallop m) (on_stack m) (alloced m) (nrun m - 1) p).

Definition merge_at (i : Z) : SM V E unit :=
  m ← get_ms;
  _ ← cassert (2 <=? nrun m);
  _ ← cassert (0 <=? i);
  _ ← cassert ((i =? nrun m - 2) || (i =? nrun m - 3));
  '(Run ssa na) ← mlift (aget (pending m) i);
  '(Run ssb nb) ← mlift (aget (pending m) (i + 1));
  _ ← cassert ((0 <? na) && (0 <? nb));
  _ ← cassert (bool_decide (sortslice_advance ssa na = ssb));
  m ← merge_pending m i ssa (na + nb);
  _ ← put_ms m;
  x ← key_at ssb 0;
  k ← gallop_right key_compare x ssa na 0;
  let ssa := sortslice_advance ssa k in
  let na := na - k in
  if na =? 0 then mret tt
  else
    y ← key_at ssa (na - 1);
    nb ← gallop_left key_compare y ssb nb (nb - 1);
    if nb <=? 0 then mret tt
    else if na <=? nb then merge_lo key_compare ssa na ssb nb
    else merge_hi key_compare ssa na ssb nb.

(** [ms->n] and [p[i].len]. *)
Definition ms_n : SM V E Z := m ← get_ms; mret (nrun m).
Definition pend_len (i : Z) : SM V E Z :=
  m ← get_ms; r ← mlift (aget (pending m) i); mret (len r).

(** [p[i].len <= p[i + 1].len + p[i + 2].len]. *)
Definition no_sum (i : Z) : SM V E bool :=
  x ← pend_len i; y ← pend_len (i + 1); z ← pend_len (i + 2); mret (x <=? y + z).

Fixpoint merge_collapse_loop (fuel : nat) : SM V E unit :=
  match fuel with
  | O => mnofuel
  | S fuel =>
      n ← ms_n;
      if 1 <? n then
        let n := n - 2 in
        c ← (if 0 <? n then no_sum (n - 1) else mret false);
        c ← (if c : bool then mret true
             else if 1 <? n then no_sum (n - 2) else mret false);
        if c : bool then
          x ← pend_len (n - 1);
          y ← pend_len (n + 1);
          _ ← merge_at (if x <? y then n - 1 else n);
          merge_collapse_loop fuel
        else
          x ← pend_len n;
          y ← pend_len (n + 1);
          if x <=? y then
            _ ← merge_at n;
            merge_collapse_loop fuel
          else mret tt
      else mret tt
  end.
Definition merge_collapse : SM V E unit :=
  n ← ms_n; merge_collapse_loop (S (Z.to_nat n)).

Fixpoint merge_force_collapse_loop (fuel : nat) : SM V E unit :=
  match fuel with
  | O => mnofuel
  | S fuel =>
      n ← ms_n;
      if 1 <? n then
        let n := n - 2 in
        c ← (if 0 <? n then
               x ← pend_len (n - 1); y ← pend_len (n + 1); mret (x <? y)
             else mret false);
        _ ← merge_at (if c : bool then n - 1 else n);
        merge_force_collapse_loop fuel
      else mret tt
  end.
Definition merge_force_collapse : SM V E unit :=
  n ← ms_n; merge_force_collapse_loop (S (Z.to_nat n)).
End collapse.

(** ** The invariant on run lengths, the top of the stack first *)
Fixpoint lens_inv (l : list Z) : Prop :=
  match l with
  | x :: l' =>
      match l' with
      | y :: l'' =>
          x < y ∧ match l'' with z :: _ => x + y < z | [] => True end
      | [] => True
      end ∧ lens_inv l'
  | [] => True
  end.

Lemma lens_inv_tl l : lens_inv l -> lens_inv (tail l).
Proof. destruct l; [done|]. by intros [_ ?]. Qed.
Lemma lens_inv_intro (x0 x1 : Z) l :
  x0 < x1 -> 0 < x0 ->
  match l with
  | x2 :: l' => x0 + x1 < x2 ∧ match l' with x3 :: _ => x1 + x2 < x3 | [] => True end
  | [] => True
  end ->
  lens_inv l -> lens_inv (x0 :: x1 :: l).
Proof.
  intros H1 Hp H2 H3. destruct l as [|x2 l]; [done|]. destruct H2 as [H2 H4].
  split; [done|]. split; [|done]. split; [lia|done].
Qed.

(** The least total length of [n] runs whose top two are at least [a] and [b]. *)
Fixpoint least_total (n : nat) (a b : Z) : Z :=
  match n with O => 0 | S n => a + least_total n b (a + b + 1) end.
Definition total (l : list Z) : Z := foldr Z.add 0 l.

Lemma lens_inv_least a b l :
  lens_inv l ->
  match l with x :: l' => a <= x ∧ match l' with y :: _ => b <= y | [] => True end | [] => True end ->
  least_total (length l) a b <= total l.
Proof.
  revert a b. induction l as [|x l IH]; intros a b Hinv Hab; simpl; [lia|].
  destruct Hab as [Ha Hb]. destruct Hinv as [Hx Hinv].
  specialize (IH b (a + b + 1) Hinv). fold (total l).
  assert (least_total (length l) b (a + b + 1) <= total l) as H; [|unfold total in *; lia].
  apply IH. destruct l as [|y [|z l]]; [done|naive_solver|]. naive_solver lia.
Qed.

(** 85 runs that satisfy the invariant would hold more elements than fit in memory. *)
Lemma pending_bound l :
  lens_inv l -> Forall (λ x, 0 < x) l -> total l <= MAX_ITEMS -> Zlen l < MAX_MERGE_PENDING.
Proof.
  intros Hinv Hpos Htot. destruct (decide (85 <= length l)%nat) as [Hlen|]; [|unfold Zlen, MAX_MERGE_PENDING; lia].
  exfalso. rewrite <- (take_drop 85 l) in Hinv, Htot, Hpos.
  assert (length (take 85 l) = 85%nat) as Hl by (rewrite length_take; lia).
  set (k := take 85 l) in *. set (r := drop 85 l) in *.
  assert (lens_inv k) as Hk.
  { clear - Hinv. induction k as [|x k IH]; [done|]. destruct Hinv as [H1 H2].
    split; [|by apply IH]. destruct k as [|y [|z k]]; [done|naive_solver|naive_solver]. }
  assert (0 <= total r) as Hr.
  { apply Forall_app in Hpos as [_ Hr]. clear - Hr. induction Hr; simpl; unfold total in *; lia. }
  assert (total (k ++ r) = total k + total r) as Happ.
  { clear. induction k as [|x k IH]; simpl; [done|]. unfold total in *. simpl. lia. }
  pose proof (lens_inv_least 1 2 k Hk) as H. rewrite Hl in H.
  assert (least_total 85 1 2 <= total k) as Hle.
  { apply H. destruct k as [|x k]; [done|]. apply Forall_app in Hpos as [Hpos _].
    apply Forall_cons in Hpos as [? Hpos]. split; [lia|].
    destruct k as [|y k]; [done|]. destruct Hk as [[? _] _]. lia. }
  assert (MAX_ITEMS < least_total 85 1 2) by (vm_compute; done). lia.
Qed.

(** ** Reading the stack *)

(** The entries for the runs [RS], bottom first, from offset [off] on. *)
Fixpoint entries {V} (off : Z) (RS : list (list (V * V))) : list s_slice :=
  match RS with
  | [] => []
  | R :: RS => Run (Slice Main off) (Zlen R) :: entries (off + Zlen R) RS
  end.

Lemma entries_app {V} off (RS RS' : list (list (V * V))) :
  entries off (RS ++ RS') = entries off RS ++ entries (off + Zlen (concat RS)) RS'.
Proof.
  revert off. induction RS as [|R RS IH]; intros off; simpl.
  - f_equal. zlia.
  - rewrite IH. do 3 f_equal. zlia.
Qed.
Lemma Zlen_entries {V} off (RS : list (list (V * V))) : Zlen (entries off RS) = Zlen RS.
Proof. revert off. induction RS as [|R RS IH]; intros off; simpl; [done|]. rewrite !Zlen_cons. by rewrite IH. Qed.

Lemma entries_get {V} (RS1 : list (list (V * V))) R RS2 jp i :
  i = Zlen RS1 ->
  aget (entries 0 (RS1 ++ R :: RS2) ++ jp) i =
  Some (Run (Slice Main (Zlen (concat RS1))) (Zlen R)).
Proof.
  intros ->. rewrite entries_app, <- app_assoc. apply aget_app. by rewrite Zlen_entries.
Qed.

Section stack.
Context {V E : Type} {api : PyApi V E}.
Variable key_compare : compare_fn V E.
Variables (ordered : Prop) (P : V -> Prop) (lt : V -> V -> bool).
Hypothesis Hcmp : cmp_ok key_compare ordered P lt.
#[local] Instance stack_swo : StrictWeakOrder lt := cmp_swo _ _ _ _ Hcmp.

(** The cells being sorted. *)
Variables (hv : bool) (C0 : list (V * V)).
Hypothesis HP : Forall (λ c, P c.1) C0.
Hypothesis Hmax : Zlen C0 <= MAX_ITEMS.

(** The array holds the pending runs [RS], then [rest]. *)
Definition stack (RS : list (list (V * V))) (rest : list (V * V)) (s : sortst V E) : Prop :=
  ∃ h CT m junkp,
    s = st hv h (concat RS ++ rest) CT m ∧ alloced m = Zlen CT ∧
    nrun m = Zlen RS ∧ pending m = entries 0 RS ++ junkp ∧
    Zlen (pending m) = MAX_MERGE_PENDING ∧
    Forall (λ R, 0 < Zlen R) RS ∧
    rearr ordered lt C0 (concat RS ++ rest) ∧
    (ordered -> Forall (sorted_cells lt) RS).
(** A failing sort keeps a rearrangement of the cells. *)
Definition sort_failed (e : pyexn) (s : sortst V E) : Prop :=
  (ordered -> e = PyErr MemoryError no_msg) ∧
  ∃ h CT m C, s = st hv h C CT m ∧ rearr ordered lt C0 C.

Lemma stack_failed RS rest s : stack RS rest s -> ∃ h CT m C,
  s = st hv h C CT m ∧ rearr ordered lt C0 C.
Proof. intros (h & CT & m & jp & -> & _ & _ & _ & _ & _ & Hre & _). by eexists _, _, _, _. Qed.

Lemma wp_ms_n RS rest s Q X : stack RS rest s -> Q (Zlen RS) s -> wp ms_n Q X s.
Proof.
  intros (h & CT & m & jp & -> & _ & Hn & _) HQ. unfold ms_n. wp_step. apply wp_get_ms, wp_ret.
  by rewrite Hn.
Qed.
Lemma wp_pend_len RS1 R RS2 rest s i Q X :
  stack (RS1 ++ R :: RS2) rest s -> i = Zlen RS1 -> Q (Zlen R) s -> wp (pend_len i) Q X s.
Proof.
  intros (h & CT & m & jp & -> & _ & Hn & Hp & _) Hi HQ. unfold pend_len. wp_step. apply wp_get_ms. wp_step.
  rewrite Hp, entries_get by done. by apply wp_ret.
Qed.
Lemma wp_no_sum RS1 R2 R1 R0 RS2 rest s i Q X :
  stack (RS1 ++ R2 :: R1 :: R0 :: RS2) rest s -> i = Zlen RS1 ->
  Q (Zlen R2 <=? Zlen R1 + Zlen R0) s -> wp (no_sum i) Q X s.
Proof.
  intros Hs Hi HQ. unfold no_sum. wp_step. eapply wp_pend_len; [exact Hs|done|]. wp_step.
  eapply (wp_pend_len (RS1 ++ [R2]) R1 (R0 :: RS2) rest); [by rewrite <- app_assoc|zlia|]. wp_step.
  eapply (wp_pend_len (RS1 ++ [R2; R1]) R0 RS2 rest); [by rewrite <- app_assoc|zlia|]. by apply wp_ret.
Qed.

(** ** [merge_at] *)
Lemma wp_merge_pending RS1 A B RS2 rest h CT m junkp (Q : MergeState -> sortst V E -> Prop) X :
  let RS := RS1 ++ A :: B :: RS2 in
  nrun m = Zlen RS -> pending m = entries 0 RS ++ junkp -> Zlen RS2 <= 1 ->
  (∀ m' junkp', nrun m' = Zlen (RS1 ++ (A ++ B) :: RS2) ->
     pending m' = entries 0 (RS1 ++ (A ++ B) :: RS2) ++ junkp' ->
     Zlen (pending m') = Zlen (pending m) -> alloced m' = alloced m ->
     Q m' (st hv h (concat RS ++ rest) CT m)) ->
  wp (merge_pending m (Zlen RS1) (Slice Main (Zlen (concat RS1))) (Zlen A + Zlen B)) Q X
     (st hv h (concat RS ++ rest) CT m).
Proof.
  intros RS Hn Hp H2 HQ. subst RS. unfold merge_pending. wp_step.
  set (off := Zlen (concat RS1)) in *.
  assert (pending m = entries 0 RS1 ++ Run (Slice Main off) (Zlen A) ::
    Run (Slice Main (off + Zlen A)) (Zlen B) ::
    entries (off + Zlen A + Zlen B) RS2 ++ junkp) as Hp'.
  { rewrite Hp, entries_app. simpl. by rewrite <- app_assoc. }
  eapply wp_lift.
  { rewrite Hp'. apply aset_app. by rewrite Zlen_entries. }
  wp_step. destruct RS2 as [|R [|]]; [| |zlia].
  - case_match eqn:E1; bool_to_prop; [zlia|]. apply wp_ret, wp_ret.
    eapply (HQ _ (Run (Slice Main (off + Zlen A)) (Zlen B) :: junkp)); cbn [nrun pending alloced].
    + zlia.
    + rewrite entries_app. simpl. rewrite <- app_assoc. simpl. do 3 f_equal. zlia.
    + rewrite Hp'. zlia.
    + done.
  - case_match eqn:E1; bool_to_prop; [|zlia]. wp_step.
    set (e1 := Run (Slice Main off) (Zlen A + Zlen B)).
    set (e2 := Run (Slice Main (off + Zlen A)) (Zlen B)).
    set (e3 := Run (Slice Main (off + Zlen A + Zlen B)) (Zlen R)).
    apply wp_lift with e3.
    { change (aget (entries 0 RS1 ++ e1 :: e2 :: e3 :: junkp) (Zlen RS1 + 2) = Some e3).
      replace (entries 0 RS1 ++ e1 :: e2 :: e3 :: junkp)
        with ((entries 0 RS1 ++ [e1; e2]) ++ e3 :: junkp) by list_assoc.
      apply aget_app. pose proof (Zlen_entries 0 RS1). zlia. }
    apply wp_lift with ((entries 0 RS1 ++ [e1]) ++ e3 :: e3 :: junkp).
    { change (aset (entries 0 RS1 ++ e1 :: e2 :: e3 :: junkp) (Zlen RS1 + 1) e3 =
        Some ((entries 0 RS1 ++ [e1]) ++ e3 :: e3 :: junkp)).
      replace (entries 0 RS1 ++ e1 :: e2 :: e3 :: junkp)
        with ((entries 0 RS1 ++ [e1]) ++ e2 :: e3 :: junkp) by list_assoc.
      apply aset_app. pose proof (Zlen_entries 0 RS1). zlia. }
    apply wp_ret. eapply (HQ _ (e3 :: junkp)); cbn [nrun pending alloced].
    + zlia.
    + rewrite entries_app. simpl. rewrite <- !app_assoc. simpl. unfold e1, e3.
      do 3 f_equal; [zlia|]. do 2 f_equal; zlia.
    + rewrite Hp'. simpl. zlia.
    + done.
Qed.

(** The parts skipped by [merge_at] are already in place. *)
Lemma merge_at_sorted A1 A2 z b B' B1 B2 R :
  sorted_cells lt (A1 ++ A2 ++ [z]) -> sorted_cells lt (b :: B') -> b :: B' = B1 ++ B2 ->
  all_le lt A1 [b] -> all_le lt [z] B2 -> (A2 ++ [z]) ++ B1 ≡ₚ R -> sorted_cells lt R ->
  sorted_cells lt (A1 ++ R ++ B2).
Proof.
  intros HsA HsB HB H1 H2 HR HsR.
  assert (all_le lt A1 (B1 ++ B2)) as HA1B by (rewrite <- HB; by apply (all_le_hd lt)).
  rewrite HB in HsB.
  apply (sorted_app lt) in HsA as (HsA1 & HsA2 & HA12).
  apply (sorted_app lt) in HsB as (HsB1 & HsB2 & HB12).
  assert (all_le lt (A2 ++ [z]) B2) as HA2B2 by (by apply (all_le_last lt)).
  apply all_le_app_r in HA1B as [HA1B1 HA1B2].
  assert (∀ c, c ∈ R -> c ∈ A2 ++ [z] ∨ c ∈ B1) as Hin.
  { intros c Hc. rewrite <- HR in Hc. by apply elem_of_app in Hc. }
  apply (sorted_app lt). split; [done|]. split.
  - apply (sorted_app lt). split; [done|]. split; [done|].
    intros c d Hc Hd. destruct (Hin c Hc); [by apply HA2B2|by apply HB12].
  - apply all_le_app_r. split; [|done].
    intros c d Hc Hd. destruct (Hin d Hd); [by apply HA12|by apply HA1B1].
Qed.

(** Putting the stack back together around a region. *)
Lemma stack_region RS1 A B RS2 rest (C : list (V * V)) h CT m junkp :
  rearr ordered lt C0 (concat (RS1 ++ A :: B :: RS2) ++ rest) ->
  Forall (λ R, 0 < Zlen R) (RS1 ++ A :: B :: RS2) ->
  (ordered -> Forall (sorted_cells lt) (RS1 ++ A :: B :: RS2)) ->
  alloced m = Zlen CT -> nrun m = Zlen (RS1 ++ (A ++ B) :: RS2) ->
  pending m = entries 0 (RS1 ++ (A ++ B) :: RS2) ++ junkp ->
  Zlen (pending m) = MAX_MERGE_PENDING ->
  rearr ordered lt (A ++ B) C -> (ordered -> sorted_cells lt C) ->
  stack (RS1 ++ C :: RS2) rest
    (st hv h (concat RS1 ++ C ++ concat RS2 ++ rest) CT m).
Proof.
  intros Hre Hpos Hso Hal Hn Hp Hpl HC HsC. pose proof (rearr_Zlen _ _ _ _ HC) as HlC.
  exists h, CT, m, junkp. split_and?.
  - f_equal. rewrite concat_app. simpl. list_assoc.
  - done.
  - rewrite Hn. zlia.
  - rewrite Hp, !entries_app. simpl. by rewrite HlC.
  - done.
  - rewrite Forall_app, !Forall_cons in *. destruct Hpos as (?&?&?&?). split_and!; [done|zlia|done].
  - etransitivity; [exact Hre|]. rewrite !concat_app. simpl. rewrite <- !app_assoc.
    apply rearr_app; [reflexivity|]. rewrite (app_assoc A).
    apply rearr_app; [exact HC|reflexivity].
  - intros Ho. specialize (Hso Ho). rewrite Forall_app, !Forall_cons in *.
    destruct Hso as (?&?&?&?). split_and!; auto.
Qed.

Lemma heap_failed C e h CT m s' :
  rearr ordered lt C0 C -> failed ordered (heap_only (st hv h C CT m)) e s' ->
  sort_failed e s'.
Proof.
  intros Hre [Hno [h' ->]]. split; [by intros ?%Hno|]. by exists h', CT, m, C.
Qed.
(** The merge of what is left between the two cuts, by either routine. *)
Lemma wp_merge_cut pre A2 B1 post h CT m C :
  alloced m = Zlen CT -> 0 < Zlen A2 -> 0 < Zlen B1 ->
  C = pre ++ A2 ++ B1 ++ post -> rearr ordered lt C0 C ->
  (ordered -> merge_ready lt A2 B1) ->
  wp (if Zlen A2 <=? Zlen B1
      then merge_lo key_compare (Slice Main (Zlen pre)) (Zlen A2)
             (Slice Main (Zlen pre + Zlen A2)) (Zlen B1)
      else merge_hi key_compare (Slice Main (Zlen pre)) (Zlen A2)
             (Slice Main (Zlen pre + Zlen A2)) (Zlen B1))
    (λ _, region_done ordered lt hv pre post m (A2 ++ B1)) sort_failed (st hv h C CT m).
Proof.
  intros Hal HA HB -> Hre Hready.
  pose proof (rearr_Zlen _ _ _ _ Hre) as Hlen.
  assert (Forall (λ c, P c.1) (A2 ++ B1)) as HPAB.
  { pose proof (rearr_Forall _ _ _ _ _ Hre HP) as HF.
    rewrite !Forall_app in *. naive_solver. }
  assert (∀ e s', region_failed ordered lt hv pre post m (A2 ++ B1) e s' -> sort_failed e s')
    as Hfail.
  { intros e s' [He (h' & m' & R & CT' & -> & _ & HR)]. split; [done|].
    eexists _, _, _, _. split; [done|]. etransitivity; [exact Hre|].
    apply rearr_app; [reflexivity|]. rewrite (app_assoc A2).
    apply rearr_app; [done|reflexivity]. }
  case_match.
  - eapply wp_conseq; [apply (merge_lo_spec _ ordered P lt Hcmp); done || zlia|done|exact Hfail].
  - eapply wp_conseq; [apply (merge_hi_spec _ ordered P lt Hcmp); done || zlia|done|exact Hfail].
Qed.

(** The second half of [merge_at]: cut the second run and merge. *)
Lemma merge_at_tail pre A1 A2 b B' post h CT m :
  let B := b :: B' in
  let C := pre ++ A1 ++ A2 ++ B ++ post in
  let ssa := Slice Main (Zlen pre + Zlen A1) in
  let ssb := Slice Main (Zlen pre + Zlen A1 + Zlen A2) in
  alloced m = Zlen CT -> 0 < Zlen A2 -> rearr ordered lt C0 C ->
  (ordered -> sorted_cells lt (A1 ++ A2) ∧ sorted_cells lt B ∧
     all_le lt A1 [b] ∧ all_lt lt [b] A2) ->
  wp (y ← key_at ssa (Zlen A2 - 1);
      nb ← gallop_left key_compare y ssb (Zlen B) (Zlen B - 1);
      if nb <=? 0 then mret tt
      else if Zlen A2 <=? nb then merge_lo key_compare ssa (Zlen A2) ssb nb
      else merge_hi key_compare ssa (Zlen A2) ssb nb)
    (λ _ s', ∃ D h' CT' m', s' = st hv h' (pre ++ D ++ post) CT' m' ∧
       alloced m' = Zlen CT' ∧ runs_same m m' ∧
       rearr ordered lt ((A1 ++ A2) ++ B) D ∧ (ordered -> sorted_cells lt D))
    sort_failed (st hv h C CT m).
Proof.
  intros B C ssa ssb Hal HA2 Hre Hord. pose proof (rearr_Zlen _ _ _ _ Hre) as Hlen.
  assert (Forall (λ c, P c.1) A2 ∧ Forall (λ c, P c.1) B) as [HPA HPB].
  { pose proof (rearr_Forall _ _ _ _ _ Hre HP) as HF.
    unfold C in HF. rewrite !Forall_app in HF. naive_solver. }
  assert (0 < Zlen B) as HB by (unfold B; zlia).
  destruct (Zlen_pos_inv_r A2) as (A2' & z & HzA2); [lia|]. wp_step.
  eapply (wp_key_at _ _ _ _ _ _ _ (pre ++ A1 ++ A2') z (B ++ post));
    [cbn; subst A2 C; list_assoc|subst ssa A2; slia|].
  wp_step. eapply wp_conseq.
  { eapply (gallop_left_spec _ ordered P lt Hcmp _ _ _ _ _ (pre ++ A1 ++ A2) B post).
    - cbn. subst C. list_assoc.
    - subst ssb. slia.
    - rewrite HzA2, Forall_app in HPA. destruct HPA as [_ HF]. by inversion HF.
    - exact HPB.
    - subst C. zlia.
    - lia.
    - intros Ho. by destruct (Hord Ho) as (_ & ? & _). }
  2:{ cbv beta. intros e s1 Hf. by eapply heap_failed. }
  cbv beta. intros nb s1 ([h1 ->] & Hnb & Hcut).
  destruct (cut_at _ _ _ _ Hnb Hcut) as (B1 & B2 & HB12 & -> & Hcut').
  rewrite set_hp_st.
  assert (ordered -> all_lt lt B1 [z] ∧ all_le lt [z] B2) as HzB.
  { intros Ho. destruct (Hcut' Ho) as [H3 H4]. rewrite Forall_forall in H3, H4. split.
    - intros c d Hc ->%list_elem_of_singleton. by apply H3.
    - intros c d ->%list_elem_of_singleton Hd. by apply H4. }
  case_match eqn:E1; bool_to_prop.
  { apply wp_ret. exists ((A1 ++ A2) ++ B), h1, CT, m. split_and?; try done.
    - f_equal. subst C. list_assoc.
    - intros Ho. exfalso. assert (B1 = []) as -> by (apply Zlen_0_inv; zlia).
      destruct (HzB Ho) as [_ HzB2]. destruct (Hord Ho) as (_ & _ & _ & HbA2).
      assert (clt lt b z) as Hbz by (apply HbA2; subst A2; set_solver).
      assert (cle lt z b) as Hzb by (apply HzB2; [|simpl in HB12; rewrite <- HB12; subst B]; set_solver).
      unfold clt, cle in *. congruence. }
  assert (ssa = Slice Main (Zlen (pre ++ A1))) as -> by (subst ssa; f_equal; zlia).
  assert (ssb = Slice Main (Zlen (pre ++ A1) + Zlen A2)) as -> by (subst ssb; f_equal; zlia).
  eapply wp_conseq; [apply (wp_merge_cut (pre ++ A1) A2 B1 (B2 ++ post))| |done].
  - done.
  - done.
  - lia.
  - subst C. rewrite HB12. list_assoc.
  - exact Hre.
  - intros Ho. destruct (Hord Ho) as (HsA & HsB & HA1 & HbA2). rewrite HB12 in HsB.
    apply (sorted_app lt) in HsA as (_ & HsA & _), HsB as (HsB & _).
    split_and!; [done|done|..].
    + intros b1 B1' HB1. rewrite HB1 in HB12. by injection HB12 as -> _.
    + intros A' z' HA'. rewrite HzA2 in HA'. apply app_inj_tail in HA' as [_ <-].
      by destruct (HzB Ho).
  - cbv beta. intros _ s2 (h2 & m2 & R & CT2 & -> & Hm2 & Hal2 & HR & HsR).
    exists (A1 ++ R ++ B2), h2, CT2, m2. split_and?.
    + f_equal. list_assoc.
    + done.
    + done.
    + rewrite HB12. replace ((A1 ++ A2) ++ B1 ++ B2) with (A1 ++ (A2 ++ B1) ++ B2) by list_assoc.
      apply rearr_app; [reflexivity|]. apply rearr_app; [done|reflexivity].
    + intros Ho. destruct (Hord Ho) as (HsA & HsB & HA1 & HbA2). destruct (HzB Ho) as [_ HzB2].
      rewrite HzA2 in HsA, HR. destruct HR as [HR _].
      eapply merge_at_sorted; eauto.
Qed.

Lemma merge_at_spec RS1 A B RS2 rest s i :
  stack (RS1 ++ A :: B :: RS2) rest s -> Zlen RS2 <= 1 -> i = Zlen RS1 ->
  wp (merge_at key_compare i)
    (λ _ s', ∃ C, Zlen C = Zlen A + Zlen B ∧ stack (RS1 ++ C :: RS2) rest s')
    sort_failed s.
Proof.
  intros (h & CT & m & jp & -> & Hal & Hn & Hp & Hpl & Hpos & Hre & Hso) H2 ->.
  pose proof (rearr_Zlen _ _ _ _ Hre) as Hlen0.
  assert (0 < Zlen A ∧ 0 < Zlen B) as [HA HB].
  { rewrite Forall_app, !Forall_cons in Hpos. naive_solver. }
  assert (ordered -> sorted_cells lt A ∧ sorted_cells lt B) as HsAB.
  { intros Ho. specialize (Hso Ho). rewrite Forall_app, !Forall_cons in Hso. naive_solver. }
  assert (Forall (λ c, P c.1) A ∧ Forall (λ c, P c.1) B) as [HPA HPB].
  { pose proof (rearr_Forall _ _ _ _ _ Hre HP) as HF.
    rewrite concat_app in HF. simpl in HF. rewrite !Forall_app in HF. naive_solver. }
  unfold merge_at. wp_step. apply wp_get_ms.
  apply wp_bind, wp_assert; [zlia|]. apply wp_bind, wp_assert; [zlia|].
  apply wp_bind, wp_assert; [zlia|]. wp_step.
  eapply wp_lift; [rewrite Hp; by apply entries_get|]. cbv beta iota. wp_step.
  eapply wp_lift.
  { rewrite Hp. replace (RS1 ++ A :: B :: RS2) with ((RS1 ++ [A]) ++ B :: RS2) by list_assoc.
    apply entries_get. zlia. }
  replace (Zlen (concat (RS1 ++ [A]))) with (Zlen (concat RS1) + Zlen A)
    by (rewrite concat_app; simpl; zlia).
  cbv beta iota.
  apply wp_bind, wp_assert; [lia|]. apply wp_bind, wp_assert.
  { by apply bool_decide_eq_true. }
  wp_step. eapply wp_merge_pending; [exact Hn|exact Hp|done|].
  intros m' jp' Hn' Hp' Hpl' Hal'. unfold put_ms. wp_steps.
  match goal with |- wpo _ _ _ _ ?s => change s with (st hv h (concat (RS1 ++ A :: B :: RS2) ++ rest) CT m') end.
  assert (concat (RS1 ++ A :: B :: RS2) ++ rest = concat RS1 ++ A ++ B ++ (concat RS2 ++ rest)) as HCM.
  { rewrite concat_app. simpl. list_assoc. }
  rewrite HCM.
  assert (∀ C h CT m, alloced m = Zlen CT -> runs_same m' m -> 
     rearr ordered lt (A ++ B) C -> (ordered -> sorted_cells lt C) ->
     ∃ C', Zlen C' = Zlen A + Zlen B ∧ 
       stack (RS1 ++ C' :: RS2) rest (st hv h (concat RS1 ++ C ++ concat RS2 ++ rest) CT m)) as Hfin.
  { intros C h' CT' m2 Hal2 [Hn2 Hp2] HreC HsC. exists C. split.
    - apply rearr_Zlen in HreC. zlia.
    - eapply stack_region; try done; [congruence|by rewrite Hp2|].
      rewrite Hp2, Hpl'. done. }
  destruct (Zlen_pos_inv B HB) as (b & B' & ->).
  eapply (wp_key_at _ _ _ _ _ _ _ (concat RS1 ++ A)); [cbn; list_assoc|slia|]. wp_step.
  eapply wp_conseq; [eapply (gallop_right_spec _ ordered P lt Hcmp _ _ _ _ _ (concat RS1) A)|..].
  + done.
  + done.
  + by inversion HPB.
  + exact HPA.
  + rewrite HCM in Hlen0. zlia.
  + lia.
  + intros Ho. by destruct (HsAB Ho).
  + cbv beta. intros k s1 ([h1 ->] & Hk & Hcut).
    change (set_hp h1 _) with (st hv h1 (concat RS1 ++ A ++ (b :: B') ++ concat RS2 ++ rest) CT m').
    destruct (cut_at _ _ _ _ Hk Hcut) as (A1 & A2 & -> & -> & Hcut').
    assert (ordered -> all_le lt A1 [b] ∧ all_lt lt [b] A2) as HA12.
    { intros Ho. destruct (Hcut' Ho) as [H3 H4]. rewrite Forall_forall in H3, H4. split.
      - intros c d Hc ->%list_elem_of_singleton. by apply negb_true_iff, H3.
      - intros c d ->%list_elem_of_singleton Hd. by apply negb_false_iff, H4. }
    cbv zeta. replace (Zlen (A1 ++ A2) - Zlen A1) with (Zlen A2) by zlia.
    case_match eqn:E1; bool_to_prop.
    { apply Zlen_0_inv in E1 as ->. rewrite app_nil_r in *. apply wp_ret.
      rewrite (app_assoc A1). apply Hfin; [congruence|done|reflexivity|].
      intros Ho. destruct (HsAB Ho) as [HsA HsB]. destruct (HA12 Ho) as [HA1b _].
      apply (sorted_app lt). split_and!; [done|done|]. by apply (all_le_hd lt). }
    unfold sortslice_advance. cbn [pw po].
    replace (Zlen (concat RS1) + Zlen (A1 ++ A2)) with (Zlen (concat RS1) + Zlen A1 + Zlen A2)
      by zlia.
    replace (concat RS1 ++ (A1 ++ A2) ++ (b :: B') ++ concat RS2 ++ rest)
      with (concat RS1 ++ A1 ++ A2 ++ (b :: B') ++ concat RS2 ++ rest) in * by list_assoc.
    eapply wp_conseq;
      [apply merge_at_tail; [congruence|zlia|by rewrite <- HCM|]| |done].
    { intros Ho. destruct (HsAB Ho), (HA12 Ho). done. }
    cbv beta. intros _ s2 (D & h2 & CT2 & m2 & -> & Hal2 & Hm2 & HD & HsD).
    by apply (Hfin D).
  + cbv beta. intros e s1 Hf. eapply heap_failed; [|exact Hf]. rewrite <- HCM. exact Hre.
Qed.

(** ** The collapse loops *)

(** Run lengths, the top of the stack first. *)
Definition lens (RS : list (list (V * V))) : list Z := reverse (Zlen <$> RS).
Lemma lens_snoc RS R : lens (RS ++ [R]) = Zlen R :: lens RS.
Proof. unfold lens. by rewrite fmap_app, reverse_app. Qed.
Lemma snoc2 RS (R1 R0 : list (V * V)) : RS ++ [R1; R0] = (RS ++ [R1]) ++ [R0].
Proof. by rewrite <- app_assoc. Qed.
Lemma snoc3 RS (R2 R1 R0 : list (V * V)) : RS ++ [R2; R1; R0] = ((RS ++ [R2]) ++ [R1]) ++ [R0].
Proof. by rewrite <- !app_assoc. Qed.

(** Merging the two runs on top, or the two below the top. *)
Definition weak_inv (RS : list (list (V * V))) : Prop := lens_inv (tail (tail (lens RS))).
Lemma wp_merge_top RS R1 R0 rest s i (Q : unit -> sortst V E -> Prop) :
  stack (RS ++ [R1; R0]) rest s -> weak_inv (RS ++ [R1; R0]) -> i = Zlen RS ->
  (∀ RS' s', stack RS' rest s' -> weak_inv RS' -> Zlen RS' = Zlen RS + 1 -> Q tt s') ->
  wp (merge_at key_compare i) Q sort_failed s.
Proof.
  intros Hs Hw Hi HQ. eapply wp_conseq; [by eapply merge_at_spec| |done].
  intros [] s' (C & HC & Hs'). eapply HQ; [exact Hs'| |zlia].
  unfold weak_inv in *. rewrite snoc2, !lens_snoc in Hw. rewrite lens_snoc.
  simpl in *. by apply lens_inv_tl.
Qed.
Lemma wp_merge_below RS R2 R1 R0 rest s i (Q : unit -> sortst V E -> Prop) :
  stack (RS ++ [R2; R1; R0]) rest s -> weak_inv (RS ++ [R2; R1; R0]) -> i = Zlen RS ->
  (∀ RS' s', stack RS' rest s' -> weak_inv RS' -> Zlen RS' = Zlen RS + 2 -> Q tt s') ->
  wp (merge_at key_compare i) Q sort_failed s.
Proof.
  intros Hs Hw Hi HQ. eapply wp_conseq; [by eapply merge_at_spec| |done].
  intros [] s' (C & HC & Hs'). eapply HQ; [exact Hs'| |zlia].
  unfold weak_inv in *. rewrite snoc3, !lens_snoc in Hw. rewrite snoc2, !lens_snoc.
  simpl in *. by destruct Hw.
Qed.

(** The two tests of the loop, and what they say when both fail. *)
Lemma wp_collapse_test RS R1 R0 rest s (Q : bool -> sortst V E -> Prop) X :
  let n := Zlen RS in
  stack (RS ++ [R1; R0]) rest s ->
  (∀ c, (c = true -> 0 < n) ->
    (c = false -> match lens RS with
                  | x2 :: l => Zlen R0 + Zlen R1 < x2 ∧
                      match l with x3 :: _ => Zlen R1 + x2 < x3 | [] => True end
                  | [] => True
                  end) -> Q c s) ->
  wp (c ← (if 0 <? n then no_sum (n - 1) else mret false);
      if c : bool then mret true else if 1 <? n then no_sum (n - 2) else mret false) Q X s.
Proof.
  intros n Hs HQ. wp_step. destruct (0 <? n) eqn:E1; bool_to_prop.
  2:{ apply wp_ret. destruct (1 <? n) eqn:E2; bool_to_prop; [lia|]. apply wp_ret, HQ; [done|].
      intros _. assert (RS = []) as -> by (apply Zlen_0_inv; subst n; zlia). done. }
  destruct (Zlen_pos_inv_r RS E1) as (RS4 & R2 & HRS). subst RS. rewrite <- app_assoc in Hs.
  eapply (wp_no_sum RS4 R2 R1 R0 []); [exact Hs|subst n; zlia|].
  destruct (_ <=? _) eqn:E3; bool_to_prop; [by apply wp_ret, HQ|].
  destruct (1 <? n) eqn:E2; bool_to_prop.
  2:{ apply wp_ret, HQ; [done|]. intros _.
      assert (RS4 = []) as -> by (apply Zlen_0_inv; subst n; zlia). simpl. split; [lia|done]. }
  destruct (Zlen_pos_inv_r RS4) as (RS5 & R3 & HRS); [subst n; zlia|]. subst RS4.
  rewrite <- app_assoc in Hs.
  eapply (wp_no_sum RS5 R3 R2 R1 [R0]); [exact Hs|subst n; zlia|].
  apply HQ; [lia|]. intros E4; bool_to_prop. rewrite !lens_snoc. lia.
Qed.

Lemma merge_collapse_loop_spec fuel RS rest s :
  stack RS rest s -> weak_inv RS -> Zlen RS < Z.of_nat fuel ->
  wp (merge_collapse_loop key_compare fuel)
    (λ _ s', ∃ RS', stack RS' rest s' ∧ lens_inv (lens RS')) sort_failed s.
Proof.
  revert RS s. induction fuel as [|fuel IH]; intros RS s Hs Hw Hf; [zlia|].
  cbn [merge_collapse_loop]. wp_step. eapply wp_ms_n; [exact Hs|].
  destruct (1 <? Zlen RS) eqn:E1; bool_to_prop.
  2:{ apply wp_ret. exists RS. split; [done|]. destruct RS as [|R [|]]; [done..|zlia]. }
  destruct (Zlen_pos_inv_r RS) as (RSa & R0 & ->); [lia|].
  destruct (Zlen_pos_inv_r RSa) as (RS3 & R1 & ->); [zlia|].
  rewrite <- snoc2 in *. cbv zeta.
  replace (Zlen (RS3 ++ [R1; R0]) - 2) with (Zlen RS3) by zlia.
  assert (∀ RS' s', stack RS' rest s' -> weak_inv RS' -> Zlen RS' < Zlen (RS3 ++ [R1; R0]) ->
    wp (merge_collapse_loop key_compare fuel)
      (λ _ s', ∃ RS', stack RS' rest s' ∧ lens_inv (lens RS')) sort_failed s') as Hrec.
  { intros RS' s' ???. apply (IH RS'); [done..|lia]. }
  apply wp_assoc, wp_bind. eapply wp_collapse_test; [exact Hs|]. intros c Hc1 Hc0.
  destruct c.
  - destruct (Zlen_pos_inv_r RS3 (Hc1 eq_refl)) as (RS4 & R2 & ->).
    rewrite <- app_assoc in *. simpl in Hs, Hw. wp_step.
    eapply (wp_pend_len RS4); [exact Hs|zlia|]. wp_step.
    eapply (wp_pend_len (RS4 ++ [R2; R1]) R0 []); [by rewrite <- app_assoc|zlia|]. wp_step.
    destruct (Zlen R2 <? Zlen R0).
    + eapply wp_merge_below; [exact Hs|exact Hw|zlia|]. intros. eapply Hrec; [done..|zlia].
    + eapply (wp_merge_top (RS4 ++ [R2]) R1 R0 rest); [by rewrite <- app_assoc|by rewrite <- app_assoc|done|].
      intros. eapply Hrec; [done..|zlia].
  - specialize (Hc0 eq_refl). wp_step. eapply wp_pend_len; [exact Hs|done|]. wp_step.
    eapply (wp_pend_len (RS3 ++ [R1]) R0 []); [by rewrite <- app_assoc|zlia|].
    destruct (Zlen R1 <=? Zlen R0) eqn:E2; bool_to_prop.
    + wp_step. eapply wp_merge_top; [exact Hs|exact Hw|done|]. intros. eapply Hrec; [done..|zlia].
    + apply wp_ret. exists (RS3 ++ [R1; R0]). split; [done|].
      unfold weak_inv in Hw. rewrite snoc2, !lens_snoc in *. simpl in Hw.
      apply lens_inv_intro; [lia| |done|done].
      destruct Hs as (?&?&?&?&_&_&_&_&_&Hpos&_).
      rewrite !Forall_app, !Forall_singleton in Hpos. naive_solver.
Qed.

(** After a push the stack collapses to one that satisfies the invariant. *)
Lemma merge_collapse_spec RS R rest s :
  stack (RS ++ [R]) rest s -> lens_inv (lens RS) ->
  wp (merge_collapse key_compare)
    (λ _ s', ∃ RS', stack RS' rest s' ∧ lens_inv (lens RS')) sort_failed s.
Proof.
  intros Hs Hinv. unfold merge_collapse. wp_step. eapply wp_ms_n; [exact Hs|].
  eapply merge_collapse_loop_spec; [exact Hs| |zlia].
  unfold weak_inv. rewrite lens_snoc. simpl. by apply lens_inv_tl.
Qed.

Lemma merge_force_collapse_loop_spec fuel RS rest s :
  stack RS rest s -> Zlen RS < Z.of_nat fuel ->
  wp (merge_force_collapse_loop key_compare fuel)
    (λ _ s', ∃ RS', stack RS' rest s' ∧ Zlen RS' <= 1) sort_failed s.
Proof.
  revert RS s. induction fuel as [|fuel IH]; intros RS s Hs Hf; [zlia|].
  cbn [merge_force_collapse_loop]. wp_step. eapply wp_ms_n; [exact Hs|].
  destruct (1 <? Zlen RS) eqn:E1; bool_to_prop; [|by apply wp_ret; exists RS].
  destruct (Zlen_pos_inv_r RS) as (RSa & R0 & ->); [lia|].
  destruct (Zlen_pos_inv_r RSa) as (RS3 & R1 & ->); [zlia|].
  rewrite <- snoc2 in *. cbv zeta.
  replace (Zlen (RS3 ++ [R1; R0]) - 2) with (Zlen RS3) by zlia.
  assert (∀ RS1 A B RS2 i, RS3 ++ [R1; R0] = RS1 ++ A :: B :: RS2 -> Zlen RS2 <= 1 ->
    i = Zlen RS1 ->
    wp (_ ← merge_at key_compare i; merge_force_collapse_loop key_compare fuel)
    (λ _ s', ∃ RS', stack RS' rest s' ∧ Zlen RS' <= 1) sort_failed s) as Hrec.
  { intros RS1 A B RS2 i HRS H2 Hi. wp_step.
    eapply wp_conseq; [eapply merge_at_spec; [by rewrite <- HRS|done|done]| |done].
    intros _ s' (C & _ & Hs'). eapply IH; [exact Hs'|].
    apply (f_equal Zlen) in HRS. zlia. }
  wp_step. destruct (0 <? Zlen RS3) eqn:E2; bool_to_prop.
  2:{ apply wp_ret. by apply (Hrec RS3 R1 R0 []). }
  destruct (Zlen_pos_inv_r RS3 E2) as (RS4 & R2 & ->).
  rewrite <- app_assoc in *. simpl in Hs. wp_step.
  eapply (wp_pend_len RS4); [exact Hs|zlia|]. wp_step.
  eapply (wp_pend_len (RS4 ++ [R2; R1]) R0 []); [by rewrite <- app_assoc|zlia|].
  apply wp_ret. destruct (Zlen R2 <? Zlen R0).
  - apply (Hrec RS4 R2 R1 [R0]); [done|zlia|zlia].
  - apply (Hrec (RS4 ++ [R2]) R1 R0 []); [by rewrite <- app_assoc|done|zlia].
Qed.
Lemma merge_force_collapse_spec RS rest s :
  stack RS rest s ->
  wp (merge_force_collapse key_compare)
    (λ _ s', ∃ RS', stack RS' rest s' ∧ Zlen RS' <= 1) sort_failed s.
Proof.
  intros Hs. unfold merge_force_collapse. wp_step. eapply wp_ms_n; [exact Hs|].
  eapply merge_force_collapse_loop_spec; [exact Hs|zlia].
Qed.
End stack.
