(* ===== verification/KeyCompare.v ===== *)
(** * Choosing a comparison: the pre-sort check of [list_sort_impl]

    The special-case comparison functions of [checked_list.c], the scan of the
    keys that selects one of them, and the theorem that makes the selection
    sound: on the scanned keys the chosen function gives the answer of
    [PyObject_RichCompareBool(v, w, Py_LT)]. *)

From stdpp Require Import base list numbers strings.
From S2P Require Import Prelude PyHeap SortSpec SortMem.

(** ** What the comparison functions look at in an object *)

Inductive pytype :=
  | PyTuple_Type | PyLong_Type | PyUnicode_Type | PyFloat_Type | OtherType (id : Z).
#[export] Instance pytype_eq_dec : EqDecision pytype.
Proof. solve_decision. Defined.

(** What a [tp_richcompare] slot returns. *)
Inductive rich_result (V : Type) := NotImplemented | RichNull | RichObj (o : V).
Arguments NotImplemented {V}.
Arguments RichNull {V}.
Arguments RichObj {V} o.

Definition builtin_type (t : pytype) : bool := match t with OtherType _ => false | _ => true end.

(** Objects of the built-in types: [long_compact] is the value of a compact
    integer, [str_data] the bytes of a one-byte-per-character string; [None]
    for an object of another representation.  [py_bool] is [Some] for [True] and [False];
    slots are named by their address.  An object of one of the exact built-in types
    cannot be given another class, nor can another object be given one of these.
    [py_finalise v] is the Python code that dropping a reference to [v]
    runs, which may change the list; it does nothing to an object that lives on. *)
Class KeyApi (V E : Type) := {
  py_type : V -> heap V E -> pytype;
  py_type_stable : ∀ v h h', builtin_type (py_type v h) = true -> py_type v h' = py_type v h;
  py_finalise : V -> heap V E -> heap V E;
  tp_richcompare : pytype -> heap V E -> option Z;
  call_slot : Z -> cmp_op -> V -> V -> heap V E -> rich_result V * heap V E;
  py_is_true : V -> heap V E -> option bool * heap V E;
  py_bool : V -> option bool;
  tuple_items : V -> list V;
  long_compact : V -> option Z;
  str_data : V -> option (list Z);
  float_lt : V -> V -> bool
}.

(** The comparison functions [ms->key_compare] may point to; [CmpObject slot]
    carries [ms->key_richcompare]. *)
Inductive elem_cmp := CmpSafe | CmpObject (slot : Z) | CmpLatin | CmpLong | CmpFloat.
(** [CmpTuple c]: [unsafe_tuple_compare] with [ms->tuple_elem_compare = c]. *)
Inductive key_cmp := CmpElem (c : elem_cmp) | CmpTuple (c : elem_cmp).

(** [memcmp] on the common length. *)
Fixpoint memcmp (a b : list Z) : Z :=
  match a, b with
  | x :: a, y :: b => if x =? y then memcmp a b else if x <? y then -1 else 1
  | _, _ => 0
  end.

Section compare.
Context {V E : Type} {api : PyApi V E} {kapi : KeyApi V E}.

(** [Py_DECREF] with the code that it runs. *)
Definition Py_DECREF_run (v : V) : PM V E unit := _ ← Py_DECREF v; mmodify (py_finalise v).

Definition safe_object_compare : compare_fn V E := λ v w, PyObject_RichCompareBool v w Py_LT.

(** [( *slot)(v, w, Py_LT)], whose object is a new reference. *)
Definition slot_lt (slot : Z) (v w : V) : PM V E (rich_result V) := λ h,
  match call_slot slot Py_LT v w h with
  | (RichObj o, h) => Ret (RichObj o) (add_event (Incref o) h)
  | (r, h) => Ret r h
  end.
Definition PyObject_IsTrue (o : V) : PM V E bool := λ h,
  match py_is_true o h with
  | (Some b, h) => Ret b h
  | (None, h) => Exn (PyErr Foreign no_msg) h
  end.
Definition unsafe_object_compare (key_richcompare : Z) : compare_fn V E := λ v w,
  h ← mget;
  if bool_decide (tp_richcompare (py_type v h) h = Some key_richcompare) then
    r ← slot_lt key_richcompare v w;
    match r with
    | NotImplemented => PyObject_RichCompareBool v w Py_LT
    | RichNull => mthrow (PyErr Foreign no_msg)
    | RichObj res_obj =>
        res ← mtry (match py_bool res_obj with
                    | Some b => mret b
                    | None => PyObject_IsTrue res_obj
                    end);
        _ ← Py_DECREF_run res_obj;
        match res with inl e => mthrow e | inr b => mret b end
    end
  else PyObject_RichCompareBool v w Py_LT.

(** [assert(Py_IS_TYPE(v, t)); assert(Py_IS_TYPE(w, t))]. *)
Definition assert_types (t : pytype) (v w : V) : PM V E unit :=
  h ← mget;
  _ ← cassert (bool_decide (py_type v h = t));
  cassert (bool_decide (py_type w h = t)).

(** The assertions on the kind of the strings, and on compact integers, are
    the data that must be there.  The last assertion of these functions runs
    the rich comparison again: that it gives the same answer is what
    [presort_cmp_ok] proves. *)
Definition unsafe_latin_compare : compare_fn V E := λ v w,
  _ ← assert_types PyUnicode_Type v w;
  a ← mlift (str_data v);
  b ← mlift (str_data w);
  let res := memcmp a b in
  mret (if res =? 0 then Zlen a <? Zlen b else res <? 0).

Definition unsafe_long_compare : compare_fn V E := λ v w,
  _ ← assert_types PyLong_Type v w;
  v0 ← mlift (long_compact v);
  w0 ← mlift (long_compact w);
  mret (v0 <? w0).

Definition unsafe_float_compare : compare_fn V E := λ v w,
  _ ← assert_types PyFloat_Type v w;
  mret (float_lt v w).

Definition run_elem_cmp (c : elem_cmp) : compare_fn V E :=
  match c with
  | CmpSafe => safe_object_compare
  | CmpObject slot => unsafe_object_compare slot
  | CmpLatin => unsafe_latin_compare
  | CmpLong => unsafe_long_compare
  | CmpFloat => unsafe_float_compare
  end.

(** The loop of [unsafe_tuple_compare] from index [i] on, over what is left
    of the two tuples, and the comparison of the first items that differ. *)
Fixpoint tuple_compare_from (elem_compare : elem_cmp) (i : Z) (vs ws : list V) : PM V E bool :=
  match vs, ws with
  | v :: vs, w :: ws =>
      k ← PyObject_RichCompareBool v w Py_EQ;
      if k : bool then tuple_compare_from elem_compare (i + 1) vs ws
      else if i =? 0 then run_elem_cmp elem_compare v w
      else PyObject_RichCompareBool v w Py_LT
  | _, _ => mret (Zlen vs <? Zlen ws)
  end.
Definition unsafe_tuple_compare (elem_compare : elem_cmp) : compare_fn V E := λ v w,
  _ ← assert_types PyTuple_Type v w;
  _ ← cassert (0 <? Zlen (tuple_items v));
  _ ← cassert (0 <? Zlen (tuple_items w));
  tuple_compare_from elem_compare 0 (tuple_items v) (tuple_items w).

Definition run_key_cmp (c : key_cmp) : compare_fn V E :=
  match c with
  | CmpElem c => run_elem_cmp c
  | CmpTuple c => unsafe_tuple_compare c
  end.

(** ** The pre-sort check *)

Definition is_nonempty_tuple (h : heap V E) (k : V) : bool :=
  bool_decide (py_type k h = PyTuple_Type) && negb (Zlen (tuple_items k) =? 0).

(** The flags of the scan. *)
Record scan := Scan {
  keys_are_in_tuples : bool;
  keys_are_all_same_type : bool;
  strings_are_latin : bool;
  ints_are_bounded : bool
}.
(** The key that is compared: the key itself or its first item. *)
Definition scan_key (tuples : bool) (k : V) : V :=
  if tuples then default k (head (tuple_items k)) else k.

Fixpoint presort_loop (h : heap V E) (key_type : pytype) (keys : list V) (s : scan) : scan :=
  match keys with
  | [] => s
  | k :: keys =>
      if keys_are_in_tuples s && negb (is_nonempty_tuple h k) then
        Scan false false (strings_are_latin s) (ints_are_bounded s)
      else
        let key := scan_key (keys_are_in_tuples s) k in
        let same := keys_are_all_same_type s && bool_decide (py_type key h = key_type) in
        if negb (bool_decide (py_type key h = key_type)) && negb (keys_are_in_tuples s) then
          Scan (keys_are_in_tuples s) false (strings_are_latin s) (ints_are_bounded s)
        else
          let bounded := bool_decide (key_type = PyLong_Type) && ints_are_bounded s
                         && bool_decide (long_compact key = None) in
          let latin := bool_decide (key_type = PyUnicode_Type) && strings_are_latin s
                       && bool_decide (str_data key = None) in
          presort_loop h key_type keys
            (Scan (keys_are_in_tuples s) same
               (if same && negb bounded && latin then false else strings_are_latin s)
               (if same && bounded then false else ints_are_bounded s))
  end.

(** [key_compare] for keys of one type. *)
Definition choose_elem (h : heap V E) (key_type : pytype) (s : scan) : elem_cmp :=
  if keys_are_all_same_type s then
    if bool_decide (key_type = PyUnicode_Type) && strings_are_latin s then CmpLatin
    else if bool_decide (key_type = PyLong_Type) && ints_are_bounded s then CmpLong
    else if bool_decide (key_type = PyFloat_Type) then CmpFloat
    else match tp_richcompare key_type h with
         | Some slot => CmpObject slot
         | None => CmpSafe
         end
  else CmpSafe.

Definition presort_check (keys : list V) (h : heap V E) : key_cmp :=
  match keys with
  | k0 :: _ :: _ =>
      let tuples := is_nonempty_tuple h k0 in
      let key_type := py_type (scan_key tuples k0) h in
      let s := presort_loop h key_type keys (Scan tuples true true true) in
      let c := choose_elem h key_type s in
      if keys_are_in_tuples s then
        CmpTuple (if bool_decide (key_type = PyTuple_Type) then CmpSafe else c)
      else CmpElem c
  | _ => CmpElem CmpSafe
  end.
End compare.

(** ** Lexicographic order, the specification of string and tuple comparison *)
Fixpoint lex_lt {A} (eq lt : A -> A -> bool) (a b : list A) : bool :=
  match a, b with
  | x :: a, y :: b => if eq x y then lex_lt eq lt a b else lt x y
  | [], _ :: _ => true
  | _, [] => false
  end.

Lemma memcmp_lex a b :
  (if memcmp a b =? 0 then Zlen a <? Zlen b else memcmp a b <? 0) = lex_lt Z.eqb Z.ltb a b.
Proof.
  revert b. induction a as [|x a IH]; intros [|y b]; simpl; [done|rewrite Zlen_cons; zlia..|].
  destruct (x =? y) eqn:E1; bool_to_prop.
  - rewrite <- IH, !Zlen_cons. destruct (memcmp a b =? 0); lia.
  - destruct (x <? y) eqn:E2; simpl; bool_to_prop; lia.
Qed.

(** ** Documented behaviour of comparison

    [lt] is what [<] answers on the objects satisfying [P]: rich comparison
    evaluates it, so do the slots of their types (or they defer), and on
    integers, strings and floats it is the numeric, lexicographic and
    floating-point order. *)
Record compare_doc {V E} `{PyApi V E} `{KeyApi V E} (P : V -> Prop) (lt : V -> V -> bool)
    : Prop := {
  doc_rich : ∀ v w h, P v -> P w -> ∃ h', py_rich Py_LT v w h = (Some (lt v w), h');
  doc_slot : ∀ slot v w h, P v -> P w -> tp_richcompare (py_type v h) h = Some slot ->
    ∃ r h', call_slot slot Py_LT v w h = (r, h') ∧
      match r with
      | NotImplemented => True
      | RichNull => False
      | RichObj o => py_bool o = Some (lt v w) ∨
          (py_bool o = None ∧
             ∃ h'', py_is_true o (add_event (Incref o) h') = (Some (lt v w), h''))
      end;
  doc_long : ∀ v w h a b, P v -> P w -> py_type v h = PyLong_Type -> py_type w h = PyLong_Type ->
    long_compact v = Some a -> long_compact w = Some b -> lt v w = (a <? b);
  doc_latin : ∀ v w h a b, P v -> P w ->
    py_type v h = PyUnicode_Type -> py_type w h = PyUnicode_Type ->
    str_data v = Some a -> str_data w = Some b -> lt v w = lex_lt Z.eqb Z.ltb a b;
  doc_float : ∀ v w h, P v -> P w -> py_type v h = PyFloat_Type -> py_type w h = PyFloat_Type ->
    lt v w = float_lt v w
}.
(** [lt] on tuples in terms of [<] and [==] on their items. *)
Record tuple_doc {V E} `{PyApi V E} `{KeyApi V E} (P : V -> Prop) (lt : V -> V -> bool)
    (Pe : V -> Prop) (lte eqe : V -> V -> bool) : Prop := {
  doc_items : ∀ v h, P v -> py_type v h = PyTuple_Type -> Forall Pe (tuple_items v);
  doc_item_lt : compare_doc Pe lte;
  doc_item_eq : ∀ v w h, Pe v -> Pe w -> ∃ h', py_rich Py_EQ v w h = (Some (eqe v w), h');
  doc_tuple : ∀ v w h, P v -> P w -> py_type v h = PyTuple_Type -> py_type w h = PyTuple_Type ->
    lt v w = lex_lt eqe lte (tuple_items v) (tuple_items w)
}.

Section sound.
Context {V E : Type} {api : PyApi V E} {kapi : KeyApi V E}.

(** What the scan has established when it ends. *)
Lemma presort_loop_sound h key_type keys s :
  let s' := presort_loop h key_type keys s in
  (keys_are_in_tuples s' = true ->
     keys_are_in_tuples s = true ∧ Forall (λ k, is_nonempty_tuple h k = true) keys) ∧
  (keys_are_all_same_type s' = true ->
     keys_are_all_same_type s = true ∧ keys_are_in_tuples s' = keys_are_in_tuples s ∧
     Forall (λ k, py_type (scan_key (keys_are_in_tuples s) k) h = key_type) keys ∧
     (strings_are_latin s' = true -> strings_are_latin s = true ∧
        (key_type = PyUnicode_Type ->
         Forall (λ k, str_data (scan_key (keys_are_in_tuples s) k) ≠ None) keys)) ∧
     (ints_are_bounded s' = true -> ints_are_bounded s = true ∧
        (key_type = PyLong_Type ->
         Forall (λ k, long_compact (scan_key (keys_are_in_tuples s) k) ≠ None) keys))).
Proof.
  revert s. induction keys as [|k keys IH]; intros [t sm la bo] s'; subst s'; simpl.
  { split; [done|]. intros ->. split_and!; try done. }
  destruct (t && negb (is_nonempty_tuple h k)) eqn:E1; [done|].
  case_bool_decide as Ht; simpl.
  2:{ destruct t; simpl; [|done]. simpl in E1. apply negb_false_iff in E1.
      rewrite andb_false_r. simpl. specialize (IH (Scan true false la bo)). simpl in IH.
      destruct IH as [H1 H2]. split; [|intros ?; destruct H2; done].
      intros H3. destruct (H1 H3). split; [done|]. by constructor. }
  rewrite andb_true_r. specialize (IH (Scan t sm
    (if sm && negb (bool_decide (key_type = PyLong_Type) && bo &&
         bool_decide (long_compact (scan_key t k) = None)) &&
       (bool_decide (key_type = PyUnicode_Type) && la &&
        bool_decide (str_data (scan_key t k) = None)) then false else la)
    (if sm && (bool_decide (key_type = PyLong_Type) && bo &&
         bool_decide (long_compact (scan_key t k) = None)) then false else bo))).
  simpl in IH. destruct IH as [H1 H2]. split.
  { intros H3. destruct (H1 H3) as [-> H4]. split; [done|]. constructor; [|done].
    by apply negb_false_iff in E1. }
  intros H3. destruct (H2 H3) as (-> & H4 & H5 & H6 & H7). split_and!; [done|done|by constructor|..].
  - intros H8. destruct (H6 H8) as [H9 H10]. split; [destruct la; [done|by case_match]|].
    intros Hu. constructor; [|by auto]. intros Hd. subst key_type.
    clear - H9 Hd Hu. repeat case_bool_decide; destruct la; simpl in H9; congruence.
  - intros H8. destruct (H7 H8) as [H9 H10]. split; [destruct bo; [done|by case_match]|].
    intros Hu. constructor; [|by auto]. intros Hd. subst key_type.
    clear - H9 Hd Hu. repeat case_bool_decide; destruct bo; simpl in H9; congruence.
Qed.

(** Each comparison function runs where its assertions hold, and answers
    [lt] when comparison is as documented. *)
Section one_type.
Variables (ordered : Prop) (P : V -> Prop) (lt : V -> V -> bool) (v w : V).
Hypotheses (Hdoc : ordered -> compare_doc P lt) (Hv : ordered -> P v) (Hw : ordered -> P w).
Definition answers_lt (kc : compare_fn V E) : Prop :=
  ∀ h, wp (kc v w) (λ b _, ordered -> b = lt v w) (λ _ _, ¬ ordered) h.

Lemma rich_answers op eqv h : (ordered -> ∃ h', py_rich op v w h = (Some eqv, h')) ->
  ∀ Q, (∀ b h', (ordered -> b = eqv) -> Q b h') ->
  wp (PyObject_RichCompareBool v w op) Q (λ _ _, ¬ ordered) h.
Proof.
  intros Hr Q HQ. unfold wpo, PyObject_RichCompareBool.
  destruct (py_rich op v w h) as [[b|] h'] eqn:E1; [apply HQ|]; intros Ho; destruct (Hr Ho); congruence.
Qed.
Lemma safe_answers : answers_lt safe_object_compare.
Proof. intros h. apply (rich_answers _ (lt v w)); [|done]. intros Ho. apply (doc_rich _ _ (Hdoc Ho)); auto. Qed.
Lemma object_answers slot : answers_lt (unsafe_object_compare slot).
Proof.
  intros h. unfold unsafe_object_compare. wp_step. apply wp_get. case_bool_decide as Hs; [|apply safe_answers].
  wp_step. unfold wpo at 1, slot_lt. destruct (call_slot slot Py_LT v w h) as [r h1] eqn:Hc.
  assert (ordered -> match r with
    | NotImplemented => True
    | RichNull => False
    | RichObj o => py_bool o = Some (lt v w) ∨
        (py_bool o = None ∧ ∃ h'', py_is_true o (add_event (Incref o) h1) = (Some (lt v w), h''))
    end) as Hr.
  { intros Ho. destruct (doc_slot _ _ (Hdoc Ho) slot v w h (Hv Ho) (Hw Ho) Hs) as (r' & h' & Hc' & Hr').
    rewrite Hc in Hc'. by injection Hc' as <- <-. }
  destruct r as [| |o]; [apply safe_answers|by intros ?%Hr|]. wp_step. apply wp_try.
  assert (∀ b h2, (ordered -> b = lt v w) -> wp (_ ← Py_DECREF_run o; mret b)
    (λ b _, ordered -> b = lt v w) (λ _ _, ¬ ordered) h2) as Hend by (intros b h2 Hb; exact Hb).
  destruct (py_bool o) as [b|]; [apply wp_ret, Hend; intros Ho; by destruct (Hr Ho) as [[= ->] | [? _]]|].
  unfold wpo at 1, PyObject_IsTrue.
  destruct (py_is_true o _) as [[b|] h2] eqn:Et; [apply Hend|]; intros Ho;
    destruct (Hr Ho) as [? | [_ [h3 Ht]]]; congruence.
Qed.

(** The type of an object of a built-in type does not change. *)
Lemma assert_types_pass t h0 (h : heap V E) (Q : unit -> heap V E -> Prop) X :
  builtin_type t = true -> py_type v h0 = t -> py_type w h0 = t -> Q tt h ->
  wp (assert_types t v w) Q X h.
Proof.
  intros Ht Hv' Hw' HQ. unfold assert_types. wp_step. apply wp_get.
  apply wp_bind, wp_assert; [|apply wp_assert; [|done]]; apply bool_decide_eq_true; subst t.
  - by apply py_type_stable.
  - rewrite <- Hw' in Ht |- *. by apply py_type_stable.
Qed.
Lemma latin_answers h0 :
  py_type v h0 = PyUnicode_Type -> py_type w h0 = PyUnicode_Type ->
  str_data v ≠ None -> str_data w ≠ None -> answers_lt unsafe_latin_compare.
Proof.
  intros Htv Htw Ha Hb h. destruct (str_data v) as [a|] eqn:Ea; [|done].
  destruct (str_data w) as [b|] eqn:Eb; [|done]. unfold unsafe_latin_compare.
  wp_step. apply (assert_types_pass _ h0); [done..|]. rewrite Ea, Eb. wp_step. apply wp_ret. wp_step. apply wp_ret.
  apply wp_ret. intros Ho. rewrite memcmp_lex. by rewrite (doc_latin _ _ (Hdoc Ho) v w h0 a b); auto.
Qed.
Lemma long_answers h0 :
  py_type v h0 = PyLong_Type -> py_type w h0 = PyLong_Type ->
  long_compact v ≠ None -> long_compact w ≠ None -> answers_lt unsafe_long_compare.
Proof.
  intros Htv Htw Ha Hb h. destruct (long_compact v) as [a|] eqn:Ea; [|done].
  destruct (long_compact w) as [b|] eqn:Eb; [|done]. unfold unsafe_long_compare.
  wp_step. apply (assert_types_pass _ h0); [done..|]. rewrite Ea, Eb. wp_step. apply wp_ret. wp_step. apply wp_ret.
  apply wp_ret. intros Ho. by rewrite (doc_long _ _ (Hdoc Ho) v w h0 a b); auto.
Qed.
Lemma float_answers h0 :
  py_type v h0 = PyFloat_Type -> py_type w h0 = PyFloat_Type ->
  answers_lt unsafe_float_compare.
Proof.
  intros Htv Htw h. unfold unsafe_float_compare.
  wp_step. apply (assert_types_pass _ h0); [done..|]. apply wp_ret. intros Ho.
  by rewrite (doc_float _ _ (Hdoc Ho) v w h0); auto.
Qed.

(** The chosen comparison of keys of one type runs on them and answers [lt]. *)
Lemma choose_elem_answers h0 key_type s :
  (keys_are_all_same_type s = true -> py_type v h0 = key_type ∧ py_type w h0 = key_type ∧
     (strings_are_latin s = true -> key_type = PyUnicode_Type ->
        str_data v ≠ None ∧ str_data w ≠ None) ∧
     (ints_are_bounded s = true -> key_type = PyLong_Type ->
        long_compact v ≠ None ∧ long_compact w ≠ None)) ->
  answers_lt (run_elem_cmp (choose_elem h0 key_type s)).
Proof.
  intros Hs. unfold choose_elem.
  destruct (keys_are_all_same_type s); [|apply safe_answers].
  destruct (Hs eq_refl) as (Htv & Htw & Hlat & Hbd).
  destruct (bool_decide (key_type = PyUnicode_Type) && strings_are_latin s) eqn:E1.
  { apply andb_prop in E1 as [H1%bool_decide_eq_true H2]. subst key_type.
    destruct (Hlat H2 H1). apply (latin_answers h0); congruence. }
  destruct (bool_decide (key_type = PyLong_Type) && ints_are_bounded s) eqn:E2.
  { apply andb_prop in E2 as [H1%bool_decide_eq_true H2]. subst key_type.
    destruct (Hbd H2 H1). apply (long_answers h0); congruence. }
  destruct (bool_decide (key_type = PyFloat_Type)) eqn:E3.
  { apply bool_decide_eq_true in E3. apply (float_answers h0); congruence. }
  case_match; [apply object_answers|apply safe_answers].
Qed.
End one_type.

(** On tuples of items compared by [eqe] and [lte]. *)
Lemma tuple_from_answers (ordered : Prop) Pe lte eqe c i vs ws h :
  (ordered -> compare_doc Pe lte) ->
  (ordered -> ∀ v w h, Pe v -> Pe w -> ∃ h', py_rich Py_EQ v w h = (Some (eqe v w), h')) ->
  (i = 0 -> match vs, ws with
            | v :: _, w :: _ => answers_lt ordered lte v w (run_elem_cmp c)
            | _, _ => True
            end) ->
  (ordered -> Forall Pe vs) -> (ordered -> Forall Pe ws) -> 0 <= i ->
  wp (tuple_compare_from c i vs ws) (λ b _, ordered -> b = lex_lt eqe lte vs ws) (λ _ _, ¬ ordered) h.
Proof.
  intros Hdoc Heq. revert i ws h.
  induction vs as [|v vs IH]; intros i [|w ws] h Hc Hvs Hws Hi; simpl.
  1,3: by apply wp_ret.
  { apply wp_ret. intros _. rewrite Zlen_cons, Zlen_nil. apply Z.ltb_lt. zlia. }
  assert (ordered -> Pe v ∧ Pe w ∧ Forall Pe vs ∧ Forall Pe ws) as HPs.
  { intros Ho. specialize (Hvs Ho). specialize (Hws Ho). rewrite Forall_cons in Hvs, Hws. naive_solver. }
  wp_step. apply (rich_answers ordered v w Py_EQ (eqe v w)).
  { intros Ho. destruct (HPs Ho) as (? & ? & _). by apply Heq. }
  intros k h' Hk. assert (∀ m : PM V E bool,
    wp m (λ b _, ordered -> b = if k then lex_lt eqe lte vs ws else lte v w) (λ _ _, ¬ ordered) h' ->
    wp m (λ b _, ordered -> b = if eqe v w then lex_lt eqe lte vs ws else lte v w) (λ _ _, ¬ ordered) h')
    as Hgo.
  { intros m Hm. eapply wp_conseq; [exact Hm| |done]. simpl. intros b _ Hb Ho.
    by rewrite <- (Hk Ho), (Hb Ho). }
  apply Hgo. destruct k.
  - apply IH; [lia|naive_solver..|lia].
  - destruct (i =? 0) eqn:E1; bool_to_prop; [by apply Hc|].
    apply (rich_answers ordered v w _ (lte v w)); [|done]. intros Ho. destruct (HPs Ho) as (? & ? & _).
    by apply (doc_rich _ _ (Hdoc Ho)).
Qed.
End sound.

(** ** The selection is sound *)
Section presort.
Context {V E : Type} {api : PyApi V E} {kapi : KeyApi V E}.
Variables (ordered : Prop) (P : V -> Prop) (lt : V -> V -> bool).
Variables (Pe : V -> Prop) (lte eqe : V -> V -> bool).
Hypothesis Hdoc : ordered -> compare_doc P lt.
Hypothesis Htup : ordered -> tuple_doc P lt Pe lte eqe.

Lemma nonempty_tuple_inv h k :
  is_nonempty_tuple h k = true ->
  py_type k h = PyTuple_Type ∧ ∃ x xs, tuple_items k = x :: xs ∧ scan_key true k = x.
Proof.
  intros [H1%bool_decide_eq_true H2%negb_true_iff]%andb_prop. split; [done|].
  unfold scan_key. destruct (tuple_items k) as [|x xs]; [done|]. by exists x, xs.
Qed.
Lemma tuple_answers h0 c v w :
  (ordered -> P v) -> (ordered -> P w) ->
  is_nonempty_tuple h0 v = true -> is_nonempty_tuple h0 w = true ->
  ((ordered -> Pe (scan_key true v)) -> (ordered -> Pe (scan_key true w)) ->
   answers_lt ordered lte (scan_key true v) (scan_key true w) (run_elem_cmp c)) ->
  answers_lt ordered lt v w (unsafe_tuple_compare c).
Proof.
  intros Hv Hw Hnv Hnw Hc h.
  destruct (nonempty_tuple_inv _ _ Hnv) as (Htv & x & xs & Hx & Hsx).
  destruct (nonempty_tuple_inv _ _ Hnw) as (Htw & y & ys & Hy & Hsy).
  rewrite Hsx, Hsy in Hc. unfold unsafe_tuple_compare.
  wp_step. apply (assert_types_pass _ _ _ h0); [done..|].
  apply wp_bind, wp_assert; [rewrite Hx; zlia|]. apply wp_bind, wp_assert; [rewrite Hy; zlia|].
  assert (ordered -> Forall Pe (tuple_items v)) as Hiv
    by (intros Ho; exact (doc_items _ _ _ _ _ (Htup Ho) v h0 (Hv Ho) Htv)).
  assert (ordered -> Forall Pe (tuple_items w)) as Hiw
    by (intros Ho; exact (doc_items _ _ _ _ _ (Htup Ho) w h0 (Hw Ho) Htw)).
  eapply wp_conseq; [apply (tuple_from_answers ordered Pe lte eqe)|..].
  - intros Ho. apply (Htup Ho).
  - intros Ho. apply (Htup Ho).
  - rewrite Hx, Hy in *. intros _. apply Hc; intros Ho; specialize (Hiv Ho); specialize (Hiw Ho);
      rewrite Forall_cons in Hiv, Hiw; naive_solver.
  - done.
  - done.
  - lia.
  - cbv beta. intros b _ Hb Ho. rewrite (doc_tuple _ _ _ _ _ (Htup Ho) v w h0); auto.
  - done.
Qed.

Lemma presort_check_answers keys h0 v w :
  (ordered -> Forall P keys) -> v ∈ keys -> w ∈ keys ->
  answers_lt ordered lt v w (run_key_cmp (presort_check keys h0)).
Proof.
  intros HP Hv Hw.
  assert (ordered -> P v) as HPv by (intros Ho; specialize (HP Ho); rewrite Forall_forall in HP; auto).
  assert (ordered -> P w) as HPw by (intros Ho; specialize (HP Ho); rewrite Forall_forall in HP; auto).
  clear HP. destruct keys as [|k0 [|k1 ks]]; [by apply (safe_answers ordered P); auto..|].
  unfold presort_check. set (keys := k0 :: k1 :: ks) in *.
  set (tuples := is_nonempty_tuple h0 k0).
  set (key_type := py_type (scan_key tuples k0) h0).
  destruct (presort_loop_sound h0 key_type keys (Scan tuples true true true)) as [H1 H2].
  set (s := presort_loop h0 key_type keys (Scan tuples true true true)) in *. simpl in H1, H2.
  assert (keys_are_all_same_type s = true -> keys_are_in_tuples s = tuples ∧
    py_type (scan_key tuples v) h0 = key_type ∧ py_type (scan_key tuples w) h0 = key_type ∧
    (strings_are_latin s = true -> key_type = PyUnicode_Type ->
       str_data (scan_key tuples v) ≠ None ∧ str_data (scan_key tuples w) ≠ None) ∧
    (ints_are_bounded s = true -> key_type = PyLong_Type ->
       long_compact (scan_key tuples v) ≠ None ∧ long_compact (scan_key tuples w) ≠ None))
    as Hsame.
  { intros H3. destruct (H2 H3) as (_ & H4 & H5 & H6 & H7). rewrite Forall_forall in H5.
    split_and!; [done|by apply H5|by apply H5|..].
    - intros H8 H9. destruct (H6 H8) as [_ H10]. specialize (H10 H9).
      rewrite Forall_forall in H10. auto.
    - intros H8 H9. destruct (H7 H8) as [_ H10]. specialize (H10 H9).
      rewrite Forall_forall in H10. auto. }
  destruct (keys_are_in_tuples s) eqn:Et.
  - destruct (H1 eq_refl) as [Htup0 Hall]. rewrite Forall_forall in Hall.
    rewrite Htup0 in Hsame. apply (tuple_answers h0); auto. intros HPv' HPw'.
    assert (ordered -> compare_doc Pe lte) as Hdoce by (intros Ho; apply (Htup Ho)).
    case_bool_decide; [by apply (safe_answers ordered Pe)|].
    apply (choose_elem_answers ordered Pe); [done..|].
    intros H3. by destruct (Hsame H3).
  - apply (choose_elem_answers ordered P); auto. intros H3.
    destruct (Hsame H3) as (H4 & H5). by rewrite <- H4 in H5.
Qed.
End presort.

(** The chosen function is what the sort expects of a comparison. *)
Lemma presort_cmp_ok {V E} {api : PyApi V E} {kapi : KeyApi V E} (ordered : Prop)
    (P : V -> Prop) lt Pe lte eqe keys h0 :
  StrictWeakOrder lt ->
  (ordered -> compare_doc P lt ∧ tuple_doc P lt Pe lte eqe ∧ Forall P keys) ->
  cmp_ok (run_key_cmp (presort_check keys h0)) ordered (λ k, k ∈ keys) lt.
Proof.
  intros Hswo Hord.
  assert (∀ v w, v ∈ keys -> w ∈ keys ->
    answers_lt ordered lt v w (run_key_cmp (presort_check keys h0))) as Ha.
  { intros v w. apply (presort_check_answers ordered P lt Pe lte eqe); intros Ho; by apply Hord. }
  split; [done|..].
  - intros v w h Hv Hw. by eapply wp_conseq; [apply Ha|..].
  - intros Ho v w h Hv Hw. pose proof (Ha v w Hv Hw h) as Hwp. unfold wpo in Hwp.
    destruct (run_key_cmp _ _ _ h) as [b h'| | |]; try done. rewrite (Hwp Ho). eauto.
Qed.
