(* ===== verification/ListSort.v ===== *)
(** * [list_sort_impl]

    The whole sort: the list is detached, keys are computed, a comparison is
    chosen, runs are found and merged, and the list is put back, on success
    and on every failure path. *)

From stdpp Require Import base sets list numbers strings sorting.
From S2P Require Import Prelude Slices PyHeap ListCore SortSpec SortMem Gallop Runs Merge MergeLo MergeHi Collapse KeyCompare.

Section list_sort.
Context {V E : Type} {api : PyApi V E} {kapi : KeyApi V E}.

(** Keys are in [ms.temparray] below this size, allocated from it on. *)
Definition KEYS_ON_STACK : Z := MERGESTATE_TEMP_SIZE `div` 2.
(** [keys = &ms.temparray[saved_ob_size + 1]], [saved_ob_size] of them. *)
Definition keys_region (saved_ob_size : Z) : list region :=
  if saved_ob_size <? KEYS_ON_STACK then [Region (saved_ob_size + 1) saved_ob_size] else [].

(** [Py_DECREF] of references in order, each running its code: from the front
    of a list, and from the end of a block, as [while (--i >= 0)]. *)
Fixpoint release_all (l : list V) : PM V E unit :=
  match l with
  | [] => mret tt
  | v :: l => _ ← Py_DECREF_run v; release_all l
  end.
Fixpoint release_down (i : nat) (a : list V) : PM V E unit :=
  match i with
  | O => mret tt
  | S i => v ← mlift (aget a (Z.of_nat i)); _ ← Py_DECREF_run v; release_down i a
  end.

(** [keys[i] = PyObject_CallOneArg(keyfunc, saved_ob_item[i])]; a failure
    releases the keys computed so far, the last one first. *)
Fixpoint compute_keys (keyfunc : V) (items computed : list V) : PM V E (list V) :=
  match items with
  | [] => mret (reverse computed)
  | v :: items =>
      k ← mtry (PyObject_CallOneArg keyfunc v);
      match k with
      | inl e => _ ← release_all computed; mthrow e
      | inr k => compute_keys keyfunc items (k :: computed)
      end
  end.
Definition sort_keys (keyfunc : option V) (vals : list V) : PM V E (option (list V)) :=
  match keyfunc with
  | None => mret None
  | Some f =>
      _ ← (if Zlen vals <? KEYS_ON_STACK then mret tt
           else ok ← PyMem_alloc (size_t (SIZEOF_PTR * Zlen vals));
                if ok : bool then mret tt else mraise MemoryError no_msg);
      keys ← compute_keys f vals [];
      mret (Some keys)
  end.

Section body.
Variable key_compare : compare_fn V E.

(** [ms.pending[ms.n].base = lo; ms.pending[ms.n].len = n; ++ms.n]. *)
Definition push_run (lo : sortslice) (n : Z) : SM V E unit :=
  m ← get_ms;
  _ ← cassert (nrun m <? MAX_MERGE_PENDING);
  p ← mlift (aset (pending m) (nrun m) (Run lo n));
  put_ms (MkMS (min_gallop m) (on_stack m) (alloced m) (nrun m + 1) p).

(** Identify the next run and extend it to [minrun]; the result is its length. *)
Definition next_run (minrun : Z) (lo : sortslice) (nremaining : Z) : SM V E Z :=
  '(n, descending) ← count_run key_compare lo (po lo + nremaining);
  _ ← (if descending : bool then reverse_sortslice lo n else mret tt);
  if n <? minrun then
    let force := if nremaining <=? minrun then nremaining else minrun in
    _ ← binarysort key_compare lo (po lo + force) (po lo + n);
    mret force
  else mret n.
Fixpoint run_loop (fuel : nat) (minrun : Z) (lo : sortslice) (nremaining : Z) : SM V E unit :=
  match fuel with
  | O => mnofuel
  | S fuel =>
      n ← next_run minrun lo nremaining;
      _ ← push_run lo n;
      _ ← merge_collapse key_compare;
      let lo := sortslice_advance lo n in
      let nremaining := nremaining - n in
      if nremaining =? 0 then mret tt else run_loop fuel minrun lo nremaining
  end.
(** From [merge_init] to the label [succeed]; [goto fail] is a failure. *)
Definition sort_body (reverse : bool) (saved_ob_size : Z) : SM V E unit :=
  if saved_ob_size <? 2 then mret tt
  else
    let lo := Slice Main 0 in
    _ ← (if reverse then reverse_sortslice lo saved_ob_size else mret tt);
    let minrun := merge_compute_minrun saved_ob_size in
    _ ← run_loop (S (Z.to_nat saved_ob_size)) minrun lo saved_ob_size;
    _ ← merge_force_collapse key_compare;
    m ← get_ms;
    _ ← cassert (nrun m =? 1);
    r ← mlift (aget (pending m) 0);
    _ ← cassert (bool_decide (base r = lo));
    cassert (len r =? saved_ob_size).
End body.

(** The saved items: the values array, or the keys when they are the items. *)
Definition values_of (a : sarr V) : list V := default (ks a) (vs a).
Definition set_values (a : sarr V) (l : list V) : sarr V :=
  match vs a with Some _ => SArr (ks a) (Some l) | None => SArr l None end.

(** The label [fail], reached with the outcome so far. *)
Definition sort_end (reverse : bool) (saved_ob_size : Z) (result : pyexn + unit)
    : SM V E (pyexn + unit) :=
  s ← mget;
  _ ← in_heap (match vs (main s) with Some _ => release_all (ks (main s)) | None => mret tt end);
  l ← in_heap get_self;
  let result :=
    match result with
    | inr _ => if allocated l =? -1 then result
               else inl (PyErr ValueError "list modified during sort")
    | inl _ => result
    end in
  _ ← (if reverse && (1 <? saved_ob_size) then
         s ← mget;
         v ← mlift (reverse_slice (values_of (main s)) 0 saved_ob_size);
         mput (setarr Main (set_values (main s) v) s)
       else mret tt);
  _ ← merge_freemem;
  mret result.

(** The middle of [list_sort_impl], on the state of the sort; the result is
    the outcome and the saved items as they are left.  The assertion is that of
    the model: the buffer and the keys share [ms.temparray] without overlap. *)
Definition sort_saved (vals : list V) (keys : option (list V)) (reverse : bool)
    : PM V E ((pyexn + unit) * list V) := λ h,
  let arr := match keys with Some ks => SArr ks (Some vals) | None => SArr vals None end in
  let key_compare := run_key_cmp (presort_check (ks arr) h) in
  let has_keyfunc := bool_decide (keys ≠ None) in
  let '(ms, a) := merge_init (Zlen vals) has_keyfunc in
  match (_ ← cassert (regions_ok (merge_init_regions (alloced ms) has_keyfunc ++
                                  (if has_keyfunc then keys_region (Zlen vals) else [])));
         r ← mtry (sort_body key_compare reverse (Zlen vals));
         sort_end reverse (Zlen vals) r) (SortSt h arr a ms) with
  | Ret r s => Ret (r, values_of (main s)) (hp s)
  | Exn e s => Exn e (hp s)
  | Stuck => Stuck
  | NoFuel => NoFuel
  end.

(** The label [keyfunc_fail]: the saved contents are put back, and then what
    the list became during the sort is released, whose code sees, and may
    change, the list that has been put back. *)
Definition sort_restore (saved : listobj V) (vals : list V) : PM V E unit :=
  final ← get_self;
  _ ← put_self (ListObj ((λ a, vals ++ drop (length vals) a) <$> ob_item saved)
                  (ob_size saved) (allocated saved));
  match ob_item final with
  | None => mret tt
  | Some a => release_down (Z.to_nat (ob_size final)) a
  end.

Definition list_sort_impl (keyfunc : option V) (reverse : bool) : PM V E unit :=
  saved ← get_self;
  let vals := items saved in
  _ ← put_self (ListObj None 0 (-1));
  keys ← mtry (sort_keys keyfunc vals);
  match keys with
  | inl e => _ ← sort_restore saved vals; mthrow e
  | inr keys =>
      '(result, vals) ← sort_saved vals keys reverse;
      _ ← sort_restore saved vals;
      match result with inl e => mthrow e | inr _ => mret tt end
  end.
End list_sort.
