(* ===== verification/CheckedList.v ===== *)
(** * The typed operations of [CheckedList[T]]

    The methods of [checked_list.c] that check their arguments against the
    type parameter, and the method table as a whole: every way Python code can
    change a checked list. *)

From stdpp Require Import base list numbers strings.
From S2P Require Import Prelude Slices PyHeap ListCore ListView ListSpec ListAssign ListExtend ListQuery ListQuerySpec.
From S2P Require Import ListSubscript TypeCheck SortSpec SortMem KeyCompare ListSort.

Section chklist.
Context {V E : Type} {api : PyApi V E} {tapi : TypeApi V} {sapi : SliceApi} `{EqDecision V}.
(** [gti_inst] of the list's type. *)
Variable inst : list gparam.

(** ** Appending and inserting *)
Definition chklist_append (value : V) : PM V E unit :=
  n ← get_size;
  if n =? PY_SSIZE_T_MAX then mraise OverflowError "cannot add more objects to list"
  else
    _ ← list_resize (n + 1);
    _ ← Py_INCREF value;
    item_set n value.
Definition chklist_append_wrapper (value : V) : PM V E unit :=
  _ ← _PyClassLoader_CheckOneArg inst value Ci_Py_Sig_T0;
  chklist_append value.
(** [index] is the first argument as a [Py_ssize_t]. *)
Definition list_insert_wrapper (index : Z) (object : V) : PM V E unit :=
  _ ← _PyClassLoader_CheckOneArg inst object Ci_Py_Sig_T0;
  ins1 index object.
(** For lists whose type the compiler has checked. *)
Definition Ci_ListOrCheckedList_Append (v : V) : PM V E unit :=
  n ← get_size;
  _ ← cassert (size_t n + 1 <? PY_SSIZE_T_MAX);
  _ ← list_resize (n + 1);
  _ ← Py_INCREF v;
  item_set n v.

(** ** New lists *)
Definition Ci_CheckedList_New (size : Z) : PM V E (listobj V) :=
  if size =? 0 then mret (ListObj None 0 0)
  else
    items ← PyMem_New size;
    match items with
    | None => mraise MemoryError no_msg
    | Some items => mret (ListObj (Some items) size size)
    end.
Definition chklist_slice (ilow ihigh : Z) : PM V E (listobj V) :=
  let len := ihigh - ilow in
  np ← Ci_CheckedList_New len;
  src ← get_block;
  dest ← copy_refs (Z.to_nat len) src ilow (default [] (ob_item np)) 0;
  mret (ListObj (match ob_item np with None => None | Some _ => Some dest end)
          (ob_size np) (allocated np)).
Definition chklist_copy : PM V E (listobj V) := size ← get_size; chklist_slice 0 size.

(** ** Extending *)
Definition chklist_checkitem (value : V) : PM V E unit :=
  ok ← _PyClassLoader_CheckParamType inst value 0;
  if ok : bool then mret tt else mraise TypeError "bad value for list".
(** [for (i = 0; i < n; i++) if (chklist_checkitem(self, items[i])) ...]. *)
Fixpoint chklist_checkitems (values : list V) : PM V E unit :=
  match values with
  | [] => mret tt
  | v :: values => _ ← chklist_checkitem v; chklist_checkitems values
  end.
Definition chklist_extend_seq (iterable_is_same_type : bool) (a : seq_arg V E) : PM V E unit :=
  '(src, fresh) ← PySequence_Fast a "argument must be iterable";
  let n := Zlen src in
  if n =? 0 then release_seq src fresh
  else
    m ← get_size;
    with_seq src fresh
      (_ ← (if iterable_is_same_type then mret tt else chklist_checkitems src);
       _ ← cassert (m <? PY_SSIZE_T_MAX - n);
       _ ← list_resize (m + n);
       store_items src m).
Fixpoint chklist_extend_loop (fuel : nat) (it : iterable V E) : PM V E unit :=
  match fuel with
  | O => mnofuel
  | S fuel =>
      r ← iternext it;
      match r with
      | IErr e => mthrow e
      | IStop => mret tt
      | INext item =>
          c ← mtry (chklist_checkitem item);
          match c with
          | inl e => _ ← Py_DECREF item; mthrow e
          | inr _ => _ ← extend_item item; chklist_extend_loop fuel it
          end
      end
  end.
Definition chklist_extend_iter (fuel : nat) (it : iterable V E) : PM V E unit :=
  _ ← PyObject_GetIter it;
  n ← PyObject_LengthHint it;
  m ← get_size;
  _ ← (if PY_SSIZE_T_MAX - n <? m then mret tt else make_room m n);
  _ ← chklist_extend_loop fuel it;
  cut_back.
(** [same]: the iterable is a checked list of the type of this one. *)
Definition chklist_extend (fuel : nat) (same : bool) (iterable : extend_arg V E) : PM V E unit :=
  match iterable with
  | XSeq a => chklist_extend_seq same a
  | XIter it => chklist_extend_iter fuel it
  end.

(** ** Subscripts, popping, initialising *)

(** [same_type]: [Py_TYPE(value) == Py_TYPE(self)].  A deletion calls this
    with [value == NULL], which both branches dereference. *)
Definition chklist_ass_subscript (item : subscript V E) (same_type : bool)
    (value : ass_value V E) : PM V E unit :=
  _ ← (match value with
       | VDelete => mstuck
       | VObj v _ =>
           match item with
           | SSlice _ => if same_type then mret tt
                         else mraise TypeError "Incompatible slice type assigned to list"
           | _ => chklist_checkitem v
           end
       end);
  list_ass_subscript item value.

(** [pop]'s argument: absent, an int, None, or something else. *)
Inductive pop_arg := PopNone | PopInt (to_long : heap V E -> (pyexn + Z) * heap V E) | PopOther.
Definition chklist_pop (arg : pop_arg) : PM V E V :=
  match arg with
  | PopNone => list_pop_impl (-1)
  | PopInt to_long => index ← run_index to_long; list_pop_impl index
  | PopOther => mraise TypeError "pop: expected int or None"
  end.

(** [has_len]: [_PyObject_HasLen(iterable)]; [size_of] is [PyObject_Size]. *)
Definition chklist_init (fuel : nat) (iterable : option (extend_arg V E)) (same has_len : bool)
    (size_of : heap V E -> (pyexn + Z) * heap V E) : PM V E unit :=
  l ← get_self;
  _ ← cassert (0 <=? ob_size l);
  _ ← cassert ((ob_size l <=? allocated l) || (allocated l =? -1));
  _ ← cassert (bool_decide (ob_item l ≠ None) || (allocated l =? 0) || (allocated l =? -1));
  _ ← (match ob_item l with None => mret tt | Some _ => list_clear_ end);
  match iterable with
  | None => mret tt
  | Some iterable =>
      _ ← (if has_len then
             r ← mtry (run_index size_of);
             iter_len ← match r with
                        | inr n => mret n
                        | inl e => if bool_decide (exn_ty e = TypeError) then mret (-1) else mthrow e
                        end;
             l ← get_self;
             if (0 <? iter_len) && bool_decide (ob_item l = None)
             then list_preallocate_exact iter_len else mret tt
           else mret tt);
      chklist_extend fuel same iterable
  end.
End chklist.
#[global] Arguments pop_arg : clear implicits.
#[global] Arguments PopNone {V E}.
#[global] Arguments PopInt {V E} to_long.
#[global] Arguments PopOther {V E}.
