(* ===== verification/ListSortSpec.v ===== *)
(** * Correctness of the sort proper: [sort_body]

    While it runs, [list_sort_impl] works on the detached array and never
    writes the list object: whatever property of it the called Python code
    preserves, every routine of the sort preserves. *)

From stdpp Require Import base sets list numbers strings sorting.
From S2P Require Import Prelude Slices PyHeap SortSpec SortMem Gallop Runs Merge MergeLo MergeHi Collapse KeyCompare.
From S2P Require Import ListSort.

Section body.
Context {V E : Type} {api : PyApi V E}.
Variable key_compare : compare_fn V E.
Variables (ordered : Prop) (P : V -> Prop) (lt : V -> V -> bool).
Hypothesis Hcmp : cmp_ok key_compare ordered P lt.
#[local] Instance body_swo : StrictWeakOrder lt := cmp_swo _ _ _ _ Hcmp.

Variables (hv : bool) (C0 : list (V * V)).
Hypothesis HP : Forall (λ c, P c.1) C0.
Hypothesis Hmax : Zlen C0 <= MAX_ITEMS.
Abbreviation stack := (@stack V E ordered lt hv C0).
Abbreviation sort_failed := (@sort_failed V E ordered lt hv C0).

(** The part of the array after the pending runs can be rearranged freely. *)
Lemma stack_state RS rest (s : sortst V E) :
  stack RS rest s ->
  ∃ h CT m, s = st hv h (concat RS ++ rest) CT m ∧
    rearr ordered lt C0 (concat RS ++ rest) ∧
    ∀ h' rest', rearr ordered lt rest rest' ->
      stack RS rest' (st hv h' (concat RS ++ rest') CT m).
Proof.
  intros (h & CT & m & jp & -> & Hal & Hn & Hp & Hpl & Hpos & Hre & Hso).
  exists h, CT, m. split; [done|]. split; [exact Hre|]. intros h' rest' Hrr.
  exists h', CT, m, jp. split_and?; try done.
  etransitivity; [exact Hre|]. apply rearr_app; [reflexivity|exact Hrr].
Qed.
Lemma total_lens (RS : list (list (V * V))) : total (lens RS) = Zlen (concat RS).
Proof.
  induction RS as [|R RS IH] using rev_ind; [done|].
  rewrite lens_snoc, concat_app. simpl. unfold total in *. simpl. rewrite IH. zlia.
Qed.

Lemma wp_push_run RS N rest s lo n Q X :
  stack RS (N ++ rest) s -> lens_inv (lens RS) -> 0 < Zlen N ->
  (ordered -> sorted_cells lt N) -> lo = Slice Main (Zlen (concat RS)) -> n = Zlen N ->
  (∀ s', stack (RS ++ [N]) rest s' -> Q tt s') -> wp (push_run lo n) Q X s.
Proof.
  intros (h & CT & m & jp & -> & Hal & Hn & Hp & Hpl & Hpos & Hre & Hso) Hinv HN HsN -> -> HQ.
  pose proof (rearr_Zlen _ _ _ _ Hre) as Hlen.
  assert (Zlen (lens RS) < MAX_MERGE_PENDING) as Hb.
  { apply pending_bound; [done| |rewrite total_lens; zlia].
    unfold lens. rewrite Forall_reverse, Forall_fmap. exact Hpos. }
  assert (Zlen (lens RS) = Zlen RS) as Hll by (unfold lens; zlia). rewrite Hll in Hb.
  unfold push_run. wp_step. apply wp_get_ms. apply wp_bind, wp_assert; [lia|]. wp_step.
  pose proof (Zlen_entries 0 RS) as Hle.
  destruct jp as [|j jp]; [rewrite Hp in Hpl; zlia|].
  eapply wp_lift; [rewrite Hp; apply aset_app; lia|]. unfold put_ms. wp_step. apply HQ.
  eexists h, CT, _, jp. split_and?.
  - unfold set_ms. cbn. unfold st. f_equal. rewrite concat_app. simpl. by rewrite app_nil_r, <- app_assoc.
  - done.
  - cbn [nrun]. zlia.
  - cbn [pending]. rewrite entries_app, <- app_assoc. simpl. do 3 f_equal.
  - cbn [pending]. rewrite Hp in Hpl. zlia.
  - apply Forall_app. by rewrite Forall_singleton.
  - rewrite concat_app. simpl. by rewrite app_nil_r, <- app_assoc.
  - intros Ho. apply Forall_app. rewrite Forall_singleton. auto.
Qed.

(** A descending run is reversed, which sorts it stably. *)
Lemma run_made_ascending d R1 :
  (ordered -> StronglySorted (run_rel lt d) R1) ->
  let N := if d then reverse R1 else R1 in
  rearr ordered lt R1 N ∧ (ordered -> sorted_cells lt N).
Proof.
  intros Hs. destruct d; simpl.
  - split; [by apply (rearr_reverse ordered lt)|]. intros Ho. apply (sorted_reverse lt), (Hs Ho).
  - split; [reflexivity|exact Hs].
Qed.

Lemma rearranged_failed pre post R0 CT m e (s' : sortst V E) :
  rearr ordered lt C0 (pre ++ R0 ++ post) ->
  failed ordered (rearranged_main ordered lt hv CT m pre post R0) e s' -> sort_failed e s'.
Proof.
  intros Hre [Hno (h' & R & -> & HR)]. split; [by intros ?%Hno|].
  eexists _, _, _, _. split; [done|]. etransitivity; [exact Hre|].
  apply rearr_app; [reflexivity|]. apply rearr_app; [done|reflexivity].
Qed.

Lemma next_run_spec minrun RS rest s lo :
  stack RS rest s -> 0 < Zlen rest -> lo = Slice Main (Zlen (concat RS)) ->
  wp (next_run key_compare minrun lo (Zlen rest))
    (λ n s', ∃ N rest', n = Zlen N ∧ 0 < Zlen N ∧ Zlen N + Zlen rest' = Zlen rest ∧
       stack RS (N ++ rest') s' ∧ (ordered -> sorted_cells lt N)) sort_failed s.
Proof.
  intros Hs Hpos ->. destruct (stack_state _ _ _ Hs) as (h & CT & m & -> & Hre & Hch).
  assert (Forall (λ c, P c.1) rest) as HPr.
  { pose proof (rearr_Forall _ _ _ _ _ Hre HP) as HF.
    rewrite Forall_app in HF. by destruct HF. }
  unfold next_run. wp_step. eapply wp_conseq.
  { eapply (count_run_spec _ ordered P lt Hcmp hv h _ CT m (concat RS) rest []);
      [by rewrite app_nil_r|done|done|done|done]. }
  2:{ cbv beta. intros e s' Hf. by eapply heap_failed. }
  intros [n d] s1 ([h1 ->] & Hn & R1 & R2 & -> & Hlen1 & HsR1). rewrite set_hp_st.
  destruct (run_made_ascending d R1 HsR1) as [HN HsN]. set (N := if d then reverse R1 else R1) in *.
  pose proof (rearr_Zlen _ _ _ _ HN) as HlN. wp_step.
  assert (∀ Q X, Q tt (st hv h1 (concat RS ++ N ++ R2) CT m) ->
    wp (if d then reverse_sortslice (Slice Main (Zlen (concat RS))) n else mret tt)
      Q X (st hv h1 (concat RS ++ R1 ++ R2) CT m)) as Hrev.
  { intros Q X HQ. destruct d; [|by apply wp_ret]. by eapply wp_reverse_sortslice. }
  apply Hrev. clear Hrev.
  assert (rearr ordered lt (R1 ++ R2) (N ++ R2)) as HNR by (apply rearr_app; [done|reflexivity]).
  destruct (n <? minrun) eqn:E1; bool_to_prop.
  2:{ apply wp_ret. exists N, R2. split_and!; [lia|lia|zlia|by apply Hch|done]. }
  set (force := if Zlen (R1 ++ R2) <=? minrun then Zlen (R1 ++ R2) else minrun).
  assert (n <= force <= Zlen (R1 ++ R2)) as Hforce.
  { subst force. destruct (_ <=? _) eqn:E2; bool_to_prop; lia. }
  destruct (Zlen_split (force - n) R2) as (U & post & -> & HU); [zlia|].
  cbv zeta. wp_step. eapply wp_conseq.
  { eapply (binarysort_spec _ ordered P lt Hcmp hv h1 _ CT m (concat RS) N U post);
      [done|cbn [po]; lia|cbn [po]; lia|lia| |done].
    pose proof (rearr_Forall _ _ _ _ _ HNR HPr) as HF.
    rewrite !Forall_app in *. naive_solver. }
  2:{ cbv beta. intros e s' Hf. eapply rearranged_failed; [|exact Hf].
      etransitivity; [exact Hre|]. apply rearr_app; [reflexivity|].
      by rewrite <- app_assoc. }
  cbv beta. intros _ s2 (h2 & N' & -> & HN' & HsN'). apply wp_ret.
  pose proof (rearr_Zlen _ _ _ _ HN') as HlN'.
  exists N', post. split_and!; [zlia|zlia|zlia| |done]. apply Hch.
  etransitivity; [exact HNR|]. rewrite (app_assoc N).
  apply rearr_app; [done|reflexivity].
Qed.

Lemma run_loop_spec fuel minrun RS rest s lo :
  stack RS rest s -> lens_inv (lens RS) -> 0 < Zlen rest -> Zlen rest < Z.of_nat fuel ->
  lo = Slice Main (Zlen (concat RS)) ->
  wp (run_loop key_compare fuel minrun lo (Zlen rest))
    (λ _ s', ∃ RS', stack RS' [] s') sort_failed s.
Proof.
  revert RS rest s lo. induction fuel as [|fuel IH]; intros RS rest s lo Hs Hinv Hpos Hf ->; [lia|].
  cbn [run_loop]. wp_step. eapply wp_conseq; [by eapply next_run_spec| |done].
  cbv beta. intros n s1 (N & rest' & -> & HN & Hlen & Hs1 & HsN). wp_step.
  eapply wp_push_run; [exact Hs1|done|done|done|done|done|]. intros s2 Hs2. wp_step.
  eapply wp_conseq; [by eapply (merge_collapse_spec _ ordered P lt Hcmp)| |done].
  cbv beta. intros _ s3 (RS' & Hs3 & Hinv'). cbv zeta.
  replace (Zlen rest - Zlen N) with (Zlen rest') by lia.
  destruct (Zlen rest' =? 0) eqn:E1; bool_to_prop.
  { apply wp_ret. apply Zlen_0_inv in E1 as ->. by exists RS'. }
  eapply IH; [exact Hs3|done|zlia|zlia|].
  destruct (stack_state _ _ _ Hs2) as (? & ? & ? & _ & Hre2 & _).
  destruct (stack_state _ _ _ Hs3) as (? & ? & ? & _ & Hre3 & _).
  apply rearr_Zlen in Hre2, Hre3. unfold sortslice_advance. cbn [pw po]. f_equal.
  rewrite concat_app in Hre2. simpl in Hre2. zlia.
Qed.
End body.

Section sort_body.
Context {V E : Type} {api : PyApi V E}.
Variable key_compare : compare_fn V E.
Variables (ordered : Prop) (P : V -> Prop) (lt : V -> V -> bool).
Hypothesis Hcmp : cmp_ok key_compare ordered P lt.
#[local] Instance sort_body_swo : StrictWeakOrder lt := cmp_swo _ _ _ _ Hcmp.

Definition maybe_reverse {A} (b : bool) (l : list A) : list A := if b then reverse l else l.
Lemma maybe_reverse_perm {A} b (l : list A) : maybe_reverse b l ≡ₚ l.
Proof. destruct b; [apply reverse_Permutation|done]. Qed.
Lemma Zlen_maybe_reverse {A} b (l : list A) : Zlen (maybe_reverse b l) = Zlen l.
Proof. apply Zlen_perm, maybe_reverse_perm. Qed.
Lemma maybe_reverse_short {A} b (l : list A) : Zlen l < 2 -> maybe_reverse b l = l.
Proof. destruct l as [|x [|y l]]; [by destruct b..|zlia]. Qed.

(** The single run left at the end is the whole array. *)
Lemma one_run_left (hv : bool) (C : list (V * V)) RS (s : sortst V E) :
  stack ordered lt hv C RS [] s -> Zlen RS <= 1 -> 0 < Zlen C ->
  ∃ h CT m D jp, s = st hv h D CT m ∧ nrun m = 1 ∧
    pending m = Run (Slice Main 0) (Zlen C) :: jp ∧
    rearr ordered lt C D ∧ (ordered -> sorted_cells lt D).
Proof.
  intros (h & CT & m & jp & -> & Hal & Hn & Hp & Hpl & Hpos & Hre & Hso) H1 HC.
  pose proof (rearr_Zlen _ _ _ _ Hre) as Hlen. rewrite app_nil_r in *.
  destruct RS as [|R [|]]; [simpl in Hlen; zlia| |zlia].
  simpl in *. rewrite app_nil_r in *. exists h, CT, m, R, jp. split_and?; [done|done| |exact Hre|].
  - rewrite Hp. by rewrite <- Hlen.
  - intros Ho. by apply Forall_singleton, Hso.
Qed.

Lemma sort_body_spec hv (h : heap V E) C CT m reverse :
  alloced m = Zlen CT -> nrun m = 0 -> Zlen (pending m) = MAX_MERGE_PENDING ->
  Zlen C <= MAX_ITEMS -> Forall (λ c, P c.1) C ->
  let C1 := maybe_reverse reverse C in
  wp (sort_body key_compare reverse (Zlen C))
    (λ _ s', ∃ h' CT' m' D, s' = st hv h' D CT' m' ∧ rearr ordered lt C1 D ∧
       (ordered -> sorted_cells lt D))
    (sort_failed ordered lt hv C1) (st hv h C CT m).
Proof.
  intros Hal Hn Hpl Hmax HP C1. unfold sort_body.
  destruct (Zlen C <? 2) eqn:E1; bool_to_prop.
  { apply wp_ret. subst C1. rewrite maybe_reverse_short by done.
    exists h, CT, m, C. split_and?; [done|apply (rearr_equiv ordered lt)|]. intros _.
    destruct C as [|c [|d C]]; [constructor|apply sorted_singleton; apply _|zlia]. }
  cbv zeta. wp_step.
  assert (∀ Q X, Q tt (st hv h C1 CT m) ->
    wp (if reverse then reverse_sortslice (Slice Main 0) (Zlen C) else mret tt) Q X
       (st hv h C CT m)) as Hrev.
  { intros Q X HQ. subst C1. destruct reverse; [|by apply wp_ret].
    eapply (wp_reverse_sortslice _ _ _ _ _ _ [] C []); [by rewrite app_nil_r|done|done|].
    by rewrite app_nil_r. }
  apply Hrev. clear Hrev. wp_step.
  assert (Zlen C1 = Zlen C) as HlC by apply Zlen_maybe_reverse.
  assert (Forall (λ c, P c.1) C1) as HP1 by (subst C1; by rewrite maybe_reverse_perm).
  rewrite <- HlC in Hmax.
  assert (stack ordered lt hv C1 [] C1 (st hv h C1 CT m)) as Hs.
  { exists h, CT, m, (pending m). split_and?; try done. }
  eapply wp_conseq; [rewrite <- HlC; eapply (run_loop_spec _ ordered P lt Hcmp hv C1);
    [exact HP1|done|exact Hs|done|lia|lia|done]| |done].
  cbv beta. intros _ s1 [RS1 Hs1]. wp_step.
  eapply wp_conseq; [eapply (merge_force_collapse_spec _ ordered P lt Hcmp hv C1);
    [exact HP1|done|exact Hs1]| |done].
  cbv beta. intros _ s2 (RS2 & Hs2 & Hone).
  destruct (one_run_left _ _ _ _ Hs2 Hone) as (h2 & CT2 & m2 & D & jp & -> & Hn2 & Hp2 & HD & HsD);
    [lia|].
  wp_step. apply wp_get_ms. apply wp_bind, wp_assert; [lia|]. wp_step.
  eapply wp_lift; [by rewrite Hp2|]. apply wp_bind, wp_assert; [by apply bool_decide_eq_true|].
  apply wp_assert; [cbn [len]; lia|]. by exists h2, CT2, m2, D.
Qed.
End sort_body.

Section keeps.
Context {V E : Type} {api : PyApi V E}.
Variable I : listobj V -> Prop.

Definition keeps {A} (m : SM V E A) : Prop := ∀ s, I (self (hp s)) ->
  match m s with Ret _ s' | Exn _ s' => I (self (hp s')) | _ => True end.
Definition compare_keeps (kc : compare_fn V E) : Prop :=
  ∀ x y h, I (self h) ->
    match kc x y h with Ret _ h' | Exn _ h' => I (self h') | _ => True end.

Lemma keeps_ret {A} (a : A) : keeps (mret a).
Proof. by intros s H. Qed.
Lemma keeps_bind {A B} (m : SM V E A) (k : A -> SM V E B) :
  keeps m -> (∀ a, keeps (k a)) -> keeps (m ≫= k).
Proof.
  intros Hm Hk s Hs. specialize (Hm s Hs). unfold mbind, M_bind.
  destruct (m s) as [a s'| | |]; try done. by apply Hk.
Qed.
Lemma keeps_get {A} (k : sortst V E -> SM V E A) : (∀ s, keeps (k s)) -> keeps (mget ≫= k).
Proof. intros Hk s Hs. by apply Hk. Qed.
(** A step that reads the state and writes it back with the same heap. *)
Lemma keeps_put {A} (f : sortst V E -> option A) (g : sortst V E -> A -> sortst V E) :
  (∀ s a, hp (g s a) = hp s) -> keeps (s ← mget; a ← mlift (f s); mput (g s a)).
Proof.
  intros Hg s Hs. unfold mbind, M_bind, mget, mlift, mput.
  destruct (f s); simpl; [by rewrite Hg|done].
Qed.
Lemma keeps_put_bind {A B} (f : sortst V E -> option A) (g : sortst V E -> A -> sortst V E)
    (k : SM V E B) :
  (∀ s a, hp (g s a) = hp s) -> keeps k ->
  keeps (s ← mget; a ← mlift (f s); _ ← mput (g s a); k).
Proof.
  intros Hg Hk s Hs. unfold mbind, M_bind, mget, mlift, mput.
  destruct (f s); simpl; [|done]. apply Hk. by rewrite Hg.
Qed.
Lemma keeps_lift {A} (o : option A) : keeps (mlift o).
Proof. intros s Hs. by destruct o. Qed.
Lemma keeps_assert b : keeps (cassert b).
Proof. intros s Hs. by destruct b. Qed.
Lemma keeps_throw {A} e : keeps (mthrow e : SM V E A).
Proof. by intros s Hs. Qed.
Lemma keeps_raise {A} ty msg : keeps (mraise ty msg : SM V E A).
Proof. by intros s Hs. Qed.
Lemma keeps_stuck {A} : keeps (mstuck : SM V E A).
Proof. by intros s Hs. Qed.
Lemma keeps_nofuel {A} : keeps (mnofuel : SM V E A).
Proof. by intros s Hs. Qed.
Lemma keeps_try {A} (m : SM V E A) : keeps m -> keeps (mtry m).
Proof. intros Hm s Hs. specialize (Hm s Hs). unfold mtry. by destruct (m s). Qed.
Lemma keeps_get_ms : keeps get_ms.
Proof. by intros s Hs. Qed.
Lemma keeps_put_ms m : keeps (put_ms m).
Proof. by intros s Hs. Qed.
Lemma hp_setarr w (a : sarr V) (s : sortst V E) : hp (setarr w a s) = hp s.
Proof. by destruct w. Qed.
End keeps.

Create HintDb keeps.
#[export] Hint Resolve keeps_ret keeps_lift keeps_assert keeps_throw keeps_raise keeps_stuck
  keeps_nofuel keeps_get_ms keeps_put_ms : keeps.

(** Follow the structure of a routine. *)
Ltac keeps_step :=
  match goal with
  | |- keeps _ (mget ≫= _) => apply keeps_get; intros ?
  | |- keeps _ (_ ≫= _) => apply keeps_bind; [|intros ?]
  | |- keeps _ (mtry _) => apply keeps_try
  | |- keeps _ (let '_ := ?x in _) => destruct x
  | |- keeps _ (match ?x with _ => _ end) => destruct x
  | |- _ => solve [auto with keeps]
  end.
Ltac keeps_auto := repeat (keeps_step; cbv beta zeta).

Section routines.
Context {V E : Type} {api : PyApi V E}.
Variable I : listobj V -> Prop.
Abbreviation keeps := (@keeps V E I).

Lemma keeps_set_min_gallop g : keeps (set_min_gallop g).
Proof. unfold set_min_gallop. keeps_auto. Qed.
Lemma keeps_copy s1 i s2 j : keeps (sortslice_copy s1 i s2 j).
Proof. apply keeps_put. intros. apply hp_setarr. Qed.
Lemma keeps_memmove s1 i s2 j n : keeps (sortslice_memmove s1 i s2 j n).
Proof. apply keeps_put. intros. apply hp_setarr. Qed.
Lemma keeps_reverse s n : keeps (reverse_sortslice s n).
Proof. apply keeps_put. intros. apply hp_setarr. Qed.
Lemma keeps_key_at s i : keeps (key_at s i).
Proof. unfold key_at. keeps_auto. Qed.
Lemma keeps_freemem : keeps merge_freemem.
Proof.
  intros s Hs. unfold merge_freemem, mget, mbind, M_bind. by destruct (on_stack (ms s)).
Qed.
Lemma keeps_getmem need : keeps (merge_getmem need).
Proof.
  unfold merge_getmem. apply keeps_bind; [auto with keeps|intros m].
  destruct (need <=? alloced m); [auto with keeps|]. apply keeps_get. intros s.
  cbv zeta. apply keeps_bind; [apply keeps_freemem|intros _].
  case_match; [auto with keeps|]. intros s' Hs'. unfold mget, mbind, M_bind. simpl.
  destruct (py_malloc _ _) as [ok e]. destruct ok; exact Hs'.
Qed.
End routines.
#[export] Hint Resolve keeps_set_min_gallop keeps_copy keeps_memmove keeps_reverse keeps_key_at
  keeps_freemem keeps_getmem : keeps.

Section with_compare.
Context {V E : Type} {api : PyApi V E}.
Variable I : listobj V -> Prop.
Variable kc : compare_fn V E.
Hypothesis Hkc : compare_keeps I kc.
Abbreviation keeps := (@keeps V E I).

Lemma keeps_ISLT x y : keeps (ISLT kc x y).
Proof.
  intros s Hs. unfold ISLT, in_heap. specialize (Hkc x y (hp s) Hs). by destruct (kc x y (hp s)).
Qed.
#[local] Hint Resolve keeps_ISLT : keeps.

Lemma keeps_gallop_loop fuel test m l o :
  (∀ i, keeps (test i)) -> keeps (gallop_loop fuel test m l o).
Proof.
  intros Ht. revert l o. induction fuel as [|fuel IH]; intros l o; cbn [gallop_loop]; keeps_auto.
Qed.
Lemma keeps_gallop_bsearch fuel test l o :
  (∀ i, keeps (test i)) -> keeps (gallop_bsearch fuel test l o).
Proof.
  intros Ht. revert l o. induction fuel as [|fuel IH]; intros l o; cbn [gallop_bsearch]; keeps_auto.
Qed.
#[local] Hint Resolve keeps_gallop_loop keeps_gallop_bsearch : keeps.
Ltac keeps_search :=
  repeat (first [apply keeps_gallop_loop; intros ? | apply keeps_gallop_bsearch; intros ?
                | keeps_step]; cbv beta zeta).
Lemma keeps_gallop_left key a n hint : keeps (gallop_left kc key a n hint).
Proof. unfold gallop_left. keeps_search. Qed.
Lemma keeps_gallop_right key a n hint : keeps (gallop_right kc key a n hint).
Proof. unfold gallop_right. keeps_search. Qed.
#[local] Hint Resolve keeps_gallop_left keeps_gallop_right : keeps.

Lemma keeps_count_run lo hi : keeps (count_run kc lo hi).
Proof.
  assert (∀ fuel d k l h n, keeps (count_run_loop kc fuel d k l h n)).
  { induction fuel; intros; cbn [count_run_loop]; keeps_auto. }
  unfold count_run. keeps_auto.
Qed.
Lemma keeps_binarysort lo hi start : keeps (binarysort kc lo hi start).
Proof.
  assert (∀ fuel p k l r, keeps (binarysort_search kc fuel p k l r)).
  { induction fuel; intros; cbn [binarysort_search]; keeps_auto. }
  assert (∀ fuel lo hi start, keeps (binarysort_loop kc fuel lo hi start)).
  { induction fuel; intros; cbn [binarysort_loop]; [auto with keeps|]. case_match; [|auto with keeps].
    cbv zeta. do 2 (apply keeps_bind; [auto with keeps|intros ?]).
    apply keeps_bind; [auto with keeps|intros [l r]].
    apply keeps_bind; [auto with keeps|intros ?].
    apply keeps_put_bind; [intros; apply hp_setarr|auto]. }
  unfold binarysort. keeps_auto.
Qed.
#[local] Hint Resolve keeps_count_run keeps_binarysort : keeps.

Ltac keeps_all := unfold sortslice_copy_incr, sortslice_copy_decr, sortslice_memcpy,
  MERGE_GETMEM in *; keeps_auto.
Lemma keeps_merge_lo ssa na ssb nb : keeps (merge_lo kc ssa na ssb nb).
Proof.
  assert (∀ fuel g l a b, keeps (lo_straight kc fuel g l a b)).
  { induction fuel; intros; cbn [lo_straight]; keeps_all. }
  assert (∀ l, keeps (lo_gallop_a kc l)) by (intros; unfold lo_gallop_a, lo_block_a; keeps_all).
  assert (∀ l, keeps (lo_gallop_b kc l)) by (intros; unfold lo_gallop_b, lo_block_b; keeps_all).
  assert (∀ fuel g l, keeps (lo_gallop kc fuel g l)).
  { induction fuel; intros; cbn [lo_gallop]; keeps_all. }
  assert (∀ fuel g l, keeps (lo_main kc fuel g l)).
  { induction fuel; intros; cbn [lo_main]; keeps_all. }
  assert (∀ ex l, keeps (lo_finish ex l)) by (intros; unfold lo_finish; keeps_all).
  unfold merge_lo. keeps_all.
Qed.
Lemma keeps_merge_hi ssa na ssb nb : keeps (merge_hi kc ssa na ssb nb).
Proof.
  assert (∀ fuel g l a b, keeps (hi_straight kc fuel g l a b)).
  { induction fuel; intros; cbn [hi_straight]; keeps_all. }
  assert (∀ s l, keeps (hi_gallop_a kc s l)) by (intros; unfold hi_gallop_a, hi_block_a; keeps_all).
  assert (∀ s l, keeps (hi_gallop_b kc s l)) by (intros; unfold hi_gallop_b, hi_block_b; keeps_all).
  assert (∀ fuel a b g l, keeps (hi_gallop kc fuel a b g l)).
  { induction fuel; intros; cbn [hi_gallop]; keeps_all. }
  assert (∀ fuel a b g l, keeps (hi_main kc fuel a b g l)).
  { induction fuel; intros; cbn [hi_main]; keeps_all. }
  assert (∀ b ex l, keeps (hi_finish b ex l)) by (intros; unfold hi_finish; keeps_all).
  unfold merge_hi. keeps_all.
Qed.
#[local] Hint Resolve keeps_merge_lo keeps_merge_hi : keeps.

Lemma keeps_merge_at i : keeps (merge_at kc i).
Proof. unfold merge_at, merge_pending. keeps_auto. Qed.
#[local] Hint Resolve keeps_merge_at : keeps.
Lemma keeps_merge_collapse : keeps (merge_collapse kc).
Proof.
  assert (∀ fuel, keeps (merge_collapse_loop kc fuel)).
  { induction fuel; cbn [merge_collapse_loop]; unfold ms_n, no_sum, pend_len; keeps_auto. }
  unfold merge_collapse, ms_n. keeps_auto.
Qed.
Lemma keeps_merge_force_collapse : keeps (merge_force_collapse kc).
Proof.
  assert (∀ fuel, keeps (merge_force_collapse_loop kc fuel)).
  { induction fuel; cbn [merge_force_collapse_loop]; unfold ms_n, pend_len; keeps_auto. }
  unfold merge_force_collapse, ms_n. keeps_auto.
Qed.
#[local] Hint Resolve keeps_merge_collapse keeps_merge_force_collapse : keeps.

Lemma keeps_sort_body reverse n : keeps (sort_body kc reverse n).
Proof.
  assert (∀ fuel m lo r, keeps (run_loop kc fuel m lo r)).
  { induction fuel; intros; cbn [run_loop]; unfold next_run, push_run; keeps_auto. }
  unfold sort_body. keeps_auto.
Qed.
End with_compare.
