(* ===== verification/ListSortTop.v ===== *)
(** * [list_sort_impl] from the outside

    Whatever the comparisons, the key function and the allocator do, the list
    is put back with its size and block and holds a permutation of its items;
    when the comparison is an order, the items come out sorted and stable. *)

From stdpp Require Import base sets list numbers strings sorting.
From S2P Require Import Prelude Slices PyHeap ListCore ListView SortSpec SortMem Gallop Runs Merge MergeLo Collapse.
From S2P Require Import KeyCompare ListSort ListSortSpec.

(** Python code called by the sort preserves a property of the list object. *)
Record calls_keep {V E} `{PyApi V E} `{KeyApi V E} (I : listobj V -> Prop) : Prop := {
  keep_rich : ∀ op v w h, I (self h) -> I (self (py_rich op v w h).2);
  keep_call : ∀ f v h, I (self h) -> I (self (py_call f v h).2);
  keep_slot : ∀ s op v w h, I (self h) -> I (self (call_slot s op v w h).2);
  keep_true : ∀ v h, I (self h) -> I (self (py_is_true v h).2);
  keep_finalise : ∀ v h, I (self h) -> I (self (py_finalise v h))
}.

Section top.
Context {V E : Type} {api : PyApi V E} {kapi : KeyApi V E}.

(** A routine on the list keeps the property, wherever it ends. *)
Definition leaves {A} (I : listobj V -> Prop) (m : PM V E A) : Prop := ∀ h, I (self h) ->
  match m h with Ret _ h' | Exn _ h' => I (self h') | _ => True end.
Lemma leaves_bind {A B} I (m : PM V E A) (k : A -> PM V E B) :
  leaves I m -> (∀ a, leaves I (k a)) -> leaves I (m ≫= k).
Proof.
  intros Hm Hk h Hh. specialize (Hm h Hh). unfold mbind, M_bind.
  destruct (m h) as [a h'| | |]; try done. by apply Hk.
Qed.
Lemma leaves_try {A} I (m : PM V E A) : leaves I m -> leaves I (mtry m).
Proof. intros Hm h Hh. specialize (Hm h Hh). unfold mtry. by destruct (m h). Qed.
Lemma leaves_ret {A} I (a : A) : leaves I (mret a).
Proof. by intros h Hh. Qed.
Lemma leaves_throw {A} I e : leaves I (mthrow e : PM V E A).
Proof. by intros h Hh. Qed.
Lemma leaves_lift {A} I (o : option A) : leaves I (mlift o).
Proof. intros h Hh. by destruct o. Qed.
Lemma leaves_assert I b : leaves I (cassert b).
Proof. intros h Hh. by destruct b. Qed.

Section keeps.
Variable I : listobj V -> Prop.
Hypothesis Hk : calls_keep I.

Lemma leaves_rich v w op : leaves I (PyObject_RichCompareBool v w op).
Proof.
  intros h Hh. pose proof (keep_rich _ Hk op v w h Hh) as Hr. unfold PyObject_RichCompareBool.
  by destruct (py_rich op v w h) as [[]].
Qed.
Lemma leaves_DECREF_run v : leaves I (Py_DECREF_run v).
Proof. intros h Hh. simpl. by apply (keep_finalise _ Hk). Qed.
Lemma leaves_assert_types t v w : leaves I (assert_types t v w).
Proof. apply (leaves_bind I); [by intros h Hh|]. intros h. apply leaves_bind; [|intros _]; apply leaves_assert. Qed.
Lemma leaves_elem_cmp c v w : leaves I (run_elem_cmp c v w).
Proof.
  destruct c as [|slot| | |]; simpl; [apply leaves_rich| |
    apply leaves_bind; [apply leaves_assert_types|intros _]..].
  - apply (leaves_bind I); [by intros h Hh|]. intros h. case_bool_decide; [|apply leaves_rich].
    apply leaves_bind; [|intros [| |o]].
    + intros h' Hh. pose proof (keep_slot _ Hk slot Py_LT v w h' Hh) as Hs. unfold slot_lt.
      by destruct (call_slot slot Py_LT v w h') as [[]].
    + apply leaves_rich.
    + apply leaves_throw.
    + apply leaves_bind; [apply leaves_try|intros res; apply leaves_bind; [apply leaves_DECREF_run|intros _]].
      * destruct (py_bool o); [apply leaves_ret|]. intros h' Hh.
        pose proof (keep_true _ Hk o h' Hh) as Ht. unfold PyObject_IsTrue. by destruct (py_is_true o h') as [[]].
      * destruct res; [apply leaves_throw|apply leaves_ret].
  - apply leaves_bind; [apply leaves_lift|intros a; apply leaves_bind; [apply leaves_lift|intros b]].
    apply leaves_ret.
  - apply leaves_bind; [apply leaves_lift|intros a; apply leaves_bind; [apply leaves_lift|intros b]].
    apply leaves_ret.
  - apply leaves_ret.
Qed.
Lemma leaves_tuple_from c i vs ws : leaves I (tuple_compare_from c i vs ws).
Proof.
  revert i ws. induction vs as [|v vs IH]; intros i [|w ws]; simpl; try apply leaves_ret.
  apply leaves_bind; [apply leaves_rich|intros []]; [apply IH|].
  case_match; [apply leaves_elem_cmp|apply leaves_rich].
Qed.
Lemma run_key_cmp_keeps c : compare_keeps I (run_key_cmp c).
Proof.
  intros x y. change (leaves I (run_key_cmp c x y)). destruct c as [c|c]; simpl; [apply leaves_elem_cmp|].
  apply leaves_bind; [apply leaves_assert_types|intros _].
  apply leaves_bind; [apply leaves_assert|intros _]. apply leaves_bind; [apply leaves_assert|intros _].
  apply leaves_tuple_from.
Qed.
End keeps.

(** ** Releasing references *)

(** The state after references are released in order and their code has run. *)
Fixpoint run_releases (l : list V) (h : heap V E) : heap V E :=
  match l with
  | [] => h
  | v :: l => run_releases l (py_finalise v (add_event (Decref v (self h)) h))
  end.
Lemma wp_release_all nf (l : list V) (h : heap V E) Q X :
  Q tt (run_releases l h) -> wpo nf (release_all l) Q X h.
Proof.
  revert h. induction l as [|v l IH]; intros h HQ; simpl; [by apply wp_ret|].
  unfold Py_DECREF_run, Py_DECREF. wp_steps. by apply IH.
Qed.
Lemma wp_release_down nf n (a b : list V) (h : heap V E) Q X :
  n = length a -> Q tt (run_releases (reverse a) h) -> wpo nf (release_down n (a ++ b)) Q X h.
Proof.
  intros ->. revert b h. induction a as [|v a IH] using rev_ind; intros b h HQ; [by apply wp_ret|].
  rewrite length_app, Nat.add_comm. cbn [length Nat.add release_down]. wp_step.
  rewrite <- app_assoc. eapply wp_lift; [by apply aget_app|].
  unfold Py_DECREF_run, Py_DECREF. wp_steps. apply (IH (v :: b)). by rewrite reverse_snoc in HQ.
Qed.
Lemma run_releases_keep I l (h : heap V E) :
  (∀ v h, I (self h) -> I (self (py_finalise v h))) -> I (self h) -> I (self (run_releases l h)).
Proof. intros Hf. revert h. induction l as [|v l IH]; intros h Hh; simpl; [done|]. by apply IH, Hf. Qed.
(** ** Computing the keys *)
Lemma wp_CallOneArg nf f v (h : heap V E) Q X :
  (∀ r h', py_call f v h = (Some r, h') -> Q r (add_event (Incref r) h')) ->
  (∀ h', py_call f v h = (None, h') -> X (PyErr Foreign no_msg) h') ->
  wpo nf (PyObject_CallOneArg f v) Q X h.
Proof. intros HQ HX. unfold wpo, PyObject_CallOneArg. destruct (py_call f v h) as [[]]; auto. Qed.
Lemma wp_compute_keys I f vals computed (ordered : Prop) kf (h : heap V E)
    (Q : list V -> heap V E -> Prop) (X : pyexn -> heap V E -> Prop) :
  calls_keep I -> I (self h) ->
  (ordered -> ∀ v h, v ∈ vals -> ∃ h', py_call f v h = (Some (kf v), h')) ->
  (∀ ks h', I (self h') -> Zlen ks = Zlen vals ->
     (ordered -> ks = kf <$> vals) -> Q (reverse computed ++ ks) h') ->
  (∀ e h', ¬ ordered -> I (self h') -> X e h') ->
  wp (compute_keys f vals computed) Q X h.
Proof.
  intros Hk. revert computed h Q. induction vals as [|v vals IH]; intros computed h Q Hh Hf HQ HX; simpl.
  { apply wp_ret. rewrite <- (app_nil_r (reverse computed)). by apply HQ. }
  wp_step. apply wp_try. pose proof (keep_call _ Hk f v h Hh) as Hc.
  apply wp_CallOneArg.
  - intros k h' Ec. rewrite Ec in Hc. simpl in Hc.
    apply IH; [done|intros Ho w h'' Hw; apply Hf; [done|set_solver]| |done].
    intros ks h'' Hh'' Hlen Hks. rewrite reverse_cons, <- app_assoc.
    apply HQ; [done|zlia|]. intros Ho. rewrite (Hks Ho). simpl. f_equal.
    destruct (Hf Ho v h) as [h3 H3]; [set_solver|]. congruence.
  - intros h' Ec. rewrite Ec in Hc. wp_step. apply wp_release_all.
    apply wp_throw, HX; [|by apply run_releases_keep; [apply Hk|]].
    intros Ho. destruct (Hf Ho v h) as [h3 H3]; [set_solver|]. congruence.
Qed.

(** The key of an item: the key function's answer, or the item. *)
Definition keys_list (keys : option (list V)) (vals : list V) : list V := default vals keys.
Lemma wp_sort_keys I keyfunc vals (ordered : Prop) kf (h : heap V E)
    (Q : option (list V) -> heap V E -> Prop) (X : pyexn -> heap V E -> Prop) :
  calls_keep I -> I (self h) ->
  (ordered -> match keyfunc with
              | Some f => ∀ v h, v ∈ vals -> ∃ h', py_call f v h = (Some (kf v), h')
              | None => ∀ v, v ∈ vals -> kf v = v
              end) ->
  (∀ keys h', I (self h') -> Zlen (keys_list keys vals) = Zlen vals ->
     (keys = None <-> keyfunc = None) ->
     (ordered -> keys_list keys vals = kf <$> vals) -> Q keys h') ->
  (∀ e h', (ordered -> e = PyErr MemoryError no_msg) -> I (self h') -> X e h') ->
  wp (sort_keys keyfunc vals) Q X h.
Proof.
  intros Hk Hh Hf HQ HX. unfold sort_keys. destruct keyfunc as [f|].
  - wp_step. assert (∀ h', I (self h') -> wp (keys ← compute_keys f vals []; mret (Some keys)) Q X h')
      as Hgo.
    { intros h' Hh'. wp_step. eapply (wp_compute_keys I _ _ _ ordered kf); [done|done|done|..].
      - intros ks h2 Hh2 Hlen Hks. apply wp_ret. by apply HQ.
      - intros e h2 Hno. apply HX. by intros ?%Hno. }
    case_match; [by apply wp_ret, Hgo|]. wp_step. unfold wpo at 1, PyMem_alloc.
    destruct (py_malloc _ _) as [[] e]; [by apply Hgo|]. by apply HX.
  - apply wp_ret, HQ; [done|done|done|]. intros Ho. simpl.
    rewrite <- (list_fmap_id vals) at 1. apply list_fmap_ext. intros i v Hv. symmetry.
    eapply Hf; [done|by eapply list_elem_of_lookup_2].
Qed.

(** ** The label [fail] *)
Lemma values_of_reverse (a : sarr V) l : values_of (set_values a l) = l.
Proof. unfold values_of, set_values. by destruct (vs a). Qed.

Lemma wp_sort_end I reverse n result (s : sortst V E) Q X :
  calls_keep I -> I (self (hp s)) -> n = Zlen (values_of (main s)) ->
  (∀ result' s', I (self (hp s')) ->
     values_of (main s') = maybe_reverse reverse (values_of (main s)) ->
     (result' = result ∨
      result = inr tt ∧ (∃ l, I l ∧ allocated l ≠ -1) ∧
        result' = inl (PyErr ValueError "list modified during sort")) ->
     Q result' s') ->
  wp (sort_end reverse n result) Q X s.
Proof.
  intros Hk HI Hn HQ. unfold sort_end. wp_step. apply wp_get. wp_step. apply wp_in_heap.
  assert (∀ Q' : unit -> heap V E -> Prop, (∀ h, I (self h) -> Q' tt h) ->
    wp (match vs (main s) with Some _ => release_all (ks (main s)) | None => mret tt end)
      Q' (λ e h, X e (set_hp h s)) (hp s)) as Hdec.
  { intros Q' HQ'. case_match; [|by apply wp_ret, HQ'].
    apply wp_release_all, HQ', run_releases_keep; [apply Hk|done]. }
  apply Hdec. clear Hdec. intros h HI1. wp_step. apply wp_in_heap. unfold get_self, wpo at 1.
  cbn [set_hp hp self]. cbv zeta. wp_step.
  set (s1 := set_hp _ _).
  assert (∀ Q' : unit -> sortst V E -> Prop,
    (∀ s', hp s' = hp s1 -> values_of (main s') = maybe_reverse reverse (values_of (main s)) ->
           Q' tt s') ->
    wp (if reverse && (1 <? n) then
          s ← mget; v ← mlift (reverse_slice (values_of (main s)) 0 n);
          mput (setarr Main (set_values (main s) v) s)
        else mret tt) Q' X s1) as Hrev.
  { intros Q' HQ'. destruct (reverse && (1 <? n)) eqn:E1.
    - apply andb_prop in E1 as [-> E1]. wp_step. apply wp_get. wp_step.
      eapply wp_lift.
      { change (main s1) with (main s). rewrite <- (app_nil_r (values_of (main s))).
        apply (reverse_slice_spec []); [done|zlia]. }
      apply wp_put, HQ'; [done|]. simpl. rewrite values_of_reverse. by rewrite app_nil_r.
    - apply wp_ret, HQ'; [done|]. change (main s1) with (main s).
      apply andb_false_iff in E1 as [-> | E1]; [done|]. bool_to_prop.
      rewrite maybe_reverse_short; [done|lia]. }
  apply Hrev. intros s2 Hs2 Hv2. wp_step.
  assert (∀ Q' : unit -> sortst V E -> Prop,
    (∀ s', hp s' = hp s2 -> main s' = main s2 -> Q' tt s') -> wp merge_freemem Q' X s2) as Hfree.
  { intros Q' HQ'. unfold merge_freemem. wp_step. apply wp_get.
    destruct (on_stack (ms s2)); by apply HQ'. }
  apply Hfree. intros s3 Hs3 Hm3. apply wp_ret, HQ.
  - by rewrite Hs3, Hs2.
  - by rewrite Hm3.
  - destruct result as [e|[]]; [by left|]. cbn [hp].
    destruct (allocated (self h) =? -1) eqn:E1; bool_to_prop; [by left|]. right. eauto.
Qed.

(** ** The middle part, and putting the list back *)
(** [D] is the stable sort of [C], ascending or descending. *)
Definition sorted_stably (lt : V -> V -> bool) (reverse : bool) (C D : list (V * V)) : Prop :=
  stable lt C D ∧ StronglySorted (if reverse then flip (cle lt) else cle lt) D.
Lemma filter_reverse_eq (Q : V * V -> Prop) `{∀ c, Decision (Q c)} l :
  filter Q (reverse l) = reverse (filter Q l).
Proof.
  induction l as [|c l IH]; [done|]. rewrite reverse_cons, filter_app, IH, !filter_cons, filter_nil.
  case_decide; [by rewrite reverse_cons|by rewrite app_nil_r].
Qed.
Lemma ssorted_reverse (R : V * V -> V * V -> Prop) l :
  StronglySorted R l -> StronglySorted (flip R) (reverse l).
Proof.
  induction 1 as [|c l Hs IH Hc]; [constructor|]. rewrite reverse_cons.
  assert (Forall (λ d, flip R d c) (reverse l)) as Hr by (by rewrite Forall_reverse).
  clear Hs Hc. induction IH as [|d k Hs IH2 Hd]; simpl; [repeat constructor|].
  apply Forall_cons in Hr as [Hr1 Hr2]. constructor; [auto|].
  apply Forall_app. by rewrite Forall_singleton.
Qed.
Lemma sorted_stably_intro lt reverse C S :
  stable lt (maybe_reverse reverse C) S -> sorted_cells lt S ->
  sorted_stably lt reverse C (maybe_reverse reverse S).
Proof.
  intros H1 H2. destruct reverse; simpl in *; [|done]. split; [|by apply ssorted_reverse].
  intros k. rewrite filter_reverse_eq, (H1 k), filter_reverse_eq. apply reverse_involutive.
Qed.

Lemma merge_init_state (hv : bool) n :
  0 <= n ->
  ∃ CT m, merge_init n hv = (m, arr_of hv CT) ∧ alloced m = Zlen CT ∧ nrun m = 0 ∧
    Zlen (pending m) = MAX_MERGE_PENDING ∧
    regions_ok (merge_init_regions (alloced m) hv ++ (if hv then keys_region n else [])) = true.
Proof.
  intros Hn. unfold merge_init. set (al := if hv then _ else _).
  assert (0 <= al ∧ (hv = false -> al = 256) ∧ (hv = true -> al <= 128 ∧ 2 * al <= n + 1)) as (Hal & Hal1 & Hal2).
  { subst al. destruct hv; [|done]. change (MERGESTATE_TEMP_SIZE `div` 2) with 128.
    split_and!; [case_match; divlia|done|]. intros _. case_match; bool_to_prop; divlia. }
  exists (replicate (Z.to_nat al) (junk, junk)), (MkMS MIN_GALLOP true al 0
    (replicate (Z.to_nat MAX_MERGE_PENDING) (Run (Slice Main 0) 0))).
  split_and!; [by rewrite <- arr_of_replicate|cbn [alloced]; zlia|done|done|]. cbn [alloced].
  destruct hv; [destruct (Hal2 eq_refl)|by rewrite (Hal1 eq_refl)]. unfold keys_region, merge_init_regions.
  change KEYS_ON_STACK with 128. unfold regions_ok, region_fits, apart, MERGESTATE_TEMP_SIZE.
  destruct (n <? 128) eqn:E1; bool_to_prop; simpl; lia.
Qed.

(** Keys and values as cells. *)
Definition cells (keys : option (list V)) (vals : list V) : list (V * V) :=
  zip (keys_list keys vals) vals.
Lemma cells_arr keys vals :
  Zlen (keys_list keys vals) = Zlen vals ->
  match keys with Some ks => SArr ks (Some vals) | None => SArr vals None end =
    arr_of (bool_decide (keys ≠ None)) (cells keys vals) ∧
  fst <$> cells keys vals = keys_list keys vals ∧ snd <$> cells keys vals = vals.
Proof.
  unfold Zlen. intros Hlen.
  assert (fst <$> cells keys vals = keys_list keys vals) as H1
    by (unfold cells; rewrite fst_zip by lia; done).
  assert (snd <$> cells keys vals = vals) as H2 by (unfold cells; rewrite snd_zip by lia; done).
  split; [|done]. unfold arr_of. rewrite H1, H2. by destruct keys.
Qed.
(** Without a key function the keys array is the values array. *)
Lemma values_of_cells keys vals D :
  Zlen (keys_list keys vals) = Zlen vals -> cells keys vals ≡ₚ D ->
  values_of (arr_of (bool_decide (keys ≠ None)) D) = snd <$> D.
Proof.
  intros Hlen HD. destruct keys as [ks|]; [done|]. unfold values_of. simpl.
  assert (Forall (λ c : V * V, c.1 = c.2) D) as HF.
  { rewrite <- HD. unfold cells. simpl. clear. induction vals; simpl; by constructor. }
  apply list_fmap_ext. intros i c Hc. rewrite Forall_lookup in HF. by eapply HF.
Qed.

Lemma wp_sort_saved I (ordered : Prop) (P : V -> Prop) lt Pe lte eqe keys vals reverse
    (h : heap V E) (Q : (pyexn + unit) * list V -> heap V E -> Prop) X :
  StrictWeakOrder lt -> calls_keep I -> I (self h) ->
  Zlen (keys_list keys vals) = Zlen vals -> Zlen vals <= MAX_ITEMS ->
  (ordered -> compare_doc P lt ∧ tuple_doc P lt Pe lte eqe ∧ Forall P (keys_list keys vals) ∧
              (∀ l, I l -> allocated l = -1)) ->
  (∀ r D h', I (self h') -> cells keys vals ≡ₚ D ->
     (ordered -> r = inl (PyErr MemoryError no_msg) ∨
                 r = inr tt ∧ sorted_stably lt reverse (cells keys vals) D) ->
     Q (r, snd <$> D) h') ->
  wp (sort_saved vals keys reverse) Q X h.
Proof.
  intros Hswo Hk HI Hlen Hmax Hord HQ.
  destruct (cells_arr keys vals Hlen) as (Harr & Hfst & Hsnd).
  set (hv := bool_decide (keys ≠ None)) in *. set (C := cells keys vals) in *.
  assert (Zlen C = Zlen vals) as HlC by (rewrite <- Hsnd; zlia).
  destruct (merge_init_state hv (Zlen vals)) as (CT & m & Hinit & Hal & Hn & Hpl & Hreg); [zlia|].
  set (kc := run_key_cmp (presort_check (keys_list keys vals) h)).
  assert (cmp_ok kc ordered (λ k, k ∈ keys_list keys vals) lt) as Hcmp.
  { eapply presort_cmp_ok; [done|]. intros Ho. destruct (Hord Ho) as (H1 & H2 & H3 & _). eauto. }
  assert (wp (_ ← cassert (regions_ok (merge_init_regions (alloced m) hv ++
                                       (if hv then keys_region (Zlen vals) else [])));
              r ← mtry (sort_body kc reverse (Zlen vals)); sort_end reverse (Zlen vals) r)
    (λ r s', Q (r, values_of (main s')) (hp s')) (λ e s', X e (hp s'))
    (st hv h C CT m)) as Hwp.
  { apply wp_bind, wp_assert; [done|]. wp_step. apply wp_try. rewrite <- HlC.
    assert (Forall (λ c, c.1 ∈ keys_list keys vals) C) as HP.
    { apply Forall_forall. intros c Hc. rewrite <- Hfst. apply list_elem_of_fmap. eauto. }
    assert (∀ r D h' CT' m', I (self h') -> maybe_reverse reverse C ≡ₚ D ->
      (ordered -> r = inl (PyErr MemoryError no_msg) ∨
         r = inr tt ∧ sorted_stably lt reverse C (maybe_reverse reverse D)) ->
      wp (sort_end reverse (Zlen C) r) (λ r s', Q (r, values_of (main s')) (hp s'))
        (λ e s', X e (hp s')) (st hv h' D CT' m')) as finish.
    { intros r D h' CT' m' HI' HD Hr.
      assert (C ≡ₚ D) as HCD by (rewrite <- HD; by rewrite maybe_reverse_perm).
      assert (values_of (main (st hv h' D CT' m')) = snd <$> D) as Hv
        by (by apply (values_of_cells keys vals)).
      apply (wp_sort_end I); [done|done|rewrite Hv; apply Zlen_perm in HCD; zlia|].
      intros r' s' Hs' Hv' Hr'. rewrite Hv', Hv.
      replace (maybe_reverse reverse (snd <$> D)) with (snd <$> maybe_reverse reverse D)
        by (destruct reverse; simpl; [by rewrite fmap_reverse|done]).
      apply HQ; [done|by rewrite maybe_reverse_perm|].
      intros Ho. destruct Hr' as [-> | (-> & (l & Hl & Hal') & ->)]; [auto|]. exfalso. apply Hal'.
      by apply (Hord Ho). }
    pose proof (sort_body_spec kc ordered _ lt Hcmp hv h C CT m reverse Hal Hn Hpl
      ltac:(lia) HP) as Hbody.
    pose proof (keeps_sort_body I kc (run_key_cmp_keeps I Hk _) reverse (Zlen C)
      (st hv h C CT m) HI) as Hkeep.
    unfold wpo in Hbody |- *.
    destruct (sort_body kc reverse (Zlen C) (st hv h C CT m)) as [[] s1|e s1| |]; [| |done|done].
    - destruct Hbody as (h' & CT' & m' & D & -> & HD & HsD). cbn [hp st] in Hkeep.
      apply (finish (inr tt) D h' CT' m'); [exact Hkeep|by destruct HD|].
      intros Ho. right. split; [done|]. apply sorted_stably_intro; [by apply HD|by apply HsD].
    - destruct Hbody as (He & h' & CT' & m' & D & -> & HD). cbn [hp st] in Hkeep.
      apply (finish (inl e) D h' CT' m'); [exact Hkeep|by destruct HD|].
      intros Ho. left. by rewrite (He Ho). }
  unfold wpo, sort_saved in *. rewrite Harr. change (ks (arr_of hv C)) with (fst <$> C).
  rewrite Hfst. fold hv. rewrite Hinit. fold kc.
  change (SortSt h (arr_of hv C) (arr_of hv CT) m) with (st hv h C CT m).
  revert Hwp. match goal with |- context [(cassert ?a ≫= ?k) ?s] =>
    destruct ((cassert a ≫= k) s) as [r s'|e s'| |] end; intros Hwp; exact Hwp.
Qed.

(** What the list holds after the sort: the same block and size, with [vals]
    in place of the items. *)
Definition put_back (saved : listobj V) (vals : list V) : listobj V :=
  ListObj ((λ a, vals ++ drop (length vals) a) <$> ob_item saved) (ob_size saved)
    (allocated saved).
Lemma items_length (l : listobj V) : list_wf l -> Zlen (items l) = ob_size l.
Proof.
  unfold list_wf, items. destruct (ob_item l) as [a|]; simpl; intros [H1 H2].
  - apply Zlen_take. lia.
  - rewrite H1. done.
Qed.
Lemma put_back_wf (saved : listobj V) vals :
  list_wf saved -> items saved ≡ₚ vals ->
  list_wf (put_back saved vals) ∧ items (put_back saved vals) = vals.
Proof.
  intros Hwf Hp. pose proof (items_length _ Hwf) as Hl. apply Zlen_perm in Hp. revert Hwf Hl Hp.
  unfold list_wf, put_back, items, Zlen. destruct (ob_item saved) as [a|]; simpl; intros [H1 H2] Hl Hp.
  - split.
    + rewrite length_app, length_drop. lia.
    + replace (Z.to_nat (ob_size saved)) with (length vals) by lia. by rewrite take_app_length.
  - split; [done|]. rewrite H1 in *. destruct vals; [done|simpl in *; lia].
Qed.
Lemma wp_sort_restore (saved : listobj V) vals (h : heap V E) Q X :
  self_ok (self h) ->
  Q tt (run_releases (reverse (items (self h))) (set_self (put_back saved vals) h)) ->
  wp (sort_restore saved vals) Q X h.
Proof.
  intros Hok HQ. unfold sort_restore. wp_step. unfold get_self, wpo at 1. wp_step.
  unfold put_self. wp_step. unfold items in HQ. destruct (ob_item (self h)) as [a|] eqn:Ea; cbn [default from_option id] in HQ.
  2:{ apply wp_ret. by rewrite take_nil in HQ. }
  assert (0 <= ob_size (self h) <= Zlen a) as Hsz.
  { destruct Hok as [Hwf | Hd]; [|by rewrite Hd in Ea].
    unfold list_wf in Hwf. rewrite Ea in Hwf. lia. }
  destruct (Zlen_split _ _ Hsz) as (b & c & -> & Hb).
  assert (Z.to_nat (ob_size (self h)) = length b) as Hlb by (unfold Zlen in Hb; lia).
  rewrite Hlb, take_app_length in HQ. by apply wp_release_down.
Qed.

(** The state that the sort ends in: [h0] is the last one before the list is
    put back, with [vals], and its items are released. *)
Definition put_back_from (saved : listobj V) (vals : list V) (h0 : heap V E) : heap V E :=
  run_releases (reverse (items (self h0))) (set_self (put_back saved vals) h0).

Lemma wp_list_sort_impl I (ordered : Prop) (P : V -> Prop) lt Pe lte eqe kf keyfunc reverse
    (h : heap V E) (Q : unit -> heap V E -> Prop) (X : pyexn -> heap V E -> Prop) :
  let vals := items (self h) in
  StrictWeakOrder lt -> list_wf (self h) -> Zlen vals <= MAX_ITEMS ->
  calls_keep I -> I detached -> (∀ l, I l -> self_ok l) ->
  (ordered -> compare_doc P lt ∧ tuple_doc P lt Pe lte eqe ∧ Forall P (kf <$> vals) ∧
     (∀ l, I l -> allocated l = -1) ∧
     match keyfunc with
     | Some f => ∀ v h, v ∈ vals -> ∃ h', py_call f v h = (Some (kf v), h')
     | None => ∀ v, v ∈ vals -> kf v = v
     end) ->
  (∀ D h0, I (self h0) -> vals ≡ₚ snd <$> D ->
     (ordered -> sorted_stably lt reverse ((λ v, (kf v, v)) <$> vals) D) ->
     Q tt (put_back_from (self h) (snd <$> D) h0)) ->
  (∀ e vals' h0, I (self h0) -> vals ≡ₚ vals' ->
     (ordered -> e = PyErr MemoryError no_msg) -> X e (put_back_from (self h) vals' h0)) ->
  wp (list_sort_impl keyfunc reverse) Q X h.
Proof.
  intros vals Hswo Hwf Hmax Hk HI Hok Hord HQ HX. unfold list_sort_impl. wp_step.
  unfold get_self, wpo at 1. cbv zeta. fold vals. wp_step. unfold put_self. wp_step. wp_step.
  apply wp_try. change (ListObj None 0 (-1)) with (@detached V).
  eapply (wp_sort_keys I keyfunc vals ordered kf); [done|exact HI|..].
  { intros Ho. by apply Hord. }
  2:{ intros e h1 He Hh1. wp_step. apply wp_sort_restore; [by apply Hok|].
      apply wp_throw. by apply HX. }
  intros keys h1 Hh1 Hlen Hnone Hkeys. wp_step.
  eapply (wp_sort_saved I ordered P lt Pe lte eqe); [done|done|done|done|done|..].
  { intros Ho. rewrite (Hkeys Ho). destruct (Hord Ho) as (?&?&?&?&_). done. }
  intros r D h2 Hh2 HD Hr.
  assert (vals ≡ₚ snd <$> D) as Hperm.
  { rewrite <- HD. by destruct (cells_arr keys vals Hlen) as (_ & _ & ->). }
  assert (ordered -> cells keys vals = (λ v, (kf v, v)) <$> vals) as Hcells.
  { intros Ho. unfold cells. rewrite (Hkeys Ho). clear. induction vals as [|v l IH]; [done|]. unfold fmap in *. simpl. by rewrite IH. }
  wp_step. apply wp_sort_restore; [by apply Hok|].
  destruct r as [e|[]].
  - apply wp_throw, HX; [done|done|]. intros Ho.
    destruct (Hr Ho) as [[= ->] | [? _]]; done.
  - apply wp_ret, HQ; [done|done|]. intros Ho.
    destruct (Hr Ho) as [? | [_ Hs]]; [done|]. by rewrite <- Hcells.
Qed.
End top.
