(* ===== verification/IntObjects.v ===== *)
(** * A small interpreter: the objects are integers

    A concrete instance of the interfaces to the interpreter, in which
    allocations succeed and objects compare as compact integers.  It shows
    that the documented behaviour the theorems rely on is satisfiable. *)

From stdpp Require Import base list numbers strings.
From S2P Require Import Prelude PyHeap ListView SortSpec SortMem KeyCompare ListSortTop.

Definition int_cmp_op (op : cmp_op) (v w : Z) : bool :=
  match op with
  | Py_LT => v <? w | Py_LE => v <=? w | Py_EQ => v =? w
  | Py_NE => negb (v =? w) | Py_GT => w <? v | Py_GE => w <=? v
  end.

Lemma int_malloc_limit (bytes : Z) (e : unit) :
  PY_SSIZE_T_MAX < bytes -> (bytes <=? PY_SSIZE_T_MAX, e).1 = false.
Proof. simpl. lia. Qed.
#[export] Instance int_api : PyApi Z unit := {
  junk := 0;
  py_malloc bytes e := (bytes <=? PY_SSIZE_T_MAX, e);
  py_malloc_limit := int_malloc_limit;
  py_rich op v w h := (Some (int_cmp_op op v w), h);
  (* calling [f] adds [f] *)
  py_call f v h := (Some (f + v), h);
  py_repr _ h := (inr "an int"%string, h)
}.
#[export] Instance int_kapi : KeyApi Z unit := {
  py_type _ _ := PyLong_Type;
  py_type_stable _ _ _ _ := eq_refl;
  py_finalise _ h := h;
  tp_richcompare _ _ := None;
  call_slot _ _ _ _ h := (NotImplemented, h);
  py_is_true _ h := (Some true, h);
  py_bool _ := None;
  tuple_items _ := [];
  long_compact v := Some v;
  str_data _ := None;
  float_lt := Z.ltb
}.

#[export] Instance Z_swo : StrictWeakOrder Z.ltb.
Proof. split; intros; bool_to_prop; [apply Z.ltb_ge|apply Z.ltb_ge]; lia. Qed.

Definition int_cmp : compare_fn Z unit := λ v w, mret (v <? w).
Lemma int_cmp_ok : cmp_ok int_cmp True (λ _, True) Z.ltb.
Proof. split; [apply _|done|]. intros _ x y h _ _. by eexists. Qed.
Lemma int_compare_doc : compare_doc (λ _, True) Z.ltb.
Proof.
  split; intros; simpl in *; try done; [by eexists|]. by simplify_eq.
Qed.
Lemma int_tuple_doc : tuple_doc (λ _, True) Z.ltb (λ _, True) Z.ltb Z.eqb.
Proof. split; intros; simpl in *; try done; [apply int_compare_doc|by eexists]. Qed.
Lemma int_calls_keep I : calls_keep I.
Proof. by split. Qed.

(** A list object holding [its], in a fresh state. *)
Definition int_heap (its : list Z) : heap Z unit := Heap (lobj its []) [] tt.
