(* ===== verification/CheckedListSafe.v ===== *)
(** * The element type of a checked list

    The operations that change a [CheckedList[T]] keep the list in shape with
    all items of type [T], whatever comparisons, iterators, [__index__] methods
    and the allocator do, and whether they succeed or fail, as long as their
    callers keep the promises of [op_ok]. *)

From stdpp Require Import base list numbers strings relations.
From S2P Require Import Prelude Slices PyHeap ListCore ListView ListSpec ListAssign ListExtend ListQuery ListQuerySpec.
From S2P Require Import ListSubscript ListSubscriptSpec TypeCheck SortSpec SortMem KeyCompare ListSort ListSortSpec.
From S2P Require Import ListSortTop CheckedList.

Section safe.
Context {V E : Type} {api : PyApi V E} {kapi : KeyApi V E} {tapi : TypeApi V} {sapi : SliceApi}
        `{EqDecision V}.
(** The type parameter of the list. *)
Variable param : gparam.
Abbreviation inst := [param].

(** An item of the element type. *)
Definition typed (v : V) : Prop := param_ok param v = true.
Abbreviation safe := (stays_good typed).

Lemma stays_raise {A} ty msg : safe (mraise ty msg : PM V E A).
Proof. by intros h Hh. Qed.

(** ** The checks *)
Lemma wp_check_item v h (Q : unit -> heap V E -> Prop) (X : pyexn -> heap V E -> Prop) :
  (typed v -> Q tt h) -> (∀ e, X e h) -> wpo True (chklist_checkitem inst v) Q X h.
Proof.
  intros HQ HX. unfold chklist_checkitem, _PyClassLoader_CheckParamType.
  wp_step. wp_step. eapply wp_lift; [done|]. wp_step.
  destruct (param_ok param v) eqn:E1; [by apply wp_ret, HQ|by apply wp_raise].
Qed.
Lemma wp_check_items vs h (Q : unit -> heap V E -> Prop) (X : pyexn -> heap V E -> Prop) :
  (Forall typed vs -> Q tt h) -> (∀ e, X e h) -> wpo True (chklist_checkitems inst vs) Q X h.
Proof.
  revert Q. induction vs as [|v vs IH]; intros Q HQ HX; simpl; [by apply wp_ret, HQ|].
  wp_step. apply wp_check_item; [|done]. intros Hv. apply IH; [|done]. intros Hvs. apply HQ. by constructor.
Qed.
Lemma wp_check_arg v h (Q : unit -> heap V E -> Prop) (X : pyexn -> heap V E -> Prop) :
  (typed v -> Q tt h) -> (∀ e, X e h) -> wpo True (_PyClassLoader_CheckOneArg inst v Ci_Py_Sig_T0) Q X h.
Proof.
  intros HQ HX. unfold _PyClassLoader_CheckOneArg. change (Z.land Ci_Py_Sig_T0 Ci_Py_SIG_OPTIONAL =? 0) with true.
  rewrite andb_false_r. change (Ci_Py_SIG_TYPE_MASK Ci_Py_Sig_T0) with 0.
  wp_step. eapply wp_lift; [done|].
  destruct (PyObject_TypeCheck v (gtp_type param)) eqn:E1; [|by apply wp_raise].
  apply wp_ret, HQ. unfold typed, param_ok. rewrite E1. apply orb_true_r.
Qed.

(** ** Storing items of the type *)
Lemma good_lobj (its slack : list V) lg (e : E) :
  Zlen its + Zlen slack <= MAX_ITEMS -> Forall typed its -> good typed (self (Heap (lobj its slack) lg e)).
Proof. intros Hm HT. apply good_view. exists its. by split; [constructor|]. Qed.
Lemma stays_append v : typed v -> safe (chklist_append v).
Proof.
  intros Hv [l lg e] (its & Hl & HT)%good_view. simpl in Hl. unfold chklist_append. wp_step. apply wp_get_size.
  cbn [self]. rewrite (view_size _ _ Hl). destruct (_ =? _); [by apply wp_raise, good_view; eauto|].
  wp_step. apply wp_grow1 with (its := its); [by apply view_shown| |].
  - intros y slack e' Hm. wp_step. apply wp_INCREF. apply wp_item_set; [done|].
    rewrite lobj_app. apply good_lobj; [zlia|]. apply Forall_app_2; [done|by constructor].
  - intros e'. apply good_view. eauto.
Qed.
Lemma stays_insert where_ v : typed v -> safe (ins1 where_ v).
Proof.
  intros Hv [l lg e] (its & Hl & HT)%good_view. simpl in Hl. apply (wp_ins1 l its); [by apply view_shown| |].
  - intros l' e' Hl'. apply good_view. eexists. split; [done|].
    apply Forall_app_2; [by apply Forall_take|]. constructor; [done|by apply Forall_drop].
  - intros e'. apply good_view. eauto.
Qed.
Lemma stays_inplace_repeat n h : good typed (self h) -> n * ob_size (self h) <= RESIZE_MAX ->
  wpo True (list_inplace_repeat n) (λ _ h', good typed (self h')) (λ _ h', good typed (self h')) h.
Proof.
  destruct h as [l lg e]. intros (its & Hl & HT)%good_view Hn. simpl in Hl, Hn.
  rewrite (view_size _ _ Hl) in Hn. apply (wp_inplace_repeat l its); [done|done| | |].
  - intros l' e' _ Hl'. apply good_view. eexists. split; [done|].
    clear -HT. induction (Z.to_nat n) as [|k IH]; simpl; [done|]. by apply Forall_app.
  - intros l' _ Hl'. apply good_view. exists []. by split.
  - intros e'. apply good_view. eauto.
Qed.
Lemma stays_pop index : - 2 ^ 63 <= index < 2 ^ 63 -> safe (list_pop_impl index).
Proof.
  intros Hi [l lg e] (its & Hl & HT)%good_view. simpl in Hl.
  destruct (decide (- Zlen its <= index < Zlen its)) as [Hr|Hr].
  - destruct (view_item l its (if index <? 0 then index + Zlen its else index) Hl)
      as (a & v & b & -> & Ha); [rewrite (view_size _ _ Hl); destruct (index <? 0) eqn:E1; bool_to_prop; lia|].
    eapply (wp_pop l a v b); [done|done| |].
    + intros l' e' Hl'. apply good_view. eexists. split; [done|].
      apply Forall_app in HT as [H1 H2]. apply Forall_app_2; [done|]. by inversion H2.
    + intros lg' e' _. apply good_view. eauto.
  - eapply (wp_pop_error l its); [done|done|done|]. apply good_view. eauto.
Qed.
Lemma stays_clear : safe (list_clear_ : PM V E unit).
Proof.
  intros [l lg e] (its & Hl & HT)%good_view. simpl in Hl. apply (wp_list_clear l its); [done|].
  apply good_view. exists []. split; [constructor|done].
Qed.
Lemma stays_reverse : safe (list_reverse_impl : PM V E unit).
Proof.
  intros [l lg e] (its & Hl & HT)%good_view. simpl in Hl. apply (wp_list_reverse l its); [done|].
  intros l' Hl' _. apply good_view. eexists. split; [done|]. by apply Forall_reverse.
Qed.
(** Code that releasing a reference runs, when it leaves the list good. *)
Definition finalise_keeps : Prop := ∀ v h, good typed (self h) -> good typed (self (py_finalise v h)).
Lemma stays_sort keyfunc reverse : calls_keep (@self_ok V) -> finalise_keeps ->
  safe (list_sort_impl keyfunc reverse).
Proof.
  intros Hk Hf h [Hw HT]. pose proof (view_max _ _ (wf_view _ Hw)) as Hmax.
  assert (∀ vs h0, items (self h) ≡ₚ vs -> good typed (self (put_back_from (self h) vs h0))) as Hput.
  { intros vs h0 Hperm. unfold put_back_from. apply run_releases_keep; [exact Hf|].
    destruct (put_back_wf (self h) vs Hw Hperm) as [H1 H2]. split; [done|]. simpl. rewrite H2. by rewrite <- Hperm. }
  eapply wp_conseq with (Q := λ _ h', good typed (self h')) (X := λ _ h', good typed (self h')); [|done|done].
  assert (wp (list_sort_impl keyfunc reverse) (λ _ h', good typed (self h')) (λ _ h', good typed (self h')) h)
    as Hwp; [|unfold wpo in *; by destruct (list_sort_impl keyfunc reverse h)].
  apply (wp_list_sort_impl self_ok False (λ _, True) (λ _ _, false) (λ _, True) (λ _ _, false)
           (λ _ _, false) id); try done; [by right|intros; by apply Hput..].
Qed.

(** ** Extending *)

(** A sequence the list is extended by or assigned from, of a realistic size:
    itself, the items of an exact list or tuple, or an object that
    [PySequence_Fast] makes a new list of, as it does of another checked list,
    while the list stays good. *)
Inductive plain_seq (h : heap V E) : seq_arg V E -> Prop :=
  | plain_self : ob_size (self h) <= HINT_MAX -> plain_seq h ASelf
  | plain_items vs : Zlen vs <= HINT_MAX -> plain_seq h (ASeq vs)
  | plain_run run :
      (∀ h', good typed (self h') -> good typed (self (run h').2) ∧
         match (run h').1 with inr vs => Zlen vs <= HINT_MAX | inl _ => True end) ->
      plain_seq h (AIterable run).
(** Its items have the element type, and collecting them leaves the list alone. *)
Definition typed_seq (a : seq_arg V E) : Prop :=
  match a with
  | ASelf => True
  | ASeq vs => Forall typed vs
  | AIterable run => ∀ h, good typed (self h) -> self (run h).2 = self h ∧
      match (run h).1 with inr vs => Forall typed vs | inl _ => True end
  end.

(** What [PySequence_Fast] gives: items of a realistic number, typed when those of
    the sequence are, or a failure. *)
Lemma wp_plain_seq a msg h (Q : list V * bool -> heap V E -> Prop) X :
  plain_seq h a -> good typed (self h) ->
  (∀ vs fresh h', good typed (self h') -> (typed_seq a -> self h' = self h ∧ Forall typed vs) ->
     Zlen vs <= HINT_MAX -> Q (vs, fresh) h') ->
  (∀ e h', good typed (self h') -> X e h') ->
  wpo True (PySequence_Fast a msg) Q X h.
Proof.
  intros [Hm|vs Hm|run Hrun] Hg HQ HX.
  - eapply wp_PySequence_Fast; [constructor| |intros _ e; by apply HX]. pose proof Hg as [Hw HT].
    apply HQ; [done|done|]. by rewrite <- (view_size _ _ (wf_view _ Hw)).
  - eapply wp_PySequence_Fast; [constructor| |done]. by apply HQ.
  - destruct (Hrun h Hg) as [Hg1 Hm]. unfold wpo. simpl. destruct (run h) as [[[e|]|vs] h1] eqn:Er.
    + by apply HX.
    + by apply HX.
    + apply HQ; [done| |done]. intros Ht. specialize (Ht h Hg). by rewrite Er in Ht.
Qed.
Lemma stays_with_seq {A} vs fresh (m : PM V E A) : safe m -> safe (with_seq vs fresh m).
Proof.
  intros Hm h Hg. apply wp_with_seq. eapply wp_conseq; [by apply Hm|..];
    intros ? h' Hg'; by destruct fresh.
Qed.
Lemma stays_release vs fresh : safe (release_seq vs fresh : PM V E unit).
Proof. intros h Hg. apply wp_release_seq. by destruct fresh. Qed.
Lemma wp_grow_store vs h : good typed (self h) -> Zlen vs <= HINT_MAX -> 0 < Zlen vs -> Forall typed vs ->
  wpo True (_ ← cassert (ob_size (self h) <? PY_SSIZE_T_MAX - Zlen vs);
            _ ← list_resize (ob_size (self h) + Zlen vs); store_items vs (ob_size (self h)))
    (λ _ h', good typed (self h')) (λ _ h', good typed (self h')) h.
Proof.
  destruct h as [l lg e]. intros (its & Hl & HT)%good_view Hm Hp Hvs. simpl in Hl.
  pose proof (view_max _ _ Hl) as Hmax. rewrite MAX_ITEMS_val in Hmax.
  cbn [self]. rewrite (view_size _ _ Hl).
  apply wp_bind, wp_assert; [apply Z.ltb_lt; unfold PY_SSIZE_T_MAX, HINT_MAX in *; lia|].
  wp_step. apply (wp_grow_by l its); [done|lia|unfold RESIZE_MAX, HINT_MAX in *; lia| |lia|].
  - intros x slack e' Hx Hs. right. apply wp_store_items; [done|done|].
    rewrite app_assoc. replace (ListObj _ _ _) with (lobj (its ++ vs) slack)
      by (unfold lobj; rewrite <- !app_assoc; f_equal; zlia).
    apply good_lobj; [zlia|]. by apply Forall_app_2.
  - intros e'. apply good_view. eauto.
Qed.

Lemma stays_extend_seq same a h : plain_seq h a -> (same = true -> typed_seq a) -> good typed (self h) ->
  wpo True (chklist_extend_seq inst same a) (λ _ h', good typed (self h'))
    (λ _ h', good typed (self h')) h.
Proof.
  intros Ha Hsame Hg. unfold chklist_extend_seq. wp_step. apply wp_plain_seq; [done|done| |done].
  intros vs fresh h' Hg' Hvs Hm. cbv beta iota zeta.
  destruct (Zlen vs =? 0) eqn:E1; bool_to_prop; [by apply stays_release|].
  wp_step. apply wp_get_size. apply wp_with_seq.
  assert (∀ r : heap V E, good typed (self r) -> good typed (self (seq_freed vs fresh r))) as Hfr
    by (intros r; by destruct fresh).
  apply wp_bind_use with (Q0 := λ _ h'', h'' = h' ∧ Forall typed vs) (X0 := λ _ h'', h'' = h').
  - destruct same; [|by apply wp_check_items]. apply wp_ret. split; [done|]. by apply Hvs, Hsame.
  - intros _ ? [-> Hvs']. pose proof (Zlen_nonneg vs).
    eapply wp_conseq; [apply wp_grow_store; [done|done|lia|done]|auto|auto].
  - intros e ? ->. auto.
Qed.
(** [+=], which checks nothing, with items of the type. *)
Lemma stays_list_extend_seq a h : plain_seq h a -> typed_seq a -> good typed (self h) ->
  wpo True (list_extend_seq a) (λ _ h', good typed (self h')) (λ _ h', good typed (self h')) h.
Proof.
  intros Ha Hta Hg. pose proof Hg as [Hw HT]. pose proof (wf_view _ Hw) as Hv.
  pose proof (view_max _ _ Hv) as Hmax. rewrite MAX_ITEMS_val in Hmax.
  assert (∀ vs fresh h', supplies h a vs fresh h' -> self h' = self h -> Forall typed vs -> Zlen vs <= HINT_MAX ->
    wpo True (list_extend_seq a) (λ _ h', good typed (self h')) (λ _ h', good typed (self h')) h) as Hgo.
  { intros vs fresh h' Hs Hh' Hvs Hm. eapply (wp_extend_seq h h' a (items (self h)) vs fresh); [done|by rewrite Hh'| | |].
    - unfold RESIZE_MAX, HINT_MAX in *. zlia.
    - intros l' e' Hl'. assert (good typed l') as Hg'
        by (apply good_view; eexists; split; [done|by apply Forall_app_2]).
      by destruct fresh.
    - intros e' lg _. simpl. by rewrite Hh'. }
  destruct Ha as [Hm|vs Hm|run Hrun].
  - eapply Hgo; [constructor|done|done|]. by rewrite <- (view_size _ _ Hv).
  - by eapply Hgo; [constructor|..].
  - destruct (Hrun h Hg) as [Hg1 Hm]. specialize (Hta h Hg).
    destruct (run h) as [[o|vs] h1] eqn:Er; simpl in *; destruct Hta as [Hh1 Hvs].
    + unfold list_extend_seq. wp_step. unfold wpo. simpl. rewrite Er. by destruct o.
    + eapply Hgo; [by eapply supplies_iterable|done|done|done].
Qed.

Lemma stays_extend_loop_typed it fuel : iter_keeps typed (λ _, True) it ->
  safe (chklist_extend_loop inst fuel it).
Proof.
  intros Hit. induction fuel as [|fuel IH]; intros h Hg; [done|]. cbn [chklist_extend_loop].
  wp_step. eapply wp_iternext; [exact Hit|done|]. intros [v| |e'] h' Hg' _; [|done|done].
  wp_step. wp_step. apply wp_check_item.
  - intros Hv. by apply (stays_bind typed (extend_item v) (λ _, chklist_extend_loop inst fuel it));
      [apply stays_extend_item|intros _|].
  - intros e. wp_step. by apply wp_DECREF, wp_throw.
Qed.
Lemma stays_extend_iter it fuel : iter_keeps typed (λ _, True) it ->
  safe (chklist_extend_iter inst fuel it).
Proof.
  intros Hit. unfold chklist_extend_iter. apply stays_bind; [by eapply wp_PyObject_GetIter|].
  intros _ h Hg. wp_step. eapply wp_LengthHint; [exact Hit|done| |done]. intros n h' Hn Hg'.
  wp_step. apply wp_get_size.
  apply wp_bind_use with (Q0 := λ _ h'', good typed (self h'')) (X0 := λ _ h'', good typed (self h'')).
  - destruct (_ <? _); [by apply wp_ret|]. pose proof (stays_make_room typed n Hn h' Hg') as Hm.
    apply wp_bind_inv in Hm. exact Hm.
  - intros _ h2 Hg2. apply (stays_bind typed (chklist_extend_loop inst fuel it) (λ _, cut_back));
      [by apply stays_extend_loop_typed|intros _; apply stays_cut_back|done].
  - done.
Qed.

(** ** Assigning to subscripts *)

(** [__index__] and the members of a slice are computed by code that keeps the
    list good; the results are what [PyNumber_AsSsize_t] and [PySlice_Unpack]
    promise. *)
Definition index_ok (f : heap V E -> (pyexn + Z) * heap V E) : Prop := ∀ h, good typed (self h) ->
  good typed (self (f h).2) ∧ match (f h).1 with inr i => - 2 ^ 63 <= i < 2 ^ 63 | inl _ => True end.
Definition unpack_ok (f : heap V E -> (pyexn + Z * Z * Z) * heap V E) : Prop := ∀ h, good typed (self h) ->
  good typed (self (f h).2) ∧
  match (f h).1 with
  | inr (_, _, step) => step ≠ 0 ∧ - PY_SSIZE_T_MAX <= step <= PY_SSIZE_T_MAX
  | inl _ => True
  end.
Lemma wp_run_index {A} (f : heap V E -> (pyexn + A) * heap V E) (ok : A -> Prop) h
    (Q : A -> heap V E -> Prop) (X : pyexn -> heap V E -> Prop) :
  good typed (self (f h).2) -> match (f h).1 with inr i => ok i | inl _ => True end ->
  (∀ i, (f h).1 = inr i -> ok i -> Q i (f h).2) -> (∀ e, X e (f h).2) ->
  wpo True (run_index f) Q X h.
Proof. intros Hg Hi HQ HX. unfold run_index, wpo. destruct (f h) as [[e|i] h']; simpl in *; auto. Qed.

Lemma stays_set_item i v : - 2 ^ 63 <= i < 2 ^ 63 -> typed v -> safe (list_ass_item i (Some v)).
Proof.
  intros Hi Hv [l lg e] (its & Hl & HT)%good_view. simpl in Hl.
  destruct (decide (0 <= i < Zlen its)) as [Hr|Hr].
  - destruct (view_item l its i Hl) as (a & old & b & -> & Ha); [by rewrite (view_size _ _ Hl)|].
    apply (wp_set_item l a old b v); [done|done|]. intros l' Hl'. apply good_view. eexists. split; [done|].
    apply Forall_app in HT as [H1 H2]. apply Forall_app_2; [done|]. inversion H2. by constructor.
  - eapply (wp_ass_item_range l its); [done|done|done|]. apply good_view. eauto.
Qed.
Lemma Forall_assigned its ilow ihigh vs : Forall typed its -> Forall typed vs ->
  Forall typed (assigned its ilow ihigh vs) ∧ Zlen (assigned its ilow ihigh vs) <= Zlen its + Zlen vs.
Proof.
  intros H1 H2. unfold assigned. destruct (clip ilow ihigh (Zlen its)) as [lo hi] eqn:Hc.
  destruct (clip_bounds ilow ihigh (Zlen its) lo hi) as [Hb1 Hb2]; [apply Zlen_nonneg|done|].
  split; [repeat apply Forall_app_2; auto using Forall_take, Forall_drop|].
  rewrite !Zlen_app. rewrite Zlen_take, Zlen_drop by lia. lia.
Qed.
Lemma Forall_place its pos vs : Forall typed its -> Forall typed vs -> Forall typed (place its pos vs).
Proof.
  revert its vs. induction pos as [|p pos IH]; intros its [|v vs] H1 H2; try done. simpl.
  inversion H2. apply IH; [by apply Forall_insert|done].
Qed.

Lemma stays_ass_slice ilow ihigh a h : plain_seq h a -> typed_seq a -> good typed (self h) ->
  wpo True (list_ass_slice ilow ihigh (Some a)) (λ _ h', good typed (self h'))
    (λ _ h', good typed (self h')) h.
Proof.
  intros Ha Hta Hg. pose proof Hg as [Hw HT].
  pose proof (view_max _ _ (wf_view _ Hw)) as Hmax. rewrite MAX_ITEMS_val in Hmax.
  assert (∀ vs fresh h', supplies h a vs fresh h' -> self h' = self h -> Forall typed vs -> Zlen vs <= HINT_MAX ->
    wpo True (list_ass_slice ilow ihigh (Some a)) (λ _ h', good typed (self h')) (λ _ h', good typed (self h')) h)
    as Hgo.
  { intros vs fresh h' Hs Hh' Hvs Hm. destruct (Forall_assigned (items (self h)) ilow ihigh vs HT Hvs) as [HT' Hlen].
    assert (∀ r : heap V E, good typed (self r) -> good typed (self (seq_freed vs fresh r))) as Hfr
      by (intros r; by destruct fresh).
    eapply (wp_set_slice h h' a (items (self h)) ilow ihigh vs fresh); [by apply wf_view|done| | | | |].
    - rewrite Hh'. by apply wf_view.
    - unfold RESIZE_MAX, HINT_MAX in *. lia.
    - intros l' e' Hl'. apply Hfr, good_view. eauto.
    - intros e'. apply Hfr. simpl. by rewrite Hh'.
    - by intros e'. }
  destruct Ha as [Hm|vs Hm|run Hrun].
  - eapply Hgo; [constructor|done|done|]. by rewrite <- (view_size _ _ (wf_view _ Hw)).
  - by eapply Hgo; [constructor|..].
  - destruct (Hrun h Hg) as [Hg1 Hm]. specialize (Hta h Hg).
    destruct (run h) as [[o|vs] h1] eqn:Er; simpl in *; destruct Hta as [Hh1 Hvs].
    + unfold list_ass_slice. wp_step. unfold wpo. simpl. rewrite Er. by destruct o.
    + eapply Hgo; [by eapply supplies_iterable|done|done|done].
Qed.

Lemma stays_store_slice vs fresh start stop step n h :
  good typed (self h) -> slice_ok (items (self h)) start stop step n -> Forall typed vs ->
  wpo True (with_seq vs fresh (set_slice_items start step n vs)) (λ _ h', good typed (self h'))
    (λ _ h', good typed (self h')) h.
Proof.
  intros Hg Hok Hvs.
  assert (∀ r : heap V E, good typed (self r) -> good typed (self (seq_freed vs fresh r))) as Hfr
    by (intros r; by destruct fresh).
  apply wp_with_seq. destruct h as [l lg e]. pose proof Hg as [Hw HT]. simpl in *.
  destruct (decide (Zlen vs = n)) as [Hl|Hl].
  - apply (wp_set_items l (items l) start stop); [by apply wf_view|done|done| |].
    + intros l' olds e' its' Hl' _. apply Hfr, good_view. exists its'. split; [done|].
      by apply Forall_place.
    + intros e'. by apply Hfr.
  - apply wp_set_items_wrong; [done|]. by apply Hfr.
Qed.
Lemma stays_set_slice a start stop step n h : plain_seq h a -> typed_seq a -> good typed (self h) ->
  slice_ok (items (self h)) start stop step n ->
  wpo True (set_slice start step n a) (λ _ h', good typed (self h'))
    (λ _ h', good typed (self h')) h.
Proof.
  intros Ha Hta Hg Hok. pose proof (wf_view _ (proj1 Hg)) as Hv. unfold set_slice. destruct Ha as [Hm|vs Hm|run Hrun].
  - wp_step. wp_step. apply wp_get_size. wp_step. destruct h as [l lg e]. cbn [self] in *.
    apply (wp_list_slice l (items l)); [done|lia|by rewrite (view_size _ _ Hv)| |by intros e'].
    rewrite (view_size _ _ Hv), sub_all. intros r e' Hr. wp_step.
    replace (items r) with (items l) by (symmetry; by apply view_wf).
    by apply (stays_store_slice _ _ start stop); [|done|apply Hg].
  - wp_step. eapply wp_PySequence_Fast; [constructor| |done]. by apply (stays_store_slice _ _ start stop).
  - wp_step. apply wp_plain_seq; [by constructor|done| |done]. intros vs fresh h' Hg' Ht Hm.
    destruct (Ht Hta) as [Hh' Hvs]. apply (stays_store_slice _ _ start stop); [done|by rewrite Hh'|done].
Qed.

(** What may be stored through a subscript: any object at an index; at a slice
    a list of the same type, which by the claim itself holds typed items and
    runs no code when they are collected.  A deletion is not allowed: the code
    follows its NULL value. *)
Definition set_ok (h : heap V E) (item : subscript V E) (same : bool) (value : ass_value V E) : Prop :=
  match value with
  | VDelete => False
  | VObj _ a =>
      match item with
      | SIndex as_ssize => index_ok as_ssize
      | SSlice unpack => unpack_ok unpack ∧ (same = true -> plain_seq (unpack h).2 a ∧ typed_seq a)
      | SOther => True
      end
  end.
(** Storing through [list_ass_subscript] itself, as compiled code does, without
    a check: typed items. *)
Definition store_ok (h : heap V E) (item : subscript V E) (value : ass_value V E) : Prop :=
  match value with
  | VDelete => False
  | VObj v a =>
      match item with
      | SIndex as_ssize => index_ok as_ssize ∧ typed v
      | SSlice unpack => unpack_ok unpack ∧ plain_seq (unpack h).2 a ∧ typed_seq a
      | SOther => True
      end
  end.
Lemma stays_list_ass_subscript item value h : store_ok h item value -> good typed (self h) ->
  wpo True (list_ass_subscript item value) (λ _ h', good typed (self h'))
    (λ _ h', good typed (self h')) h.
Proof.
  intros Hok Hg. destruct value as [|v a]; [done|]. destruct item as [as_ssize|unpack|]; simpl in Hok.
  - destruct Hok as [Hok Hv]. simpl list_ass_subscript. destruct (Hok h Hg) as [Hg1 Hi].
    wp_step. eapply wp_run_index; [done|exact Hi| |done]. intros i _ Hi'. cbv beta in Hi' |- *.
    wp_step. apply wp_get_size. apply (stays_set_item _ v); [|done|done].
    pose proof (wf_view _ (proj1 Hg1)) as Hv1. pose proof (view_max _ _ Hv1) as Hm. rewrite MAX_ITEMS_val in Hm.
    rewrite (view_size _ _ Hv1). pose proof (Zlen_nonneg (items (self (as_ssize h).2))).
    destruct (i <? 0) eqn:E1; bool_to_prop; lia.
  - destruct Hok as (Hun & Ha & Hta). simpl list_ass_subscript.
    destruct (Hun h Hg) as [Hg1 Hst]. wp_step.
    eapply (wp_run_index _ (λ '(_, _, step), step ≠ 0 ∧ - PY_SSIZE_T_MAX <= step <= PY_SSIZE_T_MAX));
      [done| | |done].
    { by destruct (unpack h).1 as [|[[??]?]]. }
    intros [[start0 stop0] step] _ Hst'. cbv beta iota. wp_step. apply wp_get_size.
    rewrite (view_size _ _ (wf_view _ (proj1 Hg1))).
    destruct (slice_adjust _ start0 stop0 step) as [[start stop] n] eqn:Had. cbv beta iota.
    destruct (step =? 1) eqn:E1; [by apply stays_ass_slice|]. cbv zeta iota beta.
    apply slice_adjust_doc in Had as (Hn & Hup & Hdown); [|apply Zlen_nonneg|apply Hst'].
    eapply (stays_set_slice a start stop step n); [done|done|done|]. by split.
  - by apply wp_raise.
Qed.
Lemma stays_ass_subscript item same value h : set_ok h item same value -> good typed (self h) ->
  wpo True (chklist_ass_subscript inst item same value) (λ _ h', good typed (self h'))
    (λ _ h', good typed (self h')) h.
Proof.
  intros Hok Hg. unfold chklist_ass_subscript. destruct value as [|v a]; [done|].
  destruct item as [as_ssize|unpack|]; simpl in Hok.
  - wp_step. apply wp_check_item; [|done]. intros Hv. by apply stays_list_ass_subscript.
  - destruct Hok as [Hun Hsame]. destruct same; [|by wp_step; apply wp_raise].
    wp_step. apply wp_ret. apply stays_list_ass_subscript; [|done]. split; [done|by apply Hsame].
  - wp_step. apply wp_check_item; [|done]. intros _. by apply stays_list_ass_subscript.
Qed.

(** ** Creating *)
Lemma stays_preallocate n h : 0 < n < SIZE_T_MOD -> good typed (self h) -> ob_item (self h) = None ->
  wpo True (list_preallocate_exact n) (λ _ h', good typed (self h')) (λ _ h', good typed (self h')) h.
Proof.
  intros Hn Hg Hnull. destruct h as [l lg e]. simpl in *. destruct Hg as [Hw HT]. pose proof (wf_view _ Hw) as Hv.
  inversion Hv as [Heq|its slack Hm Heq]; subst l; [|done].
  apply wp_preallocate_exact; [done|..].
  - intros slack e' Hs Hle. apply good_view. exists []. split; [constructor; zlia|done].
  - intros e'. by apply good_view; exists [].
Qed.
(** What [extend] may be given: anything, whose items are checked, but for a
    list of the same type. *)
Definition arg_ok (h : heap V E) (same : bool) (arg : extend_arg V E) : Prop :=
  match arg with
  | XSeq a => plain_seq h a ∧ (same = true -> typed_seq a)
  | XIter it => iter_keeps typed (λ _, True) it
  end.
(** What may come after [+=], which checks nothing: typed items. *)
Definition concat_ok (h : heap V E) (arg : extend_arg V E) : Prop :=
  match arg with
  | XSeq a => plain_seq h a ∧ typed_seq a
  | XIter it => iter_keeps typed typed it
  end.
Lemma stays_inplace_concat fuel arg h : concat_ok h arg -> good typed (self h) ->
  wpo True (list_inplace_concat fuel arg) (λ _ h', good typed (self h'))
    (λ _ h', good typed (self h')) h.
Proof.
  destruct arg as [a|it]; simpl; [intros [Ha Hs] Hg; by apply stays_list_extend_seq|].
  intros Hit Hg. by apply (stays_list_extend_iter typed typed it).
Qed.
(** [sq_ass_item], which checks nothing either; NULL deletes. *)
Lemma stays_ass_item i (ov : option V) : - 2 ^ 63 <= i < 2 ^ 63 ->
  match ov with Some v => typed v | None => True end -> safe (list_ass_item i ov).
Proof.
  intros Hi Hv. destruct ov as [v|]; [by apply stays_set_item|]. intros h Hg. unfold list_ass_item.
  wp_step. apply wp_get_size. case_match; [by apply wp_raise|]. by apply stays_del_slice.
Qed.
Lemma stays_extend fuel same arg h : arg_ok h same arg -> good typed (self h) ->
  wpo True (chklist_extend inst fuel same arg) (λ _ h', good typed (self h'))
    (λ _ h', good typed (self h')) h.
Proof.
  destruct arg as [a|it]; simpl; [intros [Ha Hs] Hg; by apply stays_extend_seq|].
  intros Hit Hg. by apply stays_extend_iter.
Qed.
Lemma stays_init fuel iterable same has_len size_of h :
  index_ok size_of -> (∀ h', match iterable with Some arg => arg_ok h' same arg | None => True end) ->
  good typed (self h) ->
  wpo True (chklist_init inst fuel iterable same has_len size_of) (λ _ h', good typed (self h'))
    (λ _ h', good typed (self h')) h.
Proof.
  intros Hsz Harg Hg. unfold chklist_init. wp_step. apply wp_get_self.
  pose proof (wf_view _ (proj1 Hg)) as Hv.
  assert (0 <= ob_size (self h) <= allocated (self h) ∧ (ob_item (self h) = None -> allocated (self h) = 0))
    as [Hs Hnull].
  { clear -Hv. destruct Hv as [|its slack Hm]; [done|]. simpl. pose proof (Zlen_nonneg its).
    pose proof (Zlen_nonneg slack). split; [lia|done]. }
  apply wp_bind, wp_assert; [lia|]. apply wp_bind, wp_assert; [lia|].
  apply wp_bind, wp_assert.
  { case_bool_decide as Hnn; [done|]. by rewrite (Hnull Hnn). }
  apply wp_bind_use with (Q0 := λ _ h', good typed (self h')) (X0 := λ _ h', good typed (self h')).
  - destruct (ob_item (self h)); [by apply stays_clear|by apply wp_ret].
  - intros _ h1 Hg1. destruct iterable as [arg|]; [|by apply wp_ret].
    apply wp_bind_use with (Q0 := λ _ h', good typed (self h')) (X0 := λ _ h', good typed (self h'));
      [|by intros _ h2 Hg2; apply stays_extend|done].
    destruct has_len; [|by apply wp_ret]. destruct (Hsz h1 Hg1) as [Hg2 Hi].
    wp_step. wp_step. eapply wp_run_index; [done|exact Hi|..].
    + intros n _ Hn. cbv beta in Hn. wp_step. wp_step. wp_step. apply wp_get_self.
      destruct ((0 <? n) && _) eqn:E1; [|by apply wp_ret]. apply andb_prop in E1 as [E1 E2].
      apply bool_decide_eq_true in E2. bool_to_prop. apply stays_preallocate; [unfold SIZE_T_MOD; lia|done|done].
    + intros e. wp_step. case_bool_decide; [|by apply wp_throw]. wp_step. wp_step. apply wp_get_self.
      by apply wp_ret.
  - done.
Qed.

(** ** The operations as one transition system

    Every entry of the method, sequence and mapping tables that can change the
    list, the append and the item assignment of compiled code, and the searches, whose comparisons run
    code.  The operations that only read are left out: they are [get_slice_correct],
    [new_lists_correct], [richcompare_correct] and the iterators. *)
Inductive chk_op :=
  | OpAppend (v : V)                             (* append, and the append of compiled code below *)
  | OpAppendCompiled (v : V)
  | OpInsert (index : Z) (v : V)
  | OpExtend (same : bool) (arg : extend_arg V E)
  | OpSetItem (item : subscript V E) (same : bool) (value : ass_value V E)
  | OpSetItemCompiled (item : subscript V E) (value : ass_value V E)
  | OpPop (arg : pop_arg V E)
  | OpClear
  | OpRemove (value : V)
  | OpContains (value : V)
  | OpIndex (value : V) (start stop : Z)
  | OpCount (value : V)
  | OpReverse
  | OpSort (keyfunc : option V) (reverse : bool)
  | OpInplaceRepeat (n : Z)
  | OpInplaceConcat (other : extend_arg V E)     (* += *)
  | OpAssItem (i : Z) (v : option V)             (* sq_ass_item *)
  | OpInit (iterable : option (extend_arg V E)) (same has_len : bool)
      (size_of : heap V E -> (pyexn + Z) * heap V E).
Definition ignore {A} (m : PM V E A) : PM V E unit := _ ← m; mret tt.
Definition run_op (fuel : nat) (op : chk_op) : PM V E unit :=
  match op with
  | OpAppend v => chklist_append_wrapper inst v
  | OpAppendCompiled v => Ci_ListOrCheckedList_Append v
  | OpInsert index v => list_insert_wrapper inst index v
  | OpExtend same arg => chklist_extend inst fuel same arg
  | OpSetItem item same value => chklist_ass_subscript inst item same value
  | OpSetItemCompiled item value => list_ass_subscript item value
  | OpPop arg => ignore (chklist_pop arg)
  | OpClear => list_clear_
  | OpRemove value => list_remove fuel value
  | OpContains value => ignore (list_contains fuel value)
  | OpIndex value start stop => ignore (list_index_impl fuel value start stop)
  | OpCount value => ignore (list_count fuel value)
  | OpReverse => list_reverse_impl
  | OpSort keyfunc reverse => list_sort_impl keyfunc reverse
  | OpInplaceRepeat n => list_inplace_repeat n
  | OpInplaceConcat other => list_inplace_concat fuel other
  | OpAssItem i v => list_ass_item i v
  | OpInit iterable same has_len size_of => chklist_init inst fuel iterable same has_len size_of
  end.
(** What the callers promise: code that runs during the call leaves the list
    good (during a sort, in shape or detached) and computes indices that are
    [Py_ssize_t]; the paths without a check, which are the two of compiled code, [+=] and
    [sq_ass_item], are given typed items; lists of the same type hold typed
    items; sequences and hints have at most 2^59 items and a repetition gives at
    most 3 * 2^59; a list is not initialised from itself; and [del] is not used on
    an item or a slice. *)
Definition op_ok (h : heap V E) (op : chk_op) : Prop :=
  match op with
  | OpAppendCompiled v => typed v
  | OpExtend same arg => arg_ok h same arg
  | OpSetItem item same value => set_ok h item same value
  | OpSetItemCompiled item value => store_ok h item value
  | OpPop (PopInt to_long) => index_ok to_long
  | OpRemove _ | OpContains _ | OpIndex _ _ _ | OpCount _ => rich_keeps typed
  | OpSort _ _ => calls_keep (@self_ok V) ∧ finalise_keeps
  | OpInplaceRepeat n => n * ob_size (self h) <= RESIZE_MAX
  | OpInplaceConcat other => concat_ok h other
  | OpAssItem i v => - 2 ^ 63 <= i < 2 ^ 63 ∧ match v with Some v => typed v | None => True end
  | OpInit iterable same _ size_of =>
      index_ok size_of ∧ ∀ h', match iterable with Some arg => arg_ok h' same arg | None => True end
  | _ => True
  end.

Lemma stays_ignore {A} (m : PM V E A) : safe m -> safe (ignore m).
Proof. intros Hm. apply stays_bind; [done|]. by intros a h Hg. Qed.
Lemma stays_compiled_append v : typed v -> safe (Ci_ListOrCheckedList_Append v).
Proof.
  intros Hv [l lg e] (its & Hl & HT)%good_view. simpl in Hl. unfold Ci_ListOrCheckedList_Append.
  wp_step. apply wp_get_size. pose proof (view_max _ _ Hl) as Hm. rewrite MAX_ITEMS_val in Hm.
  cbn [self]. rewrite (view_size _ _ Hl). pose proof (Zlen_nonneg its).
  apply wp_bind, wp_assert.
  { rewrite size_t_small by (unfold SIZE_T_MOD; lia). unfold PY_SSIZE_T_MAX. lia. }
  wp_step. apply wp_grow1 with (its := its); [by apply view_shown| |].
  - intros y slack e' Hm'. wp_step. apply wp_INCREF. apply wp_item_set; [done|].
    rewrite lobj_app. apply good_lobj; [zlia|]. apply Forall_app_2; [done|by constructor].
  - intros e'. apply good_view. eauto.
Qed.
Lemma op_safe fuel op h : op_ok h op -> good typed (self h) ->
  wpo True (run_op fuel op) (λ _ h', good typed (self h')) (λ _ h', good typed (self h')) h.
Proof.
  intros Hok Hg. destruct op as [v|v|index v|same arg|item same value|item value|arg| |value|value|value start stop|value| |keyfunc reverse|n|other|i ov|iterable same has_len size_of];
    simpl in *.
  - unfold chklist_append_wrapper. wp_step. apply wp_check_arg; [|done]. intros Hv. by apply stays_append.
  - by apply stays_compiled_append.
  - unfold list_insert_wrapper. wp_step. apply wp_check_arg; [|done]. intros Hv. by apply stays_insert.
  - by apply stays_extend.
  - by apply stays_ass_subscript.
  - by apply stays_list_ass_subscript.
  - apply stays_ignore; [|done]. clear h Hg. intros h Hg. unfold chklist_pop. destruct arg as [|to_long|].
    + by apply stays_pop.
    + destruct (Hok h Hg) as [Hg1 Hi]. wp_step. eapply wp_run_index; [done|exact Hi| |done].
      intros i _ Hi'. by apply stays_pop.
    + by apply wp_raise.
  - by apply stays_clear.
  - by apply stays_remove_loop.
  - apply stays_ignore; [|done]. by apply stays_contains_loop.
  - apply stays_ignore; [|done]. intros h1 Hg1. unfold list_index_impl. wp_step. apply wp_get_size.
    apply stays_index_loop; [done| |done]. unfold index_bound.
    destruct (start <? 0) eqn:E1; [destruct (start + ob_size (self h1) <? 0) eqn:E2|]; bool_to_prop; lia.
  - apply stays_ignore; [|done]. by apply stays_count_loop.
  - by apply stays_reverse.
  - destruct Hok. by apply stays_sort.
  - by apply stays_inplace_repeat.
  - by apply stays_inplace_concat.
  - destruct Hok. by apply stays_ass_item.
  - destruct Hok. by apply stays_init.
Qed.

(** One call, whether it succeeds or raises. *)
Inductive chk_step (fuel : nat) : heap V E -> heap V E -> Prop :=
  | step_ret op h r h' : op_ok h op -> run_op fuel op h = Ret r h' -> chk_step fuel h h'
  | step_exn op h e h' : op_ok h op -> run_op fuel op h = Exn e h' -> chk_step fuel h h'.
Lemma chk_step_good fuel h h' : chk_step fuel h h' -> good typed (self h) -> good typed (self h').
Proof.
  intros [op h1 r h2 Hok Hrun|op h1 e h2 Hok Hrun] Hg; pose proof (op_safe fuel op h1 Hok Hg) as Hs;
    unfold wpo in Hs; by rewrite Hrun in Hs.
Qed.
End safe.
