(* ===== verification/ListSortClaims.v ===== *)
(** * The correctness of [list.sort]

    The properties of the sort and of its parts, from the outermost theorem
    inwards. *)

From stdpp Require Import base sets list numbers strings sorting.
From S2P Require Import Prelude Slices PyHeap ListCore ListView SortSpec SortMem Gallop Runs Merge MergeLo MergeHi.
From S2P Require Import Collapse KeyCompare ListSort ListSortSpec ListSortTop IntObjects.

(** ** A reference sort: insertion, one cell at a time *)
Section reference.
Context {V : Type} (lt : V -> V -> bool) (reverse : bool).

(** Whether a cell may stay in front of another one that it preceded. *)
Definition may_precede (c d : V * V) : bool :=
  if reverse then negb (lt c.1 d.1) else negb (lt d.1 c.1).
Fixpoint insert_cell (c : V * V) (D : list (V * V)) : list (V * V) :=
  match D with
  | [] => [c]
  | d :: D => if may_precede c d then c :: d :: D else d :: insert_cell c D
  end.
Definition reference_sort (C : list (V * V)) : list (V * V) := foldr insert_cell [] C.

Context `{!StrictWeakOrder lt}.

Lemma equivk_same_key k c d :
  equivk lt k c = true -> equivk lt k d = true -> lt c.1 d.1 = false.
Proof.
  unfold equivk. intros [H1 H2]%andb_prop [H3 H4]%andb_prop. apply negb_true_iff in H1, H2, H3, H4.
  exact (swo_ntrans _ _ _ H2 H3).
Qed.
Lemma insert_cell_stable c D : stable lt (c :: D) (insert_cell c D).
Proof.
  induction D as [|d D IH]; [done|]. simpl. destruct (may_precede c d) eqn:E1; [done|].
  intros k. specialize (IH k). rewrite !filter_cons in *. rewrite IH.
  destruct (decide (equivk lt k c = true)) as [Hc|], (decide (equivk lt k d = true)) as [Hd|]; try done.
  exfalso. unfold may_precede in E1.
  pose proof (equivk_same_key k c d Hc Hd). pose proof (equivk_same_key k d c Hd Hc).
  destruct reverse; apply negb_false_iff in E1; congruence.
Qed.
Lemma may_precede_trans c d f :
  may_precede c d = true -> may_precede d f = true -> may_precede c f = true.
Proof.
  unfold may_precede. destruct reverse; rewrite !negb_true_iff; eauto using swo_ntrans.
Qed.
Lemma may_precede_total c d : may_precede c d = false -> may_precede d c = true.
Proof.
  unfold may_precede. destruct reverse; rewrite negb_false_iff, negb_true_iff; apply swo_asym.
Qed.
Abbreviation in_order := (StronglySorted (λ c d, may_precede c d = true)).
Lemma insert_cell_sorted c D : in_order D -> in_order (insert_cell c D).
Proof.
  induction 1 as [|d D Hs IH Hd]; [repeat constructor|]. simpl.
  destruct (may_precede c d) eqn:E1.
  - constructor; [by constructor|]. constructor; [done|].
    eapply Forall_impl; [exact Hd|]. simpl. intros f. by apply may_precede_trans.
  - constructor; [done|]. clear - Hd E1 StrictWeakOrder0. induction D as [|f D IHD]; simpl.
    + constructor; [by apply may_precede_total|constructor].
    + apply Forall_cons in Hd as [Hf HD]. case_match; [|auto].
      constructor; [by apply may_precede_total|]. by constructor.
Qed.
Lemma reference_sort_spec C : stable lt C (reference_sort C) ∧ in_order (reference_sort C).
Proof.
  induction C as [|c C [IH1 IH2]]; [repeat constructor|]. simpl. split; [|by apply insert_cell_sorted].
  etransitivity; [|apply insert_cell_stable]. apply (stable_app lt [c] [c]); [done|exact IH1].
Qed.
End reference.

(** Stability and order determine the list. *)
Lemma sorted_stably_unique {V} (lt : V -> V -> bool) `{!StrictWeakOrder lt} reverse C D :
  sorted_stably lt reverse C D -> D = reference_sort lt reverse C.
Proof.
  intros [HD1 HD2]. destruct (reference_sort_spec lt reverse C) as [HR1 HR2].
  set (R := reference_sort lt reverse C) in *.
  assert (StronglySorted (if reverse then flip (cle lt) else cle lt) R) as HR3.
  { clear HR1. unfold may_precede in HR2. induction HR2 as [|c l Hs IH Hc]; [constructor|].
    constructor; [done|]. eapply Forall_impl; [exact Hc|]. simpl. intros d.
    destruct reverse; rewrite negb_true_iff; done. }
  assert (stable lt D R) as HDR by (etransitivity; [symmetry; exact HD1|exact HR1]).
  destruct reverse; [|by apply (stable_sorted_unique lt)].
  apply (inj reverse). apply (stable_sorted_unique lt).
  - intros k. rewrite !filter_reverse_eq. f_equal. apply HDR.
  - apply (ssorted_reverse _ D HD2).
  - apply (ssorted_reverse _ R HR3).
Qed.

(** ** The sort as a whole *)

Section whole.
Context {V E : Type} {api : PyApi V E} {kapi : KeyApi V E}.

(** The cells that are sorted: each item with its key. *)
Definition keyed (kf : V -> V) (vals : list V) : list (V * V) := (λ v, (kf v, v)) <$> vals.

(** Comparison and the key function are what the language promises: [lt]
    is the order of the keys, [kf] what the key function returns, and the
    code that runs leaves the detached list alone. *)
Record well_behaved (P : V -> Prop) lt (Pe : V -> Prop) lte eqe kf keyfunc vals : Prop := {
  wb_swo : StrictWeakOrder lt;
  wb_doc : compare_doc P lt;
  wb_tuple : tuple_doc P lt Pe lte eqe;
  wb_keys : Forall P (kf <$> vals);
  wb_keyfunc : match keyfunc with
               | Some f => ∀ v h, v ∈ vals -> ∃ h', py_call f v h = (Some (kf v), h')
               | None => ∀ v, v ∈ vals -> kf v = v
               end;
  wb_keep : calls_keep (eq detached)
}.

Lemma wp_list_sort_ordered P lt Pe lte eqe kf keyfunc reverse (h : heap V E) Q X :
  list_wf (self h) -> Zlen (items (self h)) <= MAX_ITEMS ->
  well_behaved P lt Pe lte eqe kf keyfunc (items (self h)) ->
  (∀ D h', list_wf (self h') -> items (self h') = snd <$> D ->
     sorted_stably lt reverse (keyed kf (items (self h))) D -> Q tt h') ->
  (∀ e h', list_wf (self h') -> items (self h) ≡ₚ items (self h') ->
     e = PyErr MemoryError no_msg -> X e h') ->
  wp (list_sort_impl keyfunc reverse) Q X h.
Proof.
  intros Hwf Hmax [Hs Hd Ht Hp Hk Hkeep] HQ HX.
  apply (wp_list_sort_impl (eq detached) True P lt Pe lte eqe kf); try done.
  - intros l <-. by right.
  - intros _. split_and!; try done. by intros l <-.
  - intros D h0 Hh0 Hperm HD. destruct (put_back_wf (self h) (snd <$> D) Hwf Hperm) as [H1 H2].
    unfold put_back_from. rewrite <- Hh0. by apply (HQ D); [..|by apply HD].
  - intros e vals' h0 Hh0 Hperm He. destruct (put_back_wf (self h) vals' Hwf Hperm) as [H1 H2].
    unfold put_back_from. rewrite <- Hh0. apply HX; [done|by simpl; rewrite H2|by apply He].
Qed.
End whole.

(** The integers sorted by the value plus two. *)
Lemma int_well_behaved (kf : Z -> Z) keyfunc vals :
  match keyfunc with Some f => ∀ v, kf v = f + v | None => ∀ v, kf v = v end ->
  well_behaved (λ _, True) Z.ltb (λ _, True) Z.ltb Z.eqb kf keyfunc vals.
Proof.
  intros Hk. split; [apply _|apply int_compare_doc|apply int_tuple_doc|by apply Forall_true| |
    apply int_calls_keep].
  destruct keyfunc; [|by intros; apply Hk]. intros v h _. exists h. simpl. by rewrite Hk.
Qed.



(** C5. With a well-behaved comparison and key function [list.sort] leaves the
    list that the reference insertion sort gives: ascending by key, or
    descending with [reverse], equal keys in their original order; the only
    possible failure is running out of memory, and then no item is lost. *)
Theorem list_sort_is_reference_sort {V E} {api : PyApi V E} {kapi : KeyApi V E}
    P lt Pe lte eqe kf keyfunc reverse (h : heap V E) :
  list_wf (self h) ->
  well_behaved P lt Pe lte eqe kf keyfunc (items (self h)) ->
  wp (list_sort_impl keyfunc reverse)
    (λ _ h', list_wf (self h') ∧
       items (self h') = snd <$> reference_sort lt reverse (keyed kf (items (self h))))
    (λ e h', e = PyErr MemoryError no_msg ∧ list_wf (self h') ∧
       items (self h') ≡ₚ items (self h)) h.
Proof.
  intros Hwf Hwb. pose proof (view_max _ _ (wf_view _ Hwf)) as Hmax. pose proof (wb_swo _ _ _ _ _ _ _ _ Hwb).
  apply (wp_list_sort_ordered P lt Pe lte eqe kf); try done.
  intros D h' H1 H2 HD. split; [done|]. rewrite H2. f_equal. by apply sorted_stably_unique.
Qed.
Lemma list_sort_is_reference_sort_witness :
  wp (list_sort_impl (Some 2) true)
    (λ _ h', list_wf (self h') ∧ items (self h') = [3; 2; 1])
    (λ e h', e = PyErr MemoryError no_msg ∧ list_wf (self h') ∧ items (self h') ≡ₚ [1; 3; 2])
    (int_heap [1; 3; 2]).
Proof.
  apply (list_sort_is_reference_sort (λ _, True) Z.ltb (λ _, True) Z.ltb Z.eqb (Z.add 2)
           (Some 2) true (int_heap [1; 3; 2])).
  - vm_compute. by repeat split.
  - by apply int_well_behaved.
Defined.

(** The sorted list is sorted and stable: consecutive keys are in order and,
    for every key, the items equivalent to it appear in their original order. *)
Theorem list_sort_sorts_stably {V E} {api : PyApi V E} {kapi : KeyApi V E}
    P lt Pe lte eqe kf keyfunc reverse (h : heap V E) :
  list_wf (self h) ->
  well_behaved P lt Pe lte eqe kf keyfunc (items (self h)) ->
  wp (list_sort_impl keyfunc reverse)
    (λ _ h', ∃ D, items (self h') = snd <$> D ∧
       StronglySorted (if reverse then flip (cle lt) else cle lt) D ∧
       stable lt (keyed kf (items (self h))) D) (λ _ _, True) h.
Proof.
  intros Hwf Hwb. pose proof (view_max _ _ (wf_view _ Hwf)) as Hmax. apply (wp_list_sort_ordered P lt Pe lte eqe kf); try done.
  intros D h' H1 H2 [HD1 HD2]. eauto.
Qed.
Lemma list_sort_sorts_stably_witness :
  wp (list_sort_impl None false)
    (λ _ h', ∃ D, items (self h') = snd <$> D ∧ StronglySorted (cle Z.ltb) D ∧
       stable Z.ltb [(5, 5); (4, 4)] D) (λ _ _, True) (int_heap [5; 4]).
Proof.
  apply (list_sort_sorts_stably (λ _, True) Z.ltb (λ _, True) Z.ltb Z.eqb id None false
           (int_heap [5; 4])).
  - vm_compute. by repeat split.
  - by apply int_well_behaved.
Defined.

(** ** The parts of the sort

    Each routine works on the cells of a state [st hv h CM CT m]: the array
    [CM], the buffer [CT], with separate values when [hv]; [ordered] says that
    the comparison answers [lt]. *)

Section parts.
Context {V E : Type} {api : PyApi V E}.
Variables (key_compare : compare_fn V E) (ordered : Prop) (P : V -> Prop) (lt : V -> V -> bool).

(** A sorted slice [L] of the array, starting at [a], and a key to look up. *)
Record search_args (h : heap V E) CM CT (a : sortslice) (L : list (V * V)) (key : V) hint : Prop := {
  sa_cmp : cmp_ok key_compare ordered P lt;
  sa_at : ∃ l k, sel (pw a) CM CT = l ++ L ++ k ∧ po a = Zlen l;
  sa_keys : P key ∧ Forall (λ c, P c.1) L;
  sa_sorted : ordered -> sorted_cells lt L;
  sa_max : Zlen L <= MAX_ITEMS;
  sa_hint : 0 <= hint < Zlen L
}.
End parts.

(** C37. [gallop_left] stays inside the slice, does not overflow, terminates, and
    returns the position before which all keys are less than [key] and from
    which on none is: the leftmost place for the key. *)
Theorem gallop_left_correct {V E} {api : PyApi V E} (key_compare : compare_fn V E)
    (ordered : Prop) P lt hv (h : heap V E) CM CT m a L key hint :
  search_args key_compare ordered P lt h CM CT a L key hint ->
  wp (gallop_left key_compare key a (Zlen L) hint)
    (λ r s', heap_only (st hv h CM CT m) s' ∧ 0 <= r <= Zlen L ∧
             (ordered -> split_at (λ x, lt x key) L r))
    (λ e s', ¬ ordered ∧ heap_only (st hv h CM CT m) s') (st hv h CM CT m).
Proof.
  intros [Hc (l & k & Ha & Hpo) [Hk1 Hk2] Hs Hm Hh].
  apply (gallop_left_spec key_compare ordered P lt Hc hv h CM CT m l L k a key Ha Hpo); done.
Qed.
Definition gallop_cells : list (Z * Z) := [(1, 10); (3, 11); (3, 12); (5, 13)].
Lemma gallop_args (key hint : Z) :
  0 <= hint < 4 ->
  search_args int_cmp True (λ _, True) Z.ltb (int_heap []) gallop_cells [] (Slice Main 0)
    gallop_cells key hint.
Proof.
  intros Hh. split; [apply int_cmp_ok| | | |done|done].
  - exists [], []. by rewrite app_nil_r.
  - split; [done|by repeat constructor].
  - intros _. by repeat constructor.
Qed.
Definition empty_ms : MergeState := MkMS MIN_GALLOP true 0 0 [].
Lemma gallop_left_correct_witness :
  let s := st true (int_heap []) gallop_cells [] empty_ms in
  wp (gallop_left int_cmp 3 (Slice Main 0) 4 2)
    (λ r s', heap_only s s' ∧ 0 <= r <= 4 ∧ (True -> split_at (λ x, x <? 3) gallop_cells r))
    (λ e s', ¬ True ∧ heap_only s s') s.
Proof. apply gallop_left_correct with (P := λ _, True) (L := gallop_cells). by apply gallop_args. Defined.

(** [gallop_right] is the same search for the rightmost place: all keys
    before the position are at most [key], all keys from it on are greater. *)
Theorem gallop_right_correct {V E} {api : PyApi V E} (key_compare : compare_fn V E)
    (ordered : Prop) P lt hv (h : heap V E) CM CT m a L key hint :
  search_args key_compare ordered P lt h CM CT a L key hint ->
  wp (gallop_right key_compare key a (Zlen L) hint)
    (λ r s', heap_only (st hv h CM CT m) s' ∧ 0 <= r <= Zlen L ∧
             (ordered -> split_at (λ x, negb (lt key x)) L r))
    (λ e s', ¬ ordered ∧ heap_only (st hv h CM CT m) s') (st hv h CM CT m).
Proof.
  intros [Hc (l & k & Ha & Hpo) [Hk1 Hk2] Hs Hm Hh].
  apply (gallop_right_spec key_compare ordered P lt Hc hv h CM CT m l L k a key Ha Hpo); done.
Qed.
Lemma gallop_right_correct_witness :
  let s := st true (int_heap []) gallop_cells [] empty_ms in
  wp (gallop_right int_cmp 3 (Slice Main 0) 4 0)
    (λ r s', heap_only s s' ∧ 0 <= r <= 4 ∧ (True -> split_at (λ x, negb (3 <? x)) gallop_cells r))
    (λ e s', ¬ True ∧ heap_only s s') s.
Proof. apply gallop_right_correct with (P := λ _, True) (L := gallop_cells). by apply gallop_args. Defined.

(** [merge_compute_minrun] returns short lengths unchanged; for others a
    [k] between 32 and 64 for which the length is at most, and only just at
    most, [k] times a power of two, as the comment of the source promises. *)
Theorem minrun_balanced n :
  0 <= n <= PY_SSIZE_T_MAX ->
  let k := merge_compute_minrun n in
  (n < 64 -> k = n) ∧
  (64 <= n -> 32 <= k <= 64 ∧ ∃ p, 0 < p ∧ 2 ^ p * (k - 1) < n <= 2 ^ p * k).
Proof. apply merge_compute_minrun_spec. Qed.
Lemma minrun_balanced_witness :
  0 <= 1000 <= PY_SSIZE_T_MAX ∧ merge_compute_minrun 1000 = 63 ∧
  32 <= merge_compute_minrun 1000 <= 64.
Proof.
  split; [by vm_compute|]. split; [reflexivity|].
  destruct (minrun_balanced 1000) as [_ H]; [by vm_compute|]. by apply H.
Defined.

(** [count_run] finds a non-empty run at the start of the slice that is
    non-descending, or strictly descending when it says so; it only compares. *)
Theorem count_run_correct {V E} {api : PyApi V E} (key_compare : compare_fn V E)
    (ordered : Prop) P lt hv (h : heap V E) CT m pre R post :
  cmp_ok key_compare ordered P lt -> 0 < Zlen R -> Forall (λ c, P c.1) R ->
  let s := st hv h (pre ++ R ++ post) CT m in
  wp (count_run key_compare (Slice Main (Zlen pre)) (Zlen pre + Zlen R))
    (λ '(n, descending) s', heap_only s s' ∧ 1 <= n <= Zlen R ∧
       (ordered -> StronglySorted
          (if descending : bool then flip (clt lt) else cle lt) (take (Z.to_nat n) R)))
    (λ e s', ¬ ordered ∧ heap_only s s') s.
Proof.
  intros Hc Hp HP s.
  eapply wp_conseq; [by eapply (count_run_spec key_compare ordered P lt Hc hv h _ CT m pre R post)|..].
  - intros [n d] s' (H1 & H2 & R1 & R2 & -> & Hn & H3). split_and!; [done|lia|lia|].
    intros Ho. rewrite take_app_length' by (unfold Zlen in Hn; lia). specialize (H3 Ho).
    unfold run_rel in H3. by destruct d.
  - done.
Qed.
Lemma count_run_correct_witness :
  let s := st true (int_heap []) gallop_cells [] empty_ms in
  wp (count_run int_cmp (Slice Main 0) 4)
    (λ '(n, descending) s', heap_only s s' ∧ 1 <= n <= 4 ∧
       (True -> StronglySorted (if descending : bool then flip (clt Z.ltb) else cle Z.ltb)
                  (take (Z.to_nat n) gallop_cells)))
    (λ e s', ¬ True ∧ heap_only s s') s.
Proof.
  apply (count_run_correct int_cmp True (λ _, True) Z.ltb true (int_heap []) [] empty_ms []
           gallop_cells []).
  - apply int_cmp_ok.
  - done.
  - by apply Forall_true.
Defined.

(** C38. [binarysort] extends the sorted run [R] by the items [U] that follow it:
    the whole becomes a sorted, stable rearrangement, and even when a
    comparison fails no item is lost or duplicated. *)
Theorem binarysort_correct {V E} {api : PyApi V E} (key_compare : compare_fn V E)
    (ordered : Prop) P lt hv (h : heap V E) CT m pre R U post :
  cmp_ok key_compare ordered P lt -> 0 < Zlen R ->
  Forall (λ d, P d.1) (R ++ U) -> (ordered -> sorted_cells lt R) ->
  wp (binarysort key_compare (Slice Main (Zlen pre)) (Zlen pre + Zlen R + Zlen U)
        (Zlen pre + Zlen R))
    (λ _ s', ∃ h' R', s' = st hv h' (pre ++ R' ++ post) CT m ∧ R ++ U ≡ₚ R' ∧
       (ordered -> stable lt (R ++ U) R' ∧ sorted_cells lt R'))
    (λ _ s', ¬ ordered ∧ ∃ h' R', s' = st hv h' (pre ++ R' ++ post) CT m ∧ R ++ U ≡ₚ R')
    (st hv h (pre ++ R ++ U ++ post) CT m).
Proof.
  intros Hc Hp HP Hs.
  eapply wp_conseq; [by eapply (binarysort_spec key_compare ordered P lt Hc hv h _ CT m pre R U post)|..].
  - intros _ s' (h' & R' & -> & [H1 H2] & H3). exists h', R'. auto.
  - intros e s' (Ho & h' & R' & -> & [H1 _]). eauto.
Qed.
Lemma binarysort_correct_witness :
  wp (binarysort int_cmp (Slice Main 0) 3 2)
    (λ _ s', ∃ h' R', s' = st false h' R' [] empty_ms ∧ [(2, 2); (4, 4); (3, 3)] ≡ₚ R' ∧
       (True -> stable Z.ltb [(2, 2); (4, 4); (3, 3)] R' ∧ sorted_cells Z.ltb R'))
    (λ _ s', ¬ True ∧ ∃ h' R', s' = st false h' R' [] empty_ms ∧ [(2, 2); (4, 4); (3, 3)] ≡ₚ R')
    (st false (int_heap []) [(2, 2); (4, 4); (3, 3)] [] empty_ms).
Proof.
  pose proof (binarysort_correct int_cmp True (λ _, True) Z.ltb false (int_heap []) [] empty_ms []
    [(2, 2); (4, 4)] [(3, 3)] []) as H.
  eapply wp_conseq; [apply H|..].
  - apply int_cmp_ok.
  - done.
  - by apply Forall_true.
  - intros _. by repeat constructor.
  - intros _ s' (h' & R' & Hs & HR). exists h', R'. simpl in Hs. by rewrite app_nil_r in Hs.
  - intros e s' (Ho & h' & R' & Hs & HR). by destruct Ho.
Defined.

(** C39. [merge_lo] merges two adjacent runs that are ready for it, in place,
    into a sorted, stable rearrangement; when a comparison raises or memory
    runs out the array still holds the items of both runs, and the pending
    runs are untouched. *)
Theorem merge_lo_correct {V E} {api : PyApi V E} (key_compare : compare_fn V E)
    (ordered : Prop) P lt hv (h : heap V E) pre A B post CT m :
  cmp_ok key_compare ordered P lt -> alloced m = Zlen CT ->
  0 < Zlen A -> 0 < Zlen B -> Zlen A + Zlen B <= MAX_ITEMS ->
  Forall (λ c, P c.1) (A ++ B) -> (ordered -> merge_ready lt A B) ->
  wp (merge_lo key_compare (Slice Main (Zlen pre)) (Zlen A)
        (Slice Main (Zlen pre + Zlen A)) (Zlen B))
    (λ _, region_done ordered lt hv pre post m (A ++ B))
    (region_failed ordered lt hv pre post m (A ++ B))
    (st hv h (pre ++ A ++ B ++ post) CT m).
Proof. intros Hc. by apply (merge_lo_spec key_compare ordered P lt Hc). Qed.
Lemma int_merge_ready : merge_ready Z.ltb [(2, 2); (5, 5)] [(1, 1); (3, 3)].
Proof.
  split_and!; [by repeat constructor|by repeat constructor|..].
  - intros b B' [= <- <-] c d Hc Hd. set_unfold. unfold clt. naive_solver.
  - intros A' z Hz c d Hc Hd. change [(2, 2); (5, 5)] with ([(2, 2)] ++ [(5, 5)]) in Hz.
    apply app_inj_2 in Hz as [_ [= <-]]; [|done]. set_unfold. unfold clt. naive_solver.
Qed.
Lemma merge_lo_correct_witness :
  wp (merge_lo int_cmp (Slice Main 0) 2 (Slice Main 2) 2)
    (λ _, region_done True Z.ltb false [] [] empty_ms [(2, 2); (5, 5); (1, 1); (3, 3)])
    (region_failed True Z.ltb false [] [] empty_ms [(2, 2); (5, 5); (1, 1); (3, 3)])
    (st false (int_heap []) [(2, 2); (5, 5); (1, 1); (3, 3)] [] empty_ms).
Proof.
  apply (merge_lo_correct int_cmp True (λ _, True) Z.ltb false (int_heap []) []
           [(2, 2); (5, 5)] [(1, 1); (3, 3)] [] [] empty_ms); try done.
  - apply int_cmp_ok.
  - by apply Forall_true.
  - intros _. apply int_merge_ready.
Defined.

(** [merge_hi] merges from the right with the same result. *)
Theorem merge_hi_correct {V E} {api : PyApi V E} (key_compare : compare_fn V E)
    (ordered : Prop) P lt hv (h : heap V E) pre A B post CT m :
  cmp_ok key_compare ordered P lt -> alloced m = Zlen CT ->
  0 < Zlen A -> 0 < Zlen B -> Zlen A + Zlen B <= MAX_ITEMS ->
  Forall (λ c, P c.1) (A ++ B) -> (ordered -> merge_ready lt A B) ->
  wp (merge_hi key_compare (Slice Main (Zlen pre)) (Zlen A)
        (Slice Main (Zlen pre + Zlen A)) (Zlen B))
    (λ _, region_done ordered lt hv pre post m (A ++ B))
    (region_failed ordered lt hv pre post m (A ++ B))
    (st hv h (pre ++ A ++ B ++ post) CT m).
Proof. intros Hc. by apply (merge_hi_spec key_compare ordered P lt Hc). Qed.
Lemma merge_hi_correct_witness :
  wp (merge_hi int_cmp (Slice Main 0) 2 (Slice Main 2) 2)
    (λ _, region_done True Z.ltb false [] [] empty_ms [(2, 2); (5, 5); (1, 1); (3, 3)])
    (region_failed True Z.ltb false [] [] empty_ms [(2, 2); (5, 5); (1, 1); (3, 3)])
    (st false (int_heap []) [(2, 2); (5, 5); (1, 1); (3, 3)] [] empty_ms).
Proof.
  apply (merge_hi_correct int_cmp True (λ _, True) Z.ltb false (int_heap []) []
           [(2, 2); (5, 5)] [(1, 1); (3, 3)] [] [] empty_ms); try done.
  - apply int_cmp_ok.
  - by apply Forall_true.
  - intros _. apply int_merge_ready.
Defined.

(** [merge_collapse] restores the invariant on the pending runs after a
    push: each run, from the top down, is shorter than the next and two
    neighbours together are shorter than the one below them. *)
Theorem merge_collapse_restores {V E} {api : PyApi V E} (key_compare : compare_fn V E)
    (ordered : Prop) P lt hv (C0 : list (V * V)) RS R rest s :
  cmp_ok key_compare ordered P lt -> Forall (λ c, P c.1) C0 -> Zlen C0 <= MAX_ITEMS ->
  stack ordered lt hv C0 (RS ++ [R]) rest s -> lens_inv (lens RS) ->
  wp (merge_collapse key_compare)
    (λ _ s', ∃ RS', stack ordered lt hv C0 RS' rest s' ∧ lens_inv (lens RS'))
    (sort_failed ordered lt hv C0) s.
Proof. intros Hc HP Hm. by apply (merge_collapse_spec key_compare ordered P lt Hc). Qed.
Definition two_runs : list (Z * Z) := [(2, 2); (5, 5); (1, 1); (3, 3)].
Definition two_runs_ms : MergeState :=
  MkMS MIN_GALLOP true 0 2
    ([Run (Slice Main 0) 2; Run (Slice Main 2) 2] ++ replicate 83 (Run (Slice Main 0) 0)).
Lemma merge_collapse_restores_witness :
  wp (merge_collapse int_cmp)
    (λ _ s', ∃ RS', stack True Z.ltb false two_runs RS' [] s' ∧ lens_inv (lens RS'))
    (sort_failed True Z.ltb false two_runs) (st false (int_heap []) two_runs [] two_runs_ms).
Proof.
  apply (merge_collapse_restores int_cmp True (λ _, True) Z.ltb false two_runs
           [[(2, 2); (5, 5)]] [(1, 1); (3, 3)] []).
  - apply int_cmp_ok.
  - by apply Forall_true.
  - done.
  - exists (int_heap []), [], two_runs_ms, (replicate 83 (Run (Slice Main 0) 0)).
    split_and?; try done; [by repeat constructor|by repeat constructor].
  - done.
Defined.

(** The pending stack never overflows: 85 runs that satisfy the invariant
    would hold more items than an array can. *)
Theorem pending_runs_bound {V E} {api : PyApi V E} ordered lt hv (C0 : list (V * V)) RS rest
    (s : sortst V E) :
  stack ordered lt hv C0 RS rest s -> lens_inv (lens RS) -> Zlen C0 <= MAX_ITEMS ->
  nrun (ms s) < MAX_MERGE_PENDING.
Proof.
  intros (h & CT & m & jp & -> & _ & Hn & _ & _ & Hpos & Hre & _) Hinv Hmax. cbn [ms st].
  rewrite Hn. apply rearr_Zlen in Hre.
  replace (Zlen RS) with (Zlen (lens RS)) by (unfold lens; zlia).
  pose proof (Zlen_nonneg rest). rewrite Zlen_app in Hre.
  apply pending_bound; [done| |rewrite (total_lens C0); lia].
  unfold lens. apply Forall_reverse, Forall_fmap. exact Hpos.
Qed.
Definition three_one_ms : MergeState :=
  MkMS MIN_GALLOP true 0 2
    ([Run (Slice Main 0) 3; Run (Slice Main 3) 1] ++ replicate 83 (Run (Slice Main 0) 0)).
Lemma pending_runs_bound_witness : nrun three_one_ms < MAX_MERGE_PENDING.
Proof.
  apply (pending_runs_bound True Z.ltb false [(2, 2); (5, 5); (6, 6); (3, 3)]
           [[(2, 2); (5, 5); (6, 6)]; [(3, 3)]] []
           (st false (int_heap []) [(2, 2); (5, 5); (6, 6); (3, 3)] [] three_one_ms)).
  - exists (int_heap []), [], three_one_ms, (replicate 83 (Run (Slice Main 0) 0)).
    split_and?; try done; [by repeat constructor|by repeat constructor].
  - done.
  - done.
Defined.

(** C40. The comparison that the scan of the keys selects runs on any two scanned
    keys, at any later time, with every assertion on types and representations
    satisfied, however comparison behaves; and when comparison is as documented,
    it answers exactly what rich comparison answers: the unsafe special cases for
    strings, integers, floats, tuples and types with a slot are only used where
    they agree with it. *)
Theorem presort_choice_sound {V E} {api : PyApi V E} {kapi : KeyApi V E}
    P lt Pe lte eqe keys (h0 : heap V E) v w h :
  v ∈ keys -> w ∈ keys ->
  wp (run_key_cmp (presort_check keys h0) v w) (λ _ _, True) (λ _ _, True) h ∧
  (StrictWeakOrder lt -> compare_doc P lt -> tuple_doc P lt Pe lte eqe -> Forall P keys ->
   (∃ h', run_key_cmp (presort_check keys h0) v w h = Ret (lt v w) h') ∧
   (∃ h', PyObject_RichCompareBool v w Py_LT h = Ret (lt v w) h')).
Proof.
  intros Hv Hw. split.
  - eapply wp_conseq; [by apply (presort_check_answers False (λ _, True) (λ _ _, false) (λ _, True)
      (λ _ _, false) (λ _ _, false) ltac:(done) ltac:(done) keys h0)|done|done].
  - intros Hs Hd Ht HP. split.
    + by apply (cmp_agree _ _ _ _ (presort_cmp_ok True P lt Pe lte eqe keys h0 Hs (λ _, conj Hd (conj Ht HP)))).
    + rewrite Forall_forall in HP. unfold PyObject_RichCompareBool.
      destruct (doc_rich _ _ Hd v w h (HP v Hv) (HP w Hw)) as [h2 ->]. by eexists.
Qed.
Lemma presort_choice_sound_witness :
  wp (run_key_cmp (presort_check [4; 9] (int_heap [])) 4 9) (λ _ _, True) (λ _ _, True) (int_heap []) ∧
  (∃ h', run_key_cmp (presort_check [4; 9] (int_heap [])) 4 9 (int_heap []) = Ret true h') ∧
  (∃ h', PyObject_RichCompareBool 4 9 Py_LT (int_heap []) = Ret true h').
Proof.
  destruct (presort_choice_sound (λ _, True) Z.ltb (λ _, True) Z.ltb Z.eqb [4; 9] (int_heap []) 4 9 (int_heap []))
    as [H1 H2]; [by left|by right; left|].
  split; [exact H1|]. apply H2.
  - apply _.
  - apply int_compare_doc.
  - apply int_tuple_doc.
  - by apply Forall_true.
Defined.
