(* ===== verification/ListClaims.v ===== *)
(** * The correctness of the list operations

    The theorems of [ListSpec], [ListAssign] and [ListExtend], restated for
    whole states: every list in shape, every branch, and the references taken
    and released.  The two theorems on overflow show where the code fails. *)

From stdpp Require Import base list numbers strings.
From S2P Require Import Prelude PyHeap ListCore ListView ListSpec ListAssign ListExtend ListQuerySpec IntObjects.

(** The list is in shape and its items are [its]. *)
Definition holds {V E} (h : heap V E) (its : list V) : Prop :=
  list_wf (self h) ∧ items (self h) = its.
(** Memory ran out, and nothing happened. *)
Definition no_memory {V E} (h : heap V E) (e : pyexn) (h' : heap V E) : Prop :=
  e = PyErr MemoryError no_msg ∧ self h' = self h ∧ log h' = log h.
(** The references taken from [h] to [h'] are those by which [its'] differs
    from [its]. *)
Definition accounts {V E} `{EqDecision V} (h : heap V E) its (h' : heap V E) its' : Prop :=
  balanced its (log h) its' (log h').

Lemma view_holds {V E} (l : listobj V) its lg (e : E) : view l its -> holds (Heap l lg e) its.
Proof. apply view_wf. Qed.
Lemma holds_view {V E} (h : heap V E) its : holds h its -> ∃ l lg e, h = Heap l lg e ∧ view l its.
Proof. destruct h as [l lg e]. intros [H1 <-]. exists l, lg, e. split; [done|]. by apply wf_view. Qed.
Lemma int_holds its : Zlen its <= MAX_ITEMS -> holds (int_heap its) its.
Proof. intros H. apply view_holds. constructor. zlia. Qed.
#[export] Hint Resolve view_holds : refdb.

(** ** Growth *)

(** The allocated sizes of a list that grows by appending: the next size after
    [allocated] is what [list_resize] allocates for one more item. *)
Fixpoint append_sizes (n : nat) (allocated : Z) : list Z :=
  match n with
  | O => []
  | S n => allocated :: append_sizes n (growth (allocated + 1) allocated)
  end.

(** [list_resize] allocates at least the new size, at most an eighth and six
    slots more, always a multiple of four, and nothing for an empty list; the
    sizes of a list that grows item by item are those the source lists. *)
Theorem growth_pattern :
  append_sizes 10 0 = [0; 4; 8; 16; 24; 32; 40; 52; 64; 76] ∧
  ∀ newsize size, 0 <= newsize <= RESIZE_MAX -> 0 <= size <= RESIZE_MAX ->
    let g := growth newsize size in
    newsize <= g <= newsize + newsize `div` 8 + 6 ∧ g `mod` 4 = 0 ∧ (newsize = 0 -> g = 0).
Proof. split; [reflexivity|]. exact growth_bounds. Qed.

(** [list_resize] keeps the items that fit and leaves a list in shape of the
    requested size; when memory runs out the list is untouched. *)
Theorem list_resize_correct {V E} {api : PyApi V E} (h : heap V E) its n :
  holds h its -> 0 <= n <= RESIZE_MAX ->
  wp (list_resize n)
    (λ _ h', ∃ tl, holds h' (take (Z.to_nat n) its ++ tl) ∧ ob_size (self h') = n ∧ log h' = log h)
    (no_memory h) h.
Proof.
  intros (l & lg & e & -> & Hv)%holds_view Hn. apply (wp_list_resize l its); [by left|done| |done].
  intros l' tl e' Htl Hv'. exists tl. split_and!; [by apply view_holds| |done].
  simpl. apply view_size in Hv' as ->. rewrite Zlen_app, Htl. unfold Zlen. rewrite length_take. lia.
Qed.
Lemma list_resize_correct_witness :
  wp (list_resize 2)
    (λ _ h', ∃ tl, holds h' (take 2 [4; 5; 6] ++ tl) ∧ ob_size (self h') = 2 ∧ log h' = [])
    (no_memory (int_heap [4; 5; 6])) (int_heap [4; 5; 6]).
Proof. apply (list_resize_correct (int_heap [4; 5; 6]) [4; 5; 6] 2); [by apply int_holds|done]. Defined.

(** ** Adding, removing and replacing items *)

(** [append] and [insert] put the item where Python says, take one
    reference to it, and change nothing when memory runs out. *)
Theorem insert_correct {V E} {api : PyApi V E} (h : heap V E) its where_ v :
  holds h its ->
  let p := Z.to_nat (insert_pos where_ (Zlen its)) in
  wp (ins1 where_ v)
    (λ _ h', holds h' (take p its ++ v :: drop p its) ∧ log h' = Incref v :: log h) (no_memory h) h ∧
  wp (app1 v) (λ _ h', holds h' (its ++ [v]) ∧ log h' = Incref v :: log h) (no_memory h) h.
Proof.
  intros (l & lg & e & -> & Hv)%holds_view p. split.
  - apply (wp_ins1 l its); [by apply view_shown| |done]. intros. split; [by apply view_holds|done].
  - apply (wp_app1 l its); [by apply view_shown| |done]. intros. split; [by apply view_holds|done].
Qed.
Lemma insert_correct_witness :
  wp (ins1 (-1) 9) (λ _ h', holds h' [4; 9; 5] ∧ log h' = [Incref 9]) (no_memory (int_heap [4; 5]))
    (int_heap [4; 5]) ∧
  wp (app1 9) (λ _ h', holds h' [4; 5; 9] ∧ log h' = [Incref 9]) (no_memory (int_heap [4; 5]))
    (int_heap [4; 5]).
Proof. apply (insert_correct (int_heap [4; 5]) [4; 5] (-1) 9). by apply int_holds. Defined.

(** C26. [pop] returns the item at the index, counted from the end when negative,
    and closes the gap; the caller gets the reference the list held.  An empty
    list and an index out of range are refused, and every failure leaves the
    items and the counts as they were. *)
Theorem pop_correct {V E} {api : PyApi V E} `{EqDecision V} (h : heap V E) its index :
  holds h its -> - 2 ^ 63 <= index < 2 ^ 63 ->
  wp (list_pop_impl index)
    (λ v h', ∃ a b, its = a ++ v :: b ∧
       Zlen a = (if index <? 0 then index + Zlen its else index) ∧
       holds h' (a ++ b) ∧ same_refs (log h) (log h'))
    (λ e h', holds h' its ∧ same_refs (log h) (log h') ∧
       if decide (- Zlen its <= index < Zlen its) then e = PyErr MemoryError no_msg
       else e = PyErr IndexError (if decide (its = []) then "pop from empty list"
                                  else "pop index out of range")) h.
Proof.
  intros (l & lg & e & -> & Hv)%holds_view Hi.
  destruct (decide (- Zlen its <= index < Zlen its)) as [Hr|Hr].
  - destruct (view_item l its (if index <? 0 then index + Zlen its else index) Hv)
      as (a & v & b & -> & Ha); [rewrite (view_size _ _ Hv); destruct (index <? 0) eqn:E1; bool_to_prop; lia|].
    eapply (wp_pop l a v b); [done|done| |].
    + intros l' e' Hv'. exists a, b. split_and!; [done|done|by apply view_holds|].
      intros w. simpl. destruct (decide (b = [])); simpl; lia.
    + intros lg' e' Hlg. split_and!; [by apply view_holds| |done].
      intros w. simpl. destruct Hlg as [->| ->]; simpl; lia.
  - eapply (wp_pop_error l its); [done|done|done|]. split_and!; [by apply view_holds|by intros w|done].
Qed.
Lemma pop_correct_witness :
  let h := int_heap [4; 5; 6] in
  wp (list_pop_impl (-2))
    (λ v h', ∃ a b, [4; 5; 6] = a ++ v :: b ∧ Zlen a = 1 ∧ holds h' (a ++ b) ∧
       same_refs (log h) (log h'))
    (λ e h', holds h' [4; 5; 6] ∧ same_refs (log h) (log h') ∧ e = PyErr MemoryError no_msg) h.
Proof. apply (pop_correct (int_heap [4; 5; 6]) [4; 5; 6] (-2)); [by apply int_holds|done]. Defined.

(** C23. Assigning a sequence to [a[ilow:ihigh]], the list itself included,
    replaces the clipped slice; the list takes one reference to each new item
    and releases one of each old one, and every reference is released when the
    list is back in shape.  Without memory the items and counts are kept. *)
Theorem ass_slice_correct {V E} {api : PyApi V E} `{EqDecision V} (h h1 : heap V E) its v vs fresh ilow ihigh :
  let res := assigned its ilow ihigh vs in
  list_wf (self h) -> supplies h v vs fresh h1 -> holds h1 its -> log_wf (log h1) ->
  Zlen res <= RESIZE_MAX ->
  let temporary w := if fresh then occ w vs else 0 in
  wp (list_ass_slice ilow ihigh (Some v))
    (λ _ h', holds h' res ∧ log_wf (log h') ∧
       ∀ w, refs_taken w (log h') = refs_taken w (log h1) - temporary w + occ w res - occ w its)
    (λ e h', e = PyErr MemoryError no_msg ∧
       (self h' = self h1 ∧ log_wf (log h') ∧
        (∀ w, refs_taken w (log h') = refs_taken w (log h1) - temporary w) ∨
        self h' = self h ∧ log h' = log h)) h.
Proof.
  intros res Hwf Hs Hh Hlog Hm temporary. subst temporary.
  destruct (holds_view _ _ Hh) as (l & lg & e & -> & Hv). simpl in *.
  pose proof (clip_bounds ilow ihigh (Zlen its)) as Hb. pose proof (Zlen_nonneg its).
  apply (wp_set_slice h (Heap l lg e) v its ilow ihigh vs fresh); try done.
  - by apply wf_view.
  - intros l' e' Hv'. unfold slice_done, seq_freed. destruct (view_wf _ _ Hv') as [Hw' _].
    subst res. unfold removed, assigned in *. destruct (clip ilow ihigh (Zlen its)) as [lo hi] eqn:Hc.
    destruct (Hb lo hi) as [Hb1 Hb2]; [done|done|].
    pose proof (sub_split its lo hi Hb1 Hb2) as [Hsplit _].
    split_and!; [|destruct fresh; simpl; auto with refdb|].
    + destruct fresh; by apply view_holds.
    + intros w. apply (f_equal (occ w)) in Hsplit. autorewrite with refs in Hsplit.
      destruct fresh; simpl; autorewrite with refs; lia.
  - intros e'. split; [done|]. left. unfold seq_freed.
    split_and!; [by destruct fresh|destruct fresh; simpl; auto with refdb|].
    + apply log_wf_released; [|done]. by eapply view_wf.
    + intros w. destruct fresh; simpl; autorewrite with refs; lia.
  - intros e'. split; [done|]. by right.
Qed.
Lemma ass_slice_correct_witness :
  let h := int_heap [4; 5; 6] in
  let h1 := Heap (self h) (took [4; 5; 6] []) tt in
  wp (list_ass_slice 1 2 (Some ASelf))
    (λ _ h', holds h' [4; 4; 5; 6; 6] ∧ log_wf (log h') ∧
       ∀ w, refs_taken w (log h') = refs_taken w (log h1) - occ w [4; 5; 6] +
                                    occ w [4; 4; 5; 6; 6] - occ w [4; 5; 6])
    (λ e h', e = PyErr MemoryError no_msg ∧
       (self h' = self h1 ∧ log_wf (log h') ∧
        (∀ w, refs_taken w (log h') = refs_taken w (log h1) - occ w [4; 5; 6]) ∨
        self h' = self h ∧ log h' = log h)) h.
Proof.
  apply (ass_slice_correct (int_heap [4; 5; 6]) _ [4; 5; 6] ASelf [4; 5; 6] true 1 2).
  - by vm_compute.
  - constructor.
  - by apply int_holds.
  - by repeat constructor.
  - done.
Defined.

(** Deleting a slice, which is how [del] and [clear] work, releases the items
    that go only once the list is back in shape. *)
Theorem del_slice_correct {V E} {api : PyApi V E} `{EqDecision V} (h : heap V E) its ilow ihigh :
  holds h its -> log_wf (log h) ->
  let res := assigned its ilow ihigh [] in
  wp (list_ass_slice ilow ihigh None)
    (λ _ h', holds h' res ∧ accounts h its h' res ∧ log_wf (log h')) (no_memory h) h.
Proof.
  intros (l & lg & e & -> & Hv)%holds_view Hlog res. apply (wp_del_slice l its); [done| |done].
  intros l' e' Hv'. split_and!; [by apply view_holds| |].
  - pose proof (clip_bounds ilow ihigh (Zlen its)) as Hb. pose proof (Zlen_nonneg its).
    subst res. unfold removed, assigned in *. destruct (clip ilow ihigh (Zlen its)) as [lo hi].
    destruct (Hb lo hi) as [Hb1 Hb2]; [done|done|].
    pose proof (sub_split its lo hi Hb1 Hb2) as [Hsplit _].
    intros w. apply (f_equal (occ w)) in Hsplit. autorewrite with refs in Hsplit.
    simpl. autorewrite with refs. lia.
  - simpl in *. apply log_wf_released; [|done]. by eapply view_wf.
Qed.
Lemma del_slice_correct_witness :
  let h := int_heap [4; 5; 6] in
  wp (list_ass_slice 0 2 None)
    (λ _ h', holds h' [6] ∧ accounts h [4; 5; 6] h' [6] ∧ log_wf (log h')) (no_memory h) h.
Proof.
  apply (del_slice_correct (int_heap [4; 5; 6]) [4; 5; 6] 0 2); [by apply int_holds|by constructor].
Defined.

(** ** Building larger lists *)

(** C27. [a * n], [a + b] and [a[i:j]] are new lists with the items Python says
    and a reference to each; a repetition too long for a [Py_ssize_t] is
    refused, and the operands never change. *)
Theorem new_lists_correct {V E} {api : PyApi V E} (h : heap V E) its b bits n ilow ihigh :
  holds h its -> list_wf b -> items b = bits -> n <= PY_SSIZE_T_MAX ->
  0 <= ilow -> ihigh <= Zlen its ->
  let makes vs r h' := list_wf r ∧ items r = vs ∧ self h' = self h ∧ log h' = took vs (log h) in
  wp (list_repeat n) (makes (copies (Z.to_nat n) its)) (no_memory h) h ∧
  wp (list_concat (Some b)) (makes (its ++ bits)) (no_memory h) h ∧
  wp (list_slice ilow ihigh) (makes (sub its ilow ihigh)) (no_memory h) h.
Proof.
  intros (l & lg & e & -> & Hv)%holds_view Hb <- Hn Hi Hj makes. subst makes. split_and!.
  - apply (wp_list_repeat l its); [done|done| |done].
    intros r e' _ Hr. apply view_wf in Hr as [Hr1 Hr2]. done.
  - apply (wp_list_concat l its b (items b)); [done|by apply wf_view| |done].
    intros r e' Hr. apply view_wf in Hr as [Hr1 Hr2]. done.
  - apply (wp_list_slice l its); [done|done|done| |done].
    intros r e' Hr. apply view_wf in Hr as [Hr1 Hr2]. done.
Qed.
Lemma new_lists_correct_witness :
  let h := int_heap [4; 5] in
  let makes vs r (h' : heap Z unit) := list_wf r ∧ items r = vs ∧ self h' = self h ∧ log h' = took vs [] in
  wp (list_repeat 2) (makes [4; 5; 4; 5]) (no_memory h) h ∧
  wp (list_concat (Some (lobj [6] []))) (makes [4; 5; 6]) (no_memory h) h ∧
  wp (list_slice 1 2) (makes [5]) (no_memory h) h.
Proof.
  apply (new_lists_correct (int_heap [4; 5]) [4; 5] (lobj [6] []) [6] 2 1 2); try done.
Defined.

(** [a *= n] repeats the items in place, [n < 1] clears the list; the counts
    follow the items. *)
Theorem inplace_repeat_correct {V E} {api : PyApi V E} `{EqDecision V} (h : heap V E) its n :
  holds h its -> n * Zlen its <= RESIZE_MAX ->
  let res := copies (Z.to_nat n) its in
  wp (list_inplace_repeat n) (λ _ h', holds h' res ∧ accounts h its h' res) (no_memory h) h.
Proof.
  intros (l & lg & e & -> & Hv)%holds_view Hn res. subst res.
  apply (wp_inplace_repeat l its); [done|done| | |done].
  - intros l' e' H1 Hv'. split; [by apply view_holds|]. intros w. simpl.
    autorewrite with refs. replace (Z.to_nat n) with (S (Z.to_nat (n - 1))) by lia.
    simpl. autorewrite with refs. lia.
  - intros l' H1 Hv'. split; [by replace (Z.to_nat n) with O by lia; apply view_holds|].
    replace (Z.to_nat n) with O by lia. intros w. simpl. autorewrite with refs. lia.
Qed.
Lemma inplace_repeat_correct_witness :
  let h := int_heap [4; 5] in
  wp (list_inplace_repeat 2)
    (λ _ h', holds h' [4; 5; 4; 5] ∧ accounts h [4; 5] h' [4; 5; 4; 5]) (no_memory h) h.
Proof. apply (inplace_repeat_correct (int_heap [4; 5]) [4; 5] 2); [by apply int_holds|done]. Defined.

(** ** Overflow of the block size

    [list_resize] multiplies the number of slots by the size of a pointer
    without a check: 2^61 slots are a block of no bytes. *)
Definition ZERO_BYTES : Z := 2 ^ 61.
(** An allocation of no bytes succeeds, as [PyMem_Realloc] promises. *)
Definition grants_nothing {V E} (api : PyApi V E) : Prop := ∀ e, (py_malloc 0 e).1 = true.

Lemma list_resize_overflow {V E} {api : PyApi V E} l (its : list V) lg (e : E) :
  view l its -> grants_nothing api ->
  ∃ e', list_resize ZERO_BYTES (Heap l lg e) = Ret tt (Heap (ListObj (Some []) ZERO_BYTES ZERO_BYTES) lg e').
Proof.
  intros Hv Hz. pose proof (view_max _ _ Hv) as Hm. pose proof (Zlen_nonneg its).
  assert (allocated l < ZERO_BYTES ∧ ob_size l = Zlen its) as [Ha Hs].
  { destruct Hv; simpl; [done|]. rewrite MAX_ITEMS_val in *. unfold ZERO_BYTES. lia. }
  assert (growth ZERO_BYTES (ob_size l) = ZERO_BYTES) as Hg.
  { unfold growth. rewrite Hs.
    replace (round4 (ZERO_BYTES + Z.shiftr ZERO_BYTES 3 + 6)) with (2 ^ 61 + 2 ^ 58 + 4) by reflexivity.
    replace (_ <? _) with true; [reflexivity|]. symmetry. apply Z.ltb_lt.
    change (2 ^ 58 + 4 < ZERO_BYTES - Zlen its). rewrite MAX_ITEMS_val in Hm.
    unfold ZERO_BYTES. lia. }
  exists (py_malloc 0 e).2. unfold list_resize. run_step; [done|]. cbn [self].
  replace (ZERO_BYTES <=? allocated l) with false by (symmetry; apply Z.leb_gt; done).
  cbn [andb]. cbv zeta. rewrite Hg. change (size_t (ZERO_BYTES * SIZEOF_PTR)) with 0.
  pose proof (Hz e) as Hok. unfold PyMem_alloc, mbind, M_bind. simpl.
  destruct (py_malloc 0 e) as [ok e']. simpl in Hok. subst ok.
  done.
Qed.

(** Repeating a one-item list 2^61 times in place passes the overflow check of
    [list_inplace_repeat], gets a block of no bytes from [list_resize] and then
    reads and writes outside it. *)
Theorem inplace_repeat_overflow {V E} {api : PyApi V E} (h : heap V E) v :
  holds h [v] -> grants_nothing api -> list_inplace_repeat ZERO_BYTES h = Stuck.
Proof.
  intros (l & lg & e & -> & Hv)%holds_view Hz. unfold list_inplace_repeat.
  run_step; [done|]. cbn [self]. rewrite (view_size _ _ Hv).
  destruct (list_resize_overflow l [v] lg e Hv Hz) as [e' He'].
  change (Zlen [v]) with 1. change ((1 =? 0) || (ZERO_BYTES =? 1)) with false. cbv iota.
  change (ZERO_BYTES <? 1) with false. change (PY_SSIZE_T_MAX `div` ZERO_BYTES <? 1) with false.
  cbv iota. change (1 * ZERO_BYTES) with ZERO_BYTES. run_step; [exact He'|].
  replace (Z.to_nat (ZERO_BYTES - 1)) with (S (Z.to_nat (ZERO_BYTES - 2))) by (unfold ZERO_BYTES; lia).
  apply stuck_bind. reflexivity.
Qed.
Lemma inplace_repeat_overflow_witness : list_inplace_repeat ZERO_BYTES (int_heap [7]) = Stuck.
Proof. apply (inplace_repeat_overflow (int_heap [7]) 7); [by apply int_holds|by intros []]. Defined.

(** ** Extending *)

(** What a call of [extend] gets from its argument: the items, whether they
    come in a new list whose references end with it, and the state. *)
Inductive feeds {V E} `{PyApi V E} (h : heap V E) : extend_arg V E -> list V -> bool -> heap V E -> Prop :=
  | feeds_seq a vs fresh h1 : supplies h a vs fresh h1 -> feeds h (XSeq a) vs fresh h1
  | feeds_iter it Y vs : yields it Y -> Y vs (env h) -> feeds h (XIter it) vs false h.

(** C25. [extend] appends the items of a list, a tuple, the list itself or an
    iterator and takes a reference to each; when memory runs out on the way the
    list holds its items and a prefix of the new ones. *)
Theorem extend_correct {V E} {api : PyApi V E} `{EqDecision V} fuel arg (h h1 : heap V E) its vs fresh :
  feeds h arg vs fresh h1 -> holds h1 its -> Zlen (its ++ vs) <= RESIZE_MAX ->
  (length vs < fuel)%nat ->
  let temporary w := if fresh then occ w vs else 0 in
  wp (list_extend fuel arg)
    (λ _ h', holds h' (its ++ vs) ∧
       ∀ w, refs_taken w (log h') = refs_taken w (log h1) - temporary w + occ w vs)
    (λ e h', e = PyErr MemoryError no_msg ∧ ∃ vs1 vs2, vs = vs1 ++ vs2 ∧ holds h' (its ++ vs1)) h.
Proof.
  intros Hf Hh Hm Hfuel temporary. subst temporary.
  destruct Hf as [a vs fresh h1 Hs|it Y vs Hit Hy]; simpl list_extend.
  - destruct Hh as [Hw Hi]. pose proof (wf_view _ Hw) as Hv. rewrite Hi in Hv.
    eapply (wp_extend_seq h h1 a its vs fresh); [done|done|done| |].
    + intros l' e' Hv'. destruct (view_wf _ _ Hv') as [Hw' _].
      split; [destruct fresh; by apply view_holds|].
      intros w. destruct fresh; simpl; autorewrite with refs; lia.
    + intros e' lg _. split; [done|]. exists [], vs. by rewrite app_nil_r.
  - destruct (holds_view _ _ Hh) as (l & lg & e & -> & Hv).
    eapply wp_conseq; [by eapply wp_quiet_extend|..]; simpl.
    + intros _ [l' lg' e'] [Hv' Hb]. split; [by apply view_holds|].
      intros w. specialize (Hb w). simpl in *. autorewrite with refs in Hb. lia.
    + intros x [l' lg' e'] (-> & vs1 & vs2 & -> & Hv' & _). split; [done|].
      exists vs1, vs2. split; [done|]. by apply view_holds.
Qed.
Lemma extend_correct_witness :
  let h := int_heap [4] in
  wp (list_extend 3 (XSeq ASelf))
    (λ _ h', holds h' [4; 4] ∧
       ∀ w, refs_taken w (log h') = refs_taken w [Incref 4] - occ w [4] + occ w [4])
    (λ e h', e = PyErr MemoryError no_msg ∧ ∃ vs1 vs2, [4] = vs1 ++ vs2 ∧ holds h' ([4] ++ vs1)) h.
Proof.
  apply (extend_correct 3 (XSeq ASelf) (int_heap [4]) (Heap (self (int_heap [4])) [Incref 4] tt) [4] [4] true).
  - constructor. exact (supplies_self (int_heap [4])).
  - by apply view_holds, (view_block [4] []).
  - done.
  - simpl. lia.
Defined.

(** C24. Whatever the iterator's code does to the list between two items, as long
    as the list stays in shape and the length hint is below 2^59, [extend]
    performs no access outside a block and leaves a list in shape. *)
Theorem extend_any_iterator {V E} {api : PyApi V E} it fuel (h : heap V E) :
  iter_keeps (λ _, True) (λ _, True) it -> list_wf (self h) ->
  wpo True (list_extend_iter fuel it) (λ _ h', list_wf (self h')) (λ _ h', list_wf (self h')) h.
Proof.
  intros Hit Hw. eapply wp_conseq.
  - apply (stays_list_extend_iter _ _ _ Hit fuel (λ _ _, I)). split; [done|]. by apply Forall_true.
  - by intros _ h' [? _].
  - by intros _ h' [? _].
Qed.
(** An iterator whose [__next__] clears the list. *)
Definition clearing_iterator : iterable Z unit :=
  Iterable (λ h, (None, h)) (λ h, (inr 8, h))
    (λ h, (INext 5, Heap (ListObj None 0 0) (log h) tt)).
Lemma extend_any_iterator_witness :
  wpo True (list_extend_iter 9 clearing_iterator) (λ _ h', list_wf (self h'))
    (λ _ h', list_wf (self h')) (int_heap [1; 2]).
Proof.
  apply (extend_any_iterator clearing_iterator 9 (int_heap [1; 2])).
  - by split.
  - by vm_compute.
Defined.

(** A length hint of 2^61 minus the size of the list makes [list_resize] return
    a block of no bytes for a list that still has its old size; the first item
    of the iterator is then written outside it. *)
Theorem extend_hint_overflow {V E} {api : PyApi V E} it (h : heap V E) its v fuel :
  holds h its -> 0 < Zlen its -> grants_nothing api ->
  (∀ h, it_get it h = (None, h)) -> (∀ h, it_hint it h = (inr (ZERO_BYTES - Zlen its), h)) ->
  (∀ h, it_next it h = (INext v, h)) ->
  list_extend_iter (S fuel) it h = Stuck.
Proof.
  intros (l & lg & e & -> & Hv)%holds_view Hp Hz Hget Hhint Hnext.
  pose proof (view_max _ _ Hv) as Hm. rewrite MAX_ITEMS_val in Hm.
  destruct (list_resize_overflow l its lg e Hv Hz) as [e' He'].
  unfold list_extend_iter, PyObject_GetIter, PyObject_LengthHint.
  run_step; [by rewrite Hget|]. run_step; [by rewrite Hhint|]. run_step; [done|].
  cbn [self]. rewrite (view_size _ _ Hv).
  replace (PY_SSIZE_T_MAX - (ZERO_BYTES - Zlen its) <? Zlen its) with false
    by (symmetry; apply Z.ltb_ge; unfold PY_SSIZE_T_MAX, ZERO_BYTES; lia).
  run_step.
  { run_step; [done|]. destruct (view_pos _ _ Hv Hp) as (slack & -> & _). cbn [self ob_item lobj].
    unfold make_room. replace (Zlen its + (ZERO_BYTES - Zlen its)) with ZERO_BYTES by lia.
    run_step; [exact He'|]. done. }
  apply stuck_bind. simpl extend_loop. run_step; [unfold iternext; by rewrite Hnext|].
  apply stuck_bind. unfold extend_item. run_step; [done|]. cbn [self ob_size allocated with_size add_event].
  cbn [self set_self ob_size allocated with_size].
  replace (Zlen its <? ZERO_BYTES) with true by (symmetry; apply Z.ltb_lt; unfold ZERO_BYTES; lia).
  apply stuck_bind. unfold item_set. run_step; [done|]. apply stuck_bind. simpl.
  unfold aset. case_decide; [zlia|done].
Qed.
Definition lying_iterator : iterable Z unit :=
  Iterable (λ h, (None, h)) (λ h, (inr (ZERO_BYTES - 1), h)) (λ h, (INext 5, h)).
Lemma extend_hint_overflow_witness : list_extend_iter 1 lying_iterator (int_heap [7]) = Stuck.
Proof.
  apply (extend_hint_overflow lying_iterator (int_heap [7]) [7] 5 0); try done.
Defined.
