(* ===== verification/ListSearchClaims.v ===== *)
(** * The correctness of searching, comparing, subscripts, iterators, the object
    cache and the integer check *)

From stdpp Require Import base list numbers strings gmap sets relations.
From S2P Require Import Prelude PyHeap ListCore ListView ListSpec ListAssign ListExtend ListQuery ListQuerySpec.
From S2P Require Import ListSubscript ListSubscriptSpec ListIter ListFree TypeCheck IntObjects ListClaims.

(** ** Searching *)

(** The list, its items and the counts are as before. *)
Definition undisturbed {V E} `{EqDecision V} (h h' : heap V E) : Prop :=
  self h' = self h ∧ same_refs (log h) (log h').
(** The first item equal to [value] is at [i], before [stop]. *)
Definition first_at {V} (eqb : V -> V -> bool) (its : list V) value (start stop i : Z) : Prop :=
  ∃ a v b, its = a ++ v :: b ∧ i = Zlen a ∧ start <= i < stop ∧ eqb v value = true ∧
    Forall (λ w, eqb w value = false) (drop (Z.to_nat start) a).
Definition none_equal {V} (eqb : V -> V -> bool) (its : list V) value (start stop : Z) : Prop :=
  Forall (λ w, eqb w value = false) (take (Z.to_nat (stop - start)) (drop (Z.to_nat start) its)).

(** C31. With an [==] that decides [eqb], [in], [count] and [index] give the
    answers of the list: whether an item is equal, how many are the object or
    equal to it, and the first one between the bounds; when there is none, a
    ValueError that names the value by its repr, or what that repr raises.
    References taken during a comparison are given back. *)
Theorem search_correct {V E} {api : PyApi V E} `{EqDecision V} eqb fuel (h : heap V E) its value start stop :
  rich_eq eqb -> holds h its -> (length its < fuel)%nat ->
  let start' := index_bound start (Zlen its) in
  let stop' := index_bound stop (Zlen its) in
  wp (list_contains fuel value)
    (λ b h', b = existsb (λ v, eqb v value) its ∧ undisturbed h h') (λ _ _, False) h ∧
  wp (list_count fuel value)
    (λ n h', n = Zlen (filter (λ v, v = value ∨ eqb v value = true) its) ∧ undisturbed h h')
    (λ _ _, False) h ∧
  wp (list_index_impl fuel value start stop)
    (λ i h', first_at eqb its value start' stop' i ∧ undisturbed h h')
    (λ e h', ∃ h1, none_equal eqb its value start' stop' ∧ undisturbed h h1 ∧
       says_not_in_list value h1 e h') h.
Proof.
  intros Heq (l & lg & e & -> & Hv)%holds_view Hf start' stop'. subst start' stop'. split_and!.
  - apply (wp_contains eqb Heq its [] fuel l); [done|lia|]. by intros.
  - apply (wp_count eqb Heq its [] fuel l); [done|lia|]. by intros.
  - unfold list_index_impl. wp_step. apply wp_get_size. cbn [self]. rewrite (view_size _ _ Hv).
    assert (0 <= index_bound start (Zlen its)) as Hp.
    { unfold index_bound. destruct (start <? 0) eqn:E1; [destruct (start + Zlen its <? 0) eqn:E2|]; bool_to_prop; lia. }
    set (p := index_bound start _) in *. set (q := index_bound stop _).
    destruct (decide (p <= Zlen its)) as [Hle|Hgt].
    + pose proof (take_drop (Z.to_nat p) its) as Htd.
      assert (Zlen (take (Z.to_nat p) its) = p) as Hl by (by apply Zlen_take).
      rewrite <- Hl at 1. rewrite <- Htd in Hv.
      eapply (wp_index eqb Heq); [exact Hv|rewrite length_drop; lia| |].
      * intros b1 v b2 lg' e' Hb Hs Hv1 Hn Hr. split; [|done].
        exists (take (Z.to_nat p) its ++ b1), v, b2. rewrite Zlen_app, Hl in *. pose proof (Zlen_nonneg b1).
        split_and!; [|done|lia|lia|done|].
        -- by rewrite <- app_assoc, <- Hb, Htd.
        -- by rewrite drop_app_length' by (unfold Zlen in Hl; lia).
      * intros lg' e' x h' Hn Hr Hx. rewrite Hl in Hn. exists (Heap l lg' e'). split_and!; [done|by split|exact Hx].
    + destruct fuel as [|fuel]; [lia|]. simpl. wp_step. apply wp_get_size. cbn [self].
      rewrite (view_size _ _ Hv). replace (p <? Zlen its) with false by (symmetry; apply Z.ltb_ge; lia).
      rewrite andb_false_r. apply wp_not_in_list. intros x h' Hx.
      eexists. split_and!; [|by split|exact Hx].
      unfold none_equal. rewrite drop_ge by (unfold Zlen in Hgt; lia). by rewrite take_nil.
Qed.
Lemma int_rich_eq : rich_eq Z.eqb.
Proof. intros v w [l lg []]. by exists tt. Qed.
Lemma search_correct_witness :
  let h := int_heap [4; 5; 4] in
  wp (list_contains 4 4) (λ b h', b = true ∧ undisturbed h h') (λ _ _, False) h ∧
  wp (list_count 4 4)
    (λ n h', n = Zlen (filter (λ v, v = 4 ∨ (v =? 4) = true) [4; 5; 4]) ∧ undisturbed h h')
    (λ _ _, False) h ∧
  wp (list_index_impl 4 4 1 (-1)) (λ i h', first_at Z.eqb [4; 5; 4] 4 1 2 i ∧ undisturbed h h')
    (λ e h', ∃ h1, none_equal Z.eqb [4; 5; 4] 4 1 2 ∧ undisturbed h h1 ∧
       says_not_in_list 4 h1 e h') h.
Proof.
  apply (search_correct Z.eqb 4 (int_heap [4; 5; 4]) [4; 5; 4] 4 1 (-1)).
  - apply int_rich_eq.
  - by apply int_holds.
  - simpl. lia.
Defined.

(** [remove] takes out the first item equal to the value, and raises
    ValueError when there is none. *)
Theorem remove_correct {V E} {api : PyApi V E} `{EqDecision V} eqb fuel (h : heap V E) its value :
  rich_eq eqb -> holds h its -> (length its < fuel)%nat ->
  wp (list_remove fuel value)
    (λ _ h', ∃ a v b, its = a ++ v :: b ∧ eqb v value = true ∧
       Forall (λ w, eqb w value = false) a ∧ holds h' (a ++ b) ∧ accounts h its h' (a ++ b))
    (λ e h', undisturbed h h' ∧
       (e = PyErr ValueError "list.remove(x): x not in list" ∧ Forall (λ w, eqb w value = false) its ∨
        e = PyErr MemoryError no_msg)) h.
Proof.
  intros Heq (l & lg & e & -> & Hv)%holds_view Hf.
  apply (wp_remove eqb Heq its [] fuel l); [done|lia| | |].
  - intros a v b l' lg' e' -> Hveq Hn Hv' Hr. exists a, v, b. split_and!; try done; [by apply view_holds|].
    intros w. specialize (Hr w). simpl. rewrite !occ_app, occ_cons. case_decide; simpl in *; lia.
  - intros lg' e' Hn Hr. split; [by split|]. by left.
  - intros lg' e' Hr. split; [by split|]. by right.
Qed.
Lemma remove_correct_witness :
  let h := int_heap [4; 5; 4] in
  wp (list_remove 4 4)
    (λ _ h', ∃ a v b, [4; 5; 4] = a ++ v :: b ∧ (v =? 4) = true ∧
       Forall (λ w, (w =? 4) = false) a ∧ holds h' (a ++ b) ∧ accounts h [4; 5; 4] h' (a ++ b))
    (λ e h', undisturbed h h' ∧
       (e = PyErr ValueError "list.remove(x): x not in list" ∧
        Forall (λ w, (w =? 4) = false) [4; 5; 4] ∨ e = PyErr MemoryError no_msg)) h.
Proof.
  apply (remove_correct Z.eqb 4 (int_heap [4; 5; 4]) [4; 5; 4] 4).
  - apply int_rich_eq.
  - by apply int_holds.
  - simpl. lia.
Defined.

(** C32. Whatever the comparisons do to the list between two items, as long as
    it stays in shape, searching, counting, indexing and removing perform no
    access outside a block and leave it in shape. *)
Theorem search_safe {V E} {api : PyApi V E} `{EqDecision V} fuel value start stop (h : heap V E) :
  rich_keeps (λ _, True) -> list_wf (self h) ->
  let safe {A} (m : PM V E A) :=
    wpo True m (λ _ h', list_wf (self h')) (λ _ h', list_wf (self h')) h in
  safe (list_contains fuel value) ∧ safe (list_count fuel value) ∧
  safe (list_index_impl fuel value start stop) ∧ safe (list_remove fuel value).
Proof.
  intros Hk Hw safe.
  assert (∀ A (m : PM V E A), stays_good (λ _, True) m -> safe A m) as Hs.
  { intros A m Hm. eapply wp_conseq; [apply Hm; split; [done|by apply Forall_true]|..];
      by intros ? h' [? _]. }
  split_and!; apply Hs.
  - by apply stays_contains_loop.
  - by apply stays_count_loop.
  - intros h1 Hg. unfold list_index_impl. wp_step. apply wp_get_size.
    apply stays_index_loop; [done| |done]. unfold index_bound.
    destruct (start <? 0) eqn:E1; [destruct (start + ob_size (self h1) <? 0) eqn:E2|]; bool_to_prop; lia.
  - by apply stays_remove_loop.
Qed.
Lemma search_safe_witness :
  let h := int_heap [4; 5] in
  let safe {A} (m : PM Z unit A) :=
    wpo True m (λ _ h', list_wf (self h')) (λ _ h', list_wf (self h')) h in
  safe (list_contains 9 4) ∧ safe (list_count 9 4) ∧ safe (list_index_impl 9 4 0 7) ∧
  safe (list_remove 9 4).
Proof. apply (search_safe 9 4 0 7 (int_heap [4; 5])); [by split; intros|by vm_compute]. Defined.

(** ** Comparing *)

(** What a rich comparison of two lists answers: when one is a prefix of the
    other their sizes decide, otherwise the first two items that differ. *)
Definition compare_spec {V} `{EqDecision V} (eqb : V -> V -> bool) (its wits : list V) (op : cmp_op) : option bool :=
  let n := first_diff eqb its wits in
  match drop n its, drop n wits with
  | _ :: _, _ :: _ => match op with Py_EQ => Some false | Py_NE => Some true | _ => None end
  | _, _ => Some (size_compare (Zlen its) (Zlen wits) op)
  end.

Definition compare_answer {V E} `{EqDecision V} eqb (its wits : list V) op
    (compare : V -> V -> cmp_op -> PM V E V) (h : heap V E) (r : @compare_result V) (h' : heap V E) : Prop :=
  match compare_spec eqb its wits op with
  | Some b => r = RBool b ∧ undisturbed h h' ∧ (op = Py_EQ -> b = same_items eqb its wits)
  | None => ∃ n v w o h1, first_diff eqb its wits = n ∧ its !! n = Some v ∧ wits !! n = Some w ∧
      undisturbed h h1 ∧ compare v w op h1 = Ret o h' ∧ r = RObject o
  end.

(** C33. Comparing with another list answers by [compare_spec]; where the order of
    two items decides it is their own comparison that is returned, and [==]
    holds exactly for lists of the same length with pairwise same items. *)
Theorem richcompare_correct {V E} {api : PyApi V E} `{EqDecision V} eqb compare wl wlist wits fuel op
    (h : heap V E) its :
  rich_eq eqb -> holds h its -> list_wf wlist -> items wlist = wits ->
  (∀ lg e, wl (Heap (self h) lg e) = wlist) -> (length its < fuel)%nat ->
  (∀ v w o h', ∃ r h'', compare v w o h' = Ret r h'') ->
  wp (list_richcompare compare wl fuel true op)
    (compare_answer eqb its wits op compare h) (λ _ _, False) h.
Proof.
  intros Heq (l & lg & e & -> & Hv)%holds_view Hw <- Hwl Hf Hc.
  apply (wp_list_richcompare eqb Heq compare wl l wlist its (items wlist) Hv); [by apply wf_view|done|done|].
  intros lg' e' Hr. unfold compare_answer, compare_spec.
  pose proof (same_items_diff eqb its (items wlist)) as Hsame.
  pose proof (first_diff_le eqb its (items wlist)) as [Hle1 Hle2].
  set (n := first_diff eqb its (items wlist)) in *.
  destruct (drop n its) as [|v vs] eqn:Ev; [|destruct (drop n (items wlist)) as [|w ws] eqn:Ew].
  - split_and!; [done|done|]. intros ->. rewrite Hsame. simpl.
    apply (f_equal length) in Ev. rewrite length_drop in Ev. simpl in Ev.
    by rewrite bool_decide_true, andb_true_r by lia.
  - split_and!; [done|done|]. intros ->. rewrite Hsame. simpl.
    apply (f_equal length) in Ev, Ew. rewrite length_drop in Ev, Ew. simpl in Ev, Ew.
    rewrite bool_decide_false, andb_false_r by lia. apply Z.eqb_neq. unfold Zlen. lia.
  - assert (its !! n = Some v ∧ items wlist !! n = Some w) as [H1 H2].
    { rewrite <- (Nat.add_0_r n), <- !lookup_drop, Ev, Ew. done. }
    assert (same_items eqb its (items wlist) = false) as Hne.
    { rewrite Hsame, bool_decide_false; [apply andb_false_r|].
      apply (f_equal length) in Ev. rewrite length_drop in Ev. simpl in Ev. lia. }
    destruct op; try (by split_and!); unfold wpo;
      match goal with |- match compare ?v ?w ?o ?h' with _ => _ end =>
        destruct (Hc v w o h') as (r & h'' & Hrun) end; rewrite Hrun;
      exists n, v, w, r, (Heap l lg' e'); split_and!; try done; by split.
Qed.
Lemma richcompare_correct_witness :
  wp (list_richcompare (λ v w _, mret (v - w)) (λ _, lobj [4; 7] []) 3 true Py_LT)
    (compare_answer Z.eqb [4; 5] [4; 7] Py_LT (λ v w _, mret (v - w)) (int_heap [4; 5]))
    (λ _ _, False) (int_heap [4; 5]).
Proof.
  apply (richcompare_correct Z.eqb (λ v w _, mret (v - w)) (λ _, lobj [4; 7] []) (lobj [4; 7] [])
           [4; 7] 3 Py_LT (int_heap [4; 5]) [4; 5]).
  - apply int_rich_eq.
  - by apply int_holds.
  - by vm_compute.
  - done.
  - done.
  - simpl. lia.
  - intros v w o h'. by eexists _, _.
Defined.

(** ** Iterators *)

(** A new iterator over the list of [h]. *)
Definition fresh_iter {V E} (forward : bool) (h : heap V E) : listiter :=
  ListIter (if forward then 0 else ob_size (self h) - 1) true.

(** C34. From a new iterator, after any sequence of calls of [next] and
    [__setstate__] between which other code puts any list in shape in the place
    of this one, [next] stays inside the list and changes only reference
    counts; once exhausted the iterator stays exhausted. *)
Theorem iterator_safe {V E} {api : PyApi V E} forward (h : heap V E) s :
  list_wf (self h) -> rtc (iter_step forward) (h, fresh_iter forward h) s ->
  wp (next_of forward s.2)
    (λ '(r, it') h', self h' = self s.1 ∧ list_wf (self h') ∧ (r = None -> it_live it' = false) ∧
       (it_live s.2 = false -> r = None ∧ it' = s.2))
    (λ _ _, False) s.1.
Proof.
  intros Hw Hr. assert (iter_inv forward s) as Hi.
  { assert (iter_inv forward (h, fresh_iter forward h)) as H0.
    { split; [done|]. unfold fresh_iter. simpl. pose proof (view_size _ _ (wf_view _ Hw)) as Hs.
      pose proof (Zlen_nonneg (items (self h))). destruct forward; lia. }
    by apply (rtc_preserves _ _ _ _ (iter_step_inv forward) Hr). }
  destruct s as [h1 it]. eapply wp_next_of; [exact Hi|].
  intros r it' h' [Hw' _] Hsame Hn Hl. done.
Qed.
Lemma iterator_safe_witness :
  wp (next_of true (ListIter 1 true))
    (λ '(r, it') h', self h' = self (int_heap [8; 9]) ∧ list_wf (self h') ∧
       (r = None -> it_live it' = false) ∧ (true = false -> r = None ∧ it' = ListIter 1 true))
    (λ _ _, False) (int_heap [8; 9]).
Proof.
  apply (iterator_safe true (int_heap [4]) (int_heap [8; 9], ListIter 1 true)).
  - by vm_compute.
  - eapply (rtc_l _ _ (Heap (self (int_heap [4])) [Incref 4] tt, ListIter 1 true)).
    + by apply (step_next true (int_heap [4]) (ListIter 0 true) (Some 4)).
    + apply rtc_once, step_other. by vm_compute.
Defined.

(** C35. Iterating over a list nobody changes yields its items in order, backwards
    for [reversed], with a reference to each, and then stops. *)
Theorem iterator_complete {V E} {api : PyApi V E} forward fuel (h : heap V E) its :
  holds h its -> (length its < fuel)%nat ->
  let vs := if forward : bool then its else reverse its in
  wp (collect (next_of forward) fuel (fresh_iter forward h))
    (λ '(r, it) h', r = vs ∧ it_live it = false ∧ self h' = self h ∧ log h' = took vs (log h))
    (λ _ _, False) h.
Proof.
  intros (l & lg & e & -> & Hv)%holds_view Hf vs. subst vs.
  unfold fresh_iter. cbn [self]. rewrite (view_size _ _ Hv). destruct forward.
  - by apply (wp_collect its [] fuel l).
  - apply (wp_collect_reversed its [] fuel l); [by rewrite app_nil_r|done|]. done.
Qed.
Lemma iterator_complete_witness :
  wp (collect (next_of false) 4 (ListIter 2 true))
    (λ '(r, it) h', r = [6; 5; 4] ∧ it_live it = false ∧ self h' = self (int_heap [4; 5; 6]) ∧
       log h' = took [6; 5; 4] [])
    (λ _ _, False) (int_heap [4; 5; 6]).
Proof.
  apply (iterator_complete false 4 (int_heap [4; 5; 6]) [4; 5; 6]); [by apply int_holds|simpl; lia].
Defined.

(** ** The object cache *)

(** C36. However the program allocates, deallocates and clears, an object is never
    in the free list twice nor there while in use, the list never holds more
    than its 80 entries, and [chklist_alloc] returns an object that is not in
    use; it fails only when the free list is empty and so is the memory. *)
Theorem free_list_safe s new_object :
  rtc free_step start_state s ->
  (∀ op, new_object = Some op -> op ∉ live s ∧ op ∉ spare s) ->
  free_inv s ∧
  wp (chklist_alloc new_object)
    (λ op s', op ∉ live s ∧ live s' = {[ op ]} ∪ live s ∧ free_inv s')
    (λ e s', e = PyErr MemoryError no_msg ∧ s' = s ∧ numfree s = 0 ∧ new_object = None) s.
Proof.
  intros Hr Hnew. assert (free_inv s) as Hi.
  { by apply (rtc_preserves _ _ _ _ free_step_inv Hr), start_inv. }
  split; [done|]. by apply wp_chklist_alloc.
Qed.
Lemma free_list_safe_witness :
  let s := FreeState 0 (<[0%nat := 7]> (replicate 80 0)) 1 ∅ in
  free_inv s ∧
  wp (chklist_alloc None)
    (λ op s', op ∉ live s ∧ live s' = {[ op ]} ∪ live s ∧ free_inv s')
    (λ e s', e = PyErr MemoryError no_msg ∧ s' = s ∧ numfree s = 0 ∧ @None Z = None) s.
Proof.
  apply (free_list_safe (FreeState 0 (<[0%nat := 7]> (replicate 80 0)) 1 ∅) None).
  - eapply (rtc_l _ _ (FreeState 0 (replicate 80 0) 0 {[ 7 ]})).
    + apply (step_alloc start_state (Some 7) 7); [|done].
      intros op [= <-]. split; simpl; set_solver.
    + apply rtc_once, (step_dealloc _ 7); [simpl; set_solver|]. by vm_compute.
  - done.
Defined.

(** Only the main interpreter has a free list: elsewhere allocating and
    deallocating a checked list dereference NULL, although clearing the cache
    checks for it. *)
Theorem subinterpreter_null s new_object op :
  interp_id s ≠ 0 ->
  chklist_alloc new_object s = Stuck ∧ chklist_dealloc op s = Stuck ∧
  _PyCheckedList_ClearCaches s = Ret [] s.
Proof.
  intros Hs. unfold chklist_alloc, chklist_dealloc, list_dealloc, _PyCheckedList_ClearCaches.
  assert (get_list_state s = Ret false s) as Hg.
  { unfold get_list_state. unfold mbind, M_bind. simpl. f_equal. by apply Z.eqb_neq. }
  split_and!.
  - run_step; [exact Hg|]. done.
  - run_step; [exact Hg|]. done.
  - run_step; [exact Hg|]. done.
Qed.
Lemma subinterpreter_null_witness :
  let s := FreeState 1 [] 0 ∅ in
  chklist_alloc None s = Stuck ∧ chklist_dealloc 5 s = Stuck ∧ _PyCheckedList_ClearCaches s = Ret [] s.
Proof. by apply (subinterpreter_null (FreeState 1 [] 0 ∅) None 5). Defined.

(** ** Integers of a fixed width *)

(** The masks of [_PyClassLoader_OverflowCheck] accept exactly the integers of
    the type, for 8, 16, 32 and 64 bits, signed and unsigned, and store them in
    two's complement. *)
Theorem overflow_check_range code signed x :
  0 <= code <= 3 ->
  let bits := width code in
  let lo := if signed : bool then - 2 ^ (bits - 1) else 0 in
  let hi := if signed : bool then 2 ^ (bits - 1) else 2 ^ bits in
  _PyClassLoader_OverflowCheck x (typed_int code signed) =
  if (lo <=? x) && (x <? hi) then Some (size_t x) else None.
Proof.
  intros Hc bits lo hi. subst bits lo hi. destruct signed; [by apply overflow_signed|].
  rewrite overflow_unsigned by done. destruct (_ && _) eqn:E; [|done]. f_equal.
  apply andb_prop in E as [E1 E2]. bool_to_prop. symmetry. apply size_t_small.
  assert (2 ^ width code <= SIZE_T_MOD); [|lia].
  assert (code = 0 ∨ code = 1 ∨ code = 2 ∨ code = 3) as [-> | [-> | [-> | ->]]] by lia; done.
Qed.
Lemma overflow_check_range_witness :
  _PyClassLoader_OverflowCheck (-128) (typed_int 0 true) = Some (size_t (-128)) ∧
  _PyClassLoader_OverflowCheck 128 (typed_int 0 true) = None ∧
  _PyClassLoader_OverflowCheck 65535 (typed_int 1 false) = Some 65535.
Proof.
  split_and!; [apply (overflow_check_range 0 true)|apply (overflow_check_range 0 true)|
    apply (overflow_check_range 1 false)]; lia.
Defined.
