(* ===== verification/ListSubscriptClaims.v ===== *)
(** * The correctness of subscripts: one meaning for every kind of slice

    [list_subscript] and [list_ass_subscript] treat empty slices, slices of
    step one and extended slices by different code.  The theorems give all of
    them the same meaning: the items at the positions of the slice. *)

From stdpp Require Import base list numbers strings sets.
From S2P Require Import Prelude PyHeap ListCore ListView ListSpec ListAssign ListExtend ListQuerySpec ListSubscript.
From S2P Require Import ListSubscriptSpec IntObjects ListClaims.

Section pick.
Context {V : Type}.
Implicit Types (its vs : list V).

Lemma positions_nil start step n : n <= 0 -> positions start step n = [].
Proof. intros Hn. unfold positions, seqZ. by replace (Z.to_nat n) with O by lia. Qed.
Lemma sub_cons its i j v :
  0 <= i < j -> its !! Z.to_nat i = Some v -> sub its i j = v :: sub its (i + 1) j.
Proof.
  intros Hi Hv. unfold sub. rewrite (drop_S _ v) by done.
  replace (Z.to_nat (j - i)) with (S (Z.to_nat (j - (i + 1)))) by lia.
  by replace (Z.to_nat (i + 1)) with (S (Z.to_nat i)) by lia.
Qed.
(** A slice of step one is a segment. *)
Lemma pick_sub its n : ∀ start, 0 <= start -> start + Z.of_nat n <= Zlen its ->
  pick its (positions start 1 (Z.of_nat n)) = sub its start (start + Z.of_nat n).
Proof.
  induction n as [|n IH]; intros start Hs Hn.
  - rewrite positions_nil by lia. unfold sub. by rewrite Z.add_0_r, Z.sub_diag.
  - rewrite positions_S by lia. destruct (lookup_lt_is_Some_2 its (Z.to_nat start)) as [v Hv];
      [unfold Zlen in Hn; lia|].
    rewrite (sub_cons its start _ v) by (done || lia). unfold pick at 1. simpl. rewrite Hv.
    f_equal. replace (S n - 1)%nat with n by lia.
    replace (Z.of_nat (S n) - 1) with (Z.of_nat n) by lia.
    replace (start + Z.of_nat (S n)) with (start + 1 + Z.of_nat n) by lia. apply IH; lia.
Qed.

Lemma without_all off its pos :
  (∀ p, off <= p < off + Zlen its -> p ∈ pos) -> without off its pos = [].
Proof.
  revert off. induction its as [|v its IH]; intros off Hp; [done|]. simpl.
  rewrite decide_True by (apply Hp; zlia). apply IH. intros p Hq. apply Hp. zlia.
Qed.
Lemma without_segment its start n : 0 <= start -> 0 <= n -> start + n <= Zlen its ->
  without 0 its (positions start 1 n) = take (Z.to_nat start) its ++ drop (Z.to_nat (start + n)) its.
Proof.
  intros Hs Hn Hm. destruct (sub_split its start (start + n)) as (Heq & H1 & H2); [lia|lia|].
  rewrite Heq at 1. rewrite !without_app, H1, H2.
  rewrite without_none, without_all, without_none; [done|..].
  - intros p (k & Hk & ->)%elem_of_positions. lia.
  - intros p Hp. apply elem_of_positions. exists (p - start). lia.
  - intros p (k & Hk & ->)%elem_of_positions. lia.
Qed.

(** What [place] stores is what [pick] finds. *)
Lemma place_other its pos : ∀ vs q, 0 <= q -> (∀ p, p ∈ pos -> 0 <= p) -> q ∉ pos ->
  place its pos vs !! Z.to_nat q = its !! Z.to_nat q.
Proof.
  revert its. induction pos as [|p pos IH]; intros its [|v vs] q Hq Hp Hn; try done. simpl.
  rewrite IH; [|done|set_solver|set_solver]. apply list_lookup_insert_ne.
  assert (p ≠ q) by set_solver. assert (0 <= p) by set_solver. lia.
Qed.
Lemma pick_place its pos : ∀ vs, NoDup pos -> (∀ p, p ∈ pos -> 0 <= p < Zlen its) ->
  Zlen vs = Zlen pos -> pick (place its pos vs) pos = vs.
Proof.
  revert its. induction pos as [|p pos IH]; intros its [|v vs] Hnd Hp Hl; autorewrite with zlen in Hl;
    pose_zlen; try (done || lia).
  apply NoDup_cons in Hnd as [Hn Hnd]. unfold pick. simpl.
  assert (∀ q, q ∈ pos -> 0 <= q < Zlen (<[Z.to_nat p := v]> its)) as Hp'
    by (intros q Hq; autorewrite with zlen; apply Hp; set_solver).
  destruct (Hp p) as [Hp1 Hp2]; [set_solver|].
  rewrite place_other by (done || (intros q Hq; apply Hp'; done)).
  rewrite list_lookup_insert, decide_True by (unfold Zlen in Hp2; lia). f_equal.
  apply IH; [done|done|lia].
Qed.
End pick.

(** ** Slices *)

Section adjusted.
Context {sapi : SliceApi}.

(** What [PySlice_Unpack] promises, then [PySlice_AdjustIndices]. *)
Record adjusted {V} (its : list V) start0 stop0 step start stop n : Prop := {
  ad_step : step ≠ 0 ∧ - PY_SSIZE_T_MAX <= step <= PY_SSIZE_T_MAX;
  ad_eq : slice_adjust (Zlen its) start0 stop0 step = (start, stop, n)
}.
Lemma adjusted_ok {V} (its : list V) start0 stop0 step start stop n :
  adjusted its start0 stop0 step start stop n -> slice_ok its start stop step n.
Proof.
  intros [[H1 H2] H3]. apply slice_adjust_doc in H3 as (H4 & H5 & H6); [|apply Zlen_nonneg|done].
  by split.
Qed.
(** The [stop] that the assignments use. *)
Lemma adjusted_stop {V} (its : list V) start stop step n :
  slice_ok its start stop step n ->
  slice_ok its start (if ((step <? 0) && (start <? stop)) || ((0 <? step) && (stop <? start))
                      then start else stop) step n.
Proof.
  intros [Hs Hn Hu Hd]. split; [done|done|..]; intros Hst.
  - specialize (Hu Hst). replace (step <? 0) with false by (symmetry; apply Z.ltb_ge; lia). simpl.
    replace (0 <? step) with true by (symmetry; apply Z.ltb_lt; lia). simpl.
    destruct (stop <? start) eqn:E1; [|done]. bool_to_prop.
    destruct (n =? 0) eqn:E2; bool_to_prop; [lia|]. nia.
  - specialize (Hd Hst). replace (step <? 0) with true by (symmetry; apply Z.ltb_lt; lia).
    replace (0 <? step) with false by (symmetry; apply Z.ltb_ge; lia). rewrite orb_false_r. simpl.
    destruct (start <? stop) eqn:E1; [|done]. bool_to_prop.
    destruct (n =? 0) eqn:E2; bool_to_prop; [lia|]. nia.
Qed.
(** Slices of step one. *)
Lemma slice_one {V} (its : list V) start stop n :
  slice_ok its start stop 1 n -> 0 <= start ∧
  (n = 0 ∧ stop <= start ∧ start <= Zlen its ∨ 0 < n ∧ stop = start + n ∧ stop <= Zlen its).
Proof.
  intros [_ Hn Hu _]. specialize (Hu eq_refl). destruct (n =? 0) eqn:E; bool_to_prop; lia.
Qed.
(** What assigning to them does. *)
Lemma assigned_one {V} (its vs : list V) start stop n : slice_ok its start stop 1 n ->
  assigned its start stop vs = take (Z.to_nat start) its ++ vs ++ drop (Z.to_nat (start + n)) its ∧
  removed its start stop = pick its (positions start 1 n).
Proof.
  intros Hok. destruct (slice_one _ _ _ _ Hok) as [Hs Hn].
  pose proof (so_n _ _ _ _ _ Hok) as Hn1. rewrite <- (Z2Nat.id n) by lia. rewrite pick_sub by lia.
  rewrite Z2Nat.id by lia. unfold assigned, removed.
  replace (clip start stop (Zlen its)) with (start, start + n); [done|].
  unfold clip. replace (start <? 0) with false by (symmetry; apply Z.ltb_ge; lia).
  replace (Zlen its <? start) with false by (symmetry; apply Z.ltb_ge; lia).
  f_equal. destruct (stop <? start) eqn:E1; [bool_to_prop; lia|].
  destruct (Zlen its <? stop) eqn:E2; bool_to_prop; lia.
Qed.
End adjusted.

(** [PySlice_AdjustIndices] as its documentation describes it, for examples. *)
Definition clip_bound (size i step : Z) : Z :=
  if i <? 0 then (if i + size <? 0 then (if step <? 0 then -1 else 0) else i + size)
  else if size <=? i then (if step <? 0 then size - 1 else size) else i.
Definition clip_slice (size start0 stop0 step : Z) : Z * Z * Z :=
  let start := clip_bound size start0 step in
  let stop := clip_bound size stop0 step in
  (start, stop,
   if step <? 0 then (if stop <? start then (start - stop - 1) `div` (- step) + 1 else 0)
   else if start <? stop then (stop - start - 1) `div` step + 1 else 0).
Lemma clip_bound_ok size i step : 0 <= size ->
  if step <? 0 then -1 <= clip_bound size i step < size
  else 0 <= clip_bound size i step <= size.
Proof.
  intros Hs. unfold clip_bound.
  destruct (step <? 0), (i <? 0) eqn:E1, (i + size <? 0) eqn:E2, (size <=? i) eqn:E3;
    bool_to_prop; lia.
Qed.
Lemma slice_length gap step : 0 < gap -> 0 < step ->
  let n := (gap - 1) `div` step + 1 in
  0 < n <= gap ∧ (n - 1) * step < gap <= n * step.
Proof.
  intros Hg Hs n. subst n. pose proof (Z.div_mod (gap - 1) step ltac:(lia)).
  pose proof (Z.mod_pos_bound (gap - 1) step Hs).
  assert (0 <= (gap - 1) `div` step) by (apply Z.div_pos; lia). nia.
Qed.
Lemma clip_slice_doc size start0 stop0 step start stop n :
  0 <= size -> step ≠ 0 -> clip_slice size start0 stop0 step = (start, stop, n) ->
  0 <= n <= size ∧
  (0 < step -> 0 <= start <= size ∧ 0 <= stop <= size ∧
     if n =? 0 then stop <= start else start + (n - 1) * step < stop <= start + n * step) ∧
  (step < 0 -> -1 <= start < size ∧ -1 <= stop < size ∧
     if n =? 0 then start <= stop else start + n * step <= stop < start + (n - 1) * step).
Proof.
  intros Hs Hst [= <- <- <-]. pose proof (clip_bound_ok size start0 step Hs) as H1.
  pose proof (clip_bound_ok size stop0 step Hs) as H2.
  set (start := clip_bound size start0 step) in *. set (stop := clip_bound size stop0 step) in *.
  destruct (step <? 0) eqn:E1; bool_to_prop.
  - destruct (stop <? start) eqn:E2; bool_to_prop; [|split_and!; simpl; intros; lia].
    pose proof (slice_length (start - stop) (- step) ltac:(lia) ltac:(lia)) as [Hn Hb].
    set (n := _ + 1) in *. replace (n =? 0) with false by (symmetry; apply Z.eqb_neq; lia).
    split_and!; intros; nia.
  - destruct (start <? stop) eqn:E2; bool_to_prop; [|split_and!; simpl; intros; lia].
    pose proof (slice_length (stop - start) step ltac:(lia) ltac:(lia)) as [Hn Hb].
    set (n := _ + 1) in *. replace (n =? 0) with false by (symmetry; apply Z.eqb_neq; lia).
    split_and!; intros; nia.
Qed.
Definition clip_api : SliceApi := {| slice_adjust := clip_slice; slice_adjust_doc := clip_slice_doc |}.

Section claims.
Context {V E : Type} {api : PyApi V E} {sapi : SliceApi} `{EqDecision V}.

(** C28. [a[start:stop:step]] is a new list of the items at the positions of the
    slice, with a reference to each, whichever of the three ways of building it
    the code takes. *)
Theorem get_slice_correct unpack (h h1 : heap V E) its start0 stop0 step start stop n :
  unpack h = (inr (start0, stop0, step), h1) -> holds h1 its ->
  adjusted its start0 stop0 step start stop n ->
  let res := pick its (positions start step n) in
  wp (list_subscript (SSlice unpack))
    (λ r h', ∃ l, r = inr l ∧ list_wf l ∧ items l = res ∧ self h' = self h1 ∧
       log h' = took res (log h1))
    (no_memory h1) h.
Proof.
  intros Hun (l & lg & e & -> & Hv)%holds_view Had res. pose proof (adjusted_ok _ _ _ _ _ _ _ Had) as Hok.
  destruct Had as [_ Had]. simpl list_subscript. unfold run_index.
  wp_step. unfold wpo at 1. rewrite Hun. wp_step. apply wp_get_size. cbn [self].
  rewrite (view_size _ _ Hv), Had. pose proof (so_n _ _ _ _ _ Hok) as Hn.
  destruct (n <=? 0) eqn:E1; bool_to_prop.
  { wp_step. exists null_list. subst res. by rewrite positions_nil by lia. }
  destruct (step =? 1) eqn:E2; bool_to_prop.
  - subst step. destruct (slice_one _ _ _ _ Hok) as [Hs [Hn'|[_ [Hstop Hle]]]]; [lia|].
    assert (res = sub its start stop) as Hres.
    { subst res stop. rewrite <- (Z2Nat.id n) by lia. apply pick_sub; lia. }
    wp_step. apply (wp_list_slice l its); [done|done|lia| |done].
    intros r e' Hr. apply view_wf in Hr as [Hr1 Hr2]. wp_step. exists r. by rewrite Hres.
  - wp_step. apply (wp_get_ext l its start stop); [done|done|lia| |done].
    intros r e' Hr. apply view_wf in Hr as [Hr1 Hr2]. wp_step. by exists r.
Qed.

(** C29. [del a[start:stop:step]] leaves the items that are not at a position of the
    slice, in their order, for every step and sign, and gives up the list's
    references to the others, even when shrinking the block fails. *)
Theorem del_slice_any_step unpack (h h1 : heap V E) its start0 stop0 step start stop n :
  unpack h = (inr (start0, stop0, step), h1) -> holds h1 its ->
  adjusted its start0 stop0 step start stop n ->
  let res := without 0 its (positions start step n) in
  let removed h' := holds h' res ∧ accounts h1 its h' res in
  wp (list_ass_subscript (SSlice unpack) VDelete) (λ _, removed)
    (λ e h', e = PyErr MemoryError no_msg ∧
       (self h' = self h1 ∧ log h' = log h1 ∨ removed h')) h.
Proof.
  intros Hun (l & lg & e & -> & Hv)%holds_view Had res removed. subst removed.
  pose proof (adjusted_ok _ _ _ _ _ _ _ Had) as Hok.
  destruct Had as [_ Had]. simpl list_ass_subscript. unfold run_index.
  wp_step. unfold wpo at 1. rewrite Hun. wp_step. apply wp_get_size. cbn [self].
  rewrite (view_size _ _ Hv), Had. pose proof (so_n _ _ _ _ _ Hok) as Hn.
  destruct (step =? 1) eqn:E2; bool_to_prop.
  - subst step. destruct (slice_one _ _ _ _ Hok) as [Hs Hn'].
    assert (its ≡ₚ without 0 its (positions start 1 n) ++ pick its (positions start 1 n)) as Hperm.
    { apply without_pick; [by apply positions_NoDup|]. intros p (k & Hk & ->)%elem_of_positions. lia. }
    destruct (assigned_one its [] start stop n Hok) as [Hres Hrem].
    rewrite app_nil_l, <- without_segment in Hres by lia. fold res in Hres.
    rewrite <- Hres. apply (wp_del_slice l its); [done| |by intros e'; split; [done|left]].
    intros l' e' Hv'. split; [by apply view_holds|].
    rewrite Hrem. intros w. rewrite Hres. apply (occ_perm w) in Hperm.
    autorewrite with refs in Hperm. simpl. autorewrite with refs. subst res. lia.
  - cbv zeta. eapply (wp_del_ext l its); [done|by apply adjusted_stop| |].
    + intros l' vs e' Hv' Hperm.
      assert (accounts (Heap l lg e) its (Heap l' (released l' vs lg) e') res) as Ha.
      { intros w. apply (occ_perm w) in Hperm. autorewrite with refs in Hperm. simpl.
        autorewrite with refs. subst res. lia. }
      split; [|split; [done|right]]; (split; [by apply view_holds|done]).
    + intros e'. split; [done|]. by left.
Qed.

(** The outcome of storing [vs] at the positions of an extended slice, from a
    state with the items [its]. *)
Definition stored (h : heap V E) its start step n vs (fresh : bool) (h' : heap V E) : Prop :=
  let pos := positions start step n in
  let res := place its pos vs in
  Zlen vs = n ∧ holds h' res ∧ pick res pos = vs ∧
  (∀ q, 0 <= q -> q ∉ pos -> res !! Z.to_nat q = its !! Z.to_nat q) ∧
  ∀ w, refs_taken w (log h') =
    refs_taken w (log h) - (if fresh then occ w vs else 0) + occ w res - occ w its.
Definition not_stored its n (vs : list V) (e : pyexn) (h' : heap V E) : Prop :=
  holds h' its ∧
  (e = PyErr ValueError "attempt to assign sequence to extended slice" ∧ Zlen vs ≠ n ∨
   e = PyErr MemoryError no_msg).

Lemma holds_freed vs fresh (h : heap V E) its : holds h its -> holds (seq_freed vs fresh h) its.
Proof. by destruct fresh. Qed.
Lemma wp_store_slice l its start stop step n vs fresh lg e h0 :
  view l its -> slice_ok its start stop step n -> log h0 = lg ->
  wp (with_seq vs fresh (set_slice_items start step n vs))
    (λ _, stored h0 its start step n vs fresh) (not_stored its n vs) (Heap l lg e).
Proof.
  intros Hv Hok <-. pose proof (slice_in_range _ _ _ _ _ Hok) as Hr.
  assert (∀ p, p ∈ positions start step n -> 0 <= p < Zlen its) as Hp
    by (intros p (k & Hk & ->)%elem_of_positions; by apply Hr).
  apply wp_with_seq. destruct (decide (Zlen vs = n)) as [Hl|Hl].
  - apply (wp_set_items l its start stop); [done|done|done| |].
    + intros l' olds e' its' Hv' Hocc. subst its'. split; [done|]. split_and!; [by apply holds_freed, view_holds| | |].
      * apply pick_place; [|done|].
        -- apply positions_NoDup. by destruct Hok as [[? _] _ _ _].
        -- unfold positions. rewrite Zlen_fmap. unfold Zlen at 2. rewrite length_seqZ.
           pose proof (Zlen_nonneg vs). lia.
      * intros q Hq Hn. apply place_other; [done| |done]. intros p Hp'. by apply Hp.
      * intros w. specialize (Hocc w). destruct fresh; simpl; autorewrite with refs; lia.
    + intros e'. split; [by apply holds_freed, view_holds|by right].
  - apply wp_set_items_wrong; [done|]. split; [by apply holds_freed, view_holds|by left].
Qed.

(** C30. [a[start:stop:step] = value] stores the items of the value at the
    positions of the slice and changes nothing else, so that reading the slice
    gives them back; another number of items is a ValueError that leaves the
    list as it was. *)
Theorem set_slice_correct unpack obj a (h h1 h2 : heap V E) its vs fresh start0 stop0 step start stop n :
  unpack h = (inr (start0, stop0, step), h1) -> list_wf (self h1) ->
  supplies h1 a vs fresh h2 -> holds h2 its -> Zlen its = Zlen (items (self h1)) ->
  adjusted its start0 stop0 step start stop n -> step ≠ 1 ->
  wp (list_ass_subscript (SSlice unpack) (VObj obj a))
    (λ _, stored h2 its start step n vs fresh) (not_stored its n vs) h.
Proof.
  intros Hun Hw Hsup Hh Hlen Had Hst. pose proof (adjusted_ok _ _ _ _ _ _ _ Had) as Hok.
  destruct Had as [_ Had]. simpl list_ass_subscript. unfold run_index.
  wp_step. unfold wpo at 1. rewrite Hun. wp_step. apply wp_get_size.
  pose proof (wf_view _ Hw) as Hv1. rewrite (view_size _ _ Hv1), <- Hlen, Had.
  replace (step =? 1) with false by (symmetry; by apply Z.eqb_neq). cbv zeta.
  apply adjusted_stop in Hok. unfold set_slice. destruct Hh as [Hw2 Hi2].
  pose proof (wf_view _ Hw2) as Hv2. rewrite Hi2 in Hv2. destruct h1 as [l1 lg1 e1].
  destruct Hsup as [|vs|run vs h2 Hrun]; cbn [self log env] in *.
  - wp_step. wp_step. apply wp_get_size. cbn [self]. wp_step.
    apply (wp_list_slice l1 (items l1)); [done|lia|by rewrite (view_size _ _ Hv1)| |].
    + rewrite (view_size _ _ Hv1), sub_all. intros r e' Hr. wp_step.
      replace (items r) with (items l1) by (symmetry; by apply view_wf).
      rewrite <- Hi2 in *. by eapply wp_store_slice.
    + intros e'. split; [by split|by right].
  - wp_step. eapply wp_PySequence_Fast; [constructor| |done]. by eapply wp_store_slice.
  - wp_step. eapply wp_PySequence_Fast; [by constructor| |done]. by eapply wp_store_slice.
Qed.

(** The positions of an extended slice are computed before the value is
    iterated.  When that iteration empties the list, the stores go through the
    NULL block. *)
Theorem set_slice_stale unpack obj run (h h1 h2 : heap V E) vs start0 stop0 step start stop n :
  unpack h = (inr (start0, stop0, step), h1) -> list_wf (self h1) ->
  adjusted (items (self h1)) start0 stop0 step start stop n -> step ≠ 1 -> 0 < n ->
  run h1 = (inr vs, h2) -> Zlen vs = n -> self h2 = null_list ->
  (∀ e, (py_malloc (size_t (n * SIZEOF_PTR)) e).1 = true) ->
  list_ass_subscript (SSlice unpack) (VObj obj (AIterable run)) h = Stuck.
Proof.
  intros Hun Hw [_ Had] Hst Hn Hrun Hvs Hnull Hm.
  simpl list_ass_subscript. run_step; [unfold run_index; by rewrite Hun|]. cbv beta iota.
  run_step; [done|]. cbv beta. rewrite (view_size _ _ (wf_view _ Hw)), Had.
  replace (step =? 1) with false by (symmetry; by apply Z.eqb_neq). cbv zeta iota.
  unfold set_slice. run_step; [unfold PySequence_Fast; by rewrite Hrun|]. cbv beta iota.
  unfold with_seq. apply stuck_bind. unfold mtry.
  assert (set_slice_items start step n vs (Heap (self h2) (reverse (Incref <$> vs) ++ log h2) (env h2)) = Stuck)
    as ->; [|done].
  rewrite Hnull. unfold set_slice_items. rewrite Hvs, Z.eqb_refl. cbn [negb].
  replace (n =? 0) with false by (symmetry; apply Z.eqb_neq; lia). cbv iota.
  specialize (Hm (env h2)).
  assert (∃ e', py_malloc (size_t (n * SIZEOF_PTR)) (env h2) = (true, e')) as [e' He'].
  { destruct (py_malloc _ (env h2)) as [ok e']. simpl in Hm. subst ok. by exists e'. }
  run_step; [unfold PyMem_alloc; cbn [env]; by rewrite He'|].
  cbn [negb]. apply stuck_bind. destruct vs as [|w vs]; [change (0 = n) in Hvs; lia|]. done.
Qed.
End claims.

(** ** Examples *)
Definition clearing_run : heap Z unit -> (option pyexn + list Z) * heap Z unit :=
  λ h, (inr [7; 8], Heap null_list (log h) tt).
Definition every_second : heap Z unit -> (pyexn + Z * Z * Z) * heap Z unit := λ h, (inr (0, 9, 2), h).
Lemma every_second_adjusted : adjusted (sapi := clip_api) [4; 5; 6] 0 9 2 0 3 2.
Proof. by split. Qed.
Lemma get_slice_correct_witness :
  wp (list_subscript (sapi := clip_api) (SSlice every_second))
    (λ r h', ∃ l, r = inr l ∧ list_wf l ∧ items l = [4; 6] ∧ self h' = self (int_heap [4; 5; 6]) ∧
       log h' = took [4; 6] [])
    (no_memory (int_heap [4; 5; 6])) (int_heap [4; 5; 6]).
Proof.
  apply (get_slice_correct (sapi := clip_api) every_second (int_heap [4; 5; 6]) (int_heap [4; 5; 6])
           [4; 5; 6] 0 9 2 0 3 2).
  - done.
  - by apply int_holds.
  - apply every_second_adjusted.
Defined.
Lemma del_slice_any_step_witness :
  let h := int_heap [4; 5; 6] in
  let removed h' := holds h' [5] ∧ accounts h [4; 5; 6] h' [5] in
  wp (list_ass_subscript (sapi := clip_api) (SSlice every_second) VDelete) (λ _, removed)
    (λ e h', e = PyErr MemoryError no_msg ∧ (self h' = self h ∧ log h' = log h ∨ removed h')) h.
Proof.
  apply (del_slice_any_step (sapi := clip_api) every_second (int_heap [4; 5; 6]) (int_heap [4; 5; 6])
           [4; 5; 6] 0 9 2 0 3 2).
  - done.
  - by apply int_holds.
  - apply every_second_adjusted.
Defined.
Lemma set_slice_correct_witness :
  let h := int_heap [4; 5; 6] in
  wp (list_ass_subscript (sapi := clip_api) (SSlice every_second) (VObj 0 (ASeq [7; 8])))
    (λ _, stored h [4; 5; 6] 0 2 2 [7; 8] false) (not_stored [4; 5; 6] 2 [7; 8]) h.
Proof.
  apply (set_slice_correct (sapi := clip_api) every_second 0 (ASeq [7; 8]) (int_heap [4; 5; 6])
           (int_heap [4; 5; 6]) (int_heap [4; 5; 6]) [4; 5; 6] [7; 8] false 0 9 2 0 3 2).
  - done.
  - by vm_compute.
  - constructor.
  - by apply int_holds.
  - done.
  - apply every_second_adjusted.
  - done.
Defined.
Lemma set_slice_stale_witness :
  list_ass_subscript (sapi := clip_api) (SSlice every_second) (VObj 0 (AIterable clearing_run))
    (int_heap [4; 5; 6]) = Stuck.
Proof.
  apply (set_slice_stale (sapi := clip_api) every_second 0 clearing_run (int_heap [4; 5; 6])
           (int_heap [4; 5; 6]) (Heap null_list [] tt) [7; 8] 0 9 2 0 3 2).
  - done.
  - by vm_compute.
  - apply every_second_adjusted.
  - done.
  - done.
  - done.
  - done.
  - done.
  - done.
Defined.
