(* ===== verification/CheckedListClaims.v ===== *)
(** * What the element type of a checked list guarantees, and where it does not *)

From stdpp Require Import base list numbers strings relations.
From S2P Require Import Prelude PyHeap ListCore ListView ListSpec ListAssign ListExtend ListQuery ListQuerySpec.
From S2P Require Import ListSubscript ListSubscriptSpec TypeCheck SortSpec SortMem KeyCompare ListSort ListSortTop.
From S2P Require Import CheckedList CheckedListSafe IntObjects ListClaims ListSubscriptClaims.

(** C1. The operations that change a checked list (append, insert, extend, item
    and slice assignment, pop, clear, remove, reverse, sort, [+=], [*=],
    [sq_ass_item], initialisation and the append and item assignment of compiled
    code) and its searches keep the element type: after any sequence of them,
    successful or not, each called as [op_ok] asks, the list is in shape and all its items have the
    type, and the next such call stays inside the list's blocks and keeps it so.
    [op_ok] asks that code running during a call leaves the list good, that the
    operations that check nothing are given typed items, that
    sequences and length hints have at most 2^59 items and repetitions give at
    most 3 * 2^59, and that nothing is deleted by [del]; the effect of finalisers on the
    list is modelled in the sort only.  What happens otherwise is
    [inplace_concat_unchecked] and [delete_subscript_null] below,
    [set_slice_stale] and [extend_hint_overflow]. *)
Theorem checked_list_type_safe {V E} {api : PyApi V E} {kapi : KeyApi V E} {tapi : TypeApi V}
    {sapi : SliceApi} `{EqDecision V} param fuel (h0 h : heap V E) op :
  good (typed param) (self h0) -> rtc (chk_step param fuel) h0 h -> op_ok param h op ->
  good (typed param) (self h) ∧
  wpo True (run_op param fuel op) (λ _ h', good (typed param) (self h'))
    (λ _ h', good (typed param) (self h')) h.
Proof.
  intros Hg Hr Hok. assert (good (typed param) (self h)) as Hg'.
  { by apply (rtc_preserves _ (λ h, good (typed param) (self h)) _ _ (chk_step_good param fuel) Hr). }
  split; [done|]. by apply op_safe.
Qed.
(** The non-negative integers as an element type. *)
#[export] Instance int_tapi : TypeApi Z := {| Py_None := -1; PyObject_TypeCheck v ty := ty <=? v |}.
Lemma checked_list_type_safe_witness :
  let param := GParam 0 false in
  let api : SliceApi := clip_api in
  good (typed param) (self (Heap (lobj [3; 2] [0; 0]) [Incref 2] tt)) ∧
  wpo True (run_op param 9 (OpInsert 0 (-5)))
    (λ _ h', good (typed param) (self h'))
    (λ _ h', good (typed param) (self h')) (Heap (lobj [3; 2] [0; 0]) [Incref 2] tt).
Proof.
  intros param api.
  apply (checked_list_type_safe param 9 (Heap (lobj [3] [0; 0; 0]) [] tt)
    (Heap (lobj [3; 2] [0; 0]) [Incref 2] tt) (OpInsert 0 (-5))).
  - split; [by vm_compute|]. by repeat constructor.
  - apply rtc_once. by apply (step_ret param 9 (OpAppend 2) _ tt).
  - done.
Defined.

(** [copy] gives a new list of the same items with a reference to each. *)
Theorem chklist_copy_correct {V E} {api : PyApi V E} (h : heap V E) its :
  holds h its ->
  wp chklist_copy (λ r h', list_wf r ∧ items r = its ∧ self h' = self h ∧ log h' = took its (log h))
    (no_memory h) h.
Proof.
  intros (l & lg & e & -> & Hv)%holds_view. unfold chklist_copy, chklist_slice, Ci_CheckedList_New.
  pose proof (view_max _ _ Hv) as Hm. rewrite MAX_ITEMS_val in Hm. pose proof (Zlen_nonneg its).
  wp_step. apply wp_get_size. cbn [self]. rewrite (view_size _ _ Hv), Z.sub_0_r. cbv zeta.
  destruct (Zlen its =? 0) eqn:E1; bool_to_prop.
  { apply Zlen_0_inv in E1 as ->. repeat wp_step. apply wp_get_block. wp_step. by repeat wp_step. }
  wp_step. wp_step. unfold PyMem_New. rewrite size_t_small by (unfold SIZE_T_MOD; lia).
  destruct (_ <? _); [by apply wp_ret, wp_raise|].
  wp_step. apply wp_alloc. intros [] e'; apply wp_ret; [|by apply wp_raise].
  apply wp_ret. cbn [self log env]. wp_step. apply wp_get_block. cbn [ob_item default ob_size allocated].
  destruct (view_pos _ _ Hv) as (slack & -> & Hmx); [lia|]. cbn [self lobj ob_item default].
  wp_step. set (dest := replicate _ _).
  rewrite <- (app_nil_r dest). apply (wp_copy_refs its [] slack [] dest []); [unfold Zlen; lia|done|done| |].
  { unfold dest. zlia. }
  wp_step. simpl. rewrite app_nil_r, lobj_full, items_lobj. split_and!; try done.
  unfold list_wf. simpl. rewrite app_nil_r, MAX_ITEMS_val. zlia.
Qed.
Lemma chklist_copy_correct_witness :
  wp chklist_copy
    (λ r h', list_wf r ∧ items r = [4; 5] ∧ self h' = self (int_heap [4; 5]) ∧ log h' = took [4; 5] [])
    (no_memory (int_heap [4; 5])) (int_heap [4; 5]).
Proof. apply (chklist_copy_correct (int_heap [4; 5]) [4; 5]). by apply int_holds. Defined.

(** ** Where the type is not kept *)

(** [a += b] goes through [list_inplace_concat] and [list_extend], which check
    no types: a list of any objects extends a checked list. *)
Theorem inplace_concat_unchecked {V E} {api : PyApi V E} {tapi : TypeApi V} `{EqDecision V}
    param fuel (h : heap V E) its v :
  good (typed param) (self h) -> holds h its -> ¬ typed param v -> Zlen its < HINT_MAX ->
  wp (list_inplace_concat fuel (XSeq (ASeq [v])))
    (λ _ h', holds h' (its ++ [v]) ∧ ¬ good (typed param) (self h')) (λ e _, e = PyErr MemoryError no_msg) h.
Proof.
  intros Hg [Hw Hi] Hv Hm. pose proof (wf_view _ Hw) as Hl. rewrite Hi in Hl.
  apply (wp_extend_seq h h (ASeq [v]) its [v] false); [constructor|done| | |done].
  - unfold RESIZE_MAX, HINT_MAX in *. zlia.
  - intros l' e' Hl'. split; [by apply view_holds|]. simpl. apply view_wf in Hl' as [_ Hi'].
    intros [_ HT]. rewrite Hi' in HT. apply Forall_app in HT as [_ HT]. by inversion HT.
Qed.
Lemma inplace_concat_unchecked_witness :
  wp (list_inplace_concat 1 (XSeq (ASeq [-7])))
    (λ _ h', holds h' [4; -7] ∧ ¬ good (typed (GParam 0 false)) (self h'))
    (λ e _, e = PyErr MemoryError no_msg) (int_heap [4]).
Proof.
  apply (inplace_concat_unchecked (GParam 0 false) 1 (int_heap [4]) [4] (-7)).
  - split; [by vm_compute|]. by repeat constructor.
  - by apply int_holds.
  - done.
  - done.
Defined.

(** [del a[i]] and [del a[i:j]] of a checked list call [chklist_ass_subscript]
    with a NULL value, which it dereferences whatever the subscript. *)
Lemma delete_subscript_null {V E} {api : PyApi V E} {tapi : TypeApi V} {sapi : SliceApi} `{EqDecision V}
    inst item same (h : heap V E) :
  chklist_ass_subscript inst item same VDelete h = Stuck.
Proof. reflexivity. Qed.

(** For [CheckedList[Optional[T]]] where None is not a [T], [extend] accepts
    None but [append] and [insert] refuse it: the check of a single argument
    looks at the signature element instead of the type parameter. *)
Theorem none_not_appendable {V E} {api : PyApi V E} {tapi : TypeApi V} `{EqDecision V}
    ty index fuel (h : heap V E) its :
  PyObject_TypeCheck Py_None ty = false -> holds h its -> Zlen its < HINT_MAX ->
  let param := GParam ty true in
  let refused := Exn (PyErr StaticTypeError "argument expected another type") h in
  chklist_append_wrapper [param] Py_None h = refused ∧
  list_insert_wrapper [param] index Py_None h = refused ∧
  wp (chklist_extend [param] fuel false (XSeq (ASeq [Py_None])))
    (λ _ h', holds h' (its ++ [Py_None])) (λ e _, e = PyErr MemoryError no_msg) h.
Proof.
  intros Hn [Hw Hi] Hm param refused.
  assert (_PyClassLoader_CheckOneArg [param] Py_None Ci_Py_Sig_T0 h = refused) as Hc.
  { unfold _PyClassLoader_CheckOneArg. rewrite andb_false_r.
    run_step; [reflexivity|]. cbn [gtp_type param]. by rewrite Hn. }
  split_and!; [unfold chklist_append_wrapper, mbind, M_bind; by rewrite Hc|
    unfold list_insert_wrapper, mbind, M_bind; by rewrite Hc|].
  unfold chklist_extend, chklist_extend_seq. wp_step. apply wp_ret. cbv beta iota zeta.
  change (Zlen [Py_None] =? 0) with false. cbv iota. wp_step. apply wp_get_size.
  pose proof (wf_view _ Hw) as Hl. rewrite Hi in Hl. rewrite (view_size _ _ Hl).
  apply wp_with_seq. wp_step. simpl chklist_checkitems. wp_step.
  unfold chklist_checkitem, _PyClassLoader_CheckParamType. wp_step. wp_step. eapply wp_lift; [done|].
  wp_step. unfold param_ok. rewrite bool_decide_true by done. cbn [gtp_optional andb orb]. repeat wp_step.
  apply wp_bind, wp_assert; [apply Z.ltb_lt; unfold PY_SSIZE_T_MAX, HINT_MAX in *; zlia|].
  wp_step. destruct h as [l lg e].
  apply (wp_grow_by l its); [done|zlia|unfold RESIZE_MAX, HINT_MAX in *; zlia| |zlia|done].
  intros x slack e' Hx Hs. right. apply wp_store_items; [done|done|]. simpl.
  replace (ListObj _ _ _) with (lobj (its ++ [Py_None]) slack)
    by (unfold lobj; rewrite <- app_assoc; f_equal; zlia).
  apply view_holds. constructor. zlia.
Qed.
Lemma none_not_appendable_witness :
  let refused := Exn (PyErr StaticTypeError "argument expected another type") (int_heap [4]) in
  chklist_append_wrapper [GParam 0 true] Py_None (int_heap [4]) = refused ∧
  list_insert_wrapper [GParam 0 true] 0 Py_None (int_heap [4]) = refused ∧
  wp (chklist_extend [GParam 0 true] 1 false (XSeq (ASeq [Py_None])))
    (λ _ h', holds h' [4; Py_None]) (λ e _, e = PyErr MemoryError no_msg) (int_heap [4]).
Proof. apply (none_not_appendable 0 0 1 (int_heap [4]) [4]); [done|by apply int_holds|done]. Defined.
