(* ===== verification/DictClaims.v ===== *)
(** * The correctness of checked dicts

    The theorems on [checked_dict.c] as a whole, for an interpreter in which
    comparing, hashing and releasing objects does not change dicts, each with
    an instance on the small interpreter of [DictDemo]. *)

From stdpp Require Import base list gmap numbers strings sets.
From S2P Require Import Prelude TypeCheck DictProbe DictObject DictCore DictTable DictWf DictResize DictHeap DictGrow.
From S2P Require Import DictSpec DictOps DictDelete CheckedDict DictQuery DictFree DictUpdate DictMerge DictIter.
From S2P Require Import DictIterSpec DictSafe DictRefine DictDemo.

Section claims.
Context {V E : Type} {api : DictApi V E} {tapi : TypeApi V} `{EqDecision V}.
Context {keq : V -> V -> bool} {khash : V -> option Z}.
Abbreviation dict_is := (@dict_is V E api keq khash).
Abbreviation updated := (@updated V E api EqDecision0 keq khash).

(** C2. Any sequence of operations on a checked dict answers what it answers on
    the association list in insertion order, except that an operation that
    runs out of memory changes nothing.  Nothing but the dict and its table
    changes, the references taken are those of the items and of the answers, and
    the consistency check of the code passes afterwards. *)
Theorem checked_dict_refines (Hwb : well_behaved keq khash) fuel mp ops (h : dheap V E) its :
  dict_is h mp its -> (0 < fuel)%nat ->
  wp (run_ops fuel mp ops)
    (λ rs h', ∃ its', updated mp h h' its' (all_given rs) ∧
       follows keq khash ops (pairs its) rs (pairs its') ∧
       Ci_CheckedDict_CheckConsistency mp false h' = Ret true h')
    (λ _ _, False) h.
Proof.
  intros Hd Hf. eapply wp_conseq; [by apply (ops_sim Hwb fuel mp ops h its)| |done].
  intros rs h' (its' & Hu & Hfo). exists its'. split_and!; [done|done|].
  apply (consistent_run (keq := keq) (khash := khash) mp h' its'); [apply Hu|done].
Qed.

(** C3. Let all objects of type K be hashable.  A method of [CheckedDict[K, V]] that
    looks items up, stores, removes or copies them ([setdefault] with a
    default; [fromkeys] on the class itself), or the function that compiled code
    calls for it with arguments of the types, leaves a well-formed dict with
    keys of type K and values of type V, and so is a dict it makes; it changes
    nothing else, whether it succeeds or fails.  The mappings and iterators
    that [update] and [fromkeys] go through give or raise anything, but what
    they run leaves dicts alone.  [unhashable_key_is_stored] below shows what
    happens without the first condition, [setdefault_stores_none] without the
    default. *)
Theorem checked_dict_typed (Hwb : well_behaved keq khash) kparam vparam steps fuel mp c (h : dheap V E) :
  (∀ v, param_ok kparam v = true -> khash v ≠ None) ->
  (0 < fuel)%nat -> typed_dict (keq := keq) (khash := khash) kparam vparam h mp ->
  call_ok (keq := keq) (khash := khash) kparam vparam h c ->
  wpo True (run_call kparam vparam steps fuel mp c)
    (call_kept (keq := keq) (khash := khash) kparam vparam mp h)
    (λ _ h', call_failed (keq := keq) (khash := khash) kparam vparam mp h h') h.
Proof. intros Hh Hf Hd Hc. by apply (keeps_call Hwb kparam vparam Hh). Qed.

(** C17. Merging a checked dict into another stores its items in order, and
    stops early only when memory runs out or a check refuses an item, with the
    items before it stored. *)
Theorem dict_merge_correct (Hwb : well_behaved keq khash) fuel mp other kparam vparam (h : dheap V E) its oits :
  dict_is h mp its -> dict_is h other oits -> other ≠ mp -> (0 < fuel)%nat ->
  (∀ override, 0 <= override <= 2 ->
    let ov := if decide (its = []) then 1 else override in
    wp (dict_merge fuel mp other override)
      (λ _ h', ∃ its', updated mp h h' its' (λ _, 0) ∧ pairs its' = dputs keq override (pairs its) (pairs oits))
      (merge_stopped (keq := keq) (khash := khash) mp h its (pairs oits) (dput keq ov) (λ _, True)
        (merge_bad (keq := keq) ov)) h) ∧
  wp (chkdict_merge [kparam; vparam] fuel mp other)
    (λ _ h', ∃ its', updated mp h h' its' (λ _, 0) ∧ pairs its' = dputs keq 1 (pairs its) (pairs oits) ∧
             Forall (typed_pair kparam vparam) (pairs oits))
    (merge_stopped (keq := keq) (khash := khash) mp h its (pairs oits) (dput keq 1) (typed_pair kparam vparam)
      (chk_bad kparam vparam)) h.
Proof.
  intros Hd Ho Hne Hf. split.
  - intros override Hov. by apply (dict_merge_wp Hwb).
  - by apply (chkdict_merge_wp Hwb).
Qed.

(** C18. [copy] makes a new dict with the same items in the same order and
    references of its own to them; when memory runs out nothing is left of it. *)
Theorem dict_copy_correct (Hwb : well_behaved keq khash) fuel mp (h : dheap V E) its :
  dict_is h mp its -> is_Some (dstate h) -> (0 < fuel)%nat ->
  wp (chkdict_copy fuel mp)
    (λ c h', ∃ its', fresh_dict (keq := keq) (khash := khash) h h' c its' ∧ pairs its' = pairs its)
    (λ e h', e = PyErr MemoryError no_msg ∧ ((∃ w, h' = set_world w h) ∨ undone h h')) h.
Proof. by apply (copy_wp Hwb). Qed.

(** C19. A lookup ends: the probing loop reaches every slot of the table, so
    that a visit that ends the loop at an empty slot ends it, whatever else it
    does, when the table has an empty slot. *)
Theorem lookups_end {A} (k : dictkeys V) hash (visit : Z -> DM V E (option A)) (I : dheap V E -> Prop) X h :
  table_size (dk_size k) -> (∃ j, aget (dk_indices k) j = Some DKIX_EMPTY) -> Zlen (dk_indices k) = dk_size k ->
  (∀ j s, I s -> wp (visit j) (λ r s', I s' ∧ (aget (dk_indices k) j = Some DKIX_EMPTY -> r ≠ None)) X s) ->
  I h -> wp (probing k hash visit) (λ _ s', I s') X h.
Proof.
  intros Hs [j Hj] Hl Hvisit HI. apply aget_Some in Hj as Hb. rewrite Hl in Hb.
  destruct (slot_complete _ Hs hash j Hb) as (n & Hn & Heq).
  apply (probing_wp k hash visit (λ m s, I s ∧ ∀ i, (i < m)%nat -> probe_slot (dk_size k - 1) hash i ≠ j)).
  - intros m s [Hm Hno]. eapply wp_conseq; [by apply Hvisit| |done]. intros [a|] s' [Hs' Hr]; [done|].
    split; [done|]. intros i Hi Hc. destruct (decide (i = m)) as [->|]; [|by apply (Hno i); [lia|]].
    apply Hr; [by rewrite Hc|done].
  - intros s [_ Hno]. by apply (Hno n).
  - split; [done|]. intros i Hi. lia.
Qed.

(** C22. The sizes of tables: [calculate_keysize] gives a power of two that is at
    least its argument and at most twice it (or 16); a table resized for an
    insertion has room for one more item, and a presized one for the items it
    was asked for. *)
Theorem keysize_correct :
  (∀ m, 0 <= m < 2 ^ 61 -> ∃ k, 3 <= k <= 61 ∧ calculate_keysize m = 2 ^ k ∧ m <= 2 ^ k <= 2 * (m `max` 8)) ∧
  (∀ used, 0 <= used <= 2 ^ 58 ->
    used < USABLE_FRACTION (calculate_keysize (GROWTH_RATE (DictObj used 0 NullValues : dictobj Z)))) ∧
  (∀ n (h : dheap V E), USABLE_FRACTION PyDict_MINSIZE < n <= USABLE_FRACTION max_presize ->
    ∃ k, 4 <= k <= 18 ∧ presize_loop 18 (PyDict_MINSIZE * 2) (estimate_keysize n) h = Ret (2 ^ k) h ∧
      n <= USABLE_FRACTION (2 ^ k)).
Proof.
  split_and!.
  - intros m Hm. destruct (calculate_keysize_ge m Hm) as (k & ? & ? & ? & ?). eauto.
  - intros used Hu. unfold GROWTH_RATE. simpl ma_used. change (2 ^ 58) with 288230376151711744 in Hu.
    destruct (calculate_keysize_ge (used * 3)) as (k & Hk & -> & Hge & _).
    { change (2 ^ 61) with 2305843009213693952. lia. }
    pose proof (Z.pow_le_mono_r 2 3 k ltac:(lia) ltac:(lia)). rewrite USABLE_FRACTION_val by lia. divlia.
  - intros n h. apply presize_room.
Qed.

(** C20. On a dict that does not change, the iterators over keys, values and items
    give all of them in insertion order and then end, and the reverse iterators
    in the opposite order.  An iterator over items answers with its own tuple
    or, at the calls where that is in use, with a new one: then a call for
    which the memory is missing raises MemoryError instead. *)
Theorem dict_iteration_correct (Hwb : well_behaved keq khash) mp (h : dheap V E) its shareds :
  dict_is h mp its -> length shareds = S (length its) ->
  let X := λ (e : pyexn) h', e = PyErr MemoryError no_msg ∧ h' = h in
  let n := S (length its) in
  wp (di ← dictiter_new mp IterKey false; iterate (replicate n dictiter_iternextkey) di)
    (comes h (λ key _, key) (pairs its)) X h ∧
  wp (di ← dictiter_new mp IterValue false; iterate (replicate n dictiter_iternextvalue) di)
    (comes h (λ _ value, value) (pairs its)) X h ∧
  wp (di ← dictiter_new mp IterItem false; iterate (dictiter_iternextitem <$> shareds) di)
    (items_come h shareds (pairs its)) X h ∧
  wp (di ← dictiter_new mp IterKey true; iterate (replicate n dictreviter_iternext_key) di)
    (comes h (λ key _, key) (reverse (pairs its))) X h ∧
  wp (di ← dictiter_new mp IterValue true; iterate (replicate n dictreviter_iternext_value) di)
    (comes h (λ _ value, value) (reverse (pairs its))) X h ∧
  wp (di ← dictiter_new mp IterItem true; iterate (dictreviter_iternext_item <$> shareds) di)
    (items_come h shareds (reverse (pairs its))) X h.
Proof.
  intros Hd Hl X n. split_and!.
  - by apply (forward_exact Hwb); [apply gives_key|].
  - by apply (forward_exact Hwb); [apply gives_value|].
  - by apply (forward_wp Hwb _ _ _ h (gives_item Hwb h)).
  - by apply (backward_exact Hwb); [apply (gives_rev_key Hwb)|].
  - by apply (backward_exact Hwb); [apply (gives_rev_value Hwb)|].
  - by apply (backward_wp Hwb _ _ _ h (gives_pair Hwb h true)).
Qed.

(** C21. Two checked dicts are equal when they have the same number of items and
    each key of one is in the other with an equal value; the comparison
    ends, and takes no references for good. *)
Theorem dict_equal_correct (Hwb : well_behaved keq khash) steps fuel a b (h : dheap V E) itsa itsb :
  dict_is h a itsa -> dict_is h b itsb -> (0 < fuel)%nat ->
  (∀ d k, has_dict h a d k -> Zlen (dk_entries k) < Z.of_nat steps) ->
  wp (chkdict_richcompare steps fuel a (EqChecked b) CmpEq)
    (λ r h', settled h h' ∧ r = Some (dict_eqb (keq := keq) (pairs itsa) (pairs itsb))) (λ _ _, False) h.
Proof.
  intros Ha Hb Hf Hs. unfold chkdict_richcompare. apply wp_bind.
  eapply wp_conseq; [by apply (dict_equal_wp Hwb steps fuel a b itsa itsb h)| |done].
  intros r h' [Hset ->]. apply wp_ret. split; [done|]. by destruct (dict_eqb _ _).
Qed.

(** [d.setdefault(key)] on a [CheckedDict[K, V]] stores None without a check,
    also when None is not a V: afterwards the dict is not of its type. *)
Theorem setdefault_stores_none (Hwb : well_behaved keq khash) kparam vparam fuel mp key (h : dheap V E) its :
  dict_is h mp its -> (0 < fuel)%nat -> PyObject_TypeCheck key (gtp_type kparam) = true ->
  dget keq key (pairs its) = None -> param_ok vparam Py_None = false ->
  wp (dict_setdefault_impl [kparam; vparam] fuel mp [key])
    (λ v h', v = Py_None ∧ ¬ typed_dict (keq := keq) (khash := khash) kparam vparam h' mp)
    (λ e _, e = PyErr MemoryError no_msg ∨ e = PyErr Foreign no_msg) h.
Proof.
  intros Hd Hf Hk Hg Hn. eapply wp_conseq; [by apply (setdefault_none_wp Hwb kparam vparam fuel mp key its h)| |done].
  intros v h' (-> & its' & x & Hu & Hp). split; [done|]. intros (its2 & Hd2 & Ht).
  assert (its2 = its') as -> by (rewrite <- (di_items _ _ _ Hd2); apply Hu).
  rewrite Hp in Ht. apply Forall_app in Ht as [_ Ht]. inversion Ht as [|? ? [_ Hv] _]; subst. simpl in Hv. congruence.
Qed.

(** [del d[key]] goes to [_CiDict_DelItem_KnownHash], which refuses everything
    that is not a dict: it raises SystemError for every key of the right type. *)
Lemma delete_always_raises (Hwb : well_behaved keq khash) kparam vparam fuel mp key hash (h : dheap V E) :
  param_ok kparam key = true -> khash key = Some hash ->
  wp (chkdict_ass_sub [kparam; vparam] fuel mp key None) (λ _ _, False)
    (λ e h', e = PyErr SystemError "bad argument to internal function" ∧ h' = h) h.
Proof.
  intros Hk Hh. unfold chkdict_ass_sub. apply wp_bind, wp_checkkey; [intros _|congruence].
  apply wp_bind, (wp_key_hash Hwb); [|congruence]. intros hash' _. by apply wp_raise.
Qed.
End claims.

(** ** Instances *)

Lemma checked_dict_refines_witness :
  wp (run_ops 1 1 [OpPop 2 None; OpSet 9 109; OpSet 1 110; OpPopItem; OpPop (-4) None; OpContains 3])
    (λ rs h', ∃ its', @updated Z unit demo_api _ Z.eqb demo_hash 1 demo_two h' its' (all_given rs) ∧
       follows Z.eqb demo_hash [OpPop 2 None; OpSet 9 109; OpSet 1 110; OpPopItem; OpPop (-4) None; OpContains 3]
         (pairs demo_items1) rs (pairs its') ∧
       Ci_CheckedDict_CheckConsistency 1 false h' = Ret true h')
    (λ _ _, False) demo_two.
Proof.
  exact (checked_dict_refines demo_well_behaved 1 1
    [OpPop 2 None; OpSet 9 109; OpSet 1 110; OpPopItem; OpPop (-4) None; OpContains 3]
    demo_two demo_items1 (proj1 demo_two_is) (le_n 1)).
Defined.

Lemma demo_typed : typed_dict (keq := Z.eqb) (khash := demo_hash) demo_int demo_str demo_two 1 ∧
  typed_dict (keq := Z.eqb) (khash := demo_hash) demo_int demo_str demo_two 2.
Proof.
  destruct demo_two_is as [H1 H2]. split; [exists demo_items1|exists demo_items2]; split; try done;
    repeat constructor; by vm_compute.
Qed.
Lemma demo_hashable v : param_ok demo_int v = true -> demo_hash v ≠ None.
Proof.
  unfold param_ok, demo_int, demo_hash. simpl. rewrite andb_false_r. simpl. intros H%andb_prop. destruct H as [H _].
  bool_to_prop. by rewrite (proj2 (Z.ltb_ge _ _)).
Qed.
Lemma demo_call_ok :
  call_ok (keq := Z.eqb) (khash := demo_hash) demo_int demo_str demo_two
    (CUpdate (λ _ h, (inr [], h)) (Some (UChecked true 2)) None).
Proof.
  split_and!; [|intros a [= <-]; apply demo_typed|done]. intros v h. by exists (world h); destruct h.
Qed.
Lemma checked_dict_typed_witness :
  wpo True (run_call demo_int demo_str 9 1 1 (CUpdate (λ _ h, (inr [], h)) (Some (UChecked true 2)) None))
    (call_kept (keq := Z.eqb) (khash := demo_hash) demo_int demo_str 1 demo_two)
    (λ _ h', call_failed (keq := Z.eqb) (khash := demo_hash) demo_int demo_str 1 demo_two h') demo_two.
Proof.
  exact (checked_dict_typed demo_well_behaved demo_int demo_str 9 1 1
    (CUpdate (λ _ h, (inr [], h)) (Some (UChecked true 2)) None) demo_two
    demo_hashable (le_n 1) (proj1 demo_typed) demo_call_ok).
Defined.
Lemma dict_merge_correct_witness :
  let ov := if decide (demo_items1 = []) then 1 else 1 in
  wp (dict_merge 1 1 2 1)
    (λ _ h', ∃ its', @updated Z unit demo_api _ Z.eqb demo_hash 1 demo_two h' its' (λ _, 0) ∧
       pairs its' = dputs Z.eqb 1 (pairs demo_items1) (pairs demo_items2))
    (merge_stopped (keq := Z.eqb) (khash := demo_hash) 1 demo_two demo_items1 (pairs demo_items2) (dput Z.eqb ov)
      (λ _, True) (merge_bad (keq := Z.eqb) ov)) demo_two.
Proof.
  refine (proj1 (dict_merge_correct demo_well_behaved 1 1 2 demo_int demo_str demo_two demo_items1 demo_items2
    (proj1 demo_two_is) (proj2 demo_two_is) _ (le_n 1)) 1 _); [done|lia].
Defined.
Lemma dict_copy_correct_witness :
  wp (chkdict_copy 1 1)
    (λ c h', ∃ its', fresh_dict (keq := Z.eqb) (khash := demo_hash) demo_two h' c its' ∧ pairs its' = pairs demo_items1)
    (λ e h', e = PyErr MemoryError no_msg ∧ ((∃ w, h' = set_world w demo_two) ∨ undone demo_two h')) demo_two.
Proof.
  refine (dict_copy_correct demo_well_behaved 1 1 demo_two demo_items1 (proj1 demo_two_is) _ (le_n 1)).
  vm_compute. by eexists.
Defined.
(** A table with one empty slot, the fourth. *)
Definition demo_full : dictkeys Z := with_indices [-2; -2; -2; -1; -2; -2; -2; -2] (fresh_keys 8).
Lemma demo_full_empty j : aget (dk_indices demo_full) j = Some DKIX_EMPTY -> j = 3.
Proof.
  intros Hj. apply aget_Some in Hj as Hb. unfold Zlen in Hb. simpl in Hb.
  assert (j = 0 ∨ j = 1 ∨ j = 2 ∨ j = 3 ∨ j = 4 ∨ j = 5 ∨ j = 6 ∨ j = 7) as Hcase by lia.
  by destruct Hcase as [-> | [-> | [-> | [-> | [-> | [-> | [-> | ->]]]]]]].
Qed.
Lemma lookups_end_witness :
  wp (probing demo_full 5 (λ j, mret (if j =? 3 then Some j else None)))
    (λ _ s', s' = demo_start) (λ _ _, False) demo_start.
Proof.
  apply (lookups_end demo_full 5 (λ j, mret (if j =? 3 then Some j else None)) (λ s, s = demo_start)).
  - exists 3. split; [lia|done].
  - by exists 3.
  - done.
  - intros j s ->. apply wp_ret. split; [done|]. by intros ->%demo_full_empty.
  - done.
Defined.
(** A tuple of its own, then new ones. *)
Definition demo_shareds : list bool := false :: replicate (length demo_items1) true.
Lemma dict_iteration_correct_witness :
  wp (di ← dictiter_new 1 IterItem true; iterate (dictreviter_iternext_item <$> demo_shareds) di)
    (items_come demo_two demo_shareds (reverse (pairs demo_items1)))
    (λ e h', e = PyErr MemoryError no_msg ∧ h' = demo_two) demo_two.
Proof.
  exact (proj2 (proj2 (proj2 (proj2 (proj2 (dict_iteration_correct demo_well_behaved 1 demo_two demo_items1 demo_shareds
    (proj1 demo_two_is) eq_refl)))))).
Defined.
Lemma dict_equal_correct_witness :
  wp (chkdict_richcompare 7 1 1 (EqChecked 2) CmpEq)
    (λ r h', settled demo_two h' ∧ r = Some (dict_eqb (keq := Z.eqb) (pairs demo_items1) (pairs demo_items2)))
    (λ _ _, False) demo_two.
Proof.
  refine (dict_equal_correct demo_well_behaved 7 1 1 2 demo_two demo_items1 demo_items2
    (proj1 demo_two_is) (proj2 demo_two_is) (le_n 1) _).
  intros d k [Hd Hk]. vm_compute in Hd. injection Hd as <-. vm_compute in Hk. injection Hk as <-. by vm_compute.
Defined.
Lemma setdefault_stores_none_witness :
  wp (dict_setdefault_impl [demo_int; demo_str] 1 1 [7])
    (λ v h', v = Py_None ∧ ¬ typed_dict (keq := Z.eqb) (khash := demo_hash) demo_int demo_str h' 1)
    (λ e _, e = PyErr MemoryError no_msg ∨ e = PyErr Foreign no_msg) demo_two.
Proof.
  refine (setdefault_stores_none demo_well_behaved demo_int demo_str 1 1 7 demo_two demo_items1
    (proj1 demo_two_is) (le_n 1) _ _ _); by vm_compute.
Defined.

(** ** Behaviour on concrete dicts *)

(** An unhashable key of a sequence of pairs is stored, under the hash -1,
    before [update] raises. *)
Definition demo_pairs (h : dheap Z unit) : next_result Z * dheap Z unit :=
  (if Zlen (refs h) =? Zlen (refs demo_one) then NextItem (-4) else NextStop, h).
Example unhashable_key_is_stored :
  param_ok demo_unhashable (-7) = true ∧ demo_hash (-7) = None ∧
  match chkdict_mergefromseq2 [demo_unhashable; demo_str] (λ _ h, (inr [-7; 107], h)) 5 1 1
          (DIter (λ h, (None, h)) demo_pairs) demo_one with
  | Exn e h => e = PyErr Foreign no_msg ∧ dict_items h 1 = demo_items1 ++ [(-1, -7, 107)]
  | _ => False
  end.
Proof. by vm_compute. Qed.
(** The sizes that [calculate_keysize] rounds up further than it needs to. *)
Example keysize_not_smallest :
  calculate_keysize 1 = 16 ∧ calculate_keysize 8 = 8 ∧ calculate_keysize 16 = 32 ∧ calculate_keysize 64 = 128.
Proof. by vm_compute. Qed.
(** A reverse iterator over a dict that has been cleared and filled again with
    as many items reads behind the new table. *)
Definition many (n : nat) : list (dict_op Z) := (λ i, OpSet (Z.of_nat i) 101) <$> seq 0 n.
Definition fewer (n : nat) : list (dict_op Z) := (λ i, OpPop (Z.of_nat i) None) <$> seq 0 n.
Definition stale_reverse : DictObject.DM Z unit (dictiter Z * iter_answer Z) :=
  _ ← run_ops 1 1 (many 20 ++ fewer 18);
  di ← dictiter_new 1 IterKey true;
  _ ← run_ops 1 1 [OpClear; OpSet 1 101; OpSet 2 102];
  dictreviter_iternext_key di.
Example stale_reverse_reads_outside : stale_reverse demo_start = Stuck.
Proof. by vm_compute. Qed.
