(* ===== verification/WsDeque.v ===== *)
(** * The work-stealing deque of [ws_deque.h]

    Each operation is a sequence of atomic accesses; the states between them are
    the constructors of [dq_pc], and [dq_step] makes the next access.  Threads
    interleave at these steps (the fences and memory orders of the source make
    its executions sequentially consistent, which is assumed here). *)

From stdpp Require Import base list gmap numbers strings.
From S2P Require Import Prelude.

(** ** Arrays *)

(** Old arrays stay allocated, linked by [next] from the newer ones: an array is
    an index into a list that only grows. *)
Record Ci_WSArray := WSArray { size : Z; buf : list Z }.
Definition is_power_of_two (n : Z) : bool := (0 <? n) && (Z.land n (n - 1) =? 0).
(** [calloc] is taken to succeed. *)
Definition Ci_WSArray_New (size : Z) : option Ci_WSArray :=
  if is_power_of_two size then Some (WSArray size (replicate (Z.to_nat size) 0)) else None.
Definition Ci_WSArray_Get (arr : Ci_WSArray) (idx : Z) : option Z :=
  aget (buf arr) (Z.land idx (size arr - 1)).
Definition Ci_WSArray_Put (arr : Ci_WSArray) (idx obj : Z) : option Ci_WSArray :=
  b ← aset (buf arr) (Z.land idx (size arr - 1)) obj; Some (WSArray (size arr) b).
(** [for (i = top; i < bot; i++)]. *)
Fixpoint grow_loop (n : nat) (arr new_arr : Ci_WSArray) (i : Z) : option Ci_WSArray :=
  match n with
  | O => Some new_arr
  | S n =>
      obj ← Ci_WSArray_Get arr i;
      new_arr ← Ci_WSArray_Put new_arr i obj;
      grow_loop n arr new_arr (i + 1)
  end.
Definition Ci_WSArray_Grow (arr : Ci_WSArray) (top bot : Z) : option Ci_WSArray :=
  let new_size := size_t (Z.shiftl (size arr) 1) in
  if size arr <? new_size then
    new_arr ← Ci_WSArray_New new_size;
    grow_loop (Z.to_nat (bot - top)) arr new_arr top
  else None.

(** ** The deque *)

Record Ci_WSDeque := WSDeque { top : Z; bot : Z; arr : nat; num_resizes : Z; arrays : list Ci_WSArray }.
Definition kCiParGCInitialArrSize : Z := Z.shiftl 1 12.
Definition Ci_WSDeque_Init : option Ci_WSDeque :=
  a ← Ci_WSArray_New kCiParGCInitialArrSize; Some (WSDeque 1 1 0 0 [a]).

Definition set_top (t : Z) (d : Ci_WSDeque) : Ci_WSDeque := WSDeque t (bot d) (arr d) (num_resizes d) (arrays d).
Definition set_bot (b : Z) (d : Ci_WSDeque) : Ci_WSDeque := WSDeque (top d) b (arr d) (num_resizes d) (arrays d).
Definition set_arr (a : nat) (d : Ci_WSDeque) : Ci_WSDeque := WSDeque (top d) (bot d) a (num_resizes d) (arrays d).
Definition set_arrays (l : list Ci_WSArray) (d : Ci_WSDeque) : Ci_WSDeque :=
  WSDeque (top d) (bot d) (arr d) (num_resizes d) l.
Definition count_resize (d : Ci_WSDeque) : Ci_WSDeque :=
  WSDeque (top d) (bot d) (arr d) (num_resizes d + 1) (arrays d).
Definition array_get (d : Ci_WSDeque) (a : nat) (idx : Z) : option Z :=
  x ← arrays d !! a; Ci_WSArray_Get x idx.

(** The points of the operations, with the local variables that are live. *)
Inductive dq_pc :=
  (* Ci_WSDeque_Take *)
  | TakeAssert
  | TakeLoadBot
  | TakeLoadArr (bot : Z)
  | TakeStoreBot (bot : Z) (arr : nat)
  | TakeLoadTop (bot : Z) (arr : nat)
  | TakeGet (bot : Z) (arr : nat) (top : Z)
  | TakeCas (bot top res : Z)
  | TakeRestore (bot res : Z)
  (* Ci_WSDeque_Push *)
  | PushLoadBot (obj : Z)
  | PushLoadTop (obj bot : Z)
  | PushLoadArr (obj bot top : Z)
  | PushStoreArr (obj bot : Z) (new_arr : nat)
  | PushReload (obj bot : Z)
  | PushCount (obj bot : Z) (arr : nat)
  | PushPut (obj bot : Z) (arr : nat)
  | PushStoreBot (obj bot : Z)
  (* Ci_WSDeque_Steal *)
  | StealLoadTop
  | StealLoadBot (top : Z)
  | StealLoadArr (top : Z)
  | StealGet (top : Z) (arr : nat)
  | StealCas (top res : Z)
  (* Ci_WSDeque_Size *)
  | SizeLoadBot
  | SizeLoadTop (bot : Z).
(** Where the operations start. *)
Definition Ci_WSDeque_Take : dq_pc := TakeAssert.
Definition Ci_WSDeque_Push (obj : Z) : dq_pc := PushLoadBot obj.
Definition Ci_WSDeque_Steal : dq_pc := StealLoadTop.
Definition Ci_WSDeque_Size : dq_pc := SizeLoadBot.

(** The operation goes on, or returns; [NULL] is 0. *)
Inductive dq_next := Go (pc : dq_pc) | Returns (res : Z).

Definition take_step (d : Ci_WSDeque) (pc : dq_pc) : option (Ci_WSDeque * dq_next) :=
  match pc with
  | TakeAssert => if bot d =? 0 then None else Some (d, Go TakeLoadBot)
  | TakeLoadBot => Some (d, Go (TakeLoadArr (size_t (bot d - 1))))
  | TakeLoadArr b => Some (d, Go (TakeStoreBot b (arr d)))
  | TakeStoreBot b a => Some (set_bot b d, Go (TakeLoadTop b a))
  | TakeLoadTop b a =>
      Some (d, Go (if top d <=? b then TakeGet b a (top d) else TakeRestore b 0))
  | TakeGet b a t =>
      res ← array_get d a b;
      Some (d, if t =? b then Go (TakeCas b t res) else Returns res)
  | TakeCas b t res =>
      Some (if top d =? t then (set_top (size_t (t + 1)) d, Go (TakeRestore b res))
            else (d, Go (TakeRestore b 0)))
  | TakeRestore b res => Some (set_bot (size_t (b + 1)) d, Returns res)
  | _ => None
  end.
Definition push_step (d : Ci_WSDeque) (pc : dq_pc) : option (Ci_WSDeque * dq_next) :=
  match pc with
  | PushLoadBot obj => Some (d, Go (PushLoadTop obj (bot d)))
  | PushLoadTop obj b => Some (d, Go (PushLoadArr obj b (top d)))
  | PushLoadArr obj b t =>
      if t <=? b then
        a ← arrays d !! arr d;
        if size a - 1 <? size_t (b - t) then
          new_arr ← Ci_WSArray_Grow a t b;
          Some (set_arrays (arrays d ++ [new_arr]) d, Go (PushStoreArr obj b (length (arrays d))))
        else Some (d, Go (PushPut obj b (arr d)))
      else None
  | PushStoreArr obj b new_arr => Some (set_arr new_arr d, Go (PushReload obj b))
  | PushReload obj b => Some (d, Go (PushCount obj b (arr d)))
  | PushCount obj b a => Some (count_resize d, Go (PushPut obj b a))
  | PushPut obj b a =>
      x ← arrays d !! a;
      x ← Ci_WSArray_Put x b obj;
      Some (set_arrays (<[a := x]> (arrays d)) d, Go (PushStoreBot obj b))
  | PushStoreBot obj b => Some (set_bot (size_t (b + 1)) d, Returns 0)
  | _ => None
  end.
Definition steal_step (d : Ci_WSDeque) (pc : dq_pc) : option (Ci_WSDeque * dq_next) :=
  match pc with
  | StealLoadTop => Some (d, Go (StealLoadBot (top d)))
  | StealLoadBot t => Some (d, if t <? bot d then Go (StealLoadArr t) else Returns 0)
  | StealLoadArr t => Some (d, Go (StealGet t (arr d)))
  | StealGet t a => res ← array_get d a t; Some (d, Go (StealCas t res))
  | StealCas t res =>
      Some (if top d =? t then (set_top (size_t (t + 1)) d, Returns res) else (d, Go StealLoadTop))
  | _ => None
  end.
Definition size_step (d : Ci_WSDeque) (pc : dq_pc) : option (Ci_WSDeque * dq_next) :=
  match pc with
  | SizeLoadBot => Some (d, Go (SizeLoadTop (bot d)))
  | SizeLoadTop b => Some (d, Returns (if b <? top d then 0 else b - top d))
  | _ => None
  end.
(** [None]: an assertion fails or an array is accessed out of bounds. *)
Definition dq_step (d : Ci_WSDeque) (pc : dq_pc) : option (Ci_WSDeque * dq_next) :=
  match pc with
  | TakeAssert | TakeLoadBot | TakeLoadArr _ | TakeStoreBot _ _ | TakeLoadTop _ _ | TakeGet _ _ _ | TakeCas _ _ _
  | TakeRestore _ _ => take_step d pc
  | PushLoadBot _ | PushLoadTop _ _ | PushLoadArr _ _ _ | PushStoreArr _ _ _ | PushReload _ _ | PushCount _ _ _
  | PushPut _ _ _ | PushStoreBot _ _ => push_step d pc
  | StealLoadTop | StealLoadBot _ | StealLoadArr _ | StealGet _ _ | StealCas _ _ => steal_step d pc
  | SizeLoadBot | SizeLoadTop _ => size_step d pc
  end.

(** An operation run alone. *)
Fixpoint dq_run (fuel : nat) (d : Ci_WSDeque) (pc : dq_pc) : option (Ci_WSDeque * Z) :=
  match fuel with
  | O => None
  | S fuel => r ← dq_step d pc; match r.2 with Go pc => dq_run fuel r.1 pc | Returns v => Some (r.1, v) end
  end.
Example dq_run_alone :
  (d ← Ci_WSDeque_Init; r ← dq_run 9 d Ci_WSDeque_Take; r1 ← dq_run 9 r.1 (Ci_WSDeque_Push 11);
   r2 ← dq_run 9 r1.1 (Ci_WSDeque_Push 12); r3 ← dq_run 9 r2.1 (Ci_WSDeque_Push 13);
   s ← dq_run 9 r3.1 Ci_WSDeque_Steal; t ← dq_run 9 s.1 Ci_WSDeque_Take; n ← dq_run 9 t.1 Ci_WSDeque_Size;
   Some (r.2, s.2, t.2, n.2)) = Some (0, 11, 13, 1).
Proof. by vm_compute. Qed.
