(* ===== verification/WsDequeInv.v ===== *)
(** * The invariant of the work-stealing deque

    The abstract content of a deque is the items from [top] up to an end that
    depends on where its owner is; each step of an operation keeps the
    invariant and changes the content at one point only. *)

From stdpp Require Import base list gmap numbers strings.
From S2P Require Import Prelude WsDeque.

(** ** Arrays *)

Record array_wf (a : Ci_WSArray) : Prop := {
  aw_size : ∃ k, 0 <= k <= 63 ∧ size a = 2 ^ k;
  aw_buf : Zlen (buf a) = size a
}.
Lemma array_size_pos a : array_wf a -> 0 < size a.
Proof. intros [(k & Hk & ->) _]. lia. Qed.
Lemma array_slot a i : array_wf a -> Z.land i (size a - 1) = i `mod` size a.
Proof.
  intros [(k & Hk & ->) _]. replace (2 ^ k - 1) with (Z.ones k) by (rewrite Z.ones_equiv; lia).
  apply Z.land_ones. lia.
Qed.
Lemma array_get_total a i : array_wf a -> ∃ x, Ci_WSArray_Get a i = Some x.
Proof.
  intros Ha. unfold Ci_WSArray_Get. rewrite array_slot by done. apply aget_lt. destruct Ha as [Hs ->].
  destruct Hs as (k & Hk & ->). apply Z.mod_pos_bound. lia.
Qed.
Lemma array_put_total a i x : array_wf a -> ∃ a', Ci_WSArray_Put a i x = Some a' ∧ array_wf a' ∧ size a' = size a ∧
  ∀ j, Ci_WSArray_Get a' j = if decide (j `mod` size a = i `mod` size a) then Some x else Ci_WSArray_Get a j.
Proof.
  intros Ha. pose proof (array_size_pos _ Ha) as Hp. pose proof (Z.mod_pos_bound i (size a) Hp) as Hi.
  unfold Ci_WSArray_Put. rewrite array_slot by done.
  destruct (aset_lt (buf a) (i `mod` size a) x) as []; [by rewrite (aw_buf _ Ha)|].
  rewrite aset_lt by (by rewrite (aw_buf _ Ha)). simpl. eexists. split; [done|].
  assert (Hw : array_wf (WSArray (size a) (<[Z.to_nat (i `mod` size a) := x]> (buf a)))).
  { destruct Ha as [Hs Hb]. split; [done|]. simpl. by rewrite Zlen_insert. }
  split_and!; [done|done|]. intros j. unfold Ci_WSArray_Get. rewrite !array_slot by done. simpl.
  rewrite aget_insert by (by rewrite (aw_buf _ Ha)). done.
Qed.
(** Distinct indices closer than the size are in distinct slots. *)
Lemma slots_differ n i j : 0 < n -> i < j -> j - i < n -> i `mod` n ≠ j `mod` n.
Proof.
  intros Hn Hij Hd He. pose proof (Z.div_mod i n ltac:(lia)) as H1. pose proof (Z.div_mod j n ltac:(lia)) as H2.
  rewrite He in H1. assert (Hk : j - i = n * (j `div` n - i `div` n)) by lia.
  assert (0 < j `div` n - i `div` n ∨ j `div` n - i `div` n <= 0) as [?|?] by lia; nia.
Qed.

Lemma power_of_two_spec k : 0 <= k -> is_power_of_two (2 ^ k) = true.
Proof.
  intros Hk. unfold is_power_of_two. apply andb_true_iff. split; [apply Z.ltb_lt; lia|]. apply Z.eqb_eq.
  replace (2 ^ k - 1) with (Z.ones k) by (rewrite Z.ones_equiv; lia). rewrite Z.land_ones by lia. apply Z.mod_same. lia.
Qed.
Lemma array_new k : 0 <= k <= 63 -> ∃ a, Ci_WSArray_New (2 ^ k) = Some a ∧ array_wf a ∧ size a = 2 ^ k.
Proof.
  intros Hk. unfold Ci_WSArray_New. rewrite power_of_two_spec by lia. eexists. split; [done|]. split; [|done].
  split; [by exists k|]. simpl. rewrite Zlen_replicate. lia.
Qed.
(** [grow_loop] copies a range that fits. *)
Lemma grow_loop_spec a n : ∀ new i, array_wf a -> array_wf new -> Z.of_nat n <= size new ->
  ∃ new', grow_loop n a new i = Some new' ∧ array_wf new' ∧ size new' = size new ∧
    (∀ j, i <= j < i + Z.of_nat n -> Ci_WSArray_Get new' j = Ci_WSArray_Get a j) ∧
    (∀ j, i - size new + Z.of_nat n <= j < i -> Ci_WSArray_Get new' j = Ci_WSArray_Get new j).
Proof.
  induction n as [|n IH]; intros new i Ha Hn Hle; simpl.
  { exists new. split_and!; [done|done|done|intros; lia|done]. }
  destruct (array_get_total a i Ha) as (x & Hx). rewrite Hx. simpl.
  destruct (array_put_total new i x Hn) as (new1 & -> & Hw1 & Hs1 & Hg1). simpl. pose proof (array_size_pos _ Hn).
  destruct (IH new1 (i + 1) Ha Hw1 ltac:(lia)) as (new' & -> & Hw' & Hs' & Hin & Hout).
  exists new'. split_and!; [done|done|congruence| |].
  - intros j Hj. destruct (decide (j = i)) as [->|Hne]; [|apply Hin; lia].
    rewrite Hout by lia. by rewrite Hg1, decide_True.
  - intros j Hj. rewrite Hout by lia. rewrite Hg1, decide_False; [done|]. apply slots_differ; lia.
Qed.
Lemma grow_spec a t b : array_wf a -> size a < 2 ^ 63 -> 0 <= b - t <= 2 * size a ->
  ∃ new, Ci_WSArray_Grow a t b = Some new ∧ array_wf new ∧ size new = 2 * size a ∧
    ∀ j, t <= j < b -> Ci_WSArray_Get new j = Ci_WSArray_Get a j.
Proof.
  intros Ha Hs Hb. pose proof Ha as [(k & Hk & Hsk) _]. unfold Ci_WSArray_Grow.
  assert (Hk63 : k < 63) by (rewrite Hsk in Hs; apply (Z.pow_lt_mono_r_iff 2); lia).
  assert (Hsh : size_t (Z.shiftl (size a) 1) = 2 ^ (k + 1)).
  { rewrite Hsk, Z.shiftl_mul_pow2, <- Z.pow_add_r by lia. apply size_t_small. unfold SIZE_T_MOD.
    split; [lia|]. apply Z.pow_lt_mono_r; lia. }
  assert (H2 : 2 ^ (k + 1) = 2 * size a) by (rewrite Hsk, Z.pow_add_r by lia; lia).
  pose proof (array_size_pos _ Ha). rewrite Hsh, (proj2 (Z.ltb_lt _ _)) by lia.
  destruct (array_new (k + 1) ltac:(lia)) as (n0 & -> & Hw0 & Hs0). simpl.
  destruct (grow_loop_spec a (Z.to_nat (b - t)) n0 t Ha Hw0 ltac:(lia)) as (new & -> & Hw & Hsn & Hin & _).
  exists new. split_and!; [done|done|lia|]. intros j Hj. apply Hin. lia.
Qed.

(** ** Contents *)

(** Where the owner is in an operation on its deque, if it is in one. *)
Abbreviation owner := (option dq_pc).
(** The end of the items: while the owner decides about the last one it counts. *)
Definition range_end (d : Ci_WSDeque) (own : owner) : Z :=
  match own with
  | Some (TakeLoadTop b _ | TakeCas b _ _ | TakeRestore b _) => b + 1
  | Some (TakeGet b _ t) => if t =? b then b + 1 else b
  | _ => bot d
  end.
Definition item_at (d : Ci_WSDeque) (a : nat) (i : Z) : Z := default 0 (array_get d a i).
Definition content (d : Ci_WSDeque) (own : owner) : list Z :=
  item_at d (arr d) <$> seqZ (top d) (range_end d own - top d).
(** What the owner has in hand: the object it is pushing, or the one that it has
    taken. *)
Definition hand (d : Ci_WSDeque) (pc : dq_pc) : list Z :=
  match pc with
  | TakeGet b a t => if t =? b then [] else [item_at d a b]
  | TakeRestore _ res => if res =? 0 then [] else [res]
  | PushLoadBot obj | PushLoadTop obj _ | PushLoadArr obj _ _ | PushStoreArr obj _ _ | PushReload obj _
  | PushCount obj _ _ | PushPut obj _ _ | PushStoreBot obj _ => [obj]
  | _ => []
  end.
Definition next_hand (d : Ci_WSDeque) (nx : dq_next) : list Z :=
  match nx with Go pc => hand d pc | Returns v => if v =? 0 then [] else [v] end.
Definition next_owner (nx : dq_next) : owner := match nx with Go pc => Some pc | Returns _ => None end.

(** There is room for one more item in the current array. *)
Definition has_room (d : Ci_WSDeque) : Prop :=
  ∃ a, arrays d !! arr d = Some a ∧ bot d - top d < size a.
Definition pushing (d : Ci_WSDeque) (obj b : Z) : Prop := obj ≠ 0 ∧ b = bot d ∧ b + 1 < 2 ^ 63.
Definition own_ok (d : Ci_WSDeque) (own : owner) : Prop :=
  match own with
  | Some (TakeLoadArr b) => b = bot d - 1
  | Some (TakeStoreBot b a) => b = bot d - 1 ∧ a = arr d
  | Some (TakeLoadTop b a) => bot d = b ∧ a = arr d
  | Some (TakeGet b a t) => bot d = b ∧ a = arr d ∧ t <= b ∧ t <= top d ∧ (t ≠ b -> item_at d (arr d) b ≠ 0)
  | Some (TakeCas b t res) => bot d = b ∧ t = b ∧ t <= top d ∧ (top d = b -> res = item_at d (arr d) b)
  | Some (TakeRestore b res) => bot d = b ∧ top d = b + 1
  | Some (PushLoadBot obj) => pushing d obj (bot d)
  | Some (PushLoadTop obj b) => pushing d obj b
  | Some (PushLoadArr obj b t) => pushing d obj b ∧ t <= top d ∧ 1 <= t ∧
      ∃ a, arrays d !! arr d = Some a ∧ b - t <= size a
  | Some (PushStoreArr obj b new) => pushing d obj b ∧
      ∃ a' , arrays d !! new = Some a' ∧ bot d - top d < size a' ∧
        ∀ j, top d <= j < bot d -> Ci_WSArray_Get a' j = array_get d (arr d) j
  | Some (PushReload obj b) => pushing d obj b ∧ has_room d
  | Some (PushCount obj b a | PushPut obj b a) => pushing d obj b ∧ a = arr d ∧ has_room d
  | Some (PushStoreBot obj b) => pushing d obj b ∧ has_room d ∧ item_at d (arr d) b = obj
  | _ => True
  end.
Record DInv (d : Ci_WSDeque) (own : owner) : Prop := {
  di_arrays : Forall array_wf (arrays d);
  di_arr : ∃ a, arrays d !! arr d = Some a ∧ range_end d own - top d <= size a;
  di_top : 1 <= top d <= range_end d own;
  di_end : range_end d own < 2 ^ 63;
  di_items : Forall (λ x, x ≠ 0) (content d own);
  di_own : own_ok d own
}.

(** What a thief knows: as long as [top] has not moved, the item it is after is
    there and it has read it. *)
Definition thief_ok (d : Ci_WSDeque) (own : owner) (pc : dq_pc) : Prop :=
  match pc with
  | StealLoadBot t => t <= top d
  | StealLoadArr t => t <= top d ∧ (top d = t -> t < range_end d own)
  | StealGet t a => t <= top d ∧ (a < length (arrays d))%nat ∧
      (top d = t -> t < range_end d own ∧ array_get d a t = array_get d (arr d) t)
  | StealCas t res => t <= top d ∧
      (top d = t -> t < range_end d own ∧ array_get d (arr d) t = Some res)
  | _ => True
  end.
(** Steps that thieves do not notice. *)
Record unnoticed (d : Ci_WSDeque) (own : owner) (d' : Ci_WSDeque) (own' : owner) : Prop := {
  un_top : top d <= top d';
  un_arrays : (length (arrays d) <= length (arrays d'))%nat;
  un_front : top d' = top d -> top d < range_end d own ->
    top d < range_end d' own' ∧ array_get d' (arr d') (top d) = array_get d (arr d) (top d) ∧
    ∀ a, (a < length (arrays d))%nat -> array_get d a (top d) = array_get d (arr d) (top d) ->
      array_get d' a (top d) = array_get d' (arr d') (top d)
}.
Lemma thief_stable d own d' own' pc : unnoticed d own d' own' -> thief_ok d own pc -> thief_ok d' own' pc.
Proof.
  intros [H1 H2 H3]. destruct pc; simpl; try done.
  - lia.
  - intros [H4 H5]. split; [lia|]. intros <-. assert (Ht : top d' = top d) by lia. rewrite <- Ht in *.
    apply H3; [done|]. by apply H5.
  - intros (H4 & H5 & H6). split_and!; [lia|lia|]. intros <-. assert (Ht : top d' = top d) by lia.
    destruct (H6 ltac:(lia)) as [H7 H8]. rewrite Ht in *. destruct (H3 eq_refl H7) as (H9 & H10 & H11). auto.
  - intros [H4 H5]. split; [lia|]. intros <-. assert (Ht : top d' = top d) by lia.
    destruct (H5 ltac:(lia)) as [H7 H8]. rewrite Ht in *. destruct (H3 eq_refl H7) as (H9 & H10 & H11). by rewrite H10.
Qed.
Lemma unnoticed_same d own d' own' :
  top d' = top d -> arr d' = arr d -> arrays d' = arrays d -> range_end d own <= range_end d' own' -> unnoticed d own d' own'.
Proof.
  intros Ht Ha Hr Hle. split; [lia|by rewrite Hr|]. intros _ H1. unfold array_get. rewrite Ha, Hr. split; [lia|auto].
Qed.

(** ** The owner's steps *)

Definition is_take (pc : dq_pc) : bool :=
  match pc with
  | TakeAssert | TakeLoadBot | TakeLoadArr _ | TakeStoreBot _ _ | TakeLoadTop _ _ | TakeGet _ _ _ | TakeCas _ _ _
  | TakeRestore _ _ => true
  | _ => false
  end.
Definition is_push (pc : dq_pc) : bool :=
  match pc with
  | PushLoadBot _ | PushLoadTop _ _ | PushLoadArr _ _ _ | PushStoreArr _ _ _ | PushReload _ _ | PushCount _ _ _
  | PushPut _ _ _ | PushStoreBot _ _ => true
  | _ => false
  end.
Definition is_steal (pc : dq_pc) : bool :=
  match pc with
  | StealLoadTop | StealLoadBot _ | StealLoadArr _ | StealGet _ _ | StealCas _ _ => true
  | _ => false
  end.
(** What a step at [pc] does to the items: nothing, or one item goes from the end
    to the owner's hand or back, or from the front to a thief's. *)
Inductive effect (pc : dq_pc) (c h c' h' : list Z) : Prop :=
  | EffSame : c' = c -> h' = h -> effect pc c h c' h'
  | EffTake x : is_take pc = true -> c = c' ++ [x] -> h = [] -> h' = [x] -> effect pc c h c' h'
  | EffPush x : is_push pc = true -> c' = c ++ [x] -> h = [x] -> h' = [] -> effect pc c h c' h'
  | EffSteal x : is_steal pc = true -> c = x :: c' -> h = [] -> h' = [x] -> effect pc c h c' h'.
Record owner_ok (d : Ci_WSDeque) (pc : dq_pc) (d' : Ci_WSDeque) (nx : dq_next) : Prop := {
  oo_inv : DInv d' (next_owner nx);
  oo_unnoticed : unnoticed d (Some pc) d' (next_owner nx);
  oo_effect : effect pc (content d (Some pc)) (hand d pc) (content d' (next_owner nx)) (next_hand d' nx);
  oo_empty : is_take pc = true -> nx = Returns 0 -> content d' None = []
}.

Lemma content_ext d own d' own' :
  top d' = top d -> range_end d' own' = range_end d own ->
  (∀ i, top d <= i < range_end d own -> item_at d' (arr d') i = item_at d (arr d) i) -> content d' own' = content d own.
Proof.
  intros Ht He Hi. unfold content. rewrite Ht, He. apply list_fmap_ext. intros k i Hk.
  apply lookup_seqZ in Hk as [-> Hk]. apply Hi. lia.
Qed.
Lemma content_snoc d own d' own' :
  top d' = top d -> range_end d' own' = range_end d own + 1 -> top d <= range_end d own ->
  (∀ i, top d <= i < range_end d own -> item_at d' (arr d') i = item_at d (arr d) i) ->
  content d' own' = content d own ++ [item_at d' (arr d') (range_end d own)].
Proof.
  intros Ht He Hle Hi. unfold content. rewrite Ht, He.
  replace (range_end d own + 1 - top d) with ((range_end d own - top d) + 1) by lia.
  rewrite seqZ_app, fmap_app by lia. f_equal.
  - apply list_fmap_ext. intros k i Hk. apply lookup_seqZ in Hk as [-> Hk]. apply Hi. lia.
  - replace (top d + (range_end d own - top d)) with (range_end d own) by lia. done.
Qed.
Lemma content_cons d own d' own' :
  top d' = top d + 1 -> range_end d' own' = range_end d own -> top d < range_end d own -> arr d' = arr d -> arrays d' = arrays d ->
  content d own = item_at d (arr d) (top d) :: content d' own'.
Proof.
  intros Ht He Hlt Ha Hr. unfold content. rewrite Ht, He, seqZ_cons by lia. simpl. f_equal.
  replace (Z.succ (top d)) with (top d + 1) by lia. replace (Z.pred (range_end d own - top d)) with (range_end d own - (top d + 1)) by lia.
  apply list_fmap_ext. intros k i _. unfold item_at, array_get. by rewrite Ha, Hr.
Qed.
Lemma content_nil d own : range_end d own <= top d -> content d own = [].
Proof. intros H. unfold content. by rewrite seqZ_nil by lia. Qed.

(** Steps that leave the items alone. *)
Lemma owner_quiet d pc d' nx :
  DInv d (Some pc) -> top d' = top d -> arr d' = arr d -> arrays d' = arrays d ->
  range_end d' (next_owner nx) = range_end d (Some pc) -> own_ok d' (next_owner nx) -> next_hand d' nx = hand d pc ->
  (is_take pc = true -> nx = Returns 0 -> range_end d (Some pc) <= top d) -> owner_ok d pc d' nx.
Proof.
  intros [H1 H2 H3 H4 H5 H6] Ht Ha Hr He Ho Hh Hz.
  assert (Hc : content d' (next_owner nx) = content d (Some pc)).
  { apply content_ext; [done|done|]. intros i _. unfold item_at, array_get. by rewrite Ha, Hr. }
  split.
  - split; [by rewrite Hr|by rewrite Hr, Ha, He, Ht|by rewrite Ht, He|by rewrite He|by rewrite Hc|done].
  - apply unnoticed_same; [done|done|done|lia].
  - by apply EffSame.
  - intros Hk ->. simpl in *. rewrite Hc. apply content_nil. auto.
Qed.
Lemma array_get_some d own i : DInv d own -> ∃ x, array_get d (arr d) i = Some x ∧ item_at d (arr d) i = x.
Proof.
  intros HD. destruct (di_arr _ _ HD) as (a & Ha & _). unfold item_at, array_get. rewrite Ha. simpl.
  destruct (array_get_total a i) as (x & Hx); [|by exists x; rewrite Hx].
  eapply Forall_lookup_1; [exact (di_arrays _ _ HD)|exact Ha].
Qed.

Lemma take_step_ok d pc : DInv d (Some pc) -> is_take pc = true ->
  ∃ d' nx, dq_step d pc = Some (d', nx) ∧ owner_ok d pc d' nx ∧ match nx with Go pc' => is_take pc' = true | _ => True end.
Proof.
  intros HD Hk. pose proof HD as [H1 H2 H3 H4 H5 H6]. destruct pc; try done; simpl in *.
  - rewrite (proj2 (Z.eqb_neq _ _)) by lia. eexists _, _. split_and!; [done| |done]. by apply owner_quiet.
  - rewrite size_t_small by (unfold SIZE_T_MOD; lia). eexists _, _. split_and!; [done| |done]. by apply owner_quiet.
  - eexists _, _. split_and!; [done| |done]. by apply owner_quiet.
  - destruct H6 as [-> ->]. eexists _, _. split_and!; [done| |done]. apply owner_quiet; simpl; try done. lia.
  - destruct H6 as [H6 ->]. rename bot into b. destruct (Z.leb_spec (top d) b) as [Hle|Hgt]; eexists _, _.
    2:{ split_and!; [done| |done]. apply owner_quiet; simpl; try done. split; [done|lia]. }
    split_and!; [done| |done]. destruct (decide (top d = b)) as [Hb|Hb].
    { apply owner_quiet; simpl; rewrite ?Hb, ?Z.eqb_refl; try done; try (split_and!; (done || lia)). }
    assert (Hc : content d (Some (TakeLoadTop b (arr d))) =
      content d (Some (TakeGet b (arr d) (top d))) ++ [item_at d (arr d) b]).
    { rewrite (content_snoc d (Some (TakeGet b (arr d) (top d)))); simpl; rewrite ?(proj2 (Z.eqb_neq _ _)) by done;
        [done|done|done|lia|done]. }
    rewrite Hc in H5. apply Forall_app in H5 as [H5 [H5' _]%Forall_cons]. split; simpl.
    + split; simpl; rewrite ?(proj2 (Z.eqb_neq _ _)) by done; try done; try lia.
      * destruct H2 as (a & Ha & Hs). exists a. split; [done|lia].
    + split; [done|done|]. simpl. rewrite (proj2 (Z.eqb_neq _ _)) by done. intros _ _. split; [lia|auto].
    + rewrite (proj2 (Z.eqb_neq _ _)) by done. by eapply EffTake.
    + done.
  - destruct H6 as (H6 & -> & H7 & H8 & H9). rename bot into b, top into t.
    destruct (array_get_some _ _ b HD) as (x & Hx & Hi). rewrite Hx. simpl. rewrite Hi in H9.
    destruct (t =? b) eqn:Htb; eexists _, _; (split_and!; [done| |done]).
    + apply Z.eqb_eq in Htb as ->. apply owner_quiet; simpl; rewrite ?Z.eqb_refl; try done.
    + pose proof Htb as Hne%Z.eqb_neq. specialize (H9 Hne).
      assert (Hx0 : x =? 0 = false) by (by apply Z.eqb_neq).
      apply owner_quiet; simpl; rewrite ?Htb, ?Hx0; [done|done|done|done|done|done|by f_equal|]. by intros _ [= ->].
  - destruct H6 as (H6 & -> & H7 & H8). rename bot into b. destruct (Z.eqb_spec (top d) b) as [Hb|Hb]; eexists _, _.
    + split_and!; [done| |done]. rewrite size_t_small by (unfold SIZE_T_MOD; lia). specialize (H8 Hb).
      assert (Hc : content d (Some (TakeCas b b res)) = [res]).
      { unfold content. simpl. rewrite Hb. rewrite seqZ_cons, seqZ_nil by lia. simpl. by rewrite H8. }
      rewrite Hc in H5. apply Forall_cons in H5 as [H5 _].
      assert (Hc' : content (set_top (b + 1) d) (Some (TakeRestore b res)) = []) by (apply content_nil; simpl; lia).
      split; simpl.
      * destruct H2 as (a & Ha & Hs). split; [done| |simpl; lia|done|by rewrite Hc'|done].
        exists a. split; [done|simpl; lia].
      * split; simpl; [lia|lia|]. intros. lia.
      * rewrite Hc, Hc', (proj2 (Z.eqb_neq _ _)) by done. by eapply (EffTake _ _ _ _ _ res).
      * done.
    + split_and!; [done| |done]. apply owner_quiet; simpl; try done. split; [done|lia].
  - destruct H6 as [H6 H7]. rename bot into b. rewrite size_t_small by (unfold SIZE_T_MOD; lia).
    eexists _, _. split_and!; [done| |done]. apply owner_quiet; simpl; try done. intros _ _. lia.
Qed.

(** [top] of the current array can be read from any array that has it. *)
Lemma array_get_app d l a i : (a < length (arrays d))%nat -> array_get (set_arrays (arrays d ++ l) d) a i = array_get d a i.
Proof. intros Ha. unfold array_get. simpl. by rewrite lookup_app_l. Qed.
Lemma arr_lt d own : DInv d own -> (arr d < length (arrays d))%nat.
Proof. intros HD. destruct (di_arr _ _ HD) as (a & Ha & _). by eapply lookup_lt_Some. Qed.

(** Growing makes a copy of the items that the owner installs. *)
Lemma grow_step_ok d obj b t a new :
  DInv d (Some (PushLoadArr obj b t)) -> arrays d !! arr d = Some a -> array_wf new -> size new = 2 * size a ->
  bot d - top d <= size a -> (∀ j, t <= j < b -> Ci_WSArray_Get new j = Ci_WSArray_Get a j) ->
  owner_ok d (PushLoadArr obj b t) (set_arrays (arrays d ++ [new]) d) (Go (PushStoreArr obj b (length (arrays d)))).
Proof.
  intros HD Ha Hw Hs Hle Hg. pose proof (arr_lt _ _ HD) as Hlt. pose proof HD as [H1 H2 H3 H4 H5 H6]. simpl in *.
  destruct H6 as (Hp & Ht & Ht1 & _). pose proof (array_size_pos a) as Hpos.
  assert (array_wf a) as Haw by (eapply Forall_lookup_1; [exact H1|exact Ha]). specialize (Hpos Haw).
  set (d' := set_arrays (arrays d ++ [new]) d).
  assert (Hc : content d' (Some (PushStoreArr obj b (length (arrays d)))) = content d (Some (PushLoadArr obj b t))).
  { apply content_ext; [done|done|]. intros i _. unfold item_at, d'. by rewrite array_get_app. }
  split; simpl; [|..|by apply EffSame|done].
  - split; simpl; [apply Forall_app; auto| |done|done|by rewrite Hc|].
    + exists a. rewrite lookup_app_l by done. split; [done|]. lia.
    + split; [done|]. exists new. rewrite list_lookup_middle by done. split_and!; [done|lia|].
      intros j Hj. unfold d'. rewrite array_get_app by done. unfold array_get. rewrite Ha. simpl. apply Hg. destruct Hp as (_ & -> & _). lia.
  - split; [done|simpl; rewrite length_app; lia|]. intros _ Hr. unfold d'. simpl in *. rewrite array_get_app by done.
    split_and!; [done|done|]. intros a' Ha' He. by rewrite array_get_app.
Qed.
(** Writing behind the last item. *)
Lemma put_step_ok d obj b a a' :
  DInv d (Some (PushPut obj b (arr d))) -> arrays d !! arr d = Some a -> array_wf a' -> size a' = size a ->
  (∀ j, Ci_WSArray_Get a' j = if decide (j `mod` size a = b `mod` size a) then Some obj else Ci_WSArray_Get a j) ->
  owner_ok d (PushPut obj b (arr d)) (set_arrays (<[arr d := a']> (arrays d)) d) (Go (PushStoreBot obj b)).
Proof.
  intros HD Ha Hw Hs Hg. pose proof (arr_lt _ _ HD) as Hlt. pose proof HD as [H1 H2 H3 H4 H5 H6]. simpl in *.
  destruct H6 as (Hp & _ & (a0 & Ha0 & Hroom)). rewrite Ha in Ha0. injection Ha0 as <-. pose proof Hp as (Hp0 & Hp1 & Hp2).
  assert (array_wf a) as Haw by (eapply Forall_lookup_1; [exact H1|exact Ha]). pose proof (array_size_pos a Haw) as Hpos.
  set (d' := set_arrays (<[arr d := a']> (arrays d)) d).
  assert (Hcur : ∀ i, array_get d' (arr d) i = Ci_WSArray_Get a' i).
  { intros i. unfold array_get, d'. simpl. by rewrite list_lookup_insert_eq. }
  assert (Hsame : ∀ i, top d <= i < bot d -> array_get d' (arr d) i = array_get d (arr d) i).
  { intros i Hi. rewrite Hcur, Hg, decide_False by (apply slots_differ; lia). unfold array_get. by rewrite Ha. }
  assert (Hother : ∀ k i, k ≠ arr d -> array_get d' k i = array_get d k i).
  { intros k i Hk. unfold array_get, d'. simpl. by rewrite list_lookup_insert_ne by done. }
  assert (Hc : content d' (Some (PushStoreBot obj b)) = content d (Some (PushPut obj b (arr d)))).
  { apply content_ext; [done|done|]. intros i Hi. simpl in *. unfold item_at. by rewrite Hsame. }
  assert (Hroom' : has_room d').
  { exists a'. simpl. rewrite list_lookup_insert_eq by done. split; [done|]. lia. }
  split; simpl; [|..|by apply EffSame|done].
  - split; simpl; [by apply Forall_insert| |done|done|by rewrite Hc|].
    + exists a'. rewrite list_lookup_insert_eq by done. split; [done|]. lia.
    + split_and!; [done|done|]. unfold item_at. by rewrite Hcur, Hg, decide_True.
  - split; [done|simpl; by rewrite length_insert|]. intros _ Hr. simpl in *. rewrite Hsame by lia. split_and!; [done|done|].
    intros k Hk He. destruct (decide (k = arr d)) as [->|Hne]; [apply Hsame; lia|]. by rewrite Hother.
Qed.

Lemma push_step_ok d pc : DInv d (Some pc) -> is_push pc = true ->
  ∃ d' nx, dq_step d pc = Some (d', nx) ∧ owner_ok d pc d' nx ∧ match nx with Go pc' => is_push pc' = true | Returns v => v = 0 end.
Proof.
  intros HD Hk. pose proof HD as [H1 H2 H3 H4 H5 H6]. destruct pc; try done; simpl in *.
  - eexists _, _. split_and!; [done| |done]. by apply owner_quiet.
  - destruct H2 as (a & Ha & Hs). pose proof H6 as (_ & Hb & _). eexists _, _. split_and!; [done| |done]. apply owner_quiet; simpl; try done.
    split_and!; [done|lia|lia|]. exists a. split; [done|]. lia.
  - destruct H6 as (Hp & Ht & Ht1 & (a & Ha & Hs)). pose proof Hp as (Hp0 & Hp1 & Hp2). rename bot into b, top into t.
    rewrite (proj2 (Z.leb_le t b)) by lia. rewrite Ha. simpl. rewrite (size_t_small (b - t)) by (unfold SIZE_T_MOD; lia).
    assert (array_wf a) as Haw by (eapply Forall_lookup_1; [exact H1|exact Ha]).
    destruct (Z.ltb_spec (size a - 1) (b - t)) as [Hfull|Hroom].
    + destruct (grow_spec a t b Haw ltac:(lia)) as (new & -> & Hw & Hsz & Hg); [pose proof (array_size_pos a Haw); lia|].
      simpl. eexists _, _. split_and!; [done| |done]. eapply grow_step_ok; [exact HD|exact Ha|done|done|lia|done].
    + eexists _, _. split_and!; [done| |done]. apply owner_quiet; simpl; try done. split_and!; [done|done|].
      exists a. split; [done|]. lia.
  - destruct H6 as (Hp & a' & Ha' & Hs & Hg). rename bot into b. eexists _, _. split_and!; [done| |done].
    assert (Hget : ∀ j, WsDeque.top d <= j < WsDeque.bot d -> array_get (set_arr new_arr d) new_arr j = array_get d (arr d) j).
    { intros j Hj. rewrite <- Hg by done. unfold array_get. simpl. by rewrite Ha'. }
    assert (Hc : content (set_arr new_arr d) (Some (PushReload obj b)) = content d (Some (PushStoreArr obj b new_arr))).
    { apply content_ext; [done|done|]. intros i Hi. simpl in *. unfold item_at. by rewrite Hget. }
    split; simpl; [|..|by apply EffSame|done].
    + split; simpl; [done| |done|done|by rewrite Hc|].
      * exists a'. split; [done|]. lia.
      * split; [done|]. by exists a'.
    + split; [done|done|]. simpl. intros _ Hr. rewrite Hget by lia. split_and!; [done|done|]. intros k _ He. exact He.
  - destruct H6 as (Hp & Hr). eexists _, _. split_and!; [done| |done]. by apply owner_quiet.
  - destruct H6 as (Hp & -> & Hr). eexists _, _. split_and!; [done| |done]. by apply owner_quiet.
  - destruct H6 as (Hp & -> & Hr). rename bot into b. pose proof Hr as (a & Ha & Hroom). rewrite Ha. simpl.
    assert (array_wf a) as Haw by (eapply Forall_lookup_1; [exact H1|exact Ha]).
    destruct (array_put_total a b obj Haw) as (a' & -> & Hw & Hs & Hg). simpl. eexists _, _. split_and!; [done| |done].
    by eapply put_step_ok.
  - destruct H6 as (Hp & Hr & Hi). pose proof Hp as (Hp0 & Hp1 & Hp2). rename bot into b. eexists _, _. split_and!; [done| |done].
    rewrite size_t_small by (unfold SIZE_T_MOD; lia).
    assert (Hc : content (set_bot (b + 1) d) None = content d (Some (PushStoreBot obj b)) ++ [obj]).
    { rewrite (content_snoc d (Some (PushStoreBot obj b)) (set_bot (b + 1) d) None); simpl; [|done|lia|lia|done].
      rewrite <- Hp1. unfold item_at, array_get in *. simpl. by rewrite Hi. }
    split; simpl; [|..|rewrite Hc; by eapply EffPush|done].
    + split; simpl; [done| |lia|lia|rewrite Hc; apply Forall_app; auto|done].
      destruct Hr as (a & Ha & Hroom). exists a. split; [done|]. lia.
    + apply unnoticed_same; simpl; try done. lia.
Qed.

(** ** The thieves' steps *)

Lemma hand_top d t pc : hand (set_top t d) pc = hand d pc.
Proof. by destruct pc. Qed.
Lemma has_room_top d : has_room d -> has_room (set_top (top d + 1) d).
Proof. intros (a & Ha & Hs). exists a. split; [done|]. simpl. lia. Qed.
Lemma own_ok_top d own : own_ok d own -> top d < range_end d own -> own_ok (set_top (top d + 1) d) own.
Proof.
  intros Ho Hlt. pose proof (has_room_top d) as Hr.
  destruct own as [[]|]; try exact Ho; simpl in *.
  - destruct Ho as (H1 & H2 & H3 & H4 & H5). split_and!; try done. lia.
  - destruct Ho as (H1 & H2 & H3 & H4). split_and!; try done; lia.
  - lia.
  - destruct Ho as (H1 & H2 & H3). split; [done|]. split; [lia|done].
  - destruct Ho as (H1 & a' & H2 & H3 & H4). split; [done|]. exists a'. split_and!; [done|lia|].
    intros k Hk. apply H4. lia.
  - naive_solver.
  - naive_solver.
  - naive_solver.
  - naive_solver.
Qed.
Record steal_ok (d : Ci_WSDeque) (own : owner) (pc : dq_pc) (d' : Ci_WSDeque) (nx : dq_next) : Prop := {
  so_inv : DInv d' own;
  so_unnoticed : unnoticed d own d' own;
  so_effect : effect pc (content d own) [] (content d' own) (next_hand d' nx);
  so_next : match nx with Go pc' => is_steal pc' = true ∧ thief_ok d' own pc' | Returns _ => True end;
  so_hand : ∀ pc', hand d' pc' = hand d pc'
}.
Lemma steal_quiet d own pc nx : DInv d own -> next_hand d nx = [] ->
  match nx with Go pc' => is_steal pc' = true ∧ thief_ok d own pc' | Returns _ => True end -> steal_ok d own pc d nx.
Proof. intros HD Hh Hn. split; [done|by apply unnoticed_same|by apply EffSame|done|done]. Qed.
Lemma steal_step_ok d own pc : DInv d own -> thief_ok d own pc -> is_steal pc = true ->
  ∃ d' nx, dq_step d pc = Some (d', nx) ∧ steal_ok d own pc d' nx.
Proof.
  intros HD HT Hk. pose proof HD as [H1 H2 H3 H4 H5 H6]. destruct pc; try done; simpl in *.
  - eexists _, _. split; [done|]. apply steal_quiet; [done|done|]. simpl. split; [done|lia].
  - destruct (Z.ltb_spec top (bot d)) as [Hlt|Hge]; eexists _, _; (split; [done|]); apply steal_quiet; try done.
    simpl. split; [done|]. split; [done|]. intros <-. destruct own as [[]|]; simpl in *; destruct_and?; subst; try lia. case_match; lia.
  - eexists _, _. split; [done|]. apply steal_quiet; [done|done|]. simpl. destruct HT as [HT1 HT2]. split; [done|].
    split_and!; [done|by eapply arr_lt|auto].
  - destruct HT as (HT1 & HT2 & HT3). assert (Hex : ∃ x, array_get d arr top = Some x).
    { apply lookup_lt_is_Some in HT2 as (a & Ha). unfold array_get. rewrite Ha. simpl. apply array_get_total.
      eapply Forall_lookup_1; [exact H1|exact Ha]. }
    destruct Hex as (x & Hx). rewrite Hx. simpl. eexists _, _. split; [done|]. apply steal_quiet; [done|done|]. simpl.
    split; [done|]. split; [done|]. intros Ht. destruct (HT3 Ht) as [HT4 HT5]. split; [done|congruence].
  - destruct HT as (HT1 & HT2). rename top into t. destruct (Z.eqb_spec (WsDeque.top d) t) as [Ht|Ht].
    2:{ eexists _, _. split; [done|]. by apply steal_quiet. }
    destruct (HT2 Ht) as [Hlt Hget]. rewrite size_t_small by (unfold SIZE_T_MOD; lia). subst t. eexists _, _. split; [done|].
    set (d' := set_top (WsDeque.top d + 1) d).
    assert (He : range_end d' own = range_end d own) by (by destruct own as [[]|]).
    assert (Hc : content d own = res :: content d' own).
    { rewrite (content_cons d own d' own); [|done|done|done|done|done]. f_equal. unfold item_at. by rewrite Hget. }
    rewrite Hc in H5. apply Forall_cons in H5 as [Hres H5]. split; simpl.
    + split; [done| | | |done|by apply own_ok_top].
      * destruct H2 as (a & Ha & Hs). exists a. split; [done|]. rewrite He. simpl. lia.
      * rewrite He. simpl. lia.
      * by rewrite He.
    + split; simpl; [lia|done|]. intros. lia.
    + rewrite (proj2 (Z.eqb_neq _ _)) by done. by eapply EffSteal.
    + done.
    + intros pc. apply hand_top.
Qed.
(** Reading the size changes nothing. *)
Definition is_size (pc : dq_pc) : bool := match pc with SizeLoadBot | SizeLoadTop _ => true | _ => false end.
Lemma size_step_ok d pc : is_size pc = true -> ∃ nx, dq_step d pc = Some (d, nx) ∧
  match nx with Go pc' => is_size pc' = true | Returns _ => True end.
Proof. destruct pc; try done; simpl; intros _; eexists; (split; [done|done]). Qed.

(** A new deque. *)
Lemma init_ok : ∃ d, Ci_WSDeque_Init = Some d ∧ DInv d None ∧ content d None = [].
Proof.
  unfold Ci_WSDeque_Init, kCiParGCInitialArrSize. destruct (array_new 12 ltac:(lia)) as (a & Ha & Hw & Hs).
  change (Z.shiftl 1 12) with (2 ^ 12). rewrite Ha. simpl. eexists. split; [done|]. split; [|done].
  split; simpl; [by constructor| |lia|lia|by constructor|done]. exists a. split; [done|]. rewrite Hs. lia.
Qed.

(** How far the indices can get: an operation adds at most the item it pushes. *)
Definition pending (own : owner) : Z := match own with Some pc => if is_push pc then 1 else 0 | None => 0 end.
Definition reach (d : Ci_WSDeque) (own : owner) : Z := range_end d own + pending own.
Lemma reach_step d pc d' nx : DInv d (Some pc) -> is_take pc || is_push pc = true -> dq_step d pc = Some (d', nx) ->
  reach d' (next_owner nx) <= reach d (Some pc).
Proof.
  intros HD Hk Hs. pose proof (di_own _ _ HD) as Ho. pose proof (di_top _ _ HD) as Ht. pose proof (di_end _ _ HD) as He.
  unfold reach. destruct pc; try done; simpl in *; destruct_and?; simplify_option_eq;
    repeat (case_match; simplify_option_eq); rewrite ?size_t_small by (unfold SIZE_T_MOD; lia); try lia.
  destruct H1 as (_ & -> & ?). rewrite size_t_small by (unfold SIZE_T_MOD; lia). lia.
Qed.
