(* ===== verification/WsDequeSpec.v ===== *)
(** * The deque is linearizable

    The owner (thread 0) pushes and takes, any other thread steals.  Every
    interleaving of the steps of [WsDeque] has the calls and results of a run in
    which each operation acts on a list at one moment. *)

From stdpp Require Import base list gmap numbers strings.
From S2P Require Import Prelude WsDeque WsDequeInv.

Inductive dq_op := OpPush (obj : Z) | OpTake | OpSteal.
(** What can be seen of a run. *)
Inductive dq_label := Call (t : nat) (op : dq_op) | Return (t : nat) (v : Z).
Definition allowed (t : nat) (op : dq_op) : Prop :=
  match op with OpPush obj => t = 0%nat ∧ obj ≠ 0 | OpTake => t = 0%nat | OpSteal => t ≠ 0%nat end.
Definition start (op : dq_op) : dq_pc :=
  match op with OpPush obj => Ci_WSDeque_Push obj | OpTake => Ci_WSDeque_Take | OpSteal => Ci_WSDeque_Steal end.
Definition is_push_call (l : dq_label) : bool := match l with Call _ (OpPush _) => true | _ => false end.
Definition pushes (tr : list dq_label) : Z :=
  Zlen (filter (λ l, is_push_call l = true) tr).

(** ** Runs of the deque *)

Abbreviation threads := (gmap nat dq_pc).
Inductive dq_runs : Ci_WSDeque -> threads -> list dq_label -> Prop :=
  | run_init d : Ci_WSDeque_Init = Some d -> dq_runs d ∅ []
  | run_call d ts tr t op : dq_runs d ts tr -> ts !! t = None -> allowed t op ->
      dq_runs d (<[t := start op]> ts) (tr ++ [Call t op])
  | run_step d ts tr t pc d' pc' : dq_runs d ts tr -> ts !! t = Some pc -> dq_step d pc = Some (d', Go pc') ->
      dq_runs d' (<[t := pc']> ts) tr
  | run_return d ts tr t pc d' v : dq_runs d ts tr -> ts !! t = Some pc -> dq_step d pc = Some (d', Returns v) ->
      dq_runs d' (delete t ts) (tr ++ [Return t v]).

(** ** Runs of a list with atomic operations *)

Inductive athread := Invoked (op : dq_op) | Finished (v : Z).
Abbreviation athreads := (gmap nat athread).
(** [OpSteal] may answer [NULL] at any time: a thief can lose sight of the last
    item while the owner decides about it. *)
Inductive atomic_op : list Z -> dq_op -> list Z -> Z -> Prop :=
  | do_push l x : atomic_op l (OpPush x) (l ++ [x]) 0
  | do_take l x : atomic_op (l ++ [x]) OpTake l x
  | do_take_empty : atomic_op [] OpTake [] 0
  | do_steal l x : atomic_op (x :: l) OpSteal l x
  | do_steal_none l : atomic_op l OpSteal l 0.
Inductive atomic_runs : list Z -> athreads -> list dq_label -> Prop :=
  | atom_init : atomic_runs [] ∅ []
  | atom_call l ts tr t op : atomic_runs l ts tr -> ts !! t = None -> allowed t op ->
      atomic_runs l (<[t := Invoked op]> ts) (tr ++ [Call t op])
  | atom_act l ts tr t op l' v : atomic_runs l ts tr -> ts !! t = Some (Invoked op) -> atomic_op l op l' v ->
      atomic_runs l' (<[t := Finished v]> ts) tr
  | atom_return l ts tr t v : atomic_runs l ts tr -> ts !! t = Some (Finished v) ->
      atomic_runs l (delete t ts) (tr ++ [Return t v]).

(** ** The simulation *)

(** What a thread of the deque is doing, in terms of the list. *)
Definition abs_thread (d : Ci_WSDeque) (pc : dq_pc) : athread :=
  if is_steal pc then Invoked OpSteal
  else if is_take pc then match hand d pc with [] => Invoked OpTake | v :: _ => Finished v end
  else match hand d pc with x :: _ => Invoked (OpPush x) | [] => Invoked OpTake end.
Definition kind_ok (t : nat) (pc : dq_pc) : Prop :=
  if decide (t = 0%nat) then is_take pc || is_push pc = true else is_steal pc = true.
Record simulated (d : Ci_WSDeque) (ts : threads) (tr : list dq_label) (ats : athreads) : Prop := {
  sd_inv : DInv d (ts !! 0%nat);
  sd_thief : ∀ t pc, t ≠ 0%nat -> ts !! t = Some pc -> thief_ok d (ts !! 0%nat) pc;
  sd_kind : ∀ t pc, ts !! t = Some pc -> kind_ok t pc;
  sd_abs : ats = abs_thread d <$> ts;
  sd_reach : reach d (ts !! 0%nat) <= 1 + pushes tr
}.
Lemma pushes_app tr l : pushes (tr ++ [l]) = pushes tr + (if is_push_call l then 1 else 0).
Proof.
  unfold pushes. rewrite filter_app, Zlen_app. f_equal. rewrite filter_cons, filter_nil. by destruct (is_push_call l).
Qed.
(** The view of other threads is not disturbed. *)
Lemma abs_steal d pc : is_steal pc = true -> abs_thread d pc = Invoked OpSteal.
Proof. intros H. unfold abs_thread. by rewrite H. Qed.
Lemma kind_steal t pc : t ≠ 0%nat -> kind_ok t pc -> is_steal pc = true.
Proof. intros Ht. unfold kind_ok. by rewrite decide_False. Qed.
Lemma abs_others d d' (ts : threads) t x : (∀ t' pc, t' ≠ t -> ts !! t' = Some pc -> abs_thread d' pc = abs_thread d pc) ->
  abs_thread d' <$> <[t := x]> ts = <[t := abs_thread d' x]> (abs_thread d <$> ts).
Proof.
  intros Ho. apply map_eq. intros t'. rewrite lookup_fmap. destruct (decide (t' = t)) as [->|Hne].
  - by rewrite !lookup_insert_eq.
  - rewrite !lookup_insert_ne, lookup_fmap by done. destruct (ts !! t') eqn:Hl; simpl; [|done]. by rewrite (Ho t').
Qed.
Lemma abs_others_delete d d' (ts : threads) t : (∀ t' pc, t' ≠ t -> ts !! t' = Some pc -> abs_thread d' pc = abs_thread d pc) ->
  abs_thread d' <$> delete t ts = delete t (abs_thread d <$> ts).
Proof.
  intros Ho. apply map_eq. intros t'. rewrite lookup_fmap. destruct (decide (t' = t)) as [->|Hne].
  - by rewrite !lookup_delete_eq.
  - rewrite !lookup_delete_ne, lookup_fmap by done. destruct (ts !! t') eqn:Hl; simpl; [|done]. by rewrite (Ho t').
Qed.

(** ** Each step of the deque is a step of the list, or none *)

Definition start_owner (op : dq_op) : Prop := match op with OpSteal => False | _ => True end.
Lemma range_idle d pc : pc = TakeAssert ∨ (∃ x, pc = PushLoadBot x) -> range_end d (Some pc) = bot d.
Proof. by intros [->|[x ->]]. Qed.
Lemma deque_start_inv d tr op : DInv d None -> reach d None <= 1 + pushes tr -> pushes tr < 2 ^ 62 -> allowed 0 op ->
  DInv d (Some (start op)) ∧ content d (Some (start op)) = content d None ∧
  reach d (Some (start op)) <= 1 + pushes (tr ++ [Call 0 op]) ∧ unnoticed d None d (Some (start op)) ∧
  abs_thread d (start op) = Invoked op ∧ kind_ok 0 (start op).
Proof.
  intros [H1 H2 H3 H4 H5 H6] Hr Hp Ha. unfold reach in *. rewrite pushes_app. simpl in *.
  assert (Hlt : bot d + 1 < 2 ^ 63) by lia.
  destruct op as [x| |]; simpl in *; [| |done]; (split_and!; [|done|lia|by apply unnoticed_same|done|done]).
  - split; try done. simpl. unfold pushing. destruct Ha as [_ Hx]. done.
  - by split.
Qed.
(** A step of the owner. *)
Lemma owner_sim d ts tr pc d' nx ats :
  simulated d ts tr ats -> ts !! 0%nat = Some pc -> dq_step d pc = Some (d', nx) ->
  owner_ok d pc d' nx ∧ reach d' (next_owner nx) <= 1 + pushes tr ∧
  match nx with
  | Go pc' => kind_ok 0 pc' ∧ is_take pc' = is_take pc
  | Returns v => is_take pc = false -> v = 0
  end.
Proof.
  intros [H1 H2 H3 H4 H5] Hpc Hs. pose proof (H3 _ _ Hpc) as Hk. unfold kind_ok in Hk. rewrite decide_True in Hk by done.
  rewrite Hpc in *. pose proof (reach_step _ _ _ _ H1 Hk Hs) as Hr. apply orb_true_iff in Hk as [Hk|Hk].
  - destruct (take_step_ok d pc H1 Hk) as (d1 & nx1 & Hs1 & Ho & Hn). rewrite Hs in Hs1. injection Hs1 as <- <-.
    split; [done|]. split; [lia|]. destruct nx as [pc'|v]; [|congruence]. rewrite Hk, Hn. split; [|done].
    unfold kind_ok. rewrite decide_True by done. by rewrite Hn.
  - destruct (push_step_ok d pc H1 Hk) as (d1 & nx1 & Hs1 & Ho & Hn). rewrite Hs in Hs1. injection Hs1 as <- <-.
    split; [done|]. split; [lia|]. destruct nx as [pc'|v]; [|done]. split.
    + unfold kind_ok. rewrite decide_True by done. by rewrite Hn, orb_true_r.
    + by destruct pc, pc'.
Qed.
Lemma push_hand d pc : is_push pc = true -> ∃ x, hand d pc = [x].
Proof. destruct pc; try done; intros _; by eexists. Qed.
Lemma owner_kinds pc : is_take pc || is_push pc = true -> is_steal pc = false ∧ (is_take pc = false -> is_push pc = true).
Proof. by destruct pc. Qed.
(** What a step of the owner is for the list: nothing, an operation, or an
    operation that returns at once. *)
Lemma atomic_owner d pc d' nx :
  owner_ok d pc d' nx -> is_take pc || is_push pc = true ->
  match nx with Go pc' => is_take pc' || is_push pc' = true ∧ is_take pc' = is_take pc | Returns v => is_take pc = false -> v = 0 end ->
  (content d' (next_owner nx) = content d (Some pc) ∧
   match nx with Go pc' => abs_thread d' pc' = abs_thread d pc | Returns v => abs_thread d pc = Finished v end) ∨
  ∃ op v, abs_thread d pc = Invoked op ∧ atomic_op (content d (Some pc)) op (content d' (next_owner nx)) v ∧
    match nx with Go pc' => abs_thread d' pc' = Finished v | Returns v' => v' = v end.
Proof.
  intros [_ _ H3 H4] Hk Hn. pose proof (owner_kinds _ Hk) as [Hst Hp]. unfold abs_thread. rewrite Hst.
  destruct H3 as [Hc Hh|x Ht Hc Hh Hh'|x Hpu Hc Hh Hh'|x Hs]; [| | |congruence].
  - destruct nx as [pc'|v]; simpl in *.
    { destruct Hn as [Hk' Ht']. pose proof (owner_kinds _ Hk') as [-> _]. rewrite Ht', Hh. by left. }
    destruct (is_take pc) eqn:Ht.
    2:{ destruct (push_hand d pc (Hp eq_refl)) as (x & Hx). rewrite (Hn eq_refl), Hx in Hh. done. }
    destruct (Z.eqb_spec v 0) as [->|Hv].
    + right. exists OpTake, 0. rewrite <- Hh. rewrite <- Hc, H4 by done. by repeat constructor.
    + left. rewrite <- Hh. done.
  - right. rewrite Ht, Hh. exists OpTake, x. split; [done|]. rewrite Hc. split; [constructor|].
    destruct nx as [pc'|v]; simpl in *.
    + destruct Hn as [Hk' Ht']. pose proof (owner_kinds _ Hk') as [-> _]. by rewrite Ht', Ht, Hh'.
    + destruct (v =? 0); naive_solver.
  - right. assert (Ht : is_take pc = false) by (by destruct pc). rewrite Ht, Hh. exists (OpPush x), 0. split; [done|].
    rewrite Hc. split; [constructor|]. destruct nx as [pc'|v]; [|by apply Hn].
    destruct Hn as [Hk' Ht']. pose proof (owner_kinds _ Hk') as [_ Hp']. rewrite Ht', Ht in Hp'.
    destruct (push_hand d' pc' (Hp' eq_refl)) as (y & Hy). simpl in Hh'. congruence.
Qed.
(** A thief's step. *)
Lemma atomic_thief d own pc d' nx :
  steal_ok d own pc d' nx -> is_steal pc = true ->
  content d' own = content d own ∧ (∃ pc', nx = Go pc' ∧ is_steal pc' = true) ∨
  ∃ v, atomic_op (content d own) OpSteal (content d' own) v ∧ nx = Returns v.
Proof.
  intros [_ _ H3 H4 _] Hs. destruct H3 as [Hc Hh|x Ht|x Hp|x _ Hc _ Hh']; [|by destruct pc|by destruct pc|].
  - destruct nx as [pc'|v]; simpl in *; [left; naive_solver|]. right. exists v. rewrite Hc.
    destruct (Z.eqb_spec v 0) as [->|Hv]; [|done]. by repeat constructor.
  - destruct nx as [pc'|v]; simpl in *.
    + destruct H4 as [H4 _]. by destruct pc'.
    + right. exists v. rewrite Hc. destruct (v =? 0); [done|]. injection Hh' as ->. by repeat constructor.
Qed.

(** ** The simulation is kept *)

Definition set_thread (t : nat) (nx : dq_next) (ts : threads) : threads :=
  match nx with Go pc => <[t := pc]> ts | Returns _ => delete t ts end.
Lemma set_thread_other t nx ts t' : t' ≠ t -> set_thread t nx ts !! t' = ts !! t'.
Proof. intros Hne. destruct nx; simpl; [by rewrite lookup_insert_ne|by rewrite lookup_delete_ne]. Qed.
Lemma set_thread_owner nx ts : set_thread 0 nx ts !! 0%nat = next_owner nx.
Proof. destruct nx; simpl; [by rewrite lookup_insert_eq|by rewrite lookup_delete_eq]. Qed.
Lemma set_thread_inv t nx ts t' pc : set_thread t nx ts !! t' = Some pc ->
  t' = t ∧ nx = Go pc ∨ t' ≠ t ∧ ts !! t' = Some pc.
Proof. destruct nx; simpl; intros H; [apply lookup_insert_Some in H|apply lookup_delete_Some in H]; naive_solver. Qed.
Lemma abs_set_thread d d' ts t nx :
  (∀ t' pc, t' ≠ t -> ts !! t' = Some pc -> abs_thread d' pc = abs_thread d pc) ->
  abs_thread d' <$> set_thread t nx ts =
  match nx with Go pc => <[t := abs_thread d' pc]> (abs_thread d <$> ts) | Returns _ => delete t (abs_thread d <$> ts) end.
Proof. intros H. destruct nx; simpl; [by apply abs_others|by apply abs_others_delete]. Qed.
(** The owner moves. *)
Lemma simulated_owner d ts tr tr' ats d' nx : simulated d ts tr ats ->
  DInv d' (next_owner nx) -> unnoticed d (ts !! 0%nat) d' (next_owner nx) -> reach d' (next_owner nx) <= 1 + pushes tr' ->
  match nx with Go pc => kind_ok 0 pc | Returns _ => True end ->
  simulated d' (set_thread 0 nx ts) tr'
    match nx with Go pc => <[0%nat := abs_thread d' pc]> ats | Returns _ => delete 0%nat ats end.
Proof.
  intros [H1 H2 H3 -> H5] HD Hu Hr Hk. split; rewrite ?set_thread_owner; [done| | | |done].
  - intros t pc Ht. rewrite set_thread_other by done. intros Hpc. eapply thief_stable; [exact Hu|]. by eapply H2.
  - intros t pc [[-> ->]|[_ Hpc]]%set_thread_inv; [done|by apply H3].
  - symmetry. apply abs_set_thread. intros t pc Hne Hpc. pose proof (kind_steal _ _ Hne (H3 _ _ Hpc)) as Hs.
    by rewrite !abs_steal.
Qed.
(** A thief moves. *)
Lemma simulated_thief d ts tr tr' ats d' nx t : simulated d ts tr ats -> t ≠ 0%nat ->
  DInv d' (ts !! 0%nat) -> unnoticed d (ts !! 0%nat) d' (ts !! 0%nat) -> (∀ pc, hand d' pc = hand d pc) ->
  reach d' (ts !! 0%nat) <= 1 + pushes tr' ->
  match nx with Go pc => is_steal pc = true ∧ thief_ok d' (ts !! 0%nat) pc | Returns _ => True end ->
  simulated d' (set_thread t nx ts) tr'
    match nx with Go pc => <[t := abs_thread d' pc]> ats | Returns _ => delete t ats end.
Proof.
  intros [H1 H2 H3 -> H5] Ht HD Hu Hh Hr Hk. split; rewrite ?set_thread_other by done; [done| | | |done].
  - intros t' pc Ht' [[-> ->]|[_ Hpc]]%set_thread_inv; [apply Hk|]. eapply thief_stable; [exact Hu|]. by eapply H2.
  - intros t' pc [[-> ->]|[_ Hpc]]%set_thread_inv; [|by apply H3]. unfold kind_ok. rewrite decide_False by done. apply Hk.
  - symmetry. apply abs_set_thread. intros t' pc _ _. unfold abs_thread. by rewrite Hh.
Qed.
Lemma reach_thief d own pc d' nx : is_steal pc = true -> dq_step d pc = Some (d', nx) -> reach d' own = reach d own.
Proof.
  intros Hk Hs. unfold reach. f_equal. destruct pc; try done; simpl in *; simplify_option_eq; try done;
    case_match; simplify_eq; destruct own as [[]|]; done.
Qed.

(** A call, a step and a return of a simulated state. *)
Lemma simulated_call d ts tr ats t op : simulated d ts tr ats -> pushes tr < 2 ^ 62 -> ts !! t = None -> allowed t op ->
  let ts' := <[t := start op]> ts in
  simulated d ts' (tr ++ [Call t op]) (<[t := Invoked op]> ats) ∧ content d (ts' !! 0%nat) = content d (ts !! 0%nat).
Proof.
  intros HS Hp Ht Ha ts'. pose proof HS as [H1 H2 H3 H4 H5]. unfold ts'. destruct (decide (t = 0%nat)) as [->|Hne].
  - rewrite Ht in *. destruct (deque_start_inv d tr op H1 H5 Hp Ha) as (Hi & Hc & Hr & Hu & <- & Hk).
    rewrite lookup_insert_eq. split; [|done]. apply (simulated_owner d ts tr _ ats d (Go (start op))); try done. by rewrite Ht.
  - rewrite lookup_insert_ne by done. split; [|done]. destruct op as [x| |]; [by destruct Ha|done|].
    apply (simulated_thief d ts tr _ ats d (Go StealLoadTop)); try done. rewrite pushes_app. simpl. lia.
Qed.
Lemma simulated_step d ts tr ats t pc d' nx l : simulated d ts tr ats -> atomic_runs l ats tr -> l = content d (ts !! 0%nat) ->
  ts !! t = Some pc -> dq_step d pc = Some (d', nx) ->
  let ts' := set_thread t nx ts in let tr' := match nx with Go _ => tr | Returns v => tr ++ [Return t v] end in
  ∃ ats', simulated d' ts' tr' ats' ∧ atomic_runs (content d' (ts' !! 0%nat)) ats' tr'.
Proof.
  intros HS HA -> Hpc Hs ts' tr'. pose proof HS as [H1 H2 H3 H4 H5]. assert (Htr : pushes tr' = pushes tr).
  { unfold tr'. destruct nx; [done|]. rewrite pushes_app. simpl. lia. }
  assert (Hat : ats !! t = Some (abs_thread d pc)) by (rewrite H4, lookup_fmap, Hpc; done).
  eexists. destruct (decide (t = 0%nat)) as [->|Hne].
  - destruct (owner_sim _ _ _ _ _ _ _ HS Hpc Hs) as (Ho & Hr & Hn). pose proof (H3 _ _ Hpc) as Hk. unfold kind_ok in Hk.
    rewrite decide_True in Hk by done. split.
    { apply (simulated_owner _ _ _ _ _ _ _ HS); [apply Ho|rewrite Hpc; apply Ho|by rewrite Htr|destruct nx; [apply Hn|done]]. }
    unfold ts'. rewrite set_thread_owner, Hpc in *. rewrite H4 in *. destruct (atomic_owner d pc d' nx Ho Hk) as [(Hc & Hx)|(op & v & Ha & Hop & Hx)].
    { destruct nx; [|done]. destruct Hn as [Hn1 Hn2]. by unfold kind_ok in Hn1; rewrite decide_True in Hn1. }
    + rewrite Hc. unfold tr'. destruct nx as [pc'|v].
      * rewrite Hx, insert_id by done. done.
      * eapply atom_return; [done|]. by rewrite Hat, Hx.
    + rewrite Ha in Hat. pose proof (atom_act _ _ _ _ _ _ _ HA Hat Hop) as HA'. unfold tr'. destruct nx as [pc'|v'].
      * by rewrite Hx.
      * subst v'. rewrite <- (delete_insert_eq (abs_thread d <$> ts) 0%nat (Finished v)).
        eapply atom_return; [exact HA'|]. by rewrite lookup_insert_eq.
  - pose proof (kind_steal _ _ Hne (H3 _ _ Hpc)) as Hk. rewrite (abs_steal _ _ Hk) in Hat.
    destruct (steal_step_ok d _ pc H1 (H2 _ _ Hne Hpc) Hk) as (d1 & nx1 & Hs1 & Ho). rewrite Hs in Hs1. injection Hs1 as <- <-.
    split.
    { apply (simulated_thief _ _ _ _ _ _ _ _ HS); [done|apply Ho..| |apply Ho].
      rewrite Htr, (reach_thief _ _ _ _ _ Hk Hs). done. }
    unfold ts'. rewrite set_thread_other by done. destruct (atomic_thief _ _ _ _ _ Ho Hk) as [(Hc & pc' & -> & Hk')|(v & Hop & ->)].
    + rewrite Hc, (abs_steal _ _ Hk'), insert_id by done. done.
    + pose proof (atom_act _ _ _ _ _ _ _ HA Hat Hop) as HA'. unfold tr'. rewrite <- (delete_insert_eq ats t (Finished v)).
      eapply atom_return; [exact HA'|]. by rewrite lookup_insert_eq.
Qed.
Lemma runs_simulated d ts tr : dq_runs d ts tr -> pushes tr < 2 ^ 62 ->
  ∃ ats, simulated d ts tr ats ∧ atomic_runs (content d (ts !! 0%nat)) ats tr.
Proof.
  induction 1 as [d Hd|d ts tr t op Hr IH Ht Ha|d ts tr t pc d' pc' Hr IH Ht Hs|d ts tr t pc d' v Hr IH Ht Hs]; intros Hp.
  - destruct init_ok as (d0 & Hd0 & HD & Hc). rewrite Hd in Hd0. injection Hd0 as <-. exists ∅. rewrite lookup_empty, Hc.
    split; [|constructor]. split; [by rewrite lookup_empty|by intros ? ? ? ?|by intros ? ?|by rewrite fmap_empty|].
    rewrite lookup_empty. unfold Ci_WSDeque_Init in Hd. simplify_option_eq. done.
  - rewrite pushes_app in Hp. destruct IH as (ats & HS & HA); [destruct (is_push_call _); lia|].
    destruct (simulated_call _ _ _ _ _ _ HS ltac:(destruct (is_push_call _); lia) Ht Ha) as [HS' Hc]. eexists. split; [exact HS'|]. rewrite Hc.
    apply atom_call; [done| |done]. by rewrite (sd_abs _ _ _ _ HS), lookup_fmap, Ht.
  - destruct (IH Hp) as (ats & HS & HA). exact (simulated_step _ _ _ _ _ _ _ (Go pc') _ HS HA eq_refl Ht Hs).
  - rewrite pushes_app in Hp. simpl in Hp. destruct (IH ltac:(lia)) as (ats & HS & HA).
    exact (simulated_step _ _ _ _ _ _ _ (Returns v) _ HS HA eq_refl Ht Hs).
Qed.
(** Every thread of a simulated state can go on. *)
Lemma simulated_runs_on d ts tr ats t pc : simulated d ts tr ats -> ts !! t = Some pc -> is_Some (dq_step d pc).
Proof.
  intros [H1 H2 H3 H4 H5] Ht. pose proof (H3 _ _ Ht) as Hk. destruct (decide (t = 0%nat)) as [->|Hne].
  - unfold kind_ok in Hk. rewrite decide_True in Hk by done. rewrite Ht in *. apply orb_true_iff in Hk as [Hk|Hk].
    + destruct (take_step_ok d pc H1 Hk) as (? & ? & -> & _). by eexists.
    + destruct (push_step_ok d pc H1 Hk) as (? & ? & -> & _). by eexists.
  - destruct (steal_step_ok d _ pc H1 (H2 _ _ Hne Ht) (kind_steal _ _ Hne Hk)) as (? & ? & -> & _). by eexists.
Qed.

(** ** Schedules *)

(** A run is given by its calls and by which thread makes each step. *)
Inductive dq_event := ECall (t : nat) (op : dq_op) | EStep (t : nat).
Definition dq_event_step (s : Ci_WSDeque * threads * list dq_label) (e : dq_event) :
    option (Ci_WSDeque * threads * list dq_label) :=
  let '(d, ts, tr) := s in
  match e with
  | ECall t op => match ts !! t with None => Some (d, <[t := start op]> ts, tr ++ [Call t op]) | Some _ => None end
  | EStep t =>
      pc ← ts !! t; r ← dq_step d pc;
      Some match r with
           | (d', Go pc') => (d', <[t := pc']> ts, tr)
           | (d', Returns v) => (d', delete t ts, tr ++ [Return t v])
           end
  end.
Fixpoint dq_schedule (s : Ci_WSDeque * threads * list dq_label) (l : list dq_event) :
    option (Ci_WSDeque * threads * list dq_label) :=
  match l with [] => Some s | e :: l => s ← dq_event_step s e; dq_schedule s l end.
Definition call_allowed (e : dq_event) : Prop := match e with ECall t op => allowed t op | EStep _ => True end.
Lemma schedule_runs l : ∀ d ts tr d' ts' tr', Forall call_allowed l -> dq_runs d ts tr ->
  dq_schedule (d, ts, tr) l = Some (d', ts', tr') -> dq_runs d' ts' tr'.
Proof.
  induction l as [|e l IH]; intros d ts tr d' ts' tr' Hl Hr; simpl; [congruence|].
  apply Forall_cons in Hl as [He Hl]. destruct e as [t op|t]; simpl in *.
  - destruct (ts !! t) eqn:Ht; [done|]. simpl. apply IH; [done|]. by apply run_call.
  - destruct (ts !! t) as [pc|] eqn:Ht; [|done]. simpl. destruct (dq_step d pc) as [[d1 [pc1|v]]|] eqn:Hs; [| |done]; simpl; apply IH; try done.
    + by eapply run_step.
    + by eapply run_return.
Qed.
(** The owner pushes two objects and takes one back while two thieves compete for
    the other one. *)
Definition duel : list dq_event :=
  [ECall 0 (OpPush 11)] ++ replicate 5 (EStep 0) ++ [ECall 0 (OpPush 12)] ++ replicate 5 (EStep 0) ++
  [ECall 1 OpSteal; ECall 2 OpSteal; ECall 0 OpTake] ++
  [EStep 1; EStep 0; EStep 2; EStep 0; EStep 1; EStep 2; EStep 0; EStep 2; EStep 0; EStep 1; EStep 0; EStep 2; EStep 2;
   EStep 0; EStep 1; EStep 1; EStep 1; EStep 1].
Definition duel_trace : list dq_label :=
  [Call 0 (OpPush 11); Return 0 0; Call 0 (OpPush 12); Return 0 0; Call 1 OpSteal; Call 2 OpSteal; Call 0 OpTake;
   Return 2 11; Return 0 12; Return 1 0].

(** C9. The deque is linearizable: whatever the interleaving of one owner that
    pushes and takes with any number of thieves, the calls and results are those
    of a list on which each operation acts at one moment between its call and
    its return (a push at the back, a take from the back, a steal from the front
    or a failure that takes nothing), the deque holds the items of that list, and no
    thread fails an assertion or accesses an array out of bounds. *)
Theorem ws_deque_linearizable d ts tr : dq_runs d ts tr -> pushes tr < 2 ^ 62 ->
  (∃ ats, atomic_runs (content d (ts !! 0%nat)) ats tr ∧ dom ats = dom ts) ∧
  ∀ t pc, ts !! t = Some pc -> is_Some (dq_step d pc).
Proof.
  intros Hr Hp. destruct (runs_simulated _ _ _ Hr Hp) as (ats & HS & HA). split.
  - exists ats. split; [done|]. rewrite (sd_abs _ _ _ _ HS). apply leibniz_equiv_iff, dom_fmap.
  - intros t pc. by eapply simulated_runs_on.
Qed.
Lemma ws_deque_linearizable_witness : ∃ d ts, dq_runs d ts duel_trace ∧
  (∃ ats, atomic_runs (content d (ts !! 0%nat)) ats duel_trace ∧ dom ats = dom ts) ∧
  ∀ t pc, ts !! t = Some pc -> is_Some (dq_step d pc).
Proof.
  destruct init_ok as (d0 & Hd0 & _).
  assert (Ht : snd <$> (d ← Ci_WSDeque_Init; dq_schedule (d, ∅, []) duel) = Some duel_trace) by (by vm_compute).
  rewrite Hd0 in Ht. change (snd <$> dq_schedule (d0, ∅, []) duel = Some duel_trace) in Ht.
  destruct (dq_schedule (d0, ∅, []) duel) as [[[d ts] tr]|] eqn:Hs; [|done].
  simpl in Ht. injection Ht as ->. assert (Hr : dq_runs d ts duel_trace).
  { eapply schedule_runs; [|by apply run_init|exact Hs].
    unfold duel. simpl. by repeat (apply Forall_cons_2; [done|]). }
  exists d, ts. split; [exact Hr|]. apply (ws_deque_linearizable d ts duel_trace Hr). by vm_compute.
Defined.
