(* ===== verification/GcHead.v ===== *)
(** * The lists of the garbage collector

    The headers of tracked objects and the circular lists they form, of
    [parallel_gc.c].  The two words of a header carry flags in their low bits,
    and during a collection [_gc_prev] carries a count. *)

From stdpp Require Import base list gmap numbers strings.
From S2P Require Import Prelude.

(** [PyGC_Head]. *)
Record gchead := GCHead { _gc_next : Z; _gc_prev : Z }.
(** The headers of all objects and lists by address, and the rest of the
    interpreter. *)
Record gcmem (E : Type) := GCMem { heads : gmap Z gchead; world : E }.
Arguments GCMem {E} _ _.
Arguments heads {E} _.
Arguments world {E} _.

(** Addresses of headers are multiples of 4. *)
Definition aligned (p : Z) : Prop := 0 <= p < SIZE_T_MOD ∧ p `mod` 4 = 0.

(** What CPython defines: the flags of [_gc_prev] and its count, and the
    macros that read and write the pointers, which leave the flags alone. *)
Class GcLayout := {
  PREV_SHIFT : Z;
  PREV_MASK : Z;
  PREV_MASK_FINALIZED : Z;
  PREV_MASK_COLLECTING : Z;
  head_next : Z -> Z;
  head_set_next : Z -> Z -> Z;
  head_prev : Z -> Z;
  head_set_prev : Z -> Z -> Z;
  prev_shift_is : PREV_SHIFT = 2;
  prev_mask_is : PREV_MASK = SIZE_T_MOD - 4;
  finalized_is : PREV_MASK_FINALIZED = 1;
  collecting_is : PREV_MASK_COLLECTING = 2;
  head_next_is : ∀ p, aligned p -> head_next p = p;
  head_set_next_is : ∀ w p, aligned w -> aligned p -> head_set_next w p = p;
  head_prev_is : ∀ w, 0 <= w < SIZE_T_MOD -> head_prev w = w - w `mod` 4;
  head_set_prev_is : ∀ w p, 0 <= w < SIZE_T_MOD -> aligned p -> head_set_prev w p = p + w `mod` 4
}.
(** The objects: counts, what [tp_traverse] visits, in order, whether an object
    has a header, is immortal, has a [tp_del]. *)
Class GcApi (E : Type) := {
  Py_REFCNT : E -> Z -> Z;
  tp_traverse : E -> Z -> list Z;
  PyObject_IS_GC : E -> Z -> bool;
  Py_IsImmortal : E -> Z -> bool;
  tp_del : E -> Z -> bool
}.

Definition NEXT_MASK_UNREACHABLE : Z := 2.
(** [sizeof(PyGC_Head)] is 16. *)
Definition AS_GC (o : Z) : Z := o - 16.
Definition FROM_GC (g : Z) : Z := g + 16.

Section head.
Context {E : Type} {lay : GcLayout}.

Definition GM (A : Type) : Type := M (gcmem E) A.
Definition set_heads (hs : gmap Z gchead) (m : gcmem E) : gcmem E := GCMem hs (world m).
Definition get_head (g : Z) : GM gchead := m ← mget; mlift (heads m !! g).
Definition put_head (g : Z) (hd : gchead) : GM unit :=
  m ← mget; _ ← mlift (heads m !! g); mput (set_heads (<[g := hd]> (heads m)) m).
Definition load_next (g : Z) : GM Z := hd ← get_head g; mret (_gc_next hd).
Definition load_prev (g : Z) : GM Z := hd ← get_head g; mret (_gc_prev hd).
Definition store_next (g w : Z) : GM unit := hd ← get_head g; put_head g (GCHead w (_gc_prev hd)).
Definition store_prev (g w : Z) : GM unit := hd ← get_head g; put_head g (GCHead (_gc_next hd) w).

Definition GC_NEXT (g : Z) : GM Z := w ← load_next g; mret (head_next w).
Definition GC_PREV (g : Z) : GM Z := w ← load_prev g; mret (head_prev w).
Definition SET_NEXT (g p : Z) : GM unit := w ← load_next g; store_next g (head_set_next w p).
Definition SET_PREV (g p : Z) : GM unit := w ← load_prev g; store_prev g (head_set_prev w p).

(** ** The flags and the count in [_gc_prev] *)

Definition gc_is_collecting (g : Z) : GM bool :=
  w ← load_prev g; mret (negb (Z.land w PREV_MASK_COLLECTING =? 0)).
Definition gc_clear_collecting (g : Z) : GM unit :=
  w ← load_prev g; store_prev g (Z.land w (Z.lnot PREV_MASK_COLLECTING)).
Definition gc_get_refs (g : Z) : GM Z :=
  w ← load_prev g; mret (ssize_t (Z.shiftr w PREV_SHIFT)).
Definition gc_set_refs (g refs : Z) : GM unit :=
  w ← load_prev g;
  store_prev g (Z.lor (Z.land w (Z.lnot PREV_MASK)) (size_t (Z.shiftl (size_t refs) PREV_SHIFT))).
Definition gc_reset_refs (g refs : Z) : GM unit :=
  w ← load_prev g;
  store_prev g (Z.lor (Z.lor (Z.land w PREV_MASK_FINALIZED) PREV_MASK_COLLECTING)
                  (size_t (Z.shiftl (size_t refs) PREV_SHIFT))).
Definition gc_decref (g : Z) : GM unit :=
  refs ← gc_get_refs g;
  _ ← cassert (0 <? refs);
  w ← load_prev g;
  store_prev g (size_t (w - Z.shiftl 1 PREV_SHIFT)).

(** ** Lists *)

Definition gc_list_init (list : Z) : GM unit :=
  m ← mget; mput (set_heads (<[list := GCHead list list]> (heads m)) m).
Definition gc_list_is_empty (list : Z) : GM bool := w ← load_next list; mret (w =? list).
Definition gc_list_append (node list : Z) : GM unit :=
  last ← load_prev list;
  _ ← SET_PREV node last;
  _ ← SET_NEXT last node;
  _ ← SET_NEXT node list;
  store_prev list node.
Definition gc_list_move (node list : Z) : GM unit :=
  from_prev ← GC_PREV node;
  from_next ← GC_NEXT node;
  _ ← SET_NEXT from_prev from_next;
  _ ← SET_PREV from_next from_prev;
  to_prev ← load_prev list;
  _ ← SET_PREV node to_prev;
  _ ← SET_NEXT to_prev node;
  _ ← store_prev list node;
  SET_NEXT node list.
Definition gc_list_merge (from to : Z) : GM unit :=
  _ ← cassert (negb (from =? to));
  empty ← gc_list_is_empty from;
  _ ← (if empty : bool then mret tt
       else
         to_tail ← GC_PREV to;
         from_head ← GC_NEXT from;
         from_tail ← GC_PREV from;
         _ ← cassert (negb (from_head =? from));
         _ ← cassert (negb (from_tail =? from));
         _ ← SET_NEXT to_tail from_head;
         _ ← SET_PREV from_head to_tail;
         _ ← SET_NEXT from_tail to;
         SET_PREV to from_tail);
  gc_list_init from.

(** Loops over a list have fuel for every header there is. *)
Definition list_fuel (m : gcmem E) : nat := S (size (heads m)).
(** [for (gc = GC_NEXT(list); gc != list; gc = GC_NEXT(gc))]. *)
Fixpoint gc_list_each {A} (fuel : nat) (body : Z -> A -> GM A) (list gc : Z) (acc : A) : GM A :=
  match fuel with
  | O => mnofuel
  | S fuel =>
      if gc =? list then mret acc
      else
        acc ← body gc acc;
        gc ← GC_NEXT gc;
        gc_list_each fuel body list gc acc
  end.
Definition gc_list_for {A} (body : Z -> A -> GM A) (list : Z) (acc : A) : GM A :=
  m ← mget; gc ← GC_NEXT list; gc_list_each (list_fuel m) body list gc acc.
Definition gc_list_size (list : Z) : GM Z := gc_list_for (λ _ n, mret (n + 1)) list 0.
Definition gc_list_clear_collecting (collectable : Z) : GM unit :=
  gc_list_for (λ gc _, gc_clear_collecting gc) collectable tt.
End head.
#[global] Arguments GM E A : clear implicits.
