(* ===== verification/GcDeduce.v ===== *)
(** * Finding the objects that are not reachable from outside

    [update_refs] to [deduce_unreachable] of [parallel_gc.c], what follows it
    in a collection up to the first call of user code, and the resurrection
    check. *)

From stdpp Require Import base list gmap numbers strings.
From S2P Require Import Prelude GcHead.

Section deduce.
Context {E : Type} {lay : GcLayout} {api : GcApi E}.
(** [&gcstate->permanent_generation.head]. *)
Variable permanent_generation : Z.

(** [tp_traverse] calls [visit] on each object it refers to, until one call
    answers other than 0. *)
Fixpoint visit_each (visit : Z -> GM E Z) (l : list Z) : GM E Z :=
  match l with
  | [] => mret 0
  | o :: l => r ← visit o; if r =? 0 then visit_each visit l else mret r
  end.
Definition traverse (op : Z) (visit : Z -> GM E Z) : GM E Z :=
  m ← mget; visit_each visit (tp_traverse (world m) op).

Fixpoint update_refs_loop (fuel : nat) (containers gc num_seen : Z) : GM E Z :=
  match fuel with
  | O => mnofuel
  | S fuel =>
      if gc =? containers then mret num_seen
      else
        next ← GC_NEXT gc;
        m ← mget;
        if Py_IsImmortal (world m) (FROM_GC gc) then
          _ ← gc_list_move gc permanent_generation;
          update_refs_loop fuel containers next num_seen
        else
          _ ← gc_reset_refs gc (Py_REFCNT (world m) (FROM_GC gc));
          refs ← gc_get_refs gc;
          _ ← cassert (negb (refs =? 0));
          update_refs_loop fuel containers next (size_t (num_seen + 1))
  end.
Definition update_refs (containers : Z) : GM E Z :=
  m ← mget; gc ← GC_NEXT containers; update_refs_loop (list_fuel m) containers gc 0.

Definition visit_decref (op : Z) : GM E Z :=
  m ← mget;
  if PyObject_IS_GC (world m) op then
    let gc := AS_GC op in
    collecting ← gc_is_collecting gc;
    _ ← (if (collecting : bool) then gc_decref gc else mret tt);
    mret 0
  else mret 0.
Definition subtract_refs (containers : Z) : GM E unit :=
  gc_list_for (λ gc _, _ ← traverse (FROM_GC gc) visit_decref; mret tt) containers tt.

(** Takes [gc] out of the list of tentatively unreachable objects, whose links
    carry the flag, and puts it back at the end of [reachable]. *)
Definition unflag (w : Z) : Z := Z.land w (Z.lnot NEXT_MASK_UNREACHABLE).
Definition flagged (w : Z) : bool := negb (Z.land w NEXT_MASK_UNREACHABLE =? 0).
Definition rescue (gc reachable : Z) : GM E unit :=
  prev ← GC_PREV gc;
  w ← load_next gc;
  let next := unflag w in
  pn ← load_next prev;
  _ ← cassert (flagged pn);
  nn ← load_next next;
  _ ← cassert (flagged nn);
  _ ← store_next prev w;
  w ← load_next gc;
  _ ← store_next gc (unflag w);
  _ ← SET_PREV next prev;
  _ ← gc_list_append gc reachable;
  gc_set_refs gc 1.
Definition visit_reachable (reachable op : Z) : GM E Z :=
  m ← mget;
  if negb (PyObject_IS_GC (world m) op) then mret 0
  else
    let gc := AS_GC op in
    gc_refs ← gc_get_refs gc;
    collecting ← gc_is_collecting gc;
    if negb collecting then mret 0
    else
      w ← load_next gc;
      _ ← cassert (negb (w =? 0));
      _ ← (if flagged w then rescue gc reachable
           else if gc_refs =? 0 then gc_set_refs gc 1
           else cassert (0 <? gc_refs));
      mret 0.

(** Moves [gc], which follows [prev], to the end of [unreachable]; [put_aside] is
    the second half of that. *)
Definition put_aside (gc unreachable : Z) : GM E unit :=
  last ← GC_PREV unreachable;
  _ ← store_next last (Z.lor NEXT_MASK_UNREACHABLE gc);
  _ ← SET_PREV gc last;
  _ ← store_next gc (Z.lor NEXT_MASK_UNREACHABLE unreachable);
  store_prev unreachable gc.
Definition condemn (prev gc unreachable : Z) : GM E unit :=
  w ← load_next gc;
  _ ← store_next prev w;
  put_aside gc unreachable.
(** Each object is put aside at most once and scanned at most once. *)
Fixpoint move_unreachable_loop (fuel : nat) (young unreachable prev gc : Z) : GM E Z :=
  match fuel with
  | O => mnofuel
  | S fuel =>
      if gc =? young then mret prev
      else
        refs ← gc_get_refs gc;
        prev ← (if negb (refs =? 0) then
                  _ ← cassert (0 <? refs);
                  _ ← traverse (FROM_GC gc) (visit_reachable young);
                  _ ← SET_PREV gc prev;
                  _ ← gc_clear_collecting gc;
                  mret gc
                else _ ← condemn prev gc unreachable; mret prev);
        gc ← GC_NEXT prev;
        move_unreachable_loop fuel young unreachable prev gc
  end.
Definition move_unreachable (young unreachable : Z) : GM E unit :=
  m ← mget;
  gc ← GC_NEXT young;
  prev ← move_unreachable_loop (2 * list_fuel m) young unreachable young gc;
  _ ← store_prev young prev;
  w ← load_next young;
  _ ← store_next young (Z.land w PREV_MASK);
  w ← load_next unreachable;
  store_next unreachable (Z.land w PREV_MASK).

Definition deduce_unreachable (base unreachable : Z) : GM E unit :=
  _ ← update_refs base;
  _ ← subtract_refs base;
  _ ← gc_list_init unreachable;
  move_unreachable base unreachable.

(** ** Legacy finalizers *)

(** [for (gc = GC_NEXT(l); gc != l; gc = next)] over flagged links. *)
Fixpoint unflag_loop (fuel : nat) (body : Z -> GM E unit) (unreachable gc : Z) : GM E unit :=
  match fuel with
  | O => mnofuel
  | S fuel =>
      if gc =? unreachable then mret tt
      else
        w ← load_next gc;
        _ ← cassert (flagged w);
        _ ← store_next gc (unflag w);
        next ← load_next gc;
        _ ← body gc;
        unflag_loop fuel body unreachable next
  end.
Definition unflag_each (body : Z -> GM E unit) (unreachable : Z) : GM E unit :=
  w ← load_next unreachable;
  _ ← cassert (negb (flagged w));
  m ← mget;
  gc ← GC_NEXT unreachable;
  unflag_loop (list_fuel m) body unreachable gc.
Definition move_legacy_finalizers (unreachable finalizers : Z) : GM E unit :=
  unflag_each (λ gc,
    m ← mget;
    if tp_del (world m) (FROM_GC gc) then
      _ ← gc_clear_collecting gc; gc_list_move gc finalizers
    else mret tt) unreachable.
Definition clear_unreachable_mask (unreachable : Z) : GM E unit :=
  _ ← cassert (negb (flagged unreachable));
  unflag_each (λ _, mret tt) unreachable.
Definition visit_move (tolist op : Z) : GM E Z :=
  m ← mget;
  if PyObject_IS_GC (world m) op then
    let gc := AS_GC op in
    collecting ← gc_is_collecting gc;
    _ ← (if (collecting : bool) then
           _ ← gc_list_move gc tolist; gc_clear_collecting gc
         else mret tt);
    mret 0
  else mret 0.
Definition move_legacy_finalizer_reachable (finalizers : Z) : GM E unit :=
  gc_list_for (λ gc _, _ ← traverse (FROM_GC gc) (visit_move finalizers); mret tt) finalizers tt.

(** [unreachable] holds the objects that finalizers may have resurrected. *)
Definition handle_resurrected_objects (unreachable still_unreachable old_generation : Z) : GM E unit :=
  _ ← gc_list_clear_collecting unreachable;
  let resurrected := unreachable in
  _ ← deduce_unreachable resurrected still_unreachable;
  _ ← clear_unreachable_mask still_unreachable;
  gc_list_merge resurrected old_generation.
End deduce.
