(* ===== verification/GcLinks.v ===== *)
(** * Headers and circular lists of them

    What the bit operations of [GcHead] do to a word that is a pointer or a
    count with two flags, the access rules for headers, and lists: a list is a
    head and a segment of nodes.  The previous-pointers of a segment are given by
    a function, since during a collection some hold counts. *)

From stdpp Require Import base list gmap numbers strings.
From S2P Require Import Prelude GcHead GcDeduce.

(** ** Bits *)

Lemma land_lnot w b : Z.land w (Z.lnot b) = w - Z.land w b.
Proof.
  rewrite <- Z.ldiff_land. assert (Z.ldiff w b = Z.ldiff w (Z.land w b)) as ->.
  { apply Z.bits_inj'. intros n Hn. rewrite !Z.ldiff_spec, Z.land_spec. by destruct (Z.testbit w n), (Z.testbit b n). }
  symmetry. apply Z.sub_nocarry_ldiff. apply Z.bits_inj'. intros n Hn.
  rewrite Z.ldiff_spec, Z.land_spec, Z.bits_0. by destruct (Z.testbit w n), (Z.testbit b n).
Qed.
Lemma land_3 w : Z.land w 3 = w `mod` 4.
Proof. apply (Z.land_ones w 2). lia. Qed.
Lemma land_small w b : 0 <= b < 4 -> Z.land w b = Z.land (w `mod` 4) b.
Proof.
  intros Hb. rewrite <- land_3, <- Z.land_assoc. f_equal. rewrite Z.land_comm, land_3. symmetry. by apply Z.mod_small.
Qed.
(** A multiple of 4 and a flag word do not overlap. *)
Lemma lor_add a r : a `mod` 4 = 0 -> 0 <= r < 4 -> Z.lor a r = a + r.
Proof.
  intros Ha Hr. assert (Z.land a r = 0) as H0 by (rewrite land_small, Ha by done; apply Z.land_0_l).
  rewrite <- Z.lxor_lor by done. symmetry. by apply Z.add_nocarry_lxor.
Qed.

(** The two flags of a word. *)
Definition flags (collecting finalized : bool) : Z := 2 * Z.b2z collecting + Z.b2z finalized.
Lemma flags_range c f : 0 <= flags c f < 4.
Proof. unfold flags. destruct c, f; simpl; lia. Qed.
#[export] Hint Resolve flags_range : core.

Lemma word_mod a r : a `mod` 4 = 0 -> 0 <= r < 4 -> (a + r) `mod` 4 = r.
Proof. intros Ha Hr. rewrite Z.add_mod, Ha, Z.add_0_l, Z.mod_mod by lia. by apply Z.mod_small. Qed.
Lemma word_div a r : a `mod` 4 = 0 -> 0 <= r < 4 -> (a + r) `div` 4 = a `div` 4.
Proof. intros Ha Hr. pose proof (Z.div_mod a 4 ltac:(lia)). pose proof (Z.div_mod (a + r) 4 ltac:(lia)). rewrite word_mod in * by done. lia. Qed.
Lemma word_land_2 a c f : a `mod` 4 = 0 -> Z.land (a + flags c f) 2 = 2 * Z.b2z c.
Proof. intros Ha. rewrite land_small, word_mod by (done || lia). by destruct c, f. Qed.
Lemma word_land_1 a c f : a `mod` 4 = 0 -> Z.land (a + flags c f) 1 = Z.b2z f.
Proof. intros Ha. rewrite land_small, word_mod by (done || lia). by destruct c, f. Qed.

(** The range of aligned words. *)
Lemma aligned_flags p c f : aligned p -> 0 <= p + flags c f < SIZE_T_MOD.
Proof.
  intros [Hp Hm]. pose proof (flags_range c f). split; [lia|]. unfold SIZE_T_MOD in *.
  pose proof (Z.div_mod p 4 ltac:(lia)). change (2 ^ 64) with (4 * 2 ^ 62) in *. lia.
Qed.
Lemma mul4_mod r : (4 * r) `mod` 4 = 0.
Proof. rewrite Z.mul_comm. apply Z.mod_mul. lia. Qed.
#[export] Hint Resolve mul4_mod : core.
Lemma aligned_mul4 r : 0 <= r < 2 ^ 62 -> aligned (4 * r).
Proof. intros Hr. split; [|done]. unfold SIZE_T_MOD. change (2 ^ 64) with (4 * 2 ^ 62). lia. Qed.
Lemma aligned_mod p : aligned p -> p `mod` 4 = 0.
Proof. by intros [_ H]. Qed.
#[export] Hint Resolve aligned_mod : core.

(** The links of tentatively unreachable objects carry a flag. *)
Lemma lor_flag p : aligned p -> Z.lor NEXT_MASK_UNREACHABLE p = 2 + p.
Proof. intros [_ Hp]. rewrite Z.lor_comm, Z.add_comm. by apply lor_add. Qed.
Lemma unflag_spec p : aligned p -> unflag (2 + p) = p ∧ flagged (2 + p) = true.
Proof.
  intros Hp. unfold unflag, flagged, NEXT_MASK_UNREACHABLE. rewrite land_lnot.
  assert (Z.land (2 + p) 2 = 2) as ->; [|split; [lia|done]].
  rewrite Z.add_comm. exact (word_land_2 p true false (aligned_mod _ Hp)).
Qed.
Lemma plain_spec p : aligned p -> unflag p = p ∧ flagged p = false.
Proof.
  intros Hp. unfold unflag, flagged, NEXT_MASK_UNREACHABLE. rewrite land_lnot.
  assert (Z.land p 2 = 0) as ->; [|split; [lia|done]].
  pose proof (word_land_2 p false false (aligned_mod _ Hp)) as H. unfold flags in H. simpl in H. by rewrite Z.add_0_r in H.
Qed.

Section access.
Context {E : Type} {lay : GcLayout}.
Implicit Types (hs : gmap Z gchead) (w : E) (X : pyexn -> gcmem E -> Prop).

(** Clearing the low bits. *)
Lemma land_prev_mask (v : Z) : 0 <= v < SIZE_T_MOD -> Z.land v PREV_MASK = v - v `mod` 4.
Proof.
  intros Hv. rewrite prev_mask_is. assert (SIZE_T_MOD - 4 = Z.ldiff (Z.ones 64) 3) as -> by done.
  assert (Z.land v (Z.ldiff (Z.ones 64) 3) = Z.ldiff (Z.land v (Z.ones 64)) 3) as ->.
  { apply Z.bits_inj'. intros n Hn. rewrite Z.land_spec, !Z.ldiff_spec, Z.land_spec. by destruct (Z.testbit v n), (Z.testbit (Z.ones 64) n), (Z.testbit 3 n). }
  rewrite Z.land_ones by lia. rewrite Z.mod_small by done.
  rewrite Z.ldiff_land, land_lnot. by rewrite land_3.
Qed.
Lemma land_prev_mask_flag p : aligned p -> Z.land (2 + p) PREV_MASK = p.
Proof.
  intros Hp. rewrite Z.add_comm. pose proof (aligned_flags p true false Hp) as H. unfold flags in H. simpl in H.
  rewrite land_prev_mask by lia. rewrite word_mod by (auto; lia). lia.
Qed.
Lemma land_prev_mask_plain p : aligned p -> Z.land p PREV_MASK = p.
Proof. intros [Hp Hm]. rewrite land_prev_mask by done. lia. Qed.

(** ** Access rules *)

Lemma wp_load_next g n p Q X hs w :
  hs !! g = Some (GCHead n p) -> Q n (GCMem hs w) -> wp (load_next g) Q X (GCMem hs w).
Proof. intros Hg HQ. unfold load_next, get_head, wpo, mbind, M_bind. simpl. by rewrite Hg. Qed.
Lemma wp_load_prev g n p Q X hs w :
  hs !! g = Some (GCHead n p) -> Q p (GCMem hs w) -> wp (load_prev g) Q X (GCMem hs w).
Proof. intros Hg HQ. unfold load_prev, get_head, wpo, mbind, M_bind. simpl. by rewrite Hg. Qed.
Lemma wp_store_next g n p v Q X hs w :
  hs !! g = Some (GCHead n p) -> Q tt (GCMem (<[g := GCHead v p]> hs) w) -> wp (store_next g v) Q X (GCMem hs w).
Proof. intros Hg HQ. unfold store_next, put_head, get_head, wpo, mbind, M_bind. simpl. rewrite Hg. simpl. by rewrite Hg. Qed.
Lemma wp_store_prev g n p v Q X hs w :
  hs !! g = Some (GCHead n p) -> Q tt (GCMem (<[g := GCHead n v]> hs) w) -> wp (store_prev g v) Q X (GCMem hs w).
Proof. intros Hg HQ. unfold store_prev, put_head, get_head, wpo, mbind, M_bind. simpl. rewrite Hg. simpl. by rewrite Hg. Qed.
Lemma wp_GC_NEXT g n p Q X hs w :
  hs !! g = Some (GCHead n p) -> aligned n -> Q n (GCMem hs w) -> wp (GC_NEXT g) Q X (GCMem hs w).
Proof. intros Hg Hn HQ. apply wp_bind. eapply wp_load_next; [exact Hg|]. apply wp_ret. by rewrite head_next_is. Qed.
Lemma wp_GC_PREV g n p c f Q X hs w :
  hs !! g = Some (GCHead n (p + flags c f)) -> aligned p -> Q p (GCMem hs w) -> wp (GC_PREV g) Q X (GCMem hs w).
Proof.
  intros Hg Hp HQ. apply wp_bind. eapply wp_load_prev; [exact Hg|]. apply wp_ret.
  rewrite head_prev_is by (by apply aligned_flags). rewrite word_mod by auto.
  by replace (p + flags c f - flags c f) with p by lia.
Qed.
Lemma wp_SET_NEXT g n p v Q X hs w :
  hs !! g = Some (GCHead n p) -> aligned n -> aligned v -> Q tt (GCMem (<[g := GCHead v p]> hs) w) ->
  wp (SET_NEXT g v) Q X (GCMem hs w).
Proof.
  intros Hg Hn Hv HQ. apply wp_bind. eapply wp_load_next; [exact Hg|]. eapply wp_store_next; [exact Hg|].
  by rewrite head_set_next_is.
Qed.
Lemma wp_SET_PREV g n p c f v Q X hs w :
  hs !! g = Some (GCHead n (p + flags c f)) -> aligned p -> aligned v ->
  Q tt (GCMem (<[g := GCHead n (v + flags c f)]> hs) w) -> wp (SET_PREV g v) Q X (GCMem hs w).
Proof.
  intros Hg Hp Hv HQ. apply wp_bind. eapply wp_load_prev; [exact Hg|]. eapply wp_store_prev; [exact Hg|].
  rewrite head_set_prev_is by (done || by apply aligned_flags). by rewrite word_mod by auto.
Qed.

(** A count instead of a pointer. *)
Definition refs_word (r : Z) (c f : bool) : Z := 4 * r + flags c f.
Lemma refs_word_range r c f : 0 <= r < 2 ^ 62 -> 0 <= refs_word r c f < SIZE_T_MOD.
Proof. intros Hr. apply aligned_flags. by apply aligned_mul4. Qed.
Lemma wp_is_collecting g n p c f Q X hs w :
  hs !! g = Some (GCHead n (p + flags c f)) -> p `mod` 4 = 0 -> Q c (GCMem hs w) ->
  wp (gc_is_collecting g) Q X (GCMem hs w).
Proof.
  intros Hg Hp HQ. apply wp_bind. eapply wp_load_prev; [exact Hg|]. apply wp_ret.
  rewrite collecting_is, word_land_2 by done. by destruct c.
Qed.
Lemma wp_clear_collecting g n p c f Q X hs w :
  hs !! g = Some (GCHead n (p + flags c f)) -> p `mod` 4 = 0 ->
  Q tt (GCMem (<[g := GCHead n (p + flags false f)]> hs) w) ->
  wp (gc_clear_collecting g) Q X (GCMem hs w).
Proof.
  intros Hg Hp HQ. apply wp_bind. eapply wp_load_prev; [exact Hg|]. eapply wp_store_prev; [exact Hg|].
  rewrite collecting_is, land_lnot, word_land_2 by done.
  by replace (p + flags c f - 2 * Z.b2z c) with (p + flags false f) by (unfold flags; simpl; lia).
Qed.
Lemma wp_get_refs g n r c f Q X hs w :
  hs !! g = Some (GCHead n (refs_word r c f)) -> 0 <= r < 2 ^ 62 -> Q r (GCMem hs w) ->
  wp (gc_get_refs g) Q X (GCMem hs w).
Proof.
  intros Hg Hr HQ. apply wp_bind. eapply wp_load_prev; [exact Hg|]. apply wp_ret.
  rewrite prev_shift_is, Z.shiftr_div_pow2 by lia. change (2 ^ 2) with 4. unfold refs_word. rewrite word_div by auto.
  rewrite (Z.mul_comm 4), Z.div_mul, ssize_t_small by lia. done.
Qed.
(** Reading the count of a word that is a pointer gives a harmless number. *)
Lemma wp_get_refs_any g n p Q X hs w :
  hs !! g = Some (GCHead n p) -> (∀ r, Q r (GCMem hs w)) -> wp (gc_get_refs g) Q X (GCMem hs w).
Proof. intros Hg HQ. apply wp_bind. eapply wp_load_prev; [exact Hg|]. apply wp_ret, HQ. Qed.
Lemma size_t_refs r : 0 <= r < 2 ^ 62 -> size_t (Z.shiftl (size_t r) 2) = 4 * r.
Proof.
  intros Hr. rewrite (size_t_small r) by (unfold SIZE_T_MOD; lia). rewrite Z.shiftl_mul_pow2 by lia.
  rewrite size_t_small; [lia|]. unfold SIZE_T_MOD. change (2 ^ 2) with 4. lia.
Qed.
Lemma wp_set_refs g n p c f r Q X hs w :
  hs !! g = Some (GCHead n (p + flags c f)) -> aligned p -> 0 <= r < 2 ^ 62 ->
  Q tt (GCMem (<[g := GCHead n (refs_word r c f)]> hs) w) -> wp (gc_set_refs g r) Q X (GCMem hs w).
Proof.
  intros Hg Hp Hr HQ. apply wp_bind. eapply wp_load_prev; [exact Hg|]. eapply wp_store_prev; [exact Hg|].
  rewrite prev_shift_is, size_t_refs, land_lnot by done.
  rewrite land_prev_mask, word_mod by (by auto || by apply aligned_flags).
  replace (p + flags c f - (p + flags c f - flags c f)) with (flags c f) by lia.
  rewrite Z.lor_comm, lor_add by auto. done.
Qed.
Lemma wp_reset_refs g n p c f r Q X hs w :
  hs !! g = Some (GCHead n (p + flags c f)) -> aligned p -> 0 <= r < 2 ^ 62 ->
  Q tt (GCMem (<[g := GCHead n (refs_word r true f)]> hs) w) -> wp (gc_reset_refs g r) Q X (GCMem hs w).
Proof.
  intros Hg Hp Hr HQ. apply wp_bind. eapply wp_load_prev; [exact Hg|]. eapply wp_store_prev; [exact Hg|].
  rewrite prev_shift_is, size_t_refs, finalized_is, collecting_is, word_land_1 by (done || by apply aligned_mod).
  replace (Z.lor (Z.b2z f) 2) with (flags true f) by (by destruct f).
  rewrite Z.lor_comm, lor_add by auto. done.
Qed.
Lemma wp_gc_decref g n r c f Q X hs w :
  hs !! g = Some (GCHead n (refs_word r c f)) -> 0 < r < 2 ^ 62 ->
  Q tt (GCMem (<[g := GCHead n (refs_word (r - 1) c f)]> hs) w) -> wp (gc_decref g) Q X (GCMem hs w).
Proof.
  intros Hg Hr HQ. apply wp_bind. eapply wp_get_refs; [exact Hg|lia|]. apply wp_bind, wp_assert; [apply Z.ltb_lt; lia|].
  apply wp_bind. eapply wp_load_prev; [exact Hg|]. eapply wp_store_prev; [exact Hg|].
  rewrite prev_shift_is. change (Z.shiftl 1 2) with 4.
  replace (refs_word r c f - 4) with (refs_word (r - 1) c f) by (unfold refs_word; lia).
  by rewrite size_t_small by (apply refs_word_range; lia).
Qed.
End access.

Definition first_of (b : Z) (l : list Z) : Z := match l with [] => b | x :: _ => x end.
Fixpoint last_of (a : Z) (l : list Z) : Z := match l with [] => a | x :: l => last_of x l end.

Lemma first_of_app b l k : first_of b (l ++ k) = first_of (first_of b k) l.
Proof. by destruct l. Qed.
Lemma last_of_app a l k : last_of a (l ++ k) = last_of (last_of a l) k.
Proof. revert a. induction l; simpl; auto. Qed.
Lemma last_of_snoc a l x : last_of a (l ++ [x]) = x.
Proof. by rewrite last_of_app. Qed.
Lemma first_of_elem b l : first_of b l = b ∨ first_of b l ∈ l.
Proof. destruct l; [by left|right; apply list_elem_of_here]. Qed.
Lemma last_of_elem a l : last_of a l ∈ a :: l.
Proof. revert a. induction l as [|x l IH]; intros a; simpl; [set_solver|]. specialize (IH x). set_solver. Qed.
Lemma last_of_indep a a' l : l ≠ [] -> last_of a l = last_of a' l.
Proof. by destruct l. Qed.
Lemma aligned_first b l : aligned b -> Forall aligned l -> aligned (first_of b l).
Proof. intros Hb Hl. destruct Hl; done. Qed.
Lemma aligned_last a l : aligned a -> Forall aligned l -> aligned (last_of a l).
Proof. revert a. induction l; intros a0 Ha Hl; [done|]. inversion Hl; subst. simpl. auto. Qed.

Section seg.
Implicit Types (hs : gmap Z gchead) (pw : Z -> Z -> Z) (xs ys : list Z).

(** The nodes [xs] after [a] and before [b]: next-words are the successors plus
    [fl], previous-words are [pw] of the predecessor and the node. *)
Fixpoint seg hs (fl : Z) pw (a : Z) xs (b : Z) : Prop :=
  match xs with
  | [] => True
  | x :: xs => hs !! x = Some (GCHead (fl + first_of b xs) (pw a x)) ∧ seg hs fl pw x xs b
  end.

Lemma seg_app hs fl pw a xs ys b :
  seg hs fl pw a (xs ++ ys) b <-> seg hs fl pw a xs (first_of b ys) ∧ seg hs fl pw (last_of a xs) ys b.
Proof.
  revert a. induction xs as [|x xs IH]; intros a; simpl; [tauto|]. rewrite IH, first_of_app. tauto.
Qed.
Lemma seg_agree hs hs' fl pw a xs b :
  (∀ x, x ∈ xs -> hs' !! x = hs !! x) -> seg hs fl pw a xs b -> seg hs' fl pw a xs b.
Proof.
  revert a. induction xs as [|x xs IH]; intros a Hx; simpl; [done|]. intros [H1 H2]. split.
  - rewrite Hx by set_solver. done.
  - apply IH; [|done]. intros y Hy. apply Hx. set_solver.
Qed.
Lemma seg_insert hs fl pw a xs b g c : g ∉ xs -> seg hs fl pw a xs b -> seg (<[g := c]> hs) fl pw a xs b.
Proof. intros Hg. apply seg_agree. intros x Hx. apply lookup_insert_ne. by intros ->. Qed.
Lemma seg_impl hs fl pw pw' a xs b :
  (∀ p x, x ∈ xs -> pw p x = pw' p x) -> seg hs fl pw a xs b -> seg hs fl pw' a xs b.
Proof.
  revert a. induction xs as [|x xs IH]; intros a Hp; simpl; [done|]. rewrite (Hp a x) by set_solver.
  intros [H1 H2]. split; [done|]. apply IH; [|done]. intros p y Hy. apply Hp. set_solver.
Qed.
Lemma seg_lookup hs fl pw a xs b x :
  seg hs fl pw a xs b -> x ∈ xs -> ∃ n p, hs !! x = Some (GCHead (fl + n) (pw p x)) ∧ (n = b ∨ n ∈ xs) ∧ (p = a ∨ p ∈ xs).
Proof.
  revert a. induction xs as [|y xs IH]; intros a; simpl; [set_solver|]. intros [H1 H2] [->|Hx]%elem_of_cons.
  - eexists _, _. split; [exact H1|]. split; [|by left]. destruct (first_of_elem b xs) as [->|]; set_solver.
  - destruct (IH y H2 Hx) as (n & p & Hl & Hn & Hp). exists n, p. split; [done|]. set_solver.
Qed.
Lemma seg_at hs fl pw a l1 x l2 b :
  seg hs fl pw a (l1 ++ x :: l2) b -> hs !! x = Some (GCHead (fl + first_of b l2) (pw (last_of a l1) x)).
Proof. intros [_ [H _]]%seg_app. done. Qed.
(** A segment whose previous-words do not depend on the predecessor. *)
Lemma seg_indep hs fl pw a a' xs b :
  (∀ p p' x, pw p x = pw p' x) -> seg hs fl pw a xs b -> seg hs fl pw a' xs b.
Proof. intros Hp. destruct xs as [|x xs]; [done|]. simpl. by rewrite (Hp a a'). Qed.

(** A new previous-word for one node. *)
Lemma seg_update hs fl pw pw' a xs b y n v0 v :
  seg hs fl pw a xs b -> hs !! y = Some (GCHead n v0) -> (∀ p, pw' p y = v) ->
  (∀ p x, x ∈ xs -> x ≠ y -> pw' p x = pw p x) -> seg (<[y := GCHead n v]> hs) fl pw' a xs b.
Proof.
  intros Hs Hy Hv Hpw. revert a Hs. induction xs as [|x xs IH]; intros a; simpl; [done|]. intros [H1 H2]. split.
  - destruct (decide (x = y)) as [->|Hxy].
    + rewrite lookup_insert_eq, Hv. congruence.
    + rewrite lookup_insert_ne, Hpw by set_solver. done.
  - apply IH; [|done]. intros p z Hz. apply Hpw. set_solver.
Qed.

(** Linking the last node, or the head of an empty list, to [v]. *)
Lemma seg_set_next hs fl pw h a xs b v hn hp :
  hs !! h = Some (GCHead hn hp) -> seg hs fl pw a xs b -> NoDup (h :: xs) ->
  ∃ n p, hs !! last_of h xs = Some (GCHead n p) ∧ (n = hn ∧ xs = [] ∨ n = fl + b) ∧
    let hs' := <[last_of h xs := GCHead (fl + v) p]> hs in
    hs' !! h = Some (GCHead (match xs with [] => fl + v | _ => hn end) hp) ∧ seg hs' fl pw a xs v.
Proof.
  intros Hh Hs Hnd. destruct xs as [|x xs _] using rev_ind.
  - exists hn, hp. simpl. split_and!; [done|by left|apply lookup_insert_eq|done].
  - rewrite last_of_snoc. apply seg_app in Hs as [H1 [H2 _]]. simpl in H2.
    apply NoDup_cons in Hnd as [Hhx Hnd]. apply NoDup_app in Hnd as (Hnd & Hdis & _).
    eexists _, _. split; [exact H2|]. split; [by right|]. split.
    + rewrite lookup_insert_ne by (intros ->; set_solver). rewrite Hh. by destruct xs.
    + apply seg_app. split; [apply seg_insert; [set_solver|done]|]. simpl. by rewrite lookup_insert_eq.
Qed.
(** The other way round: the first node, or the head of an empty list. *)
Lemma seg_set_prev hs fl pw h a ys v hn hp :
  hs !! h = Some (GCHead hn hp) -> seg hs fl pw a ys h -> NoDup (h :: ys) ->
  ∃ n p, hs !! first_of h ys = Some (GCHead n p) ∧ p = (match ys with [] => hp | y :: _ => pw a y end) ∧
    ∀ q, q = (match ys with [] => v | y :: _ => pw v y end) ->
    let hs' := <[first_of h ys := GCHead n q]> hs in
    hs' !! h = Some (GCHead hn (match ys with [] => v | _ => hp end)) ∧ seg hs' fl pw v ys h.
Proof.
  intros Hh Hs Hnd. destruct ys as [|y ys]; simpl in *.
  - eexists _, _. split_and!; [done|done|]. intros q ->. split; [apply lookup_insert_eq|done].
  - destruct Hs as [H1 H2]. eexists _, _. split_and!; [done|done|]. intros q ->.
    apply NoDup_cons in Hnd as [Hhx Hnd]. apply NoDup_cons in Hnd as [Hy Hnd]. split_and!.
    + rewrite lookup_insert_ne by (intros ->; set_solver). done.
    + by rewrite lookup_insert_eq.
    + by apply seg_insert.
Qed.

(** A whole list without flags on its links. *)
Record glist hs pw (h : Z) xs : Prop := {
  gl_head : hs !! h = Some (GCHead (first_of h xs) (last_of h xs));
  gl_seg : seg hs 0 pw h xs h;
  gl_nodup : NoDup (h :: xs);
  gl_aligned : Forall aligned (h :: xs)
}.
Lemma glist_agree hs hs' pw h xs :
  (∀ x, x ∈ h :: xs -> hs' !! x = hs !! x) -> glist hs pw h xs -> glist hs' pw h xs.
Proof.
  intros Hx [H1 H2 H3 H4]. split; [rewrite Hx by set_solver; done| |done|done].
  eapply seg_agree; [|done]. intros x Hin. apply Hx. set_solver.
Qed.
Lemma glist_impl hs pw pw' h xs :
  (∀ p x, x ∈ xs -> pw p x = pw' p x) -> glist hs pw h xs -> glist hs pw' h xs.
Proof. intros Hp [H1 H2 H3 H4]. split; [done| |done|done]. by eapply seg_impl. Qed.

Lemma glist_snoc hs pw h zs x :
  hs !! h = Some (GCHead (first_of h (zs ++ [x])) x) -> seg hs 0 pw h zs x ->
  hs !! x = Some (GCHead h (pw (last_of h zs) x)) -> x ∉ h :: zs -> NoDup (h :: zs) -> Forall aligned (h :: zs) -> aligned x ->
  glist hs pw h (zs ++ [x]).
Proof.
  intros H1 H2 H3 Hx Hnd Hal Hax. split.
  - by rewrite last_of_snoc.
  - apply seg_app. simpl. by rewrite Z.add_0_l.
  - rewrite app_comm_cons. apply NoDup_app. split_and!; [done|set_solver|apply NoDup_singleton].
  - rewrite app_comm_cons. apply Forall_app. split; [done|]. by constructor.
Qed.

(** A list whose nodes carry the flag in their links, and whose head does not. *)
Record flist hs pw (h : Z) xs : Prop := {
  fl_head : hs !! h = Some (GCHead (first_of h xs) (last_of h xs));
  fl_seg : seg hs 2 pw h xs h;
  fl_nodup : NoDup (h :: xs);
  fl_aligned : Forall aligned (h :: xs)
}.

(** There are at least as many headers as nodes. *)
Lemma nodes_bound hs (l : list Z) : NoDup l -> (∀ x, x ∈ l -> is_Some (hs !! x)) -> (length l <= size hs)%nat.
Proof.
  intros Hnd Hin. rewrite <- (size_list_to_set (C := gset Z)) by done. rewrite <- size_dom. apply subseteq_size.
  intros x Hx. apply elem_of_list_to_set in Hx. apply elem_of_dom. auto.
Qed.
Lemma glist_bound hs pw h xs : glist hs pw h xs -> (length xs < size hs)%nat.
Proof.
  intros [H1 H2 H3 _]. assert (length (h :: xs) <= size hs)%nat as H; [|simpl in H; lia].
  apply nodes_bound; [done|]. intros x [->|Hx]%elem_of_cons; [by eexists|].
  destruct (seg_lookup _ _ _ _ _ _ _ H2 Hx) as (n & p & Hl & _). by eexists.
Qed.
End seg.
