(* ===== verification/GcLists.v ===== *)
(** * The list operations of the garbage collector

    [gc_list_append], [gc_list_move], [gc_list_merge] and the loops, on lists
    given by their nodes. *)

From stdpp Require Import base list gmap numbers strings.
From S2P Require Import Prelude GcHead GcDeduce GcLinks.

(** Headers that two states agree on, all but [l]. *)
Definition agree_off (l : list Z) (hs hs' : gmap Z gchead) : Prop := ∀ g, g ∉ l -> hs' !! g = hs !! g.

(** Membership goals: only the hypotheses on membership matter. *)
Ltac mem :=
  try assumption;
  repeat match goal with
  | H : seg _ _ _ _ _ _ |- _ => clear H
  | H : glist _ _ _ _ |- _ => clear H
  | H : _ !! _ = _ |- _ => clear H
  | H : agree_off _ _ _ |- _ => clear H
  | H : aligned _ |- _ => clear H
  | H : Forall _ _ |- _ => clear H
  | H : NoDup _ |- _ => clear H
  | H : _ ≡ₚ _ |- _ => clear H
  | H : forall _ : gmap Z gchead, _ |- _ => clear H
  end; set_solver.

Section lists.
Context {E : Type} {lay : GcLayout}.
Implicit Types (hs : gmap Z gchead) (w : E) (X : pyexn -> gcmem E -> Prop).
Lemma agree_refl l hs : agree_off l hs hs.
Proof. done. Qed.
Lemma agree_trans l hs1 hs2 hs3 : agree_off l hs1 hs2 -> agree_off l hs2 hs3 -> agree_off l hs1 hs3.
Proof. intros H1 H2 g Hg. by rewrite H2, H1. Qed.
Lemma agree_mono l k hs hs' : l ⊆ k -> agree_off l hs hs' -> agree_off k hs hs'.
Proof. intros Hl H g Hg. apply H. set_solver. Qed.
Lemma agree_insert l hs g c : g ∈ l -> agree_off l hs (<[g := c]> hs).
Proof. intros Hg x Hx. apply lookup_insert_ne. by intros ->. Qed.
Lemma seg_off l hs hs' fl pw a xs b : agree_off l hs hs' -> xs ## l -> seg hs fl pw a xs b -> seg hs' fl pw a xs b.
Proof. intros Hag Hd. apply seg_agree. intros x Hx. apply Hag. set_solver. Qed.

(** The finalized flags of the objects, which the collector leaves alone. *)
Variable fin : Z -> bool.

(** Previous-words that are pointers, with the collecting flag or without, and
    counts. *)
Definition ptr (c : bool) (p x : Z) : Z := p + flags c (fin x).
Definition cnt (r : Z -> Z) (p x : Z) : Z := refs_word (r x) true (fin x).

(** Linking the end of a list to [v] ... *)
Lemma wp_link_next pw h a xs b v hn hp Q X hs w :
  hs !! h = Some (GCHead hn hp) -> seg hs 0 pw a xs b -> NoDup (h :: xs) ->
  aligned hn -> aligned b -> aligned v ->
  (∀ hs', hs' !! h = Some (GCHead (match xs with [] => v | _ => hn end) hp) -> seg hs' 0 pw a xs v ->
     agree_off (h :: xs) hs hs' -> Q tt (GCMem hs' w)) ->
  wp (SET_NEXT (last_of h xs) v) Q X (GCMem hs w).
Proof.
  intros Hh Hs Hnd Hhn Hb Hv HQ. destruct (seg_set_next hs 0 pw h a xs b v hn hp) as (n & p & Hl & Hn & H1 & H2); try done.
  eapply wp_SET_NEXT; [exact Hl|by destruct Hn as [[-> _]|Hn]; simplify_eq/=|done|].
  apply HQ; [by destruct xs|done|]. apply agree_insert, last_of_elem.
Qed.
(** ... and its start back to [v]. *)
Lemma wp_link_prev fl c h a ys v hn hp Q X hs w :
  hs !! h = Some (GCHead hn hp) -> seg hs fl (ptr c) a ys h -> NoDup (h :: ys) ->
  aligned hp -> aligned a -> aligned v ->
  (∀ hs', hs' !! h = Some (GCHead hn (match ys with [] => v | _ => hp end)) -> seg hs' fl (ptr c) v ys h ->
     agree_off (h :: ys) hs hs' -> Q tt (GCMem hs' w)) ->
  wp (SET_PREV (first_of h ys) v) Q X (GCMem hs w).
Proof.
  intros Hh Hs Hnd Hhp Ha Hv HQ.
  destruct (seg_set_prev hs fl (ptr c) h a ys v hn hp) as (n & p & Hl & Hp & Hset); try done.
  destruct ys as [|y ys].
  - eapply (wp_SET_PREV _ n hp false false); [by rewrite Hl, Hp, Z.add_0_r|done|done|].
    destruct (Hset _ eq_refl) as [H1 H2]. rewrite Z.add_0_r. apply HQ; [done|done|]. apply agree_insert. set_solver.
  - eapply (wp_SET_PREV _ n a c (fin y)); [by rewrite Hl, Hp|done|done|].
    destruct (Hset _ eq_refl) as [H1 H2]. apply HQ; [done|done|]. apply agree_insert. set_solver.
Qed.

(** Linking the end with a flag. *)
Lemma wp_store_link fl pw h a xs b v hn hp Q X hs w :
  hs !! h = Some (GCHead hn hp) -> seg hs fl pw a xs b -> NoDup (h :: xs) ->
  (∀ hs', hs' !! h = Some (GCHead (match xs with [] => fl + v | _ => hn end) hp) -> seg hs' fl pw a xs v ->
     agree_off (h :: xs) hs hs' -> Q tt (GCMem hs' w)) ->
  wp (store_next (last_of h xs) (fl + v)) Q X (GCMem hs w).
Proof.
  intros Hh Hs Hnd HQ. destruct (seg_set_next hs fl pw h a xs b v hn hp) as (n & p & Hl & _ & H1 & H2); try done.
  eapply wp_store_next; [exact Hl|]. apply HQ; [by destruct xs|done|]. apply agree_insert, last_of_elem.
Qed.

(** [gc_list_append] of a node that is in no list. *)
Lemma wp_append pw h xs node nn p c hn Q X hs w :
  hs !! h = Some (GCHead hn (last_of h xs)) -> seg hs 0 pw h xs h ->
  hs !! node = Some (GCHead nn (p + flags c (fin node))) ->
  NoDup (h :: xs ++ [node]) -> Forall aligned (h :: xs ++ [node]) -> aligned hn -> aligned nn -> aligned p ->
  (∀ hs', hs' !! h = Some (GCHead (match xs with [] => node | _ => hn end) node) -> seg hs' 0 pw h xs node ->
     hs' !! node = Some (GCHead h (ptr c (last_of h xs) node)) ->
     agree_off (h :: xs ++ [node]) hs hs' -> Q tt (GCMem hs' w)) ->
  wp (gc_list_append node h) Q X (GCMem hs w).
Proof.
  intros Hh Hs Hnode Hnd Hal Hhn Hnn Hp HQ. unfold gc_list_append.
  rewrite app_comm_cons in Hnd. apply NoDup_app in Hnd as (Hnd & Hdis & _).
  rewrite app_comm_cons in Hal. apply Forall_app in Hal as [Hal [Haln _]%Forall_cons].
  pose proof (proj1 (Forall_cons _ _ _) Hal) as [Halh Halx]. pose proof (aligned_last h xs Halh Halx) as Hlast.
  assert (Hnh : node ∉ h :: xs) by set_solver.
  apply wp_bind. eapply wp_load_prev; [exact Hh|]. apply wp_bind. eapply wp_SET_PREV; [exact Hnode|done|done|].
  assert (Hne : node ≠ h) by set_solver. assert (Hnx : node ∉ xs) by set_solver.
  apply wp_bind, (wp_link_next pw h h xs h node hn (last_of h xs)); try done.
  { by rewrite lookup_insert_ne. }
  { by apply seg_insert. }
  intros hs1 H1 H2 H3. assert (H4 : hs1 !! node = Some (GCHead nn (ptr c (last_of h xs) node))).
  { rewrite H3 by done. apply lookup_insert_eq. }
  apply wp_bind. eapply wp_SET_NEXT; [exact H4|done|done|].
  eapply wp_store_prev; [rewrite lookup_insert_ne by done; exact H1|]. apply HQ.
  - apply lookup_insert_eq.
  - apply seg_insert; [by apply NoDup_cons in Hnd as [? _]|]. by apply seg_insert.
  - rewrite lookup_insert_ne by done. apply lookup_insert_eq.
  - intros g Hg. rewrite !lookup_insert_ne by (intros ->; set_solver). rewrite H3 by set_solver.
    apply lookup_insert_ne. set_solver.
Qed.

(** [gc_list_move] from a list whose first part [xs] may hold counts and whose
    last part [ys] may have flagged links. *)
Lemma wp_gc_move pw fl c c1 c2 h1 xs node ys h2 zs Q X hs w :
  let all := h1 :: xs ++ node :: ys in
  hs !! h1 = Some (GCHead (first_of h1 (xs ++ node :: ys)) (last_of h1 (xs ++ node :: ys))) ->
  seg hs 0 pw h1 xs node -> hs !! node = Some (GCHead (first_of h1 ys) (ptr c1 (last_of h1 xs) node)) ->
  seg hs fl (ptr c) node ys h1 ->
  glist hs (ptr c2) h2 zs -> NoDup (all ++ h2 :: zs) -> Forall aligned all ->
  (∀ hs', hs' !! h1 = Some (GCHead (first_of h1 (xs ++ ys)) (last_of h1 (xs ++ ys))) ->
     seg hs' 0 pw h1 xs (first_of h1 ys) -> seg hs' fl (ptr c) (last_of h1 xs) ys h1 ->
     hs' !! h2 = Some (GCHead (first_of h2 (zs ++ [node])) node) -> seg hs' 0 (ptr c2) h2 zs node ->
     hs' !! node = Some (GCHead h2 (ptr c1 (last_of h2 zs) node)) ->
     agree_off (all ++ h2 :: zs) hs hs' -> Q tt (GCMem hs' w)) ->
  wp (gc_list_move node h2) Q X (GCMem hs w).
Proof.
  intros all Hh1 Hxs Hnode Hys [Hh2 Hzs Hnd2 Hal2] Hnd Hal HQ. subst all.
  apply NoDup_app in Hnd as (Hnd & Hdis & _). apply NoDup_cons in Hnd as [Hh1n Hnd].
  apply NoDup_app in Hnd as (Hndx & Hdx & Hnd). apply NoDup_cons in Hnd as [Hny Hndy].
  apply Forall_cons in Hal as [Ha1 Hal]. apply Forall_app in Hal as [Hax Hal]. apply Forall_cons in Hal as [Han Hay].
  pose proof (proj1 (Forall_cons _ _ _) Hal2) as [Ha2 Haz].
  assert (Hn1 : node ≠ h1) by set_solver. assert (Hn2 : node ≠ h2) by set_solver. assert (H12 : h1 ≠ h2) by set_solver.
  assert (Hnx : node ∉ xs) by set_solver. assert (Hnz : node ∉ zs) by set_solver.
  assert (Hd1 : h1 :: xs ## h2 :: zs) by set_solver. assert (Hd2 : h1 :: ys ## h2 :: zs) by set_solver.
  pose proof (aligned_last h1 xs Ha1 Hax) as Hal1. pose proof (aligned_first h1 ys Ha1 Hay) as Hf1.
  pose proof (aligned_last h2 zs Ha2 Haz) as Hlz.
  unfold gc_list_move. apply wp_bind. eapply wp_GC_PREV; [exact Hnode|done|].
  apply wp_bind. eapply wp_GC_NEXT; [exact Hnode|done|].
  apply wp_bind. eapply (wp_link_next pw h1 h1 xs node); [exact Hh1|exact Hxs|constructor; set_solver| |done|done|].
  { rewrite first_of_app. by apply aligned_first. }
  intros hs1 A1 A2 A3. assert (B1 : seg hs1 fl (ptr c) node ys h1) by (eapply seg_off; [exact A3|set_solver|done]).
  apply wp_bind. eapply (wp_link_prev fl c h1 node ys); [exact A1|exact B1|constructor; set_solver| |done|done|].
  { rewrite last_of_app. simpl. by apply aligned_last. }
  intros hs2 C1 C2 C3.
  assert (D0 : ∀ g, g ∉ h1 :: xs ++ ys -> hs2 !! g = hs !! g) by (intros g Hg; rewrite C3, A3 by set_solver; done).
  assert (D1 : seg hs2 0 pw h1 xs (first_of h1 ys)).
  { eapply seg_off; [exact C3| |exact A2]. set_solver. }
  apply wp_bind. eapply wp_load_prev; [rewrite D0 by set_solver; exact Hh2|].
  apply wp_bind. eapply wp_SET_PREV; [rewrite D0 by set_solver; exact Hnode|done|done|].
  apply wp_bind. eapply (wp_link_next (ptr c2) h2 h2 zs h2);
    [rewrite lookup_insert_ne by done; rewrite D0 by set_solver; exact Hh2| |done|by apply aligned_first|done|done|].
  { apply seg_insert; [done|]. eapply seg_agree; [|exact Hzs]. intros x Hx. apply D0. set_solver. }
  intros hs3 F1 F2 F3. assert (F0 : ∀ g, g ∉ node :: h2 :: zs -> hs3 !! g = hs2 !! g).
  { intros g Hg. rewrite F3 by set_solver. apply lookup_insert_ne. set_solver. }
  apply wp_bind. eapply wp_store_prev; [exact F1|].
  assert (G1 : hs3 !! node = Some (GCHead (first_of h1 ys) (last_of h2 zs + flags c1 (fin node)))).
  { rewrite F3 by set_solver. apply lookup_insert_eq. }
  eapply wp_SET_NEXT; [rewrite lookup_insert_ne by done; exact G1|done|done|]. apply HQ.
  - rewrite !lookup_insert_ne by done. rewrite F0 by set_solver. rewrite C1. f_equal. f_equal; [by destruct xs|].
    destruct ys as [|y ys]; [by rewrite app_nil_r|]. by rewrite !last_of_app.
  - apply seg_insert; [done|]. apply seg_insert; [set_solver|]. eapply seg_agree; [|exact D1].
    intros x Hx. apply F0. set_solver.
  - apply seg_insert; [done|]. apply seg_insert; [set_solver|]. eapply seg_agree; [|exact C2].
    intros x Hx. apply F0. set_solver.
  - rewrite lookup_insert_ne by done. rewrite lookup_insert_eq. f_equal. f_equal. by destruct zs.
  - apply seg_insert; [done|]. apply seg_insert; [|done]. by apply NoDup_cons in Hnd2 as [? _].
  - apply lookup_insert_eq.
  - intros g Hg. rewrite !lookup_insert_ne by (intros ->; set_solver). rewrite F0 by set_solver. apply D0. set_solver.
Qed.

Lemma wp_list_init l Q X hs w :
  Q tt (GCMem (<[l := GCHead l l]> hs) w) -> wp (gc_list_init l) Q X (GCMem hs w).
Proof. done. Qed.
(** [gc_list_merge] puts all of [xs] behind [ys]. *)
Lemma wp_merge c from xs to ys Q X hs w :
  glist hs (ptr c) from xs -> glist hs (ptr c) to ys -> NoDup ((from :: xs) ++ to :: ys) ->
  (∀ hs', glist hs' (ptr c) from [] -> glist hs' (ptr c) to (ys ++ xs) ->
     agree_off ((from :: xs) ++ to :: ys) hs hs' -> Q tt (GCMem hs' w)) ->
  wp (gc_list_merge from to) Q X (GCMem hs w).
Proof.
  intros [Hf Hxs Hndf Haf] [Ht Hys Hndt Hat] Hnd HQ. apply NoDup_app in Hnd as (_ & Hd & _).
  assert (Hft : from ≠ to) by set_solver.
  pose proof (proj1 (Forall_cons _ _ _) Haf) as [Hafh Hafx]. pose proof (proj1 (Forall_cons _ _ _) Hat) as [Hath Haty].
  pose proof (proj1 (NoDup_cons _ _) Hndf) as [Hfn Hndx].
  unfold gc_list_merge. apply wp_bind, wp_assert; [by apply negb_true_iff, Z.eqb_neq|].
  apply wp_bind, wp_bind. eapply wp_load_next; [exact Hf|]. apply wp_ret.
  destruct (decide (xs = [])) as [->|Hne].
  { simpl. rewrite Z.eqb_refl. apply wp_bind, wp_ret, wp_list_init. apply HQ.
    - split; simpl; [apply lookup_insert_eq|done|done|done].
    - rewrite app_nil_r. eapply glist_agree; [|by split]. intros g Hg. apply lookup_insert_ne. set_solver.
    - apply agree_insert. set_solver. }
  assert (Hfx : first_of from xs =? from = false) by (apply Z.eqb_neq; destruct xs; [done|set_solver]).
  assert (Hlx : last_of from xs ∈ xs) by (destruct xs as [|z zs]; [done|apply (last_of_elem z zs)]).
  rewrite Hfx. apply wp_bind.
  apply wp_bind. eapply (wp_GC_PREV _ _ _ false false); [by rewrite Ht, Z.add_0_r|by apply aligned_last|].
  apply wp_bind. eapply wp_GC_NEXT; [exact Hf|by apply aligned_first|].
  apply wp_bind. eapply (wp_GC_PREV _ _ _ false false); [by rewrite Hf, Z.add_0_r|by apply aligned_last|].
  apply wp_bind, wp_assert; [by rewrite Hfx|]. apply wp_bind, wp_assert.
  { apply negb_true_iff, Z.eqb_neq. intros He. by rewrite He in Hlx. }
  apply wp_bind. eapply (wp_link_next (ptr c) to to ys to); [exact Ht|exact Hys|done|by apply aligned_first|done|by apply aligned_first|].
  intros hs1 A1 A2 A3.
  apply wp_bind. eapply (wp_link_prev 0 c from from xs);
    [rewrite A3 by set_solver; exact Hf| |done|by apply aligned_last|done|by apply aligned_last|].
  { eapply seg_off; [exact A3|set_solver|exact Hxs]. }
  intros hs2 B1 B2 B3. apply wp_bind.
  eapply (wp_link_next (ptr c) from _ xs from); [exact B1|exact B2|done|by apply aligned_first|done|done|].
  intros hs3 C1 C2 C3.
  assert (D1 : hs3 !! to = Some (GCHead (first_of to (ys ++ xs)) (last_of to ys))).
  { rewrite C3, B3 by set_solver. rewrite A1. rewrite first_of_app. by destruct ys, xs. }
  eapply (wp_SET_PREV _ _ (last_of to ys) false false); [by rewrite D1, Z.add_0_r|by apply aligned_last|by apply aligned_last|].
  assert (Hget : ∀ g, g ∉ from :: xs -> g ≠ to -> <[to := GCHead (first_of to (ys ++ xs)) (last_of from xs + flags false false)]> hs3 !! g = hs1 !! g).
  { intros g Hg Hgt. rewrite lookup_insert_ne by done. rewrite C3, B3 by done. done. }
  apply wp_list_init, HQ.
  - split; simpl; [apply lookup_insert_eq|done|apply NoDup_singleton|by constructor].
  - split.
    + rewrite lookup_insert_ne, lookup_insert_eq by done. f_equal. f_equal. rewrite last_of_app, Z.add_0_r. by apply last_of_indep.
    + apply seg_app. split.
      * assert (first_of to xs = first_of from xs) as -> by (by destruct xs).
        apply seg_insert; [set_solver|]. eapply seg_agree; [|exact A2]. intros x Hx. apply Hget; [set_solver|]. apply NoDup_cons in Hndt as [? _]. set_solver.
      * apply seg_insert; [done|]. apply seg_insert; [set_solver|done].
    + rewrite app_comm_cons. apply NoDup_app. split_and!; [done|set_solver|done].
    + rewrite app_comm_cons. apply Forall_app. done.
  - intros g Hg. rewrite lookup_insert_ne by set_solver. rewrite Hget by set_solver. apply A3. set_solver.
Qed.
End lists.
