(* ===== verification/GcSpec.v ===== *)
(** * What a collection has to find: reachability from outside

    The references between the objects of a list, how many of an object's
    references come from outside it, and the objects that are reachable from
    those. *)

From stdpp Require Import base list gmap numbers strings relations.
From S2P Require Import Prelude GcHead.

Section spec.
Context {E : Type} {api : GcApi E}.
Variable w : E.
Implicit Types (xs ys : list Z).

(** The headers of the objects that the object of header [x] refers to, once per
    reference. *)
Definition children (x : Z) : list Z :=
  AS_GC <$> filter (λ o, PyObject_IS_GC w o = true) (tp_traverse w (FROM_GC x)).
Definition count (x : Z) (l : list Z) : Z := Zlen (filter (x =.) l).
(** The references to [x] from the objects of [xs]. *)
Definition internal xs (x : Z) : Z := count x (mjoin (children <$> xs)).
Definition external xs (x : Z) : Z := Py_REFCNT w (FROM_GC x) - internal xs x.

Definition edge xs (x y : Z) : Prop := x ∈ xs ∧ y ∈ xs ∧ y ∈ children x.
(** Reachable from an object that is referred to from outside [xs]. *)
Definition reachable xs (x : Z) : Prop := ∃ r, r ∈ xs ∧ 0 < external xs r ∧ rtc (edge xs) r x.

Lemma count_nil x : count x [] = 0.
Proof. done. Qed.
Lemma count_cons x y l : count x (y :: l) = (if decide (x = y) then 1 else 0) + count x l.
Proof. unfold count. rewrite filter_cons. case_decide; [by rewrite Zlen_cons|done]. Qed.
Lemma count_one x : count x [x] = 1.
Proof. by rewrite count_cons, decide_True. Qed.
Lemma count_other x y : x ≠ y -> count x [y] = 0.
Proof. intros Hxy. by rewrite count_cons, decide_False. Qed.
Lemma count_app x l k : count x (l ++ k) = count x l + count x k.
Proof. unfold count. by rewrite filter_app, Zlen_app. Qed.
Lemma count_nonneg x l : 0 <= count x l.
Proof. apply Zlen_nonneg. Qed.
Lemma count_pos x l : x ∈ l <-> 0 < count x l.
Proof.
  unfold count. split.
  - intros Hx. destruct (filter _ l) as [|y k] eqn:Hf.
    + assert (Hin : x ∈ filter (x =.) l) by (apply list_elem_of_filter; done). rewrite Hf in Hin. set_solver.
    + rewrite Zlen_cons. pose proof (Zlen_nonneg k). lia.
  - intros Hp. destruct (filter (x =.) l) as [|y k] eqn:Hf; [done|].
    assert (Hin : y ∈ filter (x =.) l) by (rewrite Hf; set_solver). by apply list_elem_of_filter in Hin as [-> ?].
Qed.
Lemma internal_perm xs ys x : xs ≡ₚ ys -> internal xs x = internal ys x.
Proof.
  intros Hp. unfold internal, count. apply Zlen_perm, filter_Permutation.
  induction Hp; simpl; [done|by f_equiv| |by etrans].
  rewrite !app_assoc. f_equiv. apply Permutation_app_comm.
Qed.
Lemma reachable_in xs x : reachable xs x -> x ∈ xs.
Proof.
  intros (r & Hr & _ & Hs). induction Hs as [|r y x [_ [Hy _]] _ IH]; auto.
Qed.
Lemma reachable_step xs x y : reachable xs x -> y ∈ xs -> y ∈ children x -> reachable xs y.
Proof.
  intros Hx Hy Hc. pose proof (reachable_in _ _ Hx) as Hxin. destruct Hx as (r & Hr & He & Hs).
  exists r. split_and!; [done|done|]. eapply rtc_r; [exact Hs|]. done.
Qed.
(** A set of objects that holds the roots and is closed under references holds
    what is reachable. *)
Lemma reachable_closed xs (P : Z -> Prop) :
  (∀ x, x ∈ xs -> 0 < external xs x -> P x) ->
  (∀ x y, P x -> x ∈ xs -> y ∈ xs -> y ∈ children x -> P y) ->
  ∀ x, reachable xs x -> P x.
Proof.
  intros Hr Hs x (r & Hin & He & Hrt). pose proof (Hr _ Hin He) as HP. clear Hin He.
  induction Hrt as [|r y x [Hx [Hy Hc]] _ IH]; [done|]. apply IH. by eapply Hs.
Qed.
Lemma reachable_perm xs ys x : xs ≡ₚ ys -> reachable xs x -> reachable ys x.
Proof.
  intros Hp (r & Hr & He & Hs). exists r. split_and!.
  - by rewrite <- Hp.
  - unfold external in *. by rewrite <- (internal_perm xs ys).
  - eapply rtc_subrel; [|exact Hs]. intros a b (Ha & Hb & Hc). unfold edge. by rewrite <- !Hp.
Qed.
(** A sublist has fewer references inside. *)
Lemma internal_app xs ys x : internal (xs ++ ys) x = internal xs x + internal ys x.
Proof. unfold internal. by rewrite fmap_app, join_app, count_app. Qed.
Lemma internal_nil x : internal [] x = 0.
Proof. done. Qed.
Lemma internal_one x y : internal [x] y = count y (children x).
Proof. unfold internal. simpl. by rewrite app_nil_r. Qed.
Lemma internal_nonneg xs x : 0 <= internal xs x.
Proof. apply count_nonneg. Qed.
End spec.
