(* ===== verification/GcRefs.v ===== *)
(** * Counting the references from outside: [update_refs], [subtract_refs] *)

From stdpp Require Import base list gmap numbers strings relations.
From S2P Require Import Prelude GcHead GcDeduce GcLinks GcLists GcSpec.

Section refs.
Context {E : Type} {lay : GcLayout} {api : GcApi E}.
Implicit Types (hs : gmap Z gchead) (X : pyexn -> gcmem E -> Prop).
Variable w : E.

(** ** Loops over a list *)

(** The loop rule: [I xs ys acc hs] when [xs] has been visited and [ys] is to
    come. *)
Lemma wp_list_each {A} (body : Z -> A -> GM E A) base (I : list Z -> list Z -> A -> gmap Z gchead -> Prop) (n : nat) X :
  (∀ xs ys acc hs, I xs ys acc hs -> (length xs + length ys < n)%nat ∧ base ∉ ys) ->
  (∀ xs y ys acc hs, I xs (y :: ys) acc hs ->
     wp (body y acc) (λ acc' m', ∃ hs' ys' p, m' = GCMem hs' w ∧ I (xs ++ [y]) ys' acc' hs' ∧
        hs' !! y = Some (GCHead (first_of base ys') p) ∧ aligned (first_of base ys')) X (GCMem hs w)) ->
  ∀ fuel xs ys acc hs, I xs ys acc hs -> (n - length xs <= fuel)%nat ->
  wp (gc_list_each fuel body base (first_of base ys) acc)
    (λ acc' m', ∃ hs' zs, m' = GCMem hs' w ∧ I zs [] acc' hs') X (GCMem hs w).
Proof.
  intros Hn Hbody. induction fuel as [|fuel IH]; intros xs ys acc hs HI Hf.
  { destruct (Hn _ _ _ _ HI). lia. }
  destruct (Hn _ _ _ _ HI) as [Hlen Hni]. simpl. destruct ys as [|y ys]; simpl.
  - rewrite Z.eqb_refl. apply wp_ret. eauto.
  - rewrite (proj2 (Z.eqb_neq _ _)) by set_solver.
    eapply wp_bind_use; [eapply Hbody; exact HI| |done]. intros acc' m' (hs' & ys' & p & -> & HI' & Hy & Hal). cbv beta.
    apply wp_bind. eapply wp_GC_NEXT; [exact Hy|done|]. eapply IH; [exact HI'|]. rewrite length_app. simpl. lia.
Qed.
(** Over a list whose links the body does not change. *)
Lemma wp_list_for {A} (body : Z -> A -> GM E A) base l (I : list Z -> A -> gmap Z gchead -> Prop) Q X acc hs p :
  hs !! base = Some (GCHead (first_of base l) p) -> base ∉ l -> NoDup l -> Forall aligned (base :: l) ->
  (∀ x, x ∈ l -> is_Some (hs !! x)) -> I [] acc hs ->
  (∀ xs y ys acc hs, l = xs ++ y :: ys -> I xs acc hs ->
     wp (body y acc) (λ acc' m', ∃ hs' q, m' = GCMem hs' w ∧ I (xs ++ [y]) acc' hs' ∧
        hs' !! y = Some (GCHead (first_of base ys) q)) X (GCMem hs w)) ->
  (∀ acc hs, I l acc hs -> Q acc (GCMem hs w)) ->
  wp (gc_list_for body base acc) Q X (GCMem hs w).
Proof.
  intros Hh Hni Hnd Hal Hin HI Hbody HQ. unfold gc_list_for. apply wp_bind, wp_get.
  apply Forall_cons in Hal as [Hal Hall]. apply wp_bind. eapply wp_GC_NEXT; [exact Hh|by apply aligned_first|].
  eapply wp_conseq; [apply (wp_list_each body base (λ xs ys acc hs, l = xs ++ ys ∧ I xs acc hs) (S (length l)) X) with (xs := []) (ys := l)| |done].
  - intros xs ys acc' hs' [-> _]. rewrite length_app. split; [lia|set_solver].
  - intros xs y ys acc' hs' [-> HI']. eapply wp_conseq; [by apply (Hbody xs y ys)| |done].
    intros acc1 m1 (hs1 & q & -> & HI1 & Hy). exists hs1, ys, q. split_and!; [done|by rewrite <- app_assoc|done|done|].
    apply Forall_app in Hall as [_ [_ Hys]%Forall_cons]. by apply aligned_first.
  - done.
  - pose proof (nodes_bound hs l Hnd Hin). unfold list_fuel. simpl. lia.
  - intros acc' m' (hs' & zs & -> & Hz & HI'). rewrite app_nil_r in Hz. subst zs. by apply HQ.
Qed.

(** A traversal that handles each child and ignores other objects. *)
Lemma wp_traverse (visit : Z -> GM E Z) op (I : list Z -> gmap Z gchead -> Prop) Q X hs :
  (∀ l o k hs, tp_traverse w op = l ++ o :: k -> I (AS_GC <$> filter (λ o, PyObject_IS_GC w o = true) l) hs ->
     wp (visit o) (λ r m', r = 0 ∧ ∃ hs', m' = GCMem hs' w ∧
       I (AS_GC <$> filter (λ o, PyObject_IS_GC w o = true) (l ++ [o])) hs') X (GCMem hs w)) ->
  I [] hs ->
  (∀ r hs, I (AS_GC <$> filter (λ o, PyObject_IS_GC w o = true) (tp_traverse w op)) hs -> Q r (GCMem hs w)) ->
  wp (traverse op visit) Q X (GCMem hs w).
Proof.
  intros Hv HI HQ. unfold traverse. apply wp_bind, wp_get. simpl world.
  assert (Hloop : ∀ k l hs, tp_traverse w op = l ++ k -> I (AS_GC <$> filter (λ o, PyObject_IS_GC w o = true) l) hs ->
    wp (visit_each visit k) Q X (GCMem hs w)).
  { induction k as [|o k IH]; intros l hs1 Hl HI1; simpl.
    - rewrite app_nil_r in Hl. subst. apply wp_ret. by apply HQ.
    - eapply wp_bind_use; [by eapply Hv| |done]. intros r m' (-> & hs' & -> & HI'). simpl.
      apply (IH (l ++ [o])); [by rewrite <- app_assoc|done]. }
  by apply (Hloop _ []).
Qed.

(** ** [update_refs] *)

Variable fin : Z -> bool.
Abbreviation ptr := (ptr fin).
Abbreviation cnt := (cnt fin).
(** [permanent_generation] is the list of immortal objects. *)
Variable permanent_generation : Z.
Abbreviation immortal := (λ x, Py_IsImmortal w (FROM_GC x) = true).
Abbreviation mortal := (λ x, Py_IsImmortal w (FROM_GC x) = false).
Definition refcnt (x : Z) : Z := Py_REFCNT w (FROM_GC x).

(** Moving an immortal object: the part [xs] has counts, [ys] has pointers. *)
Lemma wp_move_permanent base xs x ys perm Q X hs :
  hs !! base = Some (GCHead (first_of base (xs ++ x :: ys)) (last_of base (xs ++ x :: ys))) ->
  seg hs 0 (cnt refcnt) base xs x -> seg hs 0 (ptr false) (last_of base xs) (x :: ys) base ->
  glist hs (ptr false) permanent_generation perm ->
  NoDup ((base :: xs ++ x :: ys) ++ permanent_generation :: perm) -> Forall aligned (base :: xs ++ x :: ys) ->
  (∀ hs', hs' !! base = Some (GCHead (first_of base (xs ++ ys)) (last_of base (xs ++ ys))) ->
    seg hs' 0 (cnt refcnt) base xs (first_of base ys) -> seg hs' 0 (ptr false) (last_of base xs) ys base ->
    glist hs' (ptr false) permanent_generation (perm ++ [x]) ->
    agree_off ((base :: xs ++ x :: ys) ++ permanent_generation :: perm) hs hs' -> Q tt (GCMem hs' w)) ->
  wp (gc_list_move x permanent_generation) Q X (GCMem hs w).
Proof.
  intros Hb Hxs [Hx Hys] Hp Hnd Hal HQ. eapply (wp_gc_move fin (cnt refcnt) 0 false false false); try done.
  intros hs' H1 H2 H3 H4 H5 H6 H7. apply HQ; try done. destruct Hp as [_ _ Hndp Halp].
  apply NoDup_app in Hnd as (_ & Hd & _). rewrite Forall_cons, Forall_app, Forall_cons in Hal.
  apply glist_snoc; try done; [|tauto]. apply Hd. set_solver.
Qed.

Lemma update_refs_loop_wp base all Q X : ∀ ys fuel xs perm num hs,
  hs !! base = Some (GCHead (first_of base (xs ++ ys)) (last_of base (xs ++ ys))) ->
  seg hs 0 (cnt refcnt) base xs (first_of base ys) -> seg hs 0 (ptr false) (last_of base xs) ys base ->
  glist hs (ptr false) permanent_generation perm ->
  NoDup ((base :: xs ++ ys) ++ permanent_generation :: perm) -> Forall aligned (base :: xs ++ ys) ->
  (base :: xs ++ ys) ++ permanent_generation :: perm ⊆ all ->
  (∀ x, x ∈ ys -> mortal x -> 0 < refcnt x < 2 ^ 62) -> (length ys < fuel)%nat -> num = size_t (Zlen xs) ->
  (∀ hs', glist hs' (cnt refcnt) base (xs ++ filter mortal ys) ->
     glist hs' (ptr false) permanent_generation (perm ++ filter immortal ys) -> agree_off all hs hs' ->
     Q (size_t (Zlen (xs ++ filter mortal ys))) (GCMem hs' w)) ->
  wp (update_refs_loop permanent_generation fuel base (first_of base ys) num) Q X (GCMem hs w).
Proof.
  induction ys as [|y ys IH]; intros fuel xs perm num hs Hb Hxs Hys Hp Hnd Hal Hall Hrc Hf Hnum HQ;
    (destruct fuel as [|fuel]; [simpl in Hf; lia|]); simpl.
  - rewrite Z.eqb_refl. apply wp_ret. subst num. specialize (HQ hs). rewrite !app_nil_r in *. apply HQ; try done.
    split; try done. apply NoDup_app in Hnd as [? _]. done.
  - pose proof Hnd as Hnd0. apply NoDup_app in Hnd0 as (Hnd1 & Hd & Hndp).
    apply NoDup_cons in Hnd1 as [Hbn Hnd1]. apply NoDup_app in Hnd1 as (Hndx & Hdx & Hndy).
    pose proof (proj1 (NoDup_cons _ _) Hndy) as [Hyn Hnd2].
    pose proof (proj1 (Forall_cons _ _ _) Hal) as [Hab Hal1]. apply Forall_app in Hal1 as [Halx [Haly Hals]%Forall_cons].
    destruct Hys as [Hy Hys]. pose proof (aligned_last base xs Hab Halx) as Hall'.
    rewrite (proj2 (Z.eqb_neq _ _)) by set_solver.
    apply wp_bind. eapply wp_GC_NEXT; [exact Hy|by apply aligned_first|]. apply wp_bind, wp_get. simpl world.
    destruct (Py_IsImmortal w (FROM_GC y)) eqn:Him.
    + apply wp_bind, (wp_move_permanent base xs y ys perm); try done.
      intros hs' H1 H2 H3 H4 H5. apply (IH fuel xs (perm ++ [y])); try done.
      * eapply NoDup_Permutation_proper; [|exact Hnd]. solve_Permutation.
      * constructor; [done|]. apply Forall_app. done.
      * etrans; [|exact Hall]. clear. set_solver.
      * intros x Hx. apply Hrc. set_solver.
      * simpl in Hf. lia.
      * intros hs2 K1 K2 K3. specialize (HQ hs2). rewrite !filter_cons in HQ.
        rewrite decide_False in HQ by congruence. rewrite decide_True in HQ by done. apply HQ; [done|by rewrite <- app_assoc in K2|].
        eapply agree_trans; [|exact K3]. by eapply agree_mono.
    + destruct (Hrc y ltac:(set_solver) Him) as [Hr0 Hr1].
      apply wp_bind. eapply wp_reset_refs; [exact Hy|done|unfold refcnt in *; lia|].
      apply wp_bind. eapply wp_get_refs; [apply lookup_insert_eq|unfold refcnt in *; lia|].
      apply wp_bind, wp_assert; [apply negb_true_iff, Z.eqb_neq; unfold refcnt in *; lia|].
      apply (IH fuel (xs ++ [y]) perm); try done.
      * rewrite lookup_insert_ne by set_solver. by rewrite <- app_assoc.
      * apply seg_app. simpl. split; [apply seg_insert; [set_solver|done]|]. by rewrite lookup_insert_eq.
      * rewrite last_of_snoc. by apply seg_insert.
      * eapply glist_agree; [|exact Hp]. intros z Hz. apply lookup_insert_ne. set_solver.
      * by rewrite <- app_assoc.
      * by rewrite <- app_assoc.
      * by rewrite <- app_assoc.
      * intros x Hx. apply Hrc. set_solver.
      * simpl in Hf. lia.
      * rewrite Hnum, Zlen_app. unfold size_t. rewrite Zplus_mod_idemp_l. done.
      * intros hs2 K1 K2 K3. specialize (HQ hs2). rewrite !filter_cons in HQ.
        rewrite decide_True in HQ by done. rewrite decide_False in HQ by congruence. rewrite <- app_assoc in *. apply HQ; [done|done|].
        eapply agree_trans; [|exact K3]. apply agree_insert. apply Hall. set_solver.
Qed.

(** [update_refs] moves the immortal objects away and gives every other object its
    reference count and the collecting flag. *)
Lemma update_refs_wp base l perm Q X hs :
  glist hs (ptr false) base l -> glist hs (ptr false) permanent_generation perm ->
  NoDup ((base :: l) ++ permanent_generation :: perm) ->
  (∀ x, x ∈ l -> mortal x -> 0 < refcnt x < 2 ^ 62) ->
  (∀ hs', glist hs' (cnt refcnt) base (filter mortal l) ->
     glist hs' (ptr false) permanent_generation (perm ++ filter immortal l) ->
     agree_off ((base :: l) ++ permanent_generation :: perm) hs hs' ->
     Q (size_t (Zlen (filter mortal l))) (GCMem hs' w)) ->
  wp (update_refs permanent_generation base) Q X (GCMem hs w).
Proof.
  intros Hl Hp Hnd Hrc HQ. pose proof (glist_bound _ _ _ _ Hl) as Hn. destruct Hl as [Hh Hs Hnd1 Hal].
  unfold update_refs. apply wp_bind, wp_get. apply wp_bind.
  pose proof (proj1 (Forall_cons _ _ _) Hal) as [Hab Hall]. eapply wp_GC_NEXT; [exact Hh|by apply aligned_first|].
  eapply (update_refs_loop_wp base ((base :: l) ++ permanent_generation :: perm)) with (xs := []) (perm := perm); try done.
  unfold list_fuel. simpl. lia.
Qed.

(** ** [subtract_refs] *)

(** A header whose object is not being collected. *)
Definition quiet hs (y : Z) : Prop :=
  ∃ n p f, hs !! y = Some (GCHead n (p + flags false f)) ∧ p `mod` 4 = 0.
Lemma quiet_agree l hs hs' y : agree_off l hs hs' -> y ∉ l -> quiet hs y -> quiet hs' y.
Proof. intros Hag Hy (n & p & f & Hl & Hp). exists n, p, f. by rewrite Hag. Qed.
Lemma ptr_quiet hs base l y : glist hs (ptr false) base l -> y ∈ l -> quiet hs y.
Proof.
  intros [_ Hs _ Hal] Hy. destruct (seg_lookup _ _ _ _ _ _ _ Hs Hy) as (n & p & Hl & _ & Hp).
  eexists _, p, (fin y). split; [exact Hl|]. apply aligned_mod. rewrite Forall_forall in Hal. apply Hal. set_solver.
Qed.

Section subtract.
Variable base : Z.
Variable l : list Z.
Variable hs0 : gmap Z gchead.
(** What the objects refer to: objects of the list, and objects that are not
    being collected. *)
Hypothesis outside : ∀ x y, x ∈ l -> y ∈ children w x -> y ∉ l -> quiet hs0 y.
(** Each object of the list is referred to at least as often as the list's objects
    refer to it. *)
Hypothesis counted : ∀ x, x ∈ l -> internal w l x <= refcnt x < 2 ^ 62.
Let St (r : Z -> Z) hs : Prop := glist hs (cnt r) base l ∧ agree_off l hs0 hs.

Lemma St_impl r r' hs : (∀ x, x ∈ l -> r x = r' x) -> St r hs -> St r' hs.
Proof. intros Hr [H1 H2]. split; [|done]. eapply glist_impl; [|exact H1]. intros p x Hx. unfold cnt. by rewrite Hr. Qed.
Lemma St_put r r' hs y n v0 :
  St r hs -> y ∈ l -> hs !! y = Some (GCHead n v0) -> (∀ x, x ∈ l -> x ≠ y -> r' x = r x) ->
  St r' (<[y := GCHead n (refs_word (r' y) true (fin y))]> hs).
Proof.
  intros [[H1 H2 H3 H4] Hag] Hy Hl Hr. split; [split; [|..|done|done]|].
  - rewrite lookup_insert_ne; [done|]. apply NoDup_cons in H3 as [? _]. by intros ->.
  - eapply seg_update; [exact H2|exact Hl|done|]. intros p x Hx Hxy. unfold cnt. by rewrite Hr.
  - eapply agree_trans; [exact Hag|]. by apply agree_insert.
Qed.
Lemma visit_decref_wp r x op Q X hs :
  St r hs -> x ∈ l -> (PyObject_IS_GC w op = true -> AS_GC op ∈ children w x) ->
  (∀ y, PyObject_IS_GC w op = true -> y ∈ l -> y = AS_GC op -> 0 < r y < 2 ^ 62) ->
  (∀ hs', St (λ y, r y - count y (AS_GC <$> filter (λ o, PyObject_IS_GC w o = true) [op])) hs' -> Q 0 (GCMem hs' w)) ->
  wp (visit_decref op) Q X (GCMem hs w).
Proof.
  intros HSt Hx Hch Hr HQ. unfold visit_decref. apply wp_bind, wp_get. simpl world. rewrite filter_cons in HQ.
  destruct (PyObject_IS_GC w op) eqn:Hgc.
  - rewrite decide_True in HQ by done. cbn in HQ. destruct (decide (AS_GC op ∈ l)) as [Hin|Hout].
    + destruct HSt as [Hl Hag]. destruct (seg_lookup _ _ _ _ _ _ _ (gl_seg _ _ _ _ Hl) Hin) as (n & p & Hlk & _ & _).
      apply wp_bind. eapply wp_is_collecting; [exact Hlk|apply mul4_mod|]. apply wp_bind.
      eapply wp_gc_decref; [exact Hlk|by apply Hr|]. apply wp_ret, HQ.
      replace (r (AS_GC op) - 1) with (r (AS_GC op) - count (AS_GC op) [AS_GC op])
        by (by rewrite count_one).
      eapply (St_put r (λ y, r y - count y [AS_GC op])); [by split|done|exact Hlk|]. intros y Hy Hne. cbv beta.
      rewrite count_other by done. lia.
    + destruct HSt as [Hl Hag]. destruct (quiet_agree _ _ _ _ Hag Hout (outside _ _ Hx (Hch eq_refl) Hout)) as (n & p & f & Hlk & Hp).
      apply wp_bind. eapply wp_is_collecting; [exact Hlk|done|]. apply wp_bind, wp_ret, wp_ret, HQ.
      eapply St_impl; [|by split]. intros y Hy. cbv beta. rewrite count_other by (intros ->; done). lia.
  - apply wp_ret, HQ. rewrite decide_False by congruence. eapply St_impl; [|done]. intros y Hy. cbv beta. simpl. rewrite count_nil. lia.
Qed.
Lemma internal_bound xs x rest y k op ops :
  l = xs ++ x :: rest -> tp_traverse w (FROM_GC x) = k ++ op :: ops -> PyObject_IS_GC w op = true -> y = AS_GC op ->
  internal w xs y + count y (AS_GC <$> filter (λ o, PyObject_IS_GC w o = true) k) < internal w l y.
Proof.
  intros -> Hk Hop ->. rewrite (cons_middle x), !internal_app, internal_one.
  assert (children w x = (AS_GC <$> filter (λ o, PyObject_IS_GC w o = true) k) ++
    AS_GC op :: (AS_GC <$> filter (λ o, PyObject_IS_GC w o = true) ops)) as ->.
  { unfold children. by rewrite Hk, filter_app, filter_cons, decide_True, fmap_app. }
  rewrite count_app, count_cons, decide_True by done.
  pose proof (count_nonneg (AS_GC op) (AS_GC <$> filter (λ o, PyObject_IS_GC w o = true) ops)).
  pose proof (internal_nonneg w rest (AS_GC op)). lia.
Qed.

(** [subtract_refs] leaves each object the count of its references from outside. *)
Lemma subtract_refs_wp Q X :
  glist hs0 (cnt refcnt) base l ->
  (∀ hs, glist hs (cnt (external w l)) base l -> agree_off l hs0 hs -> Q tt (GCMem hs w)) ->
  wp (subtract_refs base) Q X (GCMem hs0 w).
Proof.
  intros Hl HQ. destruct Hl as [Hh Hs Hnd Hal]. pose proof (proj1 (NoDup_cons _ _) Hnd) as [Hb Hndl].
  eapply (wp_list_for _ base l (λ xs _ hs, St (λ y, refcnt y - internal w xs y) hs)); try done.
  - intros x Hx. destruct (seg_lookup _ _ _ _ _ _ _ Hs Hx) as (n & p & Hlk & _). by eexists.
  - split; [|apply agree_refl]. eapply glist_impl; [|by split]. intros p x _. unfold cnt. f_equal. rewrite internal_nil. lia.
  - intros xs x ys _ hs Hsplit HSt. apply wp_bind.
    eapply (wp_traverse _ _ (λ k hs, St (λ y, refcnt y - internal w xs y - count y k) hs)).
    + intros k op ops hs1 Hk HSt1. eapply (visit_decref_wp _ x); [exact HSt1| | | |].
      * rewrite Hsplit. set_solver.
      * intros Hop. unfold children. apply list_elem_of_fmap. exists op. split; [done|]. apply list_elem_of_filter. split; [done|].
        rewrite Hk. set_solver.
      * intros y Hop Hy Hyo. pose proof (internal_bound _ _ _ _ _ _ _ Hsplit Hk Hop Hyo).
        pose proof (counted _ Hy). pose proof (count_nonneg y (AS_GC <$> filter (λ o, PyObject_IS_GC w o = true) k)).
        pose proof (internal_nonneg w xs y). lia.
      * intros hs' HSt'. split; [done|]. exists hs'. split; [done|]. eapply St_impl; [|exact HSt']. intros y Hy. cbv beta.
        rewrite filter_app, fmap_app, count_app. lia.
    + eapply St_impl; [|exact HSt]. intros y Hy. cbv beta. rewrite count_nil. lia.
    + intros r hs1 HSt1. apply wp_ret.
      assert (HSt2 : St (λ y, refcnt y - internal w (xs ++ [x]) y) hs1).
      { eapply St_impl; [|exact HSt1]. intros y Hy. cbv beta. rewrite internal_app, internal_one. unfold children. lia. }
      destruct HSt2 as [[K1 K2 K3 K4] K5]. rewrite Hsplit in K2. pose proof (seg_at _ _ _ _ _ _ _ _ K2) as Hx.
      eexists hs1, _. split; [done|]. split; [by split; [split; try done; by rewrite Hsplit|]|exact Hx].
  - intros [] hs [K1 K2]. apply HQ; [|done]. exact K1.
Qed.
End subtract.
End refs.
