(* ===== verification/GcMove.v ===== *)
(** * Separating the unreachable objects: [move_unreachable]

    The list of a collection in three parts: objects already scanned, objects to
    do, and objects put aside as tentatively unreachable. *)

From stdpp Require Import base list gmap numbers strings relations.
From S2P Require Import Prelude GcHead GcDeduce GcLinks GcLists GcSpec GcRefs.

Section move.
Context {E : Type} {lay : GcLayout} {api : GcApi E}.
Implicit Types (hs : gmap Z gchead) (X : pyexn -> gcmem E -> Prop) (r : Z -> Z) (xs ys us : list Z).
Variable fin : Z -> bool.
Abbreviation ptr := (ptr fin).
Abbreviation cnt := (cnt fin).
Variable w : E.
Variables young unreachable : Z.
Variable l : list Z.
Variable hs0 : gmap Z gchead.
Hypothesis distinct : NoDup (young :: unreachable :: l).
Hypothesis all_aligned : Forall aligned (young :: unreachable :: l).
Hypothesis not_null : 0 ∉ young :: l.
Hypothesis outside : ∀ x y, x ∈ l -> y ∈ children w x -> y ∉ l -> y ≠ young ∧ y ≠ unreachable ∧ quiet hs0 y.

(** Scanned [xs], to do [ys] with counts [r] and collecting flags [col], put aside
    [us]. *)
Definition word_of (col : Z -> bool) r (p x : Z) : Z := refs_word (r x) (col x) (fin x).
Record StC (col : Z -> bool) xs ys us r hs : Prop := {
  st_young : ∃ tail, hs !! young = Some (GCHead (first_of young (xs ++ ys)) tail) ∧
    (ys ≠ [] -> tail = last_of young (xs ++ ys)) ∧ aligned tail;
  st_scanned : seg hs 0 (ptr false) young xs (first_of young ys);
  st_todo : seg hs 0 (word_of col r) (last_of young xs) ys young;
  st_unreachable : ∃ n, hs !! unreachable = Some (GCHead n (last_of unreachable us)) ∧
    (n = 2 + first_of unreachable us ∨ us = [] ∧ n = unreachable);
  st_aside : seg hs 2 (ptr true) unreachable us unreachable;
  st_perm : xs ++ ys ++ us ≡ₚ l;
  st_refs : ∀ y, y ∈ ys -> 0 <= r y < 2 ^ 62;
  st_agree : agree_off (young :: unreachable :: l) hs0 hs
}.
Abbreviation St := (StC (λ _, true)).
(** Known to be reachable. *)
Definition marked xs ys r (y : Z) : Prop := y ∈ xs ∨ y ∈ ys ∧ 0 < r y.
(** A bound on the objects still to be scanned or put aside. *)
Definition zeros r ys : list Z := filter (λ y, r y = 0) ys.
Definition todo ys us r : nat := length ys + length (zeros r ys) + length us.

Lemma todo_mono ys us r r' : (∀ y, y ∈ ys -> r' y = 0 -> r y = 0) -> (todo ys us r' <= todo ys us r)%nat.
Proof.
  intros Hr. unfold todo. assert (length (zeros r' ys) <= length (zeros r ys))%nat; [|lia]. unfold zeros.
  induction ys as [|y ys IH]; [done|]. rewrite !filter_cons. specialize (IH ltac:(set_solver)).
  case_decide as H1; case_decide as H2; simpl; try lia. destruct H2. apply Hr; [set_solver|done].
Qed.
(** The four parts are disjoint. *)
Lemma st_nodup col xs ys us r hs : StC col xs ys us r hs -> NoDup (young :: unreachable :: xs ++ ys ++ us).
Proof. intros HS. eapply NoDup_Permutation_proper; [|exact distinct]. by rewrite (st_perm _ _ _ _ _ _ HS). Qed.
Lemma st_aligned col xs ys us r hs : StC col xs ys us r hs -> Forall aligned (young :: unreachable :: xs ++ ys ++ us).
Proof. intros HS. eapply Forall_Permutation; [done| |exact all_aligned]. by rewrite (st_perm _ _ _ _ _ _ HS). Qed.
Lemma parts xs ys us (P : NoDup (young :: unreachable :: xs ++ ys ++ us)) :
  NoDup (young :: xs) ∧ NoDup (young :: xs ++ ys) ∧ NoDup (unreachable :: us) ∧ NoDup ys ∧
  young ≠ unreachable ∧ young ∉ ys ∧ young ∉ us ∧ unreachable ∉ xs ++ ys ∧
  (∀ z, z ∈ xs -> z ∈ ys -> False) ∧ (∀ z, z ∈ us -> z ∈ xs ++ ys -> False).
Proof.
  clear - P. rewrite !NoDup_cons, !NoDup_app in P. rewrite !NoDup_cons, !NoDup_app. set_solver.
Qed.

Lemma put_count xs ys us r r' hs y n v0 :
  St xs ys us r hs -> y ∈ ys -> hs !! y = Some (GCHead n v0) -> (∀ x, x ∈ ys -> x ≠ y -> r' x = r x) ->
  0 <= r' y < 2 ^ 62 -> St xs ys us r' (<[y := GCHead n (refs_word (r' y) true (fin y))]> hs).
Proof.
  intros HS Hy Hl Hr Hb. pose proof (parts _ _ _ (st_nodup _ _ _ _ _ _ HS)) as (P1 & P2 & P3 & P4 & P5 & P6 & P7 & P8 & P9 & P10).
  destruct HS as [H1 H2 H3 H4 H5 H6 H7 H8]. split; try done.
  - by rewrite lookup_insert_ne by (intros ->; done).
  - apply seg_insert; [|done]. intros Hx. by apply (P9 y).
  - eapply seg_update; [exact H3|exact Hl|done|]. intros p x Hx Hxy. unfold word_of. by rewrite Hr.
  - rewrite lookup_insert_ne by (intros ->; set_solver). done.
  - apply seg_insert; [|done]. intros Hx. apply (P10 y); set_solver.
  - intros x Hx. destruct (decide (x = y)) as [->|Hxy]; [done|]. rewrite Hr by done. auto.
  - eapply agree_trans; [exact H8|]. apply agree_insert. rewrite <- H6. set_solver.
Qed.

(** Both parts of the young list as one segment. *)
Lemma st_both xs ys us r hs : St xs ys us r hs ->
  seg hs 0 (λ p x, if decide (x ∈ xs) then ptr false p x else cnt r p x) young (xs ++ ys) young.
Proof.
  intros HS. pose proof (parts _ _ _ (st_nodup _ _ _ _ _ _ HS)) as (P1 & P2 & P3 & P4 & P5 & P6 & P7 & P8 & P9 & P10).
  apply seg_app. split.
  - eapply seg_impl; [|exact (st_scanned _ _ _ _ _ _ HS)]. intros p x Hx. cbv beta. by rewrite decide_True.
  - eapply seg_impl; [|exact (st_todo _ _ _ _ _ _ HS)]. intros p x Hx. cbv beta. rewrite decide_False; [done|].
    intros Hxs. by apply (P9 x).
Qed.
(** The links of objects put aside carry the flag. *)
Lemma aside_flagged xs ys us r hs z : St xs ys us r hs -> us ≠ [] -> z ∈ unreachable :: us ->
  ∃ n p, hs !! z = Some (GCHead n p) ∧ flagged n = true.
Proof.
  intros HS Hus Hz. pose proof (st_aligned _ _ _ _ _ _ HS) as Hal. rewrite Forall_forall in Hal.
  assert (Hf : ∀ n, n ∈ unreachable :: us -> flagged (2 + n) = true) by (intros n Hn; apply unflag_spec, Hal; set_solver).
  apply elem_of_cons in Hz as [->|Hz].
  - destruct (st_unreachable _ _ _ _ _ _ HS) as (n & Hl & [->|[? _]]); [|done]. eexists _, _. split; [exact Hl|].
    apply Hf. destruct (first_of_elem unreachable us) as [->|]; set_solver.
  - destruct (seg_lookup _ _ _ _ _ _ _ (st_aside _ _ _ _ _ _ HS) Hz) as (n & p & Hl & Hn & _). eexists _, _. split; [exact Hl|].
    apply Hf. set_solver.
Qed.

(** Taking an object out of the ones put aside. *)
Lemma rescue_unlink xs ys u1 gc u2 r Q X hs :
  St xs ys (u1 ++ gc :: u2) r hs ->
  (∀ hs', hs' !! unreachable = Some (GCHead (2 + first_of unreachable (u1 ++ u2)) (last_of unreachable (u1 ++ u2))) ->
     seg hs' 2 (ptr true) unreachable (u1 ++ u2) unreachable ->
     hs' !! gc = Some (GCHead (first_of unreachable u2) (ptr true (last_of unreachable u1) gc)) ->
     agree_off (unreachable :: u1 ++ gc :: u2) hs hs' ->
     wp (_ ← gc_list_append gc young; gc_set_refs gc 1) Q X (GCMem hs' w)) ->
  wp (rescue gc young) Q X (GCMem hs w).
Proof.
  intros HS HQ. pose proof (st_aligned _ _ _ _ _ _ HS) as Hal. rewrite !Forall_cons, !Forall_app, Forall_cons in Hal.
  destruct Hal as (_ & Ha & _ & _ & Hau1 & Hagc & Hau2).
  pose proof (aligned_last _ _ Ha Hau1) as Hal1. pose proof (aligned_first _ _ Ha Hau2) as Haf2.
  assert (Hall : aligned (last_of unreachable (u1 ++ gc :: u2))) by (rewrite last_of_app; simpl; by apply aligned_last).
  pose proof (parts _ _ _ (st_nodup _ _ _ _ _ _ HS)) as (_ & _ & P3 & _).
  destruct (st_unreachable _ _ _ _ _ _ HS) as (n & HU & Hn).
  pose proof (st_aside _ _ _ _ _ _ HS) as Hus. pose proof (seg_at _ _ _ _ _ _ _ _ Hus) as Hgc.
  apply seg_app in Hus as [Hu1 [_ Hu2]]. simpl in Hu1.
  assert (Hne : u1 ++ gc :: u2 ≠ []) by (by destruct u1).
  destruct (aside_flagged _ _ _ _ _ (last_of unreachable u1) HS Hne) as (n1 & p1 & L1 & F1).
  { pose proof (last_of_elem unreachable u1). mem. }
  destruct (aside_flagged _ _ _ _ _ (first_of unreachable u2) HS Hne) as (n2 & p2 & L2 & F2).
  { destruct (first_of_elem unreachable u2) as [->|]; mem. }
  clear HS. rewrite NoDup_cons, NoDup_app, NoDup_cons in P3. destruct P3 as (N1 & N2 & N3 & N4 & N5).
  unfold rescue. apply wp_bind. eapply wp_GC_PREV; [exact Hgc|done|].
  apply wp_bind. eapply wp_load_next; [exact Hgc|]. cbv zeta. rewrite (proj1 (unflag_spec _ Haf2)).
  apply wp_bind. eapply wp_load_next; [exact L1|]. apply wp_bind, wp_assert; [done|].
  apply wp_bind. eapply wp_load_next; [exact L2|]. apply wp_bind, wp_assert; [done|].
  apply wp_bind. eapply (wp_store_link 2 (ptr true) unreachable unreachable u1 gc);
    [exact HU|exact Hu1|constructor; mem|].
  intros hs1 A1 A2 A3. assert (B1 : hs1 !! gc = hs !! gc) by (apply A3; mem).
  apply wp_bind. eapply wp_load_next; [rewrite B1; exact Hgc|]. rewrite (proj1 (unflag_spec _ Haf2)).
  apply wp_bind. eapply wp_store_next; [rewrite B1; exact Hgc|].
  apply wp_bind. eapply (wp_link_prev fin 2 true unreachable gc u2);
    [rewrite lookup_insert_ne by mem; exact A1| |constructor; mem|done|done|done|].
  { apply seg_insert; [mem|]. eapply seg_off; [exact A3| |exact Hu2]. mem. }
  intros hs3 C1 C2 C3. apply HQ.
  - rewrite C1. f_equal. f_equal; [|destruct u2; rewrite !last_of_app; done].
    destruct u1; simpl; [done|]. by destruct Hn as [->|[? _]].
  - apply seg_app. split; [|exact C2]. eapply seg_off; [exact C3| |apply seg_insert; [|exact A2]]; mem.
  - rewrite C3 by mem. apply lookup_insert_eq.
  - intros z Hz. rewrite C3 by mem. rewrite lookup_insert_ne by mem. apply A3. mem.
Qed.

(** An object put aside that turns out to be reachable goes to the end of the
    young list with a count of 1. *)
Lemma rescue_wp xs ys u1 gc u2 r Q X hs :
  St xs ys (u1 ++ gc :: u2) r hs -> ys ≠ [] ->
  (∀ hs', St xs (ys ++ [gc]) (u1 ++ u2) (λ x, if decide (x = gc) then 1 else r x) hs' -> Q tt (GCMem hs' w)) ->
  wp (rescue gc young) Q X (GCMem hs w).
Proof.
  intros HS Hys HQ. apply (rescue_unlink _ _ _ _ _ _ _ _ _ HS). intros hs3 C1 C2 C4 C3.
  pose proof (st_aligned _ _ _ _ _ _ HS) as Hal. rewrite !Forall_cons, !Forall_app, Forall_cons in Hal.
  destruct Hal as (Hay & Ha & Haxs & Hays & Hau1 & Hagc & Hau2).
  pose proof (parts _ _ _ (st_nodup _ _ _ _ _ _ HS)) as (P1 & P2 & P3 & P4 & P5 & P6 & P7 & P8 & P9 & P10).
  assert (G2 : gc ∉ young :: xs ++ ys) by (intros [->|Hz]%elem_of_cons; [mem|apply (P10 gc); mem]).
  assert (Hgu : unreachable ≠ gc) by (apply NoDup_cons in P3 as [? _]; mem).
  assert (G3 : ∀ z, z ∈ young :: xs ++ ys -> z ∉ unreachable :: u1 ++ gc :: u2).
  { intros z Hz [->|Hz']%elem_of_cons; [mem|]. apply elem_of_cons in Hz as [->|Hz]; [done|]. by apply (P10 z). }
  destruct (st_young _ _ _ _ _ _ HS) as (tail & Hy & Ht & _). rewrite (Ht Hys) in Hy.
  apply wp_bind. eapply (wp_append fin _ young (xs ++ ys) gc); [rewrite C3 by (apply G3; mem); exact Hy| |exact C4| | | | | |].
  { eapply seg_agree; [|exact (st_both _ _ _ _ _ HS)]. intros z Hz. apply C3, G3. mem. }
  { rewrite app_comm_cons. apply NoDup_app. split_and!; [done|mem|apply NoDup_singleton]. }
  { rewrite !Forall_cons, !Forall_app, Forall_singleton. done. }
  { rewrite first_of_app. by apply aligned_first; [apply aligned_first|]. }
  { by apply aligned_first. }
  { by apply aligned_last. }
  intros hs4 D1 D2 D3 D4.
  eapply wp_set_refs; [exact D3|apply aligned_last; [|apply Forall_app]; done|lia|]. apply HQ.
  assert (E1 : ∀ z, z ∉ young :: xs ++ ys ++ [gc] -> <[gc := GCHead young (refs_word 1 true (fin gc))]> hs4 !! z = hs3 !! z).
  { intros z Hz. rewrite lookup_insert_ne by mem. apply D4. mem. }
  assert (G4 : gc ∉ u1 ++ u2) by (apply NoDup_cons in P3 as [_ P3]; rewrite NoDup_app, NoDup_cons in P3; mem).
  apply seg_app in D2 as [D2 D2']. split.
  - exists gc. split; [|split; [by rewrite app_assoc, last_of_snoc|done]]. rewrite lookup_insert_ne by mem. rewrite D1.
    f_equal. f_equal. by destruct xs, ys.
  - rewrite first_of_app. simpl. apply seg_insert; [mem|]. eapply seg_impl; [|exact D2]. intros p x Hx. cbv beta. by rewrite decide_True.
  - apply seg_app. simpl. rewrite Z.add_0_l. split.
    + apply seg_insert; [mem|]. eapply seg_impl; [|exact D2']. intros p x Hx. unfold word_of, GcLists.cnt.
      rewrite decide_False by (intros Hxs; by apply (P9 x)). rewrite decide_False; [done|]. intros ->. mem.
    + rewrite lookup_insert_eq. unfold word_of. by rewrite decide_True.
  - eexists. split; [|by left]. rewrite E1; [exact C1|]. mem.
  - eapply seg_agree; [|exact C2]. intros z Hz. apply E1. intros Hz'. apply (G3 z); mem.
  - rewrite <- (st_perm _ _ _ _ _ _ HS). solve_Permutation.
  - intros y Hyin. case_decide; [lia|]. apply (st_refs _ _ _ _ _ _ HS). mem.
  - intros z Hz. rewrite <- (st_perm _ _ _ _ _ _ HS) in Hz. rewrite E1 by mem. rewrite C3 by mem.
    apply (st_agree _ _ _ _ _ _ HS). rewrite <- (st_perm _ _ _ _ _ _ HS). mem.
Qed.

(** Putting an object aside, once the young list [hs1] does without it. *)
Lemma aside_wp col xs y ys us r Q X hs hs1 tail :
  StC col xs (y :: ys) us r hs -> r y = 0 -> col y = true -> hs !! young = Some (GCHead (first_of young (xs ++ y :: ys)) tail) ->
  hs1 !! young = Some (GCHead (match xs with [] => first_of young ys | _ => first_of young (xs ++ y :: ys) end) tail) ->
  seg hs1 0 (ptr false) young xs (first_of young ys) -> agree_off (young :: xs) hs hs1 ->
  (∀ hs', StC col xs ys (us ++ [y]) r hs' -> Q tt (GCMem hs' w)) ->
  wp (put_aside y unreachable) Q X (GCMem hs1 w).
Proof.
  clear not_null outside. intros HS Hr Hcol Hy A1 A2 A3 HQ. pose proof (st_aligned _ _ _ _ _ _ HS) as Hal. rewrite !Forall_cons, !Forall_app, Forall_cons in Hal.
  destruct Hal as (Ha1 & Ha2 & _ & [Hay _] & Hau). pose proof (aligned_last _ _ Ha2 Hau) as Hal1.
  pose proof (parts _ _ _ (st_nodup _ _ _ _ _ _ HS)) as (P1 & P2 & P3 & P4 & P5 & P6 & P7 & P8 & P9 & P10).
  assert (N1 : y ∉ young :: xs) by (intros [->|Hz]%elem_of_cons; [mem|apply (P9 y); mem]).
  assert (N2 : y ∉ unreachable :: us) by (intros [->|Hz]%elem_of_cons; [mem|apply (P10 y); mem]).
  assert (N3 : ∀ z, z ∈ young :: xs ++ y :: ys -> z ∉ unreachable :: us).
  { intros z Hz [->|Hz']%elem_of_cons; [mem|]. apply elem_of_cons in Hz as [->|Hz]; [done|]. by apply (P10 z). }
  assert (N5 : ∀ z, z ∈ unreachable :: us -> z ∉ young :: xs) by (intros z Hz Hz'; apply (N3 z); mem).
  destruct (st_unreachable _ _ _ _ _ _ HS) as (n & HU & Hn).
  destruct HS as [HSy _ [Hhy Hys] _ Hus Hperm Hrefs Hag]. unfold word_of in Hhy. rewrite Hcol in Hhy.
  assert (HU1 : hs1 !! unreachable = hs !! unreachable) by (apply A3, N5; mem).
  unfold put_aside. apply wp_bind. eapply (wp_GC_PREV _ _ _ false false); [rewrite HU1, Z.add_0_r; exact HU|done|].
  rewrite !lor_flag by done.
  apply wp_bind. eapply (wp_store_link 2 (ptr true) unreachable unreachable us unreachable); [rewrite HU1; exact HU| |done|].
  { eapply seg_off; [exact A3| |exact Hus]. intros z Hz Hz'. apply (N5 z); mem. }
  intros hs2 B1 B2 B3.
  apply wp_bind. eapply (wp_SET_PREV _ _ (4 * r y) true (fin y));
    [rewrite B3, A3 by done; exact Hhy|rewrite Hr; by apply (aligned_mul4 0)|done|].
  apply wp_bind. eapply wp_store_next; [apply lookup_insert_eq|]. rewrite insert_insert_eq.
  eapply wp_store_prev; [rewrite lookup_insert_ne by mem; exact B1|]. apply HQ.
  set (hs3 := <[unreachable := _]> _).
  assert (C1 : ∀ z, z ∉ y :: unreachable :: us -> hs3 !! z = hs1 !! z).
  { intros z Hz. unfold hs3. rewrite !lookup_insert_ne by mem. apply B3. mem. }
  assert (C2 : ∀ z, z ∈ us -> hs3 !! z = hs2 !! z).
  { intros z Hz. apply NoDup_cons in P3 as [? _]. unfold hs3. by rewrite !lookup_insert_ne by mem. }
  assert (D : ∀ z, z ∈ young :: xs -> z ∉ y :: unreachable :: us).
  { intros z Hz [->|Hz']%elem_of_cons; [done|]. by apply (N5 z). }
  assert (Hoff : agree_off ((young :: xs) ++ y :: unreachable :: us) hs hs3) by (intros z Hz; rewrite C1 by mem; apply A3; mem).
  split; try done.
  - exists tail. rewrite C1 by (apply D; mem). rewrite A1. split; [by destruct xs|].
    destruct HSy as (t & Hyt & Ht & Hat). rewrite Hy in Hyt. injection Hyt as ->. split; [|done]. intros Hne. rewrite Ht by done. rewrite !last_of_app. simpl. by apply last_of_indep.
  - eapply seg_agree; [|exact A2]. intros z Hz. apply C1, D. mem.
  - eapply seg_indep; [by intros|]. eapply seg_off; [exact Hoff| |exact Hys]. apply NoDup_cons in P4 as [? _].
    intros z Hz [[->|Hz']%elem_of_cons|[->|[->|Hz']%elem_of_cons]%elem_of_cons]%elem_of_app;
      [mem|by apply (P9 z); [|mem]|done|mem|apply (P10 z); mem].
  - unfold hs3. rewrite lookup_insert_eq, last_of_snoc. eexists. split; [done|]. left. destruct us; [done|]. by destruct Hn as [->|[? _]].
  - apply seg_app. split; [by eapply seg_agree|]. split; [|done]. unfold hs3. rewrite lookup_insert_ne by mem. apply lookup_insert_eq.
  - rewrite <- Hperm. solve_Permutation.
  - intros z Hz. apply Hrefs. mem.
  - eapply agree_trans; [exact Hag|]. eapply agree_mono; [|exact Hoff]. rewrite <- Hperm. clear. set_solver.
Qed.
(** An object that nothing from outside is known to reach is put aside. *)
Lemma condemn_wp xs y ys us r Q X hs :
  St xs (y :: ys) us r hs -> r y = 0 -> (∀ hs', St xs ys (us ++ [y]) r hs' -> Q tt (GCMem hs' w)) ->
  wp (condemn (last_of young xs) y unreachable) Q X (GCMem hs w).
Proof.
  intros HS Hr HQ. destruct (st_young _ _ _ _ _ _ HS) as (tail & Hy & _).
  pose proof (parts _ _ _ (st_nodup _ _ _ _ _ _ HS)) as (P1 & _). destruct (st_todo _ _ _ _ _ _ HS) as [Hhy _].
  unfold condemn. apply wp_bind. eapply wp_load_next; [exact Hhy|].
  apply wp_bind. eapply (wp_store_link 0 (ptr false) young young xs y); [exact Hy|exact (st_scanned _ _ _ _ _ _ HS)|done|].
  intros hs1 A1 A2 A3. eapply aside_wp; [exact HS|done|done|exact Hy|exact A1|exact A2|exact A3|exact HQ].
Qed.

(** The link from the last object that has been scanned. *)
Lemma st_next col xs ys us r hs : StC col xs ys us r hs -> ∃ p, hs !! last_of young xs = Some (GCHead (first_of young ys) p).
Proof.
  intros HS. pose proof (st_scanned _ _ _ _ _ _ HS) as Hs. destruct (st_young _ _ _ _ _ _ HS) as (tail & Hy & _).
  destruct xs as [|x xs _] using rev_ind; [by eexists|]. rewrite last_of_snoc.
  apply seg_at in Hs. by eexists.
Qed.
(** After the references of an object have been seen, it joins the scanned ones. *)
Lemma scanned_wp col xs y ys us r Q X hs :
  StC col xs (y :: ys) us r hs -> (∀ hs', StC col (xs ++ [y]) ys us r hs' -> Q y (GCMem hs' w)) ->
  wp (_ ← SET_PREV y (last_of young xs); _ ← gc_clear_collecting y; mret y) Q X (GCMem hs w).
Proof.
  clear not_null outside. intros HS HQ. pose proof (st_aligned _ _ _ _ _ _ HS) as Hal. rewrite !Forall_cons, !Forall_app, Forall_cons in Hal.
  destruct Hal as (Ha1 & _ & Hax & [Hay _] & _). pose proof (aligned_last _ _ Ha1 Hax) as Hall.
  pose proof (parts _ _ _ (st_nodup _ _ _ _ _ _ HS)) as (P1 & P2 & P3 & P4 & P5 & P6 & P7 & P8 & P9 & P10).
  destruct HS as [H1 H2 [H3 H3'] H4 H5 H6 H7 H8]. simpl in H2. specialize (H7 y ltac:(mem)) as Hr.
  apply wp_bind. eapply (wp_SET_PREV _ _ (4 * r y) (col y) (fin y)); [exact H3|by apply aligned_mul4|done|].
  apply wp_bind. eapply (wp_clear_collecting _ _ _ (col y) (fin y)); [apply lookup_insert_eq|by apply aligned_mod|].
  apply wp_ret, HQ. rewrite insert_insert_eq. assert (Hyus : y ∉ us) by (intros Hz; apply (P10 y); mem).
  assert (Hyxs : y ∉ xs) by (intros Hz; apply (P9 y); mem). split; try done.
  - destruct H1 as (tail & Hy & Ht & Hat). exists tail. rewrite <- app_assoc. split; [|split; [intros; by apply Ht|done]].
    rewrite lookup_insert_ne; [done|]. mem.
  - apply seg_app. simpl. split; [by apply seg_insert|]. split; [|done]. apply lookup_insert_eq.
  - rewrite last_of_snoc. apply seg_insert; [by apply NoDup_cons in P4 as [? _]|done].
  - rewrite lookup_insert_ne by mem. done.
  - by apply seg_insert.
  - by rewrite <- app_assoc.
  - intros z Hz. apply H7. mem.
  - eapply agree_trans; [exact H8|]. apply agree_insert. rewrite <- H6. mem.
Qed.

(** ** One reference *)

(** What the visit of a reference may change: [c] becomes marked, if it is one
    of the list's objects, and no work is added. *)
Definition visited xs ys us r (c : list Z) (hs' : gmap Z gchead) : Prop :=
  ∃ ys' us' r', St xs ys' us' r' hs' ∧ head ys' = head ys ∧
    (∀ z, marked xs ys' r' z <-> marked xs ys r z ∨ z ∈ c ∧ z ∈ l) ∧ (todo ys' us' r' <= todo ys us r)%nat.

Lemma visited_same xs ys us r c hs :
  St xs ys us r hs -> (∀ z, z ∈ c -> z ∈ l -> marked xs ys r z) -> visited xs ys us r c hs.
Proof. intros HS Hc. exists ys, us, r. split_and!; [done|done| |done]. intros z. naive_solver. Qed.
(** A first reference gives a count of 1. *)
Lemma visited_count xs ys us r c hs n v0 :
  St xs ys us r hs -> c ∈ ys -> r c = 0 -> hs !! c = Some (GCHead n v0) ->
  visited xs ys us r [c] (<[c := GCHead n (refs_word 1 true (fin c))]> hs).
Proof.
  intros HS Hc Hr Hl. set (r' := λ x, if decide (x = c) then 1 else r x).
  assert (Hrc : r' c = 1) by (unfold r'; by rewrite decide_True).
  assert (Hro : ∀ x, x ≠ c -> r' x = r x) by (intros x Hx; unfold r'; by rewrite decide_False).
  assert (Hcl : c ∈ l) by (rewrite <- (st_perm _ _ _ _ _ _ HS); set_solver).
  exists ys, us, r'. split_and!; [|done| |].
  - rewrite <- Hrc. eapply put_count; [exact HS|done|exact Hl|auto|lia].
  - intros z. unfold marked. destruct (decide (z = c)) as [->|Hz]; [rewrite Hrc|rewrite Hro by done]; set_solver by lia.
  - apply todo_mono. intros x Hx. destruct (decide (x = c)) as [->|Hxc]; [lia|by rewrite Hro].
Qed.
(** A reference to an object put aside brings it back. *)
Lemma visited_rescue xs ys u1 c u2 r hs' :
  ys ≠ [] -> c ∈ l -> c ∉ ys ->
  St xs (ys ++ [c]) (u1 ++ u2) (λ x, if decide (x = c) then 1 else r x) hs' ->
  visited xs ys (u1 ++ c :: u2) r [c] hs'.
Proof.
  intros Hne Hc Hcy HS. set (r' := λ x, if decide (x = c) then 1 else r x) in *.
  assert (Hrc : r' c = 1) by (unfold r'; by rewrite decide_True).
  assert (Hro : ∀ x, x ≠ c -> r' x = r x) by (intros x Hx; unfold r'; by rewrite decide_False).
  exists (ys ++ [c]), (u1 ++ u2), r'. split_and!; [done|by destruct ys| |].
  - intros z. unfold marked. destruct (decide (z = c)) as [->|Hz]; [rewrite Hrc|rewrite Hro by done]; set_solver by lia.
  - pose proof (todo_mono ys [] r r') as Hm. unfold todo, zeros in *. rewrite filter_app, !length_app. simpl.
    rewrite filter_cons, decide_False by lia. simpl in *.
    assert (∀ y, y ∈ ys -> r' y = 0 -> r y = 0) as Hz by (intros y Hy; rewrite Hro; [done|set_solver]).
    specialize (Hm Hz). simpl in *. lia.
Qed.

Lemma visit_reachable_wp xs y ys us r op Q X hs :
  St xs (y :: ys) us r hs -> (PyObject_IS_GC w op = true -> AS_GC op ∈ children w y) ->
  (∀ hs', visited xs (y :: ys) us r (AS_GC <$> filter (λ o, PyObject_IS_GC w o = true) [op]) hs' -> Q 0 (GCMem hs' w)) ->
  wp (visit_reachable young op) Q X (GCMem hs w).
Proof.
  intros HS Hch HQ. unfold visit_reachable. apply wp_bind, wp_get. simpl world. rewrite filter_cons in HQ.
  assert (Hyl : y ∈ l) by (rewrite <- (st_perm _ _ _ _ _ _ HS); set_solver).
  destruct (PyObject_IS_GC w op); simpl.
  2:{ apply wp_ret, HQ. rewrite decide_False by done. apply visited_same; [done|]. simpl. set_solver. }
  rewrite decide_True in HQ by done. simpl in HQ. set (c := AS_GC op) in *. specialize (Hch eq_refl).
  destruct (decide (c ∈ l)) as [Hin|Hout].
  2:{ destruct (outside _ _ Hyl Hch Hout) as (Hcy & Hcu & Hq).
    assert (quiet hs c) as (n & p & f & Hl & Hp) by (eapply quiet_agree; [exact (st_agree _ _ _ _ _ _ HS)|set_solver|done]).
    apply wp_bind. eapply wp_get_refs_any; [exact Hl|]. intros rr. apply wp_bind. eapply wp_is_collecting; [exact Hl|done|].
    apply wp_ret, HQ. apply visited_same; [done|]. set_solver. }
  pose proof (st_aligned _ _ _ _ _ _ HS) as Hal. rewrite Forall_forall in Hal.
  pose proof Hin as Hin'. rewrite <- (st_perm _ _ _ _ _ _ HS) in Hin'. apply elem_of_app in Hin' as [Hx|[Hy|Hu]%elem_of_app].
  - destruct (seg_lookup _ _ _ _ _ _ _ (st_scanned _ _ _ _ _ _ HS) Hx) as (n & p & Hl & _ & Hp).
    apply wp_bind. eapply wp_get_refs_any; [exact Hl|]. intros rr.
    apply wp_bind. eapply wp_is_collecting; [exact Hl|apply aligned_mod, Hal; set_solver|].
    apply wp_ret, HQ, visited_same; [done|]. intros z Hz _. left. set_solver.
  - destruct (seg_lookup _ _ _ _ _ _ _ (st_todo _ _ _ _ _ _ HS) Hy) as (n & p & Hl & Hn & _). rewrite Z.add_0_l in Hl.
    assert (Han : aligned n) by (apply Hal; set_solver).
    assert (Hn0 : n ≠ 0). { intros ->. apply not_null. rewrite <- (st_perm _ _ _ _ _ _ HS). set_solver. }
    apply wp_bind. eapply wp_get_refs; [exact Hl|by apply (st_refs _ _ _ _ _ _ HS)|].
    apply wp_bind. eapply wp_is_collecting; [exact Hl|apply mul4_mod|]. simpl.
    apply wp_bind. eapply wp_load_next; [exact Hl|]. apply wp_bind, wp_assert; [by apply negb_true_iff, Z.eqb_neq|].
    rewrite (proj2 (plain_spec _ Han)). apply wp_bind. pose proof (st_refs _ _ _ _ _ _ HS c Hy).
    destruct (r c =? 0) eqn:Hr.
    + apply Z.eqb_eq in Hr. eapply (wp_set_refs _ _ (4 * r c)); [exact Hl|by apply aligned_mul4|lia|].
      apply wp_ret, HQ. by eapply visited_count.
    + apply Z.eqb_neq in Hr. apply wp_assert; [apply Z.ltb_lt; lia|]. apply wp_ret, HQ, visited_same; [done|].
      intros z Hz _. right. assert (z = c) as -> by set_solver. split; [done|lia].
  - destruct (seg_lookup _ _ _ _ _ _ _ (st_aside _ _ _ _ _ _ HS) Hu) as (n & p & Hl & Hn & Hp).
    assert (Han : aligned n) by (apply Hal; set_solver).
    apply wp_bind. eapply wp_get_refs_any; [exact Hl|]. intros rr.
    apply wp_bind. eapply wp_is_collecting; [exact Hl|apply aligned_mod, Hal; set_solver|]. simpl.
    apply wp_bind. eapply wp_load_next; [exact Hl|].
    apply wp_bind, wp_assert; [destruct Han; apply negb_true_iff, Z.eqb_neq; lia|].
    rewrite (proj2 (unflag_spec _ Han)). apply wp_bind. apply list_elem_of_split in Hu as (u1 & u2 & ->).
    eapply rescue_wp; [exact HS|done|]. intros hs' HS'. apply wp_ret, HQ. apply visited_rescue; [done|done| |done].
    intros Hcy. pose proof (parts _ _ _ (st_nodup _ _ _ _ _ _ HS)) as (_ & _ & _ & _ & _ & _ & _ & _ & _ & P10).
    apply (P10 c); set_solver.
Qed.

(** ** The loop *)

Lemma visited_trans xs ys us r hs hs' c d :
  visited xs ys us r c hs ->
  (∀ ys' us' r', St xs ys' us' r' hs -> head ys' = head ys -> visited xs ys' us' r' d hs') ->
  visited xs ys us r (c ++ d) hs'.
Proof.
  intros (ys1 & us1 & r1 & HS & Hh & Hm & Ht) Hd. destruct (Hd _ _ _ HS Hh) as (ys2 & us2 & r2 & HS2 & Hh2 & Hm2 & Ht2).
  exists ys2, us2, r2. split_and!; [done|congruence| |lia]. intros z. rewrite Hm2, Hm. set_solver.
Qed.
(** All references of the object at hand. *)
Lemma traverse_reachable_wp xs y ys us r Q X hs :
  St xs (y :: ys) us r hs ->
  (∀ res hs', visited xs (y :: ys) us r (children w y) hs' -> Q res (GCMem hs' w)) ->
  wp (traverse (FROM_GC y) (visit_reachable young)) Q X (GCMem hs w).
Proof.
  intros HS HQ. eapply (wp_traverse w _ _ (visited xs (y :: ys) us r)); [|by apply visited_same; [|intros z ?%elem_of_nil]|exact HQ].
  intros k op ops hs1 Hk (ys1 & us1 & r1 & HS1 & Hh & Hm & Ht). destruct ys1 as [|y1 ys1]; [done|].
  injection Hh as ->. eapply visit_reachable_wp; [exact HS1| |].
  - intros Hop. unfold children. apply list_elem_of_fmap. exists op. split; [done|]. apply list_elem_of_filter. split; [done|].
    rewrite Hk. set_solver.
  - intros hs2 Hv. split; [done|]. exists hs2. split; [done|]. rewrite filter_app, fmap_app.
    destruct Hv as (ys2 & us2 & r2 & HS2 & Hh2 & Hm2 & Ht2). exists ys2, us2, r2. split_and!; [done|by rewrite Hh2| |lia].
    intros z. rewrite Hm2, Hm. set_solver.
Qed.

(** What is marked is right, and complete up to the objects to do. *)
Record Sem xs ys r : Prop := {
  sem_roots : ∀ y, y ∈ l -> 0 < external w l y -> marked xs ys r y;
  sem_reach : ∀ y, marked xs ys r y -> reachable w l y;
  sem_closed : ∀ x c, x ∈ xs -> c ∈ children w x -> c ∈ l -> marked xs ys r c
}.
Lemma sem_marked xs ys r xs' ys' r' :
  Sem xs ys r -> (∀ z, marked xs' ys' r' z <-> marked xs ys r z) -> xs' ⊆ xs -> Sem xs' ys' r'.
Proof. intros [H1 H2 H3] Hm Hxs. split; intros; rewrite Hm in *; eauto. Qed.
(** The object at hand is marked and has been visited: it can count as scanned. *)
Lemma sem_scanned xs y ys us r ys' us' r' hs :
  Sem xs (y :: ys) r -> 0 < r y -> y ∈ l -> St xs (y :: ys') us' r' hs ->
  (∀ z, marked xs (y :: ys') r' z <-> marked xs (y :: ys) r z ∨ z ∈ children w y ∧ z ∈ l) ->
  (todo (y :: ys') us' r' <= todo (y :: ys) us r)%nat ->
  Sem (xs ++ [y]) ys' r' ∧ (todo ys' us' r' < todo (y :: ys) us r)%nat.
Proof.
  intros [H1 H2 H3] Hr Hyl HS Hm Ht.
  pose proof (parts _ _ _ (st_nodup _ _ _ _ _ _ HS)) as (_ & _ & _ & _ & _ & _ & _ & _ & P9 & _).
  assert (Hy : marked xs (y :: ys') r' y) by (rewrite Hm; left; right; split; [set_solver|done]).
  assert (Hry : 0 < r' y) by (destruct Hy as [Hy|[_ Hy]]; [destruct (P9 y); set_solver|done]).
  assert (Hm' : ∀ z, marked (xs ++ [y]) ys' r' z <-> marked xs (y :: ys') r' z) by (intros z; unfold marked; set_solver).
  split.
  - split; intros *; rewrite ?Hm', ?Hm; [auto| |].
    + intros [Hz|[Hz Hzl]]; [auto|]. eapply reachable_step; [|exact Hzl|exact Hz]. apply H2. right. set_solver.
    + intros [Hx|Hx]%elem_of_app Hc Hcl; [left; eauto|]. apply list_elem_of_singleton in Hx as ->. by right.
  - unfold todo, zeros in *. rewrite (filter_cons _ y ys'), decide_False in Ht by lia. simpl in *. lia.
Qed.

Lemma move_loop_wp Q X : ∀ fuel xs ys us r hs,
  St xs ys us r hs -> Sem xs ys r -> (todo ys us r < fuel)%nat ->
  (∀ xs' us' r' hs', St xs' [] us' r' hs' -> Sem xs' [] r' -> Q (last_of young xs') (GCMem hs' w)) ->
  wp (move_unreachable_loop fuel young unreachable (last_of young xs) (first_of young ys)) Q X (GCMem hs w).
Proof.
  induction fuel as [|fuel IH]; intros xs ys us r hs HS HM Hf HQ; [lia|]. simpl.
  destruct ys as [|y ys]; simpl; [rewrite Z.eqb_refl; apply wp_ret; by eapply HQ|].
  pose proof (st_aligned _ _ _ _ _ _ HS) as Hal. rewrite Forall_forall in Hal.
  pose proof (parts _ _ _ (st_nodup _ _ _ _ _ _ HS)) as (_ & _ & _ & _ & _ & P6 & _).
  assert (Hnext : ∀ xs' ys' us' r' hs', St xs' ys' us' r' hs' -> Sem xs' ys' r' -> (todo ys' us' r' < fuel)%nat ->
    wp (gc ← GC_NEXT (last_of young xs'); move_unreachable_loop fuel young unreachable (last_of young xs') gc) Q X (GCMem hs' w)).
  { intros xs' ys' us' r' hs' HS' HM' Hf'. destruct (st_next _ _ _ _ _ _ HS') as (p & Hp). apply wp_bind.
    eapply wp_GC_NEXT; [exact Hp| |by eapply IH]. pose proof (st_aligned _ _ _ _ _ _ HS') as Hal'.
    rewrite !Forall_cons, !Forall_app in Hal'. destruct Hal' as (A & _ & _ & B & _). by apply aligned_first. }
  destruct (st_todo _ _ _ _ _ _ HS) as [Hy _]. pose proof (st_refs _ _ _ _ _ _ HS y ltac:(set_solver)) as Hr.
  rewrite (proj2 (Z.eqb_neq _ _)) by set_solver. apply wp_bind. eapply wp_get_refs; [exact Hy|done|]. apply wp_bind.
  destruct (r y =? 0) eqn:Hr0; simpl.
  - apply Z.eqb_eq in Hr0. apply wp_bind. apply (condemn_wp _ _ _ _ _ _ _ _ HS Hr0). intros hs' HS'. apply wp_ret.
    eapply Hnext; [exact HS'| |].
    + eapply sem_marked; [exact HM| |done]. intros z. unfold marked. set_solver by lia.
    + unfold todo, zeros in *. rewrite (filter_cons _ y ys), decide_True in Hf by done. rewrite length_app. simpl in *. lia.
  - apply Z.eqb_neq in Hr0. apply wp_bind, wp_assert; [apply Z.ltb_lt; lia|]. apply wp_bind.
    apply (traverse_reachable_wp _ _ _ _ _ _ _ _ HS). intros res hs' (ys' & us' & r' & HS' & Hh & Hm & Ht).
    destruct ys' as [|y' ys']; [done|]. injection Hh as ->.
    assert (Hyl : y ∈ l) by (rewrite <- (st_perm _ _ _ _ _ _ HS); set_solver).
    destruct (sem_scanned _ _ _ us _ _ _ _ _ HM ltac:(lia) Hyl HS' Hm Ht) as [HM' Ht'].
    apply (scanned_wp _ _ _ _ _ _ _ _ _ HS'). intros hs2 HS2. specialize (Hnext _ _ _ _ _ HS2 HM' ltac:(lia)).
    by rewrite last_of_snoc in Hnext.
Qed.

(** [move_unreachable] leaves the reachable objects in the young list and moves
    the others. *)
Lemma move_unreachable_wp Q X :
  glist hs0 (cnt (external w l)) young l -> hs0 !! unreachable = Some (GCHead unreachable unreachable) ->
  (∀ x, x ∈ l -> 0 <= external w l x < 2 ^ 62) ->
  (∀ xs us hs', xs ++ us ≡ₚ l -> (∀ x, x ∈ xs <-> reachable w l x) ->
     glist hs' (ptr false) young xs -> flist hs' (ptr true) unreachable us ->
     agree_off (young :: unreachable :: l) hs0 hs' -> Q tt (GCMem hs' w)) ->
  wp (move_unreachable young unreachable) Q X (GCMem hs0 w).
Proof.
  intros Hl HU Hrefs HQ. pose proof (glist_bound _ _ _ _ Hl) as Hlen. destruct Hl as [Hy Hs Hnd Hal].
  pose proof (proj1 (Forall_cons _ _ _) Hal) as [Haly Hall].
  unfold move_unreachable. apply wp_bind, wp_get. apply wp_bind. eapply wp_GC_NEXT; [exact Hy|by apply aligned_first|].
  apply wp_bind. apply (move_loop_wp _ _ _ [] l [] (external w l)).
  - split; simpl; try done; [eexists; split_and!; [exact Hy|done|by apply aligned_last]|by eexists; split; [exact HU|right]|by rewrite app_nil_r].
  - split; [by right| |by intros ? ? ?%elem_of_nil]. intros y [Hn%elem_of_nil|[Hyl Hr]]; [done|]. exists y. by split_and!.
  - unfold todo, list_fuel. simpl. pose proof (length_filter (λ y, external w l y = 0) l). unfold zeros. lia.
  - intros xs us r hs HS [S1 S2 S3]. pose proof (parts _ _ _ (st_nodup _ _ _ _ _ _ HS)) as (P1 & P2 & P3 & P4 & P5 & _ & P7 & P8 & _).
    pose proof (st_aligned _ _ _ _ _ _ HS) as Ha. rewrite !Forall_cons, !Forall_app in Ha. destruct Ha as (Ha1 & Ha2 & Hax & _ & Hau).
    destruct HS as [(tail & T1 & _) T2 _ (n & T4 & T5) T6 T7 _ T9]. rewrite app_nil_r in *.
    apply wp_bind. eapply wp_store_prev; [exact T1|]. apply wp_bind. eapply wp_load_next; [apply lookup_insert_eq|].
    apply wp_bind. eapply wp_store_next; [apply lookup_insert_eq|]. rewrite insert_insert_eq.
    apply wp_bind. eapply wp_load_next; [rewrite lookup_insert_ne by done; exact T4|].
    eapply wp_store_next; [rewrite lookup_insert_ne by done; exact T4|]. rewrite (land_prev_mask_plain (first_of young xs)) by (by apply aligned_first).
    assert (Z.land n PREV_MASK = first_of unreachable us) as ->.
    { destruct T5 as [->|[-> ->]]; [by apply land_prev_mask_flag, aligned_first|by apply land_prev_mask_plain]. }
    apply (HQ xs us); [done| | | |].
    + intros x. split; [intros; apply S2; by left|]. apply (reachable_closed w l (λ x, x ∈ xs)).
      * intros y Hyl He. destruct (S1 y Hyl He) as [|[?%elem_of_nil _]]; done.
      * intros y c Hyx _ Hcl Hc. destruct (S3 y c Hyx Hc Hcl) as [|[?%elem_of_nil _]]; done.
    + split; [|by apply seg_insert; [|apply seg_insert; [by apply NoDup_cons in P1 as [? _]|]]|done|by constructor].
      rewrite lookup_insert_ne by done. apply lookup_insert_eq.
    + split; [apply lookup_insert_eq| |done|by constructor].
      apply seg_insert; [by apply NoDup_cons in P3 as [? _]|]. by apply seg_insert.
    + eapply agree_trans; [exact T9|]. eapply agree_trans; apply agree_insert; set_solver.
Qed.
End move.
