(* ===== verification/GcCollect.v ===== *)
(** * The phases of a collection

    [deduce_unreachable] as a whole, the objects with legacy finalizers, and
    the check for resurrected objects, on lists. *)

From stdpp Require Import base list gmap numbers strings relations.
From S2P Require Import Prelude GcHead GcDeduce GcLinks GcLists GcSpec GcRefs GcMove.

Section collect.
Context {E : Type} {lay : GcLayout} {api : GcApi E}.
Implicit Types (hs : gmap Z gchead) (X : pyexn -> gcmem E -> Prop) (xs ys us : list Z).
(** The finalized flags of the objects, and the world. *)
Variable fin : Z -> bool.
Variable w : E.
Abbreviation ptr := (ptr fin).
Abbreviation cnt := (cnt fin).
Abbreviation immortal := (λ x, Py_IsImmortal w (FROM_GC x) = true).
Abbreviation mortal := (λ x, Py_IsImmortal w (FROM_GC x) = false).
Variable permanent_generation : Z.

(** What a collection of the list [l] of [base] starts from.  [c] is the
    collecting flag of the objects, [perm] the list of immortal objects. *)
Record collectable (c : bool) hs (base unreachable : Z) l perm : Prop := {
  co_base : glist hs (ptr c) base l;
  co_perm : glist hs (ptr false) permanent_generation perm;
  co_distinct : NoDup (unreachable :: (base :: l) ++ permanent_generation :: perm);
  co_aligned : aligned unreachable;
  co_not_null : 0 ∉ base :: l;
  co_refs : ∀ x, x ∈ l -> mortal x -> 0 < refcnt w x < 2 ^ 62;
  co_counted : ∀ x, x ∈ l -> mortal x -> internal w (filter mortal l) x <= refcnt w x;
  co_outside : ∀ x y, x ∈ l -> mortal x -> y ∈ children w x ->
    y ∉ [base; unreachable; permanent_generation] ∧ (y ∈ l ∨ quiet hs y)
}.

Lemma perm_apart base unreachable l perm x :
  NoDup (unreachable :: (base :: l) ++ permanent_generation :: perm) ->
  x ∈ permanent_generation :: perm ++ filter immortal l -> x ∉ base :: unreachable :: filter mortal l.
Proof.
  intros [Hu [Hbl [Hd _]]%NoDup_app]%NoDup_cons Hx. apply NoDup_cons in Hbl as [Hbl _].
  apply not_elem_of_app in Hu as [Hu1 Hu2].
  assert (Hx' : x ∈ permanent_generation :: perm ∨ x ∈ l ∧ Py_IsImmortal w (FROM_GC x) = true).
  { rewrite elem_of_cons, elem_of_app, list_elem_of_filter in Hx. rewrite elem_of_cons. tauto. }
  clear Hx. rewrite !elem_of_cons, list_elem_of_filter. intros [->|[->|[Hm Hxl]]]; destruct Hx' as [Hx|[Hx Hi]].
  - by apply (Hd base); [left|].
  - done.
  - done.
  - by apply Hu1; right.
  - by apply (Hd x); [right|].
  - congruence.
Qed.

(** [update_refs] leaves each mortal object its reference count. *)
Lemma update_wp base unreachable l perm Q X hs :
  collectable false hs base unreachable l perm ->
  (∀ hs', glist hs' (cnt (refcnt w)) base (filter mortal l) ->
     glist hs' (ptr false) permanent_generation (perm ++ filter immortal l) ->
     agree_off ((base :: l) ++ permanent_generation :: perm) hs hs' ->
     (∀ x y, x ∈ filter mortal l -> y ∈ children w x -> y ∉ filter mortal l ->
        y ∉ [base; unreachable; permanent_generation] ∧ quiet hs' y) ->
     Q (size_t (Zlen (filter mortal l))) (GCMem hs' w)) ->
  wp (update_refs permanent_generation base) Q X (GCMem hs w).
Proof.
  intros [Hb Hp Hnd Hu Hnull Hrefs Hcount Hout] HQ. set (M := filter mortal l) in *. apply NoDup_cons in Hnd as [Hnu Hnd].
  apply (update_refs_wp w fin permanent_generation base l perm); [done|done|done|done|].
  fold M. intros hs1 A1 A2 A3. set (P := perm ++ filter immortal l) in *. apply HQ; [done|done|done|].
  intros x y [Hm Hx]%list_elem_of_filter Hc Hy. destruct (Hout x y Hx Hm Hc) as [Hh Hy']. split; [done|].
  destruct (decide (y ∈ P)) as [HyP|HyP]; [by eapply ptr_quiet|].
  assert (Hyl : y ∉ l).
  { intros Hyl. destruct (Py_IsImmortal w (FROM_GC y)) eqn:Him; [apply HyP|apply Hy]; [apply elem_of_app; right|];
    by apply list_elem_of_filter. }
  destruct Hy' as [Hy'|Hy']; [done|]. eapply quiet_agree; [exact A3| |exact Hy'].
  apply not_elem_of_app. split; [mem|]. apply not_elem_of_cons. split; [mem|]. intros Hyp. apply HyP, elem_of_app. by left.
Qed.
(** The counts of a collection can be what they are. *)
Lemma counts_range c base unreachable l perm hs x : collectable c hs base unreachable l perm -> x ∈ filter mortal l ->
  internal w (filter mortal l) x <= refcnt w x < 2 ^ 62 ∧ 0 <= external w (filter mortal l) x < 2 ^ 62.
Proof.
  intros [_ _ _ _ _ Hrefs Hcount _] [Hm Hx]%list_elem_of_filter. specialize (Hrefs _ Hx Hm). specialize (Hcount _ Hx Hm).
  pose proof (internal_nonneg w (filter mortal l) x). unfold external. unfold refcnt in *. lia.
Qed.
(** [update_refs] and [subtract_refs] leave each mortal object the count of its
    references from outside. *)
Lemma counts_wp {A} (k : Z -> GM E A) base unreachable l perm Q X hs :
  collectable false hs base unreachable l perm ->
  (∀ hs', glist hs' (cnt (external w (filter mortal l))) base (filter mortal l) ->
     glist hs' (ptr false) permanent_generation (perm ++ filter immortal l) ->
     agree_off ((base :: l) ++ permanent_generation :: perm) hs hs' ->
     (∀ x y, x ∈ filter mortal l -> y ∈ children w x -> y ∉ filter mortal l ->
        y ∉ [base; unreachable; permanent_generation] ∧ quiet hs' y) ->
     wp (k (size_t (Zlen (filter mortal l)))) Q X (GCMem hs' w)) ->
  wp (n ← update_refs permanent_generation base; _ ← subtract_refs base; k n) Q X (GCMem hs w).
Proof.
  intros Hco HQ. set (M := filter mortal l) in *. pose proof (co_distinct _ _ _ _ _ _ Hco) as Hnd.
  assert (HPM := λ x, perm_apart _ _ _ _ x Hnd). fold M in HPM.
  assert (HMl : ∀ x, x ∈ M -> x ∈ l) by (intros x [_ Hx]%list_elem_of_filter; done).
  apply wp_bind. apply (update_wp _ _ _ _ _ _ _ Hco). fold M. intros hs1 A1 A2 A3 Hq1.
  apply wp_bind. apply (subtract_refs_wp w fin base M hs1); [| |exact A1|].
  { intros x y Hx Hc Hy. by apply (Hq1 x y). }
  { intros x Hx. apply (counts_range _ _ _ _ _ _ _ Hco Hx). }
  intros hs2 B1 B2. apply HQ; [exact B1| | |].
  - eapply glist_agree; [|exact A2]. intros z Hz%HPM. apply B2. mem.
  - intros z Hz. rewrite B2, A3; [done|done|]. intros HzM%HMl. apply Hz, elem_of_app. left. by right.
  - intros x y Hx Hc Hy. destruct (Hq1 x y Hx Hc Hy) as [Hh Hq]. split; [done|]. by apply (quiet_agree M hs1).
Qed.

(** [deduce_unreachable] splits the mortal objects of the list into the ones
    that are reachable from outside and the others. *)
Lemma deduce_unreachable_wp base unreachable l perm Q X hs :
  collectable false hs base unreachable l perm ->
  (∀ xs us hs', xs ++ us ≡ₚ filter mortal l -> (∀ x, x ∈ xs <-> reachable w (filter mortal l) x) ->
     glist hs' (ptr false) base xs -> flist hs' (ptr true) unreachable us ->
     glist hs' (ptr false) permanent_generation (perm ++ filter immortal l) ->
     agree_off (unreachable :: (base :: l) ++ permanent_generation :: perm) hs hs' -> Q tt (GCMem hs' w)) ->
  wp (deduce_unreachable permanent_generation base unreachable) Q X (GCMem hs w).
Proof.
  intros Hco HQ. apply (counts_wp (λ _, _ ← gc_list_init unreachable; move_unreachable base unreachable) _ _ _ _ _ _ _ Hco).
  intros hs2 A1 A2 A3 Hq. pose proof Hco as [Hb Hp Hnd Hu Hnull Hrefs Hcount Hout]. set (M := filter mortal l) in *.
  assert (HPM := λ x, perm_apart _ _ _ _ x Hnd). fold M in HPM. apply NoDup_cons in Hnd as [Hnu _].
  assert (HMl : ∀ x, x ∈ M -> x ∈ l) by (intros x [_ Hx]%list_elem_of_filter; done).
  pose proof (gl_aligned _ _ _ _ A1) as [Halb HalM]%Forall_cons. pose proof (gl_nodup _ _ _ _ A1) as [HbM HndM]%NoDup_cons.
  assert (HUM : unreachable ∉ M) by (intros ?%HMl; mem).
  assert (Hub : unreachable ≠ base) by mem.
  apply wp_bind, wp_list_init.
  apply (move_unreachable_wp fin w base unreachable M (<[unreachable := GCHead unreachable unreachable]> hs2)).
  - constructor; [intros [?|?]%elem_of_cons; done|]. by constructor.
  - constructor; [done|]. by constructor.
  - intros Hz. apply Hnull. apply elem_of_cons in Hz as [Hz|Hz%HMl]; [rewrite Hz; left|by right].
  - intros x y Hx Hc Hy. destruct (Hq x y Hx Hc Hy) as [Hh (n & p & f & Hl & Hpm)].
    rewrite !not_elem_of_cons in Hh. destruct Hh as (Hyb & Hyu & _). split_and!; [done|done|].
    exists n, p, f. by rewrite lookup_insert_ne.
  - eapply glist_agree; [|exact A1]. intros z Hz. apply lookup_insert_ne. intros <-. by apply elem_of_cons in Hz as [?|?].
  - apply lookup_insert_eq.
  - intros x Hx. apply (counts_range _ _ _ _ _ _ _ Hco Hx).
  - intros xs us hs3 C1 C2 C3 C4 C5. apply (HQ xs us); [done|done|done|done| |].
    + eapply glist_agree; [|exact A2]. intros z Hz%HPM. rewrite !not_elem_of_cons in Hz. destruct Hz as (Hzb & Hzu & HzM).
      rewrite C5, lookup_insert_ne; [done|done|]. by rewrite !not_elem_of_cons.
    + intros z [HzU Hz]%not_elem_of_cons. pose proof Hz as [Hzb _]%not_elem_of_app.
      assert (HzM : z ∉ M) by (intros HzM%HMl; apply Hzb; by right).
      rewrite C5, lookup_insert_ne, A3; [done|done|done|].
      rewrite !not_elem_of_cons. split_and!; [|done|done]. intros ->. apply Hzb. left.
Qed.

(** ** Lists whose links lose their flags *)

(** Done [xs], still flagged [ys]. *)
Record mlist hs (c : bool) h xs ys : Prop := {
  ml_head : hs !! h = Some (GCHead (first_of h (xs ++ ys)) (last_of h (xs ++ ys)));
  ml_done : seg hs 0 (ptr c) h xs (first_of h ys);
  ml_todo : seg hs 2 (ptr c) (last_of h xs) ys h;
  ml_nodup : NoDup (h :: xs ++ ys);
  ml_aligned : Forall aligned (h :: xs ++ ys)
}.
Lemma mlist_start hs c h ys : flist hs (ptr c) h ys -> mlist hs c h [] ys.
Proof. by intros [H1 H2 H3 H4]. Qed.
Lemma mlist_end hs c h xs : mlist hs c h xs [] -> glist hs (ptr c) h xs.
Proof. intros [H1 H2 H3 H4 H5]. rewrite app_nil_r in *. by split. Qed.
Lemma mlist_unflag hs c h xs y ys : mlist hs c h xs (y :: ys) ->
  mlist (<[y := GCHead (first_of h ys) (ptr c (last_of h xs) y)]> hs) c h (xs ++ [y]) ys.
Proof.
  intros [H1 H2 [H3 H3'] H4 H5]. pose proof H4 as [Hh [_ [Hd Hy]]%NoDup_app]%NoDup_cons. apply NoDup_cons in Hy as [Hy _].
  split; try by rewrite <- app_assoc.
  - rewrite lookup_insert_ne by set_solver. by rewrite <- app_assoc.
  - apply seg_app. split; [apply seg_insert; [set_solver|done]|]. split; [|done]. by rewrite lookup_insert_eq.
  - rewrite last_of_snoc. by apply seg_insert.
Qed.

Section unflag.
Variable c : bool.
Variable h : Z.
Variable body : Z -> GM E unit.
Variable J : list Z -> list Z -> gmap Z gchead -> Prop.
Variable X : pyexn -> gcmem E -> Prop.
(** The body handles one object, which is in the list, unflagged. *)
Hypothesis body_ok : ∀ xs y ys hs hs', J xs (y :: ys) hs -> mlist hs' c h (xs ++ [y]) ys -> agree_off [y] hs hs' ->
  wp (body y) (λ _ m, ∃ hs2 xs', m = GCMem hs2 w ∧ mlist hs2 c h xs' ys ∧ J xs' ys hs2) X (GCMem hs' w).

Lemma unflag_loop_wp : ∀ ys fuel xs hs, mlist hs c h xs ys -> J xs ys hs -> (length ys < fuel)%nat ->
  wp (unflag_loop fuel body h (first_of h ys))
    (λ _ m, ∃ hs' xs', m = GCMem hs' w ∧ glist hs' (ptr c) h xs' ∧ J xs' [] hs') X (GCMem hs w).
Proof.
  induction ys as [|y ys IH]; intros fuel xs hs HL HJ Hf; (destruct fuel as [|fuel]; [simpl in Hf; lia|]); simpl.
  - rewrite Z.eqb_refl. apply wp_ret. exists hs, xs. split_and!; [done|by apply mlist_end|done].
  - pose proof (mlist_unflag _ _ _ _ _ _ HL) as HL'. destruct HL as [_ _ [Hy _] Hnd Hal].
    rewrite (proj2 (Z.eqb_neq _ _)) by (apply NoDup_cons in Hnd as [? _]; set_solver).
    assert (Haf : aligned (first_of h ys)).
    { rewrite Forall_cons, Forall_app, Forall_cons in Hal. destruct Hal as (? & _ & _ & ?). by apply aligned_first. }
    destruct (unflag_spec _ Haf) as [Hu Hfl].
    apply wp_bind. eapply wp_load_next; [exact Hy|]. apply wp_bind, wp_assert; [done|].
    apply wp_bind. eapply wp_store_next; [exact Hy|]. rewrite Hu.
    apply wp_bind. eapply wp_load_next; [apply lookup_insert_eq|].
    eapply wp_bind_use; [eapply body_ok; [exact HJ|exact HL'|apply agree_insert; set_solver]| |done].
    intros _ m (hs2 & xs' & -> & HL2 & HJ2). apply (IH fuel xs'); [done|done|]. simpl in Hf. lia.
Qed.
Lemma unflag_each_wp ys hs Q : flist hs (ptr c) h ys -> J [] ys hs ->
  (∀ hs' xs', glist hs' (ptr c) h xs' -> J xs' [] hs' -> Q tt (GCMem hs' w)) ->
  wp (unflag_each body h) Q X (GCMem hs w).
Proof.
  intros HL HJ HQ. pose proof (mlist_start _ _ _ _ HL) as HM. destruct HL as [H1 H2 H3 H4].
  pose proof (proj1 (Forall_cons _ _ _) H4) as [Hah Hay]. pose proof (aligned_first _ _ Hah Hay) as Haf.
  unfold unflag_each. apply wp_bind. eapply wp_load_next; [exact H1|].
  apply wp_bind, wp_assert; [by rewrite (proj2 (plain_spec _ Haf))|]. apply wp_bind, wp_get.
  apply wp_bind. eapply wp_GC_NEXT; [exact H1|done|].
  eapply wp_conseq; [apply (unflag_loop_wp ys _ []); [done|done|]| |done].
  - unfold list_fuel. simpl. apply NoDup_cons in H3 as [_ H3]. pose proof (nodes_bound hs ys H3) as Hb. apply Nat.lt_succ_r, Hb.
    intros x Hx. destruct (seg_lookup _ _ _ _ _ _ _ H2 Hx) as (n & p & Hl & _). by eexists.
  - intros [] m (hs' & xs' & -> & Hg & HJ'). by eapply HQ.
Qed.
End unflag.

(** [clear_unreachable_mask] turns the flagged list into an ordinary one. *)
Lemma clear_unreachable_mask_wp c h l Q X hs :
  flist hs (ptr c) h l ->
  (∀ hs', glist hs' (ptr c) h l -> agree_off l hs hs' -> Q tt (GCMem hs' w)) ->
  wp (clear_unreachable_mask h) Q X (GCMem hs w).
Proof.
  intros HL HQ. apply wp_bind, wp_assert.
  { pose proof (fl_aligned _ _ _ _ HL) as [Hal _]%Forall_cons. by rewrite (proj2 (plain_spec _ Hal)). }
  apply (unflag_each_wp c h _ (λ xs ys hs', xs ++ ys = l ∧ agree_off l hs hs')) with (ys := l); [|done|done|].
  - intros xs y ys hs1 hs2 [Hl Hag] HM Hag'. apply wp_ret. exists hs2, (xs ++ [y]). split_and!; [done|done|by rewrite <- app_assoc|].
    eapply agree_trans; [exact Hag|]. eapply agree_mono; [|exact Hag']. rewrite <- Hl. set_solver.
  - intros hs' xs' Hg [Hl Hag]. rewrite app_nil_r in Hl. subst xs'. by apply HQ.
Qed.

(** ** Legacy finalizers *)

Abbreviation legacy := (λ x, tp_del w (FROM_GC x) = true).
Abbreviation plain := (λ x, tp_del w (FROM_GC x) = false).
Lemma legacy_split k : filter plain k ++ filter legacy k ≡ₚ k.
Proof.
  induction k as [|x k IH]; [done|]. rewrite !filter_cons. destruct (tp_del w (FROM_GC x)) eqn:Hx.
  - rewrite decide_False, decide_True by congruence. rewrite <- Permutation_middle. by constructor.
  - rewrite decide_True, decide_False by congruence. by constructor.
Qed.
(** One object with a [tp_del]. *)
Lemma legacy_move_wp h xs y ys finalizers zs Q X hs :
  mlist hs true h (xs ++ [y]) ys -> glist hs (ptr false) finalizers zs ->
  NoDup ((h :: xs ++ y :: ys) ++ finalizers :: zs) ->
  (∀ hs', mlist hs' true h xs ys -> glist hs' (ptr false) finalizers (zs ++ [y]) ->
     agree_off ((h :: xs ++ y :: ys) ++ finalizers :: zs) hs hs' -> Q tt (GCMem hs' w)) ->
  wp (_ ← gc_clear_collecting y; gc_list_move y finalizers) Q X (GCMem hs w).
Proof.
  intros [M1 M2 M3 M4 M5] HF Hnd HQ. pose proof (seg_at _ _ _ _ _ _ _ _ M2) as Hhy.
  rewrite last_of_snoc in M3. rewrite <- (app_assoc xs [y] ys) in M1, M4, M5. change ([y] ++ ys) with (y :: ys) in *.
  pose proof M2 as [M2' _]%seg_app. pose proof M5 as Hal. rewrite Forall_cons, Forall_app, Forall_cons in Hal.
  destruct Hal as (Hah & Hax & Hay & Hays). pose proof Hnd as (_ & Hd & _)%NoDup_app.
  assert (Hnd2 : NoDup (y :: h :: xs ++ ys)) by (eapply NoDup_Permutation_proper; [|exact M4]; solve_Permutation).
  apply NoDup_cons in Hnd2 as [Hy Hnd2].
  assert (HyF : y ∉ finalizers :: zs) by (apply Hd; set_solver).
  apply wp_bind. eapply (wp_clear_collecting _ _ _ true); [exact Hhy|by apply aligned_mod, aligned_last|].
  eapply (wp_gc_move fin (ptr true) 2 true false false h xs y ys).
  - rewrite lookup_insert_ne by set_solver. exact M1.
  - apply seg_insert; [set_solver|exact M2'].
  - apply lookup_insert_eq.
  - apply seg_insert; [set_solver|exact M3].
  - eapply glist_agree; [|exact HF]. intros x Hx. apply lookup_insert_ne. intros <-. done.
  - exact Hnd.
  - exact M5.
  - intros hs' N1 N2 N3 N4 N5 N6 N7. apply HQ.
    + split; try done. rewrite Forall_cons, Forall_app. done.
    + destruct HF as [_ _ HF3 HF4]. by apply glist_snoc.
    + eapply agree_trans; [|exact N7]. apply agree_insert. set_solver.
Qed.
(** [move_legacy_finalizers] takes the objects with a [tp_del] out. *)
Lemma move_legacy_finalizers_wp h l finalizers fs Q X hs :
  flist hs (ptr true) h l -> glist hs (ptr false) finalizers fs -> NoDup ((h :: l) ++ finalizers :: fs) ->
  (∀ hs', glist hs' (ptr true) h (filter plain l) -> glist hs' (ptr false) finalizers (fs ++ filter legacy l) ->
     agree_off ((h :: l) ++ finalizers :: fs) hs hs' -> Q tt (GCMem hs' w)) ->
  wp (move_legacy_finalizers h finalizers) Q X (GCMem hs w).
Proof.
  intros HL HF Hnd HQ. set (all := (h :: l) ++ finalizers :: fs) in *.
  apply (unflag_each_wp true h _ (λ xs ys hs', ∃ k, l = k ++ ys ∧ xs = filter plain k ∧
    glist hs' (ptr false) finalizers (fs ++ filter legacy k) ∧ agree_off all hs hs')) with (ys := l).
  - intros xs y ys hs1 hs2 (k & Hl & -> & HF1 & Hag) HM Hag'. apply wp_bind, wp_get. simpl world.
    assert (Hy : y ∈ all) by (unfold all; rewrite Hl; set_solver).
    assert (Hnd' : NoDup ((h :: filter plain k ++ y :: ys) ++ finalizers :: fs ++ filter legacy k)).
    { eapply NoDup_Permutation_proper; [|exact Hnd]. unfold all. rewrite Hl. rewrite <- (legacy_split k) at 3. solve_Permutation. }
    assert (HF2 : glist hs2 (ptr false) finalizers (fs ++ filter legacy k)).
    { eapply glist_agree; [|exact HF1]. intros x Hx. apply Hag'. intros ->%list_elem_of_singleton.
      apply NoDup_app in Hnd' as (_ & Hd & _). apply (Hd y); [set_solver|done]. }
    destruct (tp_del w (FROM_GC y)) eqn:Hdel.
    + eapply legacy_move_wp; [exact HM|exact HF2|exact Hnd'|]. intros hs3 N1 N2 N3.
      exists hs3, (filter plain k). split_and!; [done|done|]. exists (k ++ [y]).
      rewrite !filter_app, !filter_cons, decide_False, decide_True, filter_nil, app_nil_r, app_assoc by congruence.
      split_and!; [by rewrite <- app_assoc|done|done|].
      eapply agree_trans; [exact Hag|]. eapply agree_trans; [eapply agree_mono; [|exact Hag']; set_solver|].
      eapply agree_mono; [|exact N3]. unfold all. rewrite Hl. intros x. rewrite <- (legacy_split k) at 3. set_solver.
    + apply wp_ret. exists hs2, (filter plain k ++ [y]). split_and!; [done|done|]. exists (k ++ [y]).
      rewrite !filter_app, !filter_cons, decide_True, decide_False, filter_nil, app_nil_r by congruence.
      split_and!; [by rewrite <- app_assoc|done|done|]. eapply agree_trans; [exact Hag|]. eapply agree_mono; [|exact Hag']. set_solver.
  - done.
  - exists []. split_and!; [done|done|by rewrite app_nil_r|done].
  - intros hs' xs' Hg (k & Hk & -> & HF' & Hag). rewrite app_nil_r in Hk. subst k. by apply HQ.
Qed.

(** *** What the legacy finalizers reach *)

Section legacy_reach.
Variables h finalizers : Z.
Variables l fs : list Z.
Variable hs0 : gmap Z gchead.
Let all : list Z := (h :: l) ++ finalizers :: fs.
Hypothesis distinct : NoDup all.
Hypothesis outside : ∀ x y, x ∈ l ++ fs -> y ∈ children w x -> y ∉ l ++ fs -> y ∉ [h; finalizers] ∧ quiet hs0 y.

(** Reachable from the objects with legacy finalizers, within the garbage. *)
Definition kept_alive (x : Z) : Prop := ∃ r, r ∈ fs ∧ rtc (edge w (l ++ fs)) r x.
Record FSt ks us hs : Prop := {
  fst_kept : glist hs (ptr false) finalizers ks;
  fst_rest : glist hs (ptr true) h us;
  fst_perm : us ++ ks ≡ₚ l ++ fs;
  fst_agree : agree_off all hs0 hs;
  fst_alive : ∀ x, x ∈ ks -> kept_alive x
}.
Lemma all_perm ks us hs : FSt ks us hs -> (h :: us) ++ finalizers :: ks ≡ₚ all.
Proof.
  intros HS. unfold all. simpl. rewrite <- !Permutation_middle. simpl. by rewrite (fst_perm _ _ _ HS).
Qed.

Lemma visit_move_found ks u1 c u2 y Q X hs :
  FSt ks (u1 ++ c :: u2) hs -> y ∈ ks -> c ∈ children w y ->
  (∀ hs', FSt (ks ++ [c]) (u1 ++ u2) hs' -> Q tt (GCMem hs' w)) ->
  wp (_ ← gc_list_move c finalizers; gc_clear_collecting c) Q X (GCMem hs w).
Proof.
  intros HS Hy Hc HQ. pose proof (all_perm _ _ _ HS) as Hall.
  assert (Hnd : NoDup ((h :: u1 ++ c :: u2) ++ finalizers :: ks)) by (eapply NoDup_Permutation_proper; [exact Hall|exact distinct]).
  destruct HS as [HK [R1 R2 R3 R4] Hp Hag Hal]. pose proof (seg_at _ _ _ _ _ _ _ _ R2) as Hhc. apply seg_app in R2 as [R2 [_ R2']].
  apply wp_bind. eapply (wp_gc_move fin (ptr true) 0 true true false h u1 c u2); [exact R1|exact R2|exact Hhc|exact R2'|exact HK|exact Hnd|exact R4|].
  intros hs1 N1 N2 N3 N4 N5 N6 N7. destruct HK as [K1 K2 K3 K4].
  eapply (wp_clear_collecting _ _ _ true); [exact N6|apply Forall_cons in K4 as [? ?]; by apply aligned_mod, aligned_last|].
  apply HQ. pose proof Hnd as (_ & Hd & _)%NoDup_app.
  assert (Hnd2 : NoDup (c :: h :: u1 ++ u2)) by (eapply NoDup_Permutation_proper; [|exact R3]; solve_Permutation).
  apply NoDup_cons in Hnd2 as [Hcn Hnd2]. assert (HcF : c ∉ finalizers :: ks) by (apply Hd; set_solver).
  rewrite Forall_cons, Forall_app, Forall_cons in R4. split.
  - apply glist_snoc; [|apply seg_insert; [set_solver|exact N5]|apply lookup_insert_eq|done|done|done|tauto].
    rewrite lookup_insert_ne by set_solver. exact N4.
  - split; [|apply seg_app; split; apply seg_insert; [set_solver|exact N2|set_solver|exact N3]|done|].
    + rewrite lookup_insert_ne by set_solver. exact N1.
    + rewrite Forall_cons, Forall_app. tauto.
  - rewrite <- Hp. solve_Permutation.
  - eapply agree_trans; [exact Hag|]. eapply agree_trans; [|apply agree_insert; rewrite <- Hall; set_solver].
    intros z Hz. apply N7. by rewrite Hall.
  - intros x [Hx|Hx]%elem_of_app; [auto|]. apply list_elem_of_singleton in Hx as ->. destruct (Hal y Hy) as (r & Hr & Hs).
    exists r. split; [done|]. eapply rtc_r; [exact Hs|]. unfold edge. rewrite <- Hp. set_solver.
Qed.

Lemma visit_move_wp ks us y op Q X hs :
  FSt ks us hs -> y ∈ ks -> (PyObject_IS_GC w op = true -> AS_GC op ∈ children w y) ->
  (∀ hs' ks' us', FSt (ks ++ ks') us' hs' ->
     (∀ z, z ∈ AS_GC <$> filter (λ o, PyObject_IS_GC w o = true) [op] -> z ∈ l ++ fs -> z ∈ ks ++ ks') -> Q 0 (GCMem hs' w)) ->
  wp (visit_move finalizers op) Q X (GCMem hs w).
Proof.
  intros HS Hy Hch HQ. unfold visit_move. apply wp_bind, wp_get. simpl world. rewrite filter_cons in HQ.
  destruct (PyObject_IS_GC w op).
  2:{ apply wp_ret. apply (HQ hs [] us); [by rewrite app_nil_r|]. rewrite decide_False by done. intros z Hz%elem_of_nil. done. }
  rewrite decide_True in HQ by done. simpl in HQ. set (c := AS_GC op) in *. specialize (Hch eq_refl).
  assert (Hyl : y ∈ l ++ fs) by (rewrite <- (fst_perm _ _ _ HS); set_solver).
  assert (Hquiet : c ∉ us -> quiet hs c).
  { intros Hcu. destruct (decide (c ∈ l ++ fs)) as [Hin|Hout].
    - rewrite <- (fst_perm _ _ _ HS) in Hin. apply elem_of_app in Hin as [Hin|Hin]; [done|].
      eapply ptr_quiet; [exact (fst_kept _ _ _ HS)|done].
    - destruct (outside _ _ Hyl Hch Hout) as [Hh Hq]. eapply quiet_agree; [exact (fst_agree _ _ _ HS)| |exact Hq]. unfold all. set_solver. }
  destruct (decide (c ∈ us)) as [Hcu|Hcu].
  - destruct (seg_lookup _ _ _ _ _ _ _ (gl_seg _ _ _ _ (fst_rest _ _ _ HS)) Hcu) as (n & p & Hl & _ & Hp).
    pose proof (gl_aligned _ _ _ _ (fst_rest _ _ _ HS)) as Hal. rewrite Forall_forall in Hal.
    apply wp_bind. eapply wp_is_collecting; [exact Hl|apply aligned_mod, Hal; set_solver|].
    apply list_elem_of_split in Hcu as (u1 & u2 & ->). apply wp_bind.
    apply (visit_move_found _ _ _ _ _ _ _ _ HS Hy Hch). intros hs' HS'. apply wp_ret. apply (HQ hs' [c] (u1 ++ u2)); [done|]. set_solver.
  - destruct (Hquiet Hcu) as (n & p & f & Hl & Hp). apply wp_bind. eapply wp_is_collecting; [exact Hl|done|].
    apply wp_bind, wp_ret, wp_ret. apply (HQ hs [] us); [by rewrite app_nil_r|]. intros z Hz%list_elem_of_singleton Hzl. subst z.
    rewrite app_nil_r. rewrite <- (fst_perm _ _ _ HS) in Hzl. set_solver.
Qed.

(** One object's references. *)
Lemma traverse_move_wp ks us y Q X hs :
  FSt ks us hs -> y ∈ ks ->
  (∀ res hs' ks' us', FSt (ks ++ ks') us' hs' -> (∀ z, z ∈ children w y -> z ∈ l ++ fs -> z ∈ ks ++ ks') -> Q res (GCMem hs' w)) ->
  wp (traverse (FROM_GC y) (visit_move finalizers)) Q X (GCMem hs w).
Proof.
  intros HS Hy HQ. eapply (wp_traverse w _ _ (λ k hs', ∃ ks' us', FSt (ks ++ ks') us' hs' ∧ ∀ z, z ∈ k -> z ∈ l ++ fs -> z ∈ ks ++ ks')).
  - intros k op ops hs1 Hk (ks1 & us1 & HS1 & Hm). eapply (visit_move_wp _ _ y); [exact HS1|apply elem_of_app; by left| |].
    + intros Hop. unfold children. apply list_elem_of_fmap. exists op. split; [done|]. apply list_elem_of_filter. split; [done|].
      rewrite Hk. set_solver.
    + intros hs2 ks2 us2 HS2 Hm2. split; [done|]. exists hs2. split; [done|]. exists (ks1 ++ ks2), us2. rewrite app_assoc. split; [done|].
      intros z. rewrite filter_app, fmap_app. intros [Hz|Hz]%elem_of_app Hzl; [|by apply Hm2]. specialize (Hm z Hz Hzl). set_solver.
  - exists [], us. rewrite app_nil_r. split; [done|]. intros z Hz%elem_of_nil. done.
  - intros r hs' (ks' & us' & HS' & Hm). by apply (HQ r hs' ks' us').
Qed.

(** [move_legacy_finalizer_reachable] moves everything that the objects of
    [finalizers] reach. *)
Lemma move_legacy_finalizer_reachable_wp Q X :
  glist hs0 (ptr true) h l -> glist hs0 (ptr false) finalizers fs ->
  (∀ ks us hs', us ++ ks ≡ₚ l ++ fs -> (∀ x, x ∈ ks <-> kept_alive x) ->
     glist hs' (ptr true) h us -> glist hs' (ptr false) finalizers ks -> agree_off all hs0 hs' -> Q tt (GCMem hs' w)) ->
  wp (move_legacy_finalizer_reachable finalizers) Q X (GCMem hs0 w).
Proof.
  intros HL HF HQ. assert (HS0 : FSt fs l hs0).
  { split; try done. intros x Hx. exists x. done. }
  set (closed := λ xs ks : list Z, ∀ x c, x ∈ xs -> c ∈ children w x -> c ∈ l ++ fs -> c ∈ ks).
  unfold move_legacy_finalizer_reachable, gc_list_for. apply wp_bind, wp_get. pose proof HF as [F1 F2 F3 F4].
  apply Forall_cons in F4 as [F4 F5]. apply wp_bind. eapply wp_GC_NEXT; [exact F1|by apply aligned_first|].
  eapply wp_conseq; [apply (wp_list_each w _ finalizers (λ xs ys _ hs, ∃ us, FSt (xs ++ ys) us hs ∧ closed xs (xs ++ ys) ∧ fs ⊆ xs ++ ys)
    (S (length (l ++ fs))) X) with (xs := []) (ys := fs)| |done].
  - intros xs ys _ hs (us & HS & _ & _). pose proof (all_perm _ _ _ HS) as Hp. pose proof (fst_perm _ _ _ HS) as Hp'.
    assert (Hlen : length (us ++ xs ++ ys) = length (l ++ fs)) by (by apply Permutation_length).
    rewrite !length_app in *. split; [lia|]. destruct (fst_kept _ _ _ HS) as [_ _ HK _].
    apply NoDup_cons in HK as [HK _]. set_solver.
  - intros xs y ys _ hs (us & HS & Hcl & Hfs). apply wp_bind.
    apply (traverse_move_wp _ _ y _ _ _ HS); [set_solver|]. intros res hs' ks' us' HS' Hm. apply wp_ret.
    rewrite <- !app_assoc in *. simpl in *. pose proof (fst_kept _ _ _ HS') as [K1 K2 K3 K4].
    pose proof (seg_at _ _ _ _ _ _ _ _ K2) as Hy. eexists hs', (ys ++ ks'), _. split_and!; [done| |exact Hy|].
    + exists us'. rewrite <- app_assoc. split_and!; [done| |set_solver].
      intros x c [Hx|Hx]%elem_of_app Hc Hcl'.
      * specialize (Hcl x c Hx Hc Hcl'). set_solver.
      * apply list_elem_of_singleton in Hx as ->. by apply Hm.
    + rewrite !Forall_cons, Forall_app, Forall_cons in K4. destruct K4 as (? & _ & _ & ?). by apply aligned_first.
  - exists l. split_and!; [done|intros x c Hx%elem_of_nil; done|done].
  - unfold list_fuel. simpl. apply le_n_S. pose proof (all_perm _ _ _ HS0) as Hp.
    assert (Hnd : NoDup (l ++ fs)).
    { pose proof distinct as Hd. unfold all in Hd. simpl in Hd. rewrite <- Permutation_middle in Hd.
      by apply NoDup_cons in Hd as [_ [_ Hd]%NoDup_cons]. }
    apply nodes_bound; [done|]. intros x [Hx|Hx]%elem_of_app.
    + destruct (seg_lookup _ _ _ _ _ _ _ (gl_seg _ _ _ _ HL) Hx) as (n & p & Hl & _). by eexists.
    + destruct (seg_lookup _ _ _ _ _ _ _ F2 Hx) as (n & p & Hl & _). by eexists.
  - intros [] m (hs' & ks & -> & us & HS & Hcl & Hfs). rewrite app_nil_r in *. apply (HQ ks us); [exact (fst_perm _ _ _ HS)| | | |].
    + intros x. split; [apply (fst_alive _ _ _ HS)|]. intros (r & Hr & Hs). assert (Hrk : r ∈ ks) by auto. clear Hr.
      induction Hs as [|r y x (_ & Hy & Hc) _ IH]; [done|]. apply IH. by eapply Hcl.
    + exact (fst_rest _ _ _ HS).
    + exact (fst_kept _ _ _ HS).
    + exact (fst_agree _ _ _ HS).
Qed.
End legacy_reach.

(** ** Resurrected objects *)

Lemma gc_list_clear_collecting_wp h l Q X hs :
  glist hs (ptr true) h l ->
  (∀ hs', glist hs' (ptr false) h l -> agree_off l hs hs' -> Q tt (GCMem hs' w)) ->
  wp (gc_list_clear_collecting h) Q X (GCMem hs w).
Proof.
  intros [H1 H2 H3 H4] HQ. pose proof (proj1 (NoDup_cons _ _) H3) as [Hh Hnd].
  pose proof (proj1 (Forall_cons _ _ _) H4) as [Hah Hal].
  eapply (wp_list_for w _ h l (λ xs _ hs', agree_off l hs hs' ∧ ∀ ys, l = xs ++ ys ->
    seg hs' 0 (ptr false) h xs (first_of h ys) ∧ seg hs' 0 (ptr true) (last_of h xs) ys h)); [exact H1|done|done|done| | | |].
  - intros x Hx. destruct (seg_lookup _ _ _ _ _ _ _ H2 Hx) as (n & p & Hl & _). by eexists.
  - split; [done|]. intros ys ->. done.
  - intros xs y ys _ hs' Hl [Hag Hs]. destruct (Hs _ Hl) as [K1 [K2 K3]].
    rewrite Hl in Hnd, Hal. pose proof Hnd as (_ & Hd & [Hny _]%NoDup_cons)%NoDup_app.
    apply Forall_app in Hal as [Halx _].
    eapply (wp_clear_collecting _ _ _ true); [exact K2|by apply aligned_mod, aligned_last|].
    eexists _, _. split; [done|]. split; [|apply lookup_insert_eq]. split.
    + eapply agree_trans; [exact Hag|]. apply agree_insert. rewrite Hl. set_solver.
    + intros ys' Hl'. rewrite Hl, <- app_assoc in Hl'. apply app_inv_head in Hl'. injection Hl' as <-. split.
      * apply seg_app. split; [apply seg_insert; [intros Hy; apply (Hd y Hy); left|exact K1]|]. split; [|done]. by rewrite lookup_insert_eq.
      * rewrite last_of_snoc. by apply seg_insert.
  - intros [] hs' [Hag Hs]. destruct (Hs [] ltac:(by rewrite app_nil_r)) as [Hs' _]. apply HQ; [|done].
    split; [|done|done|done]. by rewrite Hag.
Qed.

(** [handle_resurrected_objects] puts the objects that are reachable again in the
    old generation. *)
Lemma handle_resurrected_wp unreachable still old l perm olds Q X hs :
  collectable true hs unreachable still l perm -> glist hs (ptr false) old olds ->
  NoDup ((still :: (unreachable :: l) ++ permanent_generation :: perm) ++ old :: olds) ->
  (∀ xs us hs', xs ++ us ≡ₚ filter mortal l -> (∀ x, x ∈ xs <-> reachable w (filter mortal l) x) ->
     glist hs' (ptr false) old (olds ++ xs) -> glist hs' (ptr true) still us -> glist hs' (ptr false) unreachable [] ->
     glist hs' (ptr false) permanent_generation (perm ++ filter immortal l) ->
     agree_off ((still :: (unreachable :: l) ++ permanent_generation :: perm) ++ old :: olds) hs hs' -> Q tt (GCMem hs' w)) ->
  wp (handle_resurrected_objects permanent_generation unreachable still old) Q X (GCMem hs w).
Proof.
  intros [Hb Hp Hnd Hu Hnull Hrefs Hcount Hout] Ho Hdist HQ. unfold handle_resurrected_objects.
  apply wp_bind. apply (gc_list_clear_collecting_wp _ _ _ _ _ Hb). intros hs1 A1 A2.
  set (all := still :: (unreachable :: l) ++ permanent_generation :: perm) in *.
  assert (Hl_all : l ⊆ all) by (unfold all; set_solver).
  pose proof Hdist as (_ & Hd & _)%NoDup_app.
  assert (Hkeep : ∀ z, z ∈ permanent_generation :: perm -> z ∉ l).
  { intros z Hz Hzl. apply NoDup_cons in Hnd as [_ (_ & Hdn & _)%NoDup_app]. apply (Hdn z); [by right|done]. }
  assert (Hco : collectable false hs1 unreachable still l perm).
  { split; try done.
    - eapply glist_agree; [|exact Hp]. intros z Hz. by apply A2, Hkeep.
    - intros x y Hx Hm Hc. destruct (Hout x y Hx Hm Hc) as [Hh Hq]. split; [done|]. destruct (decide (y ∈ l)) as [Hy|Hy]; [by left|right].
      destruct Hq as [Hq|Hq]; [done|]. by eapply quiet_agree. }
  apply wp_bind. apply (deduce_unreachable_wp _ _ _ _ _ _ _ Hco). intros xs us hs2 B1 B2 B3 B4 B5 B6.
  apply wp_bind. apply (clear_unreachable_mask_wp _ _ _ _ _ _ B4). intros hs3 C1 C2.
  assert (HMl : filter mortal l ⊆ l) by (intros z [_ Hz]%list_elem_of_filter; done).
  assert (Hsub : ∀ z, z ∈ xs ++ us -> z ∈ l) by (intros z; rewrite B1; apply HMl).
  assert (HndM : NoDup (xs ++ us)).
  { rewrite B1. apply NoDup_filter. by pose proof (gl_nodup _ _ _ _ Hb) as [_ ?]%NoDup_cons. }
  apply NoDup_app in HndM as (_ & Hxu & _).
  assert (Hapart : ∀ z, z ∈ permanent_generation :: perm ++ filter immortal l -> z ∉ unreachable :: still :: xs ++ us).
  { intros z Hz Hz'. apply (perm_apart _ _ _ _ z Hnd Hz). rewrite !elem_of_cons in *. by rewrite <- B1. }
  assert (Hua : ∀ z, z ∈ unreachable :: still :: xs ++ us -> z ∈ all).
  { intros z [->|[->|Hz%Hsub]%elem_of_cons]%elem_of_cons; unfold all; set_solver. }
  assert (Hpa : permanent_generation :: perm ++ filter immortal l ⊆ all).
  { intros z [->|[Hz|[_ Hz]%list_elem_of_filter]%elem_of_app]%elem_of_cons; unfold all; set_solver. }
  assert (Hul : unreachable ∉ l ∧ still ∉ unreachable :: l).
  { apply NoDup_cons in Hnd as [Hs1 ([Hs2 _]%NoDup_cons & _ & _)%NoDup_app]. set_solver. }
  destruct Hul as [Hul Hsl].
  eapply (wp_merge fin false unreachable xs old olds).
  - eapply glist_agree; [|exact B3]. intros z [->|Hz]%elem_of_cons; apply C2; [|by apply Hxu].
    intros Hz. apply Hul, Hsub. set_solver.
  - eapply glist_agree; [|exact Ho]. intros z Hz. assert (Hza : z ∉ all) by (intros Hza; by apply (Hd z)).
    rewrite C2, B6, A2; [done|auto|done|]. intros Hzu. apply Hza, Hl_all, Hsub. set_solver.
  - apply NoDup_app. split_and!; [exact (gl_nodup _ _ _ _ B3)| |exact (gl_nodup _ _ _ _ Ho)].
    intros z Hz. apply Hd, Hua. set_solver.
  - intros hs4 D1 D2 D3.
    assert (Hstill : ∀ z, z ∈ still :: us -> z ∉ (unreachable :: xs) ++ old :: olds).
    { intros z Hz [Hz'|Hz']%elem_of_app; [|apply (Hd z); [apply Hua; set_solver|done]].
      apply elem_of_cons in Hz as [Hz|Hz]; apply elem_of_cons in Hz' as [Hz'|Hz'].
      - apply Hsl. rewrite <- Hz, Hz'. left.
      - apply Hsl. rewrite <- Hz. right. apply Hsub. set_solver.
      - apply Hul. rewrite <- Hz'. apply Hsub. set_solver.
      - by apply (Hxu z). }
    apply (HQ xs us); [done|done|done| |done| |].
    + eapply glist_agree; [|exact C1]. intros z Hz. by apply D3, Hstill.
    + eapply glist_agree; [|exact B5]. intros z Hz. rewrite D3, C2; [done| |].
      * intros Hzu. apply (Hapart z Hz). set_solver.
      * intros [Hz'|Hz']%elem_of_app; [apply (Hapart z Hz); set_solver|]. apply (Hd z); auto.
    + intros z [Hza Hzo]%not_elem_of_app. rewrite D3, C2, B6, A2; [done|auto|done| |].
      * intros Hzu. apply Hza, Hua. set_solver.
      * intros [Hz'|Hz']%elem_of_app; [apply Hza, Hua; set_solver|done].
Qed.
End collect.
