(* ===== verification/GcDemo.v ===== *)
(** * A small heap to collect

    A concrete instance of the interfaces of [GcHead]: the words as CPython lays
    them out, and objects in an association list. *)

From stdpp Require Import base list gmap numbers strings relations.
From S2P Require Import Prelude GcHead GcDeduce GcLinks GcLists GcSpec GcRefs GcMove GcCollect.

Lemma demo_prev_is v : 0 <= v < SIZE_T_MOD -> Z.land v (SIZE_T_MOD - 4) = v - v `mod` 4.
Proof.
  intros Hv. change (SIZE_T_MOD - 4) with (Z.land (Z.lnot 3) (Z.ones 64)).
  rewrite Z.land_assoc, land_lnot, land_3, Z.land_ones by lia. apply Z.mod_small.
  pose proof (Z.mod_pos_bound v 4). pose proof (Z.mod_le v 4). unfold SIZE_T_MOD in *. lia.
Qed.
Lemma demo_set_prev_is v p : aligned p -> Z.lor (Z.land v 3) p = p + v `mod` 4.
Proof. intros [_ Hp]. rewrite land_3, Z.lor_comm. apply lor_add; [done|]. apply Z.mod_pos_bound. lia. Qed.
#[export] Instance demo_layout : GcLayout := {|
  PREV_SHIFT := 2; PREV_MASK := SIZE_T_MOD - 4; PREV_MASK_FINALIZED := 1; PREV_MASK_COLLECTING := 2;
  head_next w := w; head_set_next _ p := p;
  head_prev w := Z.land w (SIZE_T_MOD - 4); head_set_prev w p := Z.lor (Z.land w 3) p;
  prev_shift_is := eq_refl; prev_mask_is := eq_refl; finalized_is := eq_refl; collecting_is := eq_refl;
  head_next_is _ _ := eq_refl; head_set_next_is _ _ _ _ := eq_refl;
  head_prev_is := demo_prev_is; head_set_prev_is w p _ Hp := demo_set_prev_is w p Hp
|}.

(** An object: its reference count, the headers of what it refers to, whether it
    is immortal, whether it has a [tp_del]. *)
Record demo_obj := DemoObj { d_refs : Z; d_kids : list Z; d_immortal : bool; d_del : bool }.
Definition demo_heap_world := list (Z * demo_obj).
Definition demo_find (w : demo_heap_world) (o : Z) : demo_obj :=
  match filter (λ p, p.1 = AS_GC o) w with (_, x) :: _ => x | [] => DemoObj 1 [] false false end.
#[export] Instance demo_api : GcApi demo_heap_world := {|
  Py_REFCNT w o := d_refs (demo_find w o); tp_traverse w o := FROM_GC <$> d_kids (demo_find w o);
  PyObject_IS_GC _ _ := true; Py_IsImmortal w o := d_immortal (demo_find w o); tp_del w o := d_del (demo_find w o)
|}.

(** 1064, which is referred to from outside, refers to 1032, which refers to 1000;
    1096, which has a [tp_del], and 1128 refer to each other, and 1096 to 1160;
    1192 refers to itself; 1224 is immortal. *)
Definition demo_gc : demo_heap_world :=
  [(1000, DemoObj 1 [] false false); (1032, DemoObj 1 [1000] false false); (1064, DemoObj 1 [1032; 1224] false false);
   (1096, DemoObj 2 [1128; 1160] false true); (1128, DemoObj 1 [1096; 1096] false false); (1160, DemoObj 1 [] false false);
   (1192, DemoObj 1 [1192] false false); (1224, DemoObj 1 [] true false)].
Definition demo_fin (x : Z) : bool := x =? 1128.
Definition demo_objs : list Z := [1000; 1032; 1064; 1096; 1128; 1160; 1192; 1224].
Definition demo_garbage : list Z := [1096; 1128; 1160; 1192].

(** The headers of a list: links with the flag [fl], words of the predecessors. *)
Fixpoint ring_nodes (fl : Z) (c : bool) (p : Z) (xs : list Z) (b : Z) : list (Z * gchead) :=
  match xs with
  | [] => []
  | x :: xs => (x, GCHead (fl + first_of b xs) (ptr demo_fin c p x)) :: ring_nodes fl c x xs b
  end.
Definition ring (fl : Z) (c : bool) (h : Z) (xs : list Z) : list (Z * gchead) :=
  (h, GCHead (first_of h xs) (last_of h xs)) :: ring_nodes fl c h xs h.
(** A young generation at 96, an empty list of immortal objects at 64. *)
Definition demo_young : gcmem demo_heap_world :=
  GCMem (list_to_map (ring 0 false 96 demo_objs ++ ring 0 false 64 [])) demo_gc.

Definition reached : gcmem demo_heap_world -> list Z * list Z :=
  λ m, (omap (λ x, hd ← heads m !! x; if Z.land (_gc_next hd) 2 =? 0 then Some x else None) demo_objs,
        omap (λ x, hd ← heads m !! x; if Z.land (_gc_next hd) 2 =? 0 then None else Some x) demo_objs).
Example demo_deduce :
  match deduce_unreachable 64 96 32 demo_young with
  | Ret _ m => reached m = ([1000; 1032; 1064; 1224], demo_garbage)
  | _ => False
  end.
Proof. by vm_compute. Qed.

(** ** The heap is one that can be collected *)

Definition alignedb (p : Z) : bool := (0 <=? p) && (p <? SIZE_T_MOD) && (p `mod` 4 =? 0).
Lemma alignedb_spec p : alignedb p = true -> aligned p.
Proof. unfold alignedb, aligned. rewrite !andb_true_iff, !Z.leb_le, !Z.ltb_lt, !Z.eqb_eq. tauto. Qed.
Lemma aligned_all l : forallb alignedb l = true -> Forall aligned l.
Proof. rewrite forallb_forall, Forall_forall. intros Hl x Hx. apply alignedb_spec, Hl. by apply list_elem_of_In. Qed.
(** [quiet] of one header can be computed. *)
Definition quietb (hs : gmap Z gchead) (y : Z) : bool :=
  match hs !! y with Some hd => Z.land (_gc_prev hd) 2 =? 0 | None => false end.
Lemma quietb_spec hs y : quietb hs y = true -> quiet hs y.
Proof.
  unfold quietb. destruct (hs !! y) as [[n v]|] eqn:Hy; [|done]. simpl. intros Hl%Z.eqb_eq.
  pose proof (Z.div_mod v 4 ltac:(lia)) as Hv. pose proof (Z.mod_pos_bound v 4 ltac:(lia)) as Hb.
  rewrite land_small in Hl by lia. exists n, (4 * (v `div` 4)), (v `mod` 4 =? 1).
  split; [|apply mul4_mod]. rewrite Hy. f_equal. f_equal. rewrite Hv at 1. f_equal.
  assert (v `mod` 4 = 0 ∨ v `mod` 4 = 1 ∨ v `mod` 4 = 2 ∨ v `mod` 4 = 3) as Hc by lia.
  destruct Hc as [Hc|[Hc|[Hc|Hc]]]; rewrite Hc in *; done.
Qed.

(** What [collectable] asks of the objects, as a computation. *)
Definition refs_ok (w : demo_heap_world) (l : list Z) : bool :=
  forallb (λ x, Py_IsImmortal w (FROM_GC x) || ((0 <? refcnt w x) && (refcnt w x <? 2 ^ 62) &&
    (internal w (filter (λ x, Py_IsImmortal w (FROM_GC x) = false) l) x <=? refcnt w x))) l.
Definition kids_ok (w : demo_heap_world) (hs : gmap Z gchead) (hds l : list Z) : bool :=
  forallb (λ x, Py_IsImmortal w (FROM_GC x) ||
    forallb (λ y, bool_decide (y ∉ hds) && (bool_decide (y ∈ l) || quietb hs y)) (children w x)) l.
Lemma demo_collectable w c hs base unreachable pg l perm :
  glist hs (ptr demo_fin c) base l -> glist hs (ptr demo_fin false) pg perm ->
  NoDup (unreachable :: (base :: l) ++ pg :: perm) -> alignedb unreachable = true -> 0 ∉ base :: l ->
  refs_ok w l = true -> kids_ok w hs [base; unreachable; pg] l = true ->
  collectable demo_fin w pg c hs base unreachable l perm.
Proof.
  intros H1 H2 H3 H4 H5 H6 H7. unfold refs_ok, kids_ok in *. rewrite forallb_forall in H6, H7.
  split; try done; [by apply alignedb_spec| | |].
  - intros x Hx%list_elem_of_In Hm. specialize (H6 x Hx). rewrite Hm, orb_false_l, !andb_true_iff, !Z.ltb_lt in H6. lia.
  - intros x Hx%list_elem_of_In Hm. specialize (H6 x Hx). rewrite Hm, orb_false_l, !andb_true_iff, Z.leb_le in H6. tauto.
  - intros x y Hx%list_elem_of_In Hm Hc%list_elem_of_In. specialize (H7 x Hx). rewrite Hm, orb_false_l in H7.
    rewrite forallb_forall in H7. specialize (H7 y Hc). apply andb_true_iff in H7 as [H7 H8].
    split; [by apply bool_decide_eq_true in H7|]. apply orb_true_iff in H8 as [H8|H8].
    + left. by apply bool_decide_eq_true in H8.
    + right. by apply quietb_spec.
Qed.
(** The headers of a ring, as computations. *)
Definition headb (hs : gmap Z gchead) (p : Z * gchead) : bool :=
  match hs !! p.1 with Some hd => (_gc_next hd =? _gc_next p.2) && (_gc_prev hd =? _gc_prev p.2) | None => false end.
Lemma headb_spec hs x hd : headb hs (x, hd) = true -> hs !! x = Some hd.
Proof.
  unfold headb. simpl. destruct (hs !! x) as [[n v]|], hd as [n' v']; [|done]. simpl.
  rewrite andb_true_iff, !Z.eqb_eq. by intros [-> ->].
Qed.
Lemma ring_seg hs fl c p xs b : forallb (headb hs) (ring_nodes fl c p xs b) = true -> seg hs fl (ptr demo_fin c) p xs b.
Proof.
  revert p. induction xs as [|x xs IH]; intros p; [done|]. simpl. rewrite andb_true_iff. intros [Hx Hxs].
  split; [by apply headb_spec|by apply IH].
Qed.
Lemma ring_glist hs c h xs : forallb (headb hs) (ring 0 c h xs) = true -> bool_decide (NoDup (h :: xs)) = true ->
  forallb alignedb (h :: xs) = true -> glist hs (ptr demo_fin c) h xs.
Proof.
  unfold ring. cbn [forallb]. rewrite andb_true_iff. intros [Hh Hs] Hnd Hal. split; [by apply headb_spec|by apply ring_seg| |].
  - by apply bool_decide_eq_true in Hnd.
  - by apply aligned_all.
Qed.
Lemma ring_flist hs c h xs : forallb (headb hs) (ring 2 c h xs) = true -> bool_decide (NoDup (h :: xs)) = true ->
  forallb alignedb (h :: xs) = true -> flist hs (ptr demo_fin c) h xs.
Proof.
  unfold ring. cbn [forallb]. rewrite andb_true_iff. intros [Hh Hs] Hnd Hal. split; [by apply headb_spec|by apply ring_seg| |].
  - by apply bool_decide_eq_true in Hnd.
  - by apply aligned_all.
Qed.

Lemma demo_young_collectable : collectable demo_fin demo_gc 64 false (heads demo_young) 96 32 demo_objs [].
Proof.
  apply demo_collectable; [by apply ring_glist; vm_compute|by apply ring_glist; vm_compute| | | |by vm_compute|by vm_compute].
  - apply (bool_decide_unpack _). by vm_compute.
  - by vm_compute.
  - apply (bool_decide_unpack _). by vm_compute.
Qed.
(** The garbage, after [deduce_unreachable] and after the finalizers have run. *)
Definition demo_flagged : gcmem demo_heap_world :=
  GCMem (list_to_map (ring 2 true 32 demo_garbage ++ ring 0 false 64 [])) demo_gc.
Definition demo_finalized : gcmem demo_heap_world :=
  GCMem (list_to_map (ring 0 true 32 demo_garbage ++ ring 0 false 64 [] ++ ring 0 false 160 [1064])) demo_gc.
Lemma demo_finalized_collectable : collectable demo_fin demo_gc 64 true (heads demo_finalized) 32 128 demo_garbage [].
Proof.
  apply demo_collectable; [by apply ring_glist; vm_compute|by apply ring_glist; vm_compute| | | |by vm_compute|by vm_compute].
  - apply (bool_decide_unpack _). by vm_compute.
  - by vm_compute.
  - apply (bool_decide_unpack _). by vm_compute.
Qed.
