(* ===== verification/GcClaims.v ===== *)
(** * What the phases of a collection do *)

From stdpp Require Import base list gmap numbers strings relations.
From S2P Require Import Prelude GcHead GcDeduce GcLinks GcLists GcSpec GcRefs GcMove GcCollect GcDemo.

Section claims.
Context {E : Type} {lay : GcLayout} {api : GcApi E}.
Implicit Types (hs : gmap Z gchead) (l xs us : list Z).
(** The finalized flags of the objects, the objects, the list of immortal
    objects. *)
Variable fin : Z -> bool.
Variable w : E.
Variable permanent_generation : Z.
Abbreviation ptr := (ptr fin).
Abbreviation cnt := (cnt fin).
Abbreviation immortal := (λ x, Py_IsImmortal w (FROM_GC x) = true).
Abbreviation mortal := (λ x, Py_IsImmortal w (FROM_GC x) = false).

(** C10. [deduce_unreachable] ends, no assertion fails, and it splits the list [base]
    into the objects that are reachable from outside the list, which stay in it,
    and the others, which end up in [unreachable] with flagged links; immortal
    objects go to the permanent generation and nothing else changes. *)
Theorem deduce_unreachable_correct base unreachable l perm hs :
  collectable fin w permanent_generation false hs base unreachable l perm ->
  wp (deduce_unreachable permanent_generation base unreachable)
    (λ _ m, ∃ xs us hs', m = GCMem hs' w ∧ xs ++ us ≡ₚ filter mortal l ∧
       (∀ x, x ∈ xs <-> reachable w (filter mortal l) x) ∧
       glist hs' (ptr false) base xs ∧ flist hs' (ptr true) unreachable us ∧
       glist hs' (ptr false) permanent_generation (perm ++ filter immortal l) ∧
       agree_off (unreachable :: (base :: l) ++ permanent_generation :: perm) hs hs')
    (λ _ _, False) (GCMem hs w).
Proof.
  intros Hc. eapply deduce_unreachable_wp; [exact Hc|]. intros xs us hs' H1 H2 H3 H4 H5 H6.
  exists xs, us, hs'. by split_and!.
Qed.

(** C13. After [update_refs] and [subtract_refs] the count of every mortal object is
    the number of its references from outside the list; no count goes below
    zero on the way, and [update_refs] answers how many objects it saw. *)
Theorem external_counts_correct base unreachable l perm hs :
  collectable fin w permanent_generation false hs base unreachable l perm ->
  wp (n ← update_refs permanent_generation base; _ ← subtract_refs base; mret n)
    (λ n m, ∃ hs', m = GCMem hs' w ∧ n = size_t (Zlen (filter mortal l)) ∧
       glist hs' (cnt (external w (filter mortal l))) base (filter mortal l) ∧
       glist hs' (ptr false) permanent_generation (perm ++ filter immortal l))
    (λ _ _, False) (GCMem hs w).
Proof.
  intros Hc. eapply counts_wp; [exact Hc|]. intros hs' H1 H2 _ _. apply wp_ret. exists hs'. by split_and!.
Qed.

(** C12. The objects with a [tp_del], and all that they reach within the garbage, end
    up in [finalizers]; the others, none of which has a [tp_del], stay in
    [unreachable], with ordinary links. *)
Theorem legacy_finalizers_correct unreachable finalizers l hs :
  flist hs (ptr true) unreachable l -> aligned finalizers -> finalizers ∉ unreachable :: l ->
  (∀ x y, x ∈ l -> y ∈ children w x -> y ∉ l -> y ∉ [unreachable; finalizers] ∧ quiet hs y) ->
  wp (_ ← gc_list_init finalizers; _ ← move_legacy_finalizers unreachable finalizers;
      move_legacy_finalizer_reachable finalizers)
    (λ _ m, ∃ us ks hs', m = GCMem hs' w ∧ us ++ ks ≡ₚ l ∧
       (∀ x, x ∈ ks <-> ∃ r, r ∈ l ∧ tp_del w (FROM_GC r) = true ∧ rtc (edge w l) r x) ∧
       glist hs' (ptr true) unreachable us ∧ glist hs' (ptr false) finalizers ks ∧
       agree_off (finalizers :: unreachable :: l) hs hs')
    (λ _ _, False) (GCMem hs w).
Proof.
  intros Hl Hfa Hfn Hout.
  set (fs := filter (λ x, tp_del w (FROM_GC x) = true) l). set (ps := filter (λ x, tp_del w (FROM_GC x) = false) l).
  assert (Hps : ps ++ fs ≡ₚ l) by apply legacy_split.
  apply wp_bind, wp_list_init. apply wp_bind. eapply (move_legacy_finalizers_wp fin w unreachable l finalizers []).
  - destruct Hl as [H1 H2 H3 H4]. split; [|apply seg_insert; [set_solver|done]|done|done]. rewrite lookup_insert_ne by set_solver. done.
  - split; [apply lookup_insert_eq|done|apply NoDup_singleton|by constructor].
  - apply NoDup_app. split_and!; [exact (fl_nodup _ _ _ _ Hl)|set_solver|apply NoDup_singleton].
  - fold fs ps. intros hs1 A1 A2 A3.
    assert (Hedge : ∀ x y, edge w (ps ++ fs) x y <-> edge w l x y) by (intros x y; unfold edge; by rewrite Hps).
    assert (Hsub : ∀ z, z ∈ ps ++ fs -> z ∈ l) by (intros z; by rewrite Hps).
    eapply (move_legacy_finalizer_reachable_wp fin w unreachable finalizers ps fs hs1); [| |exact A1|exact A2|].
    + pose proof (fl_nodup _ _ _ _ Hl) as Hnd. eapply NoDup_Permutation_proper; [|exact (NoDup_cons_2 _ _ Hfn Hnd)].
      rewrite <- Hps. solve_Permutation.
    + intros x y Hx Hc Hy. rewrite Hps in Hx, Hy. destruct (Hout x y Hx Hc Hy) as [Hh Hq]. split; [done|].
      rewrite !not_elem_of_cons in Hh. eapply (quiet_agree _ _ _ _ A3); [set_solver|].
      destruct Hq as (n & p & f & Hlk & Hp). exists n, p, f. rewrite lookup_insert_ne; [done|]. by intros ->; destruct Hh as (_ & ? & _).
    + intros ks us hs2 B1 B2 B3 B4 B5. exists us, ks, hs2. split_and!; [done|by rewrite B1| |done|done|].
      * intros x. rewrite B2. split.
        -- intros (r & [Hr Hrl]%list_elem_of_filter & Hs). exists r. split_and!; [done|done|].
           eapply rtc_subrel; [|exact Hs]. intros a b. apply Hedge.
        -- intros (r & Hrl & Hr & Hs). exists r. split; [by apply list_elem_of_filter|].
           eapply rtc_subrel; [|exact Hs]. intros a b. apply Hedge.
      * intros z Hz. rewrite !not_elem_of_cons in Hz. destruct Hz as (Hzf & Hzu & Hzl).
        rewrite B5, A3, lookup_insert_ne; [done|done|set_solver|].
        intros [[?|Hz]%elem_of_cons|[?|Hz]%elem_of_cons]%elem_of_app; [done| |done|]; apply Hzl, Hsub, elem_of_app; auto.
Qed.

(** C11. [handle_resurrected_objects] ends and puts the objects that are reachable
    again, after the finalizers have run, at the end of the old generation, and
    the others in [still_unreachable], with ordinary links and the collecting
    flag. *)
Theorem handle_resurrected_correct unreachable still old l perm olds hs :
  collectable fin w permanent_generation true hs unreachable still l perm -> glist hs (ptr false) old olds ->
  NoDup ((still :: (unreachable :: l) ++ permanent_generation :: perm) ++ old :: olds) ->
  wp (handle_resurrected_objects permanent_generation unreachable still old)
    (λ _ m, ∃ xs us hs', m = GCMem hs' w ∧ xs ++ us ≡ₚ filter mortal l ∧
       (∀ x, x ∈ xs <-> reachable w (filter mortal l) x) ∧
       glist hs' (ptr false) old (olds ++ xs) ∧ glist hs' (ptr true) still us ∧ glist hs' (ptr false) unreachable [] ∧
       glist hs' (ptr false) permanent_generation (perm ++ filter immortal l) ∧
       agree_off ((still :: (unreachable :: l) ++ permanent_generation :: perm) ++ old :: olds) hs hs')
    (λ _ _, False) (GCMem hs w).
Proof.
  intros Hc Ho Hnd. eapply handle_resurrected_wp; [exact Hc|exact Ho|exact Hnd|].
  intros xs us hs' H1 H2 H3 H4 H5 H6 H7. exists xs, us, hs'. by split_and!.
Qed.
End claims.

(** ** Witnesses: the heap of [GcDemo] *)

Lemma deduce_unreachable_correct_witness :
  wp (deduce_unreachable 64 96 32)
    (λ _ m, ∃ xs us hs', m = GCMem hs' demo_gc ∧
       xs ++ us ≡ₚ filter (λ x, Py_IsImmortal demo_gc (FROM_GC x) = false) demo_objs ∧
       (∀ x, x ∈ xs <-> reachable demo_gc (filter (λ x, Py_IsImmortal demo_gc (FROM_GC x) = false) demo_objs) x) ∧
       glist hs' (ptr demo_fin false) 96 xs ∧ flist hs' (ptr demo_fin true) 32 us ∧
       glist hs' (ptr demo_fin false) 64 ([] ++ filter (λ x, Py_IsImmortal demo_gc (FROM_GC x) = true) demo_objs) ∧
       agree_off (32 :: (96 :: demo_objs) ++ [64]) (heads demo_young) hs')
    (λ _ _, False) (GCMem (heads demo_young) demo_gc).
Proof. exact (deduce_unreachable_correct demo_fin demo_gc 64 96 32 demo_objs [] (heads demo_young) demo_young_collectable). Defined.
Lemma external_counts_correct_witness :
  wp (n ← update_refs 64 96; _ ← subtract_refs 96; mret n)
    (λ n m, ∃ hs', m = GCMem hs' demo_gc ∧
       n = size_t (Zlen (filter (λ x, Py_IsImmortal demo_gc (FROM_GC x) = false) demo_objs)) ∧
       glist hs' (cnt demo_fin (external demo_gc (filter (λ x, Py_IsImmortal demo_gc (FROM_GC x) = false) demo_objs))) 96
         (filter (λ x, Py_IsImmortal demo_gc (FROM_GC x) = false) demo_objs) ∧
       glist hs' (ptr demo_fin false) 64 ([] ++ filter (λ x, Py_IsImmortal demo_gc (FROM_GC x) = true) demo_objs))
    (λ _ _, False) (GCMem (heads demo_young) demo_gc).
Proof. exact (external_counts_correct demo_fin demo_gc 64 96 32 demo_objs [] (heads demo_young) demo_young_collectable). Defined.
Lemma legacy_finalizers_correct_witness :
  wp (_ ← gc_list_init 128; _ ← move_legacy_finalizers 32 128; move_legacy_finalizer_reachable 128)
    (λ _ m, ∃ us ks hs', m = GCMem hs' demo_gc ∧ us ++ ks ≡ₚ demo_garbage ∧
       (∀ x, x ∈ ks <-> ∃ r, r ∈ demo_garbage ∧ tp_del demo_gc (FROM_GC r) = true ∧ rtc (edge demo_gc demo_garbage) r x) ∧
       glist hs' (ptr demo_fin true) 32 us ∧ glist hs' (ptr demo_fin false) 128 ks ∧
       agree_off (128 :: 32 :: demo_garbage) (heads demo_flagged) hs')
    (λ _ _, False) (GCMem (heads demo_flagged) demo_gc).
Proof.
  refine (legacy_finalizers_correct demo_fin demo_gc 32 128 demo_garbage (heads demo_flagged) _ _ _ _).
  - by apply ring_flist; vm_compute.
  - by apply alignedb_spec.
  - apply (bool_decide_unpack _). by vm_compute.
  - assert (Hk : kids_ok demo_gc (heads demo_flagged) [32; 128] demo_garbage = true) by by vm_compute.
    intros x y Hx%list_elem_of_In Hy%list_elem_of_In Hn. unfold kids_ok in Hk. rewrite forallb_forall in Hk. specialize (Hk x Hx).
    assert (Hm : Py_IsImmortal demo_gc (FROM_GC x) = false).
    { assert (Hall : forallb (λ x, negb (Py_IsImmortal demo_gc (FROM_GC x))) demo_garbage = true) by by vm_compute.
      rewrite forallb_forall in Hall. by apply negb_true_iff, Hall. }
    rewrite Hm, orb_false_l in Hk. rewrite forallb_forall in Hk. specialize (Hk y Hy).
    apply andb_true_iff in Hk as [Hk1 Hk2]. split; [by apply bool_decide_eq_true in Hk1|].
    apply orb_true_iff in Hk2 as [Hk2|Hk2]; [by apply bool_decide_eq_true in Hk2|by apply quietb_spec].
Defined.
Lemma handle_resurrected_correct_witness :
  wp (handle_resurrected_objects 64 32 128 160)
    (λ _ m, ∃ xs us hs', m = GCMem hs' demo_gc ∧
       xs ++ us ≡ₚ filter (λ x, Py_IsImmortal demo_gc (FROM_GC x) = false) demo_garbage ∧
       (∀ x, x ∈ xs <-> reachable demo_gc (filter (λ x, Py_IsImmortal demo_gc (FROM_GC x) = false) demo_garbage) x) ∧
       glist hs' (ptr demo_fin false) 160 ([1064] ++ xs) ∧ glist hs' (ptr demo_fin true) 128 us ∧
       glist hs' (ptr demo_fin false) 32 [] ∧
       glist hs' (ptr demo_fin false) 64 ([] ++ filter (λ x, Py_IsImmortal demo_gc (FROM_GC x) = true) demo_garbage) ∧
       agree_off ((128 :: (32 :: demo_garbage) ++ [64]) ++ [160; 1064]) (heads demo_finalized) hs')
    (λ _ _, False) (GCMem (heads demo_finalized) demo_gc).
Proof.
  refine (handle_resurrected_correct demo_fin demo_gc 64 32 128 160 demo_garbage [] [1064] (heads demo_finalized)
    demo_finalized_collectable _ _).
  - by apply ring_glist; vm_compute.
  - apply (bool_decide_unpack _). by vm_compute.
Defined.
