(* ===== verification/ParDefs.v ===== *)
(** * The parallel collector of [parallel_gc.c]

    The workers that find the reachable objects together, as state machines:
    the constructors of [worker_pc] are the points between two accesses to
    shared memory, [worker_step] makes the next one, and workers interleave at
    these steps.  A section under a lock is one step, and so is a read or write
    of an atomic variable. *)

From stdpp Require Import base list gmap numbers strings.
From S2P Require Import Prelude WsDeque GcHead GcDeduce.

(** [unsigned int], [int]. *)
Definition uint (z : Z) : Z := z `mod` 2 ^ 32.
Definition int (z : Z) : Z := (z + 2 ^ 31) `mod` 2 ^ 32 - 2 ^ 31.

(** ** Barriers *)

Record Ci_Barrier := Barrier { num_left : Z; capacity : Z; epoch : Z }.
Definition Ci_Barrier_Init (capacity : Z) : Ci_Barrier := Barrier (uint (int capacity)) (uint (int capacity)) 0.
(** [Ci_Barrier_Wait] up to the wait; the answer is the epoch to wait out, if the
    barrier is not lifted. *)
Definition Ci_Barrier_Wait (b : Ci_Barrier) : Ci_Barrier * option Z :=
  let left := uint (num_left b - 1) in
  if left =? 0 then (Barrier (capacity b) (capacity b) (uint (epoch b + 1)), None)
  else (Barrier left (capacity b) (epoch b), Some (epoch b)).

(** ** State *)

(** The nodes from [start] up to [end]; [NULL] is 0. *)
Record Ci_GCSlice := GCSlice { slice_start : Z; slice_end : Z }.
(** Where [tp_traverse] was called from: for an object of the slice, or of the
    queue. *)
Inductive mark_cont := FromSlice (gc : Z) | FromQueue.
Inductive worker_pc :=
  (* Ci_ParGCWorker_Run, Ci_ParGCWorker_SubtractRefs, Ci_subtract_incoming_ref *)
  | RunStart
  | SubLoop (gc : Z)
  | SubVisit (gc : Z) (ops : list Z)
  | SubDecref (gc op : Z) (ops : list Z)
  | MarkArrive
  | MarkWait (e : Z)
  (* Ci_ParGCWorker_MarkGCSlice *)
  | SliceLoop (gc : Z)
  | SliceMark (gc : Z) (finalized : bool)
  | SliceNext (gc : Z)
  (* tp_traverse with Ci_queue_obj_for_marking *)
  | Visit (k : mark_cont) (ops : list Z)
  | QueueMark (k : mark_cont) (op : Z) (ops : list Z) (finalized : bool)
  | QueuePush (k : mark_cont) (ops : list Z) (dpc : dq_pc)
  (* Ci_ParGCWorker_ProcessMarkQueueAndSteal, Ci_ParGCWorker_MaybeSteal *)
  | Taking (dpc : dq_pc)
  | StealPick
  | StealLoop (start i : Z)
  | Stealing (start i : Z) (dpc : dq_pc)
  (* Ci_ParGCWorker_CoordinateStealing *)
  | TakeCoordinator
  | CoordLoad
  | CoordFinish (n : Z)
  | CoordPostAll (n : Z)
  | CoordSize (n i available : Z)
  | CoordSizing (n i available : Z) (dpc : dq_pc)
  | CoordWake (k : Z)
  | CoordPost (k : Z)
  | DropCoordinator
  (* Ci_ParGCWorker_MarkReachable *)
  | WaitSub
  | SemaWait
  | LoopCheck
  | DoneArrive
  | DoneWait (e : Z)
  | RunEnd
  | WorkerDone.
Record Ci_ParGCWorker := ParGCWorker { gc_slice : Ci_GCSlice; deque : Ci_WSDeque; w_pc : worker_pc }.
Record Ci_ParGCState := ParGCState {
  min_gen : Z;
  mark_barrier : Ci_Barrier;
  num_workers_marking : Z;
  steal_coordinator : option nat;
  steal_sema : Z;
  done_barrier : Ci_Barrier;
  num_workers_active : Z;
  workers : list Ci_ParGCWorker
}.
Definition num_workers (s : Ci_ParGCState) : Z := Zlen (workers s).

Definition set_mark_barrier (b : Ci_Barrier) (s : Ci_ParGCState) : Ci_ParGCState :=
  ParGCState (min_gen s) b (num_workers_marking s) (steal_coordinator s) (steal_sema s) (done_barrier s) (num_workers_active s) (workers s).
Definition set_marking (n : Z) (s : Ci_ParGCState) : Ci_ParGCState :=
  ParGCState (min_gen s) (mark_barrier s) n (steal_coordinator s) (steal_sema s) (done_barrier s) (num_workers_active s) (workers s).
Definition set_coordinator (c : option nat) (s : Ci_ParGCState) : Ci_ParGCState :=
  ParGCState (min_gen s) (mark_barrier s) (num_workers_marking s) c (steal_sema s) (done_barrier s) (num_workers_active s) (workers s).
Definition set_sema (n : Z) (s : Ci_ParGCState) : Ci_ParGCState :=
  ParGCState (min_gen s) (mark_barrier s) (num_workers_marking s) (steal_coordinator s) n (done_barrier s) (num_workers_active s) (workers s).
Definition set_done_barrier (b : Ci_Barrier) (s : Ci_ParGCState) : Ci_ParGCState :=
  ParGCState (min_gen s) (mark_barrier s) (num_workers_marking s) (steal_coordinator s) (steal_sema s) b (num_workers_active s) (workers s).
Definition set_active (n : Z) (s : Ci_ParGCState) : Ci_ParGCState :=
  ParGCState (min_gen s) (mark_barrier s) (num_workers_marking s) (steal_coordinator s) (steal_sema s) (done_barrier s) n (workers s).
Definition set_workers (l : list Ci_ParGCWorker) (s : Ci_ParGCState) : Ci_ParGCState :=
  ParGCState (min_gen s) (mark_barrier s) (num_workers_marking s) (steal_coordinator s) (steal_sema s) (done_barrier s) (num_workers_active s) l.
Definition worker_goto (pc : worker_pc) (wk : Ci_ParGCWorker) : Ci_ParGCWorker := ParGCWorker (gc_slice wk) (deque wk) pc.
Definition worker_deque (d : Ci_WSDeque) (wk : Ci_ParGCWorker) : Ci_ParGCWorker := ParGCWorker (gc_slice wk) d (w_pc wk).
Definition goto (i : nat) (pc : worker_pc) (s : Ci_ParGCState) : Ci_ParGCState :=
  set_workers (alter (worker_goto pc) i (workers s)) s.
Definition set_deque (i : nat) (d : Ci_WSDeque) (s : Ci_ParGCState) : Ci_ParGCState :=
  set_workers (alter (worker_deque d) i (workers s)) s.

Definition Ci_Sema_Post (tokens : Z) (s : Ci_ParGCState) : Ci_ParGCState := set_sema (size_t (steal_sema s + tokens)) s.

Section par.
Context {E : Type} {lay : GcLayout} {api : GcApi E}.
(** The objects do not change while the workers run. *)
Variable w : E.
Implicit Types (hs : gmap Z gchead) (s : Ci_ParGCState).

(** ** Atomic accesses to the words of a header *)

Definition atomic_prev hs (g : Z) : option Z := _gc_prev <$> hs !! g.
Definition atomic_set_prev hs (g v : Z) : option (gmap Z gchead) :=
  hd ← hs !! g; Some (<[g := GCHead (_gc_next hd) v]> hs).
Definition atomic_next hs (g : Z) : option Z := head_next ∘ _gc_next <$> hs !! g.
Definition Ci_gc_is_collecting_atomic hs (g : Z) : option bool :=
  prev ← atomic_prev hs g; Some (negb (Z.land prev PREV_MASK_COLLECTING =? 0)).
Definition Ci_gc_get_collecting_and_finalized_atomic hs (g : Z) : option (bool * bool) :=
  prev ← atomic_prev hs g;
  Some (negb (Z.land prev PREV_MASK_COLLECTING =? 0), negb (Z.land prev PREV_MASK_FINALIZED =? 0)).
Definition Ci_gc_decref_atomic hs (g : Z) : option (gmap Z gchead) :=
  prev ← atomic_prev hs g; atomic_set_prev hs g (size_t (prev - Z.shiftl 1 PREV_SHIFT)).
Definition Ci_gc_is_collecting_and_reachable_atomic hs (g : Z) : option (bool * bool) :=
  prev ← atomic_prev hs g;
  Some (negb (Z.shiftr prev PREV_SHIFT =? 0) && negb (Z.land prev PREV_MASK_COLLECTING =? 0),
        negb (Z.land prev PREV_MASK_FINALIZED =? 0)).
Definition Ci_gc_mark_reachable_and_clear_collecting_atomic hs (g : Z) (finalized : bool) : option (gmap Z gchead) :=
  atomic_set_prev hs g (Z.lor (Z.shiftl 1 PREV_SHIFT) (Z.b2z finalized)).

(** ** The workers *)

(** What a worker does when a traversal ends. *)
Definition after_visit (k : mark_cont) : worker_pc :=
  match k with FromSlice gc => SliceNext gc | FromQueue => Taking Ci_WSDeque_Take end.
Definition traversal (op : Z) : list Z := tp_traverse w op.

(** [Ci_ParGCWorker_SubtractRefs]. *)
Definition subtract_step s hs (i : nat) (wk : Ci_ParGCWorker) : option (Ci_ParGCState * gmap Z gchead) :=
  match w_pc wk with
  | RunStart => Some (goto i (SubLoop (slice_start (gc_slice wk))) (set_active (num_workers_active s + 1) s), hs)
  | SubLoop gc =>
      Some (goto i (if gc =? slice_end (gc_slice wk) then MarkArrive else SubVisit gc (traversal (FROM_GC gc))) s, hs)
  | SubVisit gc [] => next ← atomic_next hs gc; Some (goto i (SubLoop next) s, hs)
  | SubVisit gc (op :: ops) =>
      if PyObject_IS_GC w op then
        collecting ← Ci_gc_is_collecting_atomic hs (AS_GC op);
        Some (goto i (if collecting : bool then SubDecref gc op ops else SubVisit gc ops) s, hs)
      else Some (goto i (SubVisit gc ops) s, hs)
  | SubDecref gc op ops => hs ← Ci_gc_decref_atomic hs (AS_GC op); Some (goto i (SubVisit gc ops) s, hs)
  | MarkArrive =>
      let '(b, wait) := Ci_Barrier_Wait (mark_barrier s) in
      Some (goto i (match wait with Some e => MarkWait e | None => SliceLoop (slice_start (gc_slice wk)) end)
              (set_mark_barrier b s), hs)
  | MarkWait e =>
      if e =? epoch (mark_barrier s) then None
      else Some (goto i (SliceLoop (slice_start (gc_slice wk))) s, hs)
  | _ => None
  end.
(** [Ci_ParGCWorker_MarkGCSlice], [Ci_queue_obj_for_marking]. *)
Definition mark_step s hs (i : nat) (wk : Ci_ParGCWorker) : option (Ci_ParGCState * gmap Z gchead) :=
  match w_pc wk with
  | SliceLoop gc =>
      if gc =? slice_end (gc_slice wk) then Some (goto i (Taking Ci_WSDeque_Take) s, hs)
      else
        r ← Ci_gc_is_collecting_and_reachable_atomic hs gc;
        Some (goto i (if r.1 : bool then SliceMark gc r.2 else SliceNext gc) s, hs)
  | SliceMark gc finalized =>
      hs ← Ci_gc_mark_reachable_and_clear_collecting_atomic hs gc finalized;
      Some (goto i (Visit (FromSlice gc) (traversal (FROM_GC gc))) s, hs)
  | SliceNext gc => next ← atomic_next hs gc; Some (goto i (SliceLoop next) s, hs)
  | Visit k [] => Some (goto i (after_visit k) s, hs)
  | Visit k (op :: ops) =>
      if PyObject_IS_GC w op then
        r ← Ci_gc_get_collecting_and_finalized_atomic hs (AS_GC op);
        Some (goto i (if r.1 : bool then QueueMark k op ops r.2 else Visit k ops) s, hs)
      else Some (goto i (Visit k ops) s, hs)
  | QueueMark k op ops finalized =>
      hs ← Ci_gc_mark_reachable_and_clear_collecting_atomic hs (AS_GC op) finalized;
      Some (goto i (QueuePush k ops (Ci_WSDeque_Push op)) s, hs)
  | QueuePush k ops dpc =>
      r ← dq_step (deque wk) dpc;
      Some (goto i (match r.2 with Go dpc => QueuePush k ops dpc | Returns _ => Visit k ops end) (set_deque i r.1 s), hs)
  | _ => None
  end.
(** [Ci_ParGCWorker_ProcessMarkQueueAndSteal]; [rand_r] answers [rand]. *)
Definition steal_loop_step s (i : nat) (wk : Ci_ParGCWorker) (rand : Z) : option Ci_ParGCState :=
  match w_pc wk with
  | Taking dpc =>
      r ← dq_step (deque wk) dpc;
      Some (goto i match r.2 with
                   | Go dpc => Taking dpc
                   | Returns obj => if obj =? 0 then StealPick else Visit FromQueue (traversal obj)
                   end (set_deque i r.1 s))
  | StealPick => Some (goto i (StealLoop (rand `mod` num_workers s) 0) s)
  | StealLoop start k =>
      if k <? num_workers s then
        let victim := (start + k) `mod` num_workers s in
        Some (goto i (if victim =? Z.of_nat i then StealLoop start (k + 1) else Stealing start k Ci_WSDeque_Steal) s)
      else Some (goto i TakeCoordinator s)
  | Stealing start k dpc =>
      let victim := Z.to_nat ((start + k) `mod` num_workers s) in
      vk ← workers s !! victim;
      r ← dq_step (deque vk) dpc;
      Some (goto i match r.2 with
                   | Go dpc => Stealing start k dpc
                   | Returns obj => if obj =? 0 then StealLoop start (k + 1) else Visit FromQueue (traversal obj)
                   end (set_deque victim r.1 s))
  | _ => None
  end.
(** [Ci_ParGCWorker_TakeStealCoordinator], [Ci_ParGCWorker_CoordinateStealing],
    [Ci_ParGCWorker_DropStealCoordinator]. *)
Definition coordinate_step s (i : nat) (wk : Ci_ParGCWorker) : option Ci_ParGCState :=
  match w_pc wk with
  | TakeCoordinator =>
      Some match steal_coordinator s with
           | None => goto i CoordLoad (set_coordinator (Some i) s)
           | Some _ => goto i WaitSub s
           end
  | CoordLoad =>
      let n := num_workers_marking s in
      Some (goto i (if n =? 1 then CoordFinish n else CoordSize n 0 0) s)
  | CoordFinish n => Some (goto i (CoordPostAll n) (set_marking (num_workers_marking s - 1) s))
  | CoordPostAll n => Some (goto i DropCoordinator (Ci_Sema_Post (size_t (num_workers s - n)) s))
  | CoordSize n k available =>
      if k <? num_workers s then Some (goto i (CoordSizing n k available Ci_WSDeque_Size) s)
      else if available =? 0 then Some (goto i CoordLoad s)
      else
        let inactive := size_t (num_workers s - n) in
        let wake := if inactive <? available then inactive else available in
        Some (goto i (if 0 <? wake then CoordWake wake else DropCoordinator) s)
  | CoordSizing n k available dpc =>
      vk ← workers s !! Z.to_nat k;
      r ← dq_step (deque vk) dpc;
      Some (goto i match r.2 with
                   | Go dpc => CoordSizing n k available dpc
                   | Returns size => CoordSize n (k + 1) (size_t (available + size))
                   end s)
  | CoordWake k => Some (goto i (CoordPost k) (set_marking (num_workers_marking s + k) s))
  | CoordPost k => Some (goto i DropCoordinator (Ci_Sema_Post k s))
  | DropCoordinator =>
      if decide (steal_coordinator s = Some i) then Some (goto i LoopCheck (set_coordinator None s)) else None
  | _ => None
  end.
(** [Ci_ParGCWorker_MarkReachable] and the end of [Ci_ParGCWorker_Run]. *)
Definition finish_step s (i : nat) (wk : Ci_ParGCWorker) : option Ci_ParGCState :=
  match w_pc wk with
  | WaitSub => Some (goto i SemaWait (set_marking (num_workers_marking s - 1) s))
  | SemaWait => if steal_sema s =? 0 then None else Some (goto i LoopCheck (set_sema (steal_sema s - 1) s))
  | LoopCheck => Some (goto i (if num_workers_marking s =? 0 then DoneArrive else Taking Ci_WSDeque_Take) s)
  | DoneArrive =>
      let '(b, wait) := Ci_Barrier_Wait (done_barrier s) in
      Some (goto i (match wait with Some e => DoneWait e | None => RunEnd end) (set_done_barrier b s))
  | DoneWait e => if e =? epoch (done_barrier s) then None else Some (goto i RunEnd s)
  | RunEnd => Some (goto i WorkerDone (set_active (num_workers_active s - 1) s))
  | _ => None
  end.
(** [None]: the worker is blocked or has ended, or it fails. *)
Definition worker_step s hs (i : nat) (rand : Z) : option (Ci_ParGCState * gmap Z gchead) :=
  wk ← workers s !! i;
  match w_pc wk with
  | RunStart | SubLoop _ | SubVisit _ _ | SubDecref _ _ _ | MarkArrive | MarkWait _ => subtract_step s hs i wk
  | SliceLoop _ | SliceMark _ _ | SliceNext _ | Visit _ _ | QueueMark _ _ _ _ | QueuePush _ _ _ => mark_step s hs i wk
  | Taking _ | StealPick | StealLoop _ _ | Stealing _ _ _ => s ← steal_loop_step s i wk rand; Some (s, hs)
  | TakeCoordinator | CoordLoad | CoordFinish _ | CoordPostAll _ | CoordSize _ _ _ | CoordSizing _ _ _ _
  | CoordWake _ | CoordPost _ | DropCoordinator => s ← coordinate_step s i wk; Some (s, hs)
  | WaitSub | SemaWait | LoopCheck | DoneArrive | DoneWait _ | RunEnd | WorkerDone =>
      s ← finish_step s i wk; Some (s, hs)
  end.
(** Waiting for others, or ended. *)
Definition worker_waits s (pc : worker_pc) : bool :=
  match pc with
  | MarkWait e => e =? epoch (mark_barrier s)
  | SemaWait => steal_sema s =? 0
  | DoneWait e => e =? epoch (done_barrier s)
  | WorkerDone => true
  | _ => false
  end.

(** ** The main thread *)

Inductive main_pc := MainArrive | MainWait (e : Z) | MainDone.
Definition main_step s (pc : main_pc) : option (Ci_ParGCState * main_pc) :=
  match pc with
  | MainArrive =>
      let '(b, wait) := Ci_Barrier_Wait (done_barrier s) in
      Some (set_done_barrier b s, match wait with Some e => MainWait e | None => MainDone end)
  | MainWait e => if e =? epoch (done_barrier s) then None else Some (s, MainDone)
  | MainDone => None
  end.
Inductive par_step : Ci_ParGCState * gmap Z gchead * main_pc -> Ci_ParGCState * gmap Z gchead * main_pc -> Prop :=
  | par_worker s hs mpc i rand s' hs' : worker_step s hs i rand = Some (s', hs') -> par_step (s, hs, mpc) (s', hs', mpc)
  | par_main s hs mpc s' mpc' : main_step s mpc = Some (s', mpc') -> par_step (s, hs, mpc) (s', hs, mpc').
End par.
