(* ===== verification/ParSpec.v ===== *)
(** * The marking protocol and its invariant

    What the workers of [ParDefs] do, with the words of the headers as counts
    and marks, the deques as lists, the operations on them as single steps, and
    a worker as what it still has to do. *)

From stdpp Require Import base list gmap numbers strings.
From S2P Require Import Prelude GcHead GcSpec ParDefs.

(** ** States *)

Inductive coord_view :=
  | CLoad
  | CRead (n : Z)
  | CFinish (n : Z)
  | CPostAll (n : Z)
  | CWake (k : Z)
  | CPost (k : Z)
  | CDrop.
Inductive wview :=
  (* references still to be subtracted *)
  | VSub (todo : list Z)
  | VAt (e : Z)
  (* what is left of the slice, references to visit, objects in hand *)
  | VWork (rest visits items : list Z)
  | VIdle
  | VCoord (c : coord_view)
  | VWaitSub
  | VSema
  | VCheck
  | VDoneArr
  | VDoneAt (e : Z)
  | VEnd.
Record view := View {
  v_refs : Z -> Z;
  v_marked : gset Z;
  v_barrier : Ci_Barrier;
  v_marking : Z;
  v_coord : option nat;
  v_sema : Z;
  v_done : Ci_Barrier;
  v_main : main_pc;
  v_ws : list wview;
  v_qs : list (list Z)
}.

Section protocol.
Context {E : Type} {api : GcApi E}.
Variable w : E.
(** The objects, and the slices of the workers. *)
Variable l : list Z.
Variable slices : list (list Z).
Implicit Types (s : view) (v : wview) (q : list Z).
Abbreviation children := (children w).
Definition nw : Z := Zlen slices.
Definition slice (i : nat) : list Z := default [] (slices !! i).

Definition with_w s (i : nat) v : view :=
  View (v_refs s) (v_marked s) (v_barrier s) (v_marking s) (v_coord s) (v_sema s) (v_done s) (v_main s)
    (<[i := v]> (v_ws s)) (v_qs s).
Definition with_refs s (r : Z -> Z) : view :=
  View r (v_marked s) (v_barrier s) (v_marking s) (v_coord s) (v_sema s) (v_done s) (v_main s) (v_ws s) (v_qs s).
Definition with_marked s (x : Z) : view :=
  View (v_refs s) ({[x]} ∪ v_marked s) (v_barrier s) (v_marking s) (v_coord s) (v_sema s) (v_done s) (v_main s) (v_ws s) (v_qs s).
Definition with_barrier s b : view :=
  View (v_refs s) (v_marked s) b (v_marking s) (v_coord s) (v_sema s) (v_done s) (v_main s) (v_ws s) (v_qs s).
Definition with_marking s n : view :=
  View (v_refs s) (v_marked s) (v_barrier s) n (v_coord s) (v_sema s) (v_done s) (v_main s) (v_ws s) (v_qs s).
Definition with_coord s c : view :=
  View (v_refs s) (v_marked s) (v_barrier s) (v_marking s) c (v_sema s) (v_done s) (v_main s) (v_ws s) (v_qs s).
Definition with_sema s n : view :=
  View (v_refs s) (v_marked s) (v_barrier s) (v_marking s) (v_coord s) n (v_done s) (v_main s) (v_ws s) (v_qs s).
Definition with_done s b : view :=
  View (v_refs s) (v_marked s) (v_barrier s) (v_marking s) (v_coord s) (v_sema s) b (v_main s) (v_ws s) (v_qs s).
Definition with_main s m : view :=
  View (v_refs s) (v_marked s) (v_barrier s) (v_marking s) (v_coord s) (v_sema s) (v_done s) m (v_ws s) (v_qs s).
Definition with_q s (i : nat) q : view :=
  View (v_refs s) (v_marked s) (v_barrier s) (v_marking s) (v_coord s) (v_sema s) (v_done s) (v_main s) (v_ws s)
    (<[i := q]> (v_qs s)).
Definition less_one (r : Z -> Z) (c : Z) : Z -> Z := λ x, if decide (x = c) then r x - 1 else r x.

(** ** Steps *)

(** A step of worker [i] at [v], by what it is doing. *)
Inductive sub_step s (i : nat) : wview -> view -> Prop :=
  | sub_skip c t : c ∉ l -> sub_step s i (VSub (c :: t)) (with_w s i (VSub t))
  | sub_dec c t : c ∈ l -> sub_step s i (VSub (c :: t)) (with_w (with_refs s (less_one (v_refs s) c)) i (VSub t))
  | sub_arrive b e : Ci_Barrier_Wait (v_barrier s) = (b, Some e) -> sub_step s i (VSub []) (with_w (with_barrier s b) i (VAt e))
  | sub_last b : Ci_Barrier_Wait (v_barrier s) = (b, None) ->
      sub_step s i (VSub []) (with_w (with_barrier s b) i (VWork (slice i) [] []))
  | sub_lifted e : e ≠ epoch (v_barrier s) -> sub_step s i (VAt e) (with_w s i (VWork (slice i) [] [])).
Inductive work_step s (i : nat) : wview -> view -> Prop :=
  | work_root x rest : x ∈ l -> 0 < v_refs s x ->
      work_step s i (VWork (x :: rest) [] []) (with_w (with_marked s x) i (VWork rest (children x) []))
  | work_pass x rest : x ∈ v_marked s ∨ v_refs s x <= 0 ->
      work_step s i (VWork (x :: rest) [] []) (with_w s i (VWork rest [] []))
  | work_seen rest c vs : c ∈ v_marked s ∨ c ∉ l ->
      work_step s i (VWork rest (c :: vs) []) (with_w s i (VWork rest vs []))
  | work_mark rest c vs : c ∈ l ->
      work_step s i (VWork rest (c :: vs) []) (with_w (with_marked s c) i (VWork rest vs [c]))
  | work_push rest vs c q : v_qs s !! i = Some q ->
      work_step s i (VWork rest vs [c]) (with_w (with_q s i (q ++ [c])) i (VWork rest vs []))
  | work_take x q : v_qs s !! i = Some (q ++ [x]) ->
      work_step s i (VWork [] [] []) (with_w (with_q s i q) i (VWork [] [] [x]))
  | work_visit x : work_step s i (VWork [] [] [x]) (with_w s i (VWork [] (children x) []))
  | work_dry : v_qs s !! i = Some [] -> work_step s i (VWork [] [] []) (with_w s i VIdle)
  | work_steal j x q : j ≠ i -> v_qs s !! j = Some (x :: q) ->
      work_step s i VIdle (with_w (with_q s j q) i (VWork [] (children x) [])).
Inductive coord_step s (i : nat) : wview -> view -> Prop :=
  | coord_lead : v_coord s = None -> coord_step s i VIdle (with_w (with_coord s (Some i)) i (VCoord CLoad))
  | coord_follow j : v_coord s = Some j -> coord_step s i VIdle (with_w s i VWaitSub)
  | coord_alone : v_marking s = 1 -> coord_step s i (VCoord CLoad) (with_w s i (VCoord (CFinish 1)))
  | coord_read : v_marking s ≠ 1 -> coord_step s i (VCoord CLoad) (with_w s i (VCoord (CRead (v_marking s))))
  | coord_again n : coord_step s i (VCoord (CRead n)) (with_w s i (VCoord CLoad))
  | coord_none n : coord_step s i (VCoord (CRead n)) (with_w s i (VCoord CDrop))
  | coord_some n k : 0 < k <= size_t (nw - n) -> coord_step s i (VCoord (CRead n)) (with_w s i (VCoord (CWake k)))
  | coord_wake k : coord_step s i (VCoord (CWake k)) (with_w (with_marking s (v_marking s + k)) i (VCoord (CPost k)))
  | coord_post k : coord_step s i (VCoord (CPost k)) (with_w (with_sema s (size_t (v_sema s + k))) i (VCoord CDrop))
  | coord_finish n : coord_step s i (VCoord (CFinish n)) (with_w (with_marking s (v_marking s - 1)) i (VCoord (CPostAll n)))
  | coord_post_all n : coord_step s i (VCoord (CPostAll n))
      (with_w (with_sema s (size_t (v_sema s + size_t (nw - n)))) i (VCoord CDrop))
  | coord_drop : coord_step s i (VCoord CDrop) (with_w (with_coord s None) i VCheck).
Inductive end_step s (i : nat) : wview -> view -> Prop :=
  | end_sub : end_step s i VWaitSub (with_w (with_marking s (v_marking s - 1)) i VSema)
  | end_wake : v_sema s ≠ 0 -> end_step s i VSema (with_w (with_sema s (v_sema s - 1)) i VCheck)
  | end_go : v_marking s ≠ 0 -> end_step s i VCheck (with_w s i (VWork [] [] []))
  | end_over : v_marking s = 0 -> end_step s i VCheck (with_w s i VDoneArr)
  | end_arrive b e : Ci_Barrier_Wait (v_done s) = (b, Some e) -> end_step s i VDoneArr (with_w (with_done s b) i (VDoneAt e))
  | end_last b : Ci_Barrier_Wait (v_done s) = (b, None) -> end_step s i VDoneArr (with_w (with_done s b) i VEnd)
  | end_lifted e : e ≠ epoch (v_done s) -> end_step s i (VDoneAt e) (with_w s i VEnd).
Inductive main_view s : view -> Prop :=
  | main_arrive b e : Ci_Barrier_Wait (v_done s) = (b, Some e) -> v_main s = MainArrive ->
      main_view s (with_main (with_done s b) (MainWait e))
  | main_last b : Ci_Barrier_Wait (v_done s) = (b, None) -> v_main s = MainArrive -> main_view s (with_main (with_done s b) MainDone)
  | main_lifted e : v_main s = MainWait e -> e ≠ epoch (v_done s) -> main_view s (with_main s MainDone).
Inductive vstep s : view -> Prop :=
  | vstep_sub i v s' : v_ws s !! i = Some v -> sub_step s i v s' -> vstep s s'
  | vstep_work i v s' : v_ws s !! i = Some v -> work_step s i v s' -> vstep s s'
  | vstep_coord i v s' : v_ws s !! i = Some v -> coord_step s i v s' -> vstep s s'
  | vstep_end i v s' : v_ws s !! i = Some v -> end_step s i v s' -> vstep s s'
  | vstep_main s' : main_view s s' -> vstep s s'.
End protocol.

(** ** Sums over the workers *)

Section zsum.
Context {A : Type}.
Implicit Types (f : A -> Z) (P : A -> bool) (l : list A).
Fixpoint zsum f l : Z := match l with [] => 0 | x :: l => f x + zsum f l end.
Definition num P l : Z := zsum (λ x, Z.b2z (P x)) l.
Lemma zsum_insert f l i x y : l !! i = Some x -> zsum f (<[i := y]> l) = zsum f l - f x + f y.
Proof.
  revert i. induction l as [|z l IH]; intros [|i]; simpl; intros Hi; simplify_eq; [lia|]. rewrite (IH i) by done. lia.
Qed.
Lemma zsum_0 f l : (∀ x, x ∈ l -> f x = 0) -> zsum f l = 0.
Proof. induction l as [|x l IH]; intros H; simpl; [done|]. rewrite H, IH by set_solver. done. Qed.
Lemma zsum_nonneg f l : (∀ x, x ∈ l -> 0 <= f x) -> 0 <= zsum f l.
Proof. induction l as [|x l IH]; intros H; simpl; [done|]. pose proof (H x ltac:(set_solver)). specialize (IH ltac:(set_solver)). lia. Qed.
Lemma zsum_ge f l i x : (∀ x, x ∈ l -> 0 <= f x) -> l !! i = Some x -> f x <= zsum f l.
Proof.
  intros Hf Hi. pose proof (zsum_insert f l i x x Hi) as H. clear H.
  revert i Hi. induction l as [|z l IH]; intros [|i]; simpl; intros Hi; simplify_eq.
  - pose proof (zsum_nonneg f l ltac:(set_solver)). lia.
  - pose proof (IH ltac:(set_solver) i Hi). pose proof (Hf z ltac:(set_solver)). lia.
Qed.
Lemma num_insert P l i x y : l !! i = Some x -> num P (<[i := y]> l) = num P l - Z.b2z (P x) + Z.b2z (P y).
Proof. apply zsum_insert. Qed.
Lemma b2z_range b : 0 <= Z.b2z b <= 1.
Proof. destruct b; simpl; lia. Qed.
Lemma num_range P l : 0 <= num P l <= Zlen l.
Proof.
  unfold num. induction l as [|x l IH]; simpl; [done|]. rewrite Zlen_cons. pose proof (b2z_range (P x)). lia.
Qed.
Lemma num_0 P l : (∀ x, x ∈ l -> P x = false) -> num P l = 0.
Proof. intros H. apply zsum_0. intros x Hx. by rewrite H. Qed.
(** Not all of them, and which. *)
Lemma num_lt P l i x : l !! i = Some x -> P x = false -> num P l < Zlen l.
Proof.
  unfold num. revert i. induction l as [|z l IH]; intros [|i]; simpl; intros Hi Hx; simplify_eq; rewrite Zlen_cons.
  - rewrite Hx. simpl. pose proof (num_range P l). unfold num in *. lia.
  - specialize (IH i Hi Hx). pose proof (b2z_range (P z)). lia.
Qed.
Lemma num_lt2 P l : ∀ i x j y, i ≠ j -> l !! i = Some x -> l !! j = Some y -> P x = false -> P y = false ->
  num P l < Zlen l - 1.
Proof.
  induction l as [|z l IH]; intros i x j y Hij Hi Hj Hx Hy; [done|]. unfold num in *. simpl. rewrite Zlen_cons.
  pose proof (b2z_range (P z)). destruct i as [|i], j as [|j]; simpl in *; simplify_eq.
  - rewrite Hx. pose proof (num_lt P l j y Hj Hy). unfold num in *. simpl. lia.
  - rewrite Hy. pose proof (num_lt P l i x Hi Hx). unfold num in *. simpl. lia.
  - specialize (IH i x j y ltac:(congruence) Hi Hj Hx Hy). lia.
Qed.
Lemma num_all P l : num P l = Zlen l -> ∀ i x, l !! i = Some x -> P x = true.
Proof. intros H i x Hi. destruct (P x) eqn:Hx; [done|]. pose proof (num_lt P l i x Hi Hx). lia. Qed.
Lemma num_but_one P l i x : l !! i = Some x -> P x = false -> num P l = Zlen l - 1 ->
  ∀ j y, j ≠ i -> l !! j = Some y -> P y = true.
Proof. intros Hi Hx H j y Hj Hy. destruct (P y) eqn:HP; [done|]. pose proof (num_lt2 P l i x j y). naive_solver lia. Qed.
Lemma num_full P l : (∀ x, x ∈ l -> P x = true) -> num P l = Zlen l.
Proof.
  unfold num. induction l as [|x l IH]; intros H; simpl; [done|]. rewrite H, IH, Zlen_cons by set_solver. done.
Qed.
End zsum.

(** ** Barriers *)

Record bar_ok (b : Ci_Barrier) (cap e waiting : Z) (lifted : bool) : Prop := {
  bo_cap : capacity b = cap;
  bo_epoch : epoch b = if lifted then uint (e + 1) else e;
  bo_left : num_left b = if lifted then cap else cap - waiting
}.
Lemma barrier_wait_ok b cap e n : bar_ok b cap e n false -> 0 <= n < cap -> cap < 2 ^ 32 ->
  ∃ b', if decide (n + 1 = cap) then Ci_Barrier_Wait b = (b', None) ∧ bar_ok b' cap e (n + 1) true
        else Ci_Barrier_Wait b = (b', Some e) ∧ bar_ok b' cap e (n + 1) false.
Proof.
  intros [H1 H2 H3] Hn Hc. unfold Ci_Barrier_Wait. rewrite H1, H2, H3.
  assert (Hu : uint (cap - n - 1) = cap - n - 1) by (apply Z.mod_small; lia). rewrite Hu.
  case_decide as Hd.
  - rewrite (proj2 (Z.eqb_eq _ _)) by lia. eexists. split; [done|]. done.
  - rewrite (proj2 (Z.eqb_neq _ _)) by lia. eexists. split; [done|]. split; simpl; [done|done|lia].
Qed.
Lemma epoch_differs e : 0 <= e < 2 ^ 32 -> uint (e + 1) ≠ e.
Proof.
  intros He. unfold uint. assert (e + 1 < 2 ^ 32 ∨ e + 1 = 2 ^ 32) as [H|H] by lia.
  - rewrite Z.mod_small by lia. lia.
  - rewrite H, Z.mod_same by lia. lia.
Qed.

Section inv.
Context {E : Type} {api : GcApi E}.
Variable w : E.
Variable l : list Z.
Variable slices : list (list Z).
(** The epochs of the barriers before the collection. *)
Variables e0 e1 : Z.
Implicit Types (s : view) (v : wview) (q : list Z).
Abbreviation nw := (nw slices).
Abbreviation slice := (slice slices).
Abbreviation children := (children w).

(** ** What a worker still has *)

Definition todo_of v : list Z := match v with VSub t => t | _ => [] end.
Definition rest_of (i : nat) v : list Z := match v with VAt _ => slice i | VWork rest _ _ => rest | _ => [] end.
Definition visits_of v : list Z := match v with VWork _ vs _ => vs | _ => [] end.
Definition items_of v : list Z := match v with VWork _ _ its => its | _ => [] end.
Definition is_at v : bool := match v with VAt _ => true | _ => false end.
Definition is_sema v : bool := match v with VSema => true | _ => false end.
Definition is_done_at v : bool := match v with VDoneAt _ => true | _ => false end.
Definition working v : bool := match v with VWork _ _ _ => true | _ => false end.
Definition asleep v : bool := match v with VWaitSub | VSema => true | _ => false end.
Definition main_waits (m : main_pc) : bool := match m with MainWait _ => true | _ => false end.
(** Tokens that a coordinator has announced. *)
Definition post_of v : Z := match v with VCoord (CPost k) => k | VCoord (CPostAll n) => nw - n | _ => 0 end.

(** ** The phases *)

Record Before s : Prop := {
  be_ws : ∀ i v, v_ws s !! i = Some v -> match v with VSub _ => True | VAt e => e = e0 | _ => False end;
  be_bar : bar_ok (v_barrier s) nw e0 (num is_at (v_ws s)) false;
  be_some : num is_at (v_ws s) < nw;
  be_marked : v_marked s = ∅;
  be_marking : v_marking s = nw;
  be_coord : v_coord s = None;
  be_sema : v_sema s = 0;
  be_qs : ∀ i q, v_qs s !! i = Some q -> q = [];
  be_refs : ∀ x, x ∈ l -> v_refs s x = external w l x + zsum (λ v, count x (todo_of v)) (v_ws s) ∧ v_refs s x < 2 ^ 62
}.
(** Marks are sound, and what is not marked yet will be visited. *)
Definition in_rest s (x : Z) : Prop := ∃ i v, v_ws s !! i = Some v ∧ x ∈ rest_of i v.
Definition in_visits s (x : Z) : Prop := ∃ i v, v_ws s !! i = Some v ∧ x ∈ visits_of v.
Definition in_items s (x : Z) : Prop :=
  (∃ i v, v_ws s !! i = Some v ∧ x ∈ items_of v) ∨ ∃ i q, v_qs s !! i = Some q ∧ x ∈ q.
Record Marks s : Prop := {
  mk_refs : ∀ x, x ∈ l -> v_refs s x = external w l x;
  mk_sound : ∀ x, x ∈ v_marked s -> reachable w l x;
  mk_items : ∀ x, in_items s x -> x ∈ v_marked s;
  mk_visits : ∀ c, in_visits s c -> c ∈ l -> reachable w l c;
  mk_rest : ∀ x, in_rest s x -> x ∈ l;
  mk_roots : ∀ x, x ∈ l -> 0 < external w l x -> x ∈ v_marked s ∨ in_rest s x;
  mk_closed : ∀ x c, x ∈ v_marked s -> c ∈ children x -> c ∈ l -> c ∈ v_marked s ∨ in_items s x ∨ in_visits s c;
  mk_idle : ∀ i v q, v_ws s !! i = Some v -> v_qs s !! i = Some q -> working v = false -> q = []
}.
(** Someone is marking. *)
Definition early v : Prop :=
  match v with VAt e => e = e0 | VWork _ _ _ | VIdle | VCoord _ | VWaitSub | VSema | VCheck => True | _ => False end.
Definition coord_ok (n : Z) (c : coord_view) : Prop :=
  match c with
  | CRead m => n <= m <= nw
  | CFinish m => m = 1 ∧ n = 1
  | CWake k => 0 < k ∧ n + k <= nw
  | CPost k => 0 < k
  | CPostAll _ => False
  | CLoad | CDrop => True
  end.
Record Early s : Prop := {
  ea_ws : ∀ i v, v_ws s !! i = Some v -> early v;
  ea_marking : 0 < v_marking s <= nw;
  ea_sema : 0 <= v_sema s;
  ea_count : v_marking s + num is_sema (v_ws s) = nw + v_sema s + zsum post_of (v_ws s);
  ea_coord : ∀ i c, v_ws s !! i = Some (VCoord c) -> coord_ok (v_marking s) c;
  ea_awake : ∃ i v, v_ws s !! i = Some v ∧ asleep v = false
}.
(** Marking is over. *)
Definition late v : Prop :=
  match v with
  | VSema | VCheck | VDoneArr | VDoneAt _ | VEnd | VCoord CDrop => True
  | VCoord (CPostAll n) => n = 1
  | _ => False
  end.
Record Late s : Prop := {
  la_ws : ∀ i v, v_ws s !! i = Some v -> late v;
  la_marking : v_marking s = 0;
  la_sema : 0 <= v_sema s;
  la_count : num is_sema (v_ws s) = v_sema s + zsum post_of (v_ws s)
}.
Record Coord s : Prop := {
  co_holds : ∀ i c, v_ws s !! i = Some (VCoord c) -> v_coord s = Some i;
  co_held : ∀ i, v_coord s = Some i -> ∃ c, v_ws s !! i = Some (VCoord c)
}.
Record After s : Prop := {
  af_bar : bar_ok (v_barrier s) nw e0 0 true;
  af_marks : Marks s;
  af_coord : Coord s;
  af_phase : Early s ∨ Late s
}.
(** The barrier at the end. *)
Definition done_ws (lifted : bool) v : Prop :=
  match v with VDoneAt e => e = e1 | VEnd => lifted = true | _ => lifted = false end.
Definition done_main (lifted : bool) (m : main_pc) : Prop :=
  match m with MainArrive => lifted = false | MainWait e => e = e1 | MainDone => lifted = true end.
Definition arrived s : Z := num is_done_at (v_ws s) + Z.b2z (main_waits (v_main s)).
Record Done s (lifted : bool) : Prop := {
  do_bar : bar_ok (v_done s) (nw + 1) e1 (arrived s) lifted;
  do_some : lifted = false -> arrived s < nw + 1;
  do_ws : ∀ i v, v_ws s !! i = Some v -> done_ws lifted v;
  do_main : done_main lifted (v_main s)
}.
Record VInv s : Prop := {
  vi_ws : Zlen (v_ws s) = nw;
  vi_qs : length (v_qs s) = length (v_ws s);
  vi_done : ∃ lifted, Done s lifted;
  vi_phase : Before s ∨ After s
}.

(** ** Updates of one worker *)

Lemma others_insert (P : nat -> wview -> Prop) (ws : list wview) i v v' :
  ws !! i = Some v -> (∀ j u, ws !! j = Some u -> P j u) -> P i v' -> ∀ j u, <[i := v']> ws !! j = Some u -> P j u.
Proof.
  intros Hi HP Hv j u Hj. apply list_lookup_insert_Some in Hj as [(-> & -> & _)|[_ Hj]]; auto.
Qed.
Definition plain_done v : Prop := match v with VDoneAt _ | VEnd => False | _ => True end.
Lemma done_keep s s' i v v' lf : v_ws s !! i = Some v -> v_ws s' = <[i := v']> (v_ws s) -> v_done s' = v_done s ->
  v_main s' = v_main s -> plain_done v -> plain_done v' -> Done s lf -> Done s' lf.
Proof.
  intros Hi Hw Hd Hm Hv Hv' [H1 H2 H3 H4]. assert (Ha : arrived s' = arrived s).
  { unfold arrived. rewrite Hw, Hm, (num_insert _ _ _ _ _ Hi).
    assert (is_done_at v = false ∧ is_done_at v' = false) as [-> ->] by (split; [by destruct v|by destruct v']). simpl. lia. }
  split; rewrite ?Ha, ?Hd, ?Hm; try done. rewrite Hw. apply others_insert with v; [done..|].
  pose proof (H3 _ _ Hi) as Hlf. by destruct v, v'.
Qed.

(** What happens to the marks when worker [i] goes from [v] to [v']. *)
Record marks_step s s' (i : nat) v v' : Prop := {
  ms_at : v_ws s !! i = Some v;
  ms_ws : v_ws s' = <[i := v']> (v_ws s);
  ms_refs : v_refs s' = v_refs s;
  ms_marked : v_marked s ⊆ v_marked s';
  ms_new : ∀ x, x ∈ v_marked s' -> x ∈ v_marked s ∨ reachable w l x ∧
    ∀ c, c ∈ children x -> x ∈ items_of v' ∨ c ∈ visits_of v';
  ms_rest : ∀ x, x ∈ rest_of i v -> x ∈ rest_of i v' ∨ x ∈ v_marked s' ∨ external w l x <= 0;
  ms_rest' : ∀ x, x ∈ rest_of i v' -> x ∈ rest_of i v;
  ms_visits : ∀ c, c ∈ visits_of v -> c ∈ l -> c ∈ visits_of v' ∨ c ∈ v_marked s';
  ms_visits' : ∀ c, c ∈ visits_of v' -> c ∈ l -> c ∈ visits_of v ∨ reachable w l c;
  ms_items : ∀ x, x ∈ items_of v -> x ∈ items_of v' ∨ (∃ j q, v_qs s' !! j = Some q ∧ x ∈ q) ∨ ∀ c, c ∈ children x -> c ∈ visits_of v';
  ms_queues : ∀ j q x, v_qs s !! j = Some q -> x ∈ q ->
    (∃ q, v_qs s' !! j = Some q ∧ x ∈ q) ∨ x ∈ items_of v' ∨ ∀ c, c ∈ children x -> c ∈ visits_of v';
  ms_items' : ∀ x, x ∈ items_of v' -> x ∈ v_marked s';
  ms_queues' : ∀ j q x, v_qs s' !! j = Some q -> x ∈ q -> x ∈ v_marked s';
  ms_idle : ∀ j u q, v_ws s' !! j = Some u -> v_qs s' !! j = Some q -> working u = false -> q = []
}.
Lemma marks_keep s s' i v v' : marks_step s s' i v v' -> Marks s -> Marks s'.
Proof.
  intros [S1 S2 S3 S4 S5 S6 S7 S8 S9 S10 S11 S12 S13 S14] [M1 M2 M3 M4 M5 M6 M7 M8].
  assert (Hi : v_ws s' !! i = Some v') by (rewrite S2, list_lookup_insert_eq by (by eapply lookup_lt_Some); done).
  assert (Hne : ∀ j, j ≠ i -> v_ws s' !! j = v_ws s !! j) by (intros j Hj; by rewrite S2, list_lookup_insert_ne by done).
  assert (Hrest : ∀ x, in_rest s' x <-> x ∈ rest_of i v' ∨ ∃ j u, j ≠ i ∧ v_ws s !! j = Some u ∧ x ∈ rest_of j u).
  { intros x. split.
    - intros (j & u & Hj & Hx). destruct (decide (j = i)) as [->|Hji]; [naive_solver|]. rewrite Hne in Hj by done. naive_solver.
    - intros [Hx|(j & u & Hji & Hj & Hx)]; [by exists i, v'|]. exists j, u. by rewrite Hne. }
  assert (Hvis : ∀ x, in_visits s' x <-> x ∈ visits_of v' ∨ ∃ j u, j ≠ i ∧ v_ws s !! j = Some u ∧ x ∈ visits_of u).
  { intros x. split.
    - intros (j & u & Hj & Hx). destruct (decide (j = i)) as [->|Hji]; [naive_solver|]. rewrite Hne in Hj by done. naive_solver.
    - intros [Hx|(j & u & Hji & Hj & Hx)]; [by exists i, v'|]. exists j, u. by rewrite Hne. }
  assert (Hold : ∀ x, in_items s x -> in_items s' x ∨ ∀ c, c ∈ children x -> in_visits s' c).
  { intros x [(j & u & Hj & Hx)|(j & q & Hj & Hx)].
    - destruct (decide (j = i)) as [->|Hji].
      + assert (u = v) as -> by congruence. destruct (S10 x Hx) as [?|[?|?]];
          [left; left; by exists i, v'|left; by right|right; intros; rewrite Hvis; auto].
      + left. left. exists j, u. by rewrite Hne.
    - destruct (S11 _ _ _ Hj Hx) as [(q' & ? & ?)|[?|?]];
        [left; right; by exists j, q'|left; left; by exists i, v'|right; intros; rewrite Hvis; auto]. }
  split; rewrite ?S3; try done.
  - intros x Hx. destruct (S5 x Hx) as [?|[? _]]; auto.
  - intros x [(j & u & Hj & Hx)|(j & q & Hj & Hx)]; [|by eapply S13].
    destruct (decide (j = i)) as [->|Hji]; [|apply S4, M3; left; rewrite Hne in Hj by done; by exists j, u].
    assert (u = v') as -> by congruence. auto.
  - intros c [Hc|(j & u & _ & Hj & Hc)]%Hvis Hl; [|apply M4; [by exists j, u|done]].
    destruct (S9 c Hc Hl) as [?|?]; [|done]. apply M4; [by exists i, v|done].
  - intros x [Hx|(j & u & _ & Hj & Hx)]%Hrest; apply M5; [exists i, v; auto|by exists j, u].
  - intros x Hl He. destruct (M6 x Hl He) as [?|(j & u & Hj & Hx)]; [auto|].
    destruct (decide (j = i)) as [->|Hji]; [|right; apply Hrest; right; by exists j, u].
    assert (u = v) as -> by congruence. destruct (S6 x Hx) as [?|[?|?]]; [right; apply Hrest; auto|auto|lia].
  - intros x c Hx Hc Hl. destruct (S5 x Hx) as [Hx'|[_ Hx']].
    2:{ destruct (Hx' c Hc) as [?|?]; right; [left; left; by exists i, v'|right; apply Hvis; auto]. }
    destruct (M7 x c Hx' Hc Hl) as [?|[Hit|(j & u & Hj & Hv)]]; [auto| |].
    + destruct (Hold x Hit); auto.
    + destruct (decide (j = i)) as [->|Hji]; [|right; right; apply Hvis; right; by exists j, u].
      assert (u = v) as -> by congruence. destruct (S8 c Hv Hl); [right; right; apply Hvis; auto|auto].
Qed.
End inv.
