(* ===== verification/ParProtocol.v ===== *)
(** * The steps of the marking protocol keep its invariant *)

From stdpp Require Import base list gmap numbers strings.
From S2P Require Import Prelude GcHead GcSpec ParDefs ParSpec.

Section protocol.
Context {E : Type} {api : GcApi E}.
Variable w : E.
Variable l : list Z.
Variable slices : list (list Z).
Variables e0 e1 : Z.
Implicit Types (s : view) (v : wview) (q : list Z).
Abbreviation nw := (nw slices).
Abbreviation slice := (slice slices).
Abbreviation children := (children w).
Abbreviation VInv := (VInv w l slices e0 e1).
Abbreviation Marks := (Marks w l slices).
Abbreviation After := (After w l slices e0).
Abbreviation Early := (Early slices e0).
Abbreviation Late := (Late slices).
Hypothesis workers_range : 1 <= nw < 2 ^ 31.
Hypothesis epochs : 0 <= e0 < 2 ^ 32 ∧ 0 <= e1 < 2 ^ 32.
Hypothesis slices_all : ∀ x, x ∈ l <-> ∃ i, x ∈ slice i.
Hypothesis external_range : ∀ x, x ∈ l -> 0 <= external w l x < 2 ^ 62.

(** ** Marks *)

(** Steps that change neither the marks nor the queues. *)
Lemma marks_quiet s s' i v v' : Marks s -> v_ws s !! i = Some v -> v_ws s' = <[i := v']> (v_ws s) ->
  v_refs s' = v_refs s -> v_marked s' = v_marked s -> v_qs s' = v_qs s ->
  (∀ x, x ∈ rest_of slices i v -> x ∈ rest_of slices i v' ∨ x ∈ v_marked s ∨ external w l x <= 0) ->
  (∀ x, x ∈ rest_of slices i v' -> x ∈ rest_of slices i v) ->
  (∀ c, c ∈ visits_of v -> c ∈ l -> c ∈ visits_of v' ∨ c ∈ v_marked s) -> (∀ c, c ∈ visits_of v' -> c ∈ visits_of v) ->
  items_of v' = items_of v ->
  (∀ q, v_qs s !! i = Some q -> working v' = false -> q = [] ∨ working v = false) -> Marks s'.
Proof.
  intros HM Hi Hw Hr Hm Hq R1 R2 V1 V2 It Id. apply (marks_keep w l slices s s' i v v'); [|done].
  pose proof HM as [M1 M2 M3 M4 M5 M6 M7 M8].
  split; rewrite ?Hm, ?Hq, ?It; try done; auto.
  - intros j q x Hj Hx. left. by exists q.
  - intros x Hx. apply M3. left. by exists i, v.
  - intros j q x Hj Hx. apply M3. right. by exists j, q.
  - rewrite Hw. intros j u q Hj Hq' Hu. apply list_lookup_insert_Some in Hj as [(-> & -> & _)|[_ Hj]]; [|by eapply M8].
    destruct (Id _ Hq' Hu) as [?|Hv]; [done|]. by eapply M8.
Qed.
Lemma reachable_root x : x ∈ l -> 0 < external w l x -> reachable w l x.
Proof. intros Hx He. exists x. by repeat split. Qed.

(** Steps of a working worker. *)
Ltac elems := rewrite ?elem_of_app, ?elem_of_cons, ?elem_of_nil, ?elem_of_union, ?elem_of_singleton in *.
Lemma marks_local s s' i v v' : Marks s -> v_ws s !! i = Some v -> v_ws s' = <[i := v']> (v_ws s) ->
  v_refs s' = v_refs s -> v_qs s' = v_qs s -> working v' = true ->
  (v_marked s' = v_marked s ∨ ∃ x, v_marked s' = {[x]} ∪ v_marked s ∧ reachable w l x ∧
     ∀ c, c ∈ children x -> x ∈ items_of v' ∨ c ∈ visits_of v') ->
  (∀ x, x ∈ rest_of slices i v -> x ∈ rest_of slices i v' ∨ x ∈ v_marked s') ->
  (∀ x, x ∈ rest_of slices i v' -> x ∈ rest_of slices i v) ->
  (∀ c, c ∈ visits_of v -> c ∈ visits_of v' ∨ c ∈ v_marked s') ->
  (∀ c, c ∈ visits_of v' -> c ∈ l -> c ∈ visits_of v ∨ reachable w l c) ->
  (∀ x, x ∈ items_of v -> x ∈ items_of v' ∨ ∀ c, c ∈ children x -> c ∈ visits_of v') ->
  (∀ x, x ∈ items_of v' -> x ∈ v_marked s') -> Marks s'.
Proof.
  intros HM Hi Hw Hr Hq Hv' Hm R1 R2 V1 V2 I1 I2. apply (marks_keep w l slices s s' i v v'); [|done].
  pose proof HM as [M1 M2 M3 M4 M5 M6 M7 M8].
  assert (Hsub : v_marked s ⊆ v_marked s') by (destruct Hm as [->|(x & -> & _)]; clear; set_solver).
  split; rewrite ?Hq; try done; auto.
  - intros x Hx. destruct Hm as [Hm|(y & Hm & Hy & Hc)]; rewrite Hm in Hx; [by left|]. elems. naive_solver.
  - intros x Hx. destruct (R1 x Hx); auto.
  - intros x Hx. destruct (I1 x Hx); auto.
  - intros j q x Hj Hx. left. by exists q.
  - intros j q x Hj Hx. apply Hsub, M3. right. by exists j, q.
  - rewrite Hw. intros j u q Hj Hq' Hu. apply list_lookup_insert_Some in Hj as [(-> & -> & _)|[_ Hj]]; [congruence|]. by eapply M8.
Qed.
(** Steps on a queue. *)
Lemma marks_queue s s' i v v' j q q' : Marks s -> v_ws s !! i = Some v -> v_ws s' = <[i := v']> (v_ws s) ->
  v_refs s' = v_refs s -> v_marked s' = v_marked s -> v_qs s !! j = Some q -> v_qs s' = <[j := q']> (v_qs s) -> 
  working v' = true -> (q' = [] ∨ j = i ∨ ∃ x, q = x :: q') -> rest_of slices i v = [] ∧ rest_of slices i v' = [] ∨ rest_of slices i v' = rest_of slices i v ->
  (∀ c, c ∈ visits_of v -> c ∈ visits_of v') -> (∀ c, c ∈ visits_of v' -> c ∈ l -> c ∈ visits_of v ∨ reachable w l c) ->
  (∀ x, x ∈ items_of v -> x ∈ items_of v' ∨ x ∈ q') ->
  (∀ x, x ∈ q -> x ∈ q' ∨ x ∈ items_of v' ∨ ∀ c, c ∈ children x -> c ∈ visits_of v') ->
  (∀ x, x ∈ items_of v' ∨ x ∈ q' -> x ∈ items_of v ∨ x ∈ q) -> Marks s'.
Proof.
  intros HM Hi Hw Hr Hm Hj Hq Hv' Hji R V1 V2 I1 I2 I3. apply (marks_keep w l slices s s' i v v'); [|done].
  pose proof HM as [M1 M2 M3 M4 M5 M6 M7 M8].
  assert (Hqj : v_qs s' !! j = Some q') by (rewrite Hq; apply list_lookup_insert_eq; by eapply lookup_lt_Some).
  assert (Hqk : ∀ k, k ≠ j -> v_qs s' !! k = v_qs s !! k) by (intros k Hk; rewrite Hq; by apply list_lookup_insert_ne).
  assert (Hnew : ∀ x, x ∈ items_of v' ∨ x ∈ q' -> x ∈ v_marked s').
  { intros x Hx. rewrite Hm. apply M3. destruct (I3 x Hx); [left; by exists i, v|right; by exists j, q]. }
  split; rewrite ?Hm; try done; auto.
  - destruct R as [[-> ->]| ->]; auto.
  - destruct R as [[-> ->]| ->]; auto.
  - intros x Hx. destruct (I1 x Hx); [auto|]. right. left. by exists j, q'.
  - intros k q0 x Hk Hx. destruct (decide (k = j)) as [->|Hkj]; [|left; exists q0; by rewrite Hqk].
    assert (q0 = q) as -> by congruence. destruct (I2 x Hx) as [?|[?|?]]; [left; by exists q'|auto..].
  - intros x Hx. rewrite <- Hm. auto.
  - intros k q0 x Hk Hx. rewrite <- Hm. destruct (decide (k = j)) as [->|Hkj].
    + assert (q0 = q') as -> by congruence. auto.
    + rewrite Hqk in Hk by done. rewrite Hm. apply M3. right. by exists k, q0.
  - rewrite Hw. intros k u q0 Hk Hk' Hu. apply list_lookup_insert_Some in Hk as [(-> & -> & _)|[Hki Hk]]; [congruence|].
    destruct (decide (k = j)) as [->|Hkj]; [|rewrite Hqk in Hk' by done; by eapply M8].
    assert (q0 = q') as -> by congruence. destruct Hji as [?|[?|(x & ->)]]; [done|congruence|]. by pose proof (M8 _ _ _ Hk Hj Hu).
Qed.
Ltac members := intros; simpl in *; elems; repeat match goal with H : forall _, _ |- _ => clear H | H : Marks _ |- _ => clear H end; naive_solver.
Lemma work_marks s i v s' : Marks s -> v_ws s !! i = Some v -> work_step w l s i v s' -> Marks s'.
Proof.
  intros HM Hi Hs. pose proof HM as [M1 M2 M3 M4 M5 M6 M7 M8].
  assert (Hmit : ∀ x, x ∈ items_of v -> x ∈ v_marked s) by (intros x Hx; apply M3; left; by exists i, v).
  assert (Hvr : ∀ c, c ∈ visits_of v -> c ∈ l -> reachable w l c) by (intros c Hc; apply M4; by exists i, v).
  assert (Hch : ∀ x c, x ∈ v_marked s -> c ∈ children x -> c ∈ l -> reachable w l c).
  { intros x c Hx Hc Hl. eapply reachable_step; [by apply M2|done|done]. }
  destruct Hs as [x rest Hx Hr|x rest Hx|rest c vs Hc|rest c vs Hc|rest vs c q Hq|x q Hq|x|Hq|j x q Hj Hq]; simpl in *.
  - assert (Hrx : reachable w l x) by (apply reachable_root; [done|rewrite <- M1 by done; lia]).
    eapply marks_local; [exact HM|exact Hi|..]; simpl; try done; try members.
    simpl. intros c Hc Hl. right. by eapply reachable_step.
  - eapply marks_quiet; [exact HM|exact Hi|..]; simpl; try done; try members.
    simpl. intros y [->|?]%elem_of_cons; [|auto]. destruct (decide (x ∈ l)) as [Hxl|Hxl]; [rewrite <- M1 by done; tauto|].
    exfalso. apply Hxl, M5. exists i. eexists. split; [exact Hi|]. simpl. elems. auto.
  - eapply marks_quiet; [exact HM|exact Hi|..]; simpl; try done; members.
  - eapply marks_local; [exact HM|exact Hi|..]; simpl; try done; try members.
    right. exists c. split; [done|]. split; [apply Hvr; elems; auto|]. simpl. intros. elems. auto.
  - eapply marks_queue; [exact HM|exact Hi|..]; simpl; try done; members.
  - eapply marks_queue; [exact HM|exact Hi|..]; simpl; try done; try members.
  - eapply marks_local; [exact HM|exact Hi|..]; simpl; try done; try members.
    simpl. intros c Hc Hl. right. apply (Hch x); [apply Hmit; elems; auto|done|done].
  - eapply marks_quiet; [exact HM|exact Hi|..]; simpl; try done; members.
  - eapply (marks_queue s _ i _ _ j); [exact HM|exact Hi|..]; simpl; try done; try members.
    simpl. intros c Hc Hl. right. apply (Hch x); [|done|done]. apply M3. right. exists j, (x :: q). elems. auto.
Qed.

(** ** Control *)

(** Workers that take no part in the coordination. *)
Definition neutral v : Prop := match v with VAt e => e = e0 | VWork _ _ _ | VIdle => True | _ => False end.
Lemma lookup_ws s i v : v_ws s !! i = Some v -> (i < length (v_ws s))%nat.
Proof. apply lookup_lt_Some. Qed.
Lemma coord_keep s s' i v v' : v_ws s !! i = Some v -> v_ws s' = <[i := v']> (v_ws s) -> v_coord s' = v_coord s ->
  (∀ c, v ≠ VCoord c) -> (∀ c, v' ≠ VCoord c) -> Coord s -> Coord s'.
Proof.
  intros Hi Hw Hc Hv Hv' [C1 C2]. split; rewrite Hc, Hw.
  - intros j c Hj. apply list_lookup_insert_Some in Hj as [(-> & Hj & _)|[_ Hj]]; [by destruct (Hv' c)|by eapply C1].
  - intros j Hj. destruct (C2 j Hj) as (c & Hc'). exists c. rewrite list_lookup_insert_ne; [done|]. intros ->.
    destruct (Hv c). congruence.
Qed.
(** The coordinator goes on. *)
Lemma coord_next s s' i c c' : v_ws s !! i = Some (VCoord c) -> v_ws s' = <[i := VCoord c']> (v_ws s) -> v_coord s' = v_coord s ->
  Coord s -> Coord s'.
Proof.
  intros Hi Hw Hc [C1 C2]. split; rewrite Hc, Hw.
  - intros j d Hj. apply list_lookup_insert_Some in Hj as [(-> & _ & _)|[_ Hj]]; by eapply C1.
  - intros j Hj. destruct (decide (j = i)) as [->|Hji].
    + exists c'. apply list_lookup_insert_eq. by eapply lookup_ws.
    + rewrite list_lookup_insert_ne by done. auto.
Qed.
Lemma early_keep s s' i v v' : v_ws s !! i = Some v -> v_ws s' = <[i := v']> (v_ws s) -> v_marking s' = v_marking s ->
  v_sema s' = v_sema s -> is_sema v = false -> is_sema v' = false -> post_of slices v' = post_of slices v -> early e0 v' ->
  (∀ c, v' = VCoord c -> coord_ok slices (v_marking s) c) -> (asleep v = false -> asleep v' = true -> ∃ j u, j ≠ i ∧ v_ws s !! j = Some u ∧ asleep u = false) ->
  Early s -> Early s'.
Proof.
  intros Hi Hw Hm Hse Hv Hv' Hp He Hc Ha [E1 E2 E3 E4 E5 E6]. pose proof (lookup_ws _ _ _ Hi) as Hlt.
  split; rewrite ?Hm, ?Hse, ?Hw; try done.
  - by apply others_insert with v.
  - rewrite (num_insert _ _ _ _ _ Hi), (zsum_insert _ _ _ _ _ Hi), Hv, Hv', Hp. simpl. lia.
  - intros j c Hj. apply list_lookup_insert_Some in Hj as [(-> & Hj & _)|[_ Hj]]; [by apply Hc|by eapply E5].
  - destruct E6 as (j & u & Hj & Hu). destruct (decide (j = i)) as [->|Hji].
    + assert (u = v) as -> by congruence. destruct (asleep v') eqn:Hv2.
      * destruct (Ha Hu eq_refl) as (k & x & Hki & Hk & Hx). exists k, x. by rewrite list_lookup_insert_ne.
      * exists i, v'. by rewrite list_lookup_insert_eq.
    + exists j, u. by rewrite list_lookup_insert_ne.
Qed.
Lemma after_neutral s s' i v v' : v_ws s !! i = Some v -> v_ws s' = <[i := v']> (v_ws s) -> v_marking s' = v_marking s ->
  v_sema s' = v_sema s -> v_coord s' = v_coord s -> v_barrier s' = v_barrier s -> neutral v -> neutral v' ->
  After s -> Marks s' -> After s'.
Proof.
  intros Hi Hw Hm Hse Hc Hb Hv Hv' [A1 A2 A3 A4] HM. split; [by rewrite Hb|done| |].
  - by apply (coord_keep s s' i v v'); try done; [destruct v|destruct v'].
  - destruct A4 as [A4|[A4 _ _ _]].
    + left. eapply (early_keep s s' i v v'); try done; try (by destruct v); try (by destruct v'); by destruct v, v'.
    + exfalso. specialize (A4 _ _ Hi). by destruct v.
Qed.
Lemma after_ws s i v : After s -> v_ws s !! i = Some v -> early e0 v ∨ late v.
Proof. intros [_ _ _ [[H _ _ _ _ _]|[H _ _ _]]] Hi; [left|right]; by eapply H. Qed.
Lemma work_after s i v s' : After s -> v_ws s !! i = Some v -> work_step w l s i v s' -> After s'.
Proof.
  intros HA Hi Hs. pose proof (work_marks _ _ _ _ (af_marks _ _ _ _ _ HA) Hi Hs) as HM.
  by destruct Hs; (eapply after_neutral; [exact Hi|..|exact HA|exact HM]).
Qed.

(** ** Subtracting *)

Abbreviation Before := (Before w l slices e0).
Lemma slice_elem x i : x ∈ slice i -> (i < length slices)%nat.
Proof.
  unfold ParSpec.slice. intros Hx. destruct (slices !! i) eqn:Hi; [by eapply lookup_lt_Some|]. by apply elem_of_nil in Hx.
Qed.
(** The last one lifts the barrier. *)
Lemma lift_after s i b : Zlen (v_ws s) = nw -> Before s -> v_ws s !! i = Some (VSub []) -> num is_at (v_ws s) = nw - 1 ->
  bar_ok b nw e0 nw true -> After (with_w (with_barrier s b) i (VWork (slice i) [] [])).
Proof.
  intros Hl [B1 B2 B3 B4 B5 B6 B7 B8 B9] Hi Hn Hb.
  set (s' := with_w _ _ _). assert (Hlt := lookup_ws _ _ _ Hi).
  assert (Hall : ∀ j v, j ≠ i -> v_ws s !! j = Some v -> v = VAt e0).
  { intros j v Hj Hv. pose proof (num_but_one is_at (v_ws s) i _ Hi eq_refl ltac:(lia) j v Hj Hv) as Hat.
    specialize (B1 _ _ Hv). destruct v; simpl in *; congruence. }
  assert (Hws : ∀ j v, v_ws s' !! j = Some v -> v = VAt e0 ∨ j = i ∧ v = VWork (slice i) [] []).
  { simpl. intros j v Hj. apply list_lookup_insert_Some in Hj as [(-> & -> & _)|[Hji Hj]]; [by right|left; by eapply Hall]. }
  assert (Htodo : ∀ x, zsum (λ v, count x (todo_of v)) (v_ws s) = 0).
  { intros x. apply zsum_0. intros v [j Hj]%list_elem_of_lookup. destruct (decide (j = i)) as [->|Hji]; [|by rewrite (Hall _ _ Hji Hj)].
    rewrite Hi in Hj. by injection Hj as <-. }
  assert (Hrest : ∀ x, in_rest slices s' x <-> x ∈ l).
  { intros x. rewrite slices_all. split.
    - intros (j & v & Hj & Hx). destruct (Hws _ _ Hj) as [->|[-> ->]]; simpl in Hx; eauto.
    - intros (j & Hx). pose proof (slice_elem _ _ Hx) as Hj. assert (is_Some (v_ws s' !! j)) as [v Hv].
      { apply lookup_lt_is_Some. simpl. rewrite length_insert. unfold Zlen, ParSpec.nw, Zlen in *. lia. }
      exists j, v. split; [done|]. destruct (Hws _ _ Hv) as [->|[-> ->]]; done. }
  split.
  - destruct Hb as [b1 b2 b3]. split; simpl; [done|done|]. rewrite b3. lia.
  - split; simpl; rewrite ?B4.
    + intros x Hx. destruct (B9 x Hx) as [-> _]. rewrite Htodo. lia.
    + intros x Hx. set_solver.
    + intros x [(j & v & Hj & Hx)|(j & q & Hj & Hx)].
      * destruct (Hws _ _ Hj) as [->|[-> ->]]; by apply elem_of_nil in Hx.
      * simpl in Hj. rewrite (B8 _ _ Hj) in Hx. by apply elem_of_nil in Hx.
    + intros c (j & v & Hj & Hx). destruct (Hws _ _ Hj) as [->|[-> ->]]; by apply elem_of_nil in Hx.
    + intros x. by rewrite Hrest.
    + intros x Hx _. right. by rewrite Hrest.
    + intros x c Hx. set_solver.
    + intros j v q _ Hq _. by eapply B8.
  - split; simpl; rewrite ?B6; [|done]. intros j c Hj. by destruct (Hws _ _ Hj) as [?|[_ ?]].
  - left. split; simpl; rewrite ?B5, ?B7.
    + intros j v Hj. by destruct (Hws _ _ Hj) as [->|[_ ->]].
    + lia.
    + done.
    + rewrite num_0, zsum_0; [lia|..]; intros v [j Hj]%list_elem_of_lookup; by destruct (Hws _ _ Hj) as [->|[_ ->]].
    + intros j c Hj. by destruct (Hws _ _ Hj) as [?|[_ ?]].
    + exists i, (VWork (slice i) [] []). by rewrite list_lookup_insert_eq.
Qed.
Lemma sub_before s i v s' : Zlen (v_ws s) = nw -> Before s -> v_ws s !! i = Some v -> sub_step l slices s i v s' ->
  Before s' ∨ After s'.
Proof.
  intros Hl HB Hi Hs. pose proof HB as [B1 B2 B3 B4 B5 B6 B7 B8 B9]. assert (Hlt := lookup_ws _ _ _ Hi).
  assert (Hnum : ∀ v', num is_at (<[i := v']> (v_ws s)) = num is_at (v_ws s) - Z.b2z (is_at v) + Z.b2z (is_at v')).
  { intros v'. by apply num_insert. }
  assert (Hsum : ∀ x v', zsum (λ v, count x (todo_of v)) (<[i := v']> (v_ws s)) =
    zsum (λ v, count x (todo_of v)) (v_ws s) - count x (todo_of v) + count x (todo_of v')).
  { intros x v'. by apply (zsum_insert (λ v, count x (todo_of v))). }
  destruct Hs as [c t Hc|c t Hc|b e Hb|b Hb|e He]; simpl in *.
  - left. split; simpl; rewrite ?Hnum; simpl; rewrite ?Z.sub_0_r, ?Z.add_0_r; try done.
    + by apply others_insert with (VSub (c :: t)).
    + intros x Hx. rewrite Hsum. simpl. rewrite count_cons, decide_False by congruence. destruct (B9 x Hx). split; [lia|done].
  - left. split; simpl; rewrite ?Hnum; simpl; rewrite ?Z.sub_0_r, ?Z.add_0_r; try done.
    + by apply others_insert with (VSub (c :: t)).
    + intros x Hx. rewrite Hsum. simpl. rewrite count_cons. destruct (B9 x Hx). unfold less_one.
      destruct (decide (x = c)) as [->|Hne]; split; lia.
  - pose proof (num_lt is_at _ _ _ Hi eq_refl) as Hn. pose proof (num_range is_at (v_ws s)).
    destruct (barrier_wait_ok _ _ _ _ B2 ltac:(lia) ltac:(lia)) as (b' & Hw). case_decide as Hd; destruct Hw as [Hw Hok].
    + congruence.
    + left. assert (b' = b ∧ e = e0) as [-> ->] by (rewrite Hb in Hw; by injection Hw).
      split; simpl; rewrite ?Hnum; simpl; rewrite ?Z.sub_0_r; try done.
      * by apply others_insert with (VSub []).
      * lia.
      * intros x Hx. rewrite Hsum. simpl. destruct (B9 x Hx). split; [|done]. lia.
  - pose proof (num_lt is_at _ _ _ Hi eq_refl) as Hn. pose proof (num_range is_at (v_ws s)).
    destruct (barrier_wait_ok _ _ _ _ B2 ltac:(lia) ltac:(lia)) as (b' & Hw). case_decide as Hd; destruct Hw as [Hw Hok]; [|congruence].
    right. assert (b' = b) as -> by congruence. rewrite Hd in Hok. apply lift_after; try done. lia.
  - exfalso. pose proof (B1 _ _ Hi) as ->. apply He. symmetry. apply B2.
Qed.
Lemma sub_after s i v s' : After s -> v_ws s !! i = Some v -> sub_step l slices s i v s' -> After s'.
Proof.
  intros HA Hi Hs. pose proof (af_marks _ _ _ _ _ HA) as HM. assert (He : early e0 v ∨ late v) by (by eapply after_ws).
  destruct Hs as [c t Hc|c t Hc|b e Hb|b Hb|e He']; simpl in He; try tauto. destruct He as [->|?]; [|done].
  eapply after_neutral; [exact Hi|..|exact HA|]; try done.
  eapply marks_quiet; [exact HM|exact Hi|..]; simpl; try done; auto.
Qed.

(** ** Coordination *)

(** Workers with nothing in hand. *)
Definition empty_handed v : Prop :=
  match v with VSub _ | VAt _ => False | VWork [] [] [] => True | VWork _ _ _ => False | _ => True end.
Lemma marks_empty s s' i v v' : Marks s -> v_ws s !! i = Some v -> v_ws s' = <[i := v']> (v_ws s) ->
  v_refs s' = v_refs s -> v_marked s' = v_marked s -> v_qs s' = v_qs s ->
  empty_handed v -> empty_handed v' -> working v = false -> Marks s'.
Proof.
  intros HM Hi Hw Hr Hm Hq Hv Hv' Hwk.
  assert (Hn : ∀ u, empty_handed u -> rest_of slices i u = [] ∧ visits_of u = [] ∧ items_of u = []).
  { intros u Hu. destruct u as [| |[|] [|] [|]| | | | | | | |]; done. }
  destruct (Hn v Hv) as (R & V & I), (Hn v' Hv') as (R' & V' & I').
  eapply marks_quiet; [exact HM|exact Hi|exact Hw|done..| | | | |congruence|auto];
    intros x; rewrite ?R, ?R', ?V, ?V', elem_of_nil; tauto.
Qed.
Lemma early_facts s : Zlen (v_ws s) = nw -> Early s ->
  (∀ v, v ∈ v_ws s -> 0 <= post_of slices v) ∧ v_sema s + zsum (post_of slices) (v_ws s) <= nw.
Proof.
  intros Hl [E1 E2 E3 E4 E5 E6]. split.
  - intros v [i Hi]%list_elem_of_lookup. destruct v as [| | | |c| | | | | |]; simpl; try done. specialize (E5 _ _ Hi). by destruct c; simpl in *; lia.
  - pose proof (num_range is_sema (v_ws s)). lia.
Qed.
Lemma size_small n : 0 <= n < 2 ^ 32 -> size_t n = n.
Proof. intros H. apply size_t_small. unfold SIZE_T_MOD. lia. Qed.

(** Reading and deciding. *)
Lemma coord_early s s' i c c' : Zlen (v_ws s) = nw -> Early s -> v_ws s !! i = Some (VCoord c) -> v_ws s' = <[i := VCoord c']> (v_ws s) ->
  v_marking s' - v_sema s' = v_marking s - v_sema s + post_of slices (VCoord c') - post_of slices (VCoord c) ->
  v_marking s <= v_marking s' <= nw -> v_sema s <= v_sema s' -> coord_ok slices (v_marking s') c' ->
  (∀ j d, j ≠ i -> v_ws s !! j = Some (VCoord d) -> False) -> Early s'.
Proof.
  intros Hl [E1 E2 E3 E4 E5 E6] Hi Hw Hd Hm Hse Hc Hu. pose proof (lookup_ws _ _ _ Hi) as Hlt.
  split; rewrite ?Hw.
  - by apply others_insert with (VCoord c).
  - lia.
  - lia.
  - rewrite (num_insert _ _ _ _ _ Hi), (zsum_insert _ _ _ _ _ Hi). simpl in *. lia.
  - intros j d Hj. apply list_lookup_insert_Some in Hj as [(-> & Hj & _)|[Hji Hj]]; [by simplify_eq|]. by destruct (Hu j d).
  - exists i, (VCoord c'). by rewrite list_lookup_insert_eq.
Qed.
Lemma coord_unique s i c j d : Coord s -> v_ws s !! i = Some (VCoord c) -> j ≠ i -> v_ws s !! j = Some (VCoord d) -> False.
Proof. intros [C1 _] Hi Hji Hj. pose proof (C1 _ _ Hi). pose proof (C1 _ _ Hj). congruence. Qed.
Lemma coord_early_step s i v s' : Zlen (v_ws s) = nw -> Coord s -> Early s -> v_ws s !! i = Some v -> coord_step slices s i v s' ->
  Early s' ∨ Late s'.
Proof.
  intros Hl HC HE Hi Hs. pose proof HE as [E1 E2 E3 E4 E5 E6]. pose proof (early_facts s Hl HE) as [F1 F2].
  pose proof (coord_unique s i) as Hu.
  destruct Hs as [Hc|j Hc|Hm|Hm|n|n|n k Hk|k|k|n|n|]; simpl; try (specialize (E5 _ _ Hi); simpl in E5);
    try (left; eapply (coord_early s _ i _ _ Hl HE Hi); [reflexivity|simpl; lia|simpl; lia|simpl; lia|simpl; lia|by eauto]).
  - left. eapply early_keep; [exact Hi|..|exact HE]; simpl; try done. by intros c [= <-].
  - left. eapply early_keep; [exact Hi|..|exact HE]; simpl; try done. intros _ _.
    destruct (co_held _ HC _ Hc) as (c & Hj). exists j, (VCoord c). split_and!; [|done|done]. intros ->. congruence.
  - left. rewrite size_small in Hk by lia.
    eapply (coord_early s _ i _ _ Hl HE Hi); [reflexivity|simpl; lia|simpl; lia|simpl; lia|simpl; lia|by eauto].
  - left. pose proof (zsum_ge (post_of slices) _ _ _ F1 Hi) as Hz. simpl in Hz. 
    rewrite size_small by lia. eapply (coord_early s _ i _ _ Hl HE Hi); [reflexivity|simpl; lia|simpl; lia|simpl; lia|done|by eauto].
  - right. destruct E5 as [-> Hm]. pose proof (num_lt is_sema _ _ _ Hi eq_refl) as Hn.
    pose proof (zsum_nonneg (post_of slices) _ F1) as Hz.
    assert (Hall : ∀ j v, j ≠ i -> v_ws s !! j = Some v -> v = VSema).
    { intros j v Hji Hj. pose proof (num_but_one is_sema (v_ws s) i _ Hi eq_refl ltac:(lia) j v Hji Hj). by destruct v. }
    split; simpl; [|lia|lia|].
    + intros j v Hj. apply list_lookup_insert_Some in Hj as [(-> & <- & _)|[Hji Hj]]; [done|]. by rewrite (Hall j v).
    + rewrite (num_insert _ _ _ _ _ Hi), (zsum_insert _ _ _ _ _ Hi). simpl. lia.
  - left. eapply early_keep; [exact Hi|..|exact HE]; simpl; try done.
Qed.

Lemma late_facts s : Zlen (v_ws s) = nw -> Late s ->
  (∀ v, v ∈ v_ws s -> 0 <= post_of slices v) ∧ v_sema s + zsum (post_of slices) (v_ws s) <= nw.
Proof.
  intros Hl [L1 L2 L3 L4]. split.
  - intros v [i Hi]%list_elem_of_lookup. specialize (L1 _ _ Hi). destruct v as [| | | |[]| | | | | |]; simpl in *; try done. lia.
  - pose proof (num_range is_sema (v_ws s)). lia.
Qed.
Lemma late_step s s' i v v' : Late s -> v_ws s !! i = Some v -> v_ws s' = <[i := v']> (v_ws s) -> v_marking s' = 0 ->
  0 <= v_sema s' -> late v' ->
  v_sema s' - v_sema s = post_of slices v - post_of slices v' + Z.b2z (is_sema v') - Z.b2z (is_sema v) -> Late s'.
Proof.
  intros [L1 L2 L3 L4] Hi Hw Hm Hse Hv Hd. split; rewrite ?Hw; [by apply others_insert with v|done|done|].
  rewrite (num_insert _ _ _ _ _ Hi), (zsum_insert _ _ _ _ _ Hi). lia.
Qed.
Lemma coord_late_step s i v s' : Zlen (v_ws s) = nw -> Late s -> v_ws s !! i = Some v -> coord_step slices s i v s' -> Late s'.
Proof.
  intros Hl HL Hi Hs. pose proof (late_facts s Hl HL) as [F1 F2]. pose proof HL as [L1 L2 L3 L4]. pose proof (L1 _ _ Hi) as Hv.
  destruct Hs as [Hc|j Hc|Hm|Hm|n|n|n k Hk|k|k|n|n|]; simpl in Hv; try done.
  - subst n. pose proof (zsum_ge (post_of slices) _ _ _ F1 Hi) as Hz. simpl in Hz.
    rewrite (size_small (nw - 1)), size_small by lia.
    eapply late_step; [exact HL|exact Hi|reflexivity|done|simpl; lia|done|simpl; lia].
  - eapply late_step; [exact HL|exact Hi|reflexivity|done|simpl; lia|done|simpl; lia].
Qed.
(** The coordinator is one worker. *)
Lemma coord_coord s i v s' : Coord s -> v_ws s !! i = Some v -> coord_step slices s i v s' -> Coord s'.
Proof.
  intros HC Hi Hs. pose proof HC as [C1 C2]. pose proof (lookup_ws _ _ _ Hi) as Hlt.
  destruct Hs as [Hc|j Hc|Hm|Hm|n|n|n k Hk|k|k|n|n|];
    try (eapply coord_next; [exact Hi|reflexivity|reflexivity|exact HC]).
  - split; simpl.
    + intros j c Hj. apply list_lookup_insert_Some in Hj as [(-> & _ & _)|[Hji Hj]]; [done|]. pose proof (C1 _ _ Hj). congruence.
    + intros j [= <-]. exists CLoad. by apply list_lookup_insert_eq.
  - eapply coord_keep; [exact Hi|reflexivity|reflexivity|done|done|exact HC].
  - split; simpl; [|done]. intros j c Hj. apply list_lookup_insert_Some in Hj as [(-> & Hj & _)|[Hji Hj]]; [done|].
    by destruct (coord_unique _ _ _ _ _ HC Hi (not_eq_sym Hji) Hj).
Qed.
Lemma coord_after s i v s' : Zlen (v_ws s) = nw -> After s -> v_ws s !! i = Some v -> coord_step slices s i v s' -> After s'.
Proof.
  intros Hl [A1 A2 A3 A4] Hi Hs. split.
  - by destruct Hs.
  - by destruct Hs; (eapply (marks_empty s _ i); [exact A2|exact Hi|reflexivity|..]).
  - by eapply coord_coord.
  - destruct A4 as [A4|A4]; [by eapply coord_early_step|right; by eapply coord_late_step].
Qed.

(** ** Waiting and the end *)

Lemma end_early s i v s' : Zlen (v_ws s) = nw -> Early s -> v_ws s !! i = Some v -> end_step s i v s' -> Early s'.
Proof.
  intros Hl HE Hi Hs. pose proof HE as [E1 E2 E3 E4 E5 E6]. pose proof (early_facts s Hl HE) as [F1 F2].
  pose proof (lookup_ws _ _ _ Hi) as Hlt. pose proof (zsum_nonneg (post_of slices) _ F1) as Hz. pose proof (E1 _ _ Hi) as He.
  destruct Hs as [|Hse|Hm|Hm|b e Hb|b Hb|e Hb]; simpl in He; try done.
  - destruct E6 as (j & u & Hj & Hu). assert (Hji : j ≠ i) by (intros ->; rewrite Hi in Hj; by injection Hj as <-).
    pose proof (num_lt2 is_sema _ _ _ _ _ Hji Hj Hi ltac:(by destruct u) eq_refl) as Hn.
    split; simpl; [by apply others_insert with VWaitSub|lia|lia| | |].
    + rewrite (num_insert _ _ _ _ _ Hi), (zsum_insert _ _ _ _ _ Hi). simpl. lia.
    + intros k c Hk. apply list_lookup_insert_Some in Hk as [(-> & Hk & _)|[_ Hk]]; [done|]. specialize (E5 _ _ Hk).
      assert (Hki : k ≠ i) by (intros ->; congruence).
      pose proof (num_lt2 is_sema _ _ _ _ _ Hki Hk Hi eq_refl eq_refl). destruct c; simpl in *; lia.
    + exists j, u. by rewrite list_lookup_insert_ne.
  - split; simpl; [by apply others_insert with VSema|lia|lia| | |].
    + rewrite (num_insert _ _ _ _ _ Hi), (zsum_insert _ _ _ _ _ Hi). simpl. lia.
    + intros k c Hk. apply list_lookup_insert_Some in Hk as [(-> & Hk & _)|[_ Hk]]; [done|by eapply E5].
    + exists i, VCheck. by rewrite list_lookup_insert_eq.
  - eapply early_keep; [exact Hi|..|exact HE]; simpl; try done.
  - lia.
Qed.
Lemma end_late s i v s' : Zlen (v_ws s) = nw -> Late s -> v_ws s !! i = Some v -> end_step s i v s' -> Late s'.
Proof.
  intros Hl HL Hi Hs. pose proof (late_facts s Hl HL) as [F1 F2]. pose proof HL as [L1 L2 L3 L4]. pose proof (L1 _ _ Hi) as Hv.
  destruct Hs as [|Hse|Hm|Hm|b e Hb|b Hb|e Hb]; simpl in Hv; try done;
    (eapply late_step; [exact HL|exact Hi|reflexivity|done|simpl; lia|done|simpl; lia]).
Qed.
Lemma end_after s i v s' : Zlen (v_ws s) = nw -> After s -> v_ws s !! i = Some v -> end_step s i v s' -> After s'.
Proof.
  intros Hl [A1 A2 A3 A4] Hi Hs. split.
  - by destruct Hs.
  - by destruct Hs; (eapply (marks_empty s _ i); [exact A2|exact Hi|reflexivity|..]).
  - by destruct Hs; (eapply coord_keep; [exact Hi|reflexivity|..|exact A3]).
  - destruct A4 as [A4|A4]; [left; by eapply end_early|right; by eapply end_late].
Qed.

(** ** The barrier at the end *)

Abbreviation Done := (Done slices e1).
Lemma done_false s lf i v : Done s lf -> v_ws s !! i = Some v -> plain_done v -> lf = false.
Proof. intros [_ _ H _] Hi Hv. specialize (H _ _ Hi). by destruct v. Qed.
(** Once it is lifted the number of those who wait does not matter. *)
Lemma bar_lifted b cap e n m : bar_ok b cap e n true -> bar_ok b cap e m true.
Proof. by intros [H1 H2 H3]. Qed.
Lemma done_arrives s b wait : Zlen (v_ws s) = nw -> Done s false -> arrived s < nw + 1 -> Ci_Barrier_Wait (v_done s) = (b, wait) ->
  (wait = None ∧ arrived s = nw ∧ bar_ok b (nw + 1) e1 (nw + 1) true) ∨
  (wait = Some e1 ∧ arrived s < nw ∧ bar_ok b (nw + 1) e1 (arrived s + 1) false).
Proof.
  intros Hl [D1 D2 D3 D4] Ha Hb. assert (0 <= arrived s).
  { unfold arrived. pose proof (num_range is_done_at (v_ws s)). pose proof (b2z_range (main_waits (v_main s))). lia. }
  destruct (barrier_wait_ok _ _ _ _ D1 ltac:(lia) ltac:(lia)) as (b' & Hw). case_decide as Hd; destruct Hw as [Hw Hok]; rewrite Hb in Hw; simplify_eq.
  - left. rewrite Hd in Hok. split_and!; [done|lia|done].
  - right. split_and!; [done|lia|done].
Qed.
Lemma done_end s lf i v s' : Zlen (v_ws s) = nw -> Done s lf -> v_ws s !! i = Some v -> end_step s i v s' -> ∃ lf', Done s' lf'.
Proof.
  intros Hl HD Hi Hs. pose proof HD as [D1 D2 D3 D4]. pose proof (lookup_ws _ _ _ Hi) as Hlt. pose proof (D3 _ _ Hi) as Hv.
  destruct Hs as [|Hse|Hm|Hm|b e Hb|b Hb|e Hb]; try (exists lf; by eapply done_keep; [exact Hi|..|exact HD]); simpl in Hv.
  - subst lf. pose proof (num_lt is_done_at _ _ _ Hi eq_refl) as Hn. pose proof (b2z_range (main_waits (v_main s))).
    assert (Ha : arrived s < nw + 1) by auto.
    destruct (done_arrives _ _ _ Hl HD Ha Hb) as [(? & _)|([= ->] & Ha' & Hok)]; [done|]. exists false.
    assert (Ha1 : arrived (with_w (with_done s b) i (VDoneAt e1)) = arrived s + 1).
    { unfold arrived. simpl. rewrite (num_insert _ _ _ _ _ Hi). simpl. lia. }
    split; [by rewrite Ha1|intros _; rewrite Ha1; lia| |done]. simpl. by apply others_insert with VDoneArr.
  - subst lf. pose proof (num_lt is_done_at _ _ _ Hi eq_refl) as Hn. pose proof (num_range is_done_at (v_ws s)).
    destruct (done_arrives _ _ _ Hl HD ltac:(auto) Hb) as [(_ & Ha & Hok)|(? & _)]; [|done]. exists true.
    unfold arrived in Ha. assert (Hmw : main_waits (v_main s) = true ∧ num is_done_at (v_ws s) = nw - 1).
    { destruct (main_waits (v_main s)); simpl in Ha; [split; [done|lia]|lia]. }
    destruct Hmw as [Hmw Hall]. split; simpl; [by eapply bar_lifted|done| |].
    + intros j u Hj. apply list_lookup_insert_Some in Hj as [(-> & <- & _)|[Hji Hj]]; [done|].
      pose proof (num_but_one is_done_at (v_ws s) i _ Hi eq_refl ltac:(lia) j u ltac:(done) Hj) as Hu.
      specialize (D3 _ _ Hj). by destruct u.
    + by destruct (v_main s).
  - subst e. destruct lf; [|by destruct Hb; symmetry; apply D1]. exists true.
    split; simpl; [by eapply bar_lifted|done|by apply others_insert with (VDoneAt e1)|done].
Qed.
Lemma done_main_step s lf s' : Zlen (v_ws s) = nw -> Done s lf -> main_view s s' -> ∃ lf', Done s' lf'.
Proof.
  intros Hl HD Hs. pose proof HD as [D1 D2 D3 D4]. destruct Hs as [b e Hb Hm|b Hb Hm|e Hm Hb]; rewrite Hm in D4; simpl in D4; subst.
  - assert (Ha : arrived s < nw + 1) by auto.
    destruct (done_arrives _ _ _ Hl HD Ha Hb) as [(? & _)|([= ->] & Ha' & Hok)]; [done|]. exists false.
    assert (Ha1 : arrived (with_main (with_done s b) (MainWait e1)) = arrived s + 1).
    { unfold arrived. simpl. rewrite Hm. simpl. lia. }
    split; [by rewrite Ha1|intros _; rewrite Ha1; lia|done|done].
  - destruct (done_arrives _ _ _ Hl HD ltac:(auto) Hb) as [(_ & Ha & Hok)|(? & _)]; [|done]. exists true.
    unfold arrived in Ha. rewrite Hm in Ha. simpl in Ha. split; simpl; [by eapply bar_lifted|done| |done].
    intros j u Hj. pose proof (num_all is_done_at (v_ws s) ltac:(lia) j u Hj) as Hu. specialize (D3 _ _ Hj). by destruct u.
  - destruct lf; [|by destruct Hb; symmetry; apply D1]. exists true. split; simpl; [by eapply bar_lifted|done|done|done].
Qed.

(** ** The invariant holds throughout *)

Lemma vstep_inv s s' : VInv s -> vstep w l slices s s' -> VInv s'.
Proof.
  intros [Hl Hq [lf HD] HP] Hs.
  assert (Hlen : Zlen (v_ws s') = nw ∧ length (v_qs s') = length (v_ws s')).
  { by destruct Hs as [i v s' Hi Hs|i v s' Hi Hs|i v s' Hi Hs|i v s' Hi Hs|s' Hs]; destruct Hs; simpl; rewrite ?Zlen_insert, ?length_insert. }
  destruct Hlen as [Hl' Hq']. split; [done|done|..].
  - destruct Hs as [i v s' Hi Hs|i v s' Hi Hs|i v s' Hi Hs|i v s' Hi Hs|s' Hs].
    + exists lf. destruct Hs; (eapply done_keep; [exact Hi|reflexivity|reflexivity|reflexivity|done|done|exact HD]).
    + exists lf. destruct Hs; (eapply done_keep; [exact Hi|reflexivity|reflexivity|reflexivity|done|done|exact HD]).
    + exists lf. destruct Hs; (eapply done_keep; [exact Hi|reflexivity|reflexivity|reflexivity|done|done|exact HD]).
    + exact (done_end _ _ _ _ _ Hl HD Hi Hs).
    + exact (done_main_step _ _ _ Hl HD Hs).
  - destruct HP as [HB|HA].
    + destruct Hs as [i v s' Hi Hs|i v s' Hi Hs|i v s' Hi Hs|i v s' Hi Hs|s' Hs];
        try (pose proof (be_ws _ _ _ _ _ HB _ _ Hi); by destruct Hs); [exact (sub_before _ _ _ _ Hl HB Hi Hs)|].
      left. destruct HB. by destruct Hs.
    + right. destruct Hs as [i v s' Hi Hs|i v s' Hi Hs|i v s' Hi Hs|i v s' Hi Hs|s' Hs];
        [by eapply sub_after|by eapply work_after|exact (coord_after _ _ _ _ Hl HA Hi Hs)|exact (end_after _ _ _ _ Hl HA Hi Hs)|].
      destruct HA as [A1 A2 A3 A4]. destruct Hs; (split; [done|by destruct A2|by destruct A3|]);
        (destruct A4 as [[]|[]]; [left|right]; done).
Qed.
End protocol.
