(* ===== verification/ParWords.v ===== *)
(** * The headers while the workers run

    The links do not change; the other word of an object is a count with the
    collecting flag, or marks it as reachable. *)

From stdpp Require Import base list gmap numbers strings.
From S2P Require Import Prelude GcHead GcDeduce GcLinks GcLists GcSpec GcRefs ParDefs.

Section words.
Context {E : Type} {lay : GcLayout} {api : GcApi E}.
Variable fin : Z -> bool.
Variable base : Z.
Variable l : list Z.
(** The headers at the start. *)
Variable hs0 : gmap Z gchead.
Implicit Types (hs : gmap Z gchead) (r : Z -> Z) (mk : gset Z).

Definition mark_word r mk (p x : Z) : Z :=
  if decide (x ∈ mk) then refs_word 1 false (fin x) else refs_word (r x) true (fin x).
Record HeadsOk r mk hs : Prop := {
  ho_list : glist hs (mark_word r mk) base l;
  ho_agree : agree_off l hs0 hs;
  ho_refs : ∀ x, x ∈ l -> 0 <= r x < 2 ^ 62
}.
Lemma heads_lookup r mk hs x : HeadsOk r mk hs -> x ∈ l -> ∃ n, hs !! x = Some (GCHead n (mark_word r mk 0 x)).
Proof. intros [[_ H _ _] _ _] Hx. destruct (seg_lookup _ _ _ _ _ _ _ H Hx) as (n & p & Hl & _). by eexists. Qed.
Lemma heads_quiet r mk hs x : HeadsOk r mk hs -> quiet hs0 x -> x ∉ l -> quiet hs x.
Proof. intros [_ H _] Hq Hx. by eapply quiet_agree. Qed.
(** The node after [gc]. *)
Lemma heads_next r mk hs l1 gc l2 : HeadsOk r mk hs -> l = l1 ++ gc :: l2 -> atomic_next hs gc = Some (first_of base l2).
Proof.
  intros [[_ Hs _ Hal] _ _] ->. apply seg_at in Hs. unfold atomic_next. rewrite Hs. simpl. f_equal. apply head_next_is.
  apply Forall_cons in Hal as [Hb Hal]. apply Forall_app in Hal as [_ [_ Hal]%Forall_cons]. by apply aligned_first.
Qed.

Lemma word_collecting n c f : negb (Z.land (refs_word n c f) PREV_MASK_COLLECTING =? 0) = c.
Proof. rewrite collecting_is. unfold refs_word. rewrite word_land_2 by done. by destruct c. Qed.
Lemma word_finalized n c f : negb (Z.land (refs_word n c f) PREV_MASK_FINALIZED =? 0) = f.
Proof. rewrite finalized_is. unfold refs_word. rewrite word_land_1 by done. by destruct f. Qed.
Lemma word_refs n c f : Z.shiftr (refs_word n c f) PREV_SHIFT = n.
Proof.
  rewrite prev_shift_is, Z.shiftr_div_pow2 by lia. change (2 ^ 2) with 4. unfold refs_word. rewrite word_div by auto.
  by rewrite (Z.mul_comm 4), Z.div_mul.
Qed.

(** Writing a word of the list. *)
Lemma heads_write r mk r' mk' hs x v : HeadsOk r mk hs -> x ∈ l -> v = mark_word r' mk' 0 x ->
  (∀ y, y ∈ l -> y ≠ x -> mark_word r' mk' 0 y = mark_word r mk 0 y) -> (∀ y, y ∈ l -> 0 <= r' y < 2 ^ 62) ->
  ∃ hs', atomic_set_prev hs x v = Some hs' ∧ HeadsOk r' mk' hs'.
Proof.
  intros HO Hx -> Hy Hr. destruct (heads_lookup _ _ _ _ HO Hx) as (n & Hl). destruct HO as [[H1 H2 H3 H4] Ha _].
  unfold atomic_set_prev. rewrite Hl. simpl. eexists. split; [done|]. split; [split; [| |done|done]| |done].
  - rewrite lookup_insert_ne; [done|]. apply NoDup_cons in H3 as [? _]. by intros ->.
  - eapply seg_update; [exact H2|exact Hl|done|]. intros p y Hyl Hyx. by apply Hy.
  - eapply agree_trans; [exact Ha|]. by apply agree_insert.
Qed.
Lemma heads_decref r mk hs x : HeadsOk r mk hs -> x ∈ l -> x ∉ mk -> 0 < r x ->
  ∃ hs', Ci_gc_decref_atomic hs x = Some hs' ∧ HeadsOk (λ y, if decide (y = x) then r y - 1 else r y) mk hs'.
Proof.
  intros HO Hx Hm Hr. pose proof (ho_refs _ _ _ HO) as Hb. destruct (heads_lookup _ _ _ _ HO Hx) as (n & Hl).
  unfold Ci_gc_decref_atomic, atomic_prev. rewrite Hl. simpl. eapply heads_write; [exact HO|done|..].
  - unfold mark_word. rewrite !decide_False by done. rewrite decide_True by done. rewrite prev_shift_is. change (Z.shiftl 1 2) with 4.
    replace (refs_word (r x) true (fin x) - 4) with (refs_word (r x - 1) true (fin x)) by (unfold refs_word; lia).
    specialize (Hb x Hx). by rewrite size_t_small by (apply refs_word_range; lia).
  - intros y Hy Hne. unfold mark_word. by rewrite (decide_False (P := y = x)).
  - intros y Hy. specialize (Hb y Hy). case_decide as He; [subst y|]; lia.
Qed.
Lemma heads_mark r mk hs x : HeadsOk r mk hs -> x ∈ l ->
  ∃ hs', Ci_gc_mark_reachable_and_clear_collecting_atomic hs x (fin x) = Some hs' ∧ HeadsOk r ({[x]} ∪ mk) hs'.
Proof.
  intros HO Hx. eapply heads_write; [exact HO|done|..|apply HO].
  - unfold mark_word. rewrite decide_True by set_solver. rewrite prev_shift_is. by destruct (fin x).
  - intros y Hy Hne. unfold mark_word. destruct (decide (y ∈ mk)); [rewrite decide_True by set_solver|rewrite decide_False by set_solver]; done.
Qed.
(** What the reads answer. *)
Lemma heads_collecting r mk hs x : HeadsOk r mk hs -> x ∈ l ∨ quiet hs0 x ->
  Ci_gc_is_collecting_atomic hs x = Some (bool_decide (x ∈ l ∧ x ∉ mk)).
Proof.
  intros HO Hx. unfold Ci_gc_is_collecting_atomic, atomic_prev. destruct (decide (x ∈ l)) as [Hl|Hl].
  - destruct (heads_lookup _ _ _ _ HO Hl) as (n & ->). simpl. f_equal. unfold mark_word.
    destruct (decide (x ∈ mk)); rewrite word_collecting; [rewrite bool_decide_false by tauto|rewrite bool_decide_true by tauto]; done.
  - destruct Hx as [?|Hq]; [done|]. destruct (heads_quiet _ _ _ _ HO Hq Hl) as (n & p & f & -> & Hp). simpl. f_equal.
    rewrite collecting_is, word_land_2 by done. by rewrite bool_decide_false by tauto.
Qed.
Lemma heads_collecting_finalized r mk hs x : HeadsOk r mk hs -> x ∈ l ∨ quiet hs0 x ->
  ∃ f, Ci_gc_get_collecting_and_finalized_atomic hs x = Some (bool_decide (x ∈ l ∧ x ∉ mk), f) ∧ (x ∈ l -> f = fin x).
Proof.
  intros HO Hx. pose proof (heads_collecting _ _ _ _ HO Hx) as Hc.
  unfold Ci_gc_is_collecting_atomic, Ci_gc_get_collecting_and_finalized_atomic, atomic_prev in *.
  destruct (hs !! x) as [[n v]|] eqn:Hl; [|done]. simpl in *. injection Hc as ->. eexists. split; [done|]. intros Hx'.
  destruct (heads_lookup _ _ _ _ HO Hx') as (n' & Hl'). rewrite Hl in Hl'. injection Hl' as -> ->. unfold mark_word.
  case_decide; apply word_finalized.
Qed.
Lemma heads_root r mk hs x : HeadsOk r mk hs -> x ∈ l ->
  Ci_gc_is_collecting_and_reachable_atomic hs x = Some (bool_decide (x ∉ mk ∧ 0 < r x), fin x).
Proof.
  intros HO Hx. pose proof (ho_refs _ _ _ HO x Hx) as Hr. destruct (heads_lookup _ _ _ _ HO Hx) as (n & Hl).
  unfold Ci_gc_is_collecting_and_reachable_atomic, atomic_prev. rewrite Hl. simpl. unfold mark_word.
  destruct (decide (x ∈ mk)); rewrite word_refs, word_collecting, word_finalized; do 2 f_equal.
  - rewrite andb_false_r. by rewrite bool_decide_false by tauto.
  - rewrite andb_true_r. destruct (Z.eqb_spec (r x) 0); [rewrite bool_decide_false by lia|rewrite bool_decide_true by (split; [done|lia])]; done.
Qed.
End words.
