(* ===== verification/ParRefine.v ===== *)
(** * The workers implement the marking protocol

    How the state of [ParDefs] represents a state of [ParSpec]: what every point
    of a worker means, with the invariant of its deque, the words of the
    headers as counts and marks. *)

From stdpp Require Import base list gmap numbers strings relations.
From S2P Require Import Prelude WsDeque WsDequeInv WsDequeSpec GcHead GcDeduce GcLinks GcLists GcSpec GcRefs ParDefs.
From S2P Require Import ParSpec ParProtocol ParWords.

Section refine.
Context {E : Type} {lay : GcLayout} {api : GcApi E}.
Variable w : E.
Variable fin : Z -> bool.
Variable base : Z.
Variable l : list Z.
Variable slices : list (list Z).
Variable hs0 : gmap Z gchead.
Variables e0 e1 : Z.
(** How far the indices of the deques had got before the collection. *)
Variable reach0 : nat -> Z.
Implicit Types (hs : gmap Z gchead) (s : Ci_ParGCState) (V : view) (v : wview) (i j : nat) (d : Ci_WSDeque).
Abbreviation nw := (nw slices).
Abbreviation slice := (slice slices).
Abbreviation children := (children w).
Abbreviation VInv := (VInv w l slices e0 e1).
Abbreviation vstep := (vstep w l slices).
Abbreviation HeadsOk := (HeadsOk fin base l hs0).

(** ** Representation *)

Definition hdrs (ops : list Z) : list Z := AS_GC <$> filter (λ o, PyObject_IS_GC w o = true) ops.
(** The node after the slice. *)
Definition stop i : Z := first_of base (mjoin (drop (S i) slices)).
(** What objects refer to: objects of the list, or objects that are not
    collected. *)
Definition ok_ref (c : Z) : Prop := c ∈ l ∨ quiet hs0 c.
Definition cont_rep i (k : mark_cont) (rest : list Z) : Prop :=
  match k with FromSlice gc => ∃ pre, slice i = pre ++ gc :: rest | FromQueue => rest = [] end.
Definition victim_of (start k : Z) : nat := Z.to_nat ((start + k) `mod` nw).
Inductive wrep i d : worker_pc -> wview -> Prop :=
  | rep_start : wrep i d RunStart (VSub (mjoin (children <$> slice i)))
  | rep_sub_loop pre xs : slice i = pre ++ xs -> wrep i d (SubLoop (first_of (stop i) xs)) (VSub (mjoin (children <$> xs)))
  | rep_sub_visit pre gc xs ops : slice i = pre ++ gc :: xs -> Forall ok_ref (hdrs ops) ->
      wrep i d (SubVisit gc ops) (VSub (hdrs ops ++ mjoin (children <$> xs)))
  | rep_sub_decref pre gc xs op ops : slice i = pre ++ gc :: xs -> Forall ok_ref (hdrs ops) -> AS_GC op ∈ l ->
      wrep i d (SubDecref gc op ops) (VSub (AS_GC op :: hdrs ops ++ mjoin (children <$> xs)))
  | rep_mark_arrive : wrep i d MarkArrive (VSub [])
  | rep_mark_wait e : wrep i d (MarkWait e) (VAt e)
  | rep_slice_loop pre xs : slice i = pre ++ xs -> wrep i d (SliceLoop (first_of (stop i) xs)) (VWork xs [] [])
  | rep_slice_mark pre gc xs : slice i = pre ++ gc :: xs -> 0 < external w l gc ->
      wrep i d (SliceMark gc (fin gc)) (VWork (gc :: xs) [] [])
  | rep_slice_next pre gc xs : slice i = pre ++ gc :: xs -> wrep i d (SliceNext gc) (VWork xs [] [])
  | rep_visit k rest ops : cont_rep i k rest -> Forall ok_ref (hdrs ops) -> wrep i d (Visit k ops) (VWork rest (hdrs ops) [])
  | rep_queue_mark k rest op ops : cont_rep i k rest -> Forall ok_ref (hdrs ops) -> AS_GC op ∈ l ->
      wrep i d (QueueMark k op ops (fin (AS_GC op))) (VWork rest (AS_GC op :: hdrs ops) [])
  | rep_queue_push k rest ops dpc c : cont_rep i k rest -> Forall ok_ref (hdrs ops) -> is_push dpc = true ->
      hand d dpc = [FROM_GC c] -> wrep i d (QueuePush k ops dpc) (VWork rest (hdrs ops) [c])
  | rep_taking dpc its : is_take dpc = true -> hand d dpc = FROM_GC <$> its -> wrep i d (Taking dpc) (VWork [] [] its)
  | rep_steal_pick : wrep i d StealPick VIdle
  | rep_steal_loop start k : wrep i d (StealLoop start k) VIdle
  | rep_stealing start k dpc : is_steal dpc = true -> victim_of start k ≠ i -> wrep i d (Stealing start k dpc) VIdle
  | rep_take_coord : wrep i d TakeCoordinator VIdle
  | rep_coord_load : wrep i d CoordLoad (VCoord CLoad)
  | rep_coord_finish n : wrep i d (CoordFinish n) (VCoord (CFinish n))
  | rep_coord_post_all n : wrep i d (CoordPostAll n) (VCoord (CPostAll n))
  | rep_coord_size n k a : 0 <= k -> wrep i d (CoordSize n k a) (VCoord (CRead n))
  | rep_coord_sizing n k a dpc : 0 <= k < nw -> is_size dpc = true -> wrep i d (CoordSizing n k a dpc) (VCoord (CRead n))
  | rep_coord_wake k : wrep i d (CoordWake k) (VCoord (CWake k))
  | rep_coord_post k : wrep i d (CoordPost k) (VCoord (CPost k))
  | rep_drop : wrep i d DropCoordinator (VCoord CDrop)
  | rep_wait_sub : wrep i d WaitSub VWaitSub
  | rep_sema : wrep i d SemaWait VSema
  | rep_check : wrep i d LoopCheck VCheck
  | rep_done_arrive : wrep i d DoneArrive VDoneArr
  | rep_done_wait e : wrep i d (DoneWait e) (VDoneAt e)
  | rep_end : wrep i d RunEnd VEnd
  | rep_done : wrep i d WorkerDone VEnd.
(** Where a worker is on its own deque. *)
Definition own (pc : worker_pc) : owner := match pc with QueuePush _ _ dpc | Taking dpc => Some dpc | _ => None end.
(** A worker pushes an object at most once. *)
Definition pushed_ok V i d (pc : worker_pc) : Prop :=
  ∃ ps, NoDup ps ∧ (∀ x, x ∈ ps -> x ∈ v_marked V) ∧ reach d (own pc) <= reach0 i + Zlen ps ∧
    match pc with QueueMark _ op _ _ => AS_GC op ∉ ps | _ => True end.
Record worker_ok V i (wk : Ci_ParGCWorker) : Prop := {
  wo_slice : gc_slice wk = GCSlice (first_of (stop i) (slice i)) (stop i);
  wo_view : ∃ v, v_ws V !! i = Some v ∧ wrep i (deque wk) (w_pc wk) v;
  wo_queue : ∃ q, v_qs V !! i = Some q ∧ content (deque wk) (own (w_pc wk)) = FROM_GC <$> q;
  wo_deque : DInv (deque wk) (own (w_pc wk));
  wo_pushed : pushed_ok V i (deque wk) (w_pc wk)
}.
Record Globals s (m : main_pc) V : Prop := {
  gl_barrier : mark_barrier s = v_barrier V;
  gl_marking : num_workers_marking s = v_marking V;
  gl_coord : steal_coordinator s = v_coord V;
  gl_sema : steal_sema s = v_sema V;
  gl_done : done_barrier s = v_done V;
  gl_main : m = v_main V
}.
Record Rep s hs (m : main_pc) V : Prop := {
  rp_inv : VInv V;
  rp_heads : HeadsOk (v_refs V) (v_marked V) hs;
  rp_globals : Globals s m V;
  rp_len : Zlen (workers s) = nw;
  rp_workers : ∀ i wk, workers s !! i = Some wk -> worker_ok V i wk;
  rp_thieves : ∀ i wk start k dpc vk, workers s !! i = Some wk -> w_pc wk = Stealing start k dpc ->
    workers s !! victim_of start k = Some vk -> thief_ok (deque vk) (own (w_pc vk)) dpc
}.

Hypothesis workers_range : 1 <= nw < 2 ^ 31.
Hypothesis epochs : 0 <= e0 < 2 ^ 32 ∧ 0 <= e1 < 2 ^ 32.
Hypothesis slices_join : mjoin slices = l.
Hypothesis external_range : ∀ x, x ∈ l -> 0 <= external w l x < 2 ^ 62.
Hypothesis outside : ∀ x y, x ∈ l -> y ∈ children x -> ok_ref y.
Hypothesis objects_range : Zlen l < 2 ^ 31.
Hypothesis reach0_range : ∀ i, reach0 i <= 2 ^ 62.

(** ** Slices *)

Lemma slice_split i : (i < length slices)%nat -> l = mjoin (take i slices) ++ slice i ++ mjoin (drop (S i) slices).
Proof.
  intros Hi. apply lookup_lt_is_Some in Hi as [xs Hxs]. unfold ParSpec.slice. rewrite Hxs. simpl.
  rewrite <- slices_join. rewrite <- (take_drop_middle _ _ _ Hxs) at 1. by rewrite join_app.
Qed.
Lemma slice_in i x : x ∈ slice i -> x ∈ l.
Proof. intros Hx. rewrite (slice_split i) by (by eapply slice_elem). set_solver. Qed.
Lemma slices_all x : x ∈ l <-> ∃ i, x ∈ slice i.
Proof.
  split; [|intros [i Hi]; by eapply slice_in]. rewrite <- slices_join. intros (xs & Hx & Hxs)%list_elem_of_join.
  apply list_elem_of_lookup in Hxs as [i Hi]. exists i. unfold ParSpec.slice. by rewrite Hi.
Qed.
Lemma slice_at i pre gc xs : slice i = pre ++ gc :: xs -> gc ∈ slice i.
Proof. intros ->. set_solver. Qed.
Lemma slice_next r mk hs i pre gc xs : HeadsOk r mk hs -> slice i = pre ++ gc :: xs ->
  atomic_next hs gc = Some (first_of (stop i) xs).
Proof.
  intros HO Hs. pose proof (slice_split i) as Hl. rewrite Hs in Hl.
  rewrite (heads_next fin base l hs0 r mk hs (mjoin (take i slices) ++ pre) gc (xs ++ mjoin (drop (S i) slices)) HO).
  - by rewrite first_of_app.
  - rewrite Hl by (eapply slice_elem, slice_at, Hs). by rewrite <- !app_assoc.
Qed.
Lemma slice_not_stop r mk hs i x : HeadsOk r mk hs -> x ∈ slice i -> x ≠ stop i.
Proof.
  intros HO Hx. pose proof (gl_nodup _ _ _ _ (ho_list _ _ _ _ _ _ _ HO)) as Hnd. apply NoDup_cons in Hnd as [Hb Hnd].
  pose proof (slice_split i ltac:(by eapply slice_elem)) as Hl. unfold stop.
  destruct (first_of_elem base (mjoin (drop (S i) slices))) as [->|Hf]; [intros ->; by eapply Hb, slice_in|].
  intros ->. rewrite Hl in Hnd. apply NoDup_app in Hnd as (_ & _ & (_ & Hd & _)%NoDup_app). by eapply Hd.
Qed.
Lemma children_hdrs x : children x = hdrs (traversal w (FROM_GC x)).
Proof. done. Qed.
Lemma children_ok x : x ∈ l -> Forall ok_ref (hdrs (traversal w (FROM_GC x))).
Proof. intros Hx. apply Forall_forall. intros y Hy. by eapply outside. Qed.
Lemma from_as_gc o : FROM_GC (AS_GC o) = o.
Proof. unfold FROM_GC, AS_GC. lia. Qed.
Lemma as_from_gc g : AS_GC (FROM_GC g) = g.
Proof. unfold FROM_GC, AS_GC. lia. Qed.
Lemma hdrs_cons op ops : hdrs (op :: ops) = if PyObject_IS_GC w op then AS_GC op :: hdrs ops else hdrs ops.
Proof. unfold hdrs. rewrite filter_cons. by destruct (PyObject_IS_GC w op). Qed.

(** ** Updates *)

Lemma alter_insert {A} (f : A -> A) (k : list A) i x : k !! i = Some x -> alter f i k = <[i := f x]> k.
Proof.
  revert i. induction k as [|y k IH]; intros [|i]; intros Hi; simplify_eq/=; [done|]. f_equal. by apply IH.
Qed.
(** Worker [i] changes itself, its own deque and the headers. *)
Lemma rep_update s hs m V s' hs' m' V' i wk wk' : Rep s hs m V -> workers s !! i = Some wk ->
  workers s' = <[i := wk']> (workers s) -> rtc vstep V V' -> HeadsOk (v_refs V') (v_marked V') hs' ->
  Globals s' m' V' ->
  (∀ j, j ≠ i -> v_ws V' !! j = v_ws V !! j) -> (∀ j, j ≠ i -> v_qs V' !! j = v_qs V !! j) -> v_marked V ⊆ v_marked V' ->
  worker_ok V' i wk' -> unnoticed (deque wk) (own (w_pc wk)) (deque wk') (own (w_pc wk')) ->
  (∀ start k dpc vk, w_pc wk' = Stealing start k dpc -> victim_of start k ≠ i -> workers s !! victim_of start k = Some vk ->
     thief_ok (deque vk) (own (w_pc vk)) dpc) ->
  Rep s' hs' m' V'.
Proof.
  intros [R1 R2 R3 R9 R10 R11] Hi Hw Hst Hh' HG Hws Hqs Hmk Hok Hun Hth.
  split; try done.
  - eapply (rtc_preserves vstep VInv); [|exact Hst|exact R1]. intros U U2 HS HU.
    eapply vstep_inv; [exact workers_range|exact epochs|exact slices_all|exact external_range|exact HU|exact HS].
  - by rewrite Hw, Zlen_insert.
  - rewrite Hw. intros j wj Hj. apply list_lookup_insert_Some in Hj as [(-> & -> & _)|[Hji Hj]]; [done|].
    destruct (R10 j wj Hj) as [W1 W2 W3 W4 (ps & P1 & P2 & P3 & P4)].
    split; rewrite ?Hws, ?Hqs by done; try done. exists ps. split_and!; [done| |done|done]. auto.
  - rewrite Hw. intros j wj start k dpc vk Hj Hpc Hv.
    assert (Hne : victim_of start k ≠ j).
    { apply list_lookup_insert_Some in Hj as [(-> & -> & _)|[Hji Hj]].
      - destruct (wo_view _ _ _ Hok) as (v & _ & Hr). rewrite Hpc in Hr. by inversion Hr.
      - destruct (wo_view _ _ _ (R10 _ _ Hj)) as (v & _ & Hr). rewrite Hpc in Hr. by inversion Hr. }
    apply list_lookup_insert_Some in Hj as [(-> & -> & _)|[Hji Hj]].
    + rewrite list_lookup_insert_ne in Hv by done. by eapply Hth.
    + apply list_lookup_insert_Some in Hv as [(-> & -> & _)|[Hvi Hv]]; [|exact (R11 _ _ _ _ _ _ Hj Hpc Hv)].
      eapply thief_stable; [exact Hun|]. by eapply R11.
Qed.

(** A step that leaves the deques alone. *)
Definition plain_pc (pc : worker_pc) : Prop :=
  match pc with QueueMark _ _ _ _ | QueuePush _ _ _ | Taking _ | Stealing _ _ _ => False | _ => True end.
Lemma workers_goto i pc s wk : workers s !! i = Some wk -> workers (goto i pc s) = <[i := worker_goto pc wk]> (workers s).
Proof. intros Hi. apply (alter_insert (worker_goto pc)), Hi. Qed.
Lemma globals_goto i pc s m V : Globals s m V -> Globals (goto i pc s) m V.
Proof. by intros []. Qed.
Lemma rep_goto s hs m V s0 i wk pc' hs' V' v' : Rep s hs m V -> workers s !! i = Some wk -> workers s0 = workers s ->
  own (w_pc wk) = None -> plain_pc pc' -> rtc vstep V V' -> v_ws V' = <[i := v']> (v_ws V) -> v_qs V' = v_qs V ->
  v_marked V ⊆ v_marked V' -> wrep i (deque wk) pc' v' -> HeadsOk (v_refs V') (v_marked V') hs' -> Globals s0 m V' ->
  Rep (goto i pc' s0) hs' m V'.
Proof.
  intros HR Hi Hw Ho Hp Hst Hws Hqs Hmk Hv Hh HG. pose proof (rp_workers _ _ _ _ HR _ _ Hi) as [W1 W2 W3 W4 (ps & P1 & P2 & P3 & _)].
  assert (Ho' : own pc' = None) by (by destruct pc'). destruct W2 as (v & Hvi & _). pose proof (lookup_lt_Some _ _ _ Hvi) as Hlt.
  eapply (rep_update s hs m V _ _ _ _ i wk (worker_goto pc' wk)); [exact HR|exact Hi| |exact Hst|exact Hh|by apply globals_goto|..].
  - rewrite (workers_goto _ _ _ wk) by (by rewrite Hw). by rewrite Hw.
  - intros j Hj. by rewrite Hws, list_lookup_insert_ne.
  - intros j Hj. by rewrite Hqs.
  - done.
  - rewrite Ho in *. split; simpl; rewrite ?Ho'; try done.
    + exists v'. rewrite Hws, list_lookup_insert_eq by done. done.
    + by rewrite Hqs.
    + exists ps. rewrite Ho'. split_and!; [done|auto|done|by destruct pc'].
  - simpl. rewrite Ho, Ho'. by apply unnoticed_same.
  - simpl. intros start k dpc vk ->. done.
Qed.
(** A step that the protocol does not see. *)
Lemma rep_stutter s hs m V i wk pc' v : Rep s hs m V -> workers s !! i = Some wk -> v_ws V !! i = Some v ->
  own (w_pc wk) = None -> plain_pc pc' -> wrep i (deque wk) pc' v -> Rep (goto i pc' s) hs m V.
Proof.
  intros HR Hi Hv Ho Hp Hw. eapply rep_goto; [exact HR|exact Hi|done|done|done|apply rtc_refl| |done|done|exact Hw|apply HR|apply HR].
  by rewrite list_insert_id.
Qed.
(** What a step of worker [i] comes to. *)
Definition Stepped s hs m V i rand : Prop :=
  ∃ s' hs' V', worker_step w s hs i rand = Some (s', hs') ∧ rtc vstep V V' ∧ Rep s' hs' m V'.
Lemma stepped_stutter s hs m V i rand wk pc' v : Rep s hs m V -> workers s !! i = Some wk -> v_ws V !! i = Some v ->
  worker_step w s hs i rand = Some (goto i pc' s, hs) ->
  own (w_pc wk) = None -> plain_pc pc' -> wrep i (deque wk) pc' v -> Stepped s hs m V i rand.
Proof.
  intros HR Hi Hv Hs Ho Hp Hw. eexists _, _, V. split; [exact Hs|]. split; [apply rtc_refl|]. by eapply rep_stutter.
Qed.
Lemma stepped_goto s hs m V i rand wk s0 pc' hs' V' v' : Rep s hs m V -> workers s !! i = Some wk ->
  worker_step w s hs i rand = Some (goto i pc' s0, hs') -> vstep V V' -> workers s0 = workers s ->
  own (w_pc wk) = None -> plain_pc pc' -> v_ws V' = <[i := v']> (v_ws V) -> v_qs V' = v_qs V ->
  v_marked V ⊆ v_marked V' -> wrep i (deque wk) pc' v' -> HeadsOk (v_refs V') (v_marked V') hs' -> Globals s0 m V' ->
  Stepped s hs m V i rand.
Proof.
  intros HR Hi Hs Hst. intros. eexists _, _, V'. split; [exact Hs|]. split; [by apply rtc_once|].
  eapply rep_goto; eauto. by apply rtc_once.
Qed.

Ltac globals := match goal with H : Globals _ _ _ |- Globals _ _ _ => by destruct H end.

(** ** Subtracting *)

Lemma sub_phase V i t : VInv V -> v_ws V !! i = Some (VSub t) -> v_marked V = ∅ ∧
  ∀ x, x ∈ l -> external w l x + count x t <= v_refs V x.
Proof.
  intros [_ _ _ [HB|HA]] Hi.
  - split; [apply HB|]. intros x Hx. destruct (be_refs _ _ _ _ _ HB x Hx) as [-> _].
    pose proof (zsum_ge (λ v, count x (todo_of v)) (v_ws V) i _ ltac:(intros; apply count_nonneg) Hi). simpl in *. lia.
  - destruct (after_ws _ _ _ _ _ _ _ HA Hi); done.
Qed.
Lemma subtract_ok s hs m V i rand wk v : Rep s hs m V -> workers s !! i = Some wk -> v_ws V !! i = Some v ->
  wrep i (deque wk) (w_pc wk) v -> match v with VSub _ | VAt _ => True | _ => False end ->
  worker_waits s (w_pc wk) = false -> Stepped s hs m V i rand.
Proof.
  intros HR Hi Hv Hw Hk Hwait. pose proof (rp_workers _ _ _ _ HR _ _ Hi) as [W1 W2 W3 W4 W5].
  pose proof (rp_inv _ _ _ _ HR) as HV. pose proof (rp_heads _ _ _ _ HR) as HO. pose proof (rp_globals _ _ _ _ HR) as HG.
  assert (Hstep : worker_step w s hs i rand = subtract_step w s hs i wk).
  { unfold worker_step. rewrite Hi. simpl. by destruct Hw. }
  unfold subtract_step in Hstep. destruct wk as [sl d pc]. simpl in *. subst sl.
  destruct Hw as [|pre xs Hs|pre gc xs ops Hs Hops|pre gc xs op ops Hs Hops Hop| |e| | | | | | | | | | | | | | | | | | | | | | | | | | ]; try done.
  - eexists _, _, V. split; [exact Hstep|]. split; [apply rtc_refl|].
    eapply rep_goto; [exact HR|exact Hi|done|done|done|apply rtc_refl| |done|done|by apply (rep_sub_loop i d [])|done|].
    + by rewrite list_insert_id.
    + by destruct HG.
  - destruct xs as [|x xs].
    + rewrite Z.eqb_refl in Hstep. eapply stepped_stutter; [exact HR|exact Hi|exact Hv|exact Hstep|done|done|]. constructor.
    + simpl in Hstep. pose proof (slice_at _ _ _ _ Hs) as Hx. rewrite (proj2 (Z.eqb_neq _ _)) in Hstep by (by eapply slice_not_stop).
      eapply stepped_stutter; [exact HR|exact Hi|exact Hv|exact Hstep|done|done|].
      eapply rep_sub_visit; [exact Hs|]. by eapply children_ok, slice_in.
  - destruct (sub_phase _ _ _ HV Hv) as [Hm Hr]. destruct ops as [|op ops].
    + rewrite (slice_next _ _ _ _ _ _ _ HO Hs) in Hstep. simpl in Hstep.
      eapply stepped_stutter; [exact HR|exact Hi|exact Hv|exact Hstep|done|done|].
      apply (rep_sub_loop i d (pre ++ [gc])). by rewrite <- app_assoc.
    + rewrite hdrs_cons in Hv, Hops, Hr. destruct (PyObject_IS_GC w op) eqn:Hgc.
      2:{ eapply stepped_stutter; [exact HR|exact Hi|exact Hv|exact Hstep|done|done|]. by eapply rep_sub_visit. }
      apply Forall_cons in Hops as [Hop Hops]. rewrite (heads_collecting _ _ _ _ _ _ _ _ HO Hop) in Hstep. simpl in Hstep.
      case_bool_decide as Hc; simpl in Hstep.
      * eapply stepped_stutter; [exact HR|exact Hi|exact Hv|exact Hstep|done|done|]. eapply rep_sub_decref; [exact Hs|done|apply Hc].
      * eapply stepped_goto; [exact HR|exact Hi|exact Hstep|eapply vstep_sub; [exact Hv|apply sub_skip]|..]; try done; try globals.
        { intros Hl. apply Hc. split; [done|]. by rewrite Hm. }
        by eapply rep_sub_visit.
  - destruct (sub_phase _ _ _ HV Hv) as [Hm Hr]. specialize (Hr _ Hop). rewrite count_cons, decide_True in Hr by done.
    pose proof (external_range _ Hop). pose proof (count_nonneg (AS_GC op) (hdrs ops ++ mjoin (children <$> xs))).
    destruct (heads_decref _ _ _ _ _ _ _ (AS_GC op) HO Hop) as (hs' & Hd & HO'); [by rewrite Hm|lia|].
    rewrite Hd in Hstep. simpl in Hstep.
    eapply stepped_goto; [exact HR|exact Hi|exact Hstep|eapply vstep_sub; [exact Hv|by apply sub_dec]|..]; try done; try globals.
    by eapply rep_sub_visit.
  - rewrite (gl_barrier _ _ _ HG) in Hstep. destruct (Ci_Barrier_Wait (v_barrier V)) as [b [e|]] eqn:Hb.
    + eapply stepped_goto; [exact HR|exact Hi|exact Hstep|eapply vstep_sub; [exact Hv|by apply sub_arrive]|..]; try done; try globals.
      constructor.
    + eapply stepped_goto; [exact HR|exact Hi|exact Hstep|eapply vstep_sub; [exact Hv|by apply sub_last]|..]; try done; try globals.
      by apply (rep_slice_loop i d []).
  - simpl in Hwait. rewrite Hwait in Hstep. apply Z.eqb_neq in Hwait. rewrite (gl_barrier _ _ _ HG) in Hwait.
    eapply stepped_goto; [exact HR|exact Hi|exact Hstep|eapply vstep_sub; [exact Hv|by apply sub_lifted]|..]; try done; try globals.
    by apply (rep_slice_loop i d []).
Qed.

(** ** Operations on the own deque *)

(** An operation starts. *)
Lemma rep_enter s hs m V s0 i wk pc' dpc hs' V' v' : Rep s hs m V -> workers s !! i = Some wk -> workers s0 = workers s ->
  own (w_pc wk) = None -> own pc' = Some dpc -> rtc vstep V V' -> v_ws V' = <[i := v']> (v_ws V) -> v_qs V' = v_qs V ->
  v_marked V ⊆ v_marked V' -> wrep i (deque wk) pc' v' -> HeadsOk (v_refs V') (v_marked V') hs' -> Globals s0 m V' ->
  DInv (deque wk) (Some dpc) -> content (deque wk) (Some dpc) = content (deque wk) None ->
  unnoticed (deque wk) None (deque wk) (Some dpc) -> pushed_ok V' i (deque wk) pc' -> Rep (goto i pc' s0) hs' m V'.
Proof.
  intros HR Hi Hw Ho Ho' Hst Hws Hqs Hmk Hv Hh HG HD Hc Hun Hp.
  pose proof (rp_workers _ _ _ _ HR _ _ Hi) as [W1 (v & Hvi & _) W3 W4 W5]. pose proof (lookup_lt_Some _ _ _ Hvi) as Hlt.
  eapply (rep_update s hs m V _ _ _ _ i wk (worker_goto pc' wk)); [exact HR|exact Hi| |exact Hst|exact Hh|by apply globals_goto|..].
  - rewrite (workers_goto _ _ _ wk) by (by rewrite Hw). by rewrite Hw.
  - intros j Hj. by rewrite Hws, list_lookup_insert_ne.
  - intros j Hj. by rewrite Hqs.
  - done.
  - rewrite Ho in *. split; simpl; rewrite ?Ho'; try done.
    + exists v'. rewrite Hws, list_lookup_insert_eq by done. done.
    + by rewrite Hqs, Hc.
  - simpl. by rewrite Ho, Ho'.
  - simpl. intros start k x vk ->. done.
Qed.
Lemma take_start d : DInv d None -> DInv d (Some Ci_WSDeque_Take) ∧ content d (Some Ci_WSDeque_Take) = content d None ∧
  unnoticed d None d (Some Ci_WSDeque_Take).
Proof. intros [H1 H2 H3 H4 H5 H6]. split_and!; [by split|done|by apply unnoticed_same]. Qed.
Lemma push_start d x : DInv d None -> bot d + 1 < 2 ^ 63 -> x ≠ 0 -> DInv d (Some (Ci_WSDeque_Push x)) ∧
  content d (Some (Ci_WSDeque_Push x)) = content d None ∧ unnoticed d None d (Some (Ci_WSDeque_Push x)).
Proof. intros [H1 H2 H3 H4 H5 H6] Hb Hx. split_and!; [|done|by apply unnoticed_same]. by split. Qed.
(** To [Ci_WSDeque_Take]. *)
Lemma stepped_take s hs m V i rand wk V' : Rep s hs m V -> workers s !! i = Some wk ->
  worker_step w s hs i rand = Some (goto i (Taking Ci_WSDeque_Take) s, hs) -> own (w_pc wk) = None ->
  rtc vstep V V' -> v_ws V' = <[i := VWork [] [] []]> (v_ws V) -> v_qs V' = v_qs V -> v_marked V' = v_marked V ->
  v_refs V' = v_refs V -> Globals s m V' -> Stepped s hs m V i rand.
Proof.
  intros HR Hi Hs Ho Hst Hws Hqs Hm Hr HG. pose proof (rp_workers _ _ _ _ HR _ _ Hi) as [W1 W2 W3 W4 (ps & P1 & P2 & P3 & _)].
  rewrite Ho in *. destruct (take_start _ W4) as (T1 & T2 & T3). exists (goto i (Taking Ci_WSDeque_Take) s), hs, V'.
  split; [done|]. split; [done|].
  eapply rep_enter; [exact HR|exact Hi|done|done|done|done|exact Hws|done|by rewrite Hm| | |done|exact T1|exact T2|exact T3|].
  - by apply rep_taking.
  - rewrite Hm, Hr. apply HR.
  - exists ps. rewrite Hm. split_and!; [done|done|done|done].
Qed.
(** A step of the operation. *)
Lemma rep_own s hs m V i wk pc' dpc d' nx V' v' q' : Rep s hs m V -> workers s !! i = Some wk ->
  own (w_pc wk) = Some dpc -> owner_ok (deque wk) dpc d' nx -> reach d' (next_owner nx) <= reach (deque wk) (Some dpc) ->
  own pc' = next_owner nx -> (∀ start k x, pc' ≠ Stealing start k x) -> (∀ k op ops f, pc' ≠ QueueMark k op ops f) ->
  rtc vstep V V' -> v_ws V' !! i = Some v' -> (∀ j, j ≠ i -> v_ws V' !! j = v_ws V !! j) ->
  v_qs V' !! i = Some q' -> (∀ j, j ≠ i -> v_qs V' !! j = v_qs V !! j) -> content d' (next_owner nx) = FROM_GC <$> q' ->
  v_marked V' = v_marked V -> v_refs V' = v_refs V -> wrep i d' pc' v' -> Globals s m V' ->
  Rep (goto i pc' (set_deque i d' s)) hs m V'.
Proof.
  intros HR Hi Ho [O1 O2 _ _] Hrch Ho' Hns Hnq Hst Hws Hws' Hqs Hqs' Hc Hm Hrf Hv HG.
  pose proof (rp_workers _ _ _ _ HR _ _ Hi) as [W1 W2 W3 W4 (ps & P1 & P2 & P3 & _)].
  pose proof (lookup_lt_Some _ _ _ Hi) as Hlt. rewrite Ho in *.
  eapply (rep_update s hs m V _ _ _ _ i wk (ParGCWorker (gc_slice wk) d' pc')); [exact HR|exact Hi| |exact Hst| |by destruct HG|done|done|by rewrite Hm| | |].
  - unfold goto, set_deque. simpl. rewrite (alter_insert _ (workers s) i _ Hi).
    rewrite (alter_insert _ _ i (worker_deque d' wk)) by (by apply list_lookup_insert_eq). by rewrite list_insert_insert_eq.
  - rewrite Hm, Hrf. apply HR.
  - split; simpl; rewrite ?Ho'; [done|by exists v'|by exists q'|done|].
    exists ps. rewrite Hm, Ho'. split_and!; [done|done|lia|]. destruct pc'; try done. by destruct (Hnq k op ops finalized).
  - simpl. by rewrite Ho, Ho'.
  - simpl. intros start k x vk ->. by destruct (Hns start k x).
Qed.

(** ** Marking *)

Lemma after_phase V i v : VInv V -> v_ws V !! i = Some v -> match v with VSub _ | VAt _ => False | _ => True end ->
  After w l slices e0 V.
Proof. intros [_ _ _ [HB|HA]] Hi Hv; [|done]. pose proof (be_ws _ _ _ _ _ HB _ _ Hi). by destruct v. Qed.
Lemma from_gc_nonzero r mk hs x : HeadsOk r mk hs -> x ∈ l -> FROM_GC x ≠ 0.
Proof.
  intros HO Hx. pose proof (gl_aligned _ _ _ _ (ho_list _ _ _ _ _ _ _ HO)) as Hal. rewrite Forall_forall in Hal.
  destruct (Hal x ltac:(by right)) as [? _]. unfold FROM_GC. lia.
Qed.
(** Each object is pushed at most once, so the indices stay small. *)
Lemma pushed_bound V ps : VInv V -> (∃ i v, v_ws V !! i = Some v ∧ working v = true) -> NoDup ps -> (∀ x, x ∈ ps -> x ∈ v_marked V) ->
  Zlen ps <= Zlen l.
Proof.
  intros HV (i & v & Hi & Hv) Hnd Hps. unfold Zlen. apply Nat2Z.inj_le, submseteq_length, NoDup_submseteq; [done|].
  intros x Hx%Hps. pose proof (after_phase V i v HV Hi ltac:(by destruct v)) as [_ HM _ _].
  by eapply reachable_in, (mk_sound _ _ _ _ HM).
Qed.
Lemma mark_ok s hs m V i rand wk v : Rep s hs m V -> workers s !! i = Some wk -> v_ws V !! i = Some v ->
  wrep i (deque wk) (w_pc wk) v -> own (w_pc wk) = None -> working v = true -> Stepped s hs m V i rand.
Proof.
  intros HR Hi Hv Hw Ho Hk. pose proof (rp_workers _ _ _ _ HR _ _ Hi) as [W1 W2 W3 W4 W5].
  pose proof (rp_inv _ _ _ _ HR) as HV. pose proof (rp_heads _ _ _ _ HR) as HO. pose proof (rp_globals _ _ _ _ HR) as HG.
  pose proof (after_phase V i v HV Hv ltac:(by destruct v)) as [_ HM _ _].
  assert (Hstep : worker_step w s hs i rand = mark_step w s hs i wk).
  { unfold worker_step. rewrite Hi. simpl. destruct Hw; done. }
  unfold mark_step in Hstep. destruct wk as [sl d pc]. simpl in *. subst sl.
  destruct Hw as [| | | | | |pre xs Hs|pre gc xs Hs He|pre gc xs Hs|k rest ops Hc Hops|k rest op ops Hc Hops Hop| | | | | | | | | | | | | | | | | | | | |]; try done.
  - destruct xs as [|x xs].
    { rewrite Z.eqb_refl in Hstep. eapply stepped_take; [exact HR|exact Hi|exact Hstep|done|apply rtc_refl|by rewrite list_insert_id|done..]. }
    simpl in Hstep. pose proof (slice_at _ _ _ _ Hs) as Hx. rewrite (proj2 (Z.eqb_neq _ _)) in Hstep by (by eapply slice_not_stop).
    pose proof (slice_in _ _ Hx) as Hxl. rewrite (heads_root _ _ _ _ _ _ _ _ HO Hxl) in Hstep. simpl in Hstep.
    case_bool_decide as Hr; simpl in Hstep.
    + eapply stepped_stutter; [exact HR|exact Hi|exact Hv|exact Hstep|done|done|].
      eapply rep_slice_mark; [exact Hs|]. rewrite <- (mk_refs _ _ _ _ HM) by done. apply Hr.
    + eapply stepped_goto; [exact HR|exact Hi|exact Hstep|eapply vstep_work; [exact Hv|apply work_pass]|..]; try done; try globals.
      * destruct (decide (x ∈ v_marked V)); [by left|right]. apply Z.nlt_ge. tauto.
      * by eapply rep_slice_next.
  - pose proof (slice_in _ _ (slice_at _ _ _ _ Hs)) as Hxl.
    destruct (heads_mark _ _ _ _ _ _ _ gc HO Hxl) as (hs' & Hm & HO'). rewrite Hm in Hstep. simpl in Hstep.
    eapply stepped_goto; [exact HR|exact Hi|exact Hstep|eapply vstep_work; [exact Hv|apply work_root; [done|]]|..]; try done; try globals.
    + by rewrite (mk_refs _ _ _ _ HM).
    + simpl. clear. set_solver.
    + apply rep_visit; [by exists pre|by apply children_ok].
  - rewrite (slice_next _ _ _ _ _ _ _ HO Hs) in Hstep. simpl in Hstep.
    eapply stepped_stutter; [exact HR|exact Hi|exact Hv|exact Hstep|done|done|].
    apply (rep_slice_loop i d (pre ++ [gc])). by rewrite <- app_assoc.
  - destruct ops as [|op ops].
    { destruct k as [gc|]; simpl in *.
      - destruct Hc as [pre Hc]. eapply stepped_stutter; [exact HR|exact Hi|exact Hv|exact Hstep|done|done|]. by eapply rep_slice_next.
      - subst rest. eapply stepped_take; [exact HR|exact Hi|exact Hstep|done|apply rtc_refl|by rewrite list_insert_id|done..]. }
    rewrite hdrs_cons in Hv, Hops. destruct (PyObject_IS_GC w op) eqn:Hgc.
    2:{ eapply stepped_stutter; [exact HR|exact Hi|exact Hv|exact Hstep|done|done|]. by apply rep_visit. }
    apply Forall_cons in Hops as [Hop Hops]. destruct (heads_collecting_finalized _ _ _ _ _ _ _ _ HO Hop) as (f & Hf & Hfin).
    rewrite Hf in Hstep. simpl in Hstep. case_bool_decide as Hm; simpl in Hstep.
    + eexists _, _, V. split; [exact Hstep|]. split; [apply rtc_refl|].
      destruct W5 as (ps & P1 & P2 & P3 & _).
      eapply (rep_update s hs m V _ _ _ _ i _ (worker_goto (QueueMark k op ops f) _)); [exact HR|exact Hi|by apply workers_goto|apply rtc_refl|done|by apply globals_goto|done|done|done| | |done].
      * split; simpl; [done| |done|done|].
        { eexists. split; [exact Hv|]. rewrite (Hfin (proj1 Hm)). apply rep_queue_mark; [done|done|apply Hm]. }
        exists ps. split_and!; [done|done|done|]. intros Hin%P2. by apply Hm.
      * by apply unnoticed_same.
    + eapply stepped_goto; [exact HR|exact Hi|exact Hstep|eapply vstep_work; [exact Hv|apply work_seen]|..]; try done; try globals.
      * destruct (decide (AS_GC op ∈ v_marked V)); [by left|right]. tauto.
      * by apply rep_visit.
  - destruct (heads_mark _ _ _ _ _ _ _ (AS_GC op) HO Hop) as (hs' & Hm & HO'). rewrite Hm in Hstep. simpl in Hstep.
    destruct W5 as (ps & P1 & P2 & P3 & P4).
    assert (Hlen : Zlen ps <= Zlen l) by (eapply pushed_bound; [exact HV|by eexists _, _|done|done]).
    pose proof (reach0_range i). assert (Hop0 : op ≠ 0) by (rewrite <- (from_as_gc op); by eapply from_gc_nonzero).
    unfold reach in P3. simpl in P3.
    destruct (push_start d op W4 ltac:(lia) Hop0) as (T1 & T2 & T3).
    eexists _, _, (with_w (with_marked V (AS_GC op)) i (VWork rest (hdrs ops) [AS_GC op])). split; [exact Hstep|].
    split; [apply rtc_once; eapply vstep_work; [exact Hv|by apply work_mark]|].
    eapply rep_enter; [exact HR|exact Hi|done|done|reflexivity|apply rtc_once; eapply vstep_work; [exact Hv|by apply work_mark]|
      reflexivity|done| | |exact HO'|by destruct HG|exact T1|exact T2|exact T3|].
    + simpl. clear. set_solver.
    + eapply rep_queue_push; [done|done|done|]. by rewrite from_as_gc.
    + exists (AS_GC op :: ps). split_and!; [by constructor| | |done].
      * simpl. intros x [->|Hx]%elem_of_cons; [clear; set_solver|]. apply P2 in Hx. clear -Hx. set_solver.
      * rewrite Zlen_cons. unfold reach. simpl. lia.
Qed.

(** Pushing. *)
Lemma queue_push_ok s hs m V i rand wk v k ops dpc : Rep s hs m V -> workers s !! i = Some wk -> v_ws V !! i = Some v ->
  wrep i (deque wk) (w_pc wk) v -> w_pc wk = QueuePush k ops dpc -> Stepped s hs m V i rand.
Proof.
  intros HR Hi Hv Hw Hpc. pose proof (rp_workers _ _ _ _ HR _ _ Hi) as [W1 W2 (q & Hq & Hcq) W4 W5].
  pose proof (rp_globals _ _ _ _ HR) as HG. rewrite Hpc in *. inversion Hw as [| | | | | | | | | | |k' rest ops' dpc' c Hc Hops Hpu Hh| | | | | | | | | | | | | | | | | | | |]; subst k' ops' dpc' v.
  simpl in W4, Hcq. destruct (push_step_ok _ _ W4 Hpu) as (d' & nx & Hs & Hok & Hnx).
  pose proof (reach_step _ _ _ _ W4 ltac:(by rewrite Hpu, orb_true_r) Hs) as Hrch.
  assert (Hstep : worker_step w s hs i rand =
    Some (goto i (match nx with Go dpc => QueuePush k ops dpc | Returns _ => Visit k ops end) (set_deque i d' s), hs)).
  { unfold worker_step. rewrite Hi. simpl. rewrite Hpc. unfold mark_step. rewrite Hpc, Hs. done. }
  pose proof (oo_effect _ _ _ _ Hok) as He. rewrite Hh in He. destruct nx as [dpc'|r]; simpl in *.
  - destruct He as [Hc' Hh'|x Ht|x _ _ Hx Hx'|x Ht]; [|by destruct dpc| |by destruct dpc].
    2:{ destruct (push_hand d' dpc' Hnx) as (y & Hy). congruence. }
    eexists _, _, V. split; [exact Hstep|]. split; [apply rtc_refl|].
    eapply (rep_own s hs m V i wk _ dpc d' (Go dpc')); [done|done|by rewrite Hpc|done|done|done|done|done|apply rtc_refl|exact Hv|done|exact Hq|done| |done|done| |done].
    + simpl. by rewrite Hc'.
    + by apply rep_queue_push.
  - subst r. destruct He as [Hc' Hh'|x Ht|x _ Hc' Hx Hx'|x Ht]; [done|by destruct dpc| |by destruct dpc]. injection Hx as <-.
    set (V' := with_w (with_q V i (q ++ [c])) i (VWork rest (hdrs ops) [])).
    assert (Hst : vstep V V') by (eapply vstep_work; [exact Hv|by apply work_push]).
    eexists _, _, V'. split; [exact Hstep|]. split; [by apply rtc_once|].
    eapply (rep_own s hs m V i wk _ dpc d' (Returns 0)); [done|done|by rewrite Hpc|done|done|done|done|done|by apply rtc_once|
      | | | | |done|done|by apply rep_visit|by destruct HG].
    + simpl. apply list_lookup_insert_eq. by eapply lookup_lt_Some.
    + intros j Hj. simpl. by rewrite list_lookup_insert_ne.
    + simpl. apply list_lookup_insert_eq. by eapply lookup_lt_Some.
    + intros j Hj. simpl. by rewrite list_lookup_insert_ne.
    + simpl. by rewrite Hc', Hcq, fmap_app.
Qed.
(** Taking. *)
Lemma list_snoc_fmap (q : list Z) c x : c ++ [x] = FROM_GC <$> q -> ∃ q' y, q = q' ++ [y] ∧ c = FROM_GC <$> q' ∧ x = FROM_GC y.
Proof.
  intros H. destruct q as [|y q' _] using rev_ind; [by destruct c|]. rewrite fmap_app in H. simpl in H.
  apply app_inj_2 in H as [-> [= ->]]; [|done]. by exists q', y.
Qed.
Lemma taking_ok s hs m V i rand wk v dpc : Rep s hs m V -> workers s !! i = Some wk -> v_ws V !! i = Some v ->
  wrep i (deque wk) (w_pc wk) v -> w_pc wk = Taking dpc -> Stepped s hs m V i rand.
Proof.
  intros HR Hi Hv Hw Hpc. pose proof (rp_workers _ _ _ _ HR _ _ Hi) as [W1 W2 (q & Hq & Hcq) W4 W5].
  pose proof (rp_globals _ _ _ _ HR) as HG. pose proof (rp_inv _ _ _ _ HR) as HV. rewrite Hpc in *. inversion Hw as [| | | | | | | | | | | |dpc' its Hpt Hh| | | | | | | | | | | | | | | | | | |]; subst dpc' v.
  simpl in W4, Hcq. destruct (take_step_ok _ _ W4 Hpt) as (d' & nx & Hs & Hok & Hnx).
  pose proof (reach_step _ _ _ _ W4 ltac:(by rewrite Hpt) Hs) as Hrch.
  assert (Hstep : worker_step w s hs i rand =
    Some (goto i match nx with
                 | Go dpc => Taking dpc
                 | Returns obj => if obj =? 0 then StealPick else Visit FromQueue (traversal w obj)
                 end (set_deque i d' s), hs)).
  { unfold worker_step. rewrite Hi. simpl. rewrite Hpc. unfold steal_loop_step. rewrite Hpc, Hs. done. }
  pose proof (oo_effect _ _ _ _ Hok) as He. rewrite Hh in He.
  (* what the step is for the protocol *)
  assert (Hview : ∃ q' its', rtc vstep V (with_w (with_q V i q') i (VWork [] [] its')) ∧ content d' (next_owner nx) = FROM_GC <$> q' ∧
    next_hand d' nx = FROM_GC <$> its').
  { destruct He as [Hc' Hh'|x _ Hc' Hx Hx'|x Ht|x Ht]; [| |by destruct dpc|by destruct dpc].
    - exists q, its. split; [|by rewrite Hc']. unfold with_w, with_q. simpl. rewrite (list_insert_id (v_qs V)), (list_insert_id (v_ws V)) by done.
      destruct V. apply rtc_refl.
    - rewrite Hc' in Hcq. destruct (list_snoc_fmap _ _ _ Hcq) as (q' & y & -> & Hc & ->). destruct its; [|done].
      exists q', [y]. split; [|done]. apply rtc_once. eapply vstep_work; [exact Hv|by apply work_take]. }
  destruct Hview as (q' & its' & Hst & Hc' & Hh'). set (V1 := with_w (with_q V i q') i (VWork [] [] its')) in *.
  pose proof (lookup_lt_Some _ _ _ Hv) as Hlt. pose proof (lookup_lt_Some _ _ _ Hq) as Hltq.
  assert (Hv1 : v_ws V1 !! i = Some (VWork [] [] its')) by (by apply list_lookup_insert_eq).
  assert (Hq1 : v_qs V1 !! i = Some q') by (by apply list_lookup_insert_eq).
  assert (Hov : ∀ j, j ≠ i -> v_ws V1 !! j = v_ws V !! j) by (intros j Hj; by apply list_lookup_insert_ne).
  assert (Hoq : ∀ j, j ≠ i -> v_qs V1 !! j = v_qs V !! j) by (intros j Hj; by apply list_lookup_insert_ne).
  destruct nx as [dpc'|r]; simpl in Hh', Hc'.
  - eexists _, _, V1. split; [exact Hstep|]. split; [done|].
    eapply (rep_own s hs m V i wk _ dpc d' (Go dpc')); [done|done|by rewrite Hpc|done|done|done|done|done|done|exact Hv1|done|exact Hq1|done|done|done|done| |by destruct HG].
    by apply rep_taking.
  - assert (Hend : ∃ v', vstep V1 (with_w V1 i v') ∧ ∀ d, wrep i d (if r =? 0 then StealPick else Visit FromQueue (traversal w r)) v').
    { destruct (Z.eqb_spec r 0) as [->|Hr].
      - destruct its'; [|done]. exists VIdle. split; [|constructor]. eapply vstep_work; [exact Hv1|]. apply work_dry.
        rewrite Hq1. f_equal. pose proof (oo_empty _ _ _ _ Hok Hpt eq_refl) as Hem. rewrite Hem in Hc'. by destruct q'.
      - destruct its' as [|y [|]]; try done. injection Hh' as ->. exists (VWork [] (children y) []).
        split; [eapply vstep_work; [exact Hv1|apply work_visit]|]. intros d. apply rep_visit; [done|]. apply children_ok.
        assert (HV1 : VInv V1).
        { eapply (rtc_preserves vstep VInv); [|exact Hst|exact HV]. intros U U2 HS HU. eapply vstep_inv;
            [exact workers_range|exact epochs|exact slices_all|exact external_range|exact HU|exact HS]. }
        pose proof (after_phase V1 i _ HV1 Hv1 I) as [_ HM _ _]. eapply reachable_in, (mk_sound _ _ _ _ HM), (mk_items _ _ _ _ HM).
        left. exists i, (VWork [] [] [y]). split; [done|]. by left. }
    destruct Hend as (v' & Hst' & Hw'). eexists _, _, (with_w V1 i v'). split; [exact Hstep|].
    assert (Hst2 : rtc vstep V (with_w V1 i v')) by (eapply rtc_r; [exact Hst|exact Hst']). split; [done|].
    eapply (rep_own s hs m V i wk _ dpc d' (Returns r)); [done|done|by rewrite Hpc|done|done| | | |done| | | | | |done|done|apply Hw'|by destruct HG];
      try (by destruct (r =? 0)).
    + simpl. apply list_lookup_insert_eq. by rewrite length_insert.
    + intros j Hj. simpl. rewrite list_lookup_insert_ne by done. by apply Hov.
Qed.

(** ** Stealing *)

Lemma wrep_hand i d d' pc v : (∀ dpc, hand d' dpc = hand d dpc) -> wrep i d pc v -> wrep i d' pc v.
Proof. intros H []; try (by econstructor; eauto); [eapply rep_queue_push|eapply rep_taking]; rewrite ?H; eauto. Qed.

Lemma rep_steal s hs m V i wk vk start k dpc d' nx pc' V' v' q' : let j := victim_of start k in
  Rep s hs m V -> workers s !! i = Some wk -> w_pc wk = Stealing start k dpc -> is_steal dpc = true ->
  workers s !! j = Some vk -> j ≠ i -> dq_step (deque vk) dpc = Some (d', nx) ->
  steal_ok (deque vk) (own (w_pc vk)) dpc d' nx -> match nx with Go dpc' => pc' = Stealing start k dpc' | Returns _ => plain_pc pc' end ->
  rtc vstep V V' -> v_ws V' = <[i := v']> (v_ws V) -> v_qs V' !! j = Some q' -> (∀ k, k ≠ j -> v_qs V' !! k = v_qs V !! k) ->
  content d' (own (w_pc vk)) = FROM_GC <$> q' -> v_marked V' = v_marked V -> v_refs V' = v_refs V ->
  wrep i (deque wk) pc' v' -> Globals s m V' -> Rep (goto i pc' (set_deque j d' s)) hs m V'.
Proof.
  intros j HR Hi Hpc Hk Hj Hji Hs [S1 S2 S3 S4 S5] Hnx Hst Hws Hq Hqs Hc Hm Hrf Hv HG.
  pose proof HR as [R1 R2 R3 R9 R10 R11]. pose proof (lookup_lt_Some _ _ _ Hi) as Hlt.
  set (wk' := worker_goto pc' wk). set (vk' := worker_deque d' vk).
  assert (Ho : own (w_pc wk) = None) by (by rewrite Hpc). assert (Ho' : own pc' = None) by (destruct nx; [by subst|by destruct pc']).
  assert (Hws' : workers (goto i pc' (set_deque j d' s)) = <[i := wk']> (<[j := vk']> (workers s))).
  { unfold goto, set_deque. simpl. rewrite (alter_insert _ (workers s) j _ Hj).
    by rewrite (alter_insert _ _ i wk) by (by rewrite list_lookup_insert_ne). }
  assert (Hget : ∀ a b, workers (goto i pc' (set_deque j d' s)) !! a = Some b ->
    a = i ∧ b = wk' ∨ a = j ∧ b = vk' ∨ a ≠ i ∧ a ≠ j ∧ workers s !! a = Some b).
  { intros a b Hab. rewrite Hws' in Hab. apply list_lookup_insert_Some in Hab as [(<- & <- & _)|[Hai Hab]]; [by left|].
    apply list_lookup_insert_Some in Hab as [(<- & <- & _)|[Haj Hab]]; [by right; left|right; right; auto]. }
  pose proof (R10 _ _ Hi) as [A1 (va & A2 & A2') A3 A4 (ps & P1 & P2 & P3 & _)]. rewrite Ho in *.
  pose proof (R10 _ _ Hj) as [B1 (vb & B2 & B2') B3 B4 (qs & Q1 & Q2 & Q3 & Q4)].
  split; try done.
  - eapply (rtc_preserves vstep VInv); [|exact Hst|exact R1]. intros U U2 HS HU. eapply vstep_inv;
      [exact workers_range|exact epochs|exact slices_all|exact external_range|exact HU|exact HS].
  - by rewrite Hm, Hrf.
  - by destruct HG.
  - by rewrite Hws', !Zlen_insert.
  - intros a b Hab. destruct (Hget _ _ Hab) as [[-> ->]|[[-> ->]|(Hai & Haj & Hb)]].
    + split; simpl; rewrite ?Ho'; [done| |by rewrite Hqs|done|].
      * exists v'. rewrite Hws, list_lookup_insert_eq by (by eapply lookup_lt_Some). done.
      * exists ps. rewrite Hm, Ho'. split_and!; [done|done|done|]. destruct nx; [by subst|by destruct pc'].
    + split; simpl; [done| |by exists q'|done|].
      * exists vb. rewrite Hws, list_lookup_insert_ne by done. split; [done|]. by eapply wrep_hand.
      * exists qs. rewrite Hm, (reach_thief _ _ _ _ _ Hk Hs). done.
    + destruct (R10 _ _ Hb) as [W1 W2 W3 W4 W5]. split; [done|by rewrite Hws, list_lookup_insert_ne by done|by rewrite Hqs|done|].
      destruct W5 as (rs & T1 & T2 & T3 & T4). exists rs. by rewrite Hm.
  - intros a b st k2 dp vv Hab Hpb Hvv.
    assert (Hold : ∀ b0, workers s !! a = Some b0 -> w_pc b0 = Stealing st k2 dp -> thief_ok (deque vv) (own (w_pc vv)) dp).
    { intros b0 Hb0 Hpb0. destruct (Hget _ _ Hvv) as [[Hv1 ->]|[[Hv1 ->]|(Hv1 & Hv2 & Hvs)]].
      - simpl. rewrite Ho'. rewrite <- Ho. by apply (R11 a b0 st k2 dp wk); [..|rewrite Hv1].
      - simpl. eapply thief_stable; [exact S2|]. by apply (R11 a b0 st k2 dp vk); [..|rewrite Hv1].
      - by apply (R11 a b0 st k2 dp vv). }
    destruct (Hget _ _ Hab) as [[-> ->]|[[-> ->]|(Hai & Haj & Hb)]].
    + simpl in Hpb. destruct nx as [dpc'|]; [|by rewrite Hpb in Hnx]. rewrite Hnx in Hpb. injection Hpb as <- <- <-.
      fold j in Hvv. rewrite Hws', list_lookup_insert_ne, list_lookup_insert_eq in Hvv by (done || by eapply lookup_lt_Some).
      injection Hvv as <-. apply S4.
    + by eapply Hold.
    + by eapply Hold.
Qed.
Lemma stealing_ok s hs m V i rand wk v start k dpc : Rep s hs m V -> workers s !! i = Some wk -> v_ws V !! i = Some v ->
  wrep i (deque wk) (w_pc wk) v -> w_pc wk = Stealing start k dpc -> Stepped s hs m V i rand.
Proof.
  intros HR Hi Hv Hw Hpc. pose proof (rp_globals _ _ _ _ HR) as HG. pose proof (rp_inv _ _ _ _ HR) as HV.
  rewrite Hpc in Hw. inversion Hw as [| | | | | | | | | | | | | | |start' k' dpc' Hk Hne| | | | | | | | | | | | | | | |]; subst start' k' dpc' v.
  assert (Hnum : num_workers s = nw) by apply HR. set (j := victim_of start k) in *.
  assert (Hj : is_Some (workers s !! j)).
  { apply lookup_lt_is_Some. pose proof (rp_len _ _ _ _ HR) as Hl. unfold j, victim_of, Zlen in *.
    pose proof (Z.mod_pos_bound (start + k) nw ltac:(lia)). lia. }
  destruct Hj as [vk Hj]. pose proof (rp_workers _ _ _ _ HR _ _ Hj) as [B1 B2 (q & Hq & Hcq) B4 B5].
  pose proof (rp_thieves _ _ _ _ HR _ _ _ _ _ _ Hi Hpc Hj) as Hth.
  destruct (steal_step_ok _ _ _ B4 Hth Hk) as (d' & nx & Hs & Hok).
  assert (Hstep : worker_step w s hs i rand =
    Some (goto i match nx with
                 | Go dpc => Stealing start k dpc
                 | Returns obj => if obj =? 0 then StealLoop start (k + 1) else Visit FromQueue (traversal w obj)
                 end (set_deque j d' s), hs)).
  { unfold worker_step. rewrite Hi. simpl. rewrite Hpc. unfold steal_loop_step. rewrite Hpc, Hnum.
    change (Z.to_nat ((start + k) `mod` nw)) with j. rewrite Hj. simpl. by rewrite Hs. }
  pose proof (so_effect _ _ _ _ _ Hok) as He. rewrite Hcq in He. eexists _, _.
  destruct He as [Hc' Hh'|x Ht|x Ht|x _ Hc' _ Hh']; [|by destruct dpc|by destruct dpc|].
  - exists V. split; [exact Hstep|]. split; [apply rtc_refl|].
    eapply (rep_steal s hs m V i wk vk start k dpc d' nx); [done|done|done|done|done|done|done|done| |apply rtc_refl|
      by rewrite (list_insert_id (v_ws V))|exact Hq|done|exact Hc'|done|done| |done].
    + destruct nx as [|r]; [done|]. simpl in Hh'. by destruct (r =? 0).
    + destruct nx as [dpc'|r]; simpl in Hh'; [|destruct (r =? 0); [constructor|done]].
      apply rep_stealing; [|done]. apply (so_next _ _ _ _ _ Hok).
  - destruct nx as [dpc'|r]; simpl in Hh'.
    { pose proof (so_next _ _ _ _ _ Hok) as [Hk' _]. by destruct dpc'. }
    destruct (Z.eqb_spec r 0) as [->|Hr]; [done|]. injection Hh' as ->. destruct q as [|y q]; [done|]. injection Hc' as <- Hc'.
    exists (with_w (with_q V j q) i (VWork [] (children y) [])). split; [exact Hstep|].
    assert (Hst : vstep V (with_w (with_q V j q) i (VWork [] (children y) []))).
    { eapply vstep_work; [exact Hv|]. by apply work_steal. }
    split; [by apply rtc_once|].
    eapply (rep_steal s hs m V i wk vk start k dpc d' (Returns (FROM_GC y)) _ _ _ q);
      [done|done|done|done|done|done|done|done|done|by apply rtc_once|done| | |by symmetry|done|done| |by destruct HG].
    + simpl. apply list_lookup_insert_eq. by eapply lookup_lt_Some.
    + intros a Ha. simpl. by rewrite list_lookup_insert_ne.
    + apply rep_visit; [done|]. apply children_ok.
      pose proof (after_phase V i _ HV Hv I) as [_ HM _ _]. eapply reachable_in, (mk_sound _ _ _ _ HM), (mk_items _ _ _ _ HM).
      right. exists j, (y :: q). split; [done|]. by left.
Qed.

(** ** Coordination and the end *)

Lemma step_plain s hs i rand wk : workers s !! i = Some wk ->
  worker_step w s hs i rand =
  match w_pc wk with
  | StealPick | StealLoop _ _ | Taking _ | Stealing _ _ _ => s ← steal_loop_step w s i wk rand; Some (s, hs)
  | TakeCoordinator | CoordLoad | CoordFinish _ | CoordPostAll _ | CoordSize _ _ _ | CoordSizing _ _ _ _
  | CoordWake _ | CoordPost _ | DropCoordinator => s ← coordinate_step s i wk; Some (s, hs)
  | WaitSub | SemaWait | LoopCheck | DoneArrive | DoneWait _ | RunEnd | WorkerDone => s ← finish_step s i wk; Some (s, hs)
  | _ => worker_step w s hs i rand
  end.
Proof. intros Hi. unfold worker_step. rewrite Hi. simpl. by destruct (w_pc wk). Qed.
Lemma idle_ok s hs m V i rand wk : Rep s hs m V -> workers s !! i = Some wk -> v_ws V !! i = Some VIdle ->
  wrep i (deque wk) (w_pc wk) VIdle -> (∀ start k dpc, w_pc wk ≠ Stealing start k dpc) -> Stepped s hs m V i rand.
Proof.
  intros HR Hi Hv Hw Hns. pose proof (rp_globals _ _ _ _ HR) as HG.
  pose proof (rp_heads _ _ _ _ HR) as HO. pose proof (step_plain s hs i rand wk Hi) as Hstep.
  assert (Hnum : num_workers s = nw) by apply HR.
  unfold steal_loop_step, coordinate_step in Hstep. destruct wk as [sl d pc]. simpl in *.
  inversion Hw as [| | | | | | | | | | | | |Heq|start k Heq|start k dpc Hk Hne Heq|Heq| | | | | | | | | | | | | | |]; subst pc; simpl in Hstep.
  - eapply stepped_stutter; [exact HR|exact Hi|exact Hv|exact Hstep|done|done|constructor].
  - rewrite Hnum in Hstep. destruct (k <? nw) eqn:Hkn; simpl in Hstep.
    2:{ eapply stepped_stutter; [exact HR|exact Hi|exact Hv|exact Hstep|done|done|constructor]. }
    destruct (Z.eqb_spec ((start + k) `mod` nw) (Z.of_nat i)) as [He|He].
    { eapply stepped_stutter; [exact HR|exact Hi|exact Hv|exact Hstep|done|done|constructor]. }
    eexists _, _, V. split; [exact Hstep|]. split; [apply rtc_refl|].
    pose proof (rp_workers _ _ _ _ HR _ _ Hi) as [W1 W2 W3 W4 (ps & P1 & P2 & P3 & _)].
    eapply (rep_update s hs m V _ _ _ _ i _ (worker_goto (Stealing start k Ci_WSDeque_Steal) _));
      [exact HR|exact Hi|by apply workers_goto|apply rtc_refl|apply HR|by apply globals_goto|done|done|done| |by apply unnoticed_same|].
    + split; simpl; [done| |done|done|by exists ps]. eexists. split; [exact Hv|]. apply rep_stealing; [done|].
      unfold victim_of. pose proof (Z.mod_pos_bound (start + k) nw ltac:(lia)). lia.
    + simpl. by intros ? ? ? vk [= <- <- <-].
  - by destruct (Hns start k dpc).
  - rewrite (gl_coord _ _ _ HG) in Hstep. destruct (v_coord V) as [c|] eqn:Hc; simpl in Hstep.
    + eapply stepped_goto; [exact HR|exact Hi|exact Hstep|eapply vstep_coord; [exact Hv|by eapply coord_follow]|..]; try done; try globals; constructor.
    + eapply stepped_goto; [exact HR|exact Hi|exact Hstep|eapply vstep_coord; [exact Hv|by apply coord_lead]|..]; try done; try globals; constructor.
Qed.
Lemma coordinating_ok s hs m V i rand wk c : Rep s hs m V -> workers s !! i = Some wk -> v_ws V !! i = Some (VCoord c) ->
  wrep i (deque wk) (w_pc wk) (VCoord c) -> Stepped s hs m V i rand.
Proof.
  intros HR Hi Hv Hw. pose proof (rp_globals _ _ _ _ HR) as HG.
  pose proof (rp_heads _ _ _ _ HR) as HO. pose proof (step_plain s hs i rand wk Hi) as Hstep.
  assert (Hnum : num_workers s = nw) by apply HR. pose proof (rp_inv _ _ _ _ HR) as HV.
  pose proof (after_phase V i _ HV Hv I) as [_ _ HC _].
  unfold coordinate_step in Hstep. destruct wk as [sl d pc]. simpl in *.
  inversion Hw as [| | | | | | | | | | | | | | | | |Heq|n Heq|n Heq|n k a Hk Heq|n k a dpc Hk Hsz Heq|k Heq|k Heq|Heq| | | | | | |]; subst pc c; simpl in Hstep.
  - rewrite (gl_marking _ _ _ HG) in Hstep. destruct (Z.eqb_spec (v_marking V) 1) as [Hn|Hn]; simpl in Hstep.
    + rewrite Hn in Hstep. eapply stepped_goto; [exact HR|exact Hi|exact Hstep|eapply vstep_coord; [exact Hv|by apply coord_alone]|..]; try done; try globals; constructor.
    + eapply stepped_goto; [exact HR|exact Hi|exact Hstep|eapply vstep_coord; [exact Hv|by apply coord_read]|..]; try done; try globals. by constructor.
  - rewrite (gl_marking _ _ _ HG) in Hstep.
    eapply stepped_goto; [exact HR|exact Hi|exact Hstep|eapply vstep_coord; [exact Hv|by apply coord_finish]|..]; try done; try globals; constructor.
  - unfold Ci_Sema_Post in Hstep. rewrite Hnum, (gl_sema _ _ _ HG) in Hstep.
    eapply stepped_goto; [exact HR|exact Hi|exact Hstep|eapply vstep_coord; [exact Hv|by apply coord_post_all]|..]; try done; try globals; constructor.
  - rewrite Hnum in Hstep. destruct (Z.ltb_spec k nw) as [Hkn|Hkn]; simpl in Hstep.
    { eapply stepped_stutter; [exact HR|exact Hi|exact Hv|exact Hstep|done|done|]. constructor; [lia|done]. }
    destruct (Z.eqb_spec a 0) as [Ha|Ha]; simpl in Hstep.
    { eapply stepped_goto; [exact HR|exact Hi|exact Hstep|eapply vstep_coord; [exact Hv|by apply coord_again]|..]; try done; try globals; constructor. }
    set (wake := if size_t (nw - n) <? a then size_t (nw - n) else a) in Hstep.
    assert (Hwk : wake <= size_t (nw - n)) by (unfold wake; destruct (Z.ltb_spec (size_t (nw - n)) a); lia).
    destruct (Z.ltb_spec 0 wake) as [Hw0|Hw0]; simpl in Hstep.
    + eapply stepped_goto; [exact HR|exact Hi|exact Hstep|eapply vstep_coord; [exact Hv|by apply (coord_some _ _ _ n wake)]|..]; try done; try globals; constructor.
    + eapply stepped_goto; [exact HR|exact Hi|exact Hstep|eapply vstep_coord; [exact Hv|by apply coord_none]|..]; try done; try globals; constructor.
  - assert (is_Some (workers s !! Z.to_nat k)) as [vk Hvk].
    { apply lookup_lt_is_Some. pose proof (rp_len _ _ _ _ HR) as Hl. unfold Zlen in *. lia. }
    destruct (size_step_ok (deque vk) dpc Hsz) as (nx & Hs & Hnx). rewrite Hvk in Hstep. simpl in Hstep. rewrite Hs in Hstep. simpl in Hstep.
    eapply stepped_stutter; [exact HR|exact Hi|exact Hv|exact Hstep|done|by destruct nx|].
    destruct nx; constructor; [done|done|lia].
  - rewrite (gl_marking _ _ _ HG) in Hstep.
    eapply stepped_goto; [exact HR|exact Hi|exact Hstep|eapply vstep_coord; [exact Hv|by apply coord_wake]|..]; try done; try globals; constructor.
  - unfold Ci_Sema_Post in Hstep. rewrite (gl_sema _ _ _ HG) in Hstep.
    eapply stepped_goto; [exact HR|exact Hi|exact Hstep|eapply vstep_coord; [exact Hv|by apply coord_post]|..]; try done; try globals; constructor.
  - rewrite decide_True in Hstep by (rewrite (gl_coord _ _ _ HG); by eapply co_holds). simpl in Hstep.
    eapply stepped_goto; [exact HR|exact Hi|exact Hstep|eapply vstep_coord; [exact Hv|by apply coord_drop]|..]; try done; try globals; constructor.
Qed.
Lemma finishing_ok s hs m V i rand wk v : Rep s hs m V -> workers s !! i = Some wk -> v_ws V !! i = Some v ->
  wrep i (deque wk) (w_pc wk) v -> match v with VWaitSub | VSema | VCheck | VDoneArr | VDoneAt _ | VEnd => True | _ => False end ->
  worker_waits s (w_pc wk) = false -> Stepped s hs m V i rand.
Proof.
  intros HR Hi Hv Hw Hk Hwait. pose proof (rp_globals _ _ _ _ HR) as HG.
  pose proof (rp_heads _ _ _ _ HR) as HO. pose proof (step_plain s hs i rand wk Hi) as Hstep.
  unfold finish_step in Hstep. destruct wk as [sl d pc]. simpl in *.
  destruct Hw; try done; simpl in Hstep, Hwait.
  - rewrite (gl_marking _ _ _ HG) in Hstep.
    eapply stepped_goto; [exact HR|exact Hi|exact Hstep|eapply vstep_end; [exact Hv|by apply end_sub]|..]; try done; try globals; constructor.
  - rewrite Hwait in Hstep. apply Z.eqb_neq in Hwait. rewrite (gl_sema _ _ _ HG) in Hwait, Hstep. simpl in Hstep.
    eapply stepped_goto; [exact HR|exact Hi|exact Hstep|eapply vstep_end; [exact Hv|by apply end_wake]|..]; try done; try globals; constructor.
  - rewrite (gl_marking _ _ _ HG) in Hstep. destruct (Z.eqb_spec (v_marking V) 0) as [Hn|Hn]; simpl in Hstep.
    + eapply stepped_goto; [exact HR|exact Hi|exact Hstep|eapply vstep_end; [exact Hv|by apply end_over]|..]; try done; try globals; constructor.
    + eapply stepped_take; [exact HR|exact Hi|exact Hstep|done|apply rtc_once; eapply vstep_end; [exact Hv|by apply end_go]|done..|by destruct HG].
  - rewrite (gl_done _ _ _ HG) in Hstep. destruct (Ci_Barrier_Wait (v_done V)) as [b [e|]] eqn:Hb; simpl in Hstep.
    + eapply stepped_goto; [exact HR|exact Hi|exact Hstep|eapply vstep_end; [exact Hv|by apply end_arrive]|..]; try done; try globals; constructor.
    + eapply stepped_goto; [exact HR|exact Hi|exact Hstep|eapply vstep_end; [exact Hv|by apply end_last]|..]; try done; try globals; constructor.
  - rewrite Hwait in Hstep. apply Z.eqb_neq in Hwait. rewrite (gl_done _ _ _ HG) in Hwait. simpl in Hstep.
    eapply stepped_goto; [exact HR|exact Hi|exact Hstep|eapply vstep_end; [exact Hv|by apply end_lifted]|..]; try done; try globals; constructor.
  - simpl in Hstep. eexists _, _, V. split; [exact Hstep|]. split; [apply rtc_refl|].
    eapply rep_goto; [exact HR|exact Hi|done|done|done|apply rtc_refl|by rewrite list_insert_id|done|done|constructor|apply HR|by destruct HG].
Qed.
(** Every worker that does not wait makes a step, and the protocol follows. *)
Lemma worker_step_ok s hs m V i rand wk : Rep s hs m V -> workers s !! i = Some wk ->
  worker_waits s (w_pc wk) = false -> Stepped s hs m V i rand.
Proof.
  intros HR Hi Hwait. destruct (wo_view _ _ _ (rp_workers _ _ _ _ HR _ _ Hi)) as (v & Hv & Hw).
  destruct v as [t|e|rest vs its| |c| | | | |e|];
    try (by eapply subtract_ok); try (by eapply coordinating_ok); try (by eapply finishing_ok).
  - destruct (own (w_pc wk)) as [dpc|] eqn:Ho; [|by eapply mark_ok].
    destruct (w_pc wk) eqn:Hpc; try done; rewrite <- Hpc in Hw; [by eapply queue_push_ok|by eapply taking_ok].
  - destruct (w_pc wk) eqn:Hpc; rewrite <- Hpc in Hw; try done; try (by eapply stealing_ok);
      (eapply idle_ok; [exact HR|exact Hi|exact Hv|exact Hw|by rewrite Hpc]).
Qed.
End refine.
