(* ===== verification/ParMain.v ===== *)
(** * The parallel collector: the main thread

    What the main thread does around the workers: giving out slices of the
    list, taking the unreachable objects out, or collecting serially when there
    are few objects; and the life of the collector's state. *)

From stdpp Require Import base list gmap numbers strings relations.
From S2P Require Import Prelude WsDeque GcHead GcDeduce ParDefs.

Section main.
Context {E : Type} {lay : GcLayout} {api : GcApi E}.
Variable permanent_generation : Z.

(** Every object's pointer to the one before it, and no flag. *)
Definition Ci_restore_prev_ptrs (containers : Z) : GM E unit :=
  _ ← gc_list_for (λ gc prev, _ ← SET_PREV gc prev; _ ← gc_clear_collecting gc; mret gc) containers containers;
  mret tt.

(** ** Slices *)

(** An index into [workers], a C array. *)
Definition get_worker_slice (l : list Ci_GCSlice) (i : Z) : GM E Ci_GCSlice := mlift (aget l i).
Definition set_worker_slice (l : list Ci_GCSlice) (i : Z) (s : Ci_GCSlice) : GM E (list Ci_GCSlice) := mlift (aset l i s).
(** Division of [int]s; by zero it is undefined. *)
Definition int_div (a b : Z) : GM E Z := if b =? 0 then mstuck else mret (a `quot` b).
Definition assign_step (num_workers objs_per_slice gc : Z) (acc : Z * Z * list Ci_GCSlice) : GM E (Z * Z * list Ci_GCSlice) :=
  let '(_, seen, l) := acc in
  idx ← int_div seen objs_per_slice;
  let idx := if idx <? num_workers then idx else num_workers - 1 in
  s ← get_worker_slice l idx;
  l ← (if slice_start s =? 0 then
         l ← set_worker_slice l idx (GCSlice gc (slice_end s));
         if 0 <? idx then
           p ← get_worker_slice l (idx - 1);
           set_worker_slice l (idx - 1) (GCSlice (slice_start p) gc)
         else mret l
       else mret l);
  mret (idx, seen + 1, l).
Definition Ci_assign_worker_slices (num_workers base num_objects : Z) : GM E (list Ci_GCSlice) :=
  _ ← cassert (num_workers <=? num_objects);
  objs_per_slice ← int_div num_objects num_workers;
  acc ← gc_list_for (assign_step num_workers objs_per_slice) base (0, 0, replicate (Z.to_nat num_workers) (GCSlice 0 0));
  let '(idx, _, l) := acc in
  _ ← cassert (idx =? num_workers - 1);
  s ← get_worker_slice l idx;
  set_worker_slice l idx (GCSlice (slice_start s) base).

(** ** Taking the unreachable objects out *)

Fixpoint move_parallel_loop (fuel : nat) (base unreachable prev gc : Z) : GM E Z :=
  match fuel with
  | O => mnofuel
  | S fuel =>
      if gc =? base then mret prev
      else
        refs ← gc_get_refs gc;
        if refs =? 0 then
          next ← GC_NEXT gc;
          _ ← SET_NEXT prev next;
          _ ← put_aside gc unreachable;
          gc ← GC_NEXT prev;
          move_parallel_loop fuel base unreachable prev gc
        else
          _ ← SET_PREV gc prev;
          _ ← gc_clear_collecting gc;
          next ← GC_NEXT gc;
          move_parallel_loop fuel base unreachable gc next
  end.
Definition Ci_move_unreachable_parallel (base unreachable : Z) : GM E unit :=
  m ← mget;
  gc ← GC_NEXT base;
  prev ← move_parallel_loop (list_fuel m) base unreachable base gc;
  _ ← SET_PREV base prev;
  w ← load_next unreachable;
  store_next unreachable (unflag w).

(** ** The whole *)

(** The workers with their slices, at the start of their threads.  Every call of
    [PyThread_start_new_thread] is taken to succeed: the code does not look at
    its result, and a thread that is not started blocks the barrier
    ([ParClaims.unstarted_worker_blocks]). *)
Definition start_workers (s : Ci_ParGCState) (l : list Ci_GCSlice) : Ci_ParGCState :=
  set_marking (int (num_workers s))
    (set_workers (zip_with (λ sl wk, ParGCWorker sl (deque wk) RunStart) l (workers s)) s).
(** What the threads can reach in a parallel collection of [base] from [m]: the
    main thread starts the workers and waits for them; the threads interleave. *)
Inductive parallel_run (s : Ci_ParGCState) (base : Z) (m : gcmem E) : Ci_ParGCState * gmap Z gchead * main_pc -> Prop :=
  | parallel_run_to n m1 sl m2 c :
      update_refs permanent_generation base m = Ret n m1 -> num_workers s <= uint n ->
      Ci_assign_worker_slices (int (num_workers s)) base (int (uint n)) m1 = Ret sl m2 ->
      rtc (par_step (world m2)) (start_workers s sl, heads m2, MainArrive) c -> parallel_run s base m c.
(** [Ci_deduce_unreachable_parallel]: what it can do.  A collection with few
    objects does not use the workers. *)
Inductive deduce_parallel (s : Ci_ParGCState) (base unreachable : Z) (m : gcmem E) : Ci_ParGCState -> gcmem E -> Prop :=
  | deduce_few n m1 m2 m3 :
      update_refs permanent_generation base m = Ret n m1 -> uint n < num_workers s ->
      Ci_restore_prev_ptrs base m1 = Ret tt m2 -> deduce_unreachable permanent_generation base unreachable m2 = Ret tt m3 ->
      deduce_parallel s base unreachable m s m3
  | deduce_many s' hs m' :
      parallel_run s base m (s', hs, MainDone) ->
      (_ ← gc_list_init unreachable; Ci_move_unreachable_parallel base unreachable) (set_heads hs m) = Ret tt m' ->
      deduce_parallel s base unreachable m s' m'.
End main.

(** ** The life of the state *)

(** [Ci_get_num_processors] answers [ncpu]. *)
Definition Ci_get_default_num_par_gc_threads (ncpu : Z) : Z :=
  let num_threads := ncpu `quot` 2 in if 0 <? num_threads then num_threads else 1.
Definition Ci_ParGCWorker_Init : option Ci_ParGCWorker :=
  d ← Ci_WSDeque_Init; Some (ParGCWorker (GCSlice 0 0) d WorkerDone).
(** [calloc_ok] says whether [PyMem_RawCalloc] succeeds; [NUM_GENERATIONS] is
    CPython's. *)
Definition Ci_ParGCState_New (NUM_GENERATIONS min_gen num_threads ncpu : Z) (calloc_ok : bool) : option (pyexn + Ci_ParGCState) :=
  if NUM_GENERATIONS <=? min_gen then Some (inl (PyErr ValueError "invalid generation"%string))
  else
    let num_threads := if num_threads =? 0 then size_t (Ci_get_default_num_par_gc_threads ncpu) else num_threads in
    if calloc_ok then
      worker ← Ci_ParGCWorker_Init;
      Some (inr (ParGCState (int min_gen) (Ci_Barrier_Init num_threads) 0 None 0 (Ci_Barrier_Init (size_t (num_threads + 1))) 0
                   (replicate (Z.to_nat num_threads) worker)))
    else Some (inl (PyErr MemoryError "out of memory"%string)).
Definition Ci_should_use_par_gc (par_gc : option Ci_ParGCState) (gen : Z) : bool :=
  match par_gc with Some s => min_gen s <=? gen | None => false end.
