(* ===== verification/ParMove.v ===== *)
(** * The main thread's part of a parallel collection

    Giving out the slices of the list, restoring it, and taking the unreachable
    objects out. *)

From stdpp Require Import base list gmap numbers strings relations.
From S2P Require Import Prelude WsDeque GcHead GcDeduce GcLinks GcLists GcSpec GcRefs GcMove ParDefs ParSpec ParWords.
From S2P Require Import ParRefine ParMain.

Section move.
Context {E : Type} {lay : GcLayout} {api : GcApi E}.
Implicit Types (hs : gmap Z gchead) (X : pyexn -> gcmem E -> Prop) (xs ys us : list Z).
Variable fin : Z -> bool.
Abbreviation ptr := (ptr fin).
Variable w : E.

(** ** Restoring the list *)

Lemma restore_prev_ptrs_wp r base l Q X hs0 : glist hs0 (cnt fin r) base l -> (∀ x, x ∈ l -> 0 <= r x < 2 ^ 62) ->
  (∀ hs, glist hs (ptr false) base l -> agree_off l hs0 hs -> Q tt (GCMem hs w)) ->
  wp (Ci_restore_prev_ptrs base) Q X (GCMem hs0 w).
Proof.
  intros [H1 H2 H3 H4] Hr HQ. pose proof (proj1 (NoDup_cons _ _) H3) as [Hb Hnd]. apply wp_bind.
  pose proof (proj1 (Forall_cons _ _ _) H4) as [Hab Hal].
  eapply (wp_list_for w _ base l (λ xs prev hs, prev = last_of base xs ∧
    seg hs 0 (λ p x, if decide (x ∈ xs) then ptr false p x else cnt fin r p x) base l base ∧ agree_off l hs0 hs));
    [exact H1|done|done|done| | | |].
  - intros x Hx. destruct (seg_lookup _ _ _ _ _ _ _ H2 Hx) as (n & p & Hl & _). by eexists.
  - split_and!; [done| |done]. eapply seg_impl; [|exact H2]. intros p x _. cbv beta. rewrite decide_False; [done|]. apply not_elem_of_nil.
  - intros xs y ys prev hs -> (-> & Hs & Hag). apply NoDup_app in Hnd as (_ & Hd & [Hy _]%NoDup_cons).
    pose proof (seg_at _ _ _ _ _ _ _ _ Hs) as Hl. cbv beta in Hl. rewrite decide_False in Hl by (intros Hx; by apply (Hd y Hx); left).
    apply Forall_app in Hal as [Hax [Hay Hays]%Forall_cons].
    apply wp_bind. eapply (wp_SET_PREV _ _ (4 * r y) true (fin y)); [exact Hl|apply aligned_mul4, Hr; set_solver|by apply aligned_last|].
    apply wp_bind. eapply (wp_clear_collecting _ _ _ true (fin y)); [apply lookup_insert_eq|by apply aligned_mod, aligned_last|].
    rewrite insert_insert_eq. apply wp_ret. eexists _, _. split; [done|]. split; [|by rewrite lookup_insert_eq, Z.add_0_l].
    split_and!; [by rewrite last_of_snoc| |].
    + apply seg_app in Hs as [Hs1 [_ Hs2]]. apply seg_app. split; [|split].
      * apply seg_insert; [intros Hx; apply (Hd y Hx); left|]. eapply seg_impl; [|exact Hs1]. intros p x Hx. cbv beta.
        by rewrite !decide_True by set_solver.
      * cbv beta. rewrite decide_True by set_solver. apply lookup_insert_eq.
      * apply seg_insert; [done|]. eapply seg_impl; [|exact Hs2]. intros p x Hx. cbv beta.
        rewrite !decide_False; [done| |]; [intros [?| ->%list_elem_of_singleton]%elem_of_app; [|done]|intros ?]; (eapply Hd; [done|by right]).
    + eapply agree_trans; [exact Hag|]. apply agree_insert. set_solver.
  - intros prev hs (-> & Hs & Hag). apply wp_ret, HQ; [|done]. split; [by rewrite Hag| |done|done].
    eapply seg_impl; [|exact Hs]. intros p x Hx. cbv beta. by rewrite decide_True.
Qed.

(** ** Giving out slices *)

(** The slices of consecutive nonempty parts of a list that [e] follows. *)
Fixpoint slices_of (ps : list (list Z)) (e : Z) : list Ci_GCSlice :=
  match ps with [] => [] | p :: ps => GCSlice (first_of 0 p) (first_of e (mjoin ps)) :: slices_of ps e end.
Lemma slices_of_app ps qs e : slices_of (ps ++ qs) e = slices_of ps (first_of e (mjoin qs)) ++ slices_of qs e.
Proof. induction ps as [|p ps IH]; [done|]. simpl. by rewrite IH, join_app, first_of_app. Qed.
Lemma slices_of_length ps e : Zlen (slices_of ps e) = Zlen ps.
Proof. induction ps; [done|]. simpl. rewrite !Zlen_cons. lia. Qed.
Lemma first_of_nonempty a b xs : xs ≠ [] -> first_of a xs = first_of b xs.
Proof. by destruct xs. Qed.
Lemma slices_of_lookup ps e i p : ps !! i = Some p -> p ≠ [] -> let stop := first_of e (mjoin (drop (S i) ps)) in
  slices_of ps e !! i = Some (GCSlice (first_of stop p) stop).
Proof.
  revert i. induction ps as [|q ps IH]; intros [|i] Hi Hp; simplify_eq/=; [|by apply IH].
  rewrite (first_of_nonempty 0 (first_of e (mjoin ps))) by done. done.
Qed.
Lemma aget_second {A} a (x y : A) t i : i = Zlen a + 1 -> aget (a ++ x :: y :: t) i = Some y.
Proof. intros ->. change (x :: y :: t) with ([x] ++ y :: t). rewrite app_assoc. apply aget_app. by rewrite Zlen_app. Qed.
Lemma aset_second {A} a (x y z : A) t i : i = Zlen a + 1 -> aset (a ++ x :: y :: t) i z = Some (a ++ x :: z :: t).
Proof.
  intros ->. change (x :: y :: t) with ([x] ++ y :: t). rewrite app_assoc. rewrite aset_app by (by rewrite Zlen_app).
  by rewrite <- app_assoc.
Qed.
(** After the objects [xs]: the parts so far, whose last one is open. *)
Definition assigned (nw k : Z) xs (acc : Z * Z * list Ci_GCSlice) : Prop :=
  let '(idx, seen, sl) := acc in seen = Zlen xs ∧ ∃ ps n, mjoin ps = xs ∧ Forall (λ p, p ≠ []) ps ∧ Zlen ps + Z.of_nat n = nw ∧
    sl = slices_of ps 0 ++ replicate n (GCSlice 0 0) ∧ (xs = [] ∧ ps = [] ∨ xs ≠ [] ∧ idx = Zlen ps - 1 ∧ idx = ((Zlen xs - 1) `div` k) `min` (nw - 1)).
Lemma wp_int_div a b Q X m : 0 <= a -> 0 < b -> Q (a `div` b) m -> wp (int_div (E := E) a b) Q X m.
Proof. intros Ha Hb HQ. unfold int_div. rewrite (proj2 (Z.eqb_neq _ _)) by lia. apply wp_ret. by rewrite Z.quot_div_nonneg by lia. Qed.
(** The next object goes to the last part, or opens a new one. *)
Lemma next_index n k m : 0 < n -> 0 < k -> 0 <= m ->
  (n `div` k) `min` m = ((n - 1) `div` k) `min` m ∨ (n `div` k) `min` m = ((n - 1) `div` k) `min` m + 1.
Proof.
  intros Hn Hk Hm. pose proof (Z.div_mod n k) as H1. pose proof (Z.mod_pos_bound n k Hk). pose proof (Z.div_mod (n - 1) k) as H2.
  pose proof (Z.mod_pos_bound (n - 1) k Hk). assert ((n - 1) `div` k <= n `div` k <= (n - 1) `div` k + 1) by nia. lia.
Qed.
Lemma assign_step_wp nw k xs y acc Q X hs : 1 <= nw -> 1 <= k -> y ≠ 0 -> 0 ∉ xs -> assigned nw k xs acc ->
  (∀ acc', assigned nw k (xs ++ [y]) acc' -> Q acc' (GCMem hs w)) -> wp (assign_step nw k y acc) Q X (GCMem hs w).
Proof.
  destruct acc as [[idx seen] sl]. intros Hnw Hk Hy H0 (-> & ps & n & Hps & Hne & Hn & -> & Hi) HQ. pose proof (Zlen_nonneg xs).
  unfold assign_step. apply wp_bind, wp_int_div; [done|lia|]. set (i := if _ <? _ then _ else _).
  assert (Hi' : i = (Zlen xs `div` k) `min` (nw - 1)) by (unfold i; destruct (Z.ltb_spec (Zlen xs `div` k) nw); lia).
  clearbody i. assert (Hxy : xs ++ [y] ≠ []) by (by destruct xs).
  assert (Hlen : (Zlen (xs ++ [y]) - 1) `div` k = Zlen xs `div` k) by (rewrite Zlen_app; f_equal; by rewrite Z.add_simpl_r).
  unfold get_worker_slice, set_worker_slice. destruct Hi as [(-> & ->)|(Hxs & -> & Hidx)].
  - change (@Zlen Z []) with 0 in *. change (@Zlen (list Z) []) with 0 in *. rewrite Z.div_0_l in Hi' by lia.
    assert (i = 0) as -> by lia. destruct n as [|n]; [lia|]. simpl.
    apply HQ. split; [done|]. exists [[y]], n.
    split_and!; [done|by constructor|change (Zlen [[y]]) with 1; lia|done|].
    right. split; [done|]. rewrite Hlen, Z.div_0_l by lia. change (Zlen [[y]]) with 1. lia.
  - destruct ps as [|c qs _] using rev_ind; [by destruct xs|]. apply Forall_app in Hne as [Hqs [Hc _]%Forall_cons].
    rewrite slices_of_app in *. simpl in *.
    rewrite app_nil_r in *. assert (Hqc : Zlen (qs ++ [c]) = Zlen qs + 1) by (by rewrite Zlen_app). rewrite Hqc in *.
    set (fc := first_of 0 c) in *. assert (Hfc : fc ≠ 0).
    { intros Hz. apply H0. rewrite <- Hps, join_app. apply elem_of_app. right. simpl. rewrite app_nil_r. rewrite <- Hz. unfold fc.
      destruct (first_of_elem 0 c); [|done]. destruct c; [done|]. by left. }
    pose proof (Zlen_nonneg qs). pose proof (slices_of_length qs fc) as Hsl.
    destruct (next_index (Zlen xs) k (nw - 1)) as [He|He]; [destruct xs; [done|rewrite Zlen_cons; pose proof (Zlen_nonneg xs); lia]|lia|lia|..];
      rewrite <- Hi', <- Hidx in He; rewrite <- app_assoc; simpl.
    + apply wp_bind. eapply wp_lift; [apply aget_app; lia|]. simpl. rewrite (proj2 (Z.eqb_neq _ _)) by done. apply wp_bind, wp_ret, wp_ret, HQ.
      split; [by rewrite Zlen_app|]. exists (qs ++ [c ++ [y]]), n. split_and!.
      * rewrite <- Hps, !join_app. simpl. by rewrite !app_nil_r, app_assoc.
      * apply Forall_app. split; [done|]. constructor; [by destruct c|done].
      * rewrite Zlen_app. change (Zlen [c ++ [y]]) with 1. lia.
      * rewrite slices_of_app. simpl. rewrite app_nil_r, first_of_app. rewrite <- app_assoc. simpl.
        rewrite (first_of_nonempty (first_of 0 [y]) 0) by done. done.
      * right. split; [done|]. rewrite Zlen_app. change (Zlen [c ++ [y]]) with 1. rewrite Hlen. lia.
    + assert (Hlt : Zlen qs + 1 <= nw - 1) by lia. destruct n as [|n]; [lia|]. simpl.
      apply wp_bind. eapply wp_lift; [apply aget_second; lia|]. simpl.
      apply wp_bind, wp_bind. eapply wp_lift; [apply aset_second; lia|].
      rewrite (proj2 (Z.ltb_lt _ _)) by lia. apply wp_bind. eapply wp_lift; [apply aget_app; lia|].
      eapply wp_lift; [apply aset_app; lia|]. apply wp_ret, HQ. split; [by rewrite Zlen_app|]. exists (qs ++ [c; [y]]), n. split_and!.
      * rewrite <- Hps, !join_app. simpl. by rewrite app_nil_r, app_assoc.
      * apply Forall_app. split; [done|]. by repeat constructor.
      * rewrite Zlen_app. change (Zlen [c; [y]]) with 2. lia.
      * rewrite slices_of_app. simpl. rewrite first_of_app. rewrite <- app_assoc. simpl. by rewrite (first_of_nonempty _ 0).
      * right. split; [done|]. rewrite Zlen_app. change (Zlen [c; [y]]) with 2. rewrite Hlen. lia.
Qed.
Lemma slices_of_open ps p e : p ≠ [] -> slices_of (ps ++ [p]) e = slices_of ps (first_of 0 p) ++ [GCSlice (first_of 0 p) e].
Proof. intros Hp. rewrite slices_of_app. simpl. by rewrite app_nil_r, (first_of_nonempty e 0). Qed.
(** Every worker gets a nonempty part of the list. *)
Lemma assign_slices_wp pw nw base l Q X hs : glist hs pw base l -> 0 ∉ l -> 1 <= nw <= Zlen l ->
  (∀ parts, mjoin parts = l -> Forall (λ p, p ≠ []) parts -> Zlen parts = nw -> Q (slices_of parts base) (GCMem hs w)) ->
  wp (Ci_assign_worker_slices nw base (Zlen l)) Q X (GCMem hs w).
Proof.
  intros Hl H0 Hnw HQ. pose proof Hl as [H1 H2 H3 H4]. pose proof (proj1 (NoDup_cons _ _) H3) as [Hb Hnd].
  assert (Hk : 1 <= Zlen l `div` nw) by (apply Z.div_le_lower_bound; lia).
  unfold Ci_assign_worker_slices. apply wp_bind, wp_assert; [apply Z.leb_le; lia|]. apply wp_bind, wp_int_div; [lia|lia|].
  apply wp_bind. eapply (wp_list_for w _ base l (λ xs acc hs', assigned nw (Zlen l `div` nw) xs acc ∧ hs' = hs)); [exact H1|done|done|done| | | |].
  - intros x Hx. destruct (seg_lookup _ _ _ _ _ _ _ H2 Hx) as (n & p & Hlk & _). by eexists.
  - split; [|done]. split; [done|]. exists [], (Z.to_nat nw). split_and!; [done|done|change (@Zlen (list Z) []) with 0; lia|done|by left].
  - intros xs y ys acc hs' Hxs [Ha ->]. eapply assign_step_wp; [lia|exact Hk| | |exact Ha|].
    + intros ->. apply H0. set_solver.
    + intros Hin. apply H0. set_solver.
    + intros acc' Ha'. eexists _, _. split_and!; [done|done|done|]. rewrite Hxs in H2. apply (seg_at _ _ _ _ _ _ _ _ H2).
  - intros [[idx seen] sl] hs' [(-> & ps & n & Hps & Hne & Hn & -> & Hi) ->].
    destruct Hi as [[-> _]|(Hln & -> & Hi)]; [change (@Zlen Z []) with 0 in Hnw; lia|].
    assert (Hlast : nw - 1 <= (Zlen l - 1) `div` (Zlen l `div` nw)).
    { apply Z.div_le_lower_bound; [lia|]. pose proof (Z.mul_div_le (Zlen l) nw). nia. }
    assert (n = 0%nat) as -> by lia. simpl. rewrite app_nil_r. apply wp_bind, wp_assert; [apply Z.eqb_eq; lia|].
    destruct ps as [|c qs _] using rev_ind; [by subst l|]. pose proof (proj1 (Forall_app _ _ _) Hne) as [_ [Hc _]%Forall_cons].
    rewrite slices_of_open by done. assert (Hqc : Zlen (qs ++ [c]) = Zlen qs + 1) by (by rewrite Zlen_app).
    unfold get_worker_slice, set_worker_slice. apply wp_bind. eapply wp_lift; [apply aget_app; rewrite slices_of_length; lia|].
    eapply wp_lift; [apply aset_app; rewrite slices_of_length; lia|]. simpl. rewrite <- slices_of_open by done. apply HQ; [done|done|lia].
Qed.
End move.

(** ** Taking the unreachable objects out *)

Section take.
Context {E : Type} {lay : GcLayout} {api : GcApi E}.
Implicit Types (hs : gmap Z gchead) (X : pyexn -> gcmem E -> Prop) (xs ys us : list Z).
Variable fin : Z -> bool.
Abbreviation ptr := (ptr fin).
Variable w : E.
Variables base unreachable : Z.
Variable l : list Z.
Variable mk : gset Z.
Variable hs0 : gmap Z gchead.
Hypothesis distinct : NoDup (base :: unreachable :: l).
Hypothesis all_aligned : Forall aligned (base :: unreachable :: l).
(** Marked objects are not collecting any more, and have the count 1. *)
Definition not_marked (x : Z) : bool := bool_decide (x ∉ mk).
Definition mark_count (x : Z) : Z := if decide (x ∈ mk) then 1 else 0.
Abbreviation St := (StC fin base unreachable l hs0 not_marked).

Lemma mark_word_split r p x : (x ∉ mk -> r x = 0) -> mark_word fin r mk p x = word_of fin not_marked mark_count p x.
Proof.
  intros Hr. unfold mark_word, word_of, not_marked, mark_count. case_decide as Hx.
  - by rewrite bool_decide_eq_false_2 by (by intros []).
  - by rewrite bool_decide_eq_true_2, Hr.
Qed.
(** An unmarked object leaves the list. *)
Lemma out_wp xs y ys us Q X hs : St xs (y :: ys) us mark_count hs -> y ∉ mk ->
  (∀ hs', St xs ys (us ++ [y]) mark_count hs' -> Q tt (GCMem hs' w)) ->
  wp (next ← GC_NEXT y; _ ← SET_NEXT (last_of base xs) next; put_aside y unreachable) Q X (GCMem hs w).
Proof.
  intros HS Hy HQ. destruct (st_young _ _ _ _ _ _ _ _ _ _ _ HS) as (tail & Hb & _).
  assert (Hperm := st_perm _ _ _ _ _ _ _ _ _ _ _ HS).
  pose proof (st_aligned _ _ _ _ _ all_aligned _ _ _ _ _ _ HS) as Hal. rewrite !Forall_cons, !Forall_app, Forall_cons in Hal.
  destruct Hal as (Ha1 & _ & Hax & [Hay Hays] & _).
  pose proof (parts _ _ _ _ _ (st_nodup _ _ _ _ _ distinct _ _ _ _ _ _ HS)) as (P1 & _). destruct (st_todo _ _ _ _ _ _ _ _ _ _ _ HS) as [Hhy _].
  apply wp_bind. eapply wp_GC_NEXT; [exact Hhy|by apply aligned_first|].
  apply wp_bind. eapply (wp_link_next (ptr false) base base xs y);
    [exact Hb|exact (st_scanned _ _ _ _ _ _ _ _ _ _ _ HS)|done| |done|by apply aligned_first|].
  { apply aligned_first; [done|]. apply Forall_app. by split; [|constructor]. }
  intros hs1 A1 A2 A3. eapply (aside_wp fin w base unreachable l hs0 distinct all_aligned); [exact HS| | |exact Hb| |exact A2|exact A3|exact HQ].
  - unfold mark_count. by rewrite decide_False.
  - unfold not_marked. by rewrite bool_decide_eq_true_2.
  - rewrite A1. by destruct xs.
Qed.
(** The first actions of a program, as a program of their own. *)
Ltac follow Hm := apply wp_bind; apply wp_bind_inv in Hm; eapply wp_conseq; [exact Hm| |done]; clear Hm; intros ? ? Hm.
Lemma move_parallel_loop_wp Q X : ∀ ys fuel xs us hs, (length ys < fuel)%nat -> St xs ys us mark_count hs ->
  (∀ hs', St (xs ++ filter (λ x, x ∈ mk) ys) [] (us ++ filter (λ x, x ∉ mk) ys) mark_count hs' ->
     Q (last_of base (xs ++ filter (λ x, x ∈ mk) ys)) (GCMem hs' w)) ->
  wp (move_parallel_loop fuel base unreachable (last_of base xs) (first_of base ys)) Q X (GCMem hs w).
Proof.
  induction ys as [|y ys IH]; intros [|fuel] xs us hs Hf HS HQ; simpl in Hf; try lia; simpl.
  { rewrite Z.eqb_refl. apply wp_ret. rewrite !app_nil_r in HQ. by apply HQ. }
  pose proof (parts _ _ _ _ _ (st_nodup _ _ _ _ _ distinct _ _ _ _ _ _ HS)) as (_ & _ & _ & _ & _ & P6 & _).
  pose proof (st_aligned _ _ _ _ _ all_aligned _ _ _ _ _ _ HS) as Hal. rewrite !Forall_cons, !Forall_app, Forall_cons in Hal.
  destruct Hal as (Ha1 & _ & _ & [_ Hays] & _).
  rewrite (proj2 (Z.eqb_neq y base)) by set_solver. destruct (st_todo _ _ _ _ _ _ _ _ _ _ _ HS) as [Hhy _].
  apply wp_bind. eapply wp_get_refs; [exact Hhy|unfold mark_count; case_decide; lia|].
  rewrite !filter_cons in HQ. unfold mark_count at 1. destruct (decide (y ∈ mk)) as [Hy|Hy]; simpl.
  - rewrite (decide_False (P := y ∉ mk)) in HQ by (intros Hn; by apply Hn).
    assert (Hm : wp (_ ← SET_PREV y (last_of base xs); _ ← gc_clear_collecting y; mret y)
      (λ y' m, wp (next ← GC_NEXT y'; move_parallel_loop fuel base unreachable y' next) Q X m) X (GCMem hs w)); [|do 2 follow Hm; exact Hm].
    eapply (scanned_wp fin w base unreachable l hs0 distinct all_aligned); [exact HS|]. intros hs' HS'.
    destruct (st_next _ _ _ _ _ _ _ _ _ _ _ HS') as (p & Hp). rewrite last_of_snoc in Hp.
    apply wp_bind. eapply wp_GC_NEXT; [exact Hp|by apply aligned_first|].
    rewrite <- (last_of_snoc base xs y). apply IH with us; [lia|done|]. by rewrite <- app_assoc.
  - rewrite (decide_True (P := y ∉ mk)) in HQ by done.
    assert (Hm : wp (next ← GC_NEXT y; _ ← SET_NEXT (last_of base xs) next; put_aside y unreachable)
      (λ _ m, wp (gc ← GC_NEXT (last_of base xs); move_parallel_loop fuel base unreachable (last_of base xs) gc) Q X m) X (GCMem hs w)).
    { eapply out_wp; [exact HS|done|]. intros hs' HS'. destruct (st_next _ _ _ _ _ _ _ _ _ _ _ HS') as (p & Hp).
      apply wp_bind. eapply wp_GC_NEXT; [exact Hp|by apply aligned_first|]. apply IH with (us ++ [y]); [lia|done|].
      by rewrite <- app_assoc. }
    do 2 follow Hm. by apply wp_bind.
Qed.
Lemma move_parallel_wp r Q X : glist hs0 (mark_word fin r mk) base l -> hs0 !! unreachable = Some (GCHead unreachable unreachable) ->
  (∀ x, x ∈ l -> x ∉ mk -> r x = 0) ->
  (∀ hs', glist hs' (ptr false) base (filter (λ x, x ∈ mk) l) -> flist hs' (ptr true) unreachable (filter (λ x, x ∉ mk) l) ->
     agree_off (base :: unreachable :: l) hs0 hs' -> Q tt (GCMem hs' w)) ->
  wp (Ci_move_unreachable_parallel base unreachable) Q X (GCMem hs0 w).
Proof.
  intros Hl HU Hr HQ. pose proof (glist_bound _ _ _ _ Hl) as Hlen. destruct Hl as [Hy Hs Hnd Hal].
  pose proof (proj1 (Forall_cons _ _ _) Hal) as [Haly Hall].
  assert (HS : St [] l [] mark_count hs0).
  { split; simpl; try done; [eexists; split_and!; [exact Hy|done|by apply aligned_last]| |by eexists; split; [exact HU|right]|by rewrite app_nil_r|].
    - eapply seg_impl; [|exact Hs]. intros p x Hx. by apply mark_word_split, Hr.
    - intros y _. unfold mark_count. case_decide; lia. }
  unfold Ci_move_unreachable_parallel. apply wp_bind, wp_get. apply wp_bind. eapply wp_GC_NEXT; [exact Hy|by apply aligned_first|].
  apply wp_bind. apply (move_parallel_loop_wp _ _ l _ [] []); [unfold list_fuel; simpl; lia|exact HS|].
  simpl. intros hs HS'. set (xs := filter (λ x, x ∈ mk) l) in *. set (us := filter (λ x, x ∉ mk) l) in *.
  pose proof (parts _ _ _ _ _ (st_nodup _ _ _ _ _ distinct _ _ _ _ _ _ HS')) as (P1 & P2 & P3 & P4 & P5 & _ & P7 & P8 & _).
  pose proof (st_aligned _ _ _ _ _ all_aligned _ _ _ _ _ _ HS') as Ha. rewrite !Forall_cons, !Forall_app in Ha.
  destruct Ha as (Ha1 & Ha2 & Hax & _ & Hau).
  destruct HS' as [(tail & T1 & _ & Ht) T2 _ (n & T4 & T5) T6 T7 _ T9]. rewrite app_nil_r in *. clear HS.
  apply wp_bind. eapply (wp_SET_PREV _ _ tail false false); [by rewrite Z.add_0_r|done|by apply aligned_last|].
  apply wp_bind. eapply wp_load_next; [rewrite lookup_insert_ne by done; exact T4|].
  eapply wp_store_next; [rewrite lookup_insert_ne by done; exact T4|].
  assert (unflag n = first_of unreachable us) as ->.
  { pose proof (aligned_first _ _ Ha2 Hau) as Haf. destruct T5 as [->|[Hus ->]]; [by apply unflag_spec|].
    rewrite Hus in *. by apply plain_spec. }
  apply HQ.
  - split; [|by apply seg_insert; [|apply seg_insert; [by apply NoDup_cons in P1 as [? _]|]]|done|by constructor].
    rewrite lookup_insert_ne by done. rewrite lookup_insert_eq. simpl. by rewrite !Z.add_0_r.
  - split; [apply lookup_insert_eq| |done|by constructor].
    apply seg_insert; [by apply NoDup_cons in P3 as [? _]|]. by apply seg_insert.
  - eapply agree_trans; [exact T9|]. eapply agree_trans; apply agree_insert; set_solver.
Qed.
End take.
