(* ===== verification/ParRun.v ===== *)
(** * A parallel run, from its start to its end

    Steps of all threads keep the representation of [ParRefine]; where a run
    starts, what holds when the main thread goes on, and that some thread can
    always make a step until all have ended. *)

From stdpp Require Import base list gmap numbers strings relations.
From S2P Require Import Prelude WsDeque WsDequeInv WsDequeSpec GcHead GcDeduce GcLinks GcLists GcSpec GcRefs ParDefs.
From S2P Require Import ParSpec ParProtocol ParWords ParRefine ParMain ParMove.

(** Between collections: the barriers are free, with epochs [e0] and [e1], nobody
    coordinates, and the deques are empty. *)
Definition reach_of (s : Ci_ParGCState) (i : nat) : Z := from_option (λ wk, reach (deque wk) None) 0 (workers s !! i).
Record Ready (s : Ci_ParGCState) (e0 e1 : Z) : Prop := {
  re_workers : 1 <= num_workers s < 2 ^ 31;
  re_epochs : 0 <= e0 < 2 ^ 32 ∧ 0 <= e1 < 2 ^ 32;
  re_mark : mark_barrier s = Barrier (num_workers s) (num_workers s) e0;
  re_done : done_barrier s = Barrier (num_workers s + 1) (num_workers s + 1) e1;
  re_coord : steal_coordinator s = None;
  re_sema : steal_sema s = 0;
  re_deques : ∀ i wk, workers s !! i = Some wk -> DInv (deque wk) None ∧ content (deque wk) None = []
}.

Section run.
Context {E : Type} {lay : GcLayout} {api : GcApi E}.
Variable w : E.
Variable fin : Z -> bool.
Variable base : Z.
Variable l : list Z.
Variable slices : list (list Z).
Variable hs0 : gmap Z gchead.
Variables e0 e1 : Z.
Variable reach0 : nat -> Z.
Implicit Types (hs : gmap Z gchead) (s : Ci_ParGCState) (V : view) (v : wview) (i j : nat) (m : main_pc).
Abbreviation nw := (nw slices).
Abbreviation slice := (slice slices).
Abbreviation children := (children w).
Abbreviation VInv := (VInv w l slices e0 e1).
Abbreviation vstep := (vstep w l slices).
Abbreviation Rep := (Rep w fin base l slices hs0 e0 e1 reach0).
Hypothesis workers_range : 1 <= nw < 2 ^ 31.
Hypothesis epochs : 0 <= e0 < 2 ^ 32 ∧ 0 <= e1 < 2 ^ 32.
Hypothesis slices_join : mjoin slices = l.
Hypothesis external_range : ∀ x, x ∈ l -> 0 <= external w l x < 2 ^ 62.
Hypothesis outside : ∀ x y, x ∈ l -> y ∈ children x -> ok_ref l hs0 y.
Hypothesis objects_range : Zlen l < 2 ^ 31.
Hypothesis reach0_range : ∀ i, reach0 i <= 2 ^ 62.

(** ** All steps *)

Lemma rep_main s hs m V s' m' V' : Rep s hs m V -> workers s' = workers s -> vstep V V' -> v_ws V' = v_ws V -> v_qs V' = v_qs V ->
  v_refs V' = v_refs V -> v_marked V' = v_marked V -> Globals s' m' V' -> Rep s' hs m' V'.
Proof.
  intros [R1 R2 R3 R4 R5 R6] Hw Hst Hws Hqs Hr Hm HG. split; rewrite ?Hw, ?Hr, ?Hm; try done.
  - eapply vstep_inv; [exact workers_range|exact epochs|by eapply slices_all|exact external_range|exact R1|exact Hst].
  - intros i wk Hi. destruct (R5 _ _ Hi) as [W1 W2 W3 W4 (ps & P1 & P2 & P3 & P4)].
    split; rewrite ?Hws, ?Hqs; try done. exists ps. by rewrite Hm.
Qed.
Lemma main_ok s hs m V s' m' : Rep s hs m V -> main_step s m = Some (s', m') -> ∃ V', rtc vstep V V' ∧ Rep s' hs m' V'.
Proof.
  intros HR Hs. destruct (rp_globals _ _ _ _ _ _ _ _ _ _ _ _ _ HR) as [G1 G2 G3 G4 G5 G6]. symmetry in G6. unfold main_step in Hs.
  assert (Hfin : ∀ V', vstep V V' -> v_ws V' = v_ws V -> v_qs V' = v_qs V -> v_refs V' = v_refs V -> v_marked V' = v_marked V ->
    Globals s' m' V' -> workers s' = workers s -> ∃ V', rtc vstep V V' ∧ Rep s' hs m' V').
  { intros V' H1 H2 H3 H4 H5 H6 H7. exists V'. split; [by apply rtc_once|]. by eapply rep_main. }
  destruct m as [|e|]; [| |done].
  - rewrite G5 in Hs. destruct (Ci_Barrier_Wait (v_done V)) as [b [e|]] eqn:Hb; injection Hs as <- <-.
    + apply (Hfin (with_main (with_done V b) (MainWait e))); [by apply vstep_main, main_arrive|done..|by split|done].
    + apply (Hfin (with_main (with_done V b) MainDone)); [by apply vstep_main, main_last|done..|by split|done].
  - destruct (Z.eqb_spec e (epoch (done_barrier s))) as [?|He]; [done|]. injection Hs as <- <-.
    apply (Hfin (with_main V MainDone)); [apply vstep_main; eapply main_lifted; [done|by rewrite <- G5]|done..|by split|done].
Qed.
(** Who waits does not step. *)
Lemma waits_stuck s hs i rand wk : workers s !! i = Some wk -> worker_waits s (w_pc wk) = true -> worker_step w s hs i rand = None.
Proof.
  intros Hi Hw. unfold worker_step. rewrite Hi. simpl. unfold subtract_step, finish_step. destruct (w_pc wk); try done; simpl in Hw; by rewrite Hw.
Qed.
Lemma par_step_ok s hs m V s' hs' m' : Rep s hs m V -> par_step w (s, hs, m) (s', hs', m') -> ∃ V', rtc vstep V V' ∧ Rep s' hs' m' V'.
Proof.
  intros HR Hs. remember (s, hs, m) as a eqn:Ha. remember (s', hs', m') as b eqn:Hb.
  destruct Hs as [s1 hs1 m1 i rand s2 hs2 Hs|s1 hs1 m1 s2 m2 Hs]; injection Ha as -> -> ->; injection Hb as -> -> ->; [|by eapply main_ok].
  destruct (workers s !! i) as [wk|] eqn:Hi; [|unfold worker_step in Hs; by rewrite Hi in Hs].
  destruct (worker_waits s (w_pc wk)) eqn:Hw; [by rewrite (waits_stuck _ _ _ _ _ Hi Hw) in Hs|].
  destruct (worker_step_ok w fin base l slices hs0 e0 e1 reach0 workers_range epochs slices_join external_range outside
    objects_range reach0_range _ _ _ _ _ rand _ HR Hi Hw) as (s3 & hs3 & V' & Hs' & Hst & HR').
  rewrite Hs in Hs'. injection Hs' as -> ->. by exists V'.
Qed.
Lemma par_steps_ok c c' : rtc (par_step w) c c' -> ∀ V, Rep c.1.1 c.1.2 c.2 V -> ∃ V', rtc vstep V V' ∧ Rep c'.1.1 c'.1.2 c'.2 V'.
Proof.
  induction 1 as [c|[[s1 hs1] m1] [[s2 hs2] m2] c Hs _ IH]; intros V HR; [by exists V|].
  destruct (par_step_ok _ _ _ _ _ _ _ HR Hs) as (V1 & H1 & HR1). destruct (IH V1 HR1) as (V2 & H2 & HR2). exists V2. split; [by etrans|done].
Qed.

(** ** The end *)

(** Every worker is past the barrier at the end, and marking is over. *)
Lemma done_late V : VInv V -> v_main V = MainDone ->
  After w l slices e0 V ∧ Late slices V ∧ Done slices e1 V true ∧ ∀ i v, v_ws V !! i = Some v -> v = VDoneAt e1 ∨ v = VEnd.
Proof.
  intros [V1 V2 [lf HD] V4] Hm. assert (lf = true) as -> by (pose proof (do_main _ _ _ _ HD) as H; by rewrite Hm in H).
  assert (Hws : ∀ i v, v_ws V !! i = Some v -> v = VDoneAt e1 ∨ v = VEnd).
  { intros i v Hi. pose proof (do_ws _ _ _ _ HD _ _ Hi) as Hd. destruct v; simpl in Hd; try done; [left; by f_equal|by right]. }
  destruct (v_ws V) as [|v vs] eqn:Hv; [change (@Zlen wview []) with 0 in V1; lia|].
  destruct (Hws 0%nat v eq_refl) as [-> | ->].
  all: destruct V4 as [HB|HA]; [exfalso; pose proof (be_ws _ _ _ _ _ HB 0%nat) as H; rewrite Hv in H; by specialize (H _ eq_refl)|].
  all: split; [exact HA|]; split; [|done].
  all: destruct (af_phase _ _ _ _ _ HA) as [HE|HL]; [|done]; exfalso.
  all: pose proof (ea_ws _ _ _ HE 0%nat) as H; rewrite Hv in H; by specialize (H _ eq_refl).
Qed.
Lemma done_nothing V : VInv V -> v_main V = MainDone -> (∀ x, ¬ in_rest slices V x) ∧ (∀ x, ¬ in_visits V x) ∧
  (∀ i q, v_qs V !! i = Some q -> q = []) ∧ ∀ x, ¬ in_items V x.
Proof.
  intros HV Hm. destruct (done_late V HV Hm) as (HA & HL & HD & Hws). pose proof (af_marks _ _ _ _ _ HA) as HM.
  assert (Hqs : ∀ i q, v_qs V !! i = Some q -> q = []).
  { intros i q Hi. assert (is_Some (v_ws V !! i)) as [v Hv] by (apply lookup_lt_is_Some; rewrite <- (vi_qs _ _ _ _ _ _ HV); by eapply lookup_lt_Some).
    apply (mk_idle _ _ _ _ HM i v); [done..|]. by destruct (Hws _ _ Hv) as [-> | ->]. }
  split_and!; [| |exact Hqs|].
  - intros x (i & v & Hi & Hx). by destruct (Hws _ _ Hi) as [-> | ->]; apply elem_of_nil in Hx.
  - intros x (i & v & Hi & Hx). by destruct (Hws _ _ Hi) as [-> | ->]; apply elem_of_nil in Hx.
  - intros x [(i & v & Hi & Hx)|(i & q & Hi & Hx)].
    + by destruct (Hws _ _ Hi) as [-> | ->]; apply elem_of_nil in Hx.
    + rewrite (Hqs _ _ Hi) in Hx. by apply elem_of_nil in Hx.
Qed.
Lemma done_marked V : VInv V -> v_main V = MainDone -> ∀ x, x ∈ v_marked V <-> reachable w l x.
Proof.
  intros HV Hm x. destruct (done_nothing V HV Hm) as (N1 & N2 & _ & N4). destruct (done_late V HV Hm) as (HA & _).
  destruct (af_marks _ _ _ _ _ HA) as [M1 M2 M3 M4 M5 M6 M7 M8]. split; [apply M2|]. apply (reachable_closed w l (λ x, x ∈ v_marked V)).
  - intros y Hy He. destruct (M6 y Hy He) as [|H]; [done|by apply N1 in H].
  - intros y c Hy _ Hc Hyc. destruct (M7 y c Hy Hyc Hc) as [|[H|H]]; [done|by apply N4 in H|by apply N2 in H].
Qed.
Lemma done_bound V ps : VInv V -> v_main V = MainDone -> NoDup ps -> (∀ x, x ∈ ps -> x ∈ v_marked V) -> Zlen ps <= Zlen l.
Proof.
  intros HV Hm Hnd Hps. assert (Hsub : ps ⊆+ l).
  { apply NoDup_submseteq; [done|]. intros x Hx. eapply reachable_in, done_marked; [exact HV|exact Hm|auto]. }
  apply submseteq_length in Hsub. unfold Zlen. lia.
Qed.
(** At the end all is ready for the next collection, and the words of the headers
    show what is reachable. *)
Lemma done_ready s hs V : Rep s hs MainDone V ->
  Ready s (uint (e0 + 1)) (uint (e1 + 1)) ∧ num_workers_marking s = 0 ∧ num_workers s = nw ∧
  (∀ i, (i < length (workers s))%nat -> reach_of s i <= reach0 i + Zlen l) ∧
  ∃ mk, HeadsOk fin base l hs0 (external w l) mk hs ∧ ∀ x, x ∈ mk <-> reachable w l x.
Proof.
  intros [R1 R2 [G1 G2 G3 G4 G5 G6] R4 R5 R6]. symmetry in G6. destruct (done_late V R1 G6) as (HA & HL & HD & Hws).
  destruct (done_nothing V R1 G6) as (_ & _ & Hqs & _).
  assert (Hown : ∀ i wk, workers s !! i = Some wk -> own (w_pc wk) = None).
  { intros i wk Hi. destruct (wo_view _ _ _ _ _ _ _ _ _ _ (R5 _ _ Hi)) as (v & Hv & Hw).
    destruct (Hws _ _ Hv) as [-> | ->]; by inversion Hw. }
  assert (Hnum : num_workers s = nw) by done.
  pose proof (af_bar _ _ _ _ _ HA) as [B1 B2 B3]. pose proof (do_bar _ _ _ _ HD) as [D1 D2 D3].
  assert (Hcoord : v_coord V = None).
  { destruct (v_coord V) as [i|] eqn:Hc; [|done]. destruct (co_held _ (af_coord _ _ _ _ _ HA) _ Hc) as (c & Hi). by destruct (Hws _ _ Hi). }
  assert (Hsema : v_sema V = 0).
  { pose proof (la_count _ _ HL) as Hc. rewrite num_0, zsum_0 in Hc; [lia|..];
      intros v [i Hi]%list_elem_of_lookup; by destruct (Hws _ _ Hi) as [-> | ->]. }
  split_and!; [|by rewrite G2; apply (la_marking _ _ HL)|done| |].
  - split; rewrite ?Hnum, ?G1, ?G3, ?G4, ?G5; [done| | | |done|done|].
    + split; apply Z.mod_pos_bound; lia.
    + destruct (v_barrier V). simpl in *. by subst.
    + destruct (v_done V). simpl in *. by subst.
    + intros i wk Hi. destruct (R5 _ _ Hi) as [_ _ (q & Hq & Hcq) Hd _]. rewrite (Hown _ _ Hi) in *. split; [done|].
      by rewrite Hcq, (Hqs _ _ Hq).
  - intros i [wk Hi]%lookup_lt_is_Some. unfold reach_of. rewrite Hi. simpl.
    destruct (R5 _ _ Hi) as [_ _ _ _ (ps & P1 & P2 & P3 & _)]. rewrite (Hown _ _ Hi) in P3.
    pose proof (done_bound V ps R1 G6 P1 P2). lia.
  - exists (v_marked V). split; [|by apply done_marked]. destruct R2 as [[H1 H2 H3 H4] Hag Hrf].
    pose proof (mk_refs _ _ _ _ (af_marks _ _ _ _ _ HA)) as Hr. split; [split|done|done]; try done.
    eapply seg_impl; [|exact H2]. intros p x Hx. unfold mark_word. case_decide; [done|]. by rewrite Hr.
Qed.

(** ** Always a step *)

Lemma waiting_done V : VInv V -> (∀ i v, v_ws V !! i = Some v ->
    match v with VAt e => e = epoch (v_barrier V) | VSema => v_sema V = 0 | VDoneAt e => e = epoch (v_done V) | VEnd => True | _ => False end) ->
  match v_main V with MainArrive => False | MainWait e => e = epoch (v_done V) | MainDone => True end ->
  v_main V = MainDone ∧ ∀ i v, v_ws V !! i = Some v -> v = VEnd.
Proof.
  intros [V1 V2 [lf HD] V4] Hws Hm. pose proof HD as [[D1 D2 D3] Dn Dw Dm]. destruct V4 as [HB|HA].
  { exfalso. pose proof (be_some _ _ _ _ _ HB) as Hn. rewrite num_full in Hn; [lia|].
    intros v [i Hi]%list_elem_of_lookup. pose proof (be_ws _ _ _ _ _ HB _ _ Hi) as Hb. specialize (Hws _ _ Hi). by destruct v. }
  pose proof (af_bar _ _ _ _ _ HA) as [B1 B2 B3]. pose proof (epoch_differs e0 ltac:(tauto)) as He0. pose proof (epoch_differs e1 ltac:(tauto)) as He1.
  destruct (af_phase _ _ _ _ _ HA) as [HE|HL].
  { exfalso. destruct (ea_awake _ _ _ HE) as (i & v & Hi & Hv). pose proof (ea_ws _ _ _ HE _ _ Hi) as He. specialize (Hws _ _ Hi).
    destruct v; simpl in *; try done. congruence. }
  assert (Hend : ∀ i v, v_ws V !! i = Some v -> v = VDoneAt e1 ∨ v = VEnd).
  { intros i v Hi. pose proof (la_ws _ _ HL _ _ Hi) as Hl. pose proof (Hws _ _ Hi) as Hv. pose proof (Dw _ _ Hi) as Hd.
    destruct v; simpl in *; try done; [|left; by f_equal|by right]. exfalso.
    pose proof (la_count _ _ HL) as Hc. rewrite Hv, zsum_0 in Hc.
    - unfold num in Hc. pose proof (zsum_ge (λ v, Z.b2z (is_sema v)) (v_ws V) i _ ltac:(intros; apply b2z_range) Hi). simpl in *. lia.
    - intros v [j Hj]%list_elem_of_lookup. specialize (Hws _ _ Hj). by destruct v. }
  destruct lf.
  - split.
    + destruct (v_main V); [done| |done]. simpl in *. congruence.
    + intros i v Hi. destruct (Hend _ _ Hi) as [->|?]; [|done]. specialize (Hws _ _ Hi). simpl in Hws. congruence.
  - exfalso. specialize (Dn eq_refl). assert (Hall : num is_done_at (v_ws V) = Zlen (v_ws V)).
    { apply num_full. intros v [i Hi]%list_elem_of_lookup. destruct (Hend _ _ Hi) as [->|Hv]; [done|]. subst v. by specialize (Dw _ _ Hi). }
    unfold arrived in Dn. destruct (v_main V); simpl in *; try done. lia.
Qed.
(** The main thread passes its barrier only after every worker has started. *)
Lemma done_started s hs V i wk : Rep s hs MainDone V -> workers s !! i = Some wk -> w_pc wk ≠ RunStart.
Proof.
  intros [R1 R2 [G1 G2 G3 G4 G5 G6] R4 R5 R6] Hi Hpc. symmetry in G6. destruct (done_late V R1 G6) as (_ & _ & _ & Hws).
  destruct (wo_view _ _ _ _ _ _ _ _ _ _ (R5 _ _ Hi)) as (v & Hv & Hw). rewrite Hpc in Hw.
  destruct (Hws _ _ Hv) as [-> | ->]; by inversion Hw.
Qed.
(** If nobody can make a step, all have ended. *)
Lemma stuck_done s hs m V : Rep s hs m V -> (∀ i wk, workers s !! i = Some wk -> worker_waits s (w_pc wk) = true) ->
  main_step s m = None -> m = MainDone ∧ ∀ i wk, workers s !! i = Some wk -> w_pc wk = WorkerDone.
Proof.
  intros [R1 R2 [G1 G2 G3 G4 G5 G6] R4 R5 R6] Hw Hm.
  assert (Hex : ∀ i v, v_ws V !! i = Some v -> ∃ wk, workers s !! i = Some wk ∧ wrep w fin base l slices hs0 i (deque wk) (w_pc wk) v).
  { intros i v Hi. assert (is_Some (workers s !! i)) as [wk Hk].
    { apply lookup_lt_is_Some. apply lookup_lt_Some in Hi. pose proof (vi_ws _ _ _ _ _ _ R1). unfold Zlen in *. lia. }
    exists wk. split; [done|]. destruct (wo_view _ _ _ _ _ _ _ _ _ _ (R5 _ _ Hk)) as (v' & Hv & Hr). by simplify_eq. }
  destruct (waiting_done V R1) as [H1 H2].
  - intros i v Hi. destruct (Hex _ _ Hi) as (wk & Hk & Hr). specialize (Hw _ _ Hk). rewrite <- G1, <- G4, <- G5.
    destruct Hr; simpl in Hw; try done; by apply Z.eqb_eq.
  - rewrite <- G5, <- G6. unfold main_step in Hm. destruct m as [|e|]; [by destruct (Ci_Barrier_Wait _)| |done].
    destruct (Z.eqb_spec e (epoch (done_barrier s))); done.
  - split; [congruence|]. intros i wk Hk. destruct (wo_view _ _ _ _ _ _ _ _ _ _ (R5 _ _ Hk)) as (v & Hv & Hr).
    rewrite (H2 _ _ Hv) in Hr. specialize (Hw _ _ Hk). inversion Hr as [| | | | | | | | | | | | | | | | | | | | | | | | | | | | | |Hpc|Hpc]; [|done].
    rewrite <- Hpc in Hw. done.
Qed.
End run.

(** ** The start *)

Section start.
Context {E : Type} {lay : GcLayout} {api : GcApi E}.
Variable w : E.
Variable fin : Z -> bool.
Variable base : Z.
Variable l : list Z.
Variable slices : list (list Z).
Variable hs : gmap Z gchead.
Variables e0 e1 : Z.
Variable s : Ci_ParGCState.
Abbreviation children := (children w).
Hypothesis ready : Ready s e0 e1.
Hypothesis slices_join : mjoin slices = l.
Hypothesis slices_workers : Zlen slices = num_workers s.
Hypothesis slices_nonempty : Forall (λ p, p ≠ []) slices.
Hypothesis refs_range : ∀ x, x ∈ l -> 0 <= refcnt w x < 2 ^ 62.

Definition start_view : view :=
  View (refcnt w) ∅ (mark_barrier s) (num_workers s) None 0 (done_barrier s) MainArrive
    ((λ p, VSub (mjoin (children <$> p))) <$> slices) (replicate (length slices) []).
Lemma start_todo x : zsum (λ v, count x (todo_of v)) (v_ws start_view) = internal w l x.
Proof.
  unfold internal. rewrite <- slices_join. simpl. clear. induction slices as [|p ps IH]; [done|]. rewrite fmap_cons.
  change (mjoin (p :: ps)) with (p ++ mjoin ps). rewrite fmap_app, join_app, count_app, <- IH. done.
Qed.
Lemma start_ws (P : wview -> Prop) : (∀ t, P (VSub t)) -> ∀ i v, v_ws start_view !! i = Some v -> P v.
Proof. intros HP i v. simpl. rewrite list_lookup_fmap. intros (p & _ & ->)%fmap_Some. apply HP. Qed.
Lemma start_num P : (∀ t, P (VSub t) = false) -> num P (v_ws start_view) = 0.
Proof. intros HP. apply num_0. intros v [i Hi]%list_elem_of_lookup. by apply (start_ws (λ v, P v = false) HP i). Qed.
Lemma run_start_inv : VInv w l slices e0 e1 start_view.
Proof.
  destruct ready as [R1 R2 R3 R4 R5 R6 R7]. assert (Hnw : nw slices = num_workers s) by done.
  split; [by simpl; rewrite Zlen_fmap|by simpl; rewrite length_replicate, length_fmap| |left].
  - exists false. assert (Ha : arrived start_view = 0) by (unfold arrived; by rewrite start_num).
    split; rewrite ?Ha; [|lia|by apply start_ws|done]. simpl. rewrite R4, Hnw. split; simpl; lia.
  - split; try done.
    + by apply start_ws.
    + rewrite start_num by done. simpl. rewrite R3, Hnw. split; simpl; lia.
    + rewrite start_num by done. lia.
    + simpl. intros i q Hi. by apply lookup_replicate in Hi as [-> _].
    + intros x Hx. rewrite start_todo. unfold external. unfold refcnt in *. simpl. specialize (refs_range x Hx). unfold refcnt in *. lia.
Qed.
Lemma start_rep : glist hs (cnt fin (refcnt w)) base l ->
  Rep w fin base l slices hs e0 e1 (reach_of s) (start_workers s (slices_of slices base)) hs MainArrive start_view.
Proof.
  intros Hl. destruct ready as [R1 R2 R3 R4 R5 R6 R7].
  assert (Hlen : length (slices_of slices base) = length (workers s)).
  { pose proof (slices_of_length slices base). unfold num_workers, Zlen in *. lia. }
  assert (Hws : ∀ i wk, workers (start_workers s (slices_of slices base)) !! i = Some wk ->
    ∃ p wk0, slices !! i = Some p ∧ workers s !! i = Some wk0 ∧ p ≠ [] ∧ let st := first_of base (mjoin (drop (S i) slices)) in
      wk = ParGCWorker (GCSlice (first_of st p) st) (deque wk0) RunStart).
  { intros i wk. simpl. rewrite lookup_zip_with_Some. intros (sl & wk0 & -> & Hsl & Hk).
    assert (is_Some (slices !! i)) as [p Hp].
    { apply lookup_lt_is_Some. apply lookup_lt_Some in Hk. unfold num_workers, Zlen in *. lia. }
    pose proof (proj1 (Forall_lookup _ _) slices_nonempty _ _ Hp) as Hne. exists p, wk0. split_and!; [done..|].
    rewrite (slices_of_lookup _ _ _ _ Hp Hne) in Hsl. by injection Hsl as <-. }
  split.
  - apply run_start_inv.
  - destruct Hl as [H1 H2 H3 H4]. split; [split|done|]; done.
  - split; try done. unfold num_workers in R1. apply Z.sub_move_r, Z.mod_small. simpl. unfold num_workers. lia.
  - simpl. unfold Zlen in *. rewrite length_zip_with, Hlen, Nat.min_id. unfold nw, num_workers, Zlen in *. lia.
  - intros i wk Hi. destruct (Hws _ _ Hi) as (p & wk0 & Hp & Hk & Hne & ->). simpl. destruct (R7 _ _ Hk) as [Hd Hc].
    assert (Hsl : slice slices i = p) by (unfold slice; by rewrite Hp). split; simpl.
    + unfold stop. by rewrite Hsl.
    + exists (VSub (mjoin (children <$> p))). rewrite list_lookup_fmap, Hp. split; [done|]. rewrite <- Hsl. constructor.
    + exists []. split; [|done]. apply lookup_replicate. split; [done|]. by eapply lookup_lt_Some.
    + done.
    + exists []. split_and!; [by constructor|by intros x Hx%elem_of_nil| |done]. unfold reach_of. rewrite Hk.
      change (Zlen []) with 0. simpl. lia.
  - intros i wk start k dpc vk Hi Hpc _. destruct (Hws _ _ Hi) as (p & wk0 & _ & _ & _ & ->). done.
Qed.
End start.
