(* ===== verification/ParFinish.v ===== *)
(** * A parallel collection can always be completed

    A measure that goes down with every step of some thread, whatever state the
    threads have reached: workers go on until they wait, then the main thread,
    and the worker that coordinates when nobody else can. *)

From stdpp Require Import base list gmap numbers strings relations.
From S2P Require Import Prelude WsDeque WsDequeInv WsDequeSpec GcHead GcDeduce GcLinks GcLists GcSpec GcRefs ParDefs ParSpec.
From S2P Require Import ParProtocol ParWords ParRefine ParMain ParMove ParRun.

(** ** Sums with indices *)

Section zsumi.
Context {A : Type}.
Implicit Types (f g : nat -> A -> Z) (l : list A).
Fixpoint zsumi f l : Z := match l with [] => 0 | x :: l => f 0%nat x + zsumi (λ i, f (S i)) l end.
Lemma zsumi_le f g l : (∀ i x, l !! i = Some x -> f i x <= g i x) -> zsumi f l <= zsumi g l.
Proof.
  revert f g. induction l as [|x l IH]; intros f g H; simpl; [done|]. pose proof (H 0%nat x eq_refl).
  assert (zsumi (λ i, f (S i)) l <= zsumi (λ i, g (S i)) l); [|lia]. apply IH. intros i y Hi. by apply (H (S i)).
Qed.
Lemma zsumi_insert f l i x y : l !! i = Some x -> zsumi f (<[i := y]> l) = zsumi f l - f i x + f i y.
Proof.
  revert f i. induction l as [|z l IH]; intros f [|i] Hi; simplify_eq/=; [lia|]. rewrite (IH (λ j, f (S j)) i Hi). lia.
Qed.
Lemma zsumi_nonneg f l : (∀ i x, 0 <= f i x) -> 0 <= zsumi f l.
Proof. revert f. induction l as [|x l IH]; intros f H; simpl; [done|]. pose proof (H 0%nat x). specialize (IH (λ i, f (S i)) ltac:(intros; apply H)). lia. Qed.
Lemma zsumi_ext f g l : (∀ i x, f i x = g i x) -> zsumi f l = zsumi g l.
Proof. revert f g. induction l as [|x l IH]; intros f g H; simpl; [done|]. by rewrite H, (IH (λ i, f (S i)) (λ i, g (S i))). Qed.
Lemma zsum_ext (f g : A -> Z) l : (∀ x, x ∈ l -> f x = g x) -> zsum f l = zsum g l.
Proof. induction l as [|x l IH]; intros H; simpl; [done|]. rewrite H, IH by set_solver. done. Qed.
End zsumi.

(** ** The measure *)

(** From [x] on. *)
Fixpoint from_here (x : Z) (l : list Z) : list Z :=
  match l with [] => [] | y :: l' => if decide (y = x) then l else from_here x l' end.
Lemma from_here_at x pre l : x ∉ pre -> from_here x (pre ++ x :: l) = x :: l.
Proof. induction pre as [|y pre IH]; simpl; intros Hx; [by rewrite decide_True|]. rewrite decide_False by set_solver. apply IH. set_solver. Qed.
Lemma from_here_none x l : x ∉ l -> from_here x l = [].
Proof. induction l as [|y l IH]; simpl; intros Hx; [done|]. rewrite decide_False by set_solver. apply IH. set_solver. Qed.
(** More is marked, or the same. *)
Lemma marks_shrink (f g : Z -> bool) l : (∀ x, x ∈ l -> f x = true -> g x = true) ->
  Zlen (filter (λ x, g x = false) l) < Zlen (filter (λ x, f x = false) l) ∨
  Zlen (filter (λ x, g x = false) l) = Zlen (filter (λ x, f x = false) l) ∧ ∀ x, x ∈ l -> g x = f x.
Proof.
  induction l as [|y l IH]; intros H; [right; split; [done|]; by intros x Hx%elem_of_nil|].
  pose proof (H y ltac:(by left)) as Hy. destruct IH as [IH|[IH IH']]; [set_solver| |]; rewrite !filter_cons.
  - left. destruct (f y), (g y); simpl; rewrite ?Zlen_cons; lia.
  - destruct (f y) eqn:Hf, (g y) eqn:Hg; simpl; rewrite ?Zlen_cons; [right|lia|left; lia|right].
    all: split; [lia|]; intros x [->|Hx]%elem_of_cons; [congruence|auto].
Qed.

(** Steps left in an operation on a deque. *)
Definition take_rank (pc : dq_pc) : Z :=
  match pc with
  | TakeAssert => 8 | TakeLoadBot => 7 | TakeLoadArr _ => 6 | TakeStoreBot _ _ => 5 | TakeLoadTop _ _ => 4
  | TakeGet _ _ _ => 3 | TakeCas _ _ _ => 2 | _ => 1
  end.
Definition push_rank (pc : dq_pc) : Z :=
  match pc with
  | PushLoadBot _ => 8 | PushLoadTop _ _ => 7 | PushLoadArr _ _ _ => 6 | PushStoreArr _ _ _ => 5 | PushReload _ _ => 4
  | PushCount _ _ _ => 3 | PushPut _ _ _ => 2 | _ => 1
  end.
Lemma take_rank_pos pc : 0 < take_rank pc.
Proof. by destruct pc. Qed.
Lemma push_rank_pos pc : 0 < push_rank pc.
Proof. by destruct pc. Qed.
(** A thief whose [top] is not the current one fails and starts again. *)
Definition steal_rank (top : Z) (pc : dq_pc) : Z :=
  match pc with
  | StealLoadTop => 6
  | StealLoadBot t => if t =? top then 5 else 11
  | StealLoadArr t => if t =? top then 4 else 10
  | StealGet t _ => if t =? top then 3 else 9
  | StealCas t _ => if t =? top then 2 else 8
  | _ => 1
  end.
Lemma content_length d own : Zlen (content d own) = Z.max 0 (range_end d own - top d).
Proof. unfold content, Zlen. rewrite length_fmap, length_seqZ. lia. Qed.
Lemma steal_rank_pos t pc : 0 < steal_rank t pc.
Proof. destruct pc; simpl; try lia; case_match; lia. Qed.
(** An item goes, or the operation gets on. *)
Lemma take_moves d pc d' nx : DInv d (Some pc) -> is_take pc = true -> dq_step d pc = Some (d', nx) ->
  top d' = top d ∧ content d' (next_owner nx) = content d (Some pc) ∧ next_hand d' nx = hand d pc ∧
    match nx with Go pc' => take_rank pc' < take_rank pc | Returns _ => True end ∨
  ∃ x, content d (Some pc) = content d' (next_owner nx) ++ [x] ∧ hand d pc = [] ∧ next_hand d' nx = [x].
Proof.
  intros HD Hk Hs. destruct (take_step_ok d pc HD Hk) as (d1 & nx1 & Hs1 & [_ _ H3 _] & _). rewrite Hs in Hs1. injection Hs1 as <- <-.
  destruct H3 as [Hc Hh|x _ Hc Hh Hh'|x Hp|x Hp]; [left|right; by exists x|by destruct pc..].
  pose proof (content_length d' (next_owner nx)) as Hl. rewrite Hc, content_length in Hl. rewrite Hc, Hh. clear Hc Hh.
  destruct HD as [_ _ Ht He _ Ho]. destruct pc; try done; simpl in *; simplify_option_eq; repeat (case_match; simplify_eq/=); try done.
  all: exfalso; destruct Ho as (? & -> & ? & _); rewrite size_t_small in Hl by (unfold SIZE_T_MOD; lia); lia.
Qed.
Lemma push_moves d pc d' nx : DInv d (Some pc) -> is_push pc = true -> dq_step d pc = Some (d', nx) ->
  top d' = top d ∧ match nx with
                   | Go pc' => content d' (Some pc') = content d (Some pc) ∧ push_rank pc' < push_rank pc
                   | Returns _ => ∃ x, content d' None = content d (Some pc) ++ [x]
                   end.
Proof.
  intros HD Hk Hs. destruct (push_step_ok d pc HD Hk) as (d1 & nx1 & Hs1 & [_ _ H3 _] & Hn). rewrite Hs in Hs1. injection Hs1 as <- <-.
  destruct (push_hand d pc Hk) as (y & Hy). rewrite Hy in H3.
  assert (Hr : top d' = top d ∧ match nx with Go pc' => push_rank pc' < push_rank pc | Returns r => r = 0 end).
  { clear H3. destruct pc; try done; simpl in *; simplify_option_eq; repeat (case_match; simplify_option_eq); done. }
  destruct Hr as [-> Hr]. split; [done|].
  destruct H3 as [Hc Hh|x Ht|x _ Hc _ Hh'|x Ht]; [|by destruct pc| |by destruct pc]; destruct nx as [pc'|r]; simpl in *.
  - done.
  - by subst r.
  - destruct (push_hand d' pc' Hn) as (z & Hz). congruence.
  - by exists x.
Qed.
Lemma steal_moves d own pc d' nx : DInv d own -> thief_ok d own pc -> is_steal pc = true -> dq_step d pc = Some (d', nx) ->
  d' = d ∧ match nx with Go pc' => steal_rank (top d) pc' < steal_rank (top d) pc | Returns r => r = 0 end ∨
  (∀ pc', hand d' pc' = hand d pc') ∧ ∃ x, content d own = x :: content d' own ∧ nx = Returns x ∧ x ≠ 0.
Proof.
  intros HD HT Hk Hs. destruct (steal_step_ok d own pc HD HT Hk) as (d1 & nx1 & Hs1 & [_ _ H3 H4 H5]). rewrite Hs in Hs1. injection Hs1 as <- <-.
  destruct H3 as [Hc Hh|x Ht|x Hp|x _ Hc _ Hh']; [|by destruct pc|by destruct pc|].
  - left. assert (Hr : d' = d ∨ ∃ t r, pc = StealCas t r ∧ top d = t ∧ d' = set_top (size_t (t + 1)) d).
    { clear Hc. destruct pc; try done; simpl in *; simplify_option_eq; repeat (case_match; simplify_option_eq); auto.
      right. eexists _, _. split_and!; [done| |done]. by apply Z.eqb_eq. }
    destruct Hr as [->|(t & r & -> & Ht & ->)].
    + split; [done|]. clear H4. destruct nx as [pc'|r].
      * destruct pc; try done; simpl in *; simplify_option_eq; repeat (case_match; simplify_option_eq); lia.
      * simpl in Hh. by destruct (Z.eqb_spec r 0).
    + exfalso. destruct HT as [_ HT]. destruct (HT Ht) as [Hlt _]. destruct HD as [_ _ Hd He _ _].
      assert (Hl : Zlen (content (set_top (size_t (t + 1)) d) own) = Zlen (content d own)) by (by rewrite Hc).
      rewrite !content_length in Hl. assert (range_end (set_top (size_t (t + 1)) d) own = range_end d own) as Hr by (by destruct own as [[]|]).
      rewrite Hr, size_t_small in Hl by (unfold SIZE_T_MOD; lia). simpl in Hl. lia.
  - right. split; [done|]. exists x. split; [done|]. destruct nx as [pc'|r]; simpl in *.
    + destruct H4 as [H4 _]. by destruct pc'.
    + destruct (Z.eqb_spec r 0); [done|]. by injection Hh' as ->.
Qed.
Lemma size_moves d pc d' nx : dq_step d pc = Some (d', nx) -> is_size pc = true ->
  d' = d ∧ match pc with SizeLoadTop b => nx = Returns (if b <? top d then 0 else b - top d) | _ => nx = Go (SizeLoadTop (bot d)) end.
Proof. destruct pc; try done; simpl; by intros [= <- <-]. Qed.

Section finish.
Context {E : Type} {lay : GcLayout} {api : GcApi E}.
Variable w : E.
Variable fin : Z -> bool.
Variable base : Z.
Variable l : list Z.
Variable slices : list (list Z).
Variable hs0 : gmap Z gchead.
Variables e0 e1 : Z.
Variable reach0 : nat -> Z.
Implicit Types (hs : gmap Z gchead) (s : Ci_ParGCState) (V : view) (v : wview) (i j : nat) (m : main_pc) (tops : nat -> Z) (d : Ci_WSDeque).
Abbreviation nw := (nw slices).
Abbreviation slice := (slice slices).
Abbreviation Rep := (Rep w fin base l slices hs0 e0 e1 reach0).
Hypothesis workers_range : 1 <= nw < 2 ^ 31.
Hypothesis epochs : 0 <= e0 < 2 ^ 32 ∧ 0 <= e1 < 2 ^ 32.
Hypothesis slices_join : mjoin slices = l.
Hypothesis external_range : ∀ x, x ∈ l -> 0 <= external w l x < 2 ^ 62.
Hypothesis outside : ∀ x y, x ∈ l -> y ∈ children w x -> ok_ref l hs0 y.
Hypothesis objects_range : Zlen l < 2 ^ 31.
Hypothesis reach0_range : ∀ i, reach0 i <= 2 ^ 62.

(** Objects that are not marked yet. *)
Definition marked_in hs (x : Z) : bool := bool_decide (Ci_gc_is_collecting_atomic hs x = Some false).
Definition unmarked hs : Z := Zlen (filter (λ x, marked_in hs x = false) l).
(** Objects on their way: in a deque, from there to a worker, or to a deque. *)
Definition in_hand hs (wk : Ci_ParGCWorker) : Z :=
  match w_pc wk with
  | Taking dpc => Zlen (hand (deque wk) dpc)
  | QueueMark _ op _ _ => if marked_in hs (AS_GC op) then 2 else 0
  | QueuePush _ _ _ => 2
  | _ => 0
  end.
Definition on_way hs (wk : Ci_ParGCWorker) : Z := 2 * Zlen (content (deque wk) (own (w_pc wk))) + in_hand hs wk.

(** The steps that a worker has left if no object is marked, pushed or taken by
    anyone; from a take until the worker sleeps. *)
Definition take_w : Z := 14 * nw + 22.
(** What a token wakes up. *)
Definition token_w : Z := take_w + 1.
Definition visit_w (ops : list Z) : Z := 12 * Zlen ops + 1.
Definition slice_w (ys : list Z) : Z := take_w + 1 + zsum (λ y, visit_w (traversal w (FROM_GC y)) + 5) ys.
Definition sub_w i (ys : list Z) : Z := slice_w (slice i) + 3 + zsum (λ y, 2 * Zlen (traversal w (FROM_GC y)) + 3) ys.
Definition here i (gc : Z) : list Z := from_here gc (slice i).
Definition next_here i (gc : Z) : list Z := tail (here i gc).
Definition cont_w i (k : mark_cont) : Z := match k with FromSlice gc => 1 + slice_w (next_here i gc) | FromQueue => take_w end.
Definition posts_w (n : Z) : Z := token_w * Z.max 0 n.
(** A coordinator that has found work. *)
Definition found_w (n : Z) : Z := 20 + posts_w (size_t (nw - n)) + token_w.
Definition size_w (n k available : Z) : Z := 12 + 3 * Z.max 0 (nw - k) + if available =? 0 then 0 else found_w n.
Definition victim_top tops (start k : Z) : Z := tops (victim_of slices start k).
Definition pc_w tops i (pc : worker_pc) : Z :=
  match pc with
  | RunStart => sub_w i (slice i) + 1
  | SubLoop gc => sub_w i (here i gc)
  | SubVisit gc ops => sub_w i (next_here i gc) + 2 * Zlen ops + 1
  | SubDecref gc _ ops => sub_w i (next_here i gc) + 2 * Zlen ops + 2
  | MarkArrive => slice_w (slice i) + 2
  | MarkWait _ => slice_w (slice i) + 1
  | SliceLoop gc => slice_w (here i gc)
  | SliceMark gc _ => slice_w (next_here i gc) + visit_w (traversal w (FROM_GC gc)) + 2
  | SliceNext gc => slice_w (next_here i gc) + 1
  | Visit k ops => cont_w i k + visit_w ops
  | QueueMark k op ops _ => cont_w i k + visit_w ops + 9
  | QueuePush k ops dpc => cont_w i k + visit_w ops + push_rank dpc
  | Taking dpc => 14 * nw + 14 + take_rank dpc
  | StealPick => 14 * nw + 14
  | StealLoop _ k => 13 + 14 * Z.max 0 (nw - k)
  | Stealing start k dpc => 13 + 14 * Z.max 0 (nw - k - 1) + steal_rank (victim_top tops start k) dpc
  | TakeCoordinator => 12
  | CoordLoad => 11
  | CoordFinish _ => 10
  | CoordPostAll n => posts_w (size_t (nw - n)) + token_w + 2
  | CoordSize n k a => size_w n k a
  | CoordSizing n k a dpc => size_w n (k + 1) a + match dpc with
      | SizeLoadTop b => 1 + if b <=? tops (Z.to_nat k) then 0 else found_w n
      | _ => 2
      end
  | CoordWake k => posts_w k + token_w + 3
  | CoordPost k => posts_w k + token_w + 2
  | DropCoordinator => token_w + 1
  | WaitSub => 11
  | SemaWait => 5
  | LoopCheck => token_w
  | DoneArrive => 4
  | DoneWait _ => 2
  | RunEnd => 1
  | WorkerDone => 0
  end.
Definition top_of s (j : nat) : Z := from_option (λ wk, top (deque wk)) 0 (workers s !! j).
Definition main_w m : Z := match m with MainArrive => 2 | MainWait _ => 1 | MainDone => 0 end.
Definition marking_on s : Z := if num_workers_marking s =? 0 then 0 else 1.
Definition objects_left s hs : Z := zsum (on_way hs) (workers s).
Definition steps_left s m : Z := zsumi (λ i wk, pc_w (top_of s) i (w_pc wk)) (workers s) + token_w * steal_sema s + main_w m.
(** Marking ends; or an object is marked; or one gets on; or there are fewer steps
    left. *)
Definition smaller s' hs' m' s hs m : Prop :=
  marking_on s' < marking_on s ∨ marking_on s' <= marking_on s ∧
    (unmarked hs' < unmarked hs ∨ unmarked hs' <= unmarked hs ∧
      (objects_left s' hs' < objects_left s hs ∨ objects_left s' hs' <= objects_left s hs ∧ steps_left s' m' < steps_left s m)).

(** ** The parts of the measure *)

Lemma vstep_marks V V' : vstep w l slices V V' -> v_marked V ⊆ v_marked V'.
Proof.
  intros [i v V1 _ []|i v V1 _ []|i v V1 _ []|i v V1 _ []|V1 []]; simpl; try done; clear; set_solver.
Qed.
Lemma marked_is s hs m V x : Rep s hs m V -> x ∈ l -> marked_in hs x = bool_decide (x ∈ v_marked V).
Proof.
  intros HR Hx. unfold marked_in. rewrite (heads_collecting _ _ _ _ _ _ _ _ (rp_heads _ _ _ _ _ _ _ _ _ _ _ _ _ HR)) by by left.
  apply bool_decide_ext. split; [intros [= H%bool_decide_eq_false]; apply dec_stable; tauto|intros H; by rewrite bool_decide_eq_false_2 by tauto].
Qed.
(** An object is marked, or none is. *)
Lemma marks_grow s hs m V s' hs' m' V' : Rep s hs m V -> Rep s' hs' m' V' -> rtc (vstep w l slices) V V' ->
  unmarked hs' < unmarked hs ∨ unmarked hs' = unmarked hs ∧ ∀ x, x ∈ l -> marked_in hs' x = marked_in hs x.
Proof.
  intros HR HR' Hst. apply marks_shrink. intros x Hx. rewrite (marked_is _ _ _ _ _ HR Hx), (marked_is _ _ _ _ _ HR' Hx), !bool_decide_eq_true.
  assert (Hsub : v_marked V ⊆ v_marked V'); [|apply Hsub]. clear -Hst. induction Hst as [|V V1 V2 H _ IH]; [done|].
  etrans; [by eapply vstep_marks|done].
Qed.
Lemma on_way_same s hs m V hs' i wk : Rep s hs m V -> workers s !! i = Some wk -> (∀ x, x ∈ l -> marked_in hs' x = marked_in hs x) ->
  on_way hs' wk = on_way hs wk.
Proof.
  intros HR Hi Hm. unfold on_way, in_hand. f_equal. destruct (w_pc wk) eqn:Hpc; try done.
  destruct (wo_view _ _ _ _ _ _ _ _ _ _ (rp_workers _ _ _ _ _ _ _ _ _ _ _ _ _ HR _ _ Hi)) as (v & _ & Hw). rewrite Hpc in Hw.
  rewrite Hm; [done|]. by inversion Hw.
Qed.
Lemma pc_w_ext tops tops' i pc : (∀ j, tops' j = tops j) -> pc_w tops' i pc = pc_w tops i pc.
Proof. intros H. destruct pc; simpl; unfold victim_top; by rewrite ?H. Qed.

Lemma slice_nodup r mk hs i pre xs : HeadsOk fin base l hs0 r mk hs -> slice i = pre ++ xs -> NoDup (pre ++ xs).
Proof.
  intros HO Hs. destruct (decide (i < length slices)%nat) as [Hi|Hi].
  - pose proof (gl_nodup _ _ _ _ (ho_list _ _ _ _ _ _ _ HO)) as Hnd. apply NoDup_cons in Hnd as [_ Hnd].
    rewrite (slice_split l slices slices_join i Hi), Hs in Hnd. by apply NoDup_app in Hnd as (_ & _ & (? & _ & _)%NoDup_app).
  - rewrite <- Hs. unfold ParSpec.slice. rewrite lookup_ge_None_2 by lia. constructor.
Qed.
Lemma here_at r mk hs i pre gc xs : HeadsOk fin base l hs0 r mk hs -> slice i = pre ++ gc :: xs -> here i gc = gc :: xs.
Proof.
  intros HO Hs. pose proof (slice_nodup _ _ _ _ _ _ HO Hs) as Hnd. unfold here. rewrite Hs. apply from_here_at.
  apply NoDup_app in Hnd as (_ & Hd & _). intros Hx. eapply Hd; [exact Hx|]. by left.
Qed.
Lemma next_here_at r mk hs i pre gc xs : HeadsOk fin base l hs0 r mk hs -> slice i = pre ++ gc :: xs -> next_here i gc = xs.
Proof. intros HO Hs. unfold next_here. by rewrite (here_at _ _ _ _ _ _ _ HO Hs). Qed.
Lemma here_first r mk hs i pre xs : HeadsOk fin base l hs0 r mk hs -> slice i = pre ++ xs ->
  here i (first_of (stop base slices i) xs) = xs.
Proof.
  intros HO Hs. destruct xs as [|x xs]; simpl; [|by eapply here_at]. apply from_here_none. intros Hx.
  by eapply slice_not_stop.
Qed.

(** Worker [i] alone changes: what it has to do gets less. *)
Definition same_marks hs' hs : Prop := ∀ x, x ∈ l -> marked_in hs' x = marked_in hs x.
Definition grown hs' hs : Prop := unmarked hs' < unmarked hs ∨ unmarked hs' = unmarked hs ∧ same_marks hs' hs.
Lemma left_insert s hs m V s' hs' i wk wk' : Rep s hs m V -> same_marks hs' hs -> workers s !! i = Some wk ->
  workers s' = <[i := wk']> (workers s) -> objects_left s' hs' = objects_left s hs - on_way hs wk + on_way hs' wk'.
Proof.
  intros HR Hm Hi Hw. unfold objects_left. rewrite Hw, (zsum_insert _ _ _ _ _ Hi).
  rewrite (on_way_same _ _ _ _ hs' _ _ HR Hi Hm). f_equal. f_equal. apply zsum_ext. intros u [j Hj]%list_elem_of_lookup.
  by eapply on_way_same.
Qed.
Lemma steps_insert s m s' i wk wk' : workers s !! i = Some wk -> workers s' = <[i := wk']> (workers s) ->
  top (deque wk') = top (deque wk) ->
  steps_left s' m - token_w * steal_sema s' = steps_left s m - token_w * steal_sema s - pc_w (top_of s) i (w_pc wk) + pc_w (top_of s) i (w_pc wk').
Proof.
  intros Hi Hw Ht. unfold steps_left. assert (Htop : ∀ j, top_of s' j = top_of s j).
  { intros j. unfold top_of. rewrite Hw. destruct (decide (j = i)) as [->|Hne]; [|by rewrite list_lookup_insert_ne].
    rewrite list_lookup_insert_eq by (by eapply lookup_lt_Some). by rewrite Hi. }
  rewrite Hw. rewrite <- (zsumi_ext (λ j u, pc_w (top_of s) j (w_pc u))) by (intros; symmetry; by apply pc_w_ext).
  rewrite (zsumi_insert _ _ _ _ _ Hi). lia.
Qed.
Lemma smaller_worker s hs m V s' hs' i wk wk' : Rep s hs m V -> grown hs' hs -> workers s !! i = Some wk ->
  workers s' = <[i := wk']> (workers s) -> marking_on s' <= marking_on s ->
  (same_marks hs' hs -> on_way hs' wk' < on_way hs wk ∨ on_way hs' wk' <= on_way hs wk ∧ top (deque wk') = top (deque wk) ∧
     pc_w (top_of s) i (w_pc wk') + token_w * steal_sema s' < pc_w (top_of s) i (w_pc wk) + token_w * steal_sema s) ->
  smaller s' hs' m s hs m.
Proof.
  intros HR Hg Hi Hw Hmk H. right. split; [done|]. destruct Hg as [Hg|[Hu Hm]]; [by left|right]. split; [lia|].
  rewrite (left_insert _ _ _ _ _ _ _ _ _ HR Hm Hi Hw). destruct (H Hm) as [Ho|(Ho & Ht & Hr)]; [left; lia|right]. split; [lia|].
  pose proof (steps_insert s m s' i wk wk' Hi Hw Ht). lia.
Qed.
Lemma smaller_goto s hs m V s0 hs' i wk pc' : Rep s hs m V -> grown hs' hs -> workers s !! i = Some wk -> workers s0 = workers s ->
  own (w_pc wk) = None -> content (deque wk) (own pc') = content (deque wk) None -> marking_on s0 <= marking_on s ->
  (same_marks hs' hs -> in_hand hs' (worker_goto pc' wk) <= in_hand hs wk ∧
     pc_w (top_of s) i pc' + token_w * steal_sema s0 < pc_w (top_of s) i (w_pc wk) + token_w * steal_sema s) ->
  smaller (goto i pc' s0) hs' m s hs m.
Proof.
  intros HR Hg Hi Hw Ho Hc Hmk H. eapply (smaller_worker _ _ _ _ _ _ i wk (worker_goto pc' wk)); [exact HR|done|done| |done|].
  - rewrite (workers_goto _ _ _ wk) by (by rewrite Hw). by rewrite Hw.
  - intros Hm. destruct (H Hm) as [H1 H2]. right. unfold on_way. simpl. rewrite Hc, Ho. split; [lia|]. done.
Qed.

(** ** Each step *)

Lemma at_not_stop r mk hs i pre x xs : HeadsOk fin base l hs0 r mk hs -> slice i = pre ++ x :: xs -> x =? stop base slices i = false.
Proof. intros HO Hs. apply Z.eqb_neq. eapply slice_not_stop, slice_at, Hs; done. Qed.
Lemma next_at r mk hs i pre gc xs : HeadsOk fin base l hs0 r mk hs -> slice i = pre ++ gc :: xs ->
  atomic_next hs gc = Some (first_of (stop base slices i) xs).
Proof. intros HO Hs. by eapply slice_next. Qed.

Lemma slice_w_cons y ys : slice_w (y :: ys) = visit_w (traversal w (FROM_GC y)) + 5 + slice_w ys.
Proof. unfold slice_w. simpl. lia. Qed.
Lemma sub_w_cons i y ys : sub_w i (y :: ys) = 2 * Zlen (traversal w (FROM_GC y)) + 3 + sub_w i ys.
Proof. unfold sub_w. simpl. lia. Qed.
Ltac goes HR Hg Hi := eapply smaller_goto; [exact HR|exact Hg|exact Hi|done|done|done|try done|].
Lemma subtract_smaller s hs m V i wk v s' hs' : Rep s hs m V -> workers s !! i = Some wk ->
  wrep w fin base l slices hs0 i (deque wk) (w_pc wk) v -> gc_slice wk = GCSlice (first_of (stop base slices i) (slice i)) (stop base slices i) ->
  match v with VSub _ | VAt _ => True | _ => False end ->
  grown hs' hs -> subtract_step w s hs i wk = Some (s', hs') -> smaller s' hs' m s hs m.
Proof.
  intros HR Hi Hw Hsl Hk Hg Hs. pose proof (rp_heads _ _ _ _ _ _ _ _ _ _ _ _ _ HR) as HO.
  unfold subtract_step in Hs. destruct wk as [sl d pc]. simpl in *. subst sl.
  destruct Hw as [|pre xs Hx|pre gc xs ops Hx Hops|pre gc xs op ops Hx Hops Hop| |e| | | | | | | | | | | | | | | | | | | | | | | | | | ]; try done; simpl in Hs.
  - injection Hs as <- <-. goes HR Hg Hi. intros _. split; [done|]. simpl. rewrite (here_first _ _ _ i [] _ HO) by done. lia.
  - destruct xs as [|x xs]; simpl in Hs.
    + rewrite Z.eqb_refl in Hs. injection Hs as <- <-. goes HR Hg Hi. intros _. split; [done|]. simpl.
      change (stop base slices i) with (first_of (stop base slices i) []). rewrite (here_first _ _ _ _ _ _ HO Hx). unfold sub_w. simpl. lia.
    + rewrite (at_not_stop _ _ _ _ _ _ _ HO Hx) in Hs.
      injection Hs as <- <-. goes HR Hg Hi. intros _. split; [done|]. simpl.
      rewrite (here_at _ _ _ _ _ _ _ HO Hx), (next_here_at _ _ _ _ _ _ _ HO Hx), sub_w_cons. lia.
  - destruct ops as [|op ops].
    + rewrite (next_at _ _ _ _ _ _ _ HO Hx) in Hs. injection Hs as <- <-. goes HR Hg Hi. intros _. split; [done|]. simpl.
      rewrite (here_first _ _ _ _ (pre ++ [gc]) _ HO) by by rewrite <- app_assoc. rewrite (next_here_at _ _ _ _ _ _ _ HO Hx). change (Zlen []) with 0. lia.
    + destruct (PyObject_IS_GC w op); [destruct (Ci_gc_is_collecting_atomic hs (AS_GC op)) as [[]|]; [| |done]; simpl in Hs|];
        injection Hs as <- <-; goes HR Hg Hi; intros _; (split; [done|]); simpl; rewrite Zlen_cons; lia.
  - destruct (Ci_gc_decref_atomic hs (AS_GC op)) as [hs1|]; [|done]. injection Hs as <- <-. goes HR Hg Hi. intros _. split; [done|]. simpl. lia.
  - destruct (Ci_Barrier_Wait (mark_barrier s)) as [b [e|]]; injection Hs as <- <-; goes HR Hg Hi; intros _; (split; [done|]); simpl;
      [lia|]. rewrite (here_first _ _ _ i [] _ HO) by done. lia.
  - destruct (e =? epoch (mark_barrier s)); [done|]. injection Hs as <- <-. goes HR Hg Hi. intros _. split; [done|]. simpl.
    rewrite (here_first _ _ _ i [] _ HO) by done. lia.
Qed.

Lemma slice_w_nil : slice_w [] = take_w + 1.
Proof. unfold slice_w. simpl. lia. Qed.
(** [SliceMark] and [QueueMark] mark. *)
Lemma mark_marks hs x f hs' : Ci_gc_mark_reachable_and_clear_collecting_atomic hs x f = Some hs' -> marked_in hs' x = true.
Proof.
  unfold Ci_gc_mark_reachable_and_clear_collecting_atomic, atomic_set_prev, marked_in, Ci_gc_is_collecting_atomic, atomic_prev.
  destruct (hs !! x) as [hd|]; [|done]. simpl. intros [= <-]. rewrite lookup_insert_eq. simpl.
  assert (Z.lor (Z.shiftl 1 PREV_SHIFT) (Z.b2z f) = refs_word 1 false f) as -> by (rewrite prev_shift_is; by destruct f).
  by rewrite word_collecting.
Qed.
Lemma reads_marked hs x c f : Ci_gc_get_collecting_and_finalized_atomic hs x = Some (c, f) -> marked_in hs x = negb c.
Proof.
  unfold Ci_gc_get_collecting_and_finalized_atomic, marked_in, Ci_gc_is_collecting_atomic. destruct (atomic_prev hs x); [|done]. simpl.
  intros [= <- _]. by destruct (_ =? 0).
Qed.
Lemma mark_smaller s hs m V i wk v s' hs' : Rep s hs m V -> workers s !! i = Some wk ->
  wrep w fin base l slices hs0 i (deque wk) (w_pc wk) v -> gc_slice wk = GCSlice (first_of (stop base slices i) (slice i)) (stop base slices i) ->
  own (w_pc wk) = None -> working v = true -> grown hs' hs -> mark_step w s hs i wk = Some (s', hs') -> smaller s' hs' m s hs m.
Proof.
  intros HR Hi Hw Hsl Ho Hk Hg Hs. pose proof (rp_heads _ _ _ _ _ _ _ _ _ _ _ _ _ HR) as HO.
  unfold mark_step in Hs. destruct wk as [sl d pc]. simpl in *. subst sl.
  destruct Hw as [| | | | | |pre xs Hx|pre gc xs Hx He|pre gc xs Hx|k rest ops Hc Hops|k rest op ops Hc Hops Hop| | | | | | | | | | | | | | | | | | | | |]; try done; simpl in Hs.
  - destruct xs as [|x xs]; simpl in Hs.
    + rewrite Z.eqb_refl in Hs. injection Hs as <- <-. goes HR Hg Hi. intros _. split; [done|]. simpl.
      change (stop base slices i) with (first_of (stop base slices i) []). rewrite (here_first _ _ _ _ _ _ HO Hx), slice_w_nil. unfold take_w. lia.
    + rewrite (at_not_stop _ _ _ _ _ _ _ HO Hx) in Hs.
      destruct (Ci_gc_is_collecting_and_reachable_atomic hs x) as [[[] f]|]; [| |done]; simpl in Hs; injection Hs as <- <-;
        goes HR Hg Hi; intros _; (split; [done|]); simpl; rewrite (here_at _ _ _ _ _ _ _ HO Hx), (next_here_at _ _ _ _ _ _ _ HO Hx), slice_w_cons;
        unfold visit_w; pose proof (Zlen_nonneg (traversal w (FROM_GC x))); lia.
  - destruct (Ci_gc_mark_reachable_and_clear_collecting_atomic hs gc (fin gc)) as [hs1|]; [|done]. injection Hs as <- <-.
    goes HR Hg Hi. intros _. split; [done|]. simpl. lia.
  - rewrite (next_at _ _ _ _ _ _ _ HO Hx) in Hs. injection Hs as <- <-. goes HR Hg Hi. intros _. split; [done|]. simpl.
    rewrite (here_first _ _ _ _ (pre ++ [gc]) _ HO) by by rewrite <- app_assoc. rewrite (next_here_at _ _ _ _ _ _ _ HO Hx). lia.
  - destruct ops as [|op ops].
    + injection Hs as <- <-. destruct k as [gc|]; goes HR Hg Hi; intros _; (split; [done|]); simpl; unfold visit_w, take_w; change (Zlen []) with 0; lia.
    + destruct (PyObject_IS_GC w op).
      2:{ injection Hs as <- <-. goes HR Hg Hi. intros _. split; [done|]. simpl. unfold visit_w. rewrite Zlen_cons. lia. }
      destruct (Ci_gc_get_collecting_and_finalized_atomic hs (AS_GC op)) as [[c f]|] eqn:Hr; [|done]. simpl in Hs.
      apply reads_marked in Hr. destruct c; injection Hs as <- <-; goes HR Hg Hi; intros _; simpl; unfold in_hand; simpl; rewrite ?Hr; simpl;
        (split; [done|]); unfold visit_w; rewrite Zlen_cons; lia.
  - destruct (Ci_gc_mark_reachable_and_clear_collecting_atomic hs (AS_GC op) (fin (AS_GC op))) as [hs1|] eqn:Hm; [|done]. injection Hs as <- <-.
    apply mark_marks in Hm. goes HR Hg Hi. intros Hsame. unfold in_hand. simpl. rewrite <- (Hsame _ Hop), Hm. split; [done|]. lia.
Qed.

Lemma set_own s i wk d' pc' : workers s !! i = Some wk ->
  workers (goto i pc' (set_deque i d' s)) = <[i := ParGCWorker (gc_slice wk) d' pc']> (workers s).
Proof.
  intros Hi. unfold goto, set_deque. simpl. rewrite (alter_insert _ (workers s) i _ Hi).
  rewrite (alter_insert _ _ i (worker_deque d' wk)) by (apply list_lookup_insert_eq; by eapply lookup_lt_Some). by rewrite list_insert_insert_eq.
Qed.
Lemma push_smaller s hs m V i wk v k ops dpc s' hs' : Rep s hs m V -> workers s !! i = Some wk ->
  wrep w fin base l slices hs0 i (deque wk) (w_pc wk) v -> w_pc wk = QueuePush k ops dpc -> grown hs' hs ->
  mark_step w s hs i wk = Some (s', hs') -> smaller s' hs' m s hs m.
Proof.
  intros HR Hi Hw Hpc Hg Hs. pose proof (wo_deque _ _ _ _ _ _ _ _ _ _ (rp_workers _ _ _ _ _ _ _ _ _ _ _ _ _ HR _ _ Hi)) as HD.
  assert (Hk : is_push dpc = true) by (rewrite Hpc in Hw; by inversion Hw).
  unfold mark_step in Hs. rewrite Hpc in *. simpl in HD. destruct (dq_step (deque wk) dpc) as [[d' nx]|] eqn:Hd; [|done]. simpl in Hs. injection Hs as <- <-.
  destruct (push_moves _ _ _ _ HD Hk Hd) as [Ht Hn]. eapply smaller_worker; [exact HR|done|done|by apply set_own|done|].
  intros _. right. unfold on_way, in_hand. simpl. rewrite Hpc. simpl. destruct nx as [pc'|r]; simpl.
  - destruct Hn as [-> Hn]. split_and!; [done|done|lia].
  - destruct Hn as [x ->]. rewrite Zlen_app, Zlen_cons. change (Zlen []) with 0. split_and!; [lia|done|]. pose proof (push_rank_pos dpc). lia.
Qed.
Lemma taking_smaller s hs m V i wk v dpc rand s' : Rep s hs m V -> workers s !! i = Some wk ->
  wrep w fin base l slices hs0 i (deque wk) (w_pc wk) v -> w_pc wk = Taking dpc ->
  steal_loop_step w s i wk rand = Some s' -> smaller s' hs m s hs m.
Proof.
  intros HR Hi Hw Hpc Hs. pose proof (wo_deque _ _ _ _ _ _ _ _ _ _ (rp_workers _ _ _ _ _ _ _ _ _ _ _ _ _ HR _ _ Hi)) as HD.
  assert (Hk : is_take dpc = true) by (rewrite Hpc in Hw; by inversion Hw).
  unfold steal_loop_step in Hs. rewrite Hpc in *. simpl in HD. destruct (dq_step (deque wk) dpc) as [[d' nx]|] eqn:Hd; [|done]. simpl in Hs. injection Hs as <-.
  eapply smaller_worker; [exact HR|by right|done|by apply set_own|done|]. intros _. unfold on_way, in_hand. simpl. rewrite Hpc. simpl.
  destruct (take_moves _ _ _ _ HD Hk Hd) as [(Ht & Hc & Hh & Hn)|(x & Hc & Hh & Hh')].
  - rewrite <- Hc. destruct nx as [pc'|r]; simpl in *.
    + right. rewrite Hh. split_and!; [done|done|lia].
    + destruct (Z.eqb_spec r 0) as [->|Hr]; simpl.
      * right. split_and!; [rewrite <- Hh; done|done|]. pose proof (take_rank_pos dpc). lia.
      * left. rewrite <- Hh, Zlen_cons. change (Zlen []) with 0. lia.
  - left. rewrite Hc, Hh, Zlen_app. change (Zlen [x]) with 1. change (Zlen []) with 0. destruct nx as [pc'|r]; simpl in *.
    + rewrite Hh'. change (Zlen [x]) with 1. lia.
    + destruct (r =? 0); [done|]. simpl. lia.
Qed.

Lemma stealing_smaller s hs m V i wk v start k dpc rand s' : Rep s hs m V -> workers s !! i = Some wk ->
  wrep w fin base l slices hs0 i (deque wk) (w_pc wk) v -> w_pc wk = Stealing start k dpc ->
  steal_loop_step w s i wk rand = Some s' -> smaller s' hs m s hs m.
Proof.
  intros HR Hi Hw Hpc Hs. assert (Hk : is_steal dpc = true ∧ victim_of slices start k ≠ i) by (rewrite Hpc in Hw; by inversion Hw).
  destruct Hk as [Hk Hji]. assert (Hnum : num_workers s = nw) by apply HR. unfold steal_loop_step in Hs. rewrite Hpc, Hnum in Hs.
  change (Z.to_nat ((start + k) `mod` nw)) with (victim_of slices start k) in Hs. set (j := victim_of slices start k) in *.
  destruct (workers s !! j) as [vk|] eqn:Hj; [|done]. simpl in Hs.
  destruct (dq_step (deque vk) dpc) as [[d' nx]|] eqn:Hd; [|done]. simpl in Hs. injection Hs as <-.
  pose proof (wo_deque _ _ _ _ _ _ _ _ _ _ (rp_workers _ _ _ _ _ _ _ _ _ _ _ _ _ HR _ _ Hj)) as HD.
  pose proof (rp_thieves _ _ _ _ _ _ _ _ _ _ _ _ _ HR _ _ _ _ _ _ Hi Hpc Hj) as Hth.
  destruct (steal_moves _ _ _ _ _ HD Hth Hk Hd) as [[-> Hn]|(Hh & x & Hc & -> & Hx)].
  - set (pc' := match nx with Go dpc => Stealing start k dpc | Returns obj => _ end).
    eapply (smaller_worker _ _ _ _ _ _ i wk (worker_goto pc' wk)); [exact HR|by right|done| |done|].
    { assert (Hw' : workers (set_deque j (deque vk) s) = workers s).
      { unfold set_deque. simpl. rewrite (alter_insert _ _ _ _ Hj). apply list_insert_id. by destruct vk. }
      rewrite (workers_goto _ _ _ wk) by (by rewrite Hw'). by rewrite Hw'. }
    intros _. right. unfold on_way, in_hand. simpl. rewrite Hpc. unfold pc'. destruct nx as [dpc'|r]; simpl.
    + split_and!; [done|done|]. unfold victim_top. fold j. replace (top_of s j) with (top (deque vk)) by (unfold top_of; by rewrite Hj). lia.
    + subst r. simpl. split_and!; [done|done|]. pose proof (steal_rank_pos (victim_top (top_of s) start k) dpc). lia.
  - right. split; [done|]. right. split; [done|]. left. unfold objects_left. rewrite (proj2 (Z.eqb_neq _ _)) by done.
    unfold goto, set_deque. simpl. rewrite (alter_insert _ (workers s) j _ Hj), (alter_insert _ _ i wk) by (by rewrite list_lookup_insert_ne).
    rewrite (zsum_insert _ _ i wk) by (by rewrite list_lookup_insert_ne). rewrite (zsum_insert _ _ _ _ _ Hj).
    unfold on_way, in_hand. simpl. rewrite Hpc, Hc, Zlen_cons. simpl.
    destruct (w_pc vk); rewrite ?Hh; lia.
Qed.
Lemma idle_smaller s hs m V i wk rand s' : Rep s hs m V -> workers s !! i = Some wk ->
  match w_pc wk with StealPick | StealLoop _ _ => True | _ => False end ->
  steal_loop_step w s i wk rand = Some s' -> smaller s' hs m s hs m.
Proof.
  intros HR Hi Hpc Hs. assert (Hnum : num_workers s = nw) by apply HR. assert (Hg : grown hs hs) by by right.
  unfold steal_loop_step in Hs. destruct wk as [sl d pc]. simpl in *. destruct pc; try done; simpl in Hs; rewrite Hnum in Hs.
  - injection Hs as <-. goes HR Hg Hi. intros _. split; [done|]. simpl. lia.
  - destruct (Z.ltb_spec i0 nw); [destruct (_ =? Z.of_nat i)|]; simpl in Hs; injection Hs as <-; goes HR Hg Hi; intros _; (split; [done|]); simpl; lia.
Qed.

(** Where a worker is tells whether marking goes on. *)
Lemma early_at s hs m V i v : Rep s hs m V -> v_ws V !! i = Some v -> match v with VSub _ | VAt _ => False | _ => True end -> ¬ late v ->
  Early slices e0 V.
Proof.
  intros HR Hv Hk Hl. pose proof (after_phase w l slices e0 e1 V i v (rp_inv _ _ _ _ _ _ _ _ _ _ _ _ _ HR) Hv Hk) as HA.
  destruct (af_phase _ _ _ _ _ HA) as [HE|HL]; [done|]. destruct Hl. by eapply la_ws.
Qed.
Lemma sema_nonneg s hs m V : Rep s hs m V -> 0 <= steal_sema s.
Proof.
  intros HR. rewrite (gl_sema _ _ _ (rp_globals _ _ _ _ _ _ _ _ _ _ _ _ _ HR)).
  destruct (vi_phase _ _ _ _ _ _ (rp_inv _ _ _ _ _ _ _ _ _ _ _ _ _ HR)) as [HB|HA]; [by rewrite (be_sema _ _ _ _ _ HB)|].
  destruct (af_phase _ _ _ _ _ HA) as [HE|HL]; [apply HE|apply HL].
Qed.
Lemma marking_at s hs m V i v : Rep s hs m V -> v_ws V !! i = Some v -> match v with VSub _ | VAt _ => False | _ => True end -> ¬ late v ->
  marking_on s = 1.
Proof.
  intros HR Hv Hk Hl. pose proof (ea_marking _ _ _ (early_at _ _ _ _ _ _ HR Hv Hk Hl)). unfold marking_on.
  rewrite (gl_marking _ _ _ (rp_globals _ _ _ _ _ _ _ _ _ _ _ _ _ HR)). destruct (Z.eqb_spec (v_marking V) 0); lia.
Qed.
Lemma marking_le s : marking_on s <= 1.
Proof. unfold marking_on. destruct (_ =? 0); lia. Qed.
Lemma take_w_pos : 0 < take_w.
Proof. unfold take_w. lia. Qed.
Lemma posts_w_nonneg n : 0 <= posts_w n.
Proof. unfold posts_w, token_w. pose proof take_w_pos. nia. Qed.
Lemma found_w_pos n : 20 <= found_w n.
Proof. unfold found_w, token_w. pose proof take_w_pos. pose proof (posts_w_nonneg (size_t (nw - n))). lia. Qed.
Lemma posting a k : 0 <= a -> 0 <= k -> token_w * size_t (a + k) <= token_w * a + posts_w k.
Proof.
  intros Ha Hk. unfold posts_w. rewrite Z.max_r by done. rewrite <- Z.mul_add_distr_l. pose proof take_w_pos.
  apply Z.mul_le_mono_nonneg_l; [unfold token_w; lia|]. unfold size_t. apply Z.mod_le; [lia|unfold SIZE_T_MOD; lia].
Qed.
Lemma size_t_nonneg z : 0 <= size_t z.
Proof. unfold size_t. apply Z.mod_pos_bound. unfold SIZE_T_MOD. lia. Qed.

(** Steps of a coordinator that can go on for ever. *)
Definition looks_again (pc : worker_pc) : bool :=
  match pc with CoordLoad | CoordSizing _ _ _ SizeLoadBot => true | _ => false end.
Lemma coord_smaller s hs m V i wk v s' : Rep s hs m V -> workers s !! i = Some wk -> v_ws V !! i = Some v ->
  wrep w fin base l slices hs0 i (deque wk) (w_pc wk) v -> looks_again (w_pc wk) = false ->
  coordinate_step s i wk = Some s' -> smaller s' hs m s hs m.
Proof.
  intros HR Hi Hv Hw Hla Hs. assert (Hnum : num_workers s = nw) by apply HR. assert (Hg : grown hs hs) by by right.
  pose proof (sema_nonneg _ _ _ _ HR) as Hsema. pose proof (rp_globals _ _ _ _ _ _ _ _ _ _ _ _ _ HR) as HG.
  unfold coordinate_step in Hs. destruct wk as [sl d pc]. simpl in *.
  destruct Hw as [| | | | | | | | | | | | | | | | | | n|n|n k a Hk|n k a dpc Hk Hsz|k|k| | | | | | | |]; try done; simpl in Hs.
  - destruct (steal_coordinator s); injection Hs as <-; goes HR Hg Hi; intros _; (split; [done|]); simpl; lia.
  - injection Hs as <-. pose proof (early_at _ _ _ _ _ _ HR Hv I id) as HE. destruct (ea_coord _ _ _ HE _ _ Hv) as [_ Hn].
    left. unfold marking_on. simpl. rewrite (gl_marking _ _ _ HG), Hn. done.
  - injection Hs as <-. goes HR Hg Hi. intros _. split; [done|]. simpl. rewrite Hnum.
    pose proof (posting (steal_sema s) (size_t (nw - n)) Hsema (size_t_nonneg _)). lia.
  - rewrite Hnum in Hs. destruct (Z.ltb_spec k nw).
    { injection Hs as <-. goes HR Hg Hi. intros _. split; [done|]. simpl. unfold size_w. lia. }
    destruct (Z.eqb_spec a 0) as [->|Ha].
    { injection Hs as <-. goes HR Hg Hi. intros _. split; [done|]. simpl. unfold size_w. simpl. lia. }
    set (wake := if size_t (nw - n) <? a then size_t (nw - n) else a) in *.
    assert (Hwk : posts_w wake <= posts_w (size_t (nw - n))).
    { unfold posts_w. pose proof take_w_pos. apply Z.mul_le_mono_nonneg_l; [unfold token_w; lia|].
      unfold wake. destruct (Z.ltb_spec (size_t (nw - n)) a); lia. }
    destruct (0 <? wake); injection Hs as <-; goes HR Hg Hi; intros _; (split; [done|]); simpl; unfold size_w; rewrite (proj2 (Z.eqb_neq _ _)) by done;
      unfold found_w; pose proof (posts_w_nonneg (size_t (nw - n))); lia.
  - destruct dpc; try done. destruct (workers s !! Z.to_nat k) as [vk|] eqn:Hvk; [|done]. injection Hs as <-. goes HR Hg Hi. intros _. split; [done|]. simpl.
    replace (top_of s (Z.to_nat k)) with (top (deque vk)) by (unfold top_of; by rewrite Hvk). unfold size_w. pose proof (found_w_pos n).
    destruct (Z.leb_spec bot (top (deque vk))) as [Hle|Hlt].
    + assert (size_t (a + (if bot <? top (deque vk) then 0 else bot - top (deque vk))) = size_t a) as ->.
      { f_equal. destruct (Z.ltb_spec bot (top (deque vk))); lia. }
      destruct (Z.eqb_spec a 0) as [->|]; [change (size_t 0) with 0; simpl; lia|]. destruct (size_t a =? 0); lia.
    + destruct (size_t _ =? 0), (a =? 0); lia.
  - injection Hs as <-. goes HR Hg Hi.
    + rewrite (marking_at _ _ _ _ _ _ HR Hv I id). apply marking_le.
    + intros _. split; [done|]. simpl. lia.
  - injection Hs as <-. goes HR Hg Hi. intros _. split; [done|]. simpl.
    pose proof (ea_coord _ _ _ (early_at _ _ _ _ _ _ HR Hv I id) _ _ Hv) as Hk. simpl in Hk. pose proof (posting (steal_sema s) k Hsema ltac:(lia)). lia.
  - destruct (decide (steal_coordinator s = Some i)); [|done]. injection Hs as <-. goes HR Hg Hi. intros _. split; [done|]. simpl. lia.
Qed.
Lemma finish_smaller s hs m V i wk v s' : Rep s hs m V -> workers s !! i = Some wk -> v_ws V !! i = Some v ->
  wrep w fin base l slices hs0 i (deque wk) (w_pc wk) v ->
  finish_step s i wk = Some s' -> smaller s' hs m s hs m.
Proof.
  intros HR Hi Hv Hw Hs. assert (Hg : grown hs hs) by by right. unfold finish_step in Hs. destruct wk as [sl d pc]. simpl in *.
  destruct Hw; try done; simpl in Hs.
  - injection Hs as <-. goes HR Hg Hi.
    + rewrite (marking_at _ _ _ _ _ _ HR Hv I id). apply marking_le.
    + intros _. split; [done|]. simpl. lia.
  - destruct (steal_sema s =? 0); [done|]. injection Hs as <-. goes HR Hg Hi. intros _. split; [done|]. simpl. lia.
  - destruct (num_workers_marking s =? 0); injection Hs as <-; goes HR Hg Hi; intros _; (split; [done|]); simpl; unfold token_w, take_w; lia.
  - destruct (Ci_Barrier_Wait (done_barrier s)) as [b [e|]]; injection Hs as <-; goes HR Hg Hi; intros _; (split; [done|]); simpl; lia.
  - destruct (e =? epoch (done_barrier s)); [done|]. injection Hs as <-. goes HR Hg Hi. intros _. split; [done|]. simpl. lia.
  - injection Hs as <-. goes HR Hg Hi. intros _. split; [done|]. simpl. lia.
Qed.

(** ** Some thread gets on *)

Abbreviation step_ok := (worker_step_ok w fin base l slices hs0 e0 e1 reach0 workers_range epochs slices_join external_range outside
  objects_range reach0_range).
Definition Goes_on s hs m : Prop := ∃ s' hs' m' V', par_step w (s, hs, m) (s', hs', m') ∧ Rep s' hs' m' V' ∧ smaller s' hs' m' s hs m.
Lemma worker_smaller s hs m V i wk : Rep s hs m V -> workers s !! i = Some wk -> worker_waits s (w_pc wk) = false ->
  looks_again (w_pc wk) = false -> Goes_on s hs m.
Proof.
  intros HR Hi Hwait Hla. destruct (step_ok _ _ _ _ _ 0 _ HR Hi Hwait) as (s' & hs' & V' & Hs & Hst & HR').
  pose proof (marks_grow _ _ _ _ _ _ _ _ HR HR' Hst) as Hg. exists s', hs', m, V'. split; [by eapply par_worker|]. split; [done|].
  destruct (rp_workers _ _ _ _ _ _ _ _ _ _ _ _ _ HR _ _ Hi) as [Hsl (v & Hv & Hw) _ _ _]. unfold worker_step in Hs. rewrite Hi in Hs. simpl in Hs.
  assert (Hpure : ∀ o : option Ci_ParGCState, (s0 ← o; Some (s0, hs)) = Some (s', hs') -> o = Some s' ∧ hs' = hs).
  { intros [s0|]; [|done]. by intros [= -> ->]. }
  destruct (w_pc wk) eqn:Hpc; try (apply Hpure in Hs as [Hs ->]); rewrite <- Hpc in *; pose proof Hw as Hv'; rewrite Hpc in Hv'.
  all: try by (eapply subtract_smaller; [exact HR|exact Hi|exact Hw|exact Hsl|by inversion Hv'|exact Hg|exact Hs]).
  all: try by (eapply mark_smaller; [exact HR|exact Hi|exact Hw|exact Hsl|by rewrite Hpc|by inversion Hv'|exact Hg|exact Hs]).
  all: try by (eapply finish_smaller; [exact HR|exact Hi|exact Hv|exact Hw|exact Hs]).
  all: try by (eapply coord_smaller; [exact HR|exact Hi|exact Hv|exact Hw|exact Hla|exact Hs]).
  - by eapply push_smaller.
  - by eapply taking_smaller.
  - eapply idle_smaller; [exact HR|exact Hi|by rewrite Hpc|exact Hs].
  - eapply idle_smaller; [exact HR|exact Hi|by rewrite Hpc|exact Hs].
  - by eapply stealing_smaller.
Qed.
Lemma main_smaller s hs m V s' m' : Rep s hs m V -> main_step s m = Some (s', m') -> Goes_on s hs m.
Proof.
  intros HR Hs. destruct (main_ok w fin base l slices hs0 e0 e1 reach0 workers_range epochs slices_join external_range
    outside objects_range reach0_range _ _ _ _ _ _ HR Hs) as (V' & _ & HR').
  exists s', hs, m', V'. split; [by apply par_main|]. split; [done|].
  assert (He : ∃ b, s' = set_done_barrier b s ∧ main_w m' < main_w m).
  { unfold main_step in Hs. destruct m as [|e|]; [| |done].
    - destruct (Ci_Barrier_Wait (done_barrier s)) as [b wait]. exists b. by destruct wait; injection Hs as <- <-.
    - destruct (_ =? _); [done|]. injection Hs as <- <-. exists (done_barrier s). by destruct s. }
  destruct He as (b & -> & Hm). do 3 (right; split; [done|]). unfold steps_left. simpl.
  rewrite (zsumi_ext (λ i wk, pc_w (top_of (set_done_barrier b s)) i (w_pc wk)) (λ i wk, pc_w (top_of s) i (w_pc wk))) by done. lia.
Qed.

(** A coordinator whose workers all sleep. *)
Lemma alone_asleep s hs m V i wk : Rep s hs m V -> workers s !! i = Some wk -> looks_again (w_pc wk) = true ->
  (∀ j u, j ≠ i -> workers s !! j = Some u -> worker_waits s (w_pc u) = true) ->
  num_workers_marking s = 1 ∧ ∀ j u, workers s !! j = Some u -> bot (deque u) <= top (deque u).
Proof.
  intros HR Hi Hla Hoth. pose proof HR as [R1 R2 [G1 G2 G3 G4 G5 G6] R4 R5 R6].
  destruct (wo_view _ _ _ _ _ _ _ _ _ _ (R5 _ _ Hi)) as (v & Hv & Hw).
  assert (Hc : v = VCoord CLoad ∨ ∃ n, v = VCoord (CRead n)) by (destruct Hw; try done; eauto).
  assert (HE : Early slices e0 V) by (eapply early_at; [exact HR|exact Hv|destruct Hc as [->|[n ->]]; simpl; tauto..]).
  assert (HA : After w l slices e0 V) by (eapply after_phase; [exact R1|exact Hv|by destruct Hc as [->|[n ->]]]).
  pose proof (af_bar _ _ _ _ _ HA) as [_ B2 _]. pose proof (epoch_differs e0 ltac:(tauto)) as He0. rewrite <- G1 in B2.
  assert (Hoth' : ∀ j u, j ≠ i -> v_ws V !! j = Some u -> u = VSema ∧ steal_sema s = 0).
  { intros j u Hj Hu. assert (is_Some (workers s !! j)) as [x Hx].
    { apply lookup_lt_is_Some. apply lookup_lt_Some in Hu. pose proof (vi_ws _ _ _ _ _ _ R1). unfold Zlen in *. lia. }
    specialize (Hoth _ _ Hj Hx). destruct (wo_view _ _ _ _ _ _ _ _ _ _ (R5 _ _ Hx)) as (u' & Hu' & Hwu). assert (u' = u) as -> by congruence.
    pose proof (ea_ws _ _ _ HE _ _ Hu) as Hu2. destruct Hwu; simpl in Hoth, Hu2; try done.
    - apply Z.eqb_eq in Hoth. congruence.
    - by apply Z.eqb_eq in Hoth. }
  assert (Hlt : (i < length (v_ws V))%nat) by (by eapply lookup_lt_Some).
  assert (Hall : ∀ u, u ∈ v_ws V -> post_of slices u = 0 ∧ working u = false).
  { intros u [j Hj]%list_elem_of_lookup. destruct (decide (j = i)) as [->|Hji].
    - assert (u = v) as -> by congruence. by destruct Hc as [->|[n ->]].
    - by destruct (Hoth' _ _ Hji Hj) as [-> _]. }
  split.
  - pose proof (ea_count _ _ _ HE) as Hcount. rewrite (zsum_0 (post_of slices)) in Hcount by (intros u Hu; by apply Hall).
    assert (Hn : num is_sema (v_ws V) = nw - 1).
    { pose proof (num_insert is_sema (v_ws V) i v VSema Hv) as Hins. rewrite num_full in Hins.
      - rewrite Zlen_insert, (vi_ws _ _ _ _ _ _ R1) in Hins. assert (is_sema v = false) as Hvs by (by destruct Hc as [->|[n ->]]). rewrite Hvs in Hins. simpl in Hins. lia.
      - intros u [j Hj]%list_elem_of_lookup. apply list_lookup_insert_Some in Hj as [(_ & <- & _)|[Hji Hj]]; [done|].
        by destruct (Hoth' j u ltac:(congruence) Hj) as [-> _]. }
    pose proof (ea_marking _ _ _ HE). rewrite G2. rewrite Hn, <- G4 in Hcount.
    destruct (decide (nw = 1)) as [H1|H1]; [lia|]. assert (Hj : is_Some (v_ws V !! (if decide (i = 0%nat) then 1%nat else 0%nat))).
    { apply lookup_lt_is_Some. pose proof (vi_ws _ _ _ _ _ _ R1). unfold Zlen in *. case_decide; lia. }
    destruct Hj as [u Hu].
    assert (Hne : (if decide (i = 0%nat) then 1%nat else 0%nat) ≠ i) by (case_decide; lia). destruct (Hoth' _ u Hne Hu) as [_ Hs0]. lia.
  - intros j u Hj. destruct (R5 _ _ Hj) as [_ (x & Hx & Hwx) (q & Hq & Hcq) _ _].
    pose proof (mk_idle _ _ _ _ (af_marks _ _ _ _ _ HA) _ _ _ Hx Hq (proj2 (Hall x ltac:(by eapply list_elem_of_lookup_2)))) as ->.
    pose proof (content_length (deque u) (own (w_pc u))) as Hl. rewrite Hcq in Hl. change (Zlen (FROM_GC <$> [])) with 0 in Hl.
    assert (Hown : own (w_pc u) = None).
    { pose proof (proj2 (Hall x ltac:(by eapply list_elem_of_lookup_2))) as Hk. by destruct Hwx. }
    rewrite Hown in Hl. simpl in Hl. lia.
Qed.
Lemma alone_smaller s hs m V i wk : Rep s hs m V -> workers s !! i = Some wk -> looks_again (w_pc wk) = true ->
  (∀ j u, j ≠ i -> workers s !! j = Some u -> worker_waits s (w_pc u) = true) -> Goes_on s hs m.
Proof.
  intros HR Hi Hla Hoth. destruct (alone_asleep _ _ _ _ _ _ HR Hi Hla Hoth) as [Hm1 Hdq].
  destruct (step_ok _ _ _ _ _ 0 _ HR Hi ltac:(by destruct (w_pc wk))) as (s' & hs' & V' & Hs & Hst & HR').
  exists s', hs', m, V'. split; [by eapply par_worker|]. split; [done|]. assert (Hg : grown hs hs) by by right.
  rewrite (step_plain _ _ _ _ _ _ Hi) in Hs. unfold coordinate_step in Hs. destruct wk as [sl d pc]. simpl in *.
  destruct pc; try done; simpl in Hs.
  - rewrite Hm1 in Hs. injection Hs as <- <-. goes HR Hg Hi. intros _. split; [done|]. simpl. lia.
  - destruct dpc; try done. destruct (workers s !! Z.to_nat i0) as [vk|] eqn:Hvk; [|done]. injection Hs as <- <-.
    goes HR Hg Hi. intros _. split; [done|]. simpl. replace (top_of s (Z.to_nat i0)) with (top (deque vk)) by (unfold top_of; by rewrite Hvk).
    rewrite (proj2 (Z.leb_le _ _)) by (by eapply Hdq). lia.
Qed.
Lemma goes_on s hs m V : Rep s hs m V -> m = MainDone ∨ Goes_on s hs m.
Proof.
  intros HR. destruct (decide (Exists (λ wk, worker_waits s (w_pc wk) = false) (workers s))) as [He|He].
  - right. apply Exists_exists in He as (wk & [i Hi]%list_elem_of_lookup & Hwait).
    destruct (decide (Exists (λ wk, worker_waits s (w_pc wk) = false ∧ looks_again (w_pc wk) = false) (workers s))) as [He2|He2].
    + apply Exists_exists in He2 as (u & [j Hj]%list_elem_of_lookup & Hu1 & Hu2). by eapply worker_smaller.
    + assert (Hlook : ∀ j u, workers s !! j = Some u -> worker_waits s (w_pc u) = false -> looks_again (w_pc u) = true).
      { intros j u Hj Hu. apply not_false_is_true. intros Hla. apply He2, Exists_exists. exists u. split; [by eapply list_elem_of_lookup_2|done]. }
      eapply alone_smaller; [exact HR|exact Hi|by eapply Hlook|]. intros j u Hji Hj. apply not_false_is_true. intros Hu.
      assert (Hcoord : ∀ k x, workers s !! k = Some x -> looks_again (w_pc x) = true -> ∃ c, v_ws V !! k = Some (VCoord c)).
      { intros k x Hk Hx. destruct (wo_view _ _ _ _ _ _ _ _ _ _ (rp_workers _ _ _ _ _ _ _ _ _ _ _ _ _ HR _ _ Hk)) as (v & Hv & Hw).
        destruct Hw; try done; by eexists. }
      destruct (Hcoord _ _ Hi (Hlook _ _ Hi Hwait)) as (c & Hc). destruct (Hcoord _ _ Hj (Hlook _ _ Hj Hu)) as (c' & Hc').
      pose proof (after_phase w l slices e0 e1 V i _ (rp_inv _ _ _ _ _ _ _ _ _ _ _ _ _ HR) Hc I) as HA.
      by eapply (coord_unique V i c j c' (af_coord _ _ _ _ _ HA)).
  - destruct (main_step s m) as [[s' m']|] eqn:Hm; [right; by eapply main_smaller|left].
    eapply (stuck_done w fin base l slices hs0 e0 e1); [..|exact HR| |exact Hm]; try done.
    intros i wk Hi. apply not_false_is_true. intros Hw. apply He, Exists_exists. exists wk. split; [by eapply list_elem_of_lookup_2|done].
Qed.

(** ** To the end *)

Lemma slice_w_pos ys : 0 < slice_w ys.
Proof.
  unfold slice_w. pose proof take_w_pos. pose proof (zsum_nonneg (λ y, visit_w (traversal w (FROM_GC y)) + 5) ys) as Hz.
  assert (0 <= zsum (λ y, visit_w (traversal w (FROM_GC y)) + 5) ys); [|lia]. apply Hz. intros y _. unfold visit_w.
  pose proof (Zlen_nonneg (traversal w (FROM_GC y))). lia.
Qed.
Lemma sub_w_pos i ys : 0 < sub_w i ys.
Proof.
  unfold sub_w. pose proof (slice_w_pos (slice i)). pose proof (zsum_nonneg (λ y, 2 * Zlen (traversal w (FROM_GC y)) + 3) ys) as Hz.
  assert (0 <= zsum (λ y, 2 * Zlen (traversal w (FROM_GC y)) + 3) ys); [|lia]. apply Hz. intros y _.
  pose proof (Zlen_nonneg (traversal w (FROM_GC y))). lia.
Qed.
Lemma cont_w_pos i k : 0 < cont_w i k.
Proof. destruct k as [gc|]; simpl; [pose proof (slice_w_pos (next_here i gc)); lia|apply take_w_pos]. Qed.
(** A fact that is not known yet. *)
Ltac learn P := let T := type of P in lazymatch goal with H : T |- _ => fail | _ => pose proof P end.
Lemma pc_w_nonneg tops i pc : 0 <= pc_w tops i pc.
Proof.
  pose proof take_w_pos. assert (0 < token_w) by (unfold token_w; lia).
  destruct pc; simpl; unfold visit_w, size_w;
    repeat match goal with
           | |- context [sub_w ?i ?ys] => learn (sub_w_pos i ys)
           | |- context [slice_w ?ys] => learn (slice_w_pos ys)
           | |- context [cont_w ?i ?k] => learn (cont_w_pos i k)
           | |- context [posts_w ?n] => learn (posts_w_nonneg n)
           | |- context [found_w ?n] => learn (found_w_pos n)
           | |- context [Zlen ?ys] => learn (Zlen_nonneg ys)
           | |- context [take_rank ?p] => learn (take_rank_pos p)
           | |- context [push_rank ?p] => learn (push_rank_pos p)
           | |- context [steal_rank ?t ?p] => learn (steal_rank_pos t p)
           end; repeat case_match; lia.
Qed.
Lemma objects_left_nonneg s hs : 0 <= objects_left s hs.
Proof.
  apply zsum_nonneg. intros wk _. unfold on_way, in_hand. pose proof (Zlen_nonneg (content (deque wk) (own (w_pc wk)))).
  destruct (w_pc wk); try lia; [case_match; lia|]. pose proof (Zlen_nonneg (hand (deque wk) dpc)). lia.
Qed.
Lemma steps_left_nonneg s hs m V : Rep s hs m V -> 0 <= steps_left s m.
Proof.
  intros HR. unfold steps_left. pose proof (sema_nonneg _ _ _ _ HR). pose proof take_w_pos.
  assert (0 <= token_w * steal_sema s) by (unfold token_w; nia). assert (0 <= main_w m) by (by destruct m).
  assert (0 <= zsumi (λ i wk, pc_w (top_of s) i (w_pc wk)) (workers s)); [|lia]. apply zsumi_nonneg. intros. apply pc_w_nonneg.
Qed.
(** From every state a schedule leads to the end. *)
Lemma can_finish s hs m V : Rep s hs m V -> ∃ s' hs', rtc (par_step w) (s, hs, m) (s', hs', MainDone).
Proof.
  remember (Z.to_nat (marking_on s)) as a eqn:Ha. revert s hs m V Ha. induction (lt_wf a) as [a _ IHa]. intros s hs m V Ha.
  remember (Z.to_nat (unmarked hs)) as b eqn:Hb. revert s hs m V Ha Hb. induction (lt_wf b) as [b _ IHb]. intros s hs m V Ha Hb.
  remember (Z.to_nat (objects_left s hs)) as c eqn:Hc. revert s hs m V Ha Hb Hc. induction (lt_wf c) as [c _ IHc]. intros s hs m V Ha Hb Hc.
  remember (Z.to_nat (steps_left s m)) as d eqn:Hd. revert s hs m V Ha Hb Hc Hd. induction (lt_wf d) as [d _ IHd]. intros s hs m V Ha Hb Hc Hd HR.
  destruct (goes_on _ _ _ _ HR) as [->|(s' & hs' & m' & V' & Hst & HR' & Hsm)]; [by exists s, hs|].
  cut (∃ s2 hs2, rtc (par_step w) (s', hs', m') (s2, hs2, MainDone)).
  { intros (s2 & hs2 & Hr). exists s2, hs2. by eapply rtc_l. }
  assert (Hm : ∀ s, 0 <= marking_on s) by (intros s0; unfold marking_on; destruct (_ =? 0); lia).
  assert (Hu : ∀ hs, 0 <= unmarked hs) by (intros; apply Zlen_nonneg).
  pose proof (Hm s'). pose proof (Hu hs'). pose proof (objects_left_nonneg s' hs'). pose proof (steps_left_nonneg _ _ _ _ HR').
  destruct (decide (marking_on s' < marking_on s)) as [L1|L1]; [eapply (IHa (Z.to_nat (marking_on s'))); [lia|done|exact HR']|].
  destruct (decide (unmarked hs' < unmarked hs)) as [L2|L2].
  { eapply (IHb (Z.to_nat (unmarked hs'))); [lia| |done|exact HR']. unfold smaller in Hsm. lia. }
  destruct (decide (objects_left s' hs' < objects_left s hs)) as [L3|L3].
  { eapply (IHc (Z.to_nat (objects_left s' hs'))); [lia| | |done|exact HR']; unfold smaller in Hsm; lia. }
  eapply (IHd (Z.to_nat (steps_left s' m'))); [| | | |done|exact HR']; unfold smaller in Hsm; lia.
Qed.
End finish.
