(* ===== verification/ParClaims.v ===== *)
(** * What the parallel collector does *)

From stdpp Require Import base list gmap numbers strings relations.
From S2P Require Import Prelude WsDeque WsDequeInv WsDequeSpec GcHead GcDeduce GcLinks GcLists GcSpec GcRefs GcCollect.
From S2P Require Import GcDemo ParDefs ParSpec ParProtocol ParWords ParRefine ParMain ParMove ParRun ParFinish.

Section whole.
Context {E : Type} {lay : GcLayout} {api : GcApi E}.
Variable fin : Z -> bool.
Variable w : E.
Variable permanent_generation : Z.
Abbreviation ptr := (ptr fin).
Abbreviation cnt := (cnt fin).
Abbreviation immortal := (λ x, Py_IsImmortal w (FROM_GC x) = true).
Abbreviation mortal := (λ x, Py_IsImmortal w (FROM_GC x) = false).
Implicit Types (hs : gmap Z gchead) (s : Ci_ParGCState) (m : gcmem E) (l perm : list Z).

(** What a parallel collection starts from. *)
Record par_collectable s hs (base unreachable : Z) l perm (e0 e1 : Z) : Prop := {
  pc_objects : collectable fin w permanent_generation false hs base unreachable l perm;
  pc_state : Ready s e0 e1;
  pc_reach : ∀ i, reach_of s i <= 2 ^ 62;
  pc_few : Zlen l < 2 ^ 31
}.
(** After [update_refs]. *)
Record Updated hs base unreachable l perm hs1 : Prop := {
  up_list : glist hs1 (cnt (refcnt w)) base (filter mortal l);
  up_perm : glist hs1 (ptr false) permanent_generation (perm ++ filter immortal l);
  up_agree : agree_off ((base :: l) ++ permanent_generation :: perm) hs hs1;
  up_outside : ∀ x y, x ∈ filter mortal l -> y ∈ children w x -> y ∉ filter mortal l ->
    y ∉ [base; unreachable; permanent_generation] ∧ quiet hs1 y
}.
Lemma update_returns base unreachable l perm hs : collectable fin w permanent_generation false hs base unreachable l perm ->
  ∃ hs1, update_refs permanent_generation base (GCMem hs w) = Ret (size_t (Zlen (filter mortal l))) (GCMem hs1 w) ∧
    Updated hs base unreachable l perm hs1.
Proof.
  intros Hco. destruct (wp_returns (update_refs permanent_generation base)
    (λ n m, n = size_t (Zlen (filter mortal l)) ∧ ∃ hs1, m = GCMem hs1 w ∧ Updated hs base unreachable l perm hs1) (GCMem hs w))
    as (n & m & Hu & -> & hs1 & -> & HU); [|by exists hs1].
  apply (update_wp fin w permanent_generation base unreachable l perm); [done|]. intros hs1 A1 A2 A3 A4. split; [done|]. by exists hs1.
Qed.
Lemma update_gives base unreachable l perm hs n m1 : collectable fin w permanent_generation false hs base unreachable l perm ->
  update_refs permanent_generation base (GCMem hs w) = Ret n m1 ->
  n = size_t (Zlen (filter mortal l)) ∧ ∃ hs1, m1 = GCMem hs1 w ∧ Updated hs base unreachable l perm hs1.
Proof. intros Hco Hu. destruct (update_returns _ _ _ _ _ Hco) as (hs1 & Hu' & HU). rewrite Hu in Hu'. injection Hu' as -> ->. split; [done|]. by exists hs1. Qed.
(** The workers' parts of the objects. *)
Record Parts s l (parts : list (list Z)) : Prop := {
  pa_join : mjoin parts = filter mortal l;
  pa_nonempty : Forall (λ p, p ≠ []) parts;
  pa_workers : Zlen parts = num_workers s
}.
Lemma sizes s hs base unreachable l perm e0 e1 n : par_collectable s hs base unreachable l perm e0 e1 ->
  n = size_t (Zlen (filter mortal l)) ->
  uint n = Zlen (filter mortal l) ∧ int (uint n) = Zlen (filter mortal l) ∧ int (num_workers s) = num_workers s ∧ Zlen (filter mortal l) < 2 ^ 31.
Proof.
  intros [_ [Hs _ _ _ _ _ _] _ Hl] ->. pose proof (length_filter mortal l) as Hlen. pose proof (Zlen_nonneg (filter mortal l)).
  assert (Zlen (filter mortal l) <= Zlen l) by (unfold Zlen; lia).
  rewrite size_t_small by (unfold SIZE_T_MOD; lia). assert (uint (Zlen (filter mortal l)) = Zlen (filter mortal l)) as -> by (apply Z.mod_small; lia).
  unfold int. rewrite !Z.mod_small by lia. lia.
Qed.
Lemma null_outside base unreachable l perm hs : collectable fin w permanent_generation false hs base unreachable l perm ->
  0 ∉ filter mortal l.
Proof. intros Hco [_ H]%list_elem_of_filter. apply (co_not_null _ _ _ _ _ _ _ _ _ Hco). by right. Qed.
Lemma assign_returns s hs base unreachable l perm e0 e1 hs1 : par_collectable s hs base unreachable l perm e0 e1 ->
  Updated hs base unreachable l perm hs1 -> num_workers s <= Zlen (filter mortal l) ->
  ∃ parts, Ci_assign_worker_slices (num_workers s) base (Zlen (filter mortal l)) (GCMem hs1 w) = Ret (slices_of parts base) (GCMem hs1 w) ∧
    Parts s l parts.
Proof.
  intros [Hco [Hs _ _ _ _ _ _] _ _] HU Hn. destruct (wp_returns (Ci_assign_worker_slices (num_workers s) base (Zlen (filter mortal l)))
    (λ sl m, m = GCMem hs1 w ∧ ∃ parts, sl = slices_of parts base ∧ Parts s l parts) (GCMem hs1 w))
    as (sl & m & Ha & -> & parts & -> & HP); [|by exists parts].
  apply (assign_slices_wp fin w (cnt (refcnt w))); [apply HU|by eapply null_outside|lia|]. intros parts P1 P2 P3. split; [done|]. by exists parts.
Qed.
(** The run is one of the threads on [w]. *)
Lemma run_world s hs base unreachable l perm e0 e1 n m1 sl m2 : par_collectable s hs base unreachable l perm e0 e1 ->
  update_refs permanent_generation base (GCMem hs w) = Ret n m1 -> num_workers s <= uint n ->
  Ci_assign_worker_slices (int (num_workers s)) base (int (uint n)) m1 = Ret sl m2 ->
  ∃ hs1 parts, m2 = GCMem hs1 w ∧ sl = slices_of parts base ∧ Updated hs base unreachable l perm hs1 ∧ Parts s l parts.
Proof.
  intros Hpc Hu Hn Ha. destruct (update_gives _ _ _ _ _ _ _ (pc_objects _ _ _ _ _ _ _ _ Hpc) Hu) as (Hsz & hs1 & -> & HU).
  pose proof (sizes _ _ _ _ _ _ _ _ _ Hpc Hsz) as (Z1 & Z2 & Z3 & Z4).
  rewrite Z1 in Hn. rewrite Z2, Z3 in Ha. destruct (assign_returns _ _ _ _ _ _ _ _ _ Hpc HU Hn) as (parts & Ha' & HP).
  rewrite Ha in Ha'. injection Ha' as -> ->. by exists hs1, parts.
Qed.
Lemma run_starts s hs base unreachable l perm e0 e1 c : par_collectable s hs base unreachable l perm e0 e1 ->
  parallel_run permanent_generation s base (GCMem hs w) c ->
  ∃ hs1 parts, Updated hs base unreachable l perm hs1 ∧ Parts s l parts ∧
    rtc (par_step w) (start_workers s (slices_of parts base), hs1, MainArrive) c.
Proof.
  intros Hpc [n m1 sl m2 c0 Hu Hn Ha Hr].
  destruct (run_world _ _ _ _ _ _ _ _ _ _ _ _ Hpc Hu Hn Ha) as (hs1 & parts & -> & -> & HU & HP). by exists hs1, parts.
Qed.
(** What the lemmas about runs ask for. *)
Lemma run_facts s hs base unreachable l perm e0 e1 hs1 parts : par_collectable s hs base unreachable l perm e0 e1 ->
  Updated hs base unreachable l perm hs1 -> Parts s l parts ->
  1 <= nw parts < 2 ^ 31 ∧ (0 <= e0 < 2 ^ 32 ∧ 0 <= e1 < 2 ^ 32) ∧ (∀ x, x ∈ filter mortal l -> 0 <= external w (filter mortal l) x < 2 ^ 62) ∧
  (∀ x y, x ∈ filter mortal l -> y ∈ children w x -> ok_ref (filter mortal l) hs1 y) ∧ Zlen (filter mortal l) < 2 ^ 31 ∧
  (∀ i, reach_of s i <= 2 ^ 62) ∧ ∀ x, x ∈ filter mortal l -> 0 <= refcnt w x < 2 ^ 62.
Proof.
  intros Hpc HU [P1 P2 P3]. pose proof Hpc as [Hco [Hs He _ _ _ _ _] Hf Hl].
  pose proof (sizes _ _ _ _ _ _ _ _ _ Hpc eq_refl) as (_ & _ & _ & Z4).
  assert (Hrange := λ x, counts_range fin w permanent_generation _ _ _ _ _ _ x Hco). 
  split; [unfold nw; lia|]. split; [done|]. split; [intros x Hx; by apply Hrange|].
  split; [|split; [done|split; [done|]]]; intros x; [intros y Hx Hy|intros Hx].
  - destruct (decide (y ∈ filter mortal l)) as [?|Hny]; [by left|right]. by apply (up_outside _ _ _ _ _ _ HU x y).
  - pose proof (Hrange x Hx). pose proof (internal_nonneg w (filter mortal l) x). lia.
Qed.
(** The invariant of a run. *)
Lemma run_rep s hs base unreachable l perm e0 e1 c : par_collectable s hs base unreachable l perm e0 e1 ->
  parallel_run permanent_generation s base (GCMem hs w) c ->
  ∃ hs1 parts V, Updated hs base unreachable l perm hs1 ∧ Parts s l parts ∧
    rtc (vstep w (filter mortal l) parts) (start_view w parts s) V ∧
    Rep w fin base (filter mortal l) parts hs1 e0 e1 (reach_of s) c.1.1 c.1.2 c.2 V.
Proof.
  intros Hpc Hr. destruct (run_starts _ _ _ _ _ _ _ _ _ Hpc Hr) as (hs1 & parts & HU & HP & Hst). exists hs1, parts.
  destruct (run_facts _ _ _ _ _ _ _ _ _ _ Hpc HU HP) as (F1 & F2 & F3 & F4 & F5 & F6 & F7). pose proof HP as [P1 P2 P3].
  destruct (par_steps_ok w fin base (filter mortal l) parts hs1 e0 e1 (reach_of s) F1 F2 P1 F3 F4 F5 F6 _ _ Hst (start_view w parts s)) as (V & HV & HRV).
  - eapply start_rep; [apply Hpc|done|done|done|done|apply HU].
  - by exists V.
Qed.

(** ** The two ways a collection goes *)

(** The reachable objects stay in [base], the others are in [unreachable]. *)
Definition separated hs base unreachable l perm m : Prop :=
  ∃ xs us hs', m = GCMem hs' w ∧ xs ++ us ≡ₚ filter mortal l ∧ (∀ x, x ∈ xs <-> reachable w (filter mortal l) x) ∧
    glist hs' (ptr false) base xs ∧ flist hs' (ptr true) unreachable us ∧
    glist hs' (ptr false) permanent_generation (perm ++ filter immortal l) ∧
    agree_off (unreachable :: (base :: l) ++ permanent_generation :: perm) hs hs'.
Lemma mortal_split l : filter mortal l ++ filter immortal l ≡ₚ l.
Proof.
  induction l as [|x l IH]; [done|]. rewrite !filter_cons. destruct (Py_IsImmortal w (FROM_GC x)).
  - rewrite decide_False, decide_True by done. rewrite <- Permutation_middle. by constructor.
  - rewrite decide_True, decide_False by done. by constructor.
Qed.
Lemma mortal_mortal l : filter mortal (filter mortal l) = filter mortal l ∧ filter immortal (filter mortal l) = [].
Proof.
  induction l as [|x l [IH1 IH2]]; [done|]. rewrite !(filter_cons _ x l). case_decide as Hx; [|done].
  rewrite !filter_cons, decide_True, decide_False by congruence. by rewrite IH1, IH2.
Qed.
Lemma mark_split (mk : gset Z) l : filter (λ x, x ∈ mk) l ++ filter (λ x, x ∉ mk) l ≡ₚ l.
Proof.
  induction l as [|x l IH]; [done|]. rewrite !filter_cons. destruct (decide (x ∈ mk)) as [Hx|Hx].
  - rewrite decide_False by tauto. simpl. by constructor.
  - rewrite decide_True by done. rewrite <- Permutation_middle. by constructor.
Qed.
Lemma restored_collectable base unreachable l perm hs hs1 hs2 : collectable fin w permanent_generation false hs base unreachable l perm ->
  Updated hs base unreachable l perm hs1 -> glist hs2 (ptr false) base (filter mortal l) -> agree_off (filter mortal l) hs1 hs2 ->
  collectable fin w permanent_generation false hs2 base unreachable (filter mortal l) (perm ++ filter immortal l).
Proof.
  intros [Hb Hp Hnd Hu Hnull Hrefs Hcount Hout] [U1 U2 U3 U4] H1 H2. destruct (mortal_mortal l) as [M1 _].
  assert (HMl : ∀ x, x ∈ filter mortal l -> x ∈ l) by (intros x [_ Hx]%list_elem_of_filter; done).
  split; rewrite ?M1; try done.
  - eapply glist_agree; [|exact U2]. intros x Hx. apply H2. intros Hm. apply (perm_apart fin w _ _ _ _ _ x Hnd Hx). by right; right.
  - eapply NoDup_Permutation_proper; [|exact Hnd]. rewrite <- (mortal_split l) at 3. solve_Permutation.
  - intros [?|?%HMl]%elem_of_cons; apply Hnull; [by subst; left|by right].
  - intros x Hx. apply Hrefs. auto.
  - intros x Hx. apply Hcount. auto.
  - intros x y Hx Hm Hy. destruct (Hout x y (HMl _ Hx) Hm Hy) as [Hh _]. split; [done|].
    destruct (decide (y ∈ filter mortal l)) as [Hym|Hym]; [by left|right]. eapply quiet_agree; [exact H2|done|]. by apply (U4 x y).
Qed.
Lemma few_returns hs base unreachable l perm hs1 : collectable fin w permanent_generation false hs base unreachable l perm ->
  Updated hs base unreachable l perm hs1 -> ∃ m2 m3, Ci_restore_prev_ptrs base (GCMem hs1 w) = Ret tt m2 ∧
    deduce_unreachable permanent_generation base unreachable m2 = Ret tt m3 ∧ separated hs base unreachable l perm m3.
Proof.
  intros Hco HU. destruct (wp_returns (Ci_restore_prev_ptrs base) (λ _ m, ∃ hs2, m = GCMem hs2 w ∧
    glist hs2 (ptr false) base (filter mortal l) ∧ agree_off (filter mortal l) hs1 hs2) (GCMem hs1 w)) as ([] & m2 & Hr & hs2 & -> & H1 & H2).
  { eapply restore_prev_ptrs_wp; [apply HU| |intros hs2 H1 H2; by exists hs2].
    intros x [Hm Hx]%list_elem_of_filter. pose proof (co_refs _ _ _ _ _ _ _ _ _ Hco x Hx Hm). lia. }
  pose proof (restored_collectable _ _ _ _ _ _ _ Hco HU H1 H2) as Hco2. destruct (mortal_mortal l) as [M1 M2].
  destruct (wp_returns (deduce_unreachable permanent_generation base unreachable) (λ _ m, separated hs base unreachable l perm m) (GCMem hs2 w))
    as ([] & m3 & Hd & Hsep); [|by exists (GCMem hs2 w), m3].
  eapply deduce_unreachable_wp; [exact Hco2|]. rewrite M1, M2, app_nil_r.
  intros xs us hs3 C1 C2 C3 C4 C5 C6. exists xs, us, hs3. split_and!; try done.
  assert (HMl : ∀ x, x ∈ filter mortal l -> x ∈ l) by (intros x [_ Hx]%list_elem_of_filter; done).
  assert (HIl : ∀ x, x ∈ filter immortal l -> x ∈ l) by (intros x [_ Hx]%list_elem_of_filter; done).
  intros z Hz. rewrite C6, H2, (up_agree _ _ _ _ _ _ HU); [done| | |]; set_solver.
Qed.
Lemma many_returns s hs base unreachable l perm e0 e1 s' hs' : par_collectable s hs base unreachable l perm e0 e1 ->
  parallel_run permanent_generation s base (GCMem hs w) (s', hs', MainDone) ->
  ∃ m', (_ ← gc_list_init unreachable; Ci_move_unreachable_parallel base unreachable) (GCMem hs' w) = Ret tt m' ∧
    separated hs base unreachable l perm m'.
Proof.
  intros Hpc Hr. destruct (run_rep _ _ _ _ _ _ _ _ _ Hpc Hr) as (hs1 & parts & V & HU & HP & _ & HR).
  pose proof Hpc as [Hco _ _ _]. pose proof HP as [P1 P2 P3]. set (M := filter mortal l) in *.
  pose proof (co_distinct _ _ _ _ _ _ _ _ _ Hco) as Hnd.
  assert (HMl : ∀ x, x ∈ M -> x ∈ l) by (intros x [_ Hx]%list_elem_of_filter; done).
  assert (HIl : ∀ x, x ∈ filter immortal l -> x ∈ l) by (intros x [_ Hx]%list_elem_of_filter; done).
  assert (HUM : unreachable ∉ base :: M).
  { apply NoDup_cons in Hnd as [Hn _]. intros [->|Hx%HMl]%elem_of_cons; apply Hn; set_solver. }
  destruct (run_facts _ _ _ _ _ _ _ _ _ _ Hpc HU HP) as (F1 & F2 & F3 & F4 & F5 & F6 & F7).
  assert (Hmk : ∃ mk, HeadsOk fin base M hs1 (external w M) mk hs' ∧ ∀ x, x ∈ mk <-> reachable w M x) by (eapply done_ready; [..|exact HR]; done).
  destruct Hmk as (mk & HO & Hmk). pose proof HO as [HL Hag _]. set (hs2 := <[unreachable := GCHead unreachable unreachable]> hs').
  pose proof (gl_nodup _ _ _ _ HL) as HndM. pose proof (gl_aligned _ _ _ _ HL) as HalM.
  assert (Hd : NoDup (base :: unreachable :: M)).
  { rewrite NoDup_cons in *. rewrite NoDup_cons. set_solver. }
  assert (Ha : Forall aligned (base :: unreachable :: M)).
  { rewrite Forall_cons in *. rewrite Forall_cons. split_and!; try tauto. apply Hco. }
  assert (HL2 : glist hs2 (mark_word fin (external w M) mk) base M).
  { eapply glist_agree; [|exact HL]. intros x Hx. apply lookup_insert_ne. by intros ->. }
  destruct (wp_returns (Ci_move_unreachable_parallel base unreachable) (λ _ m, separated hs base unreachable l perm m) (GCMem hs2 w))
    as ([] & m' & Hm & Hsep); [|by exists m'].
  eapply (move_parallel_wp fin w base unreachable M mk hs2 Hd Ha (external w M)); [exact HL2|..].
  - apply lookup_insert_eq.
  - intros x Hx Hn. specialize (F3 x Hx). fold M in F3. assert (¬ 0 < external w M x); [|lia]. intros He. apply Hn, Hmk. by exists x.
  - assert (HPM := λ x, perm_apart fin w permanent_generation _ _ _ _ x Hnd). fold M in HPM.
    intros hs3 C1 C2 C3. exists (filter (λ x, x ∈ mk) M), (filter (λ x, x ∉ mk) M), hs3. split_and!; [done| | |done|done| |].
    + apply mark_split.
    + intros x. rewrite list_elem_of_filter, Hmk. split; [tauto|]. intros Hx. split; [done|]. by apply reachable_in in Hx.
    + eapply glist_agree; [|exact (up_perm _ _ _ _ _ _ HU)]. intros x Hx%HPM. rewrite C3 by done.
      unfold hs2. rewrite lookup_insert_ne by (intros ->; apply Hx; right; left). apply Hag. intros ?. apply Hx. by right; right.
    + intros z Hz. rewrite C3 by set_solver. unfold hs2. rewrite lookup_insert_ne by set_solver.
      rewrite Hag by set_solver. apply (up_agree _ _ _ _ _ _ HU). set_solver.
Qed.

(** ** The collection *)

(** C6. Whatever the order of the threads' steps, a parallel collection ends with the
    same two lists of objects as [deduce_unreachable]: those reachable from outside
    the list stay in [base], the others are in [unreachable] with flagged links;
    immortal objects go to the permanent generation and nothing else changes.  The
    state of the collector is ready for the next collection. *)
Theorem parallel_deduce_correct s base unreachable l perm hs e0 e1 s' m' :
  par_collectable s hs base unreachable l perm e0 e1 ->
  deduce_parallel permanent_generation s base unreachable (GCMem hs w) s' m' ->
  (∃ xs us hs', m' = GCMem hs' w ∧ xs ++ us ≡ₚ filter mortal l ∧
     (∀ x, x ∈ xs <-> reachable w (filter mortal l) x) ∧
     glist hs' (ptr false) base xs ∧ flist hs' (ptr true) unreachable us ∧
     glist hs' (ptr false) permanent_generation (perm ++ filter immortal l) ∧
     agree_off (unreachable :: (base :: l) ++ permanent_generation :: perm) hs hs') ∧
  ∃ e0' e1', Ready s' e0' e1' ∧ num_workers s' = num_workers s ∧
    ∀ i, (i < length (workers s'))%nat -> reach_of s' i <= reach_of s i + Zlen (filter mortal l).
Proof.
  intros Hpc [n m1 m2 m3 Hu Hn Hr Hd|s1 hs1 m1 Hr Hm].
  - split.
    { pose proof Hpc as [Hco _ _ _]. destruct (update_gives _ _ _ _ _ _ _ Hco Hu) as (_ & hs1 & -> & HU).
      destruct (few_returns _ _ _ _ _ _ Hco HU) as (m4 & m5 & Hr' & Hd' & Hsep). rewrite Hr in Hr'. injection Hr' as ->.
      rewrite Hd in Hd'. by injection Hd' as ->. }
    exists e0, e1. split_and!; [apply Hpc|done|].
    intros i _. pose proof (Zlen_nonneg (filter mortal l)). lia.
  - split; [destruct (many_returns _ _ _ _ _ _ _ _ _ _ Hpc Hr) as (m2 & Hm' & Hsep); change (set_heads hs1 (GCMem hs w)) with (GCMem hs1 w) in Hm;
      rewrite Hm in Hm'; by injection Hm' as ->|].
    destruct (run_rep _ _ _ _ _ _ _ _ _ Hpc Hr) as (hs2 & parts & V & HU & HP & _ & HR).
    destruct (run_facts _ _ _ _ _ _ _ _ _ _ Hpc HU HP) as (F1 & F2 & F3 & F4 & F5 & F6 & F7). pose proof HP as [P1 P2 P3].
    destruct (done_ready w fin base (filter mortal l) parts hs2 e0 e1 (reach_of s) F1 P1 F3 F4 F5 s1 hs1 V HR) as (G1 & _ & G3 & G4 & _).
    eexists _, _. split; [exact G1|]. split; [by rewrite G3|exact G4].
Qed.

(** C7. In every state that the threads can reach, every worker that does not wait
    can make its next step: no assertion fails and nothing is read out of bounds;
    and either some thread can go on, or the main thread and all workers are done:
    there is no deadlock. *)
Theorem parallel_progress s base unreachable l perm hs e0 e1 s' hs' mp :
  par_collectable s hs base unreachable l perm e0 e1 ->
  parallel_run permanent_generation s base (GCMem hs w) (s', hs', mp) ->
  (∀ i wk rand, workers s' !! i = Some wk -> worker_waits s' (w_pc wk) = false -> is_Some (worker_step w s' hs' i rand)) ∧
  ((∃ c, par_step w (s', hs', mp) c) ∨ mp = MainDone ∧ ∀ i wk, workers s' !! i = Some wk -> w_pc wk = WorkerDone).
Proof.
  intros Hpc Hr. destruct (run_rep _ _ _ _ _ _ _ _ _ Hpc Hr) as (hs1 & parts & V & HU & HP & _ & HR). simpl in HR.
  destruct (run_facts _ _ _ _ _ _ _ _ _ _ Hpc HU HP) as (F1 & F2 & F3 & F4 & F5 & F6 & F7). pose proof HP as [P1 P2 P3].
  assert (Hgo : ∀ i wk rand, workers s' !! i = Some wk -> worker_waits s' (w_pc wk) = false -> is_Some (worker_step w s' hs' i rand)).
  { intros i wk rand Hi Hw.
    destruct (worker_step_ok w fin base (filter mortal l) parts hs1 e0 e1 (reach_of s) F1 F2 P1 F3 F4 F5 F6 _ _ _ _ _ rand _ HR Hi Hw) as (s2 & hs2 & _ & Hs & _).
    by rewrite Hs. }
  split; [done|]. destruct (decide (Exists (λ wk, worker_waits s' (w_pc wk) = false) (workers s'))) as [He|He].
  - apply Exists_exists in He as (wk & [i Hi]%list_elem_of_lookup & Hw). left. destruct (Hgo i wk 0 Hi Hw) as [[s2 hs2] Hs].
    exists (s2, hs2, mp). by eapply par_worker.
  - destruct (main_step s' mp) as [[s2 mp2]|] eqn:Hm; [left; exists (s2, hs', mp2); by apply par_main|right].
    eapply (stuck_done w fin base (filter mortal l) parts hs1 e0 e1 (reach_of s)); [..|exact HR| |exact Hm]; try done.
    intros i wk Hi. apply not_false_is_true. intros Hw. apply He, Exists_exists. exists wk. split; [|done]. by eapply list_elem_of_lookup_2.
Qed.

(** While some worker has not made its first step, whatever the other threads
    do, the main thread waits: a thread that could not be started blocks the
    collection for ever. *)
Lemma unstarted_worker_blocks s base unreachable l perm hs e0 e1 s' hs' mp i wk :
  par_collectable s hs base unreachable l perm e0 e1 ->
  parallel_run permanent_generation s base (GCMem hs w) (s', hs', mp) ->
  workers s' !! i = Some wk -> w_pc wk = RunStart -> mp ≠ MainDone.
Proof.
  intros Hpc Hr Hi Hp ->. destruct (run_rep _ _ _ _ _ _ _ _ _ Hpc Hr) as (hs1 & parts & V & HU & HP & _ & HR). simpl in HR.
  destruct (run_facts _ _ _ _ _ _ _ _ _ _ Hpc HU HP) as (F1 & _). pose proof HP as [P1 _ _].
  by eapply (done_started w fin base (filter mortal l) parts hs1 e0 e1 (reach_of s)).
Qed.

(** C8. A parallel collection can always be completed: whatever the threads have done
    so far, some order of their further steps brings the main thread to the end of
    its wait, and the unreachable objects are then moved without failing.  So
    every collection has an outcome, also one with too few objects for the workers. *)
Theorem parallel_completes s base unreachable l perm hs e0 e1 :
  par_collectable s hs base unreachable l perm e0 e1 ->
  (∃ s' m', deduce_parallel permanent_generation s base unreachable (GCMem hs w) s' m') ∧
  ∀ c, parallel_run permanent_generation s base (GCMem hs w) c ->
    ∃ s' hs' m', rtc (par_step w) c (s', hs', MainDone) ∧
      (_ ← gc_list_init unreachable; Ci_move_unreachable_parallel base unreachable) (GCMem hs' w) = Ret tt m' ∧
      deduce_parallel permanent_generation s base unreachable (GCMem hs w) s' m'.
Proof.
  intros Hpc. assert (Hend : ∀ c, parallel_run permanent_generation s base (GCMem hs w) c -> ∃ s' hs' m', rtc (par_step w) c (s', hs', MainDone) ∧
      (_ ← gc_list_init unreachable; Ci_move_unreachable_parallel base unreachable) (GCMem hs' w) = Ret tt m' ∧
      deduce_parallel permanent_generation s base unreachable (GCMem hs w) s' m').
  { intros c Hr. destruct (run_rep _ _ _ _ _ _ _ _ _ Hpc Hr) as (hs1 & parts & V & HU & HP & _ & HR).
    destruct (run_facts _ _ _ _ _ _ _ _ _ _ Hpc HU HP) as (F1 & F2 & F3 & F4 & F5 & F6 & F7). pose proof HP as [P1 P2 P3].
    destruct (can_finish w fin base (filter mortal l) parts hs1 e0 e1 (reach_of s) F1 F2 P1 F3 F4 F5 F6 _ _ _ _ HR) as (s' & hs' & Hst).
    rewrite <- !surjective_pairing in Hst. assert (Hr' : parallel_run permanent_generation s base (GCMem hs w) (s', hs', MainDone)).
    { destruct Hr as [n m1 sl m2 c Hu Hn Ha Hr0]. eapply parallel_run_to; [exact Hu|exact Hn|exact Ha|]. etrans; [exact Hr0|].
      destruct (run_world _ _ _ _ _ _ _ _ _ _ _ _ Hpc Hu Hn Ha) as (hs2 & _ & -> & _). done. }
    destruct (many_returns _ _ _ _ _ _ _ _ _ _ Hpc Hr') as (m' & Hm & _). exists s', hs', m'. split_and!; [done|done|].
    by eapply deduce_many. }
  split; [|exact Hend]. pose proof Hpc as [Hco _ _ _]. destruct (update_returns _ _ _ _ _ Hco) as (hs1 & Hu & HU).
  pose proof (sizes _ _ _ _ _ _ _ _ _ Hpc eq_refl) as (Z1 & Z2 & Z3 & Z4).
  destruct (decide (num_workers s <= Zlen (filter mortal l))) as [Hn|Hn].
  - destruct (assign_returns _ _ _ _ _ _ _ _ _ Hpc HU Hn) as (parts & Ha & _).
    destruct (Hend (start_workers s (slices_of parts base), hs1, MainArrive)) as (s' & hs' & m' & _ & _ & Hd); [|by exists s', m'].
    eapply parallel_run_to; [exact Hu|by rewrite Z1|rewrite Z2, Z3; exact Ha|constructor].
  - destruct (few_returns _ _ _ _ _ _ Hco HU) as (m2 & m3 & Hr & Hd & _). exists s, m3. eapply deduce_few; [exact Hu| |exact Hr|exact Hd]. rewrite Z1. lia.
Qed.

(** C15. The workers implement the marking protocol: every run of the threads, with
    words in the headers and deques shared step by step, is a run of the protocol, in
    which marking an object and pushing or stealing one are single steps on sets and
    lists; what each worker is doing corresponds throughout. *)
Theorem parallel_refines s base unreachable l perm hs e0 e1 c :
  par_collectable s hs base unreachable l perm e0 e1 ->
  parallel_run permanent_generation s base (GCMem hs w) c ->
  ∃ hs1 parts V, mjoin parts = filter mortal l ∧ Zlen parts = num_workers s ∧
    rtc (vstep w (filter mortal l) parts) (start_view w parts s) V ∧
    Rep w fin base (filter mortal l) parts hs1 e0 e1 (reach_of s) c.1.1 c.1.2 c.2 V.
Proof.
  intros Hpc Hr. destruct (run_rep _ _ _ _ _ _ _ _ _ Hpc Hr) as (hs1 & parts & V & HU & [P1 P2 P3] & HV & HR). by exists hs1, parts, V.
Qed.

(** C14. In every state that the threads can reach, an object of the list that is no
    longer being collected is reachable from outside the list, the count of every
    other one is at least the number of its references from outside, and the list
    is intact. *)
Theorem parallel_marks_sound s base unreachable l perm hs e0 e1 s' hs' mp x :
  par_collectable s hs base unreachable l perm e0 e1 ->
  parallel_run permanent_generation s base (GCMem hs w) (s', hs', mp) -> x ∈ filter mortal l ->
  ∃ n r, hs' !! x = Some (GCHead n (refs_word r (bool_decide (Ci_gc_is_collecting_atomic hs' x = Some true)) (fin x))) ∧
    (Ci_gc_is_collecting_atomic hs' x = Some true ∧ external w (filter mortal l) x <= r ∨
     Ci_gc_is_collecting_atomic hs' x = Some false ∧ r = 1 ∧ reachable w (filter mortal l) x).
Proof.
  intros Hpc Hr Hx. destruct (run_rep _ _ _ _ _ _ _ _ _ Hpc Hr) as (hs1 & parts & V & HU & HP & _ & HR).
  pose proof (rp_heads _ _ _ _ _ _ _ _ _ _ _ _ _ HR) as HO. pose proof (rp_inv _ _ _ _ _ _ _ _ _ _ _ _ _ HR) as HV. simpl in *.
  destruct (heads_lookup _ _ _ _ _ _ _ _ HO Hx) as (n & Hl). unfold Ci_gc_is_collecting_atomic, atomic_prev. rewrite Hl. simpl.
  unfold mark_word in *. case_decide as Hm.
  - rewrite word_collecting, bool_decide_eq_false_2 by done. exists n, 1. split; [done|]. right. split_and!; [done|done|].
    destruct (vi_phase _ _ _ _ _ _ HV) as [HB|HA]; [exfalso; rewrite (be_marked _ _ _ _ _ HB) in Hm; set_solver|].
    by apply (mk_sound _ _ _ _ (af_marks _ _ _ _ _ HA)).
  - rewrite word_collecting, bool_decide_eq_true_2 by done. eexists n, _. split; [done|]. left. split; [done|].
    destruct (vi_phase _ _ _ _ _ _ HV) as [HB|HA].
    + destruct (be_refs _ _ _ _ _ HB x Hx) as [-> _]. pose proof (zsum_nonneg (λ v, count x (todo_of v)) (v_ws V) ltac:(intros; apply count_nonneg)). lia.
    + by rewrite (mk_refs _ _ _ _ (af_marks _ _ _ _ _ HA)).
Qed.
End whole.

(** ** The life of the state *)

Lemma par_new_ready generations gen num_threads ncpu ok : generations <= 2 ^ 31 -> 0 <= gen ->
  0 <= num_threads < 2 ^ 31 -> 0 <= ncpu < 2 ^ 31 ->
  match Ci_ParGCState_New generations gen num_threads ncpu ok with
  | Some (inl e) => generations <= gen ∧ e = PyErr ValueError "invalid generation" ∨
      gen < generations ∧ ok = false ∧ e = PyErr MemoryError "out of memory"
  | Some (inr s) => gen < generations ∧ ok = true ∧ min_gen s = gen ∧ Ready s 0 0 ∧ (∀ i, reach_of s i <= 1) ∧
      num_workers s = if num_threads =? 0 then Z.max 1 (ncpu `div` 2) else num_threads
  | None => False
  end.
Proof.
  intros Hg Hgen Hn Hc. unfold Ci_ParGCState_New. destruct (Z.leb_spec generations gen) as [Hle|Hlt]; [by left|].
  destruct ok; [|by right]. destruct init_ok as (d & Hd & HD & Hcont). unfold Ci_ParGCWorker_Init. rewrite Hd. simpl.
  set (n := if num_threads =? 0 then _ else _).
  assert (Hnum : n = (if num_threads =? 0 then Z.max 1 (ncpu `div` 2) else num_threads) ∧ 1 <= n < 2 ^ 31).
  { unfold n. destruct (Z.eqb_spec num_threads 0); [|lia]. unfold Ci_get_default_num_par_gc_threads.
    rewrite Z.quot_div_nonneg by lia. pose proof (Z.div_lt ncpu 2). assert (0 <= ncpu `div` 2 < 2 ^ 31).
    { split; [apply Z.div_pos; lia|]. apply Z.div_lt_upper_bound; lia. }
    destruct (Z.ltb_spec 0 (ncpu `div` 2)); rewrite size_t_small by (unfold SIZE_T_MOD; lia); lia. }
  clearbody n. destruct Hnum as [Hnum Hr].
  assert (Hlen : Zlen (replicate (Z.to_nat n) (ParGCWorker (GCSlice 0 0) d WorkerDone)) = n) by (unfold Zlen; rewrite length_replicate; lia).
  assert (Hbar : ∀ k, 0 <= k < 2 ^ 31 + 1 -> Ci_Barrier_Init k = Barrier k k 0).
  { intros k Hk. unfold Ci_Barrier_Init. assert (uint (int k) = k) as ->; [|done]. unfold uint, int.
    rewrite Zminus_mod_idemp_l, Z.add_simpl_r. apply Z.mod_small. lia. }
  split_and!; [done|done|unfold int; rewrite Z.mod_small; lia| | |].
  - split; unfold num_workers; simpl workers; rewrite ?Hlen; [done|lia|apply Hbar; lia| |done|done|].
    + rewrite size_t_small by (unfold SIZE_T_MOD; lia). apply Hbar. lia.
    + intros i wk [-> _]%lookup_replicate. done.
  - intros i. unfold reach_of. simpl. destruct (_ !! i) as [wk|] eqn:Hi; [|simpl; lia]. apply lookup_replicate in Hi as [-> _]. simpl.
    unfold Ci_WSDeque_Init in Hd. destruct (Ci_WSArray_New kCiParGCInitialArrSize); [|done]. simpl in Hd. by injection Hd as <-.
  - unfold num_workers. simpl. by rewrite Hlen.
Qed.
(** C16. A new collector has the number of workers asked for, or the default one, and
    is ready for a collection; it is refused with [ValueError] for a generation
    that does not exist, and with [MemoryError] when there is no memory. *)
Theorem par_state_new_ready generations gen num_threads ncpu ok : generations <= 2 ^ 31 -> 0 <= gen ->
  0 <= num_threads < 2 ^ 31 -> 0 <= ncpu < 2 ^ 31 ->
  match Ci_ParGCState_New generations gen num_threads ncpu ok with
  | Some (inl e) => generations <= gen ∧ e = PyErr ValueError "invalid generation" ∨
      gen < generations ∧ ok = false ∧ e = PyErr MemoryError "out of memory"
  | Some (inr s) => gen < generations ∧ ok = true ∧ min_gen s = gen ∧ Ready s 0 0 ∧ (∀ i, reach_of s i <= 1) ∧
      num_workers s = if num_threads =? 0 then Z.max 1 (ncpu `div` 2) else num_threads
  | None => False
  end.
Proof. apply par_new_ready. Qed.

(** ** Witnesses: two workers on the heap of [GcDemo] *)

Definition demo_state : Ci_ParGCState :=
  match Ci_ParGCState_New 3 0 2 8 true with
  | Some (inr s) => s
  | _ => ParGCState 0 (Barrier 0 0 0) 0 None 0 (Barrier 0 0 0) 0 []
  end.
(** The threads take turns; who waits loses its turn. *)
Definition demo_turn (i : nat) (c : Ci_ParGCState * gmap Z gchead * main_pc) : option (Ci_ParGCState * gmap Z gchead * main_pc) :=
  let '(s, hs, mp) := c in
  if (i <? 2)%nat then r ← worker_step demo_gc s hs i 0; Some (r, mp) else r ← main_step s mp; Some (r.1, hs, r.2).
Fixpoint demo_turns (n i : nat) (c : Ci_ParGCState * gmap Z gchead * main_pc) : Ci_ParGCState * gmap Z gchead * main_pc :=
  match n with O => c | S n => demo_turns n (if (i <? 2)%nat then S i else 0) (default c (demo_turn i c)) end.
Lemma demo_turns_steps n : ∀ i c, rtc (par_step demo_gc) c (demo_turns n i c).
Proof.
  induction n as [|n IH]; intros i c; simpl; [done|]. etrans; [|apply IH].
  destruct c as [[s hs] mp]. unfold demo_turn. destruct (i <? 2)%nat.
  - destruct (worker_step demo_gc s hs i 0) as [[s' hs']|] eqn:Hs; simpl; [|done]. apply rtc_once. by eapply par_worker.
  - destruct (main_step s mp) as [[s' mp']|] eqn:Hs; simpl; [|done]. apply rtc_once. by apply par_main.
Qed.
Definition demo_start : Ci_ParGCState * gmap Z gchead * main_pc :=
  match update_refs 64 96 demo_young with
  | Ret n m =>
      match Ci_assign_worker_slices 2 96 n m with
      | Ret sl m => (start_workers demo_state sl, heads m, MainArrive)
      | _ => (demo_state, ∅, MainDone)
      end
  | _ => (demo_state, ∅, MainDone)
  end.
Lemma demo_run n : parallel_run 64 demo_state 96 demo_young (demo_turns n 0 demo_start).
Proof.
  destruct (update_refs 64 96 demo_young) as [k m1| | |] eqn:Hu; [|by vm_compute in Hu..].
  assert (Hk : k = 7) by (vm_compute in Hu; by injection Hu).
  destruct (Ci_assign_worker_slices 2 96 7 m1) as [sl m2| | |] eqn:Ha.
  2-4: exfalso; assert (Hd : match update_refs 64 96 demo_young with
    | Ret n m => match Ci_assign_worker_slices 2 96 n m with Ret _ _ => True | _ => False end | _ => False end) by (by vm_compute);
    by rewrite Hu, Hk, Ha in Hd.
  assert (Hs : demo_start = (start_workers demo_state sl, heads m2, MainArrive)) by (unfold demo_start; by rewrite Hu, Hk, Ha).
  eapply parallel_run_to; [exact Hu|by subst k|by subst k|]. rewrite Hs.
  assert (world m2 = demo_gc) as ->; [|apply demo_turns_steps].
  assert (Hd : match update_refs 64 96 demo_young with
    | Ret n m => match Ci_assign_worker_slices 2 96 n m with Ret _ m => world m = demo_gc | _ => False end | _ => False end) by (by vm_compute).
  by rewrite Hu, Hk, Ha in Hd.
Qed.
Definition demo_end : Ci_ParGCState * gmap Z gchead * main_pc := demo_turns 300 0 demo_start.
Definition demo_after : gcmem demo_heap_world :=
  match (_ ← gc_list_init 32; Ci_move_unreachable_parallel 96 32) (set_heads demo_end.1.2 demo_young) with
  | Ret _ m => m
  | _ => demo_young
  end.
Lemma returns_unit (o : outcome (gcmem demo_heap_world) unit) : match o with Ret _ _ => true | _ => false end = true ->
  o = Ret tt match o with Ret _ m => m | _ => demo_young end.
Proof. by destruct o as [[] m| | |]. Qed.
Lemma done_pair (c : Ci_ParGCState * gmap Z gchead * main_pc) : c.2 = MainDone -> c = (c.1.1, c.1.2, MainDone).
Proof. destruct c as [[s hs] mp]. by intros [= ->]. Qed.
Lemma demo_deduce_parallel : deduce_parallel 64 demo_state 96 32 demo_young demo_end.1.1 demo_after.
Proof.
  apply (deduce_many _ _ _ _ _ _ demo_end.1.2).
  - rewrite <- (done_pair demo_end) by by vm_compute. apply demo_run.
  - apply (returns_unit ((_ ← gc_list_init 32; Ci_move_unreachable_parallel 96 32) (set_heads demo_end.1.2 demo_young))). by vm_compute.
Qed.
(** The same split as that of the serial collector. *)
Example demo_parallel_split : reached demo_after = ([1000; 1032; 1064; 1224], demo_garbage).
Proof. by vm_compute. Qed.
Lemma demo_par_collectable : par_collectable demo_fin demo_gc 64 demo_state (heads demo_young) 96 32 demo_objs [] 0 0.
Proof.
  pose proof (par_new_ready 3 0 2 8 true ltac:(lia) ltac:(lia) ltac:(lia) ltac:(lia)) as H.
  assert (Hs : Ci_ParGCState_New 3 0 2 8 true = Some (inr demo_state)) by by vm_compute.
  rewrite Hs in H. destruct H as (_ & _ & _ & H & Hr & _). split; [apply demo_young_collectable|exact H| |done].
  intros i. specialize (Hr i). lia.
Qed.

Lemma parallel_deduce_correct_witness :
  (∃ xs us hs', demo_after = GCMem hs' demo_gc ∧
     xs ++ us ≡ₚ filter (λ x, Py_IsImmortal demo_gc (FROM_GC x) = false) demo_objs ∧
     (∀ x, x ∈ xs <-> reachable demo_gc (filter (λ x, Py_IsImmortal demo_gc (FROM_GC x) = false) demo_objs) x) ∧
     glist hs' (ptr demo_fin false) 96 xs ∧ flist hs' (ptr demo_fin true) 32 us ∧
     glist hs' (ptr demo_fin false) 64 ([] ++ filter (λ x, Py_IsImmortal demo_gc (FROM_GC x) = true) demo_objs) ∧
     agree_off (32 :: (96 :: demo_objs) ++ [64]) (heads demo_young) hs') ∧
  ∃ e0' e1', Ready demo_end.1.1 e0' e1' ∧ num_workers demo_end.1.1 = num_workers demo_state ∧
    ∀ i, (i < length (workers demo_end.1.1))%nat ->
      reach_of demo_end.1.1 i <= reach_of demo_state i + Zlen (filter (λ x, Py_IsImmortal demo_gc (FROM_GC x) = false) demo_objs).
Proof.
  exact (parallel_deduce_correct demo_fin demo_gc 64 demo_state 96 32 demo_objs [] (heads demo_young) 0 0 demo_end.1.1 demo_after
    demo_par_collectable demo_deduce_parallel).
Defined.
(** In the middle of the marking. *)
Definition demo_middle : Ci_ParGCState * gmap Z gchead * main_pc := demo_turns 150 0 demo_start.
Lemma demo_middle_run : parallel_run 64 demo_state 96 demo_young (demo_middle.1.1, demo_middle.1.2, demo_middle.2).
Proof. rewrite <- !surjective_pairing. apply demo_run. Qed.
Lemma parallel_progress_witness :
  (∀ i wk rand, workers demo_middle.1.1 !! i = Some wk -> worker_waits demo_middle.1.1 (w_pc wk) = false ->
     is_Some (worker_step demo_gc demo_middle.1.1 demo_middle.1.2 i rand)) ∧
  ((∃ c, par_step demo_gc (demo_middle.1.1, demo_middle.1.2, demo_middle.2) c) ∨
   demo_middle.2 = MainDone ∧ ∀ i wk, workers demo_middle.1.1 !! i = Some wk -> w_pc wk = WorkerDone).
Proof.
  exact (parallel_progress demo_fin demo_gc 64 demo_state 96 32 demo_objs [] (heads demo_young) 0 0 demo_middle.1.1 demo_middle.1.2
    demo_middle.2 demo_par_collectable demo_middle_run).
Defined.
Lemma parallel_completes_witness :
  (∃ s' m', deduce_parallel 64 demo_state 96 32 demo_young s' m') ∧
  ∀ c, parallel_run 64 demo_state 96 demo_young c ->
    ∃ s' hs' m', rtc (par_step demo_gc) c (s', hs', MainDone) ∧
      (_ ← gc_list_init 32; Ci_move_unreachable_parallel 96 32) (GCMem hs' demo_gc) = Ret tt m' ∧
      deduce_parallel 64 demo_state 96 32 demo_young s' m'.
Proof. exact (parallel_completes demo_fin demo_gc 64 demo_state 96 32 demo_objs [] (heads demo_young) 0 0 demo_par_collectable). Defined.
Lemma parallel_refines_witness :
  ∃ hs1 parts V, mjoin parts = filter (λ x, Py_IsImmortal demo_gc (FROM_GC x) = false) demo_objs ∧ Zlen parts = num_workers demo_state ∧
    rtc (vstep demo_gc (filter (λ x, Py_IsImmortal demo_gc (FROM_GC x) = false) demo_objs) parts) (start_view demo_gc parts demo_state) V ∧
    Rep demo_gc demo_fin 96 (filter (λ x, Py_IsImmortal demo_gc (FROM_GC x) = false) demo_objs) parts hs1 0 0 (reach_of demo_state)
      demo_middle.1.1 demo_middle.1.2 demo_middle.2 V.
Proof.
  exact (parallel_refines demo_fin demo_gc 64 demo_state 96 32 demo_objs [] (heads demo_young) 0 0 demo_middle demo_par_collectable
    (demo_run 150)).
Defined.
Lemma parallel_marks_sound_witness :
  ∃ n r, demo_middle.1.2 !! 1096 =
      Some (GCHead n (refs_word r (bool_decide (Ci_gc_is_collecting_atomic demo_middle.1.2 1096 = Some true)) (demo_fin 1096))) ∧
    (Ci_gc_is_collecting_atomic demo_middle.1.2 1096 = Some true ∧
       external demo_gc (filter (λ x, Py_IsImmortal demo_gc (FROM_GC x) = false) demo_objs) 1096 <= r ∨
     Ci_gc_is_collecting_atomic demo_middle.1.2 1096 = Some false ∧ r = 1 ∧
       reachable demo_gc (filter (λ x, Py_IsImmortal demo_gc (FROM_GC x) = false) demo_objs) 1096).
Proof.
  refine (parallel_marks_sound demo_fin demo_gc 64 demo_state 96 32 demo_objs [] (heads demo_young) 0 0 demo_middle.1.1 demo_middle.1.2
    demo_middle.2 1096 demo_par_collectable demo_middle_run _).
  apply (bool_decide_unpack _). by vm_compute.
Defined.
Lemma par_state_new_ready_witness :
  match Ci_ParGCState_New 3 0 0 9 true with
  | Some (inl e) => 3 <= 0 ∧ e = PyErr ValueError "invalid generation" ∨ 0 < 3 ∧ true = false ∧ e = PyErr MemoryError "out of memory"
  | Some (inr s) => 0 < 3 ∧ true = true ∧ min_gen s = 0 ∧ Ready s 0 0 ∧ (∀ i, reach_of s i <= 1) ∧
      num_workers s = if 0 =? 0 then Z.max 1 (9 `div` 2) else 0
  | None => False
  end.
Proof. refine (par_state_new_ready 3 0 0 9 true _ _ _ _); lia. Defined.
